(* ===== verification/_CoqProject ===== *)
-Q . S2P
Prelude.v
Digits.v
AgentEvidence.v
AgentSession.v
AgentGate.v
AgentOsc.v
AgentPipeline.v
AttachTypes.v
AttachCodec.v
AttachProofs.v
AttachWire.v
Clipboard.v
ClipboardControl.v
PaneLayout.v
PaneProofs.v
Supervisor.v
SupervisorProofs.v
WorkflowModel.v
WorkflowStore.v
WorkflowVerify.v
WorkflowService.v
WorkflowLogic.v
WorkflowRuns.v
WorkflowInvariant.v
WorkflowDemo.v
WorkflowEpoch.v
WorkflowProofs.v
WorkflowVerifyProofs.v
WorkflowSpool.v
OrderedMap.v
EnvModel.v
EnvOrder.v
EnvProofs.v
Paths.v
Config.v
MountProofs.v
ConfigProofs.v
WorkspaceCommands.v
LaunchProofs.v
Isolation.v
IsolationProofs.v
RefTransaction.v
RefProofs.v
CleanupWorld.v
Cleanup.v
CleanupLogic.v
GitRefs.v
CleanupInvariant.v
CleanupSteps.v
CleanupProofs.v
CleanupRecovery.v
CleanupDemo.v
CleanupFrame.v
Finalize.v
FinalizeProofs.v
Money.v
MoneyProofs.v
MoneyText.v
OpenRouter.v
DecimalProofs.v
SpendProofs.v
SpendText.v
WorkflowSpec.v
WorkflowPlan.v
SpecProofs.v
PlanHash.v
PlanProofs.v
PlanStoreProofs.v
PlanBinding.v
PlanDemo.v
FileExport.v
ExportPaths.v
ExportProofs.v
ExportDelivery.v
FileSource.v
SourceProofs.v
ExportEnd.v
