(* ===== verification/Prelude.v ===== *)
(** * jackin: a verification library

    jackin runs coding agents in containers.  A host program ([crates/apps/jackin])
    reads the operator's configuration, decides what a container mounts and which
    environment it gets, starts it, and attaches a terminal to it.  Inside the
    container a daemon ([crates/apps/jackin-capsule]) multiplexes the agents'
    terminals into tabs and panes, watches what each agent is doing, and talks to
    the host over a socket.  A workflow service ([jackin-workflow]) drives agents
    through implementation, tests and review with its state in SQLite.  Work in
    isolated copies of a repository outlives its container until it is safe to
    delete ([jackin-isolation]).

    ** The files and the code they model

    - [Prelude]: outcomes ([Ok], [Err], [Panic], and sums for typed errors),
      machine integers, bytes and UTF-8 strings, shared tactics.  [OrderedMap]:
      [BTreeMap] and [BTreeSet] over [gmap] and [gset], string methods.  [Paths]:
      [std::path], the container and host path normalisations, and the interface
      [FileSystem] with its laws.  [Digits]: numbers as lists of decimal digits.
    - Agent status ([jackin-agent-status], [jackin-protocol/src/agent_status.rs]):
      [AgentEvidence] (evidence and its arbitration), [AgentSession] (debounce,
      watchdog, the published state), [AgentGate] (hook events), [AgentOsc]
      (terminal marks), [AgentPipeline] (the session that composes them).
    - Attach protocol ([jackin-protocol/src/attach.rs]): [AttachTypes],
      [AttachCodec], with the proofs in [AttachProofs] and [AttachWire].
      [Clipboard] and [ClipboardControl]: image transfers over it, from the host
      sender ([jackin-runtime-host-attach]) to the capsule's control channel.
      [FileExport]: files sent to the host's downloads, on a disk with inodes;
      [ExportPaths] (names and free paths), [ExportProofs] (confinement),
      [ExportDelivery] (what a session leaves).  [FileSource]: the capsule reads the
      file while other processes change the file system, a history indexed by
      calls; [SourceProofs] (snapshot, termination), [ExportEnd] (both sides).
    - Capsule multiplexer: [PaneLayout] (the split tree of [tui/layout]),
      [Supervisor] (tabs, panes, sessions of [daemon]), proofs in [PaneProofs] and
      [SupervisorProofs].
    - Workflow service: [WorkflowModel] (the reducer), [WorkflowStore] (the SQLite
      tables and transactions), [WorkflowVerify] (tests, reviews, feedback),
      [WorkflowService] (every operation and recovery), [WorkflowSpool] (terminal
      text); the program logic [WorkflowLogic] and the proofs [WorkflowRuns],
      [WorkflowInvariant], [WorkflowEpoch], [WorkflowProofs],
      [WorkflowVerifyProofs]; [WorkflowDemo] runs a complete workflow.
    - Workflow definitions ([jackin-workflow-spec], the plan command of
      [app/workflow_cmd.rs], the test binding of [host_daemon.rs]): [WorkflowSpec]
      (JSON values, the checked definition, frozen inputs, plans and their hash)
      and [WorkflowPlan] (evaluation through the helper, the input store, planning,
      the check before a test is recorded); proofs in [SpecProofs], [PlanHash],
      [PlanProofs], [PlanStoreProofs] and [PlanBinding]; [PlanDemo] plans a
      workflow and records its test.
    - Role environments: [EnvModel] (declarations, validation, order, resolution;
      [jackin-core/src/env_model.rs], [jackin-manifest], [jackin-env]), proofs in
      [EnvOrder] and [EnvProofs].
    - Configuration ([jackin-config], selectors of [jackin-core]): [Config], with
      [MountProofs] (the redundancy planner), [ConfigProofs] (workspaces stay well
      formed), [WorkspaceCommands] (the commands of [workspace_cmd.rs]) and
      [LaunchProofs] (what a launch mounts).
    - Mount isolation ([jackin-isolation], [jackin-core/src/worktree_dirty.rs]):
      [Isolation] (records and their migration, holds, branch names, the
      assessment of a work tree, drift), proofs in [IsolationProofs].
      [RefTransaction] (deleting a branch from loose and packed refs), proofs in
      [RefProofs].  [CleanupWorld] is the world a removal acts on: directories
      with inodes, repositories, journals, lock files, and a monad whose every
      call may fail or be the last one of its process; [Cleanup] is the removal of
      [cleanup.rs] written in it.  [CleanupLogic] is a program logic for that
      monad, [GitRefs] what [git for-each-ref] promises, [CleanupInvariant] the
      shapes a removal passes through, [CleanupSteps] and [CleanupProofs] the
      triples of its phases, [CleanupRecovery] the theorems on sequences of
      attempts, [CleanupDemo] a concrete removal.  [CleanupFrame] shows what a
      removal leaves alone, [Finalize] is the end of a session ([finalize.rs])
      and [FinalizeProofs] what it keeps.
    - Usage amounts: [Money] ([jackin-protocol/src/control.rs] and
      [control/money_numeric.rs], the spend of a quota of
      [jackin-usage-broker-publish]), proofs in [MoneyProofs] and [MoneyText];
      [OpenRouter] (decimal text read into digit arrays,
      [jackin-usage-provider-openrouter]), proofs in [DecimalProofs],
      [SpendProofs] and [SpendText].

    A record keeps the fields that the modelled operations read or write, under
    the source's names where they do not clash; an enum is an inductive type in a
    module of its name; a method is a definition that takes and returns the state
    it changes.  An error carries the format string of the site that raises it.

    ** What the theorems show

    - What the reader makes of every attach frame that can be encoded, in both
      directions: the same frame but for a few listed cases; the caps of what it
      reads; round trips of role selectors; an image sent by the host arrives or is
      answered with an error.
    - A container cannot touch the host's files through exports, as long as the system
      answers whether a path exists; an export holds the bytes read from one file
      that was reached without links and had the same fingerprint before and after, its
      whole contents if nothing changed them, and arrives as read; no temporary file
      outlives a session whose calls succeed.
    - Arbitration returns the verdict of the strongest evidence and no other; the
      published state,
      the hook gate and the session keep their invariants on every sequence of
      events.
    - Panes tile their rectangle; splitting and removing are inverse; the
      supervisor's tabs, trees, sessions and codenames stay consistent under every
      operation.
    - The workflow service refines a small transition system under every pattern
      of database failures; acceptance is sound with respect to the stored
      evidence; the tables keep their invariant; each opening of the store refuses the
      epoch of the one before; recovery marks exactly the interrupted deliveries as
      uncertain; the reducer terminates.
    - A definition is accepted exactly when it fills the template of the release;
      a plan is compiled exactly when it is authorized, and stays in its bounds; a
      plan hash stands for the whole plan, unless SHA-256 takes the very texts
      compared to one digest; stores keep the inputs of every readable plan; the script
      of a recorded test is the one that was frozen.
    - Kahn's order is the least valid order and exists exactly when some order
      does; a validated manifest resolves with every reference bound.
    - Collapsing shared mounts keeps what the container sees, when no third mount lies
      between; stored workspaces are well formed; an edit that keeps the mount of the
      work directory does what its plan says; a launch mounts existing sources at
      distinct destinations.
    - The removal of an isolated copy survives any number of failures and crashes:
      an undisturbed attempt finishes it, nothing else is touched, and the record
      stays until everything it names is gone.  The end of a session deletes only
      work that was assessed clean or that the operator chose to discard, never
      work on hold.
    - An amount of money denotes a rational number.  Comparing, subtracting and
      judging a spend agree with that number; reading a JSON number keeps its
      value or reports that it does not fit; sums and limits are exact; what is
      printed reads back as the same amount.  The two roundings of an amount
      differ exactly on ties.
    - Where the code departs from its purpose the theorem states what it does:
      a resolution that keeps a run blocked, an edit whose collapsed mounts are
      refused, a truncated input that stays in the store, an earlier owner that is not
      fenced, a file replaced because a question about it failed, a shared mount lost
      inside an isolated one.

    ** Parameters

    Code outside the repository is an argument with named laws and an instance
    that satisfies them: [serde_json] ([SerdeJson], [ValueText]), SHA-256 ([Sha256]), UUID
    parsing, Unicode lower casing, the file system ([FileSystem]), the operator
    ([EnvPrompter], [Operator]), the process table and the screen rules (arguments
    of a status tick), the answers of [git] and Docker.  In [WorkflowStore] every
    SQL statement may be refused by the environment; [COMMIT] and [ROLLBACK] are
    taken to succeed.  In [CleanupWorld] every call may fail, with its effect or
    without it, or kill the process; processes of the same removal come one after
    the other, each with a pid whose quarantine names are not yet in use, and the
    registry lock, which the operating system releases with its process, orders
    them; work trees are directories by their path, none inside another.  In [WorkflowPlan] every change of the plan store may be refused, and a
    write may stop after some of its bytes; runs of the plan command come one
    after the other.  File names are UTF-8, so that reading
    one lossily changes nothing.  In [FileExport] every call on the host disk may fail,
    the question whether a path exists included; a link is one more name of its file, or
    leads nowhere; no other program changes the export directory during a session.  In
    [FileSource] the number of an open file is not reused; nothing is assumed of
    fingerprints.

    ** Bounds and fuel

    Loops that are not structural take fuel that their callers set high enough:
    the bytes that remain for a framed read, the length of the text for scans and
    redaction, the number of characters for sanitising, the sizes of the live and
    retired name tables for the search of a free codename, the number of
    declarations plus one for Kahn's loop, one more than the files of the disk for
    the number of an exported file.  Padding a decimal with zeros is cut
    off one past the size of its array, where the code has already failed; the
    length of a text is at most 2^62, so that its counters do not wrap.  The theorems on these functions hold
    without a premise on fuel.  [u8], [u16], [u32], [u64] are [Z] with their
    wrap-around or saturation written out; [f32] is IEEE binary32 through
    [SpecFloat].

    ** Not modelled

    Drawing with ratatui, PTY and process handling, the Docker and Apple container
    pipelines, provider HTTP adapters, TOML editing and schema migrations of
    configuration files, telemetry, developer tools: they are input and output, or
    derived code, around the logic above.  Not yet modelled, though within reach:
    the choice of accounts and roles for a plan, the screen selection that starts an
    export, the quotas of the other providers, the capsule's input parser. *)

From stdpp Require Import base list gmap strings.
From Stdlib Require Import ZArith Lia Bool Strings.Byte.
From coqutil Require Byte.

#[global] Open Scope Z_scope.
Set Default Goal Selector "!".

(** ** Outcomes

    A Rust function that returns [anyhow::Result] ends in [Ok] or [Err]; one
    that reaches a failing [assert!] ends in [Panic].  An error carries the
    format string of the [bail!] or [anyhow!] site that produced it, with its
    interpolation holes as written in the source, and the [field] or [label]
    argument where the site has one. *)

Record error := mk_error { err_fmt : string; err_arg : string }.

Inductive res (A : Type) :=
| Ok (a : A)
| Err (e : error)
| Panic.
Arguments Ok {A} _.
Arguments Err {A} _.
Arguments Panic {A}.

#[global] Instance error_eq_dec : EqDecision error.
Proof. solve_decision. Defined.
#[global] Instance res_eq_dec {A} `{EqDecision A} : EqDecision (res A).
Proof. solve_decision. Defined.

#[global] Instance res_ret : MRet res := @Ok.
#[global] Instance res_bind : MBind res := λ A B f r,
  match r with
  | Ok a => f a
  | Err e => Err e
  | Panic => Panic
  end.
#[global] Instance res_fmap : FMap res := λ A B f r,
  match r with
  | Ok a => Ok (f a)
  | Err e => Err e
  | Panic => Panic
  end.

Definition bail {A} (fmt : string) : res A := Err (mk_error fmt "").
Definition bail_at {A} (fmt arg : string) : res A := Err (mk_error fmt arg).

(** [guard_or c fmt]: the source's [if !c { bail!(fmt) }]. *)
Definition ensure (c : bool) (fmt : string) : res () :=
  if c then Ok () else bail fmt.

(** [assert!(c)] *)
Definition assert_or_panic (c : bool) : res () :=
  if c then Ok () else Panic.

Definition is_ok {A} (r : res A) : bool :=
  match r with Ok _ => true | _ => false end.

Lemma Ok_inj {A} (a b : A) : Ok a = Ok b → a = b.
Proof. by intros [= ->]. Qed.

Lemma bind_ok {A B} (r : res A) (f : A → res B) (b : B) :
  r ≫= f = Ok b ↔ ∃ a, r = Ok a ∧ f a = Ok b.
Proof. destruct r; cbn; naive_solver. Qed.

Lemma ensure_ok c fmt u : ensure c fmt = Ok u ↔ c = true.
Proof. destruct c, u; cbn; naive_solver. Qed.

Lemma assert_ok c u : assert_or_panic c = Ok u ↔ c = true.
Proof. destruct c, u; cbn; naive_solver. Qed.

(** A [Result] with an error type of its own is a sum. *)

#[global] Instance sum_ret {E} : MRet (sum E) := @inr E.
#[global] Instance sum_mbind {E} : MBind (sum E) := λ A B f r,
  match r with inl e => inl e | inr a => f a end.

Definition check (c : bool) {E} (e : E) : E + () := if c then inr () else inl e.
Definition lift_err {E F A} (f : E → F) (r : E + A) : F + A :=
  match r with inl e => inl (f e) | inr a => inr a end.
Definition opt_err {E A} (o : option A) (e : E) : E + A :=
  match o with Some a => inr a | None => inl e end.

Lemma sum_bind_inr {E A B} (r : E + A) (f : A → E + B) b :
  r ≫= f = inr b ↔ ∃ a, r = inr a ∧ f a = inr b.
Proof. destruct r; cbn; naive_solver. Qed.

Lemma check_inr c {E} (e : E) u : check c e = inr u ↔ c = true.
Proof. destruct c, u; cbn; naive_solver. Qed.

(** Turn [c = inr _] for a chain of binds into the facts of each step. *)
Ltac invert_inr :=
  repeat match goal with
  | H : _ ≫= _ = inr _ |- _ => apply sum_bind_inr in H; destruct H as (? & ? & H)
  | H : check _ _ = inr _ |- _ => apply check_inr in H
  | H : inr _ = inr _ |- _ => apply (inj inr) in H
  | H : inl _ = inr _ |- _ => discriminate H
  end.

(** ** Machine integers

    A w-bit unsigned integer is a [Z] in its range. *)

Definition U8_MAX : Z := 255.
Definition U16_MAX : Z := 65535.
Definition U32_MAX : Z := 4294967295.
Definition U64_MAX : Z := 18446744073709551615.

Definition in_range (max z : Z) : Prop := 0 ≤ z ≤ max.
Definition in_rangeb (max z : Z) : bool := (0 <=? z) && (z <=? max).

Notation is_u8 := (in_range U8_MAX).
Notation is_u16 := (in_range U16_MAX).
Notation is_u32 := (in_range U32_MAX).
Notation is_u64 := (in_range U64_MAX).

#[global] Instance in_range_dec max z : Decision (in_range max z).
Proof. unfold in_range. apply _. Defined.

Definition sat_add (max a b : Z) : Z := Z.min max (a + b).
Definition sat_sub (a b : Z) : Z := Z.max 0 (a - b).
Definition sat_mul (max a b : Z) : Z := Z.min max (a * b).

(** The release profile of the workspace does not set [overflow-checks], so
    [a + b] on a [u16] wraps. *)
Definition wrap16 (z : Z) : Z := z mod 65536.
Definition add16 (a b : Z) : Z := wrap16 (a + b).
Definition wrap64 (z : Z) : Z := z mod 18446744073709551616.
Definition add64 (a b : Z) : Z := wrap64 (a + b).
Definition sub16 (a b : Z) : Z := wrap16 (a - b).

Lemma wrap16_small z : is_u16 z → wrap16 z = z.
Proof. intros H. apply Z.mod_small. unfold in_range, U16_MAX in H. lia. Qed.

Lemma wrap16_range z : is_u16 (wrap16 z).
Proof.
  unfold wrap16, in_range, U16_MAX.
  pose proof (Z.mod_pos_bound z 65536). lia.
Qed.

(** ** Bytes and big-endian integers *)

Abbreviation bytes := (list byte).

#[global] Instance byte_eq_decision : EqDecision byte := Byte.byte_eq_dec.

Definition Z_of_byte (b : byte) : Z := coqutil.Byte.byte.unsigned b.
Definition byte_of_Z (z : Z) : byte := coqutil.Byte.byte.of_Z z.

(** The bytes of a number, least significant first. *)
Fixpoint le_split (n : nat) (z : Z) : bytes :=
  match n with
  | O => []
  | S n => byte_of_Z z :: le_split n (z / 256)
  end.
Fixpoint le_combine (bs : bytes) : Z :=
  match bs with
  | [] => 0
  | b :: bs => Z_of_byte b + 256 * le_combine bs
  end.

(** [{u16,u32,u64}::to_be_bytes] at [n] = 2, 4, 8. *)
Definition to_be_bytes (n : nat) (z : Z) : bytes := rev (le_split n z).
Definition from_be_bytes (bs : bytes) : Z := le_combine (rev bs).

#[global] Arguments to_be_bytes : simpl never.
#[global] Arguments from_be_bytes : simpl never.

Lemma Z_of_byte_of_Z z : Z_of_byte (byte_of_Z z) = z mod 256.
Proof. apply coqutil.Byte.byte.unsigned_of_Z. Qed.

Lemma byte_of_Z_of_byte b : byte_of_Z (Z_of_byte b) = b.
Proof. by destruct b. Qed.

Lemma length_le_split n z : length (le_split n z) = n.
Proof. revert z. induction n as [|n IH]; intros z; cbn; [done|]. by rewrite IH. Qed.

Lemma le_combine_bound bs : 0 ≤ le_combine bs < 256 ^ Z.of_nat (length bs).
Proof.
  induction bs as [|b bs IH]; cbn [le_combine length]; [done|].
  rewrite Nat2Z.inj_succ, Z.pow_succ_r by lia.
  assert (0 ≤ Z_of_byte b < 256) by apply coqutil.Byte.byte.unsigned_range. lia.
Qed.

Lemma le_combine_split n z : 0 ≤ z < 256 ^ Z.of_nat n → le_combine (le_split n z) = z.
Proof.
  revert z. induction n as [|n IH]; intros z; cbn [le_combine le_split]; [cbn; lia|].
  rewrite Nat2Z.inj_succ, Z.pow_succ_r by lia. intros Hz.
  rewrite Z_of_byte_of_Z, IH by (split; [apply Z.div_pos|apply Z.div_lt_upper_bound]; lia).
  pose proof (Z.div_mod z 256). lia.
Qed.

Lemma split_le_combine bs : le_split (length bs) (le_combine bs) = bs.
Proof.
  induction bs as [|b bs IH]; cbn [le_combine le_split length]; [done|].
  assert (0 ≤ Z_of_byte b < 256) by apply coqutil.Byte.byte.unsigned_range.
  replace ((Z_of_byte b + 256 * le_combine bs) / 256) with (le_combine bs)
    by (rewrite Z.mul_comm, Z.div_add by lia; rewrite Z.div_small; lia).
  rewrite IH. f_equal. rewrite <-(byte_of_Z_of_byte b) at 2.
  apply coqutil.Byte.byte.unsigned_inj. change coqutil.Byte.byte.unsigned with Z_of_byte.
  by rewrite !Z_of_byte_of_Z, Z.mul_comm, Z_mod_plus_full.
Qed.

Lemma length_to_be_bytes n z : length (to_be_bytes n z) = n.
Proof. unfold to_be_bytes. by rewrite length_rev, length_le_split. Qed.

Lemma pow_256 n : 256 ^ Z.of_nat n = 2 ^ (8 * Z.of_nat n).
Proof. rewrite Z.pow_mul_r by lia. done. Qed.

Lemma from_to_be_bytes n z :
  0 ≤ z < 2 ^ (Z.of_nat n * 8) → from_be_bytes (to_be_bytes n z) = z.
Proof.
  intros Hz. unfold from_be_bytes, to_be_bytes.
  rewrite rev_involutive, le_combine_split; [done|].
  by rewrite pow_256, Z.mul_comm.
Qed.

Lemma to_from_be_bytes bs : to_be_bytes (length bs) (from_be_bytes bs) = bs.
Proof.
  unfold from_be_bytes, to_be_bytes. rewrite <-(length_rev bs).
  rewrite split_le_combine. apply rev_involutive.
Qed.

Lemma from_be_bytes_range bs :
  0 ≤ from_be_bytes bs < 2 ^ (8 * Z.of_nat (length bs)).
Proof.
  unfold from_be_bytes. rewrite <-(length_rev bs), <-pow_256. apply le_combine_bound.
Qed.

(** ** Rust strings

    A [String] or [&str] is a Rocq [string], a sequence of 8-bit characters
    holding its UTF-8 encoding; [wf_str] is the invariant of the Rust type. *)

Definition as_bytes (s : string) : bytes := String.list_byte_of_string s.
Definition of_bytes (bs : bytes) : string := String.string_of_list_byte bs.

Definition is_cont (b : byte) : bool := in_rangeb 63 (Z_of_byte b - 128).

Definition between (lo hi z : Z) : bool := (lo <=? z) && (z <=? hi).

(** Well-formed UTF-8 byte sequences (the Unicode table of well-formed
    sequences, as checked by [core::str::from_utf8]). *)
Fixpoint utf8_valid (bs : bytes) : bool :=
  match bs with
  | [] => true
  | b0 :: r0 =>
    let c := Z_of_byte b0 in
    if c <? 128 then utf8_valid r0 else
    match r0 with
    | [] => false
    | b1 :: r1 =>
      if between 194 223 c then is_cont b1 && utf8_valid r1 else
      match r1 with
      | [] => false
      | b2 :: r2 =>
        if between 224 239 c then
          is_cont b1 && is_cont b2
          && (if c =? 224 then between 160 191 (Z_of_byte b1)
              else if c =? 237 then between 128 159 (Z_of_byte b1) else true)
          && utf8_valid r2
        else
        match r2 with
        | [] => false
        | b3 :: r3 =>
          between 240 244 c && is_cont b1 && is_cont b2 && is_cont b3
          && (if c =? 240 then between 144 191 (Z_of_byte b1)
              else if c =? 244 then between 128 143 (Z_of_byte b1) else true)
          && utf8_valid r3
        end
      end
    end
  end.

Definition wf_str (s : string) : Prop := utf8_valid (as_bytes s) = true.

(** [std::str::from_utf8] *)
Definition from_utf8 (bs : bytes) : option string :=
  if utf8_valid bs then Some (of_bytes bs) else None.

Definition str_len (s : string) : Z := Z.of_nat (length (as_bytes s)).
Definition blen (bs : bytes) : Z := Z.of_nat (length bs).

Lemma of_as_bytes s : of_bytes (as_bytes s) = s.
Proof. apply String.string_of_list_byte_of_string. Qed.

Lemma as_of_bytes bs : as_bytes (of_bytes bs) = bs.
Proof. apply String.list_byte_of_string_of_list_byte. Qed.

Lemma from_utf8_as_bytes s : wf_str s → from_utf8 (as_bytes s) = Some s.
Proof. unfold wf_str, from_utf8. intros ->. by rewrite of_as_bytes. Qed.

Lemma from_utf8_Some bs s : from_utf8 bs = Some s → wf_str s ∧ as_bytes s = bs.
Proof.
  unfold from_utf8, wf_str. destruct (utf8_valid bs) eqn:E; [|done].
  intros [= <-]. by rewrite as_of_bytes.
Qed.

Lemma as_bytes_nil s : as_bytes s = [] ↔ s = "".
Proof. destruct s; [done|]. split; [|done]. unfold as_bytes. cbn. done. Qed.

(** [char::to_ascii_lowercase] byte by byte, which is what the [str] method
    does: bytes outside ['A'..='Z'] are unchanged. *)
Definition lower_byte (b : byte) : byte :=
  if between 65 90 (Z_of_byte b) then byte_of_Z (Z_of_byte b + 32) else b.

Definition to_ascii_lowercase (s : string) : string :=
  of_bytes (map lower_byte (as_bytes s)).

(** [str::trim]: strip characters with the Unicode White_Space property, whose
    UTF-8 encodings have one, two or three bytes. *)
Definition ws1 (b : byte) : bool :=
  between 9 13 (Z_of_byte b) || (Z_of_byte b =? 32).
Definition ws2 (b c : byte) : bool :=
  (Z_of_byte b =? 194) && ((Z_of_byte c =? 133) || (Z_of_byte c =? 160)).
Definition ws3 (b c d : byte) : bool :=
  let x := Z_of_byte b in let y := Z_of_byte c in let z := Z_of_byte d in
  ((x =? 225) && (y =? 154) && (z =? 128))
  || ((x =? 226) && (y =? 128)
      && (between 128 138 z || (z =? 168) || (z =? 169) || (z =? 175)))
  || ((x =? 226) && (y =? 129) && (z =? 159))
  || ((x =? 227) && (y =? 128) && (z =? 128)).

Section strip.
Context (p1 : byte → bool) (p2 : byte → byte → bool) (p3 : byte → byte → byte → bool).
Fixpoint strip_while (bs : bytes) : bytes :=
  match bs with
  | [] => []
  | b0 :: r0 =>
    if p1 b0 then strip_while r0 else
    match r0 with
    | [] => bs
    | b1 :: r1 =>
      if p2 b0 b1 then strip_while r1 else
      match r1 with
      | [] => bs
      | b2 :: r2 => if p3 b0 b1 b2 then strip_while r2 else bs
      end
    end
  end.
End strip.

Definition trim_bytes (bs : bytes) : bytes :=
  rev (strip_while ws1 (λ c b, ws2 b c) (λ d c b, ws3 b c d)
         (rev (strip_while ws1 ws2 ws3 bs))).
Definition trim (s : string) : string := of_bytes (trim_bytes (as_bytes s)).

Fixpoint bytes_prefix (p bs : bytes) : bool :=
  match p, bs with
  | [], _ => true
  | x :: p', y :: bs' => Byte.eqb x y && bytes_prefix p' bs'
  | _ :: _, [] => false
  end.

Fixpoint bytes_contains (needle bs : bytes) : bool :=
  bytes_prefix needle bs ||
  match bs with [] => false | _ :: bs' => bytes_contains needle bs' end.

Definition str_contains (needle s : string) : bool :=
  bytes_contains (as_bytes needle) (as_bytes s).

(** [str::parse::<u64>]: an optional plus sign and decimal digits. *)
Fixpoint parse_digits (acc : Z) (bs : bytes) : string + Z :=
  match bs with
  | [] => inr acc
  | b :: rest =>
      let c := Z_of_byte b in
      if between 48 57 c then
        let acc' := 10 * acc + (c - 48) in
        if acc' <=? U64_MAX then parse_digits acc' rest
        else inl "number too large to fit in target type"
      else inl "invalid digit found in string"
  end.
Definition parse_u64 (s : string) : string + Z :=
  match as_bytes s with
  | [] => inl "cannot parse integer from empty string"
  | b :: rest =>
      if (Z_of_byte b =? 43) then
        match rest with
        | [] => inl "invalid digit found in string"
        | _ :: _ => parse_digits 0 rest
        end
      else parse_digits 0 (b :: rest)
  end.

Definition starts_with (p s : string) : bool := String.prefix p s.

Definition str_eqb (a b : string) : bool := bool_decide (a = b).

(** [slice::contains(&x)] on strings and the [matches!(s, "a" | "b")] idiom. *)
Definition str_in (s : string) (l : list string) : bool := bool_decide (s ∈ l).

Lemma str_in_cons s x l : str_in s (x :: l) = true ↔ s = x ∨ str_in s l = true.
Proof. unfold str_in. rewrite !bool_decide_eq_true. apply elem_of_cons. Qed.

Definition is_blank (s : string) : bool := str_eqb (trim s) "".

(** [chars().any(char::is_whitespace)] with the extra ASCII characters [p]; the
    encodings of the white space characters start with a byte that no other
    character contains. *)
Fixpoint find_ws_or (p : byte → bool) (bs : bytes) : option nat :=
  match bs with
  | [] => None
  | b0 :: r0 =>
    if p b0 || ws1 b0
       || match r0 with
          | b1 :: r1 => ws2 b0 b1 || match r1 with b2 :: _ => ws3 b0 b1 b2 | [] => false end
          | [] => false
          end
    then Some 0%nat else S <$> find_ws_or p r0
  end.
Definition byte_is (z : Z) (b : byte) : bool := Z_of_byte b =? z.

(** [str::lines]: split at line feeds, without a final empty line, each line
    without a trailing carriage return. *)
Fixpoint split_lf (acc : bytes) (bs : bytes) : list bytes :=
  match bs with
  | [] => match acc with [] => [] | _ => [rev acc] end
  | b :: r => if byte_is 10 b then rev acc :: split_lf [] r else split_lf (b :: acc) r
  end.
Definition strip_cr (bs : bytes) : bytes :=
  match rev bs with
  | b :: r => if byte_is 13 b then rev r else bs
  | [] => bs
  end.
(** A final line without its line feed keeps a trailing carriage return. *)
Fixpoint strip_crs (ended : bool) (ls : list bytes) : list bytes :=
  match ls with
  | [] => []
  | [l] => [if ended then strip_cr l else l]
  | l :: r => strip_cr l :: strip_crs ended r
  end.
Definition ends_lf (bs : bytes) : bool :=
  match rev bs with b :: _ => byte_is 10 b | [] => false end.
Definition lines (s : string) : list string :=
  of_bytes <$> strip_crs (ends_lf (as_bytes s)) (split_lf [] (as_bytes s)).

(** [slice::join] *)
Definition join (sep : string) (l : list string) : string := String.concat sep l.

(** The byte order of [str], lexicographic. *)
Fixpoint bytes_leb (a b : bytes) : bool :=
  match a, b with
  | [], _ => true
  | _ :: _, [] => false
  | x :: a', y :: b' =>
      if Z_of_byte x <? Z_of_byte y then true
      else if Z_of_byte y <? Z_of_byte x then false else bytes_leb a' b'
  end.

(** ** Tactics and hint databases *)

Create HintDb jackin.

Ltac bool_to_prop :=
  repeat match goal with
  | H : andb _ _ = true |- _ => apply andb_true_iff in H; destruct H
  | H : orb _ _ = true |- _ => apply orb_true_iff in H
  | H : andb _ _ = false |- _ => apply andb_false_iff in H
  | H : orb _ _ = false |- _ => apply orb_false_iff in H; destruct H
  | H : negb _ = true |- _ => apply negb_true_iff in H
  | H : negb _ = false |- _ => apply negb_false_iff in H
  | H : (_ <? _) = true |- _ => apply Z.ltb_lt in H
  | H : (_ <? _) = false |- _ => apply Z.ltb_ge in H
  | H : (_ <=? _) = true |- _ => apply Z.leb_le in H
  | H : (_ <=? _) = false |- _ => apply Z.leb_gt in H
  | H : (_ =? _) = true |- _ => apply Z.eqb_eq in H
  | H : (_ =? _) = false |- _ => apply Z.eqb_neq in H
  | H : bool_decide _ = true |- _ => apply bool_decide_eq_true in H
  | H : bool_decide _ = false |- _ => apply bool_decide_eq_false in H
  end.

(** Replace a string known to be in a literal list by each of its values. *)
Ltac str_cases H :=
  repeat (apply str_in_cons in H; destruct H as [->|H]);
  try discriminate H.

(** Case on the scrutinee of a match or an [if], keeping the equation. *)
Ltac split_match :=
  match goal with
  | |- context [match ?x with _ => _ end] => destruct x eqn:?
  end.
Ltac split_match_in H :=
  match type of H with
  | context [match ?x with _ => _ end] => destruct x eqn:?
  end.

(** Turn [c = Ok _] for a chain of binds into the facts of each step. *)
Ltac invert_ok :=
  repeat match goal with
  | H : _ ≫= _ = Ok _ |- _ =>
      apply bind_ok in H; destruct H as (? & ? & H)
  | H : ensure _ _ = Ok _ |- _ => apply ensure_ok in H
  | H : assert_or_panic _ = Ok _ |- _ => apply assert_ok in H
  | H : Ok _ = Ok _ |- _ => apply Ok_inj in H
  | H : Err _ = Ok _ |- _ => discriminate H
  | H : bail _ = Ok _ |- _ => discriminate H
  | H : bail_at _ _ = Ok _ |- _ => discriminate H
  | H : Panic = Ok _ |- _ => discriminate H
  end.

(** Unfold every range predicate and finish with linear arithmetic. *)
Ltac range_lia :=
  unfold in_range, U8_MAX, U16_MAX, U32_MAX, U64_MAX in *; lia.
