(* ===== verification/Digits.v ===== *)
(** * Decimal digits

    Numbers as lists of decimal digits, least significant first, the way the money
    arithmetic of the repository keeps them: their value, their order, their
    spelling in text and the normal form without leading zeros. *)

From stdpp Require Import base list strings pretty.
From Stdlib Require Import ZArith Lia Bool Strings.Byte Strings.Ascii.
From S2P Require Import Prelude.

Definition is_digit (d : Z) : Prop := 0 ≤ d ≤ 9.
Abbreviation all_digits := (Forall is_digit).

Fixpoint dval (ds : list Z) : Z :=
  match ds with
  | [] => 0
  | d :: ds => d + 10 * dval ds
  end.

(** ** Values *)

Lemma pow10_pos n : 0 < 10 ^ Z.of_nat n.
Proof. apply Z.pow_pos_nonneg; lia. Qed.
Lemma pow10_S n : 10 ^ Z.of_nat (S n) = 10 * 10 ^ Z.of_nat n.
Proof. rewrite Nat2Z.inj_succ, Z.pow_succ_r by lia. done. Qed.

Lemma dval_app l k : dval (l ++ k) = dval l + 10 ^ Z.of_nat (length l) * dval k.
Proof.
  induction l as [|d l IH]; [cbn [app dval length Z.of_nat]; lia|].
  cbn [app dval length]. rewrite IH, pow10_S. lia.
Qed.
Lemma dval_zeros n : dval (replicate n 0) = 0.
Proof. induction n as [|n IH]; [done|]. cbn. by rewrite IH. Qed.
Lemma dval_snoc l d : dval (l ++ [d]) = dval l + 10 ^ Z.of_nat (length l) * d.
Proof. rewrite dval_app. cbn [dval]. lia. Qed.

Lemma dval_bound l : all_digits l → 0 ≤ dval l < 10 ^ Z.of_nat (length l).
Proof.
  induction 1 as [|d l Hd Hl IH]; [done|]. cbn [dval length]. rewrite pow10_S.
  unfold is_digit in Hd. lia.
Qed.

Lemma dval_nonneg l : all_digits l → 0 ≤ dval l.
Proof. intros H. by apply dval_bound. Qed.

(** A number with a most significant digit is as large as its length says. *)
Lemma dval_lower l d : all_digits l → 0 < d → 10 ^ Z.of_nat (length l) ≤ dval (l ++ [d]).
Proof.
  intros Hl Hd. rewrite dval_snoc. pose proof (dval_nonneg l Hl). pose proof (pow10_pos (length l)). nia.
Qed.

Lemma dval_lookup l i d : all_digits l → l !! i = Some d → is_digit d.
Proof. intros Hl Hi. by apply (Forall_lookup_1 _ _ _ _ Hl Hi). Qed.

(** ** The normal form: at least one digit, no leading zero *)

Definition canonical (l : list Z) : Prop :=
  all_digits l ∧ l ≠ [] ∧ ∀ k, l = k ++ [0] → k = [].

Fixpoint drop_zeros (big_endian : list Z) : list Z :=
  match big_endian with
  | d :: (_ :: _) as rest => if d =? 0 then drop_zeros rest else big_endian
  | _ => big_endian
  end.

Lemma drop_zeros_spec l :
  ∃ n, l = replicate n 0 ++ drop_zeros l ∧
    (l ≠ [] → drop_zeros l ≠ []) ∧ ∀ d k, drop_zeros l = d :: k → d = 0 → k = [].
Proof.
  induction l as [|d [|e l] IH]; [by exists 0%nat|exists 0%nat; split_and!; [done..|cbn; intros; congruence]|].
  cbn [drop_zeros]. destruct (d =? 0) eqn:E; bool_to_prop.
  - subst d. destruct IH as (n & Hn & Hne & Hz). exists (S n). split_and!; [|intros _; by apply Hne|done].
    cbn [replicate app]. f_equal. exact Hn.
  - exists 0%nat. split_and!; [done..|]. intros d' k [= <- _] ->. done.
Qed.

(** [normalize_digits] on a list with the least significant digit first. *)
Definition normalize_digits (digits : list Z) : list Z := reverse (drop_zeros (reverse digits)).

Lemma normalize_digits_spec l :
  all_digits l → l ≠ [] →
  canonical (normalize_digits l) ∧ dval (normalize_digits l) = dval l ∧
  (length (normalize_digits l) ≤ length l)%nat.
Proof.
  intros Hl Hne. unfold normalize_digits.
  destruct (drop_zeros_spec (reverse l)) as (n & Hn & Hne' & Hz).
  set (k := drop_zeros (reverse l)) in *.
  assert (l = reverse k ++ replicate n 0) as El.
  { rewrite <-(reverse_involutive l), Hn, reverse_app. by rewrite reverse_replicate. }
  assert (k ≠ []) as Hk.
  { apply Hne'. intros E. apply Hne. by rewrite <-(reverse_involutive l), E. }
  split_and!.
  - split_and!.
    + rewrite El in Hl. by apply Forall_app in Hl as [Hl _].
    + intros E. apply Hk. by rewrite <-(reverse_involutive k), E.
    + intros k' E. assert (k = 0 :: reverse k') as E'.
      { by rewrite <-(reverse_involutive k), E, reverse_app. }
      apply Hz in E'; [|done]. by rewrite <-(reverse_involutive k'), E'.
  - rewrite El. rewrite dval_app, dval_zeros. lia.
  - rewrite El. rewrite length_app. lia.
Qed.

Lemma canonical_lower l : canonical l → length l ≠ 1%nat → 10 ^ Z.of_nat (pred (length l)) ≤ dval l.
Proof.
  intros (Hl & Hne & Hz) Hlen. destruct l as [|d l _] using rev_ind; [done|].
  rewrite length_app, Nat.add_comm in *. cbn [length Nat.add] in *.
  apply Forall_app in Hl as [Hl Hd]. rewrite Forall_singleton in Hd. cbn [pred].
  apply dval_lower; [done|]. destruct (decide (d = 0)) as [->|]; [|unfold is_digit in Hd; lia].
  rewrite (Hz l eq_refl) in Hlen. done.
Qed.

Lemma canonical_zero l : canonical l → dval l = 0 ↔ l = [0].
Proof.
  intros Hc. split; [|by intros ->]. intros H0.
  destruct (decide (length l = 1%nat)) as [H1|H1].
  - destruct l as [|d [|]]; try done. cbn in H0. f_equal. lia.
  - pose proof (canonical_lower _ Hc H1). pose proof (pow10_pos (pred (length l))). lia.
Qed.

(** ** Order *)

(** [Iterator::cmp]. *)
Fixpoint lex_compare (l r : list Z) : comparison :=
  match l, r with
  | [], [] => Eq
  | [], _ :: _ => Lt
  | _ :: _, [] => Gt
  | a :: l, b :: r => match a ?= b with Eq => lex_compare l r | c => c end
  end.

(** [compare_digits]: the length first, then the digits from the most significant. *)
Definition compare_digits (left right : list Z) : comparison :=
  match Nat.compare (length left) (length right) with
  | Eq => lex_compare (reverse left) (reverse right)
  | order => order
  end.

Lemma dval_reverse_cons d l : dval (reverse (d :: l)) = dval (reverse l) + 10 ^ Z.of_nat (length l) * d.
Proof. by rewrite reverse_cons, dval_snoc, length_reverse. Qed.

Lemma lex_compare_spec l r :
  all_digits l → all_digits r → length l = length r →
  lex_compare l r = (dval (reverse l) ?= dval (reverse r)).
Proof.
  revert r. induction l as [|a l IH]; intros [|b r] Hl Hr Hlen; try done.
  apply Forall_cons in Hl as [Ha Hl]. apply Forall_cons in Hr as [Hb Hr]. cbn in Hlen.
  rewrite !dval_reverse_cons. cbn [lex_compare]. injection Hlen as Hlen. rewrite <-Hlen.
  pose proof (dval_bound (reverse l) ltac:(by apply Forall_reverse)) as B1.
  pose proof (dval_bound (reverse r) ltac:(by apply Forall_reverse)) as B2.
  rewrite !length_reverse, <-?Hlen in B1, B2. rewrite <-Hlen in B2.
  destruct (Z.compare_spec a b) as [->|Hab|Hab].
  - rewrite IH by done. rewrite !(Z.add_comm (dval _)). by rewrite Zcompare_plus_compat.
  - symmetry. apply Z.compare_lt_iff. nia.
  - symmetry. apply Z.compare_gt_iff. nia.
Qed.

Lemma compare_digits_spec l r :
  canonical l → canonical r → compare_digits l r = (dval l ?= dval r).
Proof.
  intros Hl Hr. unfold compare_digits.
  assert (∀ a b, canonical a → canonical b → (length a < length b)%nat → dval a < dval b) as Hlt.
  { intros a b Ha Hb Hab. pose proof (dval_bound a (proj1 Ha)).
    assert (length a ≠ 0%nat) by (destruct Ha as (_ & H0 & _); by destruct a).
    pose proof (canonical_lower b Hb ltac:(lia)).
    assert (10 ^ Z.of_nat (length a) ≤ 10 ^ Z.of_nat (pred (length b))) by (apply Z.pow_le_mono_r; lia).
    lia. }
  destruct (Nat.compare_spec (length l) (length r)) as [E|E|E].
  - rewrite lex_compare_spec; [by rewrite !reverse_involutive| | |by rewrite !length_reverse].
    + apply Forall_reverse, Hl.
    + apply Forall_reverse, Hr.
  - symmetry. apply Z.compare_lt_iff. by apply Hlt.
  - symmetry. apply Z.compare_gt_iff. by apply Hlt.
Qed.

(** ** Spelling *)

Definition digit_byte (d : Z) : byte := byte_of_Z (48 + d).
(** The text of a number, most significant digit first. *)
Definition spell (digits : list Z) : bytes := map digit_byte (reverse digits).

Lemma digit_byte_Z d : is_digit d → Z_of_byte (digit_byte d) = 48 + d.
Proof. intros H. unfold digit_byte. rewrite Z_of_byte_of_Z. unfold is_digit in H. apply Z.mod_small. lia. Qed.

Lemma parse_digits_spell acc ds :
  0 ≤ acc ≤ U64_MAX → all_digits ds →
  let v := 10 ^ Z.of_nat (length ds) * acc + dval ds in
  parse_digits acc (spell ds) =
    if v <=? U64_MAX then inr v else inl "number too large to fit in target type".
Proof.
  cbn zeta. intros Ha Hds. revert acc Ha. induction ds as [|d ds IH] using rev_ind; intros acc Ha.
  { unfold spell. cbn [reverse rev_append map parse_digits length dval Z.of_nat].
    change (10 ^ 0) with 1. rewrite Z.mul_1_l, Z.add_0_r. by rewrite (proj2 (Z.leb_le _ _)) by lia. }
  apply Forall_app in Hds as [Hds Hd]. rewrite Forall_singleton in Hd.
  unfold spell. rewrite reverse_app. cbn [reverse rev_append app map parse_digits].
  rewrite digit_byte_Z by done. unfold is_digit in Hd. unfold between.
  rewrite (proj2 (Z.leb_le 48 _)), (proj2 (Z.leb_le _ 57)) by lia. cbn [andb].
  replace (10 * acc + (48 + d - 48)) with (10 * acc + d) by lia.
  rewrite dval_snoc, length_app, Nat.add_comm. cbn [length Nat.add]. rewrite pow10_S.
  replace (10 * 10 ^ Z.of_nat (length ds) * acc + (dval ds + 10 ^ Z.of_nat (length ds) * d))
    with (10 ^ Z.of_nat (length ds) * (10 * acc + d) + dval ds) by lia.
  destruct (10 * acc + d <=? U64_MAX) eqn:E; bool_to_prop.
  - by rewrite <-(IH Hds (10 * acc + d)) by lia.
  - rewrite (proj2 (Z.leb_gt _ _)); [done|].
    pose proof (dval_nonneg ds Hds). pose proof (pow10_pos (length ds)). nia.
Qed.

Lemma parse_u64_spell ds :
  all_digits ds → ds ≠ [] →
  parse_u64 (of_bytes (spell ds)) =
    if dval ds <=? U64_MAX then inr (dval ds) else inl "number too large to fit in target type".
Proof.
  intros Hds Hne. unfold parse_u64. rewrite as_of_bytes.
  pose proof (parse_digits_spell 0 ds ltac:(range_lia) Hds) as H. cbn zeta in H.
  rewrite Z.mul_0_r, Z.add_0_l in H. rewrite <-H.
  destruct (spell ds) as [|b rest] eqn:E.
  { unfold spell in E. apply map_eq_nil in E. destruct ds as [|d ds]; [done|].
    rewrite reverse_cons in E. by destruct (reverse ds). }
  destruct (Z_of_byte b =? 43) eqn:E43; [|done]. bool_to_prop. exfalso.
  assert (b ∈ spell ds) as Hb by (rewrite E; left). unfold spell in Hb.
  apply list_elem_of_In, in_map_iff in Hb as (d & <- & Hd%list_elem_of_In).
  rewrite elem_of_reverse in Hd. rewrite Forall_forall in Hds. apply Hds in Hd.
  rewrite digit_byte_Z in E43 by done. unfold is_digit in Hd. lia.
Qed.

(** ** [to_string] of an integer *)

Lemma pretty_N_char_byte (d : N) :
  (d < 10)%N → byte_of_ascii (pretty_N_char d) = digit_byte (Z.of_N d).
Proof.
  intros Hd.
  assert (d = 0 ∨ d = 1 ∨ d = 2 ∨ d = 3 ∨ d = 4 ∨ d = 5 ∨ d = 6 ∨ d = 7 ∨ d = 8 ∨ d = 9)%N as H
    by lia.
  by repeat destruct H as [->|H]; subst.
Qed.

Lemma as_bytes_String c s : as_bytes (String c s) = byte_of_ascii c :: as_bytes s.
Proof. done. Qed.

Lemma pretty_go_spell (x : N) s :
  ∃ ds, as_bytes (pretty_N_go x s) = spell ds ++ as_bytes s ∧ all_digits ds ∧
    dval ds = Z.of_N x ∧ (∀ k, ds ≠ k ++ [0]).
Proof.
  revert s. induction (N.lt_wf_0 x) as [x _ IH]; intros s.
  destruct (decide (x = 0)%N) as [->|Hne].
  { exists []. split_and!; [done..|]. intros []; done. }
  rewrite pretty_N_go_step by lia.
  assert (x `div` 10 < x)%N as Hlt by (apply N.div_lt; lia).
  destruct (IH _ Hlt (String (pretty_N_char (x `mod` 10)) s)) as (ds & E & Hds & Hv & Hz).
  assert (x `mod` 10 < 10)%N as Hm by (by apply N.mod_lt).
  assert (x = 10 * (x `div` 10) + x `mod` 10)%N as Hdm by (by apply N.div_mod).
  clear IH. generalize dependent (x `mod` 10)%N. generalize dependent (x `div` 10)%N.
  intros q Hlt Hv m E Hm Hdm. exists (Z.of_N m :: ds). split_and!.
  - rewrite E, as_bytes_String, pretty_N_char_byte by done. unfold spell.
    rewrite reverse_cons, map_app, <-app_assoc. done.
  - constructor; [|done]. unfold is_digit. lia.
  - cbn [dval]. lia.
  - intros [|d k] E'; cbn in E'; injection E' as E1 E2.
    + subst ds. cbn in Hv. lia.
    + by apply (Hz k).
Qed.

Lemma pretty_spell (n : N) :
  ∃ ds, as_bytes (pretty n) = spell ds ∧ canonical ds ∧ dval ds = Z.of_N n.
Proof.
  destruct (decide (n = 0)%N) as [->|Hne].
  { exists [0]. split_and!; [done| |done]. split_and!; [|done|].
    - constructor; [unfold is_digit; lia|done].
    - intros [|? [|]]; done. }
  unfold pretty, pretty_N. rewrite decide_False by done.
  destruct (pretty_go_spell n "") as (ds & E & Hds & Hv & Hz). exists ds.
  split_and!; [by rewrite E, app_nil_r| |done]. split_and!; [done| |].
  - intros ->. cbn in Hv. lia.
  - intros k Hk. by apply Hz in Hk.
Qed.

Lemma parse_u64_pretty n : is_u64 n → parse_u64 (pretty n) = inr n.
Proof.
  intros Hn. assert (pretty n = pretty (Z.to_N n)) as ->.
  { destruct n as [|p|p]; [done|done|range_lia]. }
  destruct (pretty_spell (Z.to_N n)) as (ds & E & Hc & Hv).
  rewrite <-(of_as_bytes (pretty _)), E, parse_u64_spell by apply Hc.
  rewrite Hv, Z2N.id by range_lia. by rewrite (proj2 (Z.leb_le _ _)) by range_lia.
Qed.
