(* ===== verification/AgentEvidence.v ===== *)
(** * Agent status: evidence, arbitration, policy

    The data of [jackin-agent-status/src/evidence.rs] and
    [jackin-protocol/src/agent_status.rs], the evidence arbitration of
    [arbitrate.rs] and the debounce and watchdog policy of [policy.rs].

    An [Instant] and a [Duration] are nanosecond counts in [Z]; two instants
    are compared with [duration_since], which saturates at zero as
    [Instant::duration_since] does. *)

From stdpp Require Import base list sets strings.
From Stdlib Require Import ZArith Lia.
From S2P Require Import Prelude.

Abbreviation instant := Z.
Abbreviation duration := Z.

Definition duration_since (now earlier : instant) : duration := Z.max 0 (now - earlier).
Definition from_secs (s : Z) : duration := s * 1000000000.
Definition from_millis (m : Z) : duration := m * 1000000.

Module RawAgentState.
Inductive t := Unknown | Working | Blocked | Idle.
#[global] Instance eq_dec : EqDecision t.
Proof. solve_decision. Defined.
End RawAgentState.

Module AgentState.
Inductive t := Working | Blocked | Done | Idle | Unknown.
#[global] Instance eq_dec : EqDecision t.
Proof. solve_decision. Defined.
End AgentState.

Module Confidence.
(** [AgentStatusConfidence], ordered as the derived [PartialOrd]: by
    constructor position. *)
Inductive t := Unknown | Weak | Strong | Authoritative.
#[global] Instance eq_dec : EqDecision t.
Proof. solve_decision. Defined.
Definition rank (c : t) : Z :=
  match c with Unknown => 0 | Weak => 1 | Strong => 2 | Authoritative => 3 end.
Definition ge (a b : t) : bool := rank b <=? rank a.
End Confidence.

Module AuthorityGrade.
Inductive t := Complete | Partial.
End AuthorityGrade.

Module EvidenceNote.
Inductive t :=
| WatchdogDemoted
| AuthorityExpired
| AuthorityIdentityMismatch
| StopSuppressed
| ProcessExited
| ForegroundReturnedToShell.
#[global] Instance eq_dec : EqDecision t.
Proof. solve_decision. Defined.
End EvidenceNote.

Module EvidenceWinner.
Inductive t :=
| ProcessExit
| Freeze
| Blocked
| Authority (source_id : string)
| StrongVisualOrOsc
| Physics
| Unknown.
#[global] Instance eq_dec : EqDecision t.
Proof. solve_decision. Defined.
End EvidenceWinner.

Record AuthorityEvidence := mk_authority {
  source_id : string;
  grade : AuthorityGrade.t;
  mapped_state : RawAgentState.t;
  auth_pending_permission : bool;
  last_event : instant;
  auth_notes : list EvidenceNote.t;
}.

Record OscEvidence := mk_osc {
  title : option string;
  progress_active : bool;
  progress_cleared_at : option instant;
  progress_raw : option string;
  shell_state : option RawAgentState.t;
  shell_state_marked_at : option instant;
}.

Definition clear_agent_signals (o : OscEvidence) : OscEvidence :=
  mk_osc None false None None None None.

Record ScreenEvidence := mk_screen {
  screen_state : option RawAgentState.t;
  screen_rule_id : option string;
  strong : bool;
  freeze : bool;
}.

Record ProcessEvidence := mk_process {
  p_process_exited : bool;
  p_foreground_returned_to_shell : bool;
  child_alive : bool;
  p_root_is_agent : bool;
  foreground_is_agent : bool;
  p_foreground_pgid : option Z;
  p_child_process_count : Z;
  p_cpu_jiffies_delta : Z;
  p_physics_sampled : bool;
}.

Record ActivityEvidence := mk_activity {
  a_last_output : option instant;
  a_last_input : option instant;
}.

Record EvidenceSnapshot := mk_snapshot {
  authority : option AuthorityEvidence;
  osc : OscEvidence;
  screen : ScreenEvidence;
  process : ProcessEvidence;
  activity : ActivityEvidence;
  snap_subagents_active : Z;
}.

Record EvidenceSummary := mk_summary {
  raw_state : RawAgentState.t;
  confidence : Confidence.t;
  winner : EvidenceWinner.t;
  rule_id : option string;
  foreground_pgid : option Z;
  last_output : option instant;
  last_input : option instant;
  child_process_count : Z;
  cpu_jiffies_delta : Z;
  physics_sampled : bool;
  subagents_active : Z;
  osc_progress_active : bool;
  shell_integration : bool;
  visible_blocker : bool;
  visible_idle : bool;
  visible_working : bool;
  process_exited : bool;
  foreground_returned_to_shell : bool;
  root_is_agent : bool;
  stale_report : bool;
  notes : list EvidenceNote.t;
}.

(** [impl Default for EvidenceSummary] *)
Definition default_summary : EvidenceSummary :=
  mk_summary RawAgentState.Unknown Confidence.Unknown EvidenceWinner.Unknown
    None None None None 0 0 false 0 false false false false false false false
    false false [].

Definition has_note (s : EvidenceSummary) (target : EvidenceNote.t) : bool :=
  bool_decide (target ∈ notes s).

(** Functional updates for the fields the code assigns after construction. *)
Definition with_verdict (r : RawAgentState.t) (c : Confidence.t)
    (w : EvidenceWinner.t) (s : EvidenceSummary) : EvidenceSummary :=
  mk_summary r c w (rule_id s) (foreground_pgid s) (last_output s) (last_input s)
    (child_process_count s) (cpu_jiffies_delta s) (physics_sampled s)
    (subagents_active s) (osc_progress_active s) (shell_integration s)
    (visible_blocker s) (visible_idle s) (visible_working s) (process_exited s)
    (foreground_returned_to_shell s) (root_is_agent s) (stale_report s) (notes s).

Definition with_notes (ns : list EvidenceNote.t) (s : EvidenceSummary) : EvidenceSummary :=
  mk_summary (raw_state s) (confidence s) (winner s) (rule_id s) (foreground_pgid s)
    (last_output s) (last_input s) (child_process_count s) (cpu_jiffies_delta s)
    (physics_sampled s) (subagents_active s) (osc_progress_active s)
    (shell_integration s) (visible_blocker s) (visible_idle s) (visible_working s)
    (process_exited s) (foreground_returned_to_shell s) (root_is_agent s)
    (stale_report s) ns.

Definition with_stale (s : EvidenceSummary) : EvidenceSummary :=
  mk_summary (raw_state s) (confidence s) (winner s) (rule_id s) (foreground_pgid s)
    (last_output s) (last_input s) (child_process_count s) (cpu_jiffies_delta s)
    (physics_sampled s) (subagents_active s) (osc_progress_active s)
    (shell_integration s) (visible_blocker s) (visible_idle s) (visible_working s)
    (process_exited s) (foreground_returned_to_shell s) (root_is_agent s) true (notes s).

Definition push_note (n : EvidenceNote.t) (s : EvidenceSummary) : EvidenceSummary :=
  with_notes (notes s ++ [n]) s.

(** ** policy.rs: constants *)

Definition AUTHORITY_TTL : duration := from_secs 30.
Definition OSC_SHELL_TTL : duration := AUTHORITY_TTL.
Definition WATCHDOG_QUIET : duration := from_secs 10.
Definition IDLE_CONFIRMATIONS : Z := 3.
Definition IDLE_HOLD_CAP : duration := from_millis 700.

(** ** arbitrate.rs *)

Module Arbitrate.

Definition finish (raw : RawAgentState.t) (c : Confidence.t) (w : EvidenceWinner.t)
    (s : EvidenceSummary) : EvidenceSummary := with_verdict raw c w s.

Definition authority_confidence (a : AuthorityEvidence) : Confidence.t :=
  match grade a with
  | AuthorityGrade.Complete => Confidence.Authoritative
  | AuthorityGrade.Partial => Confidence.Strong
  end.

(** The shell mark counts only while the agent owns the foreground and the
    mark is at most [OSC_SHELL_TTL] old. *)
Definition fresh_shell_state (snap : EvidenceSnapshot) (now : instant)
    : option RawAgentState.t :=
  if foreground_is_agent (process snap) then
    match shell_state (osc snap), shell_state_marked_at (osc snap) with
    | Some st, Some at_ =>
        if duration_since now at_ <=? OSC_SHELL_TTL then Some st else None
    | _, _ => None
    end
  else None.

Definition state_is (o : option RawAgentState.t) (r : RawAgentState.t) : bool :=
  bool_decide (o = Some r).

Definition initial_summary (snap : EvidenceSnapshot) (now : instant) : EvidenceSummary :=
  let p := process snap in
  mk_summary RawAgentState.Unknown Confidence.Unknown EvidenceWinner.Unknown
    (screen_rule_id (screen snap)) (p_foreground_pgid p)
    (a_last_output (activity snap)) (a_last_input (activity snap))
    (p_child_process_count p) (p_cpu_jiffies_delta p) (p_physics_sampled p)
    (snap_subagents_active snap) (progress_active (osc snap))
    (bool_decide (is_Some (fresh_shell_state snap now)))
    (state_is (screen_state (screen snap)) RawAgentState.Blocked)
    (state_is (screen_state (screen snap)) RawAgentState.Idle)
    (state_is (screen_state (screen snap)) RawAgentState.Working)
    (p_process_exited p) (p_foreground_returned_to_shell p) (p_root_is_agent p)
    false
    (match authority snap with Some a => auth_notes a | None => [] end).

Definition fresh_authority (snap : EvidenceSnapshot) (now : instant)
    : option AuthorityEvidence :=
  match authority snap with
  | Some a =>
      if (duration_since now (last_event a) <=? AUTHORITY_TTL)
         && foreground_is_agent (process snap)
      then Some a else None
  | None => None
  end.

(** The stale-report bookkeeping between the freeze check and the verdicts. *)
Definition note_stale (snap : EvidenceSnapshot) (now : instant) (s : EvidenceSummary)
    : EvidenceSummary :=
  match authority snap, fresh_authority snap now with
  | Some a, None =>
      let s := with_stale s in
      let s := if AUTHORITY_TTL <? duration_since now (last_event a)
               then push_note EvidenceNote.AuthorityExpired s else s in
      if foreground_is_agent (process snap) then s
      else push_note EvidenceNote.AuthorityIdentityMismatch s
  | _, _ => s
  end.

(** [if let Some(authority) = fresh_authority && authority.pending_permission
    && authority.mapped_state == Blocked] *)
Definition pending_authority (fresh : option AuthorityEvidence) : option AuthorityEvidence :=
  match fresh with
  | Some a =>
      if auth_pending_permission a && bool_decide (mapped_state a = RawAgentState.Blocked)
      then Some a else None
  | None => None
  end.

Definition arbitrate (snap : EvidenceSnapshot) (previous_raw : RawAgentState.t)
    (now : instant) : EvidenceSummary :=
  let s := initial_summary snap now in
  let p := process snap in
  let sc := screen snap in
  if p_process_exited p || p_foreground_returned_to_shell p then
    let s := if p_process_exited p then push_note EvidenceNote.ProcessExited s else s in
    let s := if p_foreground_returned_to_shell p
             then push_note EvidenceNote.ForegroundReturnedToShell s else s in
    finish RawAgentState.Idle Confidence.Strong EvidenceWinner.ProcessExit s
  else if freeze sc then
    finish previous_raw Confidence.Strong EvidenceWinner.Freeze s
  else
  let fresh := fresh_authority snap now in
  let s := note_stale snap now s in
  match pending_authority fresh with
  | Some a =>
      finish RawAgentState.Blocked (authority_confidence a)
        (EvidenceWinner.Authority (source_id a)) s
  | None =>
  if strong sc && state_is (screen_state sc) RawAgentState.Blocked then
    finish RawAgentState.Blocked Confidence.Strong EvidenceWinner.Blocked s
  else
  match fresh with
  | Some a =>
      finish (mapped_state a) (authority_confidence a)
        (EvidenceWinner.Authority (source_id a)) s
  | None =>
  match fresh_shell_state snap now with
  | Some st => finish st Confidence.Strong EvidenceWinner.StrongVisualOrOsc s
  | None =>
  match (if strong sc then screen_state sc else None) with
  | Some ((RawAgentState.Working | RawAgentState.Idle) as st) =>
      finish st Confidence.Strong EvidenceWinner.StrongVisualOrOsc s
  | _ =>
  if foreground_is_agent p && bool_decide (is_Some (progress_cleared_at (osc snap))) then
    finish RawAgentState.Idle Confidence.Weak EvidenceWinner.StrongVisualOrOsc s
  else if bool_decide (previous_raw = RawAgentState.Working)
       && foreground_is_agent p
       && ((0 <? p_child_process_count p) || (0 <? p_cpu_jiffies_delta p)) then
    finish RawAgentState.Working Confidence.Weak EvidenceWinner.Physics s
  else
    finish RawAgentState.Unknown Confidence.Unknown EvidenceWinner.Unknown s
  end end end end.

Definition attention_priority (st : AgentState.t) : Z :=
  match st with
  | AgentState.Blocked => 4
  | AgentState.Done => 3
  | AgentState.Working => 2
  | AgentState.Idle => 1
  | AgentState.Unknown => 0
  end.

(** [Iterator::max_by_key]: the last element of maximal key. *)
Definition roll_up_states (states : list AgentState.t) : AgentState.t :=
  match states with
  | [] => AgentState.Unknown
  | s0 :: rest =>
      foldl (λ best s, if attention_priority best <=? attention_priority s
                       then s else best) s0 rest
  end.

(** *** What arbitration promises *)

(** The sources of a verdict, in the order of the documentation (process exit or shell
    return, screen freeze, blocking dialogs, authority, strong visual or OSC evidence,
    physics, then unknown), each group split by what the code tells apart. *)
Inductive source :=
| Exit | ScreenFreeze | PendingPermission | BlockingScreen | Report | ShellMark | StrongScreen
| ClearedProgress | Busy | Nothing.
Definition rank (x : source) : Z :=
  match x with
  | Exit => 9 | ScreenFreeze => 8 | PendingPermission => 7 | BlockingScreen => 6 | Report => 5
  | ShellMark => 4 | StrongScreen => 3 | ClearedProgress => 2 | Busy => 1 | Nothing => 0
  end.

Section Evidence.
Context (snap : EvidenceSnapshot) (prev : RawAgentState.t) (now : instant).

(** A report at most [AUTHORITY_TTL] old, while the agent owns the foreground. *)
Definition live_report (a : AuthorityEvidence) : Prop :=
  authority snap = Some a ∧ duration_since now (last_event a) ≤ AUTHORITY_TTL
  ∧ foreground_is_agent (process snap) = true.

(** [evidence_for x w r c]: the snapshot holds evidence of source [x], which entitles winner
    [w] to publish raw state [r] with confidence [c]. *)
Inductive evidence_for : source → EvidenceWinner.t → RawAgentState.t → Confidence.t → Prop :=
| ev_exit :
    p_process_exited (process snap) = true
      ∨ p_foreground_returned_to_shell (process snap) = true →
    evidence_for Exit EvidenceWinner.ProcessExit RawAgentState.Idle Confidence.Strong
| ev_freeze :
    freeze (screen snap) = true →
    evidence_for ScreenFreeze EvidenceWinner.Freeze prev Confidence.Strong
| ev_permission a :
    live_report a → auth_pending_permission a = true → mapped_state a = RawAgentState.Blocked →
    evidence_for PendingPermission (EvidenceWinner.Authority (source_id a)) RawAgentState.Blocked
      (authority_confidence a)
| ev_blocked :
    strong (screen snap) = true →
    screen_state (screen snap) = Some RawAgentState.Blocked →
    evidence_for BlockingScreen EvidenceWinner.Blocked RawAgentState.Blocked Confidence.Strong
| ev_authority a :
    live_report a →
    evidence_for Report (EvidenceWinner.Authority (source_id a)) (mapped_state a)
      (authority_confidence a)
| ev_shell st at_ :
    foreground_is_agent (process snap) = true →
    shell_state (osc snap) = Some st →
    shell_state_marked_at (osc snap) = Some at_ →
    duration_since now at_ ≤ OSC_SHELL_TTL →
    evidence_for ShellMark EvidenceWinner.StrongVisualOrOsc st Confidence.Strong
| ev_screen st :
    strong (screen snap) = true →
    screen_state (screen snap) = Some st →
    st = RawAgentState.Working ∨ st = RawAgentState.Idle →
    evidence_for StrongScreen EvidenceWinner.StrongVisualOrOsc st Confidence.Strong
| ev_progress_cleared t :
    foreground_is_agent (process snap) = true →
    progress_cleared_at (osc snap) = Some t →
    evidence_for ClearedProgress EvidenceWinner.StrongVisualOrOsc RawAgentState.Idle Confidence.Weak
| ev_physics :
    prev = RawAgentState.Working →
    foreground_is_agent (process snap) = true →
    0 < p_child_process_count (process snap) ∨ 0 < p_cpu_jiffies_delta (process snap) →
    evidence_for Busy EvidenceWinner.Physics RawAgentState.Working Confidence.Weak
| ev_none :
    evidence_for Nothing EvidenceWinner.Unknown RawAgentState.Unknown Confidence.Unknown.

(** The verdict of the strongest evidence there is. *)
Definition strongest (w : EvidenceWinner.t) (r : RawAgentState.t) (c : Confidence.t) : Prop :=
  ∃ x, evidence_for x w r c ∧ ∀ x' w' r' c', evidence_for x' w' r' c' → rank x' ≤ rank x.

Lemma evidence_functional x w r c w' r' c' :
  evidence_for x w r c → evidence_for x w' r' c' → w = w' ∧ r = r' ∧ c = c'.
Proof.
  intros H1 H2; destruct H1; inversion H2; subst; try done;
    unfold live_report in *; naive_solver.
Qed.
Lemma strongest_unique w r c w' r' c' :
  strongest w r c → strongest w' r' c' → w = w' ∧ r = r' ∧ c = c'.
Proof.
  intros (x & Hx & Hmax) (x' & Hx' & Hmax').
  assert (x = x') as <-; [|by eapply evidence_functional].
  specialize (Hmax _ _ _ _ Hx'). specialize (Hmax' _ _ _ _ Hx). destruct x, x'; cbn in *; done || lia.
Qed.
End Evidence.

Lemma fresh_authority_Some snap now a :
  fresh_authority snap now = Some a →
  authority snap = Some a ∧ duration_since now (last_event a) ≤ AUTHORITY_TTL
    ∧ foreground_is_agent (process snap) = true.
Proof.
  unfold fresh_authority. destruct (authority snap) as [a'|]; [|done].
  destruct (_ && _) eqn:E; [|done]. intros [= <-]. bool_to_prop. done.
Qed.

Lemma fresh_shell_state_Some snap now st :
  fresh_shell_state snap now = Some st →
  foreground_is_agent (process snap) = true
    ∧ ∃ at_, shell_state (osc snap) = Some st
        ∧ shell_state_marked_at (osc snap) = Some at_
        ∧ duration_since now at_ ≤ OSC_SHELL_TTL.
Proof.
  unfold fresh_shell_state. intros H. repeat split_match_in H; simplify_eq.
  bool_to_prop. eauto.
Qed.

Lemma pending_authority_Some fresh a :
  pending_authority fresh = Some a →
  fresh = Some a ∧ auth_pending_permission a = true ∧ mapped_state a = RawAgentState.Blocked.
Proof.
  unfold pending_authority. intros H. repeat split_match_in H; simplify_eq.
  by bool_to_prop.
Qed.

Lemma state_is_true o r : state_is o r = true ↔ o = Some r.
Proof. unfold state_is. apply bool_decide_eq_true. Qed.

(** Turn the guards of the ladder into facts on the snapshot. *)
Ltac arbitrate_facts :=
  bool_to_prop;
  repeat match goal with
  | H : pending_authority _ = Some _ |- _ =>
      apply pending_authority_Some in H as (? & ? & ?)
  | H : fresh_authority _ _ = Some _ |- _ =>
      apply fresh_authority_Some in H as (? & ? & ?)
  | H : fresh_shell_state _ _ = Some _ |- _ =>
      apply fresh_shell_state_Some in H as (? & ? & ? & ? & ?)
  | H : state_is _ _ = true |- _ => apply state_is_true in H
  | H : is_Some _ |- _ => destruct H as [? H]
  | H : (_ <? _) = true ∨ (_ <? _) = true |- _ => rewrite !Z.ltb_lt in H
  end; bool_to_prop; simplify_eq.

Lemma fresh_authority_complete snap now a :
  authority snap = Some a →
  duration_since now (last_event a) ≤ AUTHORITY_TTL →
  foreground_is_agent (process snap) = true →
  fresh_authority snap now = Some a.
Proof.
  intros Ha Ht Hf. unfold fresh_authority. rewrite Ha, Hf.
  by apply Z.leb_le in Ht as ->.
Qed.

Lemma fresh_shell_state_complete snap now st at_ :
  foreground_is_agent (process snap) = true →
  shell_state (osc snap) = Some st →
  shell_state_marked_at (osc snap) = Some at_ →
  duration_since now at_ ≤ OSC_SHELL_TTL →
  fresh_shell_state snap now = Some st.
Proof.
  intros Hf Hs Hm Ht. unfold fresh_shell_state. rewrite Hf, Hs, Hm.
  by apply Z.leb_le in Ht as ->.
Qed.

(** A failed guard of the ladder means that its source has no evidence. *)
Section Absent.
Context (snap : EvidenceSnapshot) (prev : RawAgentState.t) (now : instant).
Definition absent (x : source) : Prop := ∀ w r c, ¬ evidence_for snap prev now x w r c.

Lemma strongest_intro x w r c :
  evidence_for snap prev now x w r c → (∀ x', rank x < rank x' → absent x') →
  strongest snap prev now w r c.
Proof.
  intros He Hab. exists x. split; [done|]. intros x' w' r' c' He'.
  destruct (Z.le_gt_cases (rank x') (rank x)) as [|Hlt]; [done|]. by destruct (Hab x' Hlt _ _ _ He').
Qed.

#[local] Ltac no_evidence := intros ??? He; inversion He; subst.

Lemma absent_exit :
  p_process_exited (process snap) || p_foreground_returned_to_shell (process snap) = false → absent Exit.
Proof. intros [? ?]%orb_false_iff. no_evidence. naive_solver congruence. Qed.
Lemma absent_freeze : freeze (screen snap) = false → absent ScreenFreeze.
Proof. intros ?. no_evidence. congruence. Qed.
Lemma absent_report : fresh_authority snap now = None → absent Report.
Proof.
  intros Hn. no_evidence.
  match goal with H : live_report _ _ _ |- _ => destruct H as (Ha & Ht & Hf) end.
  by rewrite (fresh_authority_complete _ _ _ Ha Ht Hf) in Hn.
Qed.
Lemma absent_permission :
  pending_authority (fresh_authority snap now) = None → absent PendingPermission.
Proof.
  intros Hn. no_evidence.
  match goal with H : live_report _ _ _ |- _ => destruct H as (Ha & Ht & Hf) end.
  rewrite (fresh_authority_complete _ _ _ Ha Ht Hf) in Hn. cbn in Hn.
  match goal with Hp : auth_pending_permission _ = _, Hm : mapped_state _ = _ |- _ => rewrite Hp, Hm in Hn end.
  by rewrite bool_decide_eq_true_2 in Hn.
Qed.
Lemma absent_blocking :
  strong (screen snap) && state_is (screen_state (screen snap)) RawAgentState.Blocked = false →
  absent BlockingScreen.
Proof.
  intros Hn. no_evidence. apply andb_false_iff in Hn as [Hn|Hn]; [congruence|].
  by apply not_true_iff_false in Hn as []; apply state_is_true.
Qed.
Lemma absent_shell : fresh_shell_state snap now = None → absent ShellMark.
Proof. intros Hn. no_evidence. by erewrite fresh_shell_state_complete in Hn. Qed.
Lemma absent_screen :
  match (if strong (screen snap) then screen_state (screen snap) else None) with
  | Some (RawAgentState.Working | RawAgentState.Idle) => False
  | _ => True
  end → absent StrongScreen.
Proof. intros Hn. no_evidence. repeat case_match; naive_solver congruence. Qed.
Lemma absent_progress :
  foreground_is_agent (process snap) && bool_decide (is_Some (progress_cleared_at (osc snap))) = false →
  absent ClearedProgress.
Proof.
  intros Hn. no_evidence. apply andb_false_iff in Hn as [Hn|Hn]; [congruence|].
  apply bool_decide_eq_false in Hn. by destruct Hn; eexists.
Qed.
Lemma absent_busy :
  bool_decide (prev = RawAgentState.Working) && foreground_is_agent (process snap)
  && ((0 <? p_child_process_count (process snap)) || (0 <? p_cpu_jiffies_delta (process snap))) = false →
  absent Busy.
Proof.
  intros Hn. no_evidence. rewrite !andb_false_iff, orb_false_iff, !Z.ltb_ge, bool_decide_eq_false in Hn.
  destruct Hn as [[?|?]|?]; [done|congruence|lia].
Qed.
End Absent.

(** Close a branch of the ladder: the evidence of source [x] is there, and what would
    outrank it is not. *)
Ltac by_source x :=
  apply (strongest_intro _ _ _ x);
  [ arbitrate_facts; econstructor; unfold live_report; eauto 4
  | intros [] Hr; cbn in Hr; try lia;
    eauto using absent_exit, absent_freeze, absent_report, absent_permission, absent_blocking,
      absent_shell, absent_progress, absent_busy ].

Lemma arbitrate_strongest snap prev now :
  strongest snap prev now (winner (arbitrate snap prev now)) (raw_state (arbitrate snap prev now))
    (confidence (arbitrate snap prev now)).
Proof.
  unfold arbitrate. destruct (_ || p_foreground_returned_to_shell _) eqn:Hexit; [by_source Exit|].
  destruct (freeze _) eqn:Hfreeze; [by_source ScreenFreeze|].
  destruct (pending_authority _) as [a|] eqn:Hpend; [by_source PendingPermission|].
  pose proof (absent_permission snap prev now Hpend) as Hperm.
  destruct (strong _ && _) eqn:Hblock; [by_source BlockingScreen|].
  pose proof (absent_blocking snap prev now Hblock) as Hblk.
  destruct (fresh_authority _ _) as [a|] eqn:Hauth; [by_source Report|].
  destruct (fresh_shell_state _ _) as [st|] eqn:Hshell; [by_source ShellMark|].
  pose proof (absent_screen snap prev now) as Hscreen.
  destruct (if strong _ then _ else _) as [[]|] eqn:Hst;
    try (destruct (strong (screen snap)) eqn:Hstrong; [|done]; by_source StrongScreen).
  all: specialize (Hscreen I).
  all: destruct (foreground_is_agent _ && _) eqn:Hprog; [by_source ClearedProgress|].
  all: destruct (bool_decide _ && _ && _) eqn:Hbusy; [by_source Busy|by_source Nothing].
Qed.

(** C24: The verdict of [arbitrate] is that of the strongest evidence in the snapshot, and
    no other: the named winner, the raw state and the confidence are exactly those of the
    source of highest rank that has evidence, in the documented order: the process
    exited or the shell is back; the screen rules say to freeze, which repeats the previous
    state; a report with a pending permission, then a strong screen match that says
    blocked; any other report; a shell mark, then a strong screen match that says
    working or idle, then a cleared progress bar; running children or CPU time after
    work.  Reports and shell marks count only up to 30 s and, like the progress bar and
    the children, only while the agent owns the foreground.  The verdict is [Unknown]
    without a winner only when none of these is there. *)
Theorem arbitrate_sound snap prev now w r c :
  (let s := arbitrate snap prev now in winner s = w ∧ raw_state s = r ∧ confidence s = c)
  ↔ ∃ x, evidence_for snap prev now x w r c
      ∧ ∀ x' w' r' c', evidence_for snap prev now x' w' r' c' → rank x' ≤ rank x.
Proof.
  cbv zeta. pose proof (arbitrate_strongest snap prev now) as Hs. split.
  - by intros (<- & <- & <-).
  - intros Hw. by apply (strongest_unique snap prev now).
Qed.

(** A screen that shows a working agent while a report asks for a permission. *)
Example permission_outranks_screen :
  let s := arbitrate
    (mk_snapshot
       (Some (mk_authority "claude-hooks" AuthorityGrade.Complete RawAgentState.Blocked
                true (from_secs 5) []))
       (mk_osc None false None None None None)
       (mk_screen (Some RawAgentState.Working) None true false)
       (mk_process false false true true true None 0 0 true) (mk_activity None None) 0)
    RawAgentState.Working (from_secs 10) in
  (winner s, raw_state s, confidence s)
  = (EvidenceWinner.Authority "claude-hooks", RawAgentState.Blocked, Confidence.Authoritative).
Proof. vm_compute. reflexivity. Qed.

(** *** Rolling up the states of several sessions *)

Lemma attention_priority_inj a b : attention_priority a = attention_priority b → a = b.
Proof. by destruct a, b. Qed.

Definition max_fold (best : AgentState.t) (l : list AgentState.t) : AgentState.t :=
  foldl (λ best s, if attention_priority best <=? attention_priority s
                   then s else best) best l.

Lemma max_fold_spec best l :
  max_fold best l ∈ best :: l
  ∧ ∀ s, s ∈ best :: l → attention_priority s ≤ attention_priority (max_fold best l).
Proof.
  revert best. induction l as [|x l IH]; intros best.
  { cbn. split; [by left|]. by intros s [->|[]%not_elem_of_nil]%elem_of_cons. }
  unfold max_fold. cbn [foldl]. fold (max_fold (if attention_priority best <=? attention_priority x
    then x else best) l).
  destruct (IH (if attention_priority best <=? attention_priority x then x else best)) as [Hin Hmax].
  set (m := max_fold _ l) in *. split.
  - destruct (_ <=? _); set_solver.
  - intros s Hs. destruct (Z.leb_spec (attention_priority best) (attention_priority x)).
    + pose proof (Hmax x ltac:(set_solver)). set_unfold. destruct Hs as [->|[->|Hs]]; [lia|done|].
      apply Hmax. set_solver.
    + pose proof (Hmax best ltac:(set_solver)). set_unfold. destruct Hs as [->|[->|Hs]]; [done|lia|].
      apply Hmax. set_solver.
Qed.

(** the state shown for a group of sessions is the most urgent one:
    [Unknown] for no session, otherwise a state some session has and whose
    attention priority no session exceeds; so the result does not depend on
    the order in which the sessions are visited. *)
Theorem roll_up_states_max states :
  (states = [] → roll_up_states states = AgentState.Unknown)
  ∧ (states ≠ [] → roll_up_states states ∈ states)
  ∧ (∀ s, s ∈ states → attention_priority s ≤ attention_priority (roll_up_states states))
  ∧ (∀ states', states ≡ₚ states' → roll_up_states states = roll_up_states states').
Proof.
  assert (Hspec : ∀ l, l ≠ [] → roll_up_states l ∈ l
    ∧ ∀ s, s ∈ l → attention_priority s ≤ attention_priority (roll_up_states l)).
  { intros [|x l] Hl; [done|]. apply max_fold_spec. }
  split_and!.
  - by intros ->.
  - intros H. by apply Hspec.
  - intros s Hs. apply Hspec; [|done]. by intros ->; apply not_elem_of_nil in Hs.
  - intros l' Hp. destruct states as [|x l].
    { by apply Permutation_nil_l in Hp as ->. }
    destruct (Hspec (x :: l) ltac:(done)) as [H1 H2].
    destruct (Hspec l') as [H3 H4]; [by intros ->; apply Permutation_nil_r in Hp|].
    apply attention_priority_inj, Z.le_antisymm; [apply H4|apply H2].
    + by rewrite <-Hp.
    + by rewrite Hp.
Qed.

End Arbitrate.
