(* ===== verification/AgentSession.v ===== *)
(** * Agent status: policy, published status, session pipeline

    - [Policy]: debounce and watchdog of [jackin-agent-status/src/policy.rs];
    - [Status]: the published [SessionStatus] of [jackin-agent-status/src/lib.rs]
      as a state machine over publications and acknowledgements;
    - theorems on both, on arbitrary sequences of ticks. *)

From stdpp Require Import base list sets strings.
From Stdlib Require Import ZArith Lia.
From S2P Require Import Prelude AgentEvidence.

Module Policy.

Record PendingTransition := mk_pending {
  candidate : option AgentState.t;
  confirmations : Z;
  started_at : option instant;
}.

Definition clear_pending (p : PendingTransition) : PendingTransition :=
  mk_pending None 0 None.

Definition publish_if_changed (prev next : AgentState.t) : option AgentState.t :=
  if decide (prev = next) then None else Some next.

Definition public_state_for_raw (prev_public : AgentState.t) (raw : RawAgentState.t)
    : AgentState.t :=
  match raw with
  | RawAgentState.Unknown => AgentState.Unknown
  | RawAgentState.Working => AgentState.Working
  | RawAgentState.Blocked => AgentState.Blocked
  | RawAgentState.Idle =>
      match prev_public with
      | AgentState.Working | AgentState.Blocked => AgentState.Done
      | _ => AgentState.Idle
      end
  end.

(** The weak-idle arm: count confirmations of one candidate. *)
Definition confirm (next : AgentState.t) (now : instant) (p : PendingTransition)
    : PendingTransition :=
  if decide (candidate p = Some next)
  then mk_pending (candidate p) (sat_add U8_MAX (confirmations p) 1) (started_at p)
  else mk_pending (Some next) 1 (Some now).

Definition capped (now : instant) (p : PendingTransition) : bool :=
  match started_at p with
  | Some started => IDLE_HOLD_CAP <=? duration_since now started
  | None => false
  end.

Definition debounce (prev_public : AgentState.t) (cand : EvidenceSummary)
    (p : PendingTransition) (now : instant) : option AgentState.t * PendingTransition :=
  let next := public_state_for_raw prev_public (raw_state cand) in
  match next with
  | AgentState.Blocked | AgentState.Working | AgentState.Unknown =>
      (publish_if_changed prev_public next, clear_pending p)
  | AgentState.Idle | AgentState.Done =>
      if Confidence.ge (confidence cand) Confidence.Strong then
        (publish_if_changed prev_public next, clear_pending p)
      else if osc_progress_active cand || (0 <? cpu_jiffies_delta cand) then
        (None, clear_pending p)
      else
        let p := confirm next now p in
        if (IDLE_CONFIRMATIONS <=? confirmations p) || capped now p then
          (publish_if_changed prev_public next, clear_pending p)
        else (None, p)
  end.

Definition apply_watchdog (c : EvidenceSummary) (now : instant) : EvidenceSummary :=
  if negb (bool_decide (raw_state c = RawAgentState.Working)) then c
  else if has_note c EvidenceNote.WatchdogDemoted then c
  else if negb (physics_sampled c) then c
  else match last_output c with
  | None => c
  | Some lo =>
      if duration_since now lo <? WATCHDOG_QUIET then c
      else if (0 <? cpu_jiffies_delta c) || (0 <? child_process_count c) then c
      else push_note EvidenceNote.WatchdogDemoted
             (with_verdict RawAgentState.Unknown Confidence.Unknown
                EvidenceWinner.Unknown c)
  end.

(** *** Properties *)

(** The pending record is either empty or holds a candidate with fewer than
    [IDLE_CONFIRMATIONS] confirmations and its start time. *)
Definition wf_pending (p : PendingTransition) : Prop :=
  match candidate p with
  | None => confirmations p = 0 ∧ started_at p = None
  | Some _ => 1 ≤ confirmations p < IDLE_CONFIRMATIONS ∧ is_Some (started_at p)
  end.

Lemma wf_clear p : wf_pending (clear_pending p).
Proof. done. Qed.
#[local] Hint Resolve wf_clear : jackin.

Lemma wf_pending_range p : wf_pending p → 0 ≤ confirmations p < IDLE_CONFIRMATIONS.
Proof. unfold wf_pending, IDLE_CONFIRMATIONS. destruct (candidate p); lia. Qed.

Lemma wf_confirm next now p :
  wf_pending p → confirmations (confirm next now p) < IDLE_CONFIRMATIONS →
  wf_pending (confirm next now p).
Proof.
  unfold confirm. case_decide as Hc; cbn; [|by eauto].
  unfold wf_pending, sat_add, U8_MAX, IDLE_CONFIRMATIONS. rewrite Hc. cbn.
  intros [? ?] ?. split; [lia|done].
Qed.

Lemma debounce_wf prev c p now :
  wf_pending p → wf_pending (debounce prev c p now).2.
Proof.
  intros Hp. unfold debounce.
  repeat split_match; cbn; eauto with jackin.
  all: bool_to_prop; by apply wf_confirm.
Qed.

(** A weak, quiet idle candidate: the only kind that is delayed. *)
Definition weak_idle (c : EvidenceSummary) : Prop :=
  raw_state c = RawAgentState.Idle
  ∧ Confidence.ge (confidence c) Confidence.Strong = false
  ∧ osc_progress_active c = false ∧ cpu_jiffies_delta c = 0.

Lemma debounce_weak_idle prev c p now :
  weak_idle c →
  let next := public_state_for_raw prev RawAgentState.Idle in
  debounce prev c p now =
    let p := confirm next now p in
    if (IDLE_CONFIRMATIONS <=? confirmations p) || capped now p
    then (publish_if_changed prev next, clear_pending p) else (None, p).
Proof.
  intros (Hr & Hc & Ho & Hj). unfold debounce. rewrite Hr, Hc, Ho, Hj.
  destruct prev; reflexivity.
Qed.

(** [debounce] publishes only a real change, and one the evidence asks
    for: a published state differs from the previous public state and is the
    public reading of the candidate's raw state. *)
Theorem debounce_publishes_change prev c p now s p' :
  debounce prev c p now = (Some s, p') →
  s ≠ prev ∧ s = public_state_for_raw prev (raw_state c) ∧ p' = mk_pending None 0 None.
Proof.
  unfold debounce. intros H.
  repeat split_match_in H; unfold publish_if_changed in *;
    repeat case_decide; simplify_eq; done.
Qed.

Example ex_idle : EvidenceSummary :=
  with_verdict RawAgentState.Idle Confidence.Strong EvidenceWinner.ProcessExit default_summary.

Lemma debounce_publishes_change_witness :
  debounce AgentState.Working ex_idle (mk_pending None 0 None) 5
    = (Some AgentState.Done, mk_pending None 0 None)
  ∧ AgentState.Done ≠ AgentState.Working.
Proof.
  split; [reflexivity|].
  apply (debounce_publishes_change AgentState.Working ex_idle (mk_pending None 0 None) 5
           AgentState.Done (mk_pending None 0 None)).
  reflexivity.
Defined.

(** Feed a sequence of candidates with their times; stop at a publication. *)
Fixpoint debounce_run (prev : AgentState.t) (cs : list (EvidenceSummary * instant))
    (p : PendingTransition) : option AgentState.t * PendingTransition :=
  match cs with
  | [] => (None, p)
  | (c, t) :: cs' =>
      match debounce prev c p t with
      | (Some s, p') => (Some s, p')
      | (None, p') => debounce_run prev cs' p'
      end
  end.

Lemma public_idle_ne_done prev :
  public_state_for_raw prev RawAgentState.Idle ≠ prev ↔ prev ≠ AgentState.Idle.
Proof. destruct prev; cbn; naive_solver. Qed.

(** Each further weak-idle candidate either publishes or leaves exactly one
    more confirmation pending. *)
Lemma debounce_weak_step prev c p now :
  wf_pending p → weak_idle c → prev ≠ AgentState.Idle →
  let next := public_state_for_raw prev RawAgentState.Idle in
  (debounce prev c p now).1 = Some next
  ∨ (∃ p', debounce prev c p now = (None, p') ∧ candidate p' = Some next
       ∧ confirmations p' = (if decide (candidate p = Some next)
                             then confirmations p + 1 else 1)
       ∧ confirmations p' < IDLE_CONFIRMATIONS).
Proof.
  intros Hp Hw Hne next. rewrite debounce_weak_idle by done. cbv zeta. fold next.
  destruct (_ || _) eqn:E.
  - left. cbn. unfold publish_if_changed. case_decide as Hd; [|done].
    exfalso. symmetry in Hd. by apply public_idle_ne_done in Hd.
  - right. exists (confirm next now p). bool_to_prop.
    pose proof (wf_pending_range p Hp) as Hr.
    unfold confirm in *. unfold IDLE_CONFIRMATIONS, sat_add, U8_MAX in *.
    repeat case_decide; cbn in *; naive_solver lia.
Qed.

(** a genuine but weak idle signal is never withheld for long: from any
    reachable pending state, three consecutive weak idle candidates publish
    the idle reading, whatever their times. *)
Theorem debounce_weak_idle_publishes prev c1 c2 c3 t1 t2 t3 p :
  wf_pending p → prev ≠ AgentState.Idle →
  weak_idle c1 → weak_idle c2 → weak_idle c3 →
  (debounce_run prev [(c1, t1); (c2, t2); (c3, t3)] p).1
    = Some (public_state_for_raw prev RawAgentState.Idle).
Proof.
  intros Hp Hne H1 H2 H3. cbn [debounce_run].
  destruct (debounce_weak_step prev c1 p t1 Hp H1 Hne) as [E|(p1 & E & Hc1 & Hn1 & Hl1)];
    [destruct (debounce prev c1 p t1) as [[]?]; naive_solver|].
  pose proof (debounce_wf prev c1 p t1 Hp) as Hp1. rewrite E in *. cbn in Hp1.
  destruct (debounce_weak_step prev c2 p1 t2 Hp1 H2 Hne) as [E2|(p2 & E2 & Hc2 & Hn2 & Hl2)];
    [destruct (debounce prev c2 p1 t2) as [[]?]; naive_solver|].
  pose proof (debounce_wf prev c2 p1 t2 Hp1) as Hp2. rewrite E2 in *. cbn in Hp2.
  destruct (debounce_weak_step prev c3 p2 t3 Hp2 H3 Hne) as [E3|(p3 & E3 & Hc3 & Hn3 & Hl3)];
    [destruct (debounce prev c3 p2 t3) as [[]?]; naive_solver|].
  exfalso. rewrite decide_True in Hn2 by done. rewrite decide_True in Hn3 by done.
  unfold IDLE_CONFIRMATIONS in *.
  pose proof (wf_pending_range p Hp). case_decide; lia.
Qed.

Definition ex_weak : EvidenceSummary :=
  with_verdict RawAgentState.Idle Confidence.Weak EvidenceWinner.StrongVisualOrOsc default_summary.

Lemma debounce_weak_idle_publishes_witness :
  (debounce_run AgentState.Working [(ex_weak, 0); (ex_weak, 1); (ex_weak, 2)]
     (mk_pending None 0 None)).1 = Some AgentState.Done.
Proof.
  apply (debounce_weak_idle_publishes AgentState.Working ex_weak ex_weak ex_weak 0 1 2);
    [done|done|..]; repeat split.
Defined.

(** the watchdog only ever demotes a [Working] candidate, to [Unknown],
    after ten quiet seconds with no children and no CPU time, and it leaves
    every other candidate as it is. *)
Theorem apply_watchdog_spec c now :
  apply_watchdog c now = c
  ∨ (raw_state c = RawAgentState.Working
     ∧ physics_sampled c = true
     ∧ (∃ lo, last_output c = Some lo ∧ WATCHDOG_QUIET ≤ duration_since now lo)
     ∧ cpu_jiffies_delta c ≤ 0 ∧ child_process_count c ≤ 0
     ∧ apply_watchdog c now =
         push_note EvidenceNote.WatchdogDemoted
           (with_verdict RawAgentState.Unknown Confidence.Unknown EvidenceWinner.Unknown c)).
Proof.
  unfold apply_watchdog. repeat split_match; bool_to_prop; auto.
  right. naive_solver lia.
Qed.

End Policy.

(** ** The published status *)

Module Status.

Record SessionStatus := mk_status {
  effective : AgentState.t;
  raw : RawAgentState.t;
  st_confidence : Confidence.t;
  last_snapshot_summary : EvidenceSummary;
  seen : bool;
  revision : Z;
}.

(** [SessionStatus::new] *)
Definition new : SessionStatus :=
  mk_status AgentState.Unknown RawAgentState.Unknown Confidence.Unknown
    default_summary true 0.

Definition is_work (r : RawAgentState.t) : bool :=
  match r with
  | RawAgentState.Working | RawAgentState.Blocked => true
  | _ => false
  end.

Definition effective_from_raw (seen : bool) (r : RawAgentState.t) : AgentState.t :=
  match r with
  | RawAgentState.Unknown => AgentState.Unknown
  | RawAgentState.Working => AgentState.Working
  | RawAgentState.Blocked => AgentState.Blocked
  | RawAgentState.Idle => if seen then AgentState.Idle else AgentState.Done
  end.

Definition publish_raw (st : SessionStatus) (summary : EvidenceSummary)
    : option AgentState.t * SessionStatus :=
  let r := raw_state summary in
  let entering_work_cycle := is_work r && negb (is_work (raw st)) in
  let seen' := if entering_work_cycle then false else seen st in
  let next := effective_from_raw seen' r in
  if decide (next = effective st) then
    (None, mk_status (effective st) r (confidence summary) summary seen' (revision st))
  else
    (Some next, mk_status next r (confidence summary) summary seen' (add64 (revision st) 1)).

Definition acknowledge (st : SessionStatus) : option AgentState.t * SessionStatus :=
  if decide (effective st = AgentState.Done) then
    (Some AgentState.Idle,
     mk_status AgentState.Idle (raw st) (st_confidence st) (last_snapshot_summary st)
       true (add64 (revision st) 1))
  else
    (None,
     mk_status (effective st) (raw st) (st_confidence st) (last_snapshot_summary st)
       true (revision st)).

Module AgentStatusSource.
Inductive t :=
| None_
| VisibleScreen
| ShellIntegration
| ForegroundProcess
| Reported (source_id : string).
End AgentStatusSource.

Record AgentStatusReport := mk_report {
  r_raw_state : RawAgentState.t;
  r_source : AgentStatusSource.t;
  r_confidence : Confidence.t;
  r_detected_agent : option string;
  r_foreground_pgid : option Z;
  r_visible_blocker : bool;
  r_visible_idle : bool;
  r_visible_working : bool;
  r_process_exited : bool;
  r_foreground_returned_to_shell : bool;
  r_stale_report : bool;
  r_subagents_active : Z;
  r_revision : Z;
}.

Definition report (st : SessionStatus) (detected_agent : option string) : AgentStatusReport :=
  let summary := last_snapshot_summary st in
  mk_report (raw st)
    (match winner summary with
     | EvidenceWinner.Authority sid => AgentStatusSource.Reported sid
     | EvidenceWinner.Blocked | EvidenceWinner.Freeze => AgentStatusSource.VisibleScreen
     | EvidenceWinner.StrongVisualOrOsc =>
         if shell_integration summary then AgentStatusSource.ShellIntegration
         else AgentStatusSource.VisibleScreen
     | EvidenceWinner.Physics => AgentStatusSource.ForegroundProcess
     | EvidenceWinner.ProcessExit | EvidenceWinner.Unknown => AgentStatusSource.None_
     end)
    (st_confidence st) detected_agent (foreground_pgid summary)
    (visible_blocker summary) (visible_idle summary) (visible_working summary)
    (process_exited summary) (foreground_returned_to_shell summary)
    (stale_report summary) (subagents_active summary) (revision st).

(** *** The status as a transition system *)

Inductive op :=
| Publish (s : EvidenceSummary)
| Acknowledge.

Definition step (st : SessionStatus) (o : op) : option AgentState.t * SessionStatus :=
  match o with
  | Publish s => publish_raw st s
  | Acknowledge => acknowledge st
  end.

Definition run (ops : list op) : SessionStatus :=
  foldl (λ st o, (step st o).2) new ops.

Lemma run_snoc ops o : run (ops ++ [o]) = (step (run ops) o).2.
Proof. unfold run. by rewrite foldl_app. Qed.

(** The published state is a function of the raw state and the seen flag. *)
Definition coherent (st : SessionStatus) : Prop :=
  effective st = effective_from_raw (seen st) (raw st).

Lemma publish_raw_coherent st s : coherent (publish_raw st s).2.
Proof. unfold publish_raw, coherent. case_decide; cbn; by auto. Qed.

Lemma acknowledge_coherent st : coherent st → coherent (acknowledge st).2.
Proof.
  unfold acknowledge, coherent. intros H. rewrite H.
  case_decide as E; cbn; destruct (raw st), (seen st); cbn in *; congruence.
Qed.

Lemma step_coherent st o : coherent st → coherent (step st o).2.
Proof. destruct o; cbn; eauto using publish_raw_coherent, acknowledge_coherent. Qed.

Lemma run_coherent ops : coherent (run ops).
Proof.
  induction ops as [|o ops IH] using rev_ind; [done|].
  rewrite run_snoc. by apply step_coherent.
Qed.

(** *** History specification: what the operator should see *)

(** The raw state of the last publication of a history. *)
Fixpoint last_raw_from (r : RawAgentState.t) (ops : list op) : RawAgentState.t :=
  match ops with
  | [] => r
  | Publish s :: ops' => last_raw_from (raw_state s) ops'
  | Acknowledge :: ops' => last_raw_from r ops'
  end.
Definition last_raw : list op → RawAgentState.t := last_raw_from RawAgentState.Unknown.

(** A work cycle was entered and not acknowledged since. *)
Definition unseen_work (ops : list op) : Prop :=
  ∃ pre s post,
    ops = pre ++ Publish s :: post
    ∧ is_work (raw_state s) = true ∧ is_work (last_raw pre) = false
    ∧ Acknowledge ∉ post.

Lemma last_raw_from_app r a b :
  last_raw_from r (a ++ b) = last_raw_from (last_raw_from r a) b.
Proof. revert r. induction a as [|[] a IH]; intros r; cbn; auto. Qed.

Lemma run_raw ops : raw (run ops) = last_raw ops.
Proof.
  induction ops as [|o ops IH] using rev_ind; [done|].
  rewrite run_snoc. unfold last_raw in *. rewrite last_raw_from_app.
  destruct o; cbn; unfold publish_raw, acknowledge; case_decide; cbn; auto.
Qed.

Lemma unseen_work_ack ops : ¬ unseen_work (ops ++ [Acknowledge]).
Proof.
  intros (pre & s & post & Heq & _ & _ & Hack).
  destruct post as [|o post _] using rev_ind.
  - apply app_inj_tail in Heq as [_ ?]. done.
  - rewrite app_comm_cons, app_assoc in Heq. apply app_inj_tail in Heq as [_ <-].
    apply Hack. set_solver.
Qed.

Lemma unseen_work_publish ops s :
  unseen_work (ops ++ [Publish s]) ↔
  (is_work (raw_state s) = true ∧ is_work (last_raw ops) = false) ∨ unseen_work ops.
Proof.
  split.
  - intros (pre & s' & post & Heq & Hw & Hn & Hack).
    destruct post as [|o post _] using rev_ind.
    + apply app_inj_tail in Heq as [-> [= ->]]. by left.
    + rewrite app_comm_cons, app_assoc in Heq. apply app_inj_tail in Heq as [-> <-].
      right. exists pre, s', post. set_solver.
  - intros [[Hw Hn]|(pre & s' & post & -> & Hw & Hn & Hack)].
    + exists ops, s, []. set_solver.
    + exists pre, s', (post ++ [Publish s]). rewrite <-app_assoc. set_solver.
Qed.

Lemma run_seen ops : seen (run ops) = false ↔ unseen_work ops.
Proof.
  induction ops as [|o ops IH] using rev_ind.
  { split; [done|]. intros ([|??] & ? & ? & ? & _); done. }
  rewrite run_snoc. destruct o as [s|]; cbn.
  - rewrite unseen_work_publish, <-IH, <-run_raw.
    unfold publish_raw. case_decide; cbn;
      destruct (is_work (raw_state s)), (is_work (raw (run ops))), (seen (run ops));
      cbn; intuition congruence.
  - unfold acknowledge. case_decide; cbn; split; try done;
      intros Hu; by apply unseen_work_ack in Hu.
Qed.

(** after any history of publications and acknowledgements the session
    shows [Done] exactly when the last published raw state is idle and some
    work cycle was entered that the operator has not acknowledged since. *)
Theorem status_done_iff ops :
  effective (run ops) = AgentState.Done ↔
  last_raw ops = RawAgentState.Idle ∧ unseen_work ops.
Proof.
  rewrite (run_coherent ops), run_raw, <-run_seen.
  destruct (last_raw ops), (seen (run ops)); cbn; naive_solver.
Qed.

Definition announces (st : SessionStatus) (o : op) : Z :=
  match (step st o).1 with Some _ => 1 | None => 0 end.
Fixpoint announcements (st : SessionStatus) (ops : list op) : Z :=
  match ops with
  | [] => 0
  | o :: ops' => announces st o + announcements (step st o).2 ops'
  end.

Lemma step_revision st o :
  revision (step st o).2 = wrap64 (revision st + announces st o) ∨
  (announces st o = 0 ∧ revision (step st o).2 = revision st).
Proof.
  unfold announces.
  destruct o; cbn; unfold publish_raw, acknowledge; case_decide; cbn; auto.
Qed.

Lemma step_changes st o :
  (step st o).1 = (if decide (effective (step st o).2 = effective st)
                   then None else Some (effective (step st o).2)).
Proof.
  destruct o; cbn; unfold publish_raw, acknowledge; case_decide; cbn; case_decide;
    congruence.
Qed.

Lemma wrap64_add_idemp a b : wrap64 (wrap64 a + b) = wrap64 (a + b).
Proof. unfold wrap64. apply Z.add_mod_idemp_l. lia. Qed.

Lemma foldl_revision st ops :
  wrap64 (revision (foldl (λ st o, (step st o).2) st ops))
    = wrap64 (revision st + announcements st ops).
Proof.
  revert st. induction ops as [|o ops IH]; intros st; cbn.
  { f_equal. lia. }
  rewrite IH. destruct (step_revision st o) as [->|[-> ->]].
  - rewrite wrap64_add_idemp. f_equal. lia.
  - f_equal.
Qed.

(** the revision number tells a reader whether anything changed: each
    operation announces a state exactly when the effective state changes, and
    the revision counts the announcements (modulo 2^64). *)
Theorem status_revision_counts ops :
  wrap64 (revision (run ops)) = wrap64 (announcements new ops)
  ∧ ∀ st o, (step st o).1 =
      (if decide (effective (step st o).2 = effective st)
       then None else Some (effective (step st o).2)).
Proof. split; [apply foldl_revision|apply step_changes]. Qed.

End Status.
