(* ===== verification/AgentGate.v ===== *)
(** * Agent status: runtime event gating

    [jackin-agent-status/src/gating.rs]: hook events of an agent runtime are
    canonicalised, and a per-source gate turns them into authority evidence.
    [serde_json] is a parameter: [json_get_str raw key] is
    [serde_json::from_str::<Value>(raw).ok()?.get(key)?.as_str()]. *)

From stdpp Require Import base list sets strings.
From Stdlib Require Import ZArith Lia.
From S2P Require Import Prelude AgentEvidence.

Module Gate.

Record RuntimeEvent := mk_event { runtime : string; event : string }.

Record SourceGateState := mk_gate {
  pending_permission : bool;
  subagents_active : Z;
}.

(** [SourceGateState::default] *)
Definition default_gate : SourceGateState := mk_gate false 0.

Module GateEffect.
Inductive t :=
| Authority (state : RawAgentState.t) (pending_permission : bool)
    (subagents_active : Z) (notes : list EvidenceNote.t)
| Heartbeat
| Clear
| CounterOnly (subagents_active : Z)
| Ignore.
End GateEffect.

Section enrich.
Context (json_get_str : string → string → option string).

Fixpoint first_subtype (raw : string) (keys : list string) : option string :=
  match keys with
  | [] => None
  | key :: keys' =>
      match json_get_str raw key with
      | Some subtype =>
          let subtype := trim subtype in
          if negb (str_eqb subtype "") && negb (str_eqb subtype "Notification")
          then Some subtype else first_subtype raw keys'
      | None => first_subtype raw keys'
      end
  end.

(** When [raw] is not JSON, [json_get_str raw] is [None] on every key. *)
Definition claude_notification_subtype (payload : option string) : option string :=
  match payload with
  | None => None
  | Some p =>
      let raw := trim p in
      if str_eqb raw "" then None
      else first_subtype raw ["notification_type"; "type"; "matcher"]
  end.

Definition enrich_event_name (runtime event : string) (payload : option string) : string :=
  if str_eqb runtime "claude" && str_eqb event "Notification" then
    match claude_notification_subtype payload with
    | Some subtype => "Notification:" +:+ subtype
    | None => event
    end
  else event.
End enrich.

Definition CANONICAL_EVENTS : list string :=
  ["prompt-submitted"; "tool-start"; "tool-end"; "compact-start";
   "permission-requested"; "question-asked"; "elicitation"; "permission-resolved";
   "question-answered"; "turn-complete"; "stop"; "subagent-start"; "subagent-stop";
   "session-end"; "agent-exit"; "heartbeat"].

(** [codex_app_server] is the cargo feature [codex-app-server-authority]. *)
Definition canonical_vendor_event (codex_app_server : bool) (runtime event : string)
    : option string :=
  let rt r := str_eqb runtime r in
  let ev l := str_in event l in
  if rt "claude" && ev ["SessionEnd"] then Some "agent-exit"
  else if (rt "claude" || rt "codex")
       && ev ["SessionStart"; "UserPromptSubmit"; "PreToolUse"; "PostToolUse";
              "PostToolUseFailure"; "PermissionRequest"; "PermissionDenied"; "Stop";
              "StopFailure"; "SubagentStart"; "SubagentStop"] then Some "heartbeat"
  else if rt "claude" && ev ["Notification:permission_prompt"] then Some "permission-requested"
  else if rt "claude" && ev ["Notification:idle_prompt"] then Some "turn-complete"
  else if rt "claude" && starts_with "Notification:elicitation_" event then Some "elicitation"
  else if rt "claude" && starts_with "Notification:" event then Some "heartbeat"
  else if codex_app_server && rt "codex-app-server" && ev ["turn/started"] then Some "tool-start"
  else if codex_app_server && rt "codex-app-server" && ev ["turn/completed"]
    then Some "turn-complete"
  else if rt "opencode" && ev ["session.status"; "tool.execute.before"] then Some "tool-start"
  else if rt "opencode" && ev ["tool.execute.after"] then Some "tool-end"
  else if rt "opencode" && ev ["session.idle"] then Some "turn-complete"
  else if rt "opencode" && ev ["permission.asked"] then Some "permission-requested"
  else if rt "opencode" && ev ["permission.replied"] then Some "permission-resolved"
  else if rt "opencode" && ev ["session.error"] then Some "agent-exit"
  else if rt "amp" && ev ["agent.start"; "tool.call"] then Some "tool-start"
  else if rt "amp" && ev ["tool.result"] then Some "tool-end"
  else if rt "amp" && ev ["agent.end"] then Some "turn-complete"
  else None.

Definition canonical_event (codex_app_server : bool) (runtime event : string)
    : option string :=
  let normalized := trim event in
  if str_in normalized CANONICAL_EVENTS then Some normalized
  else canonical_vendor_event codex_app_server runtime normalized.

(** [fn authority]: the effect carries the gate's flags. *)
Definition authority (state : RawAgentState.t) (gate : SourceGateState)
    (notes : list EvidenceNote.t) : GateEffect.t :=
  GateEffect.Authority state (pending_permission gate) (subagents_active gate) notes.

(** The body of [map_event] after canonicalisation. *)
Definition map_canonical (canonical : string) (g : SourceGateState)
    : GateEffect.t * SourceGateState :=
  if str_in canonical ["prompt-submitted"; "tool-start"; "tool-end"; "compact-start"] then
    (authority RawAgentState.Working g [], g)
  else if str_in canonical ["permission-requested"; "question-asked"; "elicitation"] then
    let g := mk_gate true (subagents_active g) in
    (authority RawAgentState.Blocked g [], g)
  else if str_in canonical ["permission-resolved"; "question-answered"] then
    let g := mk_gate false (subagents_active g) in
    (authority RawAgentState.Working g [], g)
  else if str_in canonical ["turn-complete"; "stop"] then
    if pending_permission g then
      (authority RawAgentState.Blocked g [EvidenceNote.StopSuppressed], g)
    else if 0 <? subagents_active g then
      (authority RawAgentState.Working g [EvidenceNote.StopSuppressed], g)
    else (authority RawAgentState.Idle g [], g)
  else if str_in canonical ["subagent-start"] then
    let g := mk_gate (pending_permission g) (sat_add U32_MAX (subagents_active g) 1) in
    (GateEffect.CounterOnly (subagents_active g), g)
  else if str_in canonical ["subagent-stop"] then
    let g := mk_gate (pending_permission g) (sat_sub (subagents_active g) 1) in
    (GateEffect.CounterOnly (subagents_active g), g)
  else if str_in canonical ["session-end"; "agent-exit"] then (GateEffect.Clear, g)
  else if str_in canonical ["heartbeat"] then (GateEffect.Heartbeat, g)
  else (GateEffect.Ignore, g).

Definition map_event (codex_app_server : bool) (e : RuntimeEvent) (g : SourceGateState)
    : GateEffect.t * SourceGateState :=
  match canonical_event codex_app_server (runtime e) (event e) with
  | None => (GateEffect.Ignore, g)
  | Some canonical => map_canonical canonical g
  end.

(** *** Properties *)

(** Step the gate of one source through a sequence of events. *)
Definition gate_after (cas : bool) (es : list RuntimeEvent) : SourceGateState :=
  foldl (λ g e, (map_event cas e g).2) default_gate es.

Lemma gate_after_snoc cas es e :
  gate_after cas (es ++ [e]) = (map_event cas e (gate_after cas es)).2.
Proof. unfold gate_after. by rewrite foldl_app. Qed.

(** What an event says about an open question to the operator. *)
Definition asks (cas : bool) (e : RuntimeEvent) : bool :=
  match canonical_event cas (runtime e) (event e) with
  | Some c => str_in c ["permission-requested"; "question-asked"; "elicitation"]
  | None => false
  end.
Definition answers (cas : bool) (e : RuntimeEvent) : bool :=
  match canonical_event cas (runtime e) (event e) with
  | Some c => str_in c ["permission-resolved"; "question-answered"]
  | None => false
  end.

(** An operator question is open when some event asked and none answered since. *)
Definition question_open (cas : bool) (es : list RuntimeEvent) : Prop :=
  ∃ pre e post, es = pre ++ e :: post ∧ asks cas e = true
    ∧ Forall (λ e', answers cas e' = false) post.

Lemma question_open_snoc cas es e :
  question_open cas (es ++ [e]) ↔
  asks cas e = true ∨ (answers cas e = false ∧ question_open cas es).
Proof.
  split.
  - intros (pre & e' & post & Heq & Ha & Hf).
    destruct post as [|e2 post _] using rev_ind.
    + apply app_inj_tail in Heq as [-> ->]. by left.
    + rewrite app_comm_cons, app_assoc in Heq. apply app_inj_tail in Heq as [-> ->].
      apply Forall_app in Hf as [Hf Hl]. rewrite Forall_singleton in Hl.
      right. split; [exact Hl|]. by exists pre, e', post.
  - intros [Ha|[Hn (pre & e' & post & -> & Ha & Hf)]].
    + exists es, e, []. auto.
    + exists pre, e', (post ++ [e]). rewrite <-app_assoc. split; [done|].
      split; [done|]. apply Forall_app. by rewrite Forall_singleton.
Qed.

Definition ASKING : list string := ["permission-requested"; "question-asked"; "elicitation"].
Definition ANSWERING : list string := ["permission-resolved"; "question-answered"].

Lemma map_canonical_pending c g :
  pending_permission (map_canonical c g).2 =
    (str_in c ASKING || (pending_permission g && negb (str_in c ANSWERING))).
Proof.
  destruct (str_in c ASKING) eqn:Hask; [str_cases Hask; reflexivity|].
  destruct (str_in c ANSWERING) eqn:Hans;
    [rewrite andb_false_r; str_cases Hans; reflexivity|].
  rewrite andb_true_r. unfold map_canonical, ASKING, ANSWERING in *.
  rewrite Hask, Hans. repeat split_match; cbn; congruence.
Qed.

Lemma map_event_pending cas e g :
  pending_permission (map_event cas e g).2 =
    (asks cas e || (pending_permission g && negb (answers cas e))).
Proof.
  unfold map_event, asks, answers.
  destruct (canonical_event _ _ _) as [c|]; [apply map_canonical_pending|].
  cbn. by rewrite andb_true_r.
Qed.

Lemma map_event_subagents cas e g :
  in_range U32_MAX (subagents_active g) →
  in_range U32_MAX (subagents_active (map_event cas e g).2).
Proof.
  intros Hg. unfold map_event. destruct (canonical_event _ _ _); [|done].
  unfold map_canonical. repeat split_match; cbn; try done;
    unfold sat_add, sat_sub; range_lia.
Qed.

Lemma gate_after_inv cas es :
  (pending_permission (gate_after cas es) = true ↔ question_open cas es)
  ∧ in_range U32_MAX (subagents_active (gate_after cas es)).
Proof.
  induction es as [|e es [IH IHs]] using rev_ind.
  { split; [|done]. split; [done|]. intros ([|] & ? & ? & ? & _); done. }
  rewrite gate_after_snoc. split; [|by apply map_event_subagents].
  rewrite map_event_pending, question_open_snoc, <-IH.
  destruct (asks cas e), (answers cas e), (pending_permission (gate_after cas es));
    cbn; naive_solver.
Qed.

(** over any sequence of hook events the gate's permission flag records
    exactly whether an operator question is still open, and the sub-agent
    counter stays a [u32]. *)
Theorem gate_tracks_questions cas es :
  (pending_permission (gate_after cas es) = true ↔ question_open cas es)
  ∧ in_range U32_MAX (subagents_active (gate_after cas es)).
Proof. apply gate_after_inv. Qed.

Lemma map_event_idle cas e g p n ns g' :
  map_event cas e g = (GateEffect.Authority RawAgentState.Idle p n ns, g') →
  p = false ∧ n ≤ 0 ∧ pending_permission g = false ∧ subagents_active g = n ∧ g' = g.
Proof.
  unfold map_event. destruct (canonical_event _ _ _); [|done].
  unfold map_canonical, authority. intros H.
  repeat split_match_in H; simplify_eq/=; bool_to_prop; auto.
Qed.

(** a runtime is never reported idle too early: when an event turns into
    an idle authority report, no operator question is open in the source's
    history and no sub-agent of that source is running. *)
Theorem idle_report_is_final cas es e p n ns g' :
  map_event cas e (gate_after cas es) = (GateEffect.Authority RawAgentState.Idle p n ns, g') →
  ¬ question_open cas es ∧ subagents_active (gate_after cas es) = 0 ∧ p = false ∧ n = 0.
Proof.
  intros H. apply map_event_idle in H as (-> & Hn & Hp & Hs & _).
  destruct (gate_after_inv cas es) as [Hq Hr].
  split; [|unfold in_range in Hr; split_and!; try done; lia].
  rewrite <-Hq, Hp. done.
Qed.

Lemma idle_report_is_final_witness :
  ¬ question_open false [mk_event "opencode" "tool.execute.before"].
Proof.
  apply (idle_report_is_final false [mk_event "opencode" "tool.execute.before"]
           (mk_event "opencode" "session.idle") false 0 [] default_gate).
  vm_compute. reflexivity.
Defined.

End Gate.
