(* ===== verification/AgentOsc.v ===== *)
(** * Agent status: the OSC status decoder

    [jackin-agent-status/src/osc.rs]: a byte-at-a-time decoder that picks shell
    integration marks (OSC 133) and progress reports (OSC 9;4) out of terminal
    output, with a fixed 64-byte payload buffer. *)

From stdpp Require Import base list strings.
From Stdlib Require Import ZArith Lia Strings.Byte.
From S2P Require Import Prelude.

Module Osc.

Module OscShellMark.
Inductive t :=
| PromptStart
| PromptEnd
| PreExec
| CommandFinished (exit_code : option Z).
End OscShellMark.

Module OscStatusEvent.
Inductive t :=
| Shell (mark : OscShellMark.t)
| Progress (state : Z).
End OscStatusEvent.

Module State.
Inductive t := Ground | Escape | EscapeIntermediate | Osc | OscEscape.
End State.

Record OscStatusDecoder := mk_decoder {
  state : State.t;
  payload : bytes;
  len : nat;
  overflow : bool;
}.

Definition PAYLOAD_CAP : nat := 64.

(** [OscStatusDecoder::default] *)
Definition default_decoder : OscStatusDecoder :=
  mk_decoder State.Ground (repeat x00 PAYLOAD_CAP) 0 false.

Definition set_state (s : State.t) (d : OscStatusDecoder) : OscStatusDecoder :=
  mk_decoder s (payload d) (len d) (overflow d).

(** [slice::split]: the fields between separators, one more than separators. *)
Fixpoint split_on (sep : byte) (bs : bytes) : list bytes :=
  match bs with
  | [] => [[]]
  | b :: bs' =>
      if Byte.eqb b sep then [] :: split_on sep bs'
      else match split_on sep bs' with
           | f :: fs => (b :: f) :: fs
           | [] => [[b]]
           end
  end.

Definition digit_val (b : byte) : option Z :=
  let z := Z_of_byte b - 48 in if between 0 9 z then Some z else None.

Fixpoint digits_val (acc : Z) (bs : bytes) : option Z :=
  match bs with
  | [] => Some acc
  | b :: bs' => match digit_val b with
                | Some d => digits_val (acc * 10 + d) bs'
                | None => None
                end
  end.

(** [str::parse::<i32>]: an optional sign, at least one digit, in range. *)
Definition parse_i32 (bs : bytes) : option Z :=
  let check (sgn : Z) (ds : bytes) :=
    match ds with
    | [] => None
    | _ => match digits_val 0 ds with
           | Some v => if between (-2147483648) 2147483647 (sgn * v)
                       then Some (sgn * v) else None
           | None => None
           end
    end in
  match bs with
  | b :: ds => if Byte.eqb b x2d then check (-1) ds
               else if Byte.eqb b x2b then check 1 ds
               else check 1 bs
  | [] => None
  end.

Definition parse_mark (fields : list bytes) : option OscShellMark.t :=
  match fields with
  | [] => None
  | kind :: fields =>
      if bool_decide (kind = as_bytes "A") then Some OscShellMark.PromptStart
      else if bool_decide (kind = as_bytes "B") then Some OscShellMark.PromptEnd
      else if bool_decide (kind = as_bytes "C") then Some OscShellMark.PreExec
      else if bool_decide (kind = as_bytes "D") then
        match fields with
        | [] => Some (OscShellMark.CommandFinished None)
        | code :: _ =>
            match from_utf8 code with
            | None => None
            | Some _ => match parse_i32 code with
                        | Some c => Some (OscShellMark.CommandFinished (Some c))
                        | None => None
                        end
            end
        end
      else None
  end.

Definition parse_payload (p : bytes) : option OscStatusEvent.t :=
  match split_on x3b p with
  | [] => None
  | kind :: fields =>
      if bool_decide (kind = as_bytes "133") then
        OscStatusEvent.Shell <$> parse_mark fields
      else if bool_decide (kind = as_bytes "9") then
        match fields with
        | [] => None
        | f1 :: fields =>
            if bool_decide (f1 = as_bytes "4") then
              match fields with
              | [d] :: _ => OscStatusEvent.Progress <$> digit_val d
              | _ => None
              end
            else None
        end
      else None
  end.

(** [finish]: the completed payload, unless the buffer overflowed. *)
Definition finish (d : OscStatusDecoder) : list OscStatusEvent.t :=
  if overflow d then [] else
  match parse_payload (take (len d) (payload d)) with
  | Some e => [e]
  | None => []
  end.

Definition escape (d : OscStatusDecoder) (b : byte) : OscStatusDecoder :=
  let z := Z_of_byte b in
  if Byte.eqb b x5d then mk_decoder State.Osc (payload d) 0 false
  else if between 32 47 z then set_state State.EscapeIntermediate d
  else if between 48 126 z then set_state State.Ground d
  else d.

(** One iteration of the loop of [feed]. *)
Definition feed_byte (d : OscStatusDecoder) (b : byte)
    : OscStatusDecoder * list OscStatusEvent.t :=
  let z := Z_of_byte b in
  if (z =? 24) || (z =? 26) then (set_state State.Ground d, [])
  else match state d with
  | State.Ground =>
      (if z =? 27 then set_state State.Escape d else d, [])
  | State.Escape => (escape d b, [])
  | State.EscapeIntermediate =>
      (if z =? 27 then set_state State.Escape d
       else if between 48 126 z then set_state State.Ground d
       else d, [])
  | State.Osc =>
      if z =? 7 then (set_state State.Ground d, finish d)
      else if z =? 27 then (set_state State.OscEscape d, [])
      else if between 0 31 z then (d, [])
      else if (len d =? length (payload d))%nat then
        (mk_decoder (state d) (payload d) (len d) true, [])
      else
        (mk_decoder (state d) (<[len d := b]> (payload d)) (S (len d)) (overflow d), [])
  | State.OscEscape =>
      if z =? 92 then (set_state State.Ground d, finish d)
      else (escape (set_state State.Escape d) b, [])
  end.

Fixpoint feed (d : OscStatusDecoder) (bs : bytes)
    : OscStatusDecoder * list OscStatusEvent.t :=
  match bs with
  | [] => (d, [])
  | b :: bs' =>
      let (d1, e1) := feed_byte d b in
      let (d2, e2) := feed d1 bs' in (d2, e1 ++ e2)
  end.

(** *** Properties *)

(** The buffer keeps its length and the fill index stays within it, so the
    indexing of [payload] cannot be out of bounds. *)
Definition wf (d : OscStatusDecoder) : Prop :=
  length (payload d) = PAYLOAD_CAP ∧ (len d ≤ PAYLOAD_CAP)%nat.

Lemma wf_set_state s d : wf d → wf (set_state s d).
Proof. done. Qed.

Lemma wf_escape d b : wf d → wf (escape d b).
Proof. intros [? ?]. unfold escape. repeat split_match; split; cbn; (done || lia). Qed.

Lemma wf_feed_byte d b : wf d → wf (feed_byte d b).1.
Proof.
  intros Hd. unfold feed_byte.
  repeat split_match; cbn; eauto using wf_set_state, wf_escape.
  all: destruct Hd as [Hp Hl]; split; cbn; rewrite ?length_insert; try done.
  apply Nat.eqb_neq in Heqb4. lia.
Qed.

Lemma wf_feed d bs : wf d → wf (feed d bs).1.
Proof.
  revert d. induction bs as [|b bs IH]; intros d Hd; [done|]. cbn.
  pose proof (wf_feed_byte d b Hd) as H1. destruct (feed_byte d b) as [d1 e1].
  specialize (IH d1 H1). by destruct (feed d1 bs).
Qed.

(** the decoder is insensitive to how output is split into reads: feeding
    two chunks gives the events and the state of feeding their concatenation. *)
Theorem feed_app d a b :
  feed d (a ++ b) =
    let (d1, e1) := feed d a in let (d2, e2) := feed d1 b in (d2, e1 ++ e2).
Proof.
  revert d. induction a as [|x a IH]; intros d; cbn; [by destruct (feed d b)|].
  destruct (feed_byte d x) as [d1 e1]. rewrite IH.
  destruct (feed d1 a) as [d2 e2]. destruct (feed d2 b) as [d3 e3].
  by rewrite app_assoc.
Qed.

Definition printable (b : byte) : Prop := 32 ≤ Z_of_byte b.

(** Collecting printable bytes in the [Osc] state appends them to the buffer
    until it is full, then only the overflow flag changes. *)
Definition collected (d : OscStatusDecoder) : bytes := take (len d) (payload d).

Lemma feed_collect d bs :
  wf d → state d = State.Osc → Forall printable bs →
  (len d + length bs ≤ PAYLOAD_CAP)%nat →
  ∃ d', feed d bs = (d', []) ∧ wf d' ∧ state d' = State.Osc
    ∧ overflow d' = overflow d ∧ collected d' = collected d ++ bs
    ∧ len d' = (len d + length bs)%nat.
Proof.
  revert d. induction bs as [|b bs IH]; intros d Hd Hs Hp Hlen.
  { exists d. rewrite app_nil_r. cbn. split_and!; auto. }
  apply Forall_cons in Hp as [Hb Hp]. unfold printable in Hb. cbn in Hlen.
  destruct Hd as [Hpl Hll].
  assert (Hstep : feed_byte d b =
    (mk_decoder (state d) (<[len d := b]> (payload d)) (S (len d)) (overflow d), [])).
  { unfold feed_byte. rewrite Hs.
    repeat match goal with
    | |- context [?x =? ?y] => replace (x =? y) with false by (symmetry; apply Z.eqb_neq; lia)
    end. cbn [orb].
    replace (between 0 31 (Z_of_byte b)) with false
      by (unfold between; symmetry; apply andb_false_iff; right; apply Z.leb_gt; lia).
    rewrite (proj2 (Nat.eqb_neq _ _)); [done|lia]. }
  cbn. rewrite Hstep.
  destruct (IH (mk_decoder (state d) (<[len d := b]> (payload d)) (S (len d)) (overflow d)))
    as (d' & Hf & Hw & Hs' & Ho & Hc & Hl'); cbn in *; [split; cbn; [by rewrite length_insert|lia] |done|done|lia|].
  rewrite Hf. exists d'. split_and!; auto; [|lia].
  rewrite Hc. unfold collected. cbn.
  rewrite (take_S_r _ _ b) by (apply list_lookup_insert_eq; lia).
  rewrite take_insert_ge by lia. by rewrite <-app_assoc.
Qed.

(** ESC then [']'] opens a fresh payload from every state of the decoder. *)
Lemma feed_open d :
  wf d → ∃ d', feed d [x1b; x5d] = (d', []) ∧ wf d' ∧ state d' = State.Osc
    ∧ len d' = 0%nat ∧ overflow d' = false.
Proof.
  intros [Hp Hl]. destruct d as [[] p l o]; cbn in *;
    eexists; split_and!; try reflexivity; split; cbn; (done || lia).
Qed.

Inductive terminator : bytes → Prop :=
| term_bel : terminator [x07]
| term_st : terminator [x1b; x5c].

(** the decoder resynchronises: whatever garbage preceded, an OSC string
    of at most 64 printable bytes closed by BEL or ST yields exactly the event
    its payload denotes (or none), and leaves the decoder in the ground state. *)
Theorem feed_osc_sequence d p t :
  wf d → Forall printable p → (length p ≤ PAYLOAD_CAP)%nat → terminator t →
  (feed d ([x1b; x5d] ++ p ++ t)).2
    = match parse_payload p with Some e => [e] | None => [] end
  ∧ state (feed d ([x1b; x5d] ++ p ++ t)).1 = State.Ground.
Proof.
  intros Hd Hp Hlen Ht.
  destruct (feed_open d Hd) as (d1 & E1 & Hw1 & Hs1 & Hl1 & Ho1).
  destruct (feed_collect d1 p Hw1 Hs1 Hp) as (d2 & E2 & Hw2 & Hs2 & Ho2 & Hc2 & Hl2);
    [rewrite Hl1; cbn; lia|].
  rewrite feed_app, E1, feed_app, E2.
  assert (Hcol : collected d2 = p).
  { rewrite Hc2. unfold collected. by rewrite Hl1, take_0. }
  unfold collected in Hcol.
  destruct Ht; cbn; unfold feed_byte; rewrite Hs2; cbn; unfold finish; cbn;
    rewrite Ho2, Ho1, Hcol, ?app_nil_r; done.
Qed.

Lemma feed_osc_sequence_witness :
  (feed default_decoder ([x1b; x5d] ++ as_bytes "133;D;7" ++ [x07])).2
    = [OscStatusEvent.Shell (OscShellMark.CommandFinished (Some 7))].
Proof.
  assert (Hw : wf default_decoder) by (split; vm_compute; lia).
  assert (Hp : Forall printable (as_bytes "133;D;7"))
    by (repeat constructor; vm_compute; discriminate).
  assert (Hn : (length (as_bytes "133;D;7") ≤ PAYLOAD_CAP)%nat) by (vm_compute; lia).
  exact (proj1 (feed_osc_sequence default_decoder _ _ Hw Hp Hn term_bel)).
Defined.

End Osc.
