(* ===== verification/AgentPipeline.v ===== *)
(** * Agent status: the session pipeline

    The status half of the capsule's [Session] ([jackin-capsule/src/session.rs]):
    runtime hook events, terminal output marks, the periodic tick and the
    acknowledgement of the focused pane, as [session/status.rs],
    [session/pty.rs] and [daemon/state_tick.rs] compose them.

    [ProcessSampler] is the trait of [jackin-agent-status/src/process.rs]; the
    screen rule engine is an argument of the tick (its verdict on the visible
    rows), as is the clock. *)

From stdpp Require Import base list gmap strings pretty.
From Stdlib Require Import ZArith Lia.
From S2P Require Import Prelude AgentEvidence AgentSession AgentGate AgentOsc.

Module Sampler.

Module ForegroundGroup.
Inductive t (Agent : Type) :=
| None_
| Unrecognized (pgid : Z)
| AgentGroup (agent : Agent) (pgid : Z).
Arguments None_ {Agent}.
Arguments Unrecognized {Agent} _.
Arguments AgentGroup {Agent} _ _.

Definition is_agent {A} (g : t A) : bool :=
  match g with AgentGroup _ _ => true | _ => false end.
Definition has_group {A} (g : t A) : bool :=
  match g with None_ => false | _ => true end.
Definition pgid {A} (g : t A) : option Z :=
  match g with
  | None_ => None
  | Unrecognized p | AgentGroup _ p => Some p
  end.
End ForegroundGroup.

Record ProcessCpuSample := mk_cpu { total_jiffies : Z; sampled_at : instant }.

Definition CPU_SAMPLE_WINDOW : duration := from_secs 2.

(** [sample_cpu_jiffies_delta_from_total]: the delta and the new sample. *)
Definition sample_cpu_jiffies_delta_from_total (total : option Z)
    (previous : option ProcessCpuSample) (now : instant) : Z * option ProcessCpuSample :=
  match total with
  | None => (0, None)
  | Some total =>
      match previous with
      | None => (0, Some (mk_cpu total now))
      | Some prior =>
          if duration_since now (sampled_at prior) <? CPU_SAMPLE_WINDOW
          then (0, previous)
          else (sat_sub total (total_jiffies prior), Some (mk_cpu total now))
      end
  end.

(** The trait, with [identify_agent] on its process records. *)
Class ProcessSampler (ProcessInfo Agent : Type) := {
  physics_available : bool;
  read_process_info : Z → option ProcessInfo;
  foreground_group : ProcessInfo → ForegroundGroup.t Agent;
  descendant_process_count : Z → Z;
  read_process_cpu_jiffies : Z → option Z;
  identify_agent : ProcessInfo → option Agent;
}.

End Sampler.

Module Pipeline.
Import Sampler.

Record Session := mk_session {
  agent : option string;
  state : AgentState.t;
  status : Status.SessionStatus;
  pending_transition : Policy.PendingTransition;
  status_transition_times : list instant;
  status_flapping : bool;
  gate_states : gmap string Gate.SourceGateState;
  s_authority : option AuthorityEvidence;
  s_subagents_active : Z;
  child_pid : option Z;
  cpu_sample : option ProcessCpuSample;
  saw_agent_foreground : bool;
  s_osc : OscEvidence;
  osc_status_decoder : Osc.OscStatusDecoder;
  last_output_at : instant;
  last_input_at : instant;
}.

Definition default_osc : OscEvidence := mk_osc None false None None None None.

(** The status fields of a session at spawn. *)
Definition spawned (agent : option string) (pid : option Z) (now : instant) : Session :=
  mk_session agent AgentState.Unknown Status.new (Policy.mk_pending None 0 None) [] false
    ∅ None 0 pid None false default_osc Osc.default_decoder now now.

Definition STATUS_FLAP_WINDOW : duration := from_secs 30.
Definition STATUS_FLAP_THRESHOLD : nat := 3.

Definition grade_for_runtime (runtime : string) : AuthorityGrade.t :=
  if str_in runtime ["opencode"; "codex-app-server"]
  then AuthorityGrade.Complete else AuthorityGrade.Partial.

(** Update of the four fields a runtime event can touch. *)
Definition set_authority (gs : gmap string Gate.SourceGateState)
    (a : option AuthorityEvidence) (n : Z) (s : Session) : Session :=
  mk_session (agent s) (state s) (status s) (pending_transition s)
    (status_transition_times s) (status_flapping s) gs a n (child_pid s)
    (cpu_sample s) (saw_agent_foreground s) (s_osc s) (osc_status_decoder s)
    (last_output_at s) (last_input_at s).

Definition refresh_matching (source : string) (now : instant)
    (a : option AuthorityEvidence) : option AuthorityEvidence :=
  match a with
  | Some a =>
      if str_eqb (source_id a) source
      then Some (mk_authority (source_id a) (grade a) (mapped_state a)
                   (auth_pending_permission a) now (auth_notes a))
      else Some a
  | None => None
  end.

Section events.
Context (json_get_str : string → string → option string) (codex_app_server : bool).

Definition apply_runtime_event (s : Session) (source runtime event : string)
    (payload : option string) (now : instant) : Session :=
  let enriched := Gate.enrich_event_name json_get_str runtime event payload in
  let gate := default Gate.default_gate (gate_states s !! source) in
  let '(effect, gate) :=
    Gate.map_event codex_app_server (Gate.mk_event runtime enriched) gate in
  let gs := <[source := gate]> (gate_states s) in
  match effect with
  | Gate.GateEffect.Authority st pp n ns =>
      set_authority gs
        (Some (mk_authority source (grade_for_runtime runtime) st pp now ns)) n s
  | Gate.GateEffect.CounterOnly n =>
      set_authority gs (refresh_matching source now (s_authority s)) n s
  | Gate.GateEffect.Heartbeat =>
      set_authority gs (refresh_matching source now (s_authority s))
        (s_subagents_active s) s
  | Gate.GateEffect.Clear =>
      let gs := delete source gs in
      match s_authority s with
      | Some a => if str_eqb (source_id a) source then set_authority gs None 0 s
                  else set_authority gs (s_authority s) (s_subagents_active s) s
      | None => set_authority gs None (s_subagents_active s) s
      end
  | Gate.GateEffect.Ignore =>
      set_authority gs (s_authority s) (s_subagents_active s) s
  end.
End events.

Definition clear_runtime_authority (s : Session) : Session :=
  mk_session (agent s) (state s) (status s) (pending_transition s)
    (status_transition_times s) (status_flapping s) ∅ None 0 (child_pid s)
    (cpu_sample s) false (clear_agent_signals (s_osc s)) (osc_status_decoder s)
    (last_output_at s) (last_input_at s).

Definition set_osc (o : OscEvidence) (s : Session) : Session :=
  mk_session (agent s) (state s) (status s) (pending_transition s)
    (status_transition_times s) (status_flapping s) (gate_states s) (s_authority s)
    (s_subagents_active s) (child_pid s) (cpu_sample s) (saw_agent_foreground s) o
    (osc_status_decoder s) (last_output_at s) (last_input_at s).

(** One decoded status event of [session/pty.rs]. *)
Definition apply_osc_event (now : instant) (o : OscEvidence)
    (e : Osc.OscStatusEvent.t) : OscEvidence :=
  match e with
  | Osc.OscStatusEvent.Shell mark =>
      let shell := match mark with
        | Osc.OscShellMark.PreExec => Some RawAgentState.Working
        | Osc.OscShellMark.PromptEnd | Osc.OscShellMark.CommandFinished _ =>
            Some RawAgentState.Idle
        | Osc.OscShellMark.PromptStart => None
        end in
      match shell with
      | Some st => mk_osc (title o) (progress_active o) (progress_cleared_at o)
                     (progress_raw o) (Some st) (Some now)
      | None => o
      end
  | Osc.OscStatusEvent.Progress st =>
      let raw := Some ("4;" +:+ pretty st) in
      if st =? 0
      then mk_osc (title o) false (Some now) raw (shell_state o) (shell_state_marked_at o)
      else mk_osc (title o) true (progress_cleared_at o) raw (shell_state o)
             (shell_state_marked_at o)
  end.

(** The status part of handling PTY output: the output time and the decoder. *)
Definition observe_output (s : Session) (bs : bytes) (now : instant) : Session :=
  let '(d, events) := Osc.feed (osc_status_decoder s) bs in
  mk_session (agent s) (state s) (status s) (pending_transition s)
    (status_transition_times s) (status_flapping s) (gate_states s) (s_authority s)
    (s_subagents_active s) (child_pid s) (cpu_sample s) (saw_agent_foreground s)
    (foldl (apply_osc_event now) (s_osc s) events) d now (last_input_at s).

Definition default_process : ProcessEvidence :=
  mk_process false false false false false None 0 0 false.

Definition set_sample (cpu : option ProcessCpuSample) (saw : bool) (s : Session) : Session :=
  mk_session (agent s) (state s) (status s) (pending_transition s)
    (status_transition_times s) (status_flapping s) (gate_states s) (s_authority s)
    (s_subagents_active s) (child_pid s) cpu saw (s_osc s)
    (osc_status_decoder s) (last_output_at s) (last_input_at s).

Section sampling.
Context {ProcessInfo Agent : Type} `{!ProcessSampler ProcessInfo Agent}.

Definition sample_process_evidence_with (s : Session) (now : instant)
    : ProcessEvidence * Session :=
  match child_pid s with
  | None => (default_process, s)
  | Some pid =>
    if negb physics_available then (default_process, s)
    else match read_process_info pid with
    | None =>
        (mk_process true false false false false None 0 0 true,
         set_sample None (saw_agent_foreground s) s)
    | Some info =>
        let foreground := foreground_group info in
        let fg_agent := ForegroundGroup.is_agent foreground in
        let children := descendant_process_count pid in
        let '(delta, cpu) :=
          sample_cpu_jiffies_delta_from_total (read_process_cpu_jiffies pid)
            (cpu_sample s) now in
        let root := bool_decide (is_Some (identify_agent info)) in
        let saw := saw_agent_foreground s || fg_agent in
        let returned :=
          saw && negb fg_agent && ForegroundGroup.has_group foreground && (children =? 0) in
        (mk_process false returned true root fg_agent (ForegroundGroup.pgid foreground)
           children delta true,
         set_sample cpu saw s)
    end
  end.
End sampling.

(** The [while front is older than the window { pop_front }] loop. *)
Fixpoint drop_expired (now : instant) (times : list instant) : list instant :=
  match times with
  | at_ :: rest =>
      if STATUS_FLAP_WINDOW <? duration_since now at_ then drop_expired now rest
      else times
  | [] => []
  end.

Definition record_status_transition (s : Session) (now : instant) : bool * Session :=
  let times := drop_expired now (status_transition_times s) ++ [now] in
  let flapping := (STATUS_FLAP_THRESHOLD <=? length times)%nat in
  let started := flapping && negb (status_flapping s) in
  (started,
   mk_session (agent s) (state s) (status s) (pending_transition s) times flapping
     (gate_states s) (s_authority s) (s_subagents_active s) (child_pid s)
     (cpu_sample s) (saw_agent_foreground s) (s_osc s) (osc_status_decoder s)
     (last_output_at s) (last_input_at s)).

Definition set_published (st : AgentState.t) (stat : Status.SessionStatus)
    (p : Policy.PendingTransition) (s : Session) : Session :=
  mk_session (agent s) st stat p (status_transition_times s) (status_flapping s)
    (gate_states s) (s_authority s) (s_subagents_active s) (child_pid s)
    (cpu_sample s) (saw_agent_foreground s) (s_osc s) (osc_status_decoder s)
    (last_output_at s) (last_input_at s).

Record StatusTransition := mk_transition {
  previous : AgentState.t;
  t_effective : AgentState.t;
  t_winner : EvidenceWinner.t;
}.

Record StatusTick := mk_tick {
  transition : option StatusTransition;
  stuck : bool;
  flap : bool;
}.

Definition snapshot_of (s : Session) (screen : option ScreenEvidence)
    (p : ProcessEvidence) : EvidenceSnapshot :=
  mk_snapshot (s_authority s) (s_osc s)
    (default (mk_screen None None false false) screen) p
    (mk_activity (Some (last_output_at s)) (Some (last_input_at s)))
    (s_subagents_active s).

(** Publish a candidate that passed the debounce. *)
Definition publish (s : Session) (c : EvidenceSummary) (p : Policy.PendingTransition)
    (now : instant) : option StatusTransition * bool * Session :=
  let prev := state s in
  match Status.publish_raw (status s) c with
  | (Some eff, stat) =>
      let s := set_published eff stat p s in
      let '(flap, s) := record_status_transition s now in
      (Some (mk_transition prev eff (winner c)), flap, s)
  | (None, stat) => (None, false, set_published (state s) stat p s)
  end.

Section tick.
Context {ProcessInfo Agent : Type} `{!ProcessSampler ProcessInfo Agent}.

(** [advance_status_with_process_sampler]; [evaluate] is the rule registry's
    match on the session's visible rows and OSC regions, if any. *)
Definition advance_status (s : Session) (evaluate : Session → option ScreenEvidence)
    (now : instant) : StatusTick * Session :=
  let '(process, s) := sample_process_evidence_with s now in
  let exiting := p_process_exited process || p_foreground_returned_to_shell process in
  let snapshot := snapshot_of s (evaluate s) process in
  let cand :=
    Policy.apply_watchdog
      (Arbitrate.arbitrate snapshot (Status.raw (status s)) now) now in
  let stuck := has_note cand EvidenceNote.WatchdogDemoted in
  let '(pub, p) := Policy.debounce (state s) cand (pending_transition s) now in
  let '(transition, flap, s) :=
    match pub with
    | Some _ => publish s cand p now
    | None => (None, false, set_published (state s) (status s) p s)
    end in
  let s := if exiting then clear_runtime_authority s else s in
  (mk_tick transition stuck flap, s).
End tick.

(** The focused session's acknowledgement in the daemon's state tick. *)
Definition acknowledge_focused (s : Session) : Session :=
  match Status.acknowledge (status s) with
  | (Some eff, stat) => set_published eff stat (pending_transition s) s
  | (None, stat) => set_published (state s) stat (pending_transition s) s
  end.

(** *** The session as a transition system *)

Section reachability.
Context {ProcessInfo Agent : Type}.
Context (json_get_str : string → string → option string) (codex_app_server : bool).

(** Samples of the process table differ from tick to tick, so each tick brings
    its own sampler. *)
Inductive session_step : Session → Session → Prop :=
| step_event s source runtime event payload now :
    session_step s (apply_runtime_event json_get_str codex_app_server s source
                      runtime event payload now)
| step_output s bs now : session_step s (observe_output s bs now)
| step_tick (sampler : ProcessSampler ProcessInfo Agent) s evaluate now :
    session_step s (advance_status s evaluate now).2
| step_ack s : session_step s (acknowledge_focused s).

Inductive reachable : Session → Prop :=
| reach_spawn a pid now : reachable (spawned a pid now)
| reach_step s s' : reachable s → session_step s s' → reachable s'.

Record session_inv (s : Session) : Prop := {
  inv_state : state s = Status.effective (status s);
  inv_coherent : Status.coherent (status s);
  inv_pending : Policy.wf_pending (pending_transition s);
  inv_osc : Osc.wf (osc_status_decoder s);
  inv_flap : status_flapping s = (STATUS_FLAP_THRESHOLD <=? length (status_transition_times s))%nat;
  inv_gates : map_Forall (λ _ g, in_range U32_MAX (Gate.subagents_active g)) (gate_states s);
}.

Lemma inv_set_authority gs a n s :
  session_inv s →
  map_Forall (λ _ g, in_range U32_MAX (Gate.subagents_active g)) gs →
  session_inv (set_authority gs a n s).
Proof. intros [] ?. by constructor. Qed.

Lemma inv_set_sample cpu saw s : session_inv s → session_inv (set_sample cpu saw s).
Proof. intros []. by constructor. Qed.

Lemma inv_clear s : session_inv s → session_inv (clear_runtime_authority s).
Proof. intros []. by constructor. Qed.

Lemma inv_published st stat p s :
  session_inv s → st = Status.effective stat → Status.coherent stat →
  Policy.wf_pending p → session_inv (set_published st stat p s).
Proof. intros [] ???. by constructor. Qed.

Lemma inv_record s now : session_inv s → session_inv (record_status_transition s now).2.
Proof. intros []. by constructor. Qed.

Lemma sample_inv (sampler : ProcessSampler ProcessInfo Agent) s now :
  session_inv s → session_inv (sample_process_evidence_with s now).2.
Proof.
  intros H. unfold sample_process_evidence_with.
  repeat split_match; cbn; eauto using inv_set_sample.
Qed.

Lemma publish_inv s c p now :
  session_inv s → Policy.wf_pending p → session_inv (publish s c p now).2.
Proof.
  intros H Hp. unfold publish.
  pose proof (Status.publish_raw_coherent (status s) c) as Hc.
  pose proof (Status.step_changes (status s) (Status.Publish c)) as Hs. cbn in Hs.
  destruct (Status.publish_raw (status s) c) as [[eff|] stat]; cbn in *;
    case_decide; simplify_eq.
  - apply (inv_record (set_published (Status.effective stat) stat p s) now).
    by apply inv_published.
  - apply inv_published; try done. destruct H. congruence.
Qed.

Lemma advance_inv (sampler : ProcessSampler ProcessInfo Agent) s evaluate now :
  session_inv s → session_inv (advance_status s evaluate now).2.
Proof.
  intros H. unfold advance_status.
  pose proof (sample_inv sampler s now H) as H1.
  destruct (sample_process_evidence_with s now) as [pr s1]; cbn in H1.
  match goal with |- context [Policy.debounce ?a ?c ?p ?n] =>
    pose proof (Policy.debounce_wf a c p n (inv_pending _ H1)) as Hw;
    destruct (Policy.debounce a c p n) as [pub p'] eqn:Ed end.
  cbn in Hw. destruct pub.
  - match goal with |- context [publish ?a ?c ?p ?n] =>
      pose proof (publish_inv a c p n H1 Hw) as Hpub;
      destruct (publish a c p n) as [[tr fl] s2] end.
    cbn in *. split_match; eauto using inv_clear.
  - pose proof (inv_published (state s1) (status s1) p' s1 H1 (inv_state _ H1)
                  (inv_coherent _ H1) Hw) as H2.
    split_match; cbn; eauto using inv_clear.
Qed.

Lemma event_inv s source runtime event payload now :
  session_inv s →
  session_inv (apply_runtime_event json_get_str codex_app_server s source runtime event
                 payload now).
Proof.
  intros H. unfold apply_runtime_event.
  set (g0 := default Gate.default_gate (gate_states s !! source)).
  set (ev := Gate.mk_event _ _).
  assert (Hg0 : in_range U32_MAX (Gate.subagents_active g0)).
  { unfold g0. destruct (gate_states s !! source) eqn:E; cbn; [|done].
    by apply (inv_gates _ H) in E. }
  pose proof (Gate.map_event_subagents codex_app_server ev g0 Hg0) as Hg.
  destruct (Gate.map_event codex_app_server ev g0) as [eff g]; cbn in Hg.
  assert (Hgs : map_Forall (λ _ g, in_range U32_MAX (Gate.subagents_active g))
                  (<[source := g]> (gate_states s))).
  { apply map_Forall_insert_2; [done|]. apply (inv_gates _ H). }
  destruct eff; cbn; eauto using inv_set_authority.
  pose proof (map_Forall_delete _ _ source Hgs).
  repeat split_match; eauto using inv_set_authority.
Qed.

Lemma output_inv s bs now : session_inv s → session_inv (observe_output s bs now).
Proof.
  intros []. unfold observe_output.
  pose proof (Osc.wf_feed (osc_status_decoder s) bs inv_osc0) as Hf.
  destruct (Osc.feed _ _). by constructor.
Qed.

Lemma ack_inv s : session_inv s → session_inv (acknowledge_focused s).
Proof.
  intros H. unfold acknowledge_focused.
  pose proof (Status.acknowledge_coherent _ (inv_coherent _ H)) as Hc.
  pose proof (Status.step_changes (status s) Status.Acknowledge) as Hs. cbn in Hs.
  destruct (Status.acknowledge (status s)) as [[eff|] stat]; cbn in *;
    case_decide; simplify_eq; apply inv_published; try done; try apply H.
  destruct H. congruence.
Qed.

Lemma step_inv s s' : session_inv s → session_step s s' → session_inv s'.
Proof.
  intros H Hs. destruct Hs;
    [by apply event_inv|by apply output_inv|by apply advance_inv|by apply ack_inv].
Qed.

(** C25: every session state reachable by hook events, terminal output, ticks
    and acknowledgements satisfies the session invariant: the state shown to
    the operator is the published effective state, which is a function of the
    raw state and the seen flag; the pending transition, the OSC buffer, the
    flap flag and the gate counters are well-formed. *)
Theorem session_invariant s : reachable s → session_inv s.
Proof.
  induction 1 as [a pid now|s s' _ IH Hs]; [|by eapply step_inv].
  constructor; try done. split; vm_compute; lia.
Qed.

(** *** What one tick does when the child is gone *)

Lemma exit_verdict s screen p prev now :
  p_process_exited p = true →
  let c := Policy.apply_watchdog (Arbitrate.arbitrate (snapshot_of s screen p) prev now) now in
  raw_state c = RawAgentState.Idle ∧ confidence c = Confidence.Strong.
Proof.
  intros He. cbv zeta. unfold Arbitrate.arbitrate. cbn [process snapshot_of].
  rewrite He. cbn [orb]. unfold Policy.apply_watchdog. cbn. done.
Qed.

Lemma publish_idle_settles s c p now :
  state s = Status.effective (status s) → raw_state c = RawAgentState.Idle →
  state (publish s c p now).2 = AgentState.Idle
  ∨ state (publish s c p now).2 = AgentState.Done.
Proof.
  intros Hst Hr. unfold publish, Status.publish_raw. rewrite Hr. cbn.
  case_decide as Hd; cbn; [rewrite Hst, <-Hd|]; destruct (Status.seen _); auto.
Qed.

(** when the child process is gone, one tick settles the session: the
    operator sees [Idle] or [Done] at once, with no confirmation delay, and no
    authority, gate, sub-agent count or OSC mark of the dead agent survives. *)
Theorem exit_tick_settles (sampler : ProcessSampler ProcessInfo Agent) s pid evaluate now :
  session_inv s → child_pid s = Some pid → physics_available = true →
  read_process_info pid = None →
  let s' := (advance_status s evaluate now).2 in
  (state s' = AgentState.Idle ∨ state s' = AgentState.Done)
  ∧ s_authority s' = None ∧ gate_states s' = ∅ ∧ s_subagents_active s' = 0
  ∧ s_osc s' = default_osc.
Proof.
  intros H Hpid Hphys Hread. cbv zeta.
  unfold advance_status, sample_process_evidence_with. rewrite Hpid, Hphys, Hread. cbn [negb].
  set (s1 := set_sample _ _ s). set (p := mk_process true _ _ _ _ _ _ _ _).
  destruct (exit_verdict s1 (evaluate s1) p (Status.raw (status s1)) now eq_refl) as [Hr Hc].
  set (c := Policy.apply_watchdog _ _) in *.
  assert (Hs1 : state s1 = Status.effective (status s1)) by apply H.
  destruct (Policy.debounce (state s1) c (pending_transition s1) now) as [pub p'] eqn:Ed.
  cbn [p_process_exited p orb].
  destruct pub as [st|].
  - pose proof (publish_idle_settles s1 c p' now Hs1 Hr) as Hp.
    destruct (publish s1 c p' now) as [[tr fl] s2]. cbn in *. done.
  - cbn. unfold Policy.debounce in Ed. rewrite Hr, Hc in Ed. cbn in Ed.
    split; [|done]. unfold Policy.publish_if_changed in Ed. cbn in Hs1.
    destruct (state s); cbn in Ed; case_decide; simplify_eq; auto.
Qed.

End reachability.

(** A concrete sampler: process 7 exists and is the foreground agent; every
    other pid is gone. *)
Definition sampler7 : ProcessSampler () () :=
  {| physics_available := true;
     read_process_info := λ pid, if pid =? 7 then Some () else None;
     foreground_group := λ _, ForegroundGroup.AgentGroup () 7;
     descendant_process_count := λ _, 0;
     read_process_cpu_jiffies := λ _, Some 0;
     identify_agent := λ _, Some () |}.

Definition no_json : string → string → option string := λ _ _, None.

Definition ex_session : Session :=
  apply_runtime_event no_json false (spawned (Some "amp") (Some 8) 0) "hook" "amp"
    "agent.start" None 10.

Lemma ex_session_reachable : reachable (ProcessInfo:=()) (Agent:=()) no_json false ex_session.
Proof. eapply reach_step; [apply (reach_spawn _ _ (Some "amp") (Some 8) 0)|constructor]. Qed.

Lemma session_invariant_witness : state ex_session = Status.effective (status ex_session).
Proof.
  apply inv_state.
  apply (session_invariant (ProcessInfo:=()) (Agent:=()) no_json false).
  apply ex_session_reachable.
Defined.

Lemma ex_session_inv : session_inv ex_session.
Proof.
  eapply (step_inv (ProcessInfo:=()) (Agent:=()) no_json false); [|constructor].
  constructor; try done. split; vm_compute; lia.
Qed.

Lemma exit_tick_settles_witness :
  s_authority (@advance_status () () sampler7 ex_session (λ _, None) 20).2 = None.
Proof.
  pose proof (exit_tick_settles (ProcessInfo:=()) (Agent:=()) sampler7 ex_session 8 (λ _, None) 20
    ex_session_inv eq_refl eq_refl eq_refl) as H.
  exact (proj1 (proj2 H)).
Defined.

End Pipeline.
