(* ===== verification/AttachTypes.v ===== *)
(** * Attach protocol: data

    The frames of the attach socket between the host terminal client and the
    capsule daemon, [jackin-protocol/src/attach.rs] and
    [telemetry_context.rs]: tags, limits, frame types, terminal capabilities.

    A [u8] that is data (a colour component, a file byte) is a [byte]; wider
    integers are [Z]; [\[u8; 32\]] digests are byte lists. *)

From stdpp Require Import base list strings.
From Stdlib Require Import ZArith Lia Strings.Byte.
From S2P Require Import Prelude.

Definition TAG_HELLO : byte := x01.
Definition TAG_RESIZE : byte := x02.
Definition TAG_INPUT : byte := x03.
Definition TAG_COMMAND : byte := x04.
Definition TAG_DETACH : byte := x05.
Definition TAG_FOCUS_IN : byte := x06.
Definition TAG_FOCUS_OUT : byte := x07.
Definition TAG_CLIPBOARD_IMAGE : byte := x08.
Definition TAG_CLIPBOARD_IMAGE_START : byte := x09.
Definition TAG_CLIPBOARD_IMAGE_CHUNK : byte := x0a.
Definition TAG_CLIPBOARD_IMAGE_END : byte := x0b.
Definition TAG_CLIPBOARD_IMAGE_ERROR : byte := x0c.
Definition TAG_HOST_NOTICE : byte := x0d.
Definition TAG_ATTACH_CONTROL : byte := x0e.

Definition TAG_WELCOME : byte := x81.
Definition TAG_OUTPUT : byte := x82.
Definition TAG_SESSION_LIST : byte := x83.
Definition TAG_SHUTDOWN : byte := x84.
Definition TAG_BELL : byte := x85.
Definition TAG_HOST_OPEN_URL : byte := x86.
Definition TAG_FILE_EXPORT_START : byte := x87.
Definition TAG_FILE_EXPORT_CHUNK : byte := x88.
Definition TAG_FILE_EXPORT_END : byte := x89.
Definition TAG_HOST_STAGE_IMAGE_FROM_CLIPBOARD_PATH : byte := x8a.
Definition TAG_HOST_PASTE_IMAGE_FROM_CLIPBOARD : byte := x8b.
Definition TAG_HOST_STAGE_IMAGE_FROM_CLIPBOARD : byte := x8c.
Definition TAG_HOST_REVEAL_PATH : byte := x8d.
Definition TAG_ATTACH_CONTROL_RESPONSE : byte := x8e.

Definition MAX_FRAME_PAYLOAD : Z := 4 * 1024 * 1024.
Definition MAX_CLIPBOARD_IMAGE_FRAME_PAYLOAD : Z := 16 * 1024 * 1024.
Definition MAX_FILE_EXPORT_PATH_BYTES : Z := 4096.
Definition MAX_FILE_EXPORT_NAME_BYTES : Z := 255.
Definition MAX_FILE_EXPORT_CHUNK_BYTES : Z := 1024 * 1024.
Definition FILE_EXPORT_DIGEST_BYTES : nat := 32.
Definition MAX_CLIPBOARD_IMAGE_ERROR_BYTES : Z := 1024.
Definition MAX_HOST_NOTICE_BYTES : Z := 2048.
Definition MAX_HOST_REVEAL_PATH_BYTES : Z := 4096.
Definition MAX_CLIPBOARD_IMAGE_CHUNK_BYTES : Z := 1024 * 1024.
Definition MAX_CLIPBOARD_IMAGE_TRANSFER_BYTES : Z := 64 * 1024 * 1024.
Definition MAX_CLIPBOARD_IMAGE_BYTES : Z := MAX_CLIPBOARD_IMAGE_FRAME_PAYLOAD - 1.
Definition MAX_CONTEXTUAL_CLIPBOARD_IMAGE_BYTES : Z := MAX_CLIPBOARD_IMAGE_BYTES - 2048.
Definition MAX_HELLO_ENV : Z := 64.
Definition MAX_HELLO_ENV_VALUE : Z := 8 * 1024.
Definition MAX_HELLO_ENV_KEY : Z := 1024.
Definition MAX_CLIENT_TERMINAL_FIELD : Z := 1024.

Definition TERM_LABEL : string := "TERM".
Definition TERM_PROGRAM_LABEL : string := "TERM_PROGRAM".
Definition COLORTERM_LABEL : string := "COLORTERM".

Record TelemetryContext := mk_context {
  v : Z;
  traceparent : option string;
  tracestate : option string;
  invocation_id : option string;
  session_id : option string;
  job_id : option string;
}.

#[global] Instance context_eq_dec : EqDecision TelemetryContext.
Proof. solve_decision. Defined.

Module SpawnRequest.
Inductive t := Shell | Instance (target : string).

(** [SpawnRequest::instance], the checked constructor. *)
Definition instance (target : string) : res t :=
  if str_eqb target "" then bail "SpawnRequest::Instance target must be non-empty"
  else Ok (Instance target).
End SpawnRequest.

Module ImageProtocolCapability.
Inductive t := Unsupported | Kitty.
End ImageProtocolCapability.

Record AttachCapabilityOverrides := mk_overrides {
  ov_pointer_shapes : option bool;
  ov_truecolor : option bool;
  ov_synchronized_output : option bool;
  ov_osc8_hyperlinks : option bool;
  ov_underline_style : option bool;
  ov_image_protocol : option ImageProtocolCapability.t;
}.

(** [#\[derive(Default)\]] *)
Definition default_overrides : AttachCapabilityOverrides :=
  mk_overrides None None None None None None.

Abbreviation rgb := (byte * byte * byte)%type.

Record ClientTerminal := mk_terminal {
  term : option string;
  term_program : option string;
  colorterm : option string;
  default_fg : option rgb;
  default_bg : option rgb;
  capability_overrides : AttachCapabilityOverrides;
}.

Module ClipboardImageFormat.
Inductive t := Png | Jpeg | Gif | Webp | Tiff.

Definition extension (f : t) : string :=
  match f with
  | Png => "png" | Jpeg => "jpg" | Gif => "gif" | Webp => "webp" | Tiff => "tiff"
  end.

Definition tag (f : t) : byte :=
  match f with
  | Png => x01 | Jpeg => x02 | Gif => x03 | Webp => x04 | Tiff => x05
  end.

Definition from_tag (b : byte) : res t :=
  match b with
  | x01 => Ok Png
  | x02 => Ok Jpeg
  | x03 => Ok Gif
  | x04 => Ok Webp
  | x05 => Ok Tiff
  | _ => bail "unknown clipboard image format tag {other}"
  end.
End ClipboardImageFormat.

Record ClipboardImage := mk_image {
  img_format : ClipboardImageFormat.t;
  img_bytes : bytes;
}.

Record ClipboardImageStart := mk_img_start {
  is_transfer_id : Z;
  is_format : ClipboardImageFormat.t;
  is_size : Z;
}.

Record ClipboardImageChunk := mk_img_chunk {
  ic_transfer_id : Z;
  ic_offset : Z;
  ic_bytes : bytes;
}.

Record ClipboardImageEnd := mk_img_end {
  ie_transfer_id : Z;
  ie_sha256 : bytes;
}.

Module ClipboardImageError.
Inductive t :=
| Empty
| TooLarge
| UnsupportedFormat
| DigestMismatch
| ChunkSequence
| MissingTransfer
| DuplicateTransfer
| BackendUnavailable
| Io
| Other (message : string).

Definition message (e : t) : string :=
  match e with
  | Empty => "clipboard image transfer is empty"
  | TooLarge => "clipboard image transfer exceeds cap"
  | UnsupportedFormat => "clipboard image magic bytes do not match a supported format"
  | DigestMismatch => "clipboard image transfer SHA-256 mismatch"
  | ChunkSequence => "clipboard image transfer chunk offset did not match expected"
  | MissingTransfer => "clipboard image transfer has no active start"
  | DuplicateTransfer => "clipboard image transfer already active"
  | BackendUnavailable => "host clipboard backend unavailable (xclip/wl-paste)"
  | Io => "clipboard image host I/O failed while reading/writing"
  | Other m => m
  end.

Definition reason_code (e : t) : string :=
  match e with
  | Empty => "empty"
  | TooLarge => "oversize"
  | UnsupportedFormat => "signature-mismatch"
  | DigestMismatch => "digest-mismatch"
  | ChunkSequence => "offset-mismatch"
  | MissingTransfer => "missing-transfer"
  | DuplicateTransfer => "duplicate-transfer"
  | BackendUnavailable => "backend-unavailable"
  | Io => "io"
  | Other _ => "other"
  end.

Definition contains_any (lower : string) (l : list string) : bool :=
  existsb (λ n, str_contains n lower) l.

Definition from_message (message : string) : t :=
  let has := contains_any (to_ascii_lowercase message) in
  if has ["empty"] then Empty
  else if has ["exceeds cap"; "too large"; "over cap"] then TooLarge
  else if has ["magic"; "signature"; "not an image"; "unsupported image"]
    then UnsupportedFormat
  else if has ["sha-256"; "digest"] then DigestMismatch
  else if has ["offset"; "did not match expected"] then ChunkSequence
  else if has ["no active start"] then MissingTransfer
  else if has ["already active"] then DuplicateTransfer
  else if has ["display"; "wayland"; "xclip"; "wl-paste"; "wl-copy"] then BackendUnavailable
  else if has ["create"; "creating"; "open"; "opening"; "write"; "writing"; "flush";
               "flushing"; "permission"; "metadata"; "read"; "reading"] then Io
  else Other message.
End ClipboardImageError.

Module AttachControlOperation.
Inductive t :=
| Detach
| FocusIn
| FocusOut
| ClipboardImage (i : ClipboardImage)
| ClipboardImageStart (s : ClipboardImageStart)
| ClipboardImageChunk (c : ClipboardImageChunk)
| ClipboardImageEnd (e : ClipboardImageEnd)
| ClipboardImageError (e : ClipboardImageError.t).
End AttachControlOperation.

Record AttachControlRequest := mk_request {
  req_request_id : Z;
  req_context : TelemetryContext;
  req_operation : AttachControlOperation.t;
}.

Module AttachControlResult.
Inductive t := Success | InvalidCorrelation | Rejected.
End AttachControlResult.

Record AttachControlResponse := mk_response {
  resp_request_id : Z;
  resp_result : AttachControlResult.t;
}.

Record FileExportStart := mk_exp_start {
  es_transfer_id : Z;
  es_source_path : string;
  es_file_name : string;
  es_size : Z;
  es_reveal_after_export : bool;
  es_open_after_export : bool;
}.

Record FileExportChunk := mk_exp_chunk {
  ec_transfer_id : Z;
  ec_offset : Z;
  ec_bytes : bytes;
}.

Record FileExportEnd := mk_exp_end {
  ee_transfer_id : Z;
  ee_sha256 : bytes;
}.

Module ClientFrame.
Inductive t :=
| Hello (rows cols : Z) (spawn : option SpawnRequest.t) (env : list (string * string))
    (focus_session : option Z) (terminal : ClientTerminal)
    (context : option TelemetryContext)
| Resize (rows cols : Z)
| Input (bs : bytes)
| Command (bs : bytes)
| Detach
| FocusIn
| FocusOut
| ClipboardImage (i : ClipboardImage)
| ClipboardImageStart (s : ClipboardImageStart)
| ClipboardImageChunk (c : ClipboardImageChunk)
| ClipboardImageEnd (e : ClipboardImageEnd)
| ClipboardImageError (e : ClipboardImageError.t)
| HostNotice (message : string)
| AttachControl (r : AttachControlRequest).
End ClientFrame.

Module ServerFrame.
Inductive t :=
| Welcome (session_count : Z)
| Output (bs : bytes)
| SessionList (bs : bytes)
| Shutdown (reason : option string)
| Bell
| HostOpenUrl (url : string)
| FileExportStart (s : FileExportStart)
| FileExportChunk (c : FileExportChunk)
| FileExportEnd (e : FileExportEnd)
| HostRevealPath (path : string)
| HostStageImageFromClipboardPath
| HostPasteImageFromClipboard
| HostStageImageFromClipboard
| AttachControlResponse (r : AttachControlResponse).
End ServerFrame.

(** ** Terminal capabilities *)

Record AttachCapabilitySources := mk_sources {
  handshake_identity : bool;
  terminfo_name : bool;
  safe_color_probe : bool;
  user_override : bool;
  denylist : bool;
}.

Record AttachCapabilities := mk_caps {
  pointer_shapes : bool;
  truecolor : bool;
  synchronized_output : bool;
  osc8_hyperlinks : bool;
  underline_style : bool;
  image_protocol : ImageProtocolCapability.t;
  sources : AttachCapabilitySources;
}.

Definition is_some {A} (o : option A) : bool :=
  match o with Some _ => true | None => false end.

Definition overrides_any (o : AttachCapabilityOverrides) : bool :=
  is_some (ov_pointer_shapes o) || is_some (ov_truecolor o)
  || is_some (ov_synchronized_output o) || is_some (ov_osc8_hyperlinks o)
  || is_some (ov_underline_style o) || is_some (ov_image_protocol o).

Definition apply_to (o : AttachCapabilityOverrides) (c : AttachCapabilities)
    : AttachCapabilities :=
  mk_caps (default (pointer_shapes c) (ov_pointer_shapes o))
    (default (truecolor c) (ov_truecolor o))
    (default (synchronized_output c) (ov_synchronized_output o))
    (default (osc8_hyperlinks c) (ov_osc8_hyperlinks o))
    (default (underline_style c) (ov_underline_style o))
    (default (image_protocol c) (ov_image_protocol o))
    (sources c).

Definition attach_capabilities (t : ClientTerminal) : AttachCapabilities :=
  let term_ := to_ascii_lowercase (default "" (term t)) in
  let program := to_ascii_lowercase (default "" (term_program t)) in
  let is_empty s := str_eqb s "" in
  let known_terminal :=
    negb (str_in term_ ["dumb"; "linux"] || (is_empty term_ && is_empty program)) in
  let warp := str_contains "warp" program in
  let either n := str_contains n term_ || str_contains n program in
  let ghostty := either "ghostty" in
  let kitty := either "kitty" in
  let wezterm := either "wezterm" in
  let iterm := str_contains "iterm" program in
  let apple_terminal := str_contains "apple_terminal" program in
  let truecolor_ :=
    match colorterm t with
    | Some value => str_in (to_ascii_lowercase value) ["truecolor"; "24bit"]
    | None => false
    end in
  let pointer :=
    known_terminal && negb warp
    && (negb (is_empty program) || str_contains "ghostty" term_
        || str_contains "kitty" term_ || str_contains "foot" term_) in
  let deny := negb known_terminal || warp || str_in term_ ["dumb"; "linux"] in
  let caps := mk_caps pointer truecolor_ known_terminal
    (known_terminal && negb (str_in term_ ["linux"; "dumb"]))
    (ghostty || kitty || wezterm || iterm || apple_terminal)
    (if kitty then ImageProtocolCapability.Kitty else ImageProtocolCapability.Unsupported)
    (mk_sources known_terminal (negb (is_empty term_))
       (is_some (default_fg t) || is_some (default_bg t))
       (overrides_any (capability_overrides t)) deny) in
  apply_to (capability_overrides t) caps.

Definition pointer_shapes_supported (t : ClientTerminal) : bool :=
  pointer_shapes (attach_capabilities t).

(** The process environment is an argument: [env k] is [std::env::var(k).ok()]. *)
Section environment.
Context (env : string → option string).

Definition non_empty_env (key : string) : option string :=
  match env key with
  | Some value => if str_eqb value "" then None else Some value
  | None => None
  end.

Definition env_bool (key : string) : option bool :=
  match env key with
  | Some value =>
      if str_in value ["1"; "true"; "yes"; "on"] then Some true
      else if str_in value ["0"; "false"; "no"; "off"; "deny"] then Some false
      else None
  | None => None
  end.

Definition env_image_protocol (key : string) : option ImageProtocolCapability.t :=
  match env key with
  | Some value =>
      if str_in value ["kitty"] then Some ImageProtocolCapability.Kitty
      else if str_in value ["unsupported"; "none"; "off"; "deny"]
      then Some ImageProtocolCapability.Unsupported
      else None
  | None => None
  end.

Definition overrides_from_env : AttachCapabilityOverrides :=
  mk_overrides (env_bool "JACKIN_ATTACH_POINTER_SHAPES")
    (env_bool "JACKIN_ATTACH_TRUECOLOR") (env_bool "JACKIN_ATTACH_SYNC")
    (env_bool "JACKIN_ATTACH_OSC8") (env_bool "JACKIN_ATTACH_UNDERLINE_STYLE")
    (env_image_protocol "JACKIN_ATTACH_IMAGE_PROTOCOL").

Definition terminal_from_env : ClientTerminal :=
  mk_terminal (non_empty_env TERM_LABEL) (non_empty_env TERM_PROGRAM_LABEL)
    (non_empty_env COLORTERM_LABEL) None None overrides_from_env.
End environment.
