(* ===== verification/AttachCodec.v ===== *)
(** * Attach protocol: encoder and decoder

    [jackin-protocol/src/attach.rs] from [PayloadCursor] to [encode_client],
    [encode_server], [decode_client] and [decode_server], the contextual
    control frames of [attach/contextual.rs], and the framed reader
    [read_framed_payload].

    [serde_json] is a parameter, through the class [SerdeJson]: [to_vec] may
    fail, and [from_slice] reads a value back.  [SerdeJsonLaw] states what the
    protocol relies on. *)

From stdpp Require Import base list strings.
From Stdlib Require Import ZArith Lia Strings.Byte.
From S2P Require Import Prelude AttachTypes.

Class SerdeJson (A : Type) := {
  to_vec : A → res bytes;
  from_slice : bytes → option A;
}.

Class SerdeJsonLaw (A : Type) `{SerdeJson A} :=
  from_slice_to_vec : ∀ (a : A) bs, to_vec a = Ok bs → from_slice bs = Some a.

(** ** The payload cursor *)

Record PayloadCursor := mk_cursor { payload : bytes; pos : nat }.

Definition new_cursor (bs : bytes) : PayloadCursor := mk_cursor bs 0.

Definition finished (c : PayloadCursor) : bool := (pos c =? length (payload c))%nat.

Definition read_u8 (field : string) (c : PayloadCursor) : res (byte * PayloadCursor) :=
  match payload c !! pos c with
  | Some value => Ok (value, mk_cursor (payload c) (S (pos c)))
  | None => bail_at "hello payload ended before {field}" field
  end.

Definition read_bytes (len : nat) (field : string) (c : PayloadCursor)
    : res (bytes * PayloadCursor) :=
  let end_ := (pos c + len)%nat in
  if U64_MAX <? Z.of_nat end_ then bail_at "hello {field} length overflow" field
  else if (end_ <=? length (payload c))%nat then
    Ok (take len (drop (pos c) (payload c)), mk_cursor (payload c) end_)
  else bail_at "hello {field} length {len} exceeds remaining payload {}" field.

Definition read_be (n : nat) (field : string) (c : PayloadCursor)
    : res (Z * PayloadCursor) :=
  '(bs, c) ← read_bytes n field c; Ok (from_be_bytes bs, c).

Definition read_u16 : string → PayloadCursor → res (Z * PayloadCursor) := read_be 2.
Definition read_u32 : string → PayloadCursor → res (Z * PayloadCursor) := read_be 4.
Definition read_u64 : string → PayloadCursor → res (Z * PayloadCursor) := read_be 8.

Definition read_string (len : nat) (field : string) (c : PayloadCursor)
    : res (string * PayloadCursor) :=
  '(bs, c) ← read_bytes len field c;
  match from_utf8 bs with
  | Some s => Ok (s, c)
  | None => bail_at "hello {field} is not valid UTF-8" field
  end.

Definition read_remaining (field : string) (c : PayloadCursor)
    : res (bytes * PayloadCursor) :=
  if (pos c <=? length (payload c))%nat then
    Ok (drop (pos c) (payload c), mk_cursor (payload c) (length (payload c)))
  else bail_at "hello payload ended before {field}" field.

(** ** Encoding *)

(** [payload.len() as u32] truncates; [to_be_bytes 4] takes the low 32 bits. *)
Definition encode (tag : byte) (p : bytes) : bytes :=
  tag :: to_be_bytes 4 (blen p) ++ p.

Definition bool_byte (b : bool) : byte := if b then x01 else x00.

Definition encode_file_export_start (s : FileExportStart) : res bytes :=
  let source := as_bytes (es_source_path s) in
  let name := as_bytes (es_file_name s) in
  _ ← assert_or_panic (negb (blen source =? 0));
  _ ← assert_or_panic (blen source <=? MAX_FILE_EXPORT_PATH_BYTES);
  _ ← assert_or_panic (negb (blen name =? 0));
  _ ← assert_or_panic (blen name <=? MAX_FILE_EXPORT_NAME_BYTES);
  Ok (encode TAG_FILE_EXPORT_START
        (to_be_bytes 8 (es_transfer_id s) ++ to_be_bytes 8 (es_size s)
         ++ to_be_bytes 2 (blen source) ++ to_be_bytes 2 (blen name)
         ++ [bool_byte (es_reveal_after_export s)]
         ++ [bool_byte (es_open_after_export s)] ++ source ++ name)).

Definition encode_file_export_chunk (c : FileExportChunk) : res bytes :=
  _ ← assert_or_panic (negb (blen (ec_bytes c) =? 0));
  _ ← assert_or_panic (blen (ec_bytes c) <=? MAX_FILE_EXPORT_CHUNK_BYTES);
  Ok (encode TAG_FILE_EXPORT_CHUNK
        (to_be_bytes 8 (ec_transfer_id c) ++ to_be_bytes 8 (ec_offset c) ++ ec_bytes c)).

Definition encode_file_export_end (e : FileExportEnd) : bytes :=
  encode TAG_FILE_EXPORT_END (to_be_bytes 8 (ee_transfer_id e) ++ ee_sha256 e).

Definition encode_response (r : AttachControlResponse) : bytes :=
  encode TAG_ATTACH_CONTROL_RESPONSE
    (to_be_bytes 8 (resp_request_id r)
     ++ [match resp_result r with
         | AttachControlResult.Success => x00
         | AttachControlResult.InvalidCorrelation => x01
         | AttachControlResult.Rejected => x02
         end]).

Definition encode_server (f : ServerFrame.t) : res bytes :=
  match f with
  | ServerFrame.Welcome n => Ok (encode TAG_WELCOME (to_be_bytes 4 n))
  | ServerFrame.Output bs => Ok (encode TAG_OUTPUT bs)
  | ServerFrame.SessionList bs => Ok (encode TAG_SESSION_LIST bs)
  | ServerFrame.Shutdown reason =>
      Ok (encode TAG_SHUTDOWN (as_bytes (default "" reason)))
  | ServerFrame.Bell => Ok (encode TAG_BELL [])
  | ServerFrame.HostOpenUrl url => Ok (encode TAG_HOST_OPEN_URL (as_bytes url))
  | ServerFrame.FileExportStart s => encode_file_export_start s
  | ServerFrame.FileExportChunk c => encode_file_export_chunk c
  | ServerFrame.FileExportEnd e => Ok (encode_file_export_end e)
  | ServerFrame.HostRevealPath p => Ok (encode TAG_HOST_REVEAL_PATH (as_bytes p))
  | ServerFrame.HostStageImageFromClipboardPath =>
      Ok (encode TAG_HOST_STAGE_IMAGE_FROM_CLIPBOARD_PATH [])
  | ServerFrame.HostPasteImageFromClipboard =>
      Ok (encode TAG_HOST_PASTE_IMAGE_FROM_CLIPBOARD [])
  | ServerFrame.HostStageImageFromClipboard =>
      Ok (encode TAG_HOST_STAGE_IMAGE_FROM_CLIPBOARD [])
  | ServerFrame.AttachControlResponse r => Ok (encode_response r)
  end.

Definition encode_clipboard_image_start (s : ClipboardImageStart) : res bytes :=
  _ ← assert_or_panic (0 <? is_size s);
  _ ← assert_or_panic (is_size s <=? MAX_CLIPBOARD_IMAGE_TRANSFER_BYTES);
  Ok (encode TAG_CLIPBOARD_IMAGE_START
        (to_be_bytes 8 (is_transfer_id s) ++ [ClipboardImageFormat.tag (is_format s)]
         ++ to_be_bytes 8 (is_size s))).

Definition encode_clipboard_image_chunk (c : ClipboardImageChunk) : res bytes :=
  _ ← assert_or_panic (negb (blen (ic_bytes c) =? 0));
  _ ← assert_or_panic (blen (ic_bytes c) <=? MAX_CLIPBOARD_IMAGE_CHUNK_BYTES);
  Ok (encode TAG_CLIPBOARD_IMAGE_CHUNK
        (to_be_bytes 8 (ic_transfer_id c) ++ to_be_bytes 8 (ic_offset c) ++ ic_bytes c)).

Definition encode_clipboard_image_end (e : ClipboardImageEnd) : bytes :=
  encode TAG_CLIPBOARD_IMAGE_END (to_be_bytes 8 (ie_transfer_id e) ++ ie_sha256 e).

Definition write_terminal_field (value : option string) (label : string) : res bytes :=
  let bs := as_bytes (default "" value) in
  if MAX_CLIENT_TERMINAL_FIELD <? blen bs
  then bail_at "hello terminal field {label} length {} exceeds cap {MAX_CLIENT_TERMINAL_FIELD}" label
  else if U16_MAX <? blen bs
  then bail_at "hello terminal field {label} exceeds u16::MAX bytes" label
  else Ok (to_be_bytes 2 (blen bs) ++ bs).

Definition write_color_field (color : option rgb) : bytes :=
  match color with
  | None => [x00]
  | Some (r, g, b) => [x01; r; g; b]
  end.

Definition override_byte (o : option bool) : byte :=
  match o with None => x00 | Some false => x01 | Some true => x02 end.

Definition image_override_byte (o : option ImageProtocolCapability.t) : byte :=
  match o with
  | None => x00
  | Some ImageProtocolCapability.Unsupported => x01
  | Some ImageProtocolCapability.Kitty => x02
  end.

Definition write_capability_overrides (o : AttachCapabilityOverrides) : bytes :=
  [override_byte (ov_pointer_shapes o); override_byte (ov_truecolor o);
   override_byte (ov_synchronized_output o); override_byte (ov_osc8_hyperlinks o);
   override_byte (ov_underline_style o); image_override_byte (ov_image_protocol o)].

Fixpoint encode_env (env : list (string * string)) : res bytes :=
  match env with
  | [] => Ok []
  | (key, value) :: env' =>
      let kb := as_bytes key in
      let vb := as_bytes value in
      _ ← ensure (blen kb <=? MAX_HELLO_ENV_KEY)
            "hello env key {key:?} length {} exceeds cap {MAX_HELLO_ENV_KEY}";
      _ ← ensure (blen vb <=? MAX_HELLO_ENV_VALUE)
            "hello env value for {key:?} length {} exceeds cap {MAX_HELLO_ENV_VALUE}";
      _ ← ensure (blen kb <=? U16_MAX)
            "hello env key {key:?} exceeds u16::MAX bytes on the wire";
      _ ← ensure (blen vb <=? U32_MAX)
            "hello env value for {key:?} exceeds u32::MAX bytes on the wire";
      rest ← encode_env env';
      Ok (to_be_bytes 2 (blen kb) ++ to_be_bytes 4 (blen vb) ++ kb ++ vb ++ rest)
  end.

Definition spawn_bytes (spawn : option SpawnRequest.t) : byte * bytes :=
  match spawn with
  | None => (x00, [])
  | Some SpawnRequest.Shell => (x01, [])
  | Some (SpawnRequest.Instance target) => (x02, as_bytes target)
  end.

Definition focus_bytes (focus : option Z) : bytes :=
  match focus with
  | None => [x00]
  | Some id => x01 :: to_be_bytes 8 id
  end.

Definition encode_operation_kind (op : AttachControlOperation.t) : byte :=
  match op with
  | AttachControlOperation.Detach => x01
  | AttachControlOperation.FocusIn => x02
  | AttachControlOperation.FocusOut => x03
  | AttachControlOperation.ClipboardImage _ => x04
  | AttachControlOperation.ClipboardImageStart _ => x05
  | AttachControlOperation.ClipboardImageChunk _ => x06
  | AttachControlOperation.ClipboardImageEnd _ => x07
  | AttachControlOperation.ClipboardImageError _ => x08
  end.

(** [encoded.get(5..).unwrap_or_default()] drops the tag and the length. *)
Definition encode_operation (op : AttachControlOperation.t) : res bytes :=
  match op with
  | AttachControlOperation.Detach
  | AttachControlOperation.FocusIn
  | AttachControlOperation.FocusOut => Ok []
  | AttachControlOperation.ClipboardImage i =>
      if (blen (img_bytes i) =? 0) || (MAX_CLIPBOARD_IMAGE_BYTES <? blen (img_bytes i))
      then bail "clipboard image payload size is outside the bounded range"
      else Ok (ClipboardImageFormat.tag (img_format i) :: img_bytes i)
  | AttachControlOperation.ClipboardImageStart s =>
      bs ← encode_clipboard_image_start s; Ok (drop 5 bs)
  | AttachControlOperation.ClipboardImageChunk c =>
      bs ← encode_clipboard_image_chunk c; Ok (drop 5 bs)
  | AttachControlOperation.ClipboardImageEnd e =>
      Ok (drop 5 (encode_clipboard_image_end e))
  | AttachControlOperation.ClipboardImageError e =>
      let m := as_bytes (ClipboardImageError.message e) in
      if (blen m =? 0) || (MAX_CLIPBOARD_IMAGE_ERROR_BYTES <? blen m)
      then bail "clipboard image error message is outside the bounded range"
      else Ok m
  end.

Section codec.
Context `{SerdeJson TelemetryContext, SerdeJson (option TelemetryContext)}.

Definition encode_request (r : AttachControlRequest) : res bytes :=
  ctx ← to_vec (req_context r);
  _ ← ensure (blen ctx <=? U16_MAX) "attach control telemetry context exceeds u16::MAX";
  op ← encode_operation (req_operation r);
  let p := encode_operation_kind (req_operation r) :: to_be_bytes 8 (req_request_id r)
             ++ to_be_bytes 2 (blen ctx) ++ ctx ++ op in
  _ ← ensure (blen p <=? MAX_CLIPBOARD_IMAGE_FRAME_PAYLOAD)
        "contextual attach control payload exceeds frame limit";
  Ok (encode TAG_ATTACH_CONTROL p).

Definition encode_hello (rows cols : Z) (spawn : option SpawnRequest.t)
    (env : list (string * string)) (focus : option Z) (terminal : ClientTerminal)
    (context : option TelemetryContext) : res bytes :=
  let '(spawn_kind, agent) := spawn_bytes spawn in
  _ ← ensure (Z.of_nat (length env) <=? MAX_HELLO_ENV)
        "hello env count {} exceeds wire cap {MAX_HELLO_ENV}";
  _ ← ensure (blen agent <=? U16_MAX) "agent slug exceeds u16::MAX bytes on the wire";
  _ ← ensure (Z.of_nat (length env) <=? U16_MAX)
        "hello env count exceeds u16::MAX entries on the wire";
  env_bs ← encode_env env;
  term_bs ← write_terminal_field (term terminal) TERM_LABEL;
  prog_bs ← write_terminal_field (term_program terminal) TERM_PROGRAM_LABEL;
  color_bs ← write_terminal_field (colorterm terminal) COLORTERM_LABEL;
  ctx ← to_vec context;
  _ ← ensure (blen ctx <=? U16_MAX) "Hello telemetry context exceeds u16::MAX bytes";
  Ok (encode TAG_HELLO
        (to_be_bytes 2 rows ++ to_be_bytes 2 cols ++ [spawn_kind]
         ++ to_be_bytes 2 (blen agent) ++ agent
         ++ to_be_bytes 2 (Z.of_nat (length env)) ++ env_bs ++ focus_bytes focus
         ++ term_bs ++ prog_bs ++ color_bs
         ++ write_color_field (default_fg terminal)
         ++ write_color_field (default_bg terminal)
         ++ write_capability_overrides (capability_overrides terminal)
         ++ to_be_bytes 2 (blen ctx) ++ ctx)).

Definition encode_client (f : ClientFrame.t) : res bytes :=
  match f with
  | ClientFrame.Hello rows cols spawn env focus terminal context =>
      encode_hello rows cols spawn env focus terminal context
  | ClientFrame.Resize rows cols =>
      Ok (encode TAG_RESIZE (to_be_bytes 2 rows ++ to_be_bytes 2 cols))
  | ClientFrame.Input bs => Ok (encode TAG_INPUT bs)
  | ClientFrame.Command bs => Ok (encode TAG_COMMAND bs)
  | ClientFrame.Detach => Ok (encode TAG_DETACH [])
  | ClientFrame.FocusIn => Ok (encode TAG_FOCUS_IN [])
  | ClientFrame.FocusOut => Ok (encode TAG_FOCUS_OUT [])
  | ClientFrame.ClipboardImageStart s => encode_clipboard_image_start s
  | ClientFrame.ClipboardImageChunk c => encode_clipboard_image_chunk c
  | ClientFrame.ClipboardImageEnd e => Ok (encode_clipboard_image_end e)
  | ClientFrame.ClipboardImageError e =>
      let m := as_bytes (ClipboardImageError.message e) in
      _ ← ensure (negb (blen m =? 0)) "clipboard image error message is empty";
      _ ← ensure (blen m <=? MAX_CLIPBOARD_IMAGE_ERROR_BYTES)
            "clipboard image error message {} exceeds cap {MAX_CLIPBOARD_IMAGE_ERROR_BYTES}";
      Ok (encode TAG_CLIPBOARD_IMAGE_ERROR m)
  | ClientFrame.HostNotice message =>
      let m := as_bytes message in
      _ ← ensure (negb (blen m =? 0)) "host notice message is empty";
      _ ← ensure (blen m <=? MAX_HOST_NOTICE_BYTES)
            "host notice message {} exceeds cap {MAX_HOST_NOTICE_BYTES}";
      Ok (encode TAG_HOST_NOTICE m)
  | ClientFrame.ClipboardImage i =>
      _ ← ensure (negb (blen (img_bytes i) =? 0)) "clipboard image payload is empty";
      _ ← ensure (blen (img_bytes i) <=? MAX_CLIPBOARD_IMAGE_BYTES)
            "clipboard image payload {} exceeds cap {MAX_CLIPBOARD_IMAGE_BYTES}";
      Ok (encode TAG_CLIPBOARD_IMAGE
            (ClipboardImageFormat.tag (img_format i) :: img_bytes i))
  | ClientFrame.AttachControl r => encode_request r
  end.

(** ** Decoding *)

Definition read_terminal_field (label : string) (c : PayloadCursor)
    : res (option string * PayloadCursor) :=
  '(len, c) ← read_u16 ("terminal " +:+ label +:+ " length") c;
  if MAX_CLIENT_TERMINAL_FIELD <? len
  then bail_at "hello terminal {label} length {len} exceeds cap {MAX_CLIENT_TERMINAL_FIELD}" label
  else
  '(value, c) ← read_string (Z.to_nat len) ("terminal " +:+ label) c;
  Ok (if str_eqb value "" then None else Some value, c).

Definition read_color_field (label : string) (c : PayloadCursor)
    : res (option rgb * PayloadCursor) :=
  '(kind, c) ← read_u8 (label +:+ " presence") c;
  match kind with
  | x00 => Ok (None, c)
  | x01 =>
      '(r, c) ← read_u8 (label +:+ " r") c;
      '(g, c) ← read_u8 (label +:+ " g") c;
      '(b, c) ← read_u8 (label +:+ " b") c;
      Ok (Some (r, g, b), c)
  | _ => bail_at "unknown hello {label} presence byte {other}" label
  end.

Definition read_override_bool (label : string) (c : PayloadCursor)
    : res (option bool * PayloadCursor) :=
  '(b, c) ← read_u8 label c;
  match b with
  | x00 => Ok (None, c)
  | x01 => Ok (Some false, c)
  | x02 => Ok (Some true, c)
  | _ => bail_at "unknown {label} byte {other}" label
  end.

Definition read_image_override (c : PayloadCursor)
    : res (option ImageProtocolCapability.t * PayloadCursor) :=
  '(b, c) ← read_u8 "image protocol override" c;
  match b with
  | x00 => Ok (None, c)
  | x01 => Ok (Some ImageProtocolCapability.Unsupported, c)
  | x02 => Ok (Some ImageProtocolCapability.Kitty, c)
  | _ => bail "unknown image protocol override byte {other}"
  end.

Definition read_capability_overrides (c : PayloadCursor)
    : res (AttachCapabilityOverrides * PayloadCursor) :=
  if finished c then Ok (default_overrides, c) else
  '(ps, c) ← read_override_bool "pointer shapes override" c;
  '(tc, c) ← read_override_bool "truecolor override" c;
  '(sy, c) ← read_override_bool "sync override" c;
  '(o8, c) ← read_override_bool "osc8 override" c;
  '(us, c) ← read_override_bool "underline style override" c;
  '(im, c) ← read_image_override c;
  Ok (mk_overrides ps tc sy o8 us im, c).

(** The [for _ in 0..env_count] loop of the hello decoder. *)
Fixpoint read_env (count : nat) (c : PayloadCursor)
    : res (list (string * string) * PayloadCursor) :=
  match count with
  | O => Ok ([], c)
  | S count' =>
      '(key_len, c) ← read_u16 "env key length" c;
      '(value_len, c) ← read_u32 "env value length" c;
      _ ← ensure (key_len <=? MAX_HELLO_ENV_KEY)
            "hello env key length {key_len} exceeds cap {MAX_HELLO_ENV_KEY}";
      _ ← ensure (value_len <=? MAX_HELLO_ENV_VALUE)
            "hello env value length {value_len} exceeds cap {MAX_HELLO_ENV_VALUE}";
      '(key, c) ← read_string (Z.to_nat key_len) "env key" c;
      '(value, c) ← read_string (Z.to_nat value_len) "env value" c;
      '(rest, c) ← read_env count' c;
      Ok ((key, value) :: rest, c)
  end.

Definition decode_spawn (kind : byte) (agent : string) : res (option SpawnRequest.t) :=
  match kind with
  | x00 => Ok None
  | x01 =>
      if str_eqb agent "" then Ok (Some SpawnRequest.Shell)
      else bail "hello shell spawn must not carry an instance target"
  | x02 =>
      if str_eqb agent "" then bail "hello instance spawn missing target"
      else Ok (Some (SpawnRequest.Instance agent))
  | _ => bail "unknown hello spawn kind {other}"
  end.

Definition read_focus (c : PayloadCursor) : res (option Z * PayloadCursor) :=
  '(kind, c) ← read_u8 "focus kind" c;
  match kind with
  | x00 => Ok (None, c)
  | x01 => '(id, c) ← read_u64 "focus session id" c; Ok (Some id, c)
  | _ => bail "unknown hello focus kind {other}"
  end.

Definition read_terminal (c : PayloadCursor) : res (ClientTerminal * PayloadCursor) :=
  '(te, c) ← read_terminal_field TERM_LABEL c;
  '(tp, c) ← read_terminal_field TERM_PROGRAM_LABEL c;
  '(ct, c) ← read_terminal_field COLORTERM_LABEL c;
  '(fg, c) ← read_color_field "default fg" c;
  '(bg, c) ← read_color_field "default bg" c;
  '(ov, c) ← read_capability_overrides c;
  Ok (mk_terminal te tp ct fg bg ov, c).

Definition decode_hello (p : bytes) : res ClientFrame.t :=
  _ ← ensure (4 <=? blen p) "hello payload too short";
  let c := new_cursor p in
  '(rows, c) ← read_u16 "rows" c;
  '(cols, c) ← read_u16 "cols" c;
  '(spawn_kind, c) ← read_u8 "spawn kind" c;
  '(agent_len, c) ← read_u16 "agent length" c;
  '(agent, c) ← read_string (Z.to_nat agent_len) "agent slug" c;
  spawn ← decode_spawn spawn_kind agent;
  '(env_count, c) ← read_u16 "env count" c;
  _ ← ensure (env_count <=? MAX_HELLO_ENV)
        "hello env_count {env_count} exceeds limit {MAX_HELLO_ENV}";
  '(env, c) ← read_env (Z.to_nat env_count) c;
  '(focus, c) ← read_focus c;
  '(terminal, c) ← read_terminal c;
  '(context_len, c) ← read_u16 "telemetry context length" c;
  '(ctx, c) ← read_bytes (Z.to_nat context_len) "telemetry context" c;
  match from_slice ctx with
  | None => bail "decoding Hello telemetry context"
  | Some context =>
      _ ← ensure (finished c) "hello payload has trailing bytes";
      Ok (ClientFrame.Hello rows cols spawn env focus terminal context)
  end.

Definition decode_resize (p : bytes) : res ClientFrame.t :=
  if (2 <=? blen p) && (4 <=? blen p)
  then Ok (ClientFrame.Resize (from_be_bytes (take 2 p)) (from_be_bytes (take 2 (drop 2 p))))
  else bail "resize payload too short".

Definition decode_clipboard_image (p : bytes) : res ClientFrame.t :=
  match p with
  | [] => bail "clipboard image payload too short"
  | format_tag :: bs =>
      format ← ClipboardImageFormat.from_tag format_tag;
      _ ← ensure (negb (blen bs =? 0)) "clipboard image payload is empty";
      _ ← ensure (blen bs <=? MAX_CLIPBOARD_IMAGE_BYTES)
            "clipboard image payload {} exceeds cap {MAX_CLIPBOARD_IMAGE_BYTES}";
      Ok (ClientFrame.ClipboardImage (mk_image format bs))
  end.

Definition decode_clipboard_image_start (p : bytes) : res ClientFrame.t :=
  let c := new_cursor p in
  '(transfer_id, c) ← read_u64 "clipboard image transfer id" c;
  '(ftag, c) ← read_u8 "clipboard image format" c;
  format ← ClipboardImageFormat.from_tag ftag;
  '(size, c) ← read_u64 "clipboard image size" c;
  _ ← ensure (negb (size =? 0)) "clipboard image transfer size is empty";
  _ ← ensure (size <=? MAX_CLIPBOARD_IMAGE_TRANSFER_BYTES)
        "clipboard image transfer size {size} exceeds cap {MAX_CLIPBOARD_IMAGE_TRANSFER_BYTES}";
  _ ← ensure (finished c) "clipboard image start payload has trailing bytes";
  Ok (ClientFrame.ClipboardImageStart (mk_img_start transfer_id format size)).

Definition decode_clipboard_image_chunk (p : bytes) : res ClientFrame.t :=
  let c := new_cursor p in
  '(transfer_id, c) ← read_u64 "clipboard image transfer id" c;
  '(offset, c) ← read_u64 "clipboard image offset" c;
  '(bs, c) ← read_remaining "clipboard image chunk bytes" c;
  _ ← ensure (negb (blen bs =? 0)) "clipboard image chunk is empty";
  _ ← ensure (blen bs <=? MAX_CLIPBOARD_IMAGE_CHUNK_BYTES)
        "clipboard image chunk length {} exceeds cap {MAX_CLIPBOARD_IMAGE_CHUNK_BYTES}";
  Ok (ClientFrame.ClipboardImageChunk (mk_img_chunk transfer_id offset bs)).

Definition decode_clipboard_image_end (p : bytes) : res ClientFrame.t :=
  let c := new_cursor p in
  '(transfer_id, c) ← read_u64 "clipboard image transfer id" c;
  '(digest, c) ← read_bytes FILE_EXPORT_DIGEST_BYTES "clipboard image sha256" c;
  _ ← ensure (finished c) "clipboard image end payload has trailing bytes";
  Ok (ClientFrame.ClipboardImageEnd (mk_img_end transfer_id digest)).

Definition decode_clipboard_image_error (p : bytes) : res ClientFrame.t :=
  _ ← ensure (negb (blen p =? 0)) "clipboard image error message is empty";
  _ ← ensure (blen p <=? MAX_CLIPBOARD_IMAGE_ERROR_BYTES)
        "clipboard image error message length {} exceeds cap {MAX_CLIPBOARD_IMAGE_ERROR_BYTES}";
  match from_utf8 p with
  | Some m => Ok (ClientFrame.ClipboardImageError (ClipboardImageError.from_message m))
  | None => bail "clipboard image error message is not valid UTF-8"
  end.

Definition decode_host_notice (p : bytes) : res ClientFrame.t :=
  _ ← ensure (negb (blen p =? 0)) "host notice message is empty";
  _ ← ensure (blen p <=? MAX_HOST_NOTICE_BYTES)
        "host notice message length {} exceeds cap {MAX_HOST_NOTICE_BYTES}";
  match from_utf8 p with
  | Some m => Ok (ClientFrame.HostNotice m)
  | None => bail "host notice message is not valid UTF-8"
  end.

Definition decode_client_legacy (tag : byte) (p : bytes) : res ClientFrame.t :=
  if Byte.eqb tag TAG_HELLO then decode_hello p
  else if Byte.eqb tag TAG_RESIZE then decode_resize p
  else if Byte.eqb tag TAG_INPUT then Ok (ClientFrame.Input p)
  else if Byte.eqb tag TAG_COMMAND then Ok (ClientFrame.Command p)
  else if Byte.eqb tag TAG_DETACH then Ok ClientFrame.Detach
  else if Byte.eqb tag TAG_FOCUS_IN then Ok ClientFrame.FocusIn
  else if Byte.eqb tag TAG_FOCUS_OUT then Ok ClientFrame.FocusOut
  else if Byte.eqb tag TAG_CLIPBOARD_IMAGE then decode_clipboard_image p
  else if Byte.eqb tag TAG_CLIPBOARD_IMAGE_START then decode_clipboard_image_start p
  else if Byte.eqb tag TAG_CLIPBOARD_IMAGE_CHUNK then decode_clipboard_image_chunk p
  else if Byte.eqb tag TAG_CLIPBOARD_IMAGE_END then decode_clipboard_image_end p
  else if Byte.eqb tag TAG_CLIPBOARD_IMAGE_ERROR then decode_clipboard_image_error p
  else if Byte.eqb tag TAG_HOST_NOTICE then decode_host_notice p
  else bail "unknown client attach tag {other:#04x}".

Definition decode_operation (kind : byte) (c : PayloadCursor)
    : res (AttachControlOperation.t * PayloadCursor) :=
  match kind with
  | x01 => Ok (AttachControlOperation.Detach, c)
  | x02 => Ok (AttachControlOperation.FocusIn, c)
  | x03 => Ok (AttachControlOperation.FocusOut, c)
  | x04 =>
      '(ftag, c) ← read_u8 "clipboard image format" c;
      format ← ClipboardImageFormat.from_tag ftag;
      '(bs, c) ← read_remaining "clipboard image bytes" c;
      if (blen bs =? 0) || (MAX_CLIPBOARD_IMAGE_BYTES <? blen bs)
      then bail "clipboard image payload size is outside the bounded range"
      else Ok (AttachControlOperation.ClipboardImage (mk_image format bs), c)
  | x05 =>
      '(transfer_id, c) ← read_u64 "clipboard image transfer id" c;
      '(ftag, c) ← read_u8 "clipboard image format" c;
      format ← ClipboardImageFormat.from_tag ftag;
      '(size, c) ← read_u64 "clipboard image size" c;
      Ok (AttachControlOperation.ClipboardImageStart (mk_img_start transfer_id format size), c)
  | x06 =>
      '(transfer_id, c) ← read_u64 "clipboard image transfer id" c;
      '(offset, c) ← read_u64 "clipboard image offset" c;
      '(bs, c) ← read_remaining "clipboard image chunk bytes" c;
      Ok (AttachControlOperation.ClipboardImageChunk (mk_img_chunk transfer_id offset bs), c)
  | x07 =>
      '(transfer_id, c) ← read_u64 "clipboard image transfer id" c;
      '(digest, c) ← read_bytes FILE_EXPORT_DIGEST_BYTES "clipboard image sha256" c;
      Ok (AttachControlOperation.ClipboardImageEnd (mk_img_end transfer_id digest), c)
  | x08 =>
      '(bs, c) ← read_remaining "clipboard image error message" c;
      match from_utf8 bs with
      | Some m =>
          Ok (AttachControlOperation.ClipboardImageError (ClipboardImageError.from_message m), c)
      | None => bail "clipboard image error message is not valid UTF-8"
      end
  | _ => bail "unknown attach control kind {other}"
  end.

Definition decode_request (p : bytes) : res AttachControlRequest :=
  let c := new_cursor p in
  '(kind, c) ← read_u8 "attach control kind" c;
  '(request_id, c) ← read_u64 "attach control request id" c;
  '(context_len, c) ← read_u16 "attach control context length" c;
  '(ctx, c) ← read_bytes (Z.to_nat context_len) "attach control context" c;
  match from_slice ctx with
  | None => bail "decoding attach control telemetry context"
  | Some context =>
      '(operation, c) ← decode_operation kind c;
      _ ← ensure (finished c) "attach control payload has trailing bytes";
      Ok (mk_request request_id context operation)
  end.

Definition decode_client (tag : byte) (p : bytes) : res ClientFrame.t :=
  if Byte.eqb tag TAG_ATTACH_CONTROL then
    r ← decode_request p; Ok (ClientFrame.AttachControl r)
  else decode_client_legacy tag p.
End codec.

Definition decode_response (p : bytes) : res AttachControlResponse :=
  let c := new_cursor p in
  '(request_id, c) ← read_u64 "attach control response request id" c;
  '(b, c) ← read_u8 "attach control response result" c;
  result ← match b with
           | x00 => Ok AttachControlResult.Success
           | x01 => Ok AttachControlResult.InvalidCorrelation
           | x02 => Ok AttachControlResult.Rejected
           | _ => bail "unknown attach control response result {other}"
           end;
  _ ← ensure (finished c) "attach control response has trailing bytes";
  Ok (mk_response request_id result).

Definition is_host_open_url_scheme (url : string) : bool :=
  let lower := to_ascii_lowercase url in
  starts_with "http://" lower || starts_with "https://" lower
  || starts_with "mailto:" lower.

Definition flag_of (fmt : string) (b : byte) : res bool :=
  match b with
  | x00 => Ok false
  | x01 => Ok true
  | _ => bail fmt
  end.

Definition decode_file_export_start (p : bytes) : res ServerFrame.t :=
  let c := new_cursor p in
  '(transfer_id, c) ← read_u64 "file export transfer id" c;
  '(size, c) ← read_u64 "file export size" c;
  '(source_len, c) ← read_u16 "file export source path length" c;
  '(name_len, c) ← read_u16 "file export file name length" c;
  '(rb, c) ← read_u8 "file export reveal flag" c;
  reveal ← flag_of "file export reveal flag must be 0 or 1, got {other}" rb;
  '(ob, c) ← read_u8 "file export open flag" c;
  open ← flag_of "file export open flag must be 0 or 1, got {other}" ob;
  _ ← ensure (negb ((source_len =? 0) || (MAX_FILE_EXPORT_PATH_BYTES <? source_len)))
        "file export source path length {source_len} exceeds cap {MAX_FILE_EXPORT_PATH_BYTES}";
  _ ← ensure (negb ((name_len =? 0) || (MAX_FILE_EXPORT_NAME_BYTES <? name_len)))
        "file export file name length {name_len} exceeds cap {MAX_FILE_EXPORT_NAME_BYTES}";
  '(source_path, c) ← read_string (Z.to_nat source_len) "file export source path" c;
  '(file_name, c) ← read_string (Z.to_nat name_len) "file export file name" c;
  _ ← ensure (finished c) "file export start payload has trailing bytes";
  Ok (ServerFrame.FileExportStart
        (mk_exp_start transfer_id source_path file_name size reveal open)).

Definition decode_file_export_chunk (p : bytes) : res ServerFrame.t :=
  let c := new_cursor p in
  '(transfer_id, c) ← read_u64 "file export transfer id" c;
  '(offset, c) ← read_u64 "file export offset" c;
  '(bs, c) ← read_remaining "file export chunk bytes" c;
  _ ← ensure (negb (blen bs =? 0)) "file export chunk is empty";
  _ ← ensure (blen bs <=? MAX_FILE_EXPORT_CHUNK_BYTES)
        "file export chunk length {} exceeds cap {MAX_FILE_EXPORT_CHUNK_BYTES}";
  Ok (ServerFrame.FileExportChunk (mk_exp_chunk transfer_id offset bs)).

Definition decode_file_export_end (p : bytes) : res ServerFrame.t :=
  let c := new_cursor p in
  '(transfer_id, c) ← read_u64 "file export transfer id" c;
  '(digest, c) ← read_bytes FILE_EXPORT_DIGEST_BYTES "file export sha256" c;
  _ ← ensure (finished c) "file export end payload has trailing bytes";
  Ok (ServerFrame.FileExportEnd (mk_exp_end transfer_id digest)).

Definition decode_host_reveal_path (p : bytes) : res ServerFrame.t :=
  _ ← ensure (negb (blen p =? 0)) "host reveal path payload is empty";
  _ ← ensure (blen p <=? MAX_HOST_REVEAL_PATH_BYTES)
        "host reveal path length {} exceeds cap {MAX_HOST_REVEAL_PATH_BYTES}";
  match from_utf8 p with
  | Some path => Ok (ServerFrame.HostRevealPath path)
  | None => bail "host reveal path payload is not valid UTF-8"
  end.

Definition decode_host_open_url (p : bytes) : res ServerFrame.t :=
  match from_utf8 p with
  | None => bail "host-open-url payload is not valid UTF-8"
  | Some url =>
      _ ← ensure (is_host_open_url_scheme url)
            "host-open-url payload must use an allowlisted scheme";
      Ok (ServerFrame.HostOpenUrl url)
  end.

Definition decode_shutdown (p : bytes) : res ServerFrame.t :=
  if blen p =? 0 then Ok (ServerFrame.Shutdown None)
  else match from_utf8 p with
       | Some r => Ok (ServerFrame.Shutdown (Some r))
       | None => bail "shutdown reason payload is not valid UTF-8"
       end.

Definition decode_welcome (p : bytes) : res ServerFrame.t :=
  if 4 <=? blen p then Ok (ServerFrame.Welcome (from_be_bytes (take 4 p)))
  else bail "welcome payload too short".

Definition decode_server (tag : byte) (p : bytes) : res ServerFrame.t :=
  if Byte.eqb tag TAG_WELCOME then decode_welcome p
  else if Byte.eqb tag TAG_OUTPUT then Ok (ServerFrame.Output p)
  else if Byte.eqb tag TAG_SESSION_LIST then Ok (ServerFrame.SessionList p)
  else if Byte.eqb tag TAG_SHUTDOWN then decode_shutdown p
  else if Byte.eqb tag TAG_BELL then Ok ServerFrame.Bell
  else if Byte.eqb tag TAG_HOST_OPEN_URL then decode_host_open_url p
  else if Byte.eqb tag TAG_FILE_EXPORT_START then decode_file_export_start p
  else if Byte.eqb tag TAG_FILE_EXPORT_CHUNK then decode_file_export_chunk p
  else if Byte.eqb tag TAG_FILE_EXPORT_END then decode_file_export_end p
  else if Byte.eqb tag TAG_HOST_REVEAL_PATH then decode_host_reveal_path p
  else if Byte.eqb tag TAG_HOST_STAGE_IMAGE_FROM_CLIPBOARD_PATH then
    _ ← ensure (blen p =? 0) "host stage image path request payload must be empty";
    Ok ServerFrame.HostStageImageFromClipboardPath
  else if Byte.eqb tag TAG_HOST_PASTE_IMAGE_FROM_CLIPBOARD then
    _ ← ensure (blen p =? 0) "host paste image request payload must be empty";
    Ok ServerFrame.HostPasteImageFromClipboard
  else if Byte.eqb tag TAG_HOST_STAGE_IMAGE_FROM_CLIPBOARD then
    _ ← ensure (blen p =? 0) "host stage image request payload must be empty";
    Ok ServerFrame.HostStageImageFromClipboard
  else if Byte.eqb tag TAG_ATTACH_CONTROL_RESPONSE then
    r ← decode_response p; Ok (ServerFrame.AttachControlResponse r)
  else bail "unknown server attach tag {other:#04x}".

(** ** The framed reader *)

Definition max_frame_payload_for_tag (tag : byte) : Z :=
  if Byte.eqb tag TAG_CLIPBOARD_IMAGE || Byte.eqb tag TAG_ATTACH_CONTROL
  then MAX_CLIPBOARD_IMAGE_FRAME_PAYLOAD
  else if Byte.eqb tag TAG_CLIPBOARD_IMAGE_CHUNK then 16 + MAX_CLIPBOARD_IMAGE_CHUNK_BYTES
  else if Byte.eqb tag TAG_FILE_EXPORT_CHUNK then 16 + MAX_FILE_EXPORT_CHUNK_BYTES
  else MAX_FRAME_PAYLOAD.

(** A stream delivers [data]; a read past its end meets [ending]: the peer
    closed, the deadline passed, or another I/O error. *)
Inductive stream_end := EndEof | EndTimeout | EndIo.
Record stream := mk_stream { data : bytes; ending : stream_end }.

Inductive io_read := ReadOk (bs : bytes) (s : stream) | ReadFail (e : stream_end).

(** [AsyncReadExt::read_exact] under [timeout_at]. *)
Definition read_exact (n : nat) (s : stream) : io_read :=
  if (n <=? length (data s))%nat
  then ReadOk (take n (data s)) (mk_stream (drop n (data s)) (ending s))
  else ReadFail (ending s).

Definition CHUNK : nat := 16 * 1024.

(** The [while remaining > 0] loop; each round consumes at least one byte, so
    [remaining] rounds are enough. *)
Fixpoint read_chunks (fuel remaining : nat) (acc : bytes) (s : stream)
    : res (option (bytes * stream)) :=
  match fuel with
  | O => Ok (Some (acc, s))
  | S fuel' =>
      match remaining with
      | O => Ok (Some (acc, s))
      | _ =>
          let n := Nat.min CHUNK remaining in
          match read_exact n s with
          | ReadOk bs s' => read_chunks fuel' (remaining - n) (acc ++ bs) s'
          | ReadFail EndEof => Ok None
          | ReadFail EndIo => bail "attach frame: reading payload"
          | ReadFail EndTimeout => bail "attach frame: timed out reading payload"
          end
      end
  end.

Definition read_framed_payload (first_byte : byte) (s : stream)
    : res (option (byte * bytes * stream)) :=
  match read_exact 4 s with
  | ReadFail EndEof => Ok None
  | ReadFail EndIo => bail "attach frame: reading length prefix"
  | ReadFail EndTimeout => bail "attach frame: timed out reading length prefix"
  | ReadOk len_buf s =>
      let len := from_be_bytes len_buf in
      if max_frame_payload_for_tag first_byte <? len
      then bail "attach frame payload {len} exceeds limit {max_payload}"
      else
        r ← read_chunks (Z.to_nat len) (Z.to_nat len) [] s;
        Ok (match r with
            | Some (bs, s) => Some (first_byte, bs, s)
            | None => None
            end)
  end.

Section readers.
Context `{SerdeJson TelemetryContext, SerdeJson (option TelemetryContext)}.

Definition read_client_frame (first_byte : byte) (s : stream)
    : res (option (ClientFrame.t * stream)) :=
  r ← read_framed_payload first_byte s;
  match r with
  | None => Ok None
  | Some (tag, p, s) => f ← decode_client tag p; Ok (Some (f, s))
  end.
End readers.

Definition read_server_frame (first_byte : byte) (s : stream)
    : res (option (ServerFrame.t * stream)) :=
  r ← read_framed_payload first_byte s;
  match r with
  | None => Ok None
  | Some (tag, p, s) => f ← decode_server tag p; Ok (Some (f, s))
  end.
