(* ===== verification/AttachProofs.v ===== *)
(** * Attach protocol: round trips and bounds

    The reader lemmas are stated on cursors of the form [cur pre rest]: the
    bytes [pre] were consumed and [rest] is left.  [reads rd enc a] says that
    [rd] consumes exactly the encoding [enc] of [a], whatever surrounds it; the
    round trips follow by composing such facts in the order of the decoder. *)

From stdpp Require Import base list strings.
From Stdlib Require Import ZArith Lia Strings.Byte.
From S2P Require Import Prelude AttachTypes AttachCodec.

(** Re-associate appends to the right in the goal and in the size hypothesis. *)
Ltac assoc_in Hf := rewrite <-?app_assoc in Hf; rewrite <-?app_assoc.

(** ** Cursors as split payloads *)

Definition cur (pre rest : bytes) : PayloadCursor := mk_cursor (pre ++ rest) (length pre).

Definition fits (bs : bytes) : Prop := blen bs ≤ U64_MAX.

Definition reads {A} (rd : PayloadCursor → res (A * PayloadCursor)) (enc : bytes) (a : A)
    : Prop :=
  ∀ pre rest, fits (pre ++ enc ++ rest) → rd (cur pre (enc ++ rest)) = Ok (a, cur (pre ++ enc) rest).

Lemma new_cursor_cur p : new_cursor p = cur [] p.
Proof. done. Qed.

Lemma finished_nil pre : finished (cur pre []) = true.
Proof. unfold finished, cur. cbn. rewrite app_nil_r. apply Nat.eqb_refl. Qed.

Lemma finished_cons pre b rest : finished (cur pre (b :: rest)) = false.
Proof. unfold finished, cur. cbn. rewrite length_app. apply Nat.eqb_neq. cbn. lia. Qed.

Lemma res_bind_Ok {A B} (a : A) (f : A → res B) : Ok a ≫= f = f a.
Proof. done. Qed.

Lemma ensure_pass {B} c fmt (f : () → res B) : c = true → ensure c fmt ≫= f = f ().
Proof. by intros ->. Qed.

Lemma reads_u8 field b : reads (read_u8 field) [b] b.
Proof.
  intros pre rest _. unfold read_u8, cur. cbn.
  rewrite lookup_app_r, Nat.sub_diag by done. cbn.
  rewrite length_app, <-app_assoc. cbn. do 3 f_equal. lia.
Qed.

Lemma reads_bytes field n bs :
  length bs = n → reads (read_bytes n field) bs bs.
Proof.
  intros <- pre rest Hf. unfold read_bytes, cur. cbn.
  unfold fits, blen in Hf. rewrite !length_app in Hf.
  rewrite (proj2 (Z.ltb_ge _ _)) by lia.
  rewrite !length_app, (proj2 (Nat.leb_le _ _)) by lia.
  rewrite drop_app_length, take_app_length, <-app_assoc. done.
Qed.

Lemma reads_be field n z :
  0 ≤ z < 2 ^ (Z.of_nat n * 8) → reads (read_be n field) (to_be_bytes n z) z.
Proof.
  intros Hz pre rest Hf. unfold read_be.
  rewrite (reads_bytes field n _ (length_to_be_bytes n z)) by done.
  rewrite res_bind_Ok. by rewrite from_to_be_bytes.
Qed.

Lemma reads_u16 field z : is_u16 z → reads (read_u16 field) (to_be_bytes 2 z) z.
Proof. intros H. apply reads_be. cbn. range_lia. Qed.
Lemma reads_u32 field z : is_u32 z → reads (read_u32 field) (to_be_bytes 4 z) z.
Proof. intros H. apply reads_be. cbn. range_lia. Qed.
Lemma reads_u64 field z : is_u64 z → reads (read_u64 field) (to_be_bytes 8 z) z.
Proof. intros H. apply reads_be. cbn. range_lia. Qed.

Lemma reads_string field n s :
  wf_str s → length (as_bytes s) = n → reads (read_string n field) (as_bytes s) s.
Proof.
  intros Hs Hn pre rest Hf. unfold read_string.
  rewrite (reads_bytes field n _ Hn) by done. rewrite res_bind_Ok.
  by rewrite from_utf8_as_bytes.
Qed.

Lemma read_remaining_cur field pre rest :
  read_remaining field (cur pre rest) = Ok (rest, cur (pre ++ rest) []).
Proof.
  unfold read_remaining, cur. cbn. rewrite length_app.
  rewrite (proj2 (Nat.leb_le _ _)) by lia. rewrite drop_app_length.
  by rewrite app_nil_r, <-length_app.
Qed.

Lemma reads_end {A} (rd : PayloadCursor → res (A * PayloadCursor)) enc a pre :
  reads rd enc a → fits (pre ++ enc) → rd (cur pre enc) = Ok (a, cur (pre ++ enc) []).
Proof. intros H Hf. specialize (H pre []). rewrite app_nil_r in H. by apply H. Qed.

(** Sequential composition: the shape of every decoder. *)
Lemma reads_bind {A B} (r1 : PayloadCursor → res (A * PayloadCursor)) e1 a
    (r2 : A → PayloadCursor → res (B * PayloadCursor)) e2 b :
  reads r1 e1 a → reads (r2 a) e2 b →
  reads (λ c, '(x, c) ← r1 c; r2 x c) (e1 ++ e2) b.
Proof.
  intros H1 H2 pre rest Hf. rewrite <-app_assoc. rewrite <-app_assoc in Hf.
  rewrite H1 by done. rewrite res_bind_Ok. cbv beta iota.
  rewrite H2; [by rewrite <-app_assoc|]. by rewrite <-app_assoc.
Qed.

Lemma reads_ret {A} (a : A) : reads (λ c, Ok (a, c)) [] a.
Proof. intros pre rest _. by rewrite app_nil_r. Qed.

Lemma reads_fmap {A B} (r : PayloadCursor → res (A * PayloadCursor)) e a (f : A → B) :
  reads r e a → reads (λ c, '(x, c) ← r c; Ok (f x, c)) e (f a).
Proof.
  intros H pre rest Hf. rewrite H by done. by rewrite res_bind_Ok.
Qed.

(** ** Fields of the hello frame *)

Lemma blen_nonneg bs : 0 ≤ blen bs.
Proof. unfold blen. lia. Qed.

Lemma to_nat_blen bs : Z.to_nat (blen bs) = length bs.
Proof. unfold blen. lia. Qed.

Lemma blen_app a b : blen (a ++ b) = blen a + blen b.
Proof. unfold blen. rewrite length_app. lia. Qed.
Lemma blen_cons x a : blen (x :: a) = 1 + blen a.
Proof. unfold blen. cbn [length]. lia. Qed.
Lemma blen_be n z : blen (to_be_bytes n z) = Z.of_nat n.
Proof. unfold blen. by rewrite length_to_be_bytes. Qed.
Lemma blen_nil : blen [] = 0.
Proof. done. Qed.
#[export] Hint Rewrite blen_app blen_cons blen_be blen_nil : jackin_len.

Definition wf_opt_str (o : option string) : Prop :=
  match o with Some s => wf_str s ∧ s ≠ "" | None => True end.

Lemma reads_terminal_field o label bs :
  wf_opt_str o → write_terminal_field o label = Ok bs →
  reads (read_terminal_field label) bs o.
Proof.
  intros Ho Hw. unfold write_terminal_field in Hw.
  repeat split_match_in Hw; invert_ok. bool_to_prop. subst bs.
  set (s := default "" o) in *.
  assert (Hs : wf_str s) by (destruct o as [t|]; [apply Ho|done]).
  intros pre rest Hf. unfold read_terminal_field. assoc_in Hf.
  pose proof (blen_nonneg (as_bytes s)).
  rewrite reads_u16 by (try done; range_lia). rewrite res_bind_Ok. cbv beta iota.
  rewrite (proj2 (Z.ltb_ge _ _)) by done. rewrite to_nat_blen.
  rewrite reads_string by (try done; by rewrite <-?app_assoc).
  rewrite res_bind_Ok. cbv beta iota. rewrite <-app_assoc. do 3 f_equal.
  unfold s, str_eqb. destruct o as [t|]; cbn; [|done].
  destruct Ho as [_ Hne]. by rewrite bool_decide_eq_false_2.
Qed.

Lemma reads_color_field label o : reads (read_color_field label) (write_color_field o) o.
Proof.
  intros pre rest Hf. unfold read_color_field. destruct o as [[[r g] b]|]; cbn [write_color_field].
  - change ([x01; r; g; b] ++ rest) with ([x01] ++ [r] ++ [g] ++ [b] ++ rest).
    do 4 (rewrite reads_u8 by (by rewrite <-?app_assoc); rewrite res_bind_Ok; cbv beta iota).
    by rewrite <-!app_assoc.
  - rewrite reads_u8 by done. done.
Qed.

Lemma reads_override_bool label o : reads (read_override_bool label) [override_byte o] o.
Proof.
  intros pre rest Hf. unfold read_override_bool. rewrite reads_u8 by done.
  rewrite res_bind_Ok. by destruct o as [[]|].
Qed.

Lemma reads_image_override o : reads read_image_override [image_override_byte o] o.
Proof.
  intros pre rest Hf. unfold read_image_override. rewrite reads_u8 by done.
  rewrite res_bind_Ok. by destruct o as [[]|].
Qed.

Lemma reads_capability_overrides o :
  reads read_capability_overrides (write_capability_overrides o) o.
Proof.
  intros pre rest Hf. unfold read_capability_overrides, write_capability_overrides in *.
  cbn [app] in Hf |- *. rewrite finished_cons.
  match goal with |- context [cur pre (?a :: ?b :: ?c :: ?d :: ?e :: ?f :: rest)] =>
    change (a :: b :: c :: d :: e :: f :: rest)
      with ([a] ++ [b] ++ [c] ++ [d] ++ [e] ++ [f] ++ rest) in Hf |- * end.
  do 5 (rewrite reads_override_bool by (by rewrite <-?app_assoc);
        rewrite res_bind_Ok; cbv beta iota).
  rewrite reads_image_override by (by rewrite <-?app_assoc). rewrite res_bind_Ok.
  cbv beta iota. rewrite <-!app_assoc. by destruct o.
Qed.

Lemma reads_focus o :
  (∀ z, o = Some z → is_u64 z) → reads read_focus (focus_bytes o) o.
Proof.
  intros Ho pre rest Hf. unfold read_focus. destruct o as [z|]; cbn [focus_bytes].
  - change (x01 :: to_be_bytes 8 z) with ([x01] ++ to_be_bytes 8 z) in *.
    assoc_in Hf.
    rewrite reads_u8 by done. rewrite res_bind_Ok. cbv beta iota.
    rewrite reads_u64 by (try (by apply Ho); by rewrite <-?app_assoc).
    rewrite res_bind_Ok. cbv beta iota. by rewrite <-app_assoc.
  - rewrite reads_u8 by done. done.
Qed.

Lemma reads_env env bs :
  Forall (λ kv, wf_str kv.1 ∧ wf_str kv.2) env → encode_env env = Ok bs →
  reads (read_env (length env)) bs env.
Proof.
  revert bs. induction env as [|[k w] env IH]; intros bs Hwf He.
  { cbn in He. invert_ok. subst bs. apply reads_ret. }
  apply Forall_cons in Hwf as [[Hk Hw] Hwf]. cbn [encode_env] in He. invert_ok.
  bool_to_prop. subst bs. intros pre rest Hf. cbn [length read_env]. cbn in Hk, Hw.
  assoc_in Hf.
  pose proof (blen_nonneg (as_bytes k)). pose proof (blen_nonneg (as_bytes w)).
  rewrite reads_u16 by (try done; range_lia). rewrite res_bind_Ok. cbv beta iota.
  rewrite reads_u32 by (try range_lia; by rewrite <-?app_assoc).
  rewrite res_bind_Ok. cbv beta iota.
  rewrite (proj2 (Z.leb_le _ MAX_HELLO_ENV_KEY)), (proj2 (Z.leb_le _ MAX_HELLO_ENV_VALUE))
    by done.
  rewrite !to_nat_blen. unfold ensure at 1 2. rewrite !res_bind_Ok.
  rewrite reads_string by (try done; by rewrite <-?app_assoc).
  rewrite res_bind_Ok. cbv beta iota.
  rewrite reads_string by (try done; by rewrite <-?app_assoc).
  rewrite res_bind_Ok. cbv beta iota.
  rewrite (IH _ Hwf H3) by (by rewrite <-?app_assoc).
  rewrite res_bind_Ok. cbv beta iota. by rewrite <-!app_assoc.
Qed.

(** ** Whole frames *)

Definition wf_spawn (o : option SpawnRequest.t) : Prop :=
  match o with
  | Some (SpawnRequest.Instance t) => wf_str t ∧ t ≠ ""
  | _ => True
  end.

Definition wf_terminal (t : ClientTerminal) : Prop :=
  wf_opt_str (term t) ∧ wf_opt_str (term_program t) ∧ wf_opt_str (colorterm t).

(** An error value survives the wire when its message classifies back to it. *)
Definition wf_image_error (e : ClipboardImageError.t) : Prop :=
  wf_str (ClipboardImageError.message e)
  ∧ ClipboardImageError.from_message (ClipboardImageError.message e) = e.

Definition wf_operation (op : AttachControlOperation.t) : Prop :=
  match op with
  | AttachControlOperation.Detach
  | AttachControlOperation.FocusIn
  | AttachControlOperation.FocusOut
  | AttachControlOperation.ClipboardImage _ => True
  | AttachControlOperation.ClipboardImageStart s => is_u64 (is_transfer_id s)
  | AttachControlOperation.ClipboardImageChunk c =>
      is_u64 (ic_transfer_id c) ∧ is_u64 (ic_offset c)
  | AttachControlOperation.ClipboardImageEnd e =>
      is_u64 (ie_transfer_id e) ∧ length (ie_sha256 e) = FILE_EXPORT_DIGEST_BYTES
  | AttachControlOperation.ClipboardImageError e => wf_image_error e
  end.

(** The invariants of the Rust types (integer widths, UTF-8, digest length),
    the checked [SpawnRequest] constructor, no empty terminal field, and the
    4 MiB limit on raw payloads, which the encoder leaves to its caller. *)
Definition wf_client (f : ClientFrame.t) : Prop :=
  match f with
  | ClientFrame.Hello rows cols spawn env focus terminal _ =>
      is_u16 rows ∧ is_u16 cols ∧ wf_spawn spawn
      ∧ Forall (λ kv, wf_str kv.1 ∧ wf_str kv.2) env
      ∧ (∀ z, focus = Some z → is_u64 z) ∧ wf_terminal terminal
  | ClientFrame.Resize rows cols => is_u16 rows ∧ is_u16 cols
  | ClientFrame.Input bs | ClientFrame.Command bs => blen bs ≤ MAX_FRAME_PAYLOAD
  | ClientFrame.Detach | ClientFrame.FocusIn | ClientFrame.FocusOut
  | ClientFrame.ClipboardImage _ => True
  | ClientFrame.ClipboardImageStart s => is_u64 (is_transfer_id s)
  | ClientFrame.ClipboardImageChunk c => is_u64 (ic_transfer_id c) ∧ is_u64 (ic_offset c)
  | ClientFrame.ClipboardImageEnd e =>
      is_u64 (ie_transfer_id e) ∧ length (ie_sha256 e) = FILE_EXPORT_DIGEST_BYTES
  | ClientFrame.ClipboardImageError e => wf_image_error e
  | ClientFrame.HostNotice m => wf_str m
  | ClientFrame.AttachControl r => is_u64 (req_request_id r) ∧ wf_operation (req_operation r)
  end.

(** The invariants of the Rust types alone (integer widths, UTF-8, digest length), and
    raw payloads whose length fits the 32-bit prefix. *)
Definition typed_spawn (o : option SpawnRequest.t) : Prop :=
  match o with Some (SpawnRequest.Instance t) => wf_str t | _ => True end.
Definition typed_opt_str (o : option string) : Prop := match o with Some s => wf_str s | None => True end.
Definition typed_terminal (t : ClientTerminal) : Prop :=
  typed_opt_str (term t) ∧ typed_opt_str (term_program t) ∧ typed_opt_str (colorterm t).
Definition typed_operation (op : AttachControlOperation.t) : Prop :=
  match op with
  | AttachControlOperation.ClipboardImageError e => wf_str (ClipboardImageError.message e)
  | _ => wf_operation op
  end.
Definition typed_client (f : ClientFrame.t) : Prop :=
  match f with
  | ClientFrame.Hello rows cols spawn env focus terminal _ =>
      is_u16 rows ∧ is_u16 cols ∧ typed_spawn spawn
      ∧ Forall (λ kv, wf_str kv.1 ∧ wf_str kv.2) env
      ∧ (∀ z, focus = Some z → is_u64 z) ∧ typed_terminal terminal
  | ClientFrame.Input bs | ClientFrame.Command bs => blen bs ≤ U32_MAX
  | ClientFrame.ClipboardImageError e => wf_str (ClipboardImageError.message e)
  | ClientFrame.AttachControl r => is_u64 (req_request_id r) ∧ typed_operation (req_operation r)
  | _ => wf_client f
  end.

(** What arrives: an error is classified by its message, an empty terminal field is as
    if it were not set, and a raw payload over 4 MiB or an instance without a target
    is refused. *)
Definition received_error (e : ClipboardImageError.t) : ClipboardImageError.t :=
  ClipboardImageError.from_message (ClipboardImageError.message e).
Definition received_field (o : option string) : option string :=
  match o with Some "" => None | _ => o end.
Definition received_terminal (t : ClientTerminal) : ClientTerminal :=
  mk_terminal (received_field (term t)) (received_field (term_program t)) (received_field (colorterm t))
    (default_fg t) (default_bg t) (capability_overrides t).
Definition received_operation (op : AttachControlOperation.t) : AttachControlOperation.t :=
  match op with
  | AttachControlOperation.ClipboardImageError e =>
      AttachControlOperation.ClipboardImageError (received_error e)
  | _ => op
  end.
Definition received_client (f : ClientFrame.t) : option ClientFrame.t :=
  match f with
  | ClientFrame.Hello _ _ (Some (SpawnRequest.Instance "")) _ _ _ _ => None
  | ClientFrame.Hello rows cols spawn env focus t context =>
      Some (ClientFrame.Hello rows cols spawn env focus (received_terminal t) context)
  | ClientFrame.Input bs | ClientFrame.Command bs =>
      if blen bs <=? MAX_FRAME_PAYLOAD then Some f else None
  | ClientFrame.ClipboardImageError e => Some (ClientFrame.ClipboardImageError (received_error e))
  | ClientFrame.AttachControl r =>
      Some (ClientFrame.AttachControl
              (mk_request (req_request_id r) (req_context r) (received_operation (req_operation r))))
  | _ => Some f
  end.

Lemma received_field_wf o : typed_opt_str o → wf_opt_str (received_field o).
Proof. destruct o as [[|c s]|]; done. Qed.
Lemma received_field_bytes o label :
  write_terminal_field (received_field o) label = write_terminal_field o label.
Proof. by destruct o as [[|c s]|]. Qed.
Lemma opt_str_typed o : wf_opt_str o → typed_opt_str o.
Proof. destruct o; [by intros []|done]. Qed.
Lemma received_field_same o : wf_opt_str o → received_field o = o.
Proof. destruct o as [[|c s]|]; [by intros []|done..]. Qed.

Lemma wf_received f : wf_client f → typed_client f ∧ received_client f = Some f.
Proof.
  destruct f as [r c sp env fo t ctx|r c|b|b| | | |i|s|k|e|e|m|r]; try (intros Hwf; by split); cbn.
  - intros (Hr & Hc & Hsp & Henv & Hfo & (H1 & H2 & H3)). split.
    + split_and!; try done; [by destruct sp as [[]|]; try destruct Hsp|].
      split_and!; by apply opt_str_typed.
    + assert (Ht : received_terminal t = t)
        by (unfold received_terminal; rewrite !received_field_same by done; by destruct t).
      rewrite Ht. by destruct sp as [[|[|]]|]; [|destruct Hsp|..].
  - intros Hb. rewrite (proj2 (Z.leb_le _ _)) by done. split; [|done].
    unfold MAX_FRAME_PAYLOAD, U32_MAX in *. lia.
  - intros Hb. rewrite (proj2 (Z.leb_le _ _)) by done. split; [|done].
    unfold MAX_FRAME_PAYLOAD, U32_MAX in *. lia.
  - intros [Hs Hc]. split; [done|]. unfold received_error. by rewrite Hc.
  - intros [Hid Hop]. destruct r as [id ctx op]. cbn in *.
    destruct op; try (by split; [split|]). destruct Hop as [Hs Hc]. split; [by split|].
    cbn. unfold received_error. by rewrite Hc.
Qed.

(** What the round trip of one frame amounts to before framing. *)
Definition decodes_to (bs : bytes) (f : ClientFrame.t)
    `{SerdeJson TelemetryContext, SerdeJson (option TelemetryContext)} : Prop :=
  ∃ tag p, bs = encode tag p ∧ blen p ≤ max_frame_payload_for_tag tag
    ∧ decode_client tag p = Ok f.

Lemma encode_env_len env bs :
  encode_env env = Ok bs → blen bs ≤ Z.of_nat (length env) * 9222.
Proof.
  revert bs. induction env as [|[k w] env IH]; intros bs He; cbn [encode_env] in He.
  { invert_ok. by subst bs. }
  invert_ok. bool_to_prop. subst bs. apply IH in H3.
  autorewrite with jackin_len. cbn [length].
  unfold MAX_HELLO_ENV_KEY, MAX_HELLO_ENV_VALUE in *. lia.
Qed.

Lemma write_terminal_field_len o label bs :
  write_terminal_field o label = Ok bs → blen bs ≤ 1026.
Proof.
  unfold write_terminal_field. intros Hw. repeat split_match_in Hw; invert_ok.
  bool_to_prop. subst bs. autorewrite with jackin_len.
  unfold MAX_CLIENT_TERMINAL_FIELD in *. lia.
Qed.

Lemma write_color_field_len o : blen (write_color_field o) ≤ 4.
Proof. destruct o as [[[] ?]|]; done. Qed.

Lemma focus_bytes_len o : blen (focus_bytes o) ≤ 9.
Proof. destruct o; unfold focus_bytes; autorewrite with jackin_len; lia. Qed.

Lemma decode_spawn_bytes spawn :
  wf_spawn spawn → ∃ s, as_bytes s = (spawn_bytes spawn).2 ∧ wf_str s
    ∧ decode_spawn (spawn_bytes spawn).1 s = Ok spawn.
Proof.
  destruct spawn as [[|t]|]; cbn.
  - intros _. by exists "".
  - intros [Ht Hne]. exists t. split_and!; try done.
    unfold str_eqb. by rewrite bool_decide_eq_false_2.
  - intros _. by exists "".
Qed.

(** Consume the next field: [Hr] is the [reads] fact for it. *)
Tactic Notation "consume" uconstr(Hr) :=
  rewrite Hr by (try range_lia; try done; by rewrite <-?app_assoc);
  rewrite res_bind_Ok; cbv beta iota.

(** The same for the last field. *)
Tactic Notation "consume_last" uconstr(Hr) :=
  rewrite (reads_end _ _ _ _ Hr) by (try range_lia; try done; by rewrite <-?app_assoc);
  rewrite res_bind_Ok; cbv beta iota.

Lemma reads_terminal t b1 b2 b3 :
  reads (read_terminal_field TERM_LABEL) b1 (term t) →
  reads (read_terminal_field TERM_PROGRAM_LABEL) b2 (term_program t) →
  reads (read_terminal_field COLORTERM_LABEL) b3 (colorterm t) →
  reads read_terminal
    (b1 ++ b2 ++ b3 ++ write_color_field (default_fg t) ++ write_color_field (default_bg t)
     ++ write_capability_overrides (capability_overrides t)) t.
Proof.
  intros H1 H2 H3 pre rest Hf. unfold read_terminal. assoc_in Hf.
  consume H1. consume H2. consume H3.
  consume reads_color_field. consume reads_color_field. consume reads_capability_overrides.
  rewrite <-!app_assoc. by destruct t.
Qed.

(** Reduce the payload limit of a concrete tag and the length of its payload. *)
Ltac frame_len :=
  autorewrite with jackin_len;
  cbv [MAX_FRAME_PAYLOAD MAX_CLIPBOARD_IMAGE_BYTES MAX_HOST_NOTICE_BYTES
       MAX_CLIPBOARD_IMAGE_FRAME_PAYLOAD
       MAX_CLIPBOARD_IMAGE_CHUNK_BYTES MAX_CLIPBOARD_IMAGE_ERROR_BYTES
       FILE_EXPORT_DIGEST_BYTES MAX_FILE_EXPORT_CHUNK_BYTES MAX_FILE_EXPORT_PATH_BYTES
       MAX_FILE_EXPORT_NAME_BYTES MAX_HOST_REVEAL_PATH_BYTES] in *;
  match goal with |- _ ≤ max_frame_payload_for_tag ?t =>
    let m := eval vm_compute in (max_frame_payload_for_tag t) in
    change (max_frame_payload_for_tag t) with m end;
  unfold blen in *; lia.

Section roundtrip.
Context `{SJ1 : SerdeJson TelemetryContext, SJ2 : SerdeJson (option TelemetryContext)}.
Context {L1 : SerdeJsonLaw TelemetryContext} {L2 : SerdeJsonLaw (option TelemetryContext)}.

(** The hello decoder on the concatenation of its fields. *)
Lemma decode_hello_fields rows cols kind agent spawn env env_bs focus t tb ctx context p :
  p = to_be_bytes 2 rows ++ to_be_bytes 2 cols ++ [kind]
      ++ to_be_bytes 2 (blen (as_bytes agent)) ++ as_bytes agent
      ++ to_be_bytes 2 (Z.of_nat (length env)) ++ env_bs ++ focus_bytes focus
      ++ tb ++ to_be_bytes 2 (blen ctx) ++ ctx →
  fits p → is_u16 rows → is_u16 cols → wf_str agent → blen (as_bytes agent) ≤ U16_MAX →
  decode_spawn kind agent = Ok spawn → Z.of_nat (length env) ≤ MAX_HELLO_ENV →
  reads (read_env (length env)) env_bs env → (∀ z, focus = Some z → is_u64 z) →
  reads read_terminal tb t → blen ctx ≤ U16_MAX → from_slice ctx = Some context →
  decode_hello p = Ok (ClientFrame.Hello rows cols spawn env focus t context).
Proof.
  intros Hp Hf Hr Hc Hags Hagl Hdec Hcount Henv Hfo Ht Hctx Hjson.
  unfold decode_hello. rewrite ensure_pass.
  2:{ apply Z.leb_le. rewrite Hp. autorewrite with jackin_len. cbn.
      pose proof (blen_nonneg (as_bytes agent)). pose proof (blen_nonneg env_bs).
      pose proof (blen_nonneg (focus_bytes focus)). pose proof (blen_nonneg tb).
      pose proof (blen_nonneg ctx). lia. }
  rewrite new_cursor_cur, Hp. rewrite Hp in Hf.
  pose proof (blen_nonneg (as_bytes agent)). pose proof (blen_nonneg ctx).
  assert (Hcr : is_u16 (Z.of_nat (length env))) by (unfold MAX_HELLO_ENV in *; range_lia).
  consume reads_u16. consume reads_u16. consume reads_u8. consume reads_u16.
  rewrite to_nat_blen. consume reads_string. rewrite Hdec, res_bind_Ok.
  consume reads_u16. rewrite ensure_pass by (by apply Z.leb_le). rewrite Nat2Z.id.
  consume Henv. consume (reads_focus focus Hfo). consume Ht. consume reads_u16.
  rewrite to_nat_blen. consume_last (reads_bytes _ _ ctx eq_refl). rewrite Hjson.
  by rewrite ensure_pass by apply finished_nil.
Qed.

Lemma hello_roundtrip rows cols spawn env focus terminal context bs :
  wf_client (ClientFrame.Hello rows cols spawn env focus terminal context) →
  encode_hello rows cols spawn env focus terminal context = Ok bs →
  decodes_to bs (ClientFrame.Hello rows cols spawn env focus terminal context).
Proof.
  intros (Hr & Hc & Hsp & Henv & Hfo & (Ht & Htp & Htc)) He.
  destruct (decode_spawn_bytes spawn Hsp) as (agent & Hag & Hags & Hdec).
  unfold encode_hello in He. destruct (spawn_bytes spawn) as [kind ab]. cbn in Hag, Hdec.
  subst ab. invert_ok. bool_to_prop. subst bs.
  repeat match goal with
  | H : encode_env _ = Ok ?b |- _ =>
      pose proof (encode_env_len _ _ H); apply reads_env in H; [|done]
  | H : write_terminal_field _ _ = Ok ?b |- _ =>
      pose proof (write_terminal_field_len _ _ _ H); apply reads_terminal_field in H; [|done]
  | H : to_vec _ = Ok _ |- _ => apply from_slice_to_vec in H
  end.
  eexists _, _. split; [reflexivity|].
  match goal with |- ?len ≤ _ ∧ _ => assert (Hlen : len ≤ MAX_FRAME_PAYLOAD) end.
  { autorewrite with jackin_len. pose proof (focus_bytes_len focus).
    pose proof (write_color_field_len (default_fg terminal)).
    pose proof (write_color_field_len (default_bg terminal)).
    unfold write_capability_overrides. autorewrite with jackin_len.
    unfold MAX_HELLO_ENV, U16_MAX, MAX_FRAME_PAYLOAD in *. lia. }
  split; [exact Hlen|].
  change (decode_client TAG_HELLO) with decode_hello.
  match goal with
  | H1 : reads (_ TERM_LABEL) _ _, H2 : reads (_ TERM_PROGRAM_LABEL) _ _,
    H3 : reads (_ COLORTERM_LABEL) _ _ |- _ =>
      pose proof (reads_terminal terminal _ _ _ H1 H2 H3)
  end.
  eapply (decode_hello_fields rows cols kind agent spawn env _ focus terminal); try eassumption.
  - rewrite <-!app_assoc. reflexivity.
  - unfold fits, MAX_FRAME_PAYLOAD, U64_MAX in *. lia.
Qed.

Lemma from_tag_tag f : ClipboardImageFormat.from_tag (ClipboardImageFormat.tag f) = Ok f.
Proof. by destruct f. Qed.

(** [encode_operation] drops the five header bytes of a full frame. *)
Lemma drop_encode tag p : drop 5 (encode tag p) = p.
Proof.
  unfold encode. cbn [drop]. rewrite drop_app_length'; [done|]. by rewrite length_to_be_bytes.
Qed.

Lemma fits_of_le p n : blen p ≤ n → n ≤ U64_MAX → fits p.
Proof. unfold fits. lia. Qed.

Lemma operation_roundtrip op bs pre :
  typed_operation op → encode_operation op = Ok bs → fits (pre ++ bs) →
  decode_operation (encode_operation_kind op) (cur pre bs)
  = Ok (received_operation op, cur (pre ++ bs) []).
Proof.
  intros Hwf He Hf. destruct op as [| | |i|s|c|e|e]; cbn [encode_operation] in He;
    cbn [encode_operation_kind decode_operation]; cbn in Hwf.
  1-3: injection He as <-; by rewrite app_nil_r.
  - split_match_in He; [discriminate|]. invert_ok. subst bs.
    change (?a :: img_bytes i) with ([a] ++ img_bytes i) in *.
    consume reads_u8. rewrite from_tag_tag, res_bind_Ok, read_remaining_cur, res_bind_Ok.
    cbv beta iota. rewrite Heqb. rewrite <-app_assoc. by destruct i.
  - unfold encode_clipboard_image_start in He. invert_ok. bool_to_prop. subst bs x.
    rewrite drop_encode in Hf |- *. unfold MAX_CLIPBOARD_IMAGE_TRANSFER_BYTES in *.
    consume reads_u64. consume reads_u8. rewrite from_tag_tag, res_bind_Ok.
    consume_last (reads_u64 _ (is_size s) ltac:(range_lia)).
    rewrite <-!app_assoc. by destruct s.
  - unfold encode_clipboard_image_chunk in He. invert_ok. subst bs x. destruct Hwf.
    rewrite drop_encode in Hf |- *. consume reads_u64. consume reads_u64.
    rewrite read_remaining_cur, res_bind_Ok. cbv beta iota.
    rewrite <-!app_assoc. by destruct c.
  - apply Ok_inj in He. subst bs. destruct Hwf. unfold encode_clipboard_image_end in *.
    rewrite drop_encode in Hf |- *. consume reads_u64.
    consume_last (reads_bytes _ _ (ie_sha256 e) H0).
    rewrite <-!app_assoc. by destruct e.
  - split_match_in He; [discriminate|]. invert_ok. subst bs.
    rewrite read_remaining_cur, res_bind_Ok. cbv beta iota.
    by rewrite from_utf8_as_bytes by done.
Qed.

Lemma request_roundtrip r bs :
  typed_client (ClientFrame.AttachControl r) → encode_request r = Ok bs →
  decodes_to bs (ClientFrame.AttachControl
    (mk_request (req_request_id r) (req_context r) (received_operation (req_operation r)))).
Proof.
  intros [Hid Hop] He. unfold encode_request in He. invert_ok. bool_to_prop. subst bs.
  eexists _, _. split; [reflexivity|].
  change (max_frame_payload_for_tag TAG_ATTACH_CONTROL) with MAX_CLIPBOARD_IMAGE_FRAME_PAYLOAD.
  split; [done|]. change (decode_client TAG_ATTACH_CONTROL ?p)
    with (r ← decode_request p; Ok (ClientFrame.AttachControl r)).
  match goal with H : blen ?p ≤ MAX_CLIPBOARD_IMAGE_FRAME_PAYLOAD |- _ =>
    pose proof (fits_of_le p _ H ltac:(done)) as Hf end.
  unfold decode_request. rewrite new_cursor_cur.
  match goal with |- context [cur [] (?k :: ?q)] =>
    change (k :: q) with ([k] ++ q) in Hf |- * end.
  pose proof (blen_nonneg x).
  consume reads_u8. consume reads_u64. consume reads_u16. rewrite to_nat_blen.
  consume (reads_bytes _ _ x eq_refl). rewrite (from_slice_to_vec _ _ H).
  rewrite operation_roundtrip by (try done; by rewrite <-?app_assoc).
  rewrite res_bind_Ok. cbv beta iota. rewrite ensure_pass by apply finished_nil.
  done.
Qed.

Lemma max_frame_payload_fits tag p : blen p ≤ max_frame_payload_for_tag tag → fits p.
Proof.
  intros H. apply (fits_of_le _ _ H). unfold max_frame_payload_for_tag.
  repeat split_match; done.
Qed.

Lemma decodes_intro tag p f :
  blen p ≤ max_frame_payload_for_tag tag → (fits p → decode_client tag p = Ok f) →
  decodes_to (encode tag p) f.
Proof.
  intros Hl Hd. exists tag, p. split_and!; [done|done|].
  by apply Hd, (max_frame_payload_fits tag).
Qed.

Lemma resize_decodes r c : is_u16 r → is_u16 c →
  decode_resize (to_be_bytes 2 r ++ to_be_bytes 2 c) = Ok (ClientFrame.Resize r c).
Proof.
  intros Hr Hc. unfold decode_resize. autorewrite with jackin_len. cbn [Z.of_nat Pos.of_succ_nat].
  change (Ok ?x) with (Ok x). cbn -[take drop to_be_bytes from_be_bytes].
  rewrite take_app_length', drop_app_length' by (by rewrite length_to_be_bytes).
  rewrite (take_ge (to_be_bytes 2 c)) by (by rewrite length_to_be_bytes).
  rewrite !from_to_be_bytes by (cbn; range_lia). done.
Qed.

Lemma image_start_decodes s :
  is_u64 (is_transfer_id s) → 0 < is_size s → is_size s ≤ MAX_CLIPBOARD_IMAGE_TRANSFER_BYTES →
  let p := to_be_bytes 8 (is_transfer_id s) ++ [ClipboardImageFormat.tag (is_format s)]
           ++ to_be_bytes 8 (is_size s) in
  fits p → decode_clipboard_image_start p = Ok (ClientFrame.ClipboardImageStart s).
Proof.
  intros Hid H0 H1 p Hf. subst p. unfold decode_clipboard_image_start. rewrite new_cursor_cur.
  assert (is_u64 (is_size s)) by (unfold MAX_CLIPBOARD_IMAGE_TRANSFER_BYTES in *; range_lia).
  consume reads_u64. consume reads_u8. rewrite from_tag_tag, res_bind_Ok.
  consume_last (reads_u64 _ (is_size s) H).
  rewrite ensure_pass by (apply negb_true_iff, Z.eqb_neq; lia).
  rewrite ensure_pass by (by apply Z.leb_le). rewrite ensure_pass by apply finished_nil.
  by destruct s.
Qed.

(** Chunks of both directions: two integers and the remaining bytes. *)
Lemma image_chunk_decodes k :
  is_u64 (ic_transfer_id k) → is_u64 (ic_offset k) → blen (ic_bytes k) ≠ 0 →
  blen (ic_bytes k) ≤ MAX_CLIPBOARD_IMAGE_CHUNK_BYTES →
  let p := to_be_bytes 8 (ic_transfer_id k) ++ to_be_bytes 8 (ic_offset k) ++ ic_bytes k in
  fits p → decode_clipboard_image_chunk p = Ok (ClientFrame.ClipboardImageChunk k).
Proof.
  intros Hid Ho H0 H1 p Hf. subst p. unfold decode_clipboard_image_chunk.
  rewrite new_cursor_cur. consume reads_u64. consume reads_u64.
  rewrite read_remaining_cur, res_bind_Ok. cbv beta iota.
  rewrite ensure_pass by (by apply negb_true_iff, Z.eqb_neq).
  rewrite ensure_pass by (by apply Z.leb_le). by destruct k.
Qed.

Lemma image_end_decodes e :
  is_u64 (ie_transfer_id e) → length (ie_sha256 e) = FILE_EXPORT_DIGEST_BYTES →
  let p := to_be_bytes 8 (ie_transfer_id e) ++ ie_sha256 e in
  fits p → decode_clipboard_image_end p = Ok (ClientFrame.ClipboardImageEnd e).
Proof.
  intros Hid Hd p Hf. subst p. unfold decode_clipboard_image_end. rewrite new_cursor_cur.
  consume reads_u64. consume_last (reads_bytes _ _ (ie_sha256 e) Hd).
  rewrite ensure_pass by apply finished_nil. by destruct e.
Qed.

(** A hello whose instance has no target is refused. *)
Lemma decode_hello_refused rows cols kind agent e q p :
  p = to_be_bytes 2 rows ++ to_be_bytes 2 cols ++ [kind]
      ++ to_be_bytes 2 (blen (as_bytes agent)) ++ as_bytes agent ++ q →
  fits p → is_u16 rows → is_u16 cols → wf_str agent → blen (as_bytes agent) ≤ U16_MAX →
  decode_spawn kind agent = Err e → decode_hello p = Err e.
Proof.
  intros Hp Hf Hr Hc Hags Hagl Hdec. unfold decode_hello. rewrite ensure_pass.
  2:{ apply Z.leb_le. rewrite Hp. autorewrite with jackin_len. cbn.
      pose proof (blen_nonneg (as_bytes agent)). pose proof (blen_nonneg q). lia. }
  rewrite new_cursor_cur, Hp. rewrite Hp in Hf. pose proof (blen_nonneg (as_bytes agent)).
  consume reads_u16. consume reads_u16. consume reads_u8. consume reads_u16.
  rewrite to_nat_blen. consume reads_string. by rewrite Hdec.
Qed.

(** Bytes that the reader turns down. *)
Definition refused_by_reader (bs : bytes) : Prop :=
  ∃ tag p, bs = encode tag p ∧ blen p ≤ U32_MAX
    ∧ (max_frame_payload_for_tag tag < blen p ∨ ∃ e, decode_client tag p = Err e).

Lemma hello_received rows cols spawn env focus t context bs :
  typed_client (ClientFrame.Hello rows cols spawn env focus t context) →
  spawn ≠ Some (SpawnRequest.Instance "") →
  encode_hello rows cols spawn env focus t context = Ok bs →
  decodes_to bs (ClientFrame.Hello rows cols spawn env focus (received_terminal t) context).
Proof.
  intros (Hr & Hc & Hsp & Henv & Hfo & (H1 & H2 & H3)) Hne He. apply hello_roundtrip.
  - split_and!; try done; [|by split_and!; apply received_field_wf].
    destruct spawn as [[|s]|]; try done. split; [done|]. by intros ->.
  - unfold encode_hello in *. cbn [received_terminal term term_program colorterm default_fg default_bg
      capability_overrides]. by rewrite !received_field_bytes.
Qed.

Lemma hello_refused rows cols env focus t context bs :
  typed_client (ClientFrame.Hello rows cols (Some (SpawnRequest.Instance "")) env focus t context) →
  encode_hello rows cols (Some (SpawnRequest.Instance "")) env focus t context = Ok bs →
  refused_by_reader bs.
Proof.
  intros (Hr & Hc & _) He. unfold encode_hello, spawn_bytes in He. invert_ok. bool_to_prop. subst bs.
  repeat match goal with
  | H : encode_env _ = Ok ?b |- _ => apply encode_env_len in H
  | H : write_terminal_field _ _ = Ok ?b |- _ => apply write_terminal_field_len in H
  end.
  eexists _, _. split; [reflexivity|].
  match goal with |- ?len ≤ _ ∧ _ => assert (Hlen : len ≤ MAX_FRAME_PAYLOAD) end.
  { autorewrite with jackin_len. pose proof (focus_bytes_len focus).
    pose proof (write_color_field_len (default_fg t)). pose proof (write_color_field_len (default_bg t)).
    unfold write_capability_overrides. autorewrite with jackin_len.
    unfold MAX_HELLO_ENV, U16_MAX, MAX_FRAME_PAYLOAD in *. cbn in *. lia. }
  split; [unfold U32_MAX, MAX_FRAME_PAYLOAD in *; lia|]. right. eexists.
  change (decode_client TAG_HELLO) with decode_hello.
  eapply (decode_hello_refused rows cols x02 ""); [reflexivity| |done..].
  unfold fits, MAX_FRAME_PAYLOAD, U64_MAX in *. lia.
Qed.

Lemma raw_received tag p f :
  blen p ≤ U32_MAX → max_frame_payload_for_tag tag = MAX_FRAME_PAYLOAD → decode_client tag p = Ok f →
  match (if blen p <=? MAX_FRAME_PAYLOAD then Some f else None) with
  | Some g => decodes_to (encode tag p) g
  | None => refused_by_reader (encode tag p)
  end.
Proof.
  intros Hp Hm Hd. destruct (Z.leb_spec (blen p) MAX_FRAME_PAYLOAD).
  - exists tag, p. by rewrite Hm.
  - exists tag, p. split_and!; [done..|left; lia].
Qed.

(** What becomes of a frame that the encoder accepts. *)
Lemma client_received f bs :
  typed_client f → encode_client f = Ok bs →
  match received_client f with Some g => decodes_to bs g | None => refused_by_reader bs end.
Proof.
  intros Hwf He. destruct f as [r c sp env fo t ctx|r c|b|b| | | |i|s|k|e|e|m|r];
    cbn [encode_client] in He; cbn [received_client].
  1:{ destruct sp as [[|[|]]|]; [|by eapply hello_refused|..]; by eapply hello_received. }
  2,3: injection He as <-; by apply raw_received.
  11: by apply request_roundtrip.
  all: cbn [typed_client wf_client] in Hwf;
    unfold encode_clipboard_image_start, encode_clipboard_image_chunk,
      encode_clipboard_image_end in He; invert_ok; bool_to_prop; subst bs;
    (apply decodes_intro; [frame_len|intros Hf]); try reflexivity.
  - destruct Hwf. by apply resize_decodes.
  - destruct i as [[] ib]; cbn -[blen];
      rewrite ensure_pass by (by apply negb_true_iff, Z.eqb_neq);
      by rewrite ensure_pass by (by apply Z.leb_le).
  - by apply image_start_decodes.
  - destruct Hwf. by apply image_chunk_decodes.
  - destruct Hwf. by apply image_end_decodes.
  - change (decode_client TAG_CLIPBOARD_IMAGE_ERROR) with decode_clipboard_image_error.
    unfold decode_clipboard_image_error.
    rewrite ensure_pass by (by apply negb_true_iff, Z.eqb_neq).
    rewrite ensure_pass by (by apply Z.leb_le). by rewrite from_utf8_as_bytes by done.
  - change (decode_client TAG_HOST_NOTICE) with decode_host_notice.
    unfold decode_host_notice.
    rewrite ensure_pass by (by apply negb_true_iff, Z.eqb_neq).
    rewrite ensure_pass by (by apply Z.leb_le). by rewrite from_utf8_as_bytes by done.
Qed.
End roundtrip.

(** ** Server frames *)

(** The Rust type invariants, the caps the encoder leaves to its caller, the
    URL allowlist of the decoder, and no [Some ""] shutdown reason (which the
    wire cannot tell from [None]). *)
Definition wf_server (f : ServerFrame.t) : Prop :=
  match f with
  | ServerFrame.Welcome n => is_u32 n
  | ServerFrame.Output bs | ServerFrame.SessionList bs => blen bs ≤ MAX_FRAME_PAYLOAD
  | ServerFrame.Shutdown reason =>
      wf_opt_str reason ∧ str_len (default "" reason) ≤ MAX_FRAME_PAYLOAD
  | ServerFrame.HostOpenUrl url =>
      wf_str url ∧ str_len url ≤ MAX_FRAME_PAYLOAD ∧ is_host_open_url_scheme url = true
  | ServerFrame.FileExportStart s =>
      is_u64 (es_transfer_id s) ∧ is_u64 (es_size s)
      ∧ wf_str (es_source_path s) ∧ wf_str (es_file_name s)
  | ServerFrame.FileExportChunk c => is_u64 (ec_transfer_id c) ∧ is_u64 (ec_offset c)
  | ServerFrame.FileExportEnd e =>
      is_u64 (ee_transfer_id e) ∧ length (ee_sha256 e) = FILE_EXPORT_DIGEST_BYTES
  | ServerFrame.HostRevealPath p =>
      wf_str p ∧ p ≠ "" ∧ str_len p ≤ MAX_HOST_REVEAL_PATH_BYTES
  | ServerFrame.AttachControlResponse r => is_u64 (resp_request_id r)
  | ServerFrame.Bell | ServerFrame.HostStageImageFromClipboardPath
  | ServerFrame.HostPasteImageFromClipboard
  | ServerFrame.HostStageImageFromClipboard => True
  end.

Definition server_decodes_to (bs : bytes) (f : ServerFrame.t) : Prop :=
  ∃ tag p, bs = encode tag p ∧ blen p ≤ max_frame_payload_for_tag tag
    ∧ decode_server tag p = Ok f.

Lemma server_decodes_intro tag p f :
  blen p ≤ max_frame_payload_for_tag tag → (fits p → decode_server tag p = Ok f) →
  server_decodes_to (encode tag p) f.
Proof.
  intros Hl Hd. exists tag, p. split_and!; [done|done|].
  by apply Hd, (max_frame_payload_fits tag).
Qed.

Lemma blen_zero bs : blen bs = 0 ↔ bs = [].
Proof. unfold blen. destruct bs; cbn; split; intros; try done; lia. Qed.

Lemma as_bytes_ne s : s ≠ "" → blen (as_bytes s) ≠ 0.
Proof. by rewrite blen_zero, as_bytes_nil. Qed.

Lemma flag_of_bool fmt b : flag_of fmt (bool_byte b) = Ok b.
Proof. by destruct b. Qed.

Lemma welcome_decodes n : is_u32 n → decode_welcome (to_be_bytes 4 n) = Ok (ServerFrame.Welcome n).
Proof.
  intros Hn. unfold decode_welcome. rewrite blen_be, take_ge by (by rewrite length_to_be_bytes).
  by rewrite from_to_be_bytes by (cbn; range_lia).
Qed.

Lemma export_start_decodes s :
  wf_server (ServerFrame.FileExportStart s) →
  let source := as_bytes (es_source_path s) in let name := as_bytes (es_file_name s) in
  0 < blen source ≤ MAX_FILE_EXPORT_PATH_BYTES → 0 < blen name ≤ MAX_FILE_EXPORT_NAME_BYTES →
  let p := to_be_bytes 8 (es_transfer_id s) ++ to_be_bytes 8 (es_size s)
         ++ to_be_bytes 2 (blen source) ++ to_be_bytes 2 (blen name)
         ++ [bool_byte (es_reveal_after_export s)]
         ++ [bool_byte (es_open_after_export s)] ++ source ++ name in
  fits p → decode_file_export_start p = Ok (ServerFrame.FileExportStart s).
Proof.
  intros (Hid & Hsz & Hsp & Hn) source name Hsl Hnl p Hf. subst p.
  unfold MAX_FILE_EXPORT_PATH_BYTES, MAX_FILE_EXPORT_NAME_BYTES in *.
  unfold decode_file_export_start. rewrite new_cursor_cur.
  consume reads_u64. consume reads_u64. consume reads_u16. consume reads_u16.
  consume reads_u8. rewrite flag_of_bool, res_bind_Ok.
  consume reads_u8. rewrite flag_of_bool, res_bind_Ok.
  do 2 (rewrite ensure_pass; [|apply negb_true_iff, orb_false_iff;
    split; [apply Z.eqb_neq; lia|apply Z.ltb_ge; unfold MAX_FILE_EXPORT_PATH_BYTES,
    MAX_FILE_EXPORT_NAME_BYTES; lia]]).
  rewrite !to_nat_blen. consume (reads_string _ _ (es_source_path s) Hsp eq_refl).
  consume_last (reads_string _ _ (es_file_name s) Hn eq_refl).
  rewrite ensure_pass by apply finished_nil. by destruct s.
Qed.

Lemma export_chunk_decodes k :
  is_u64 (ec_transfer_id k) → is_u64 (ec_offset k) → blen (ec_bytes k) ≠ 0 →
  blen (ec_bytes k) ≤ MAX_FILE_EXPORT_CHUNK_BYTES →
  let p := to_be_bytes 8 (ec_transfer_id k) ++ to_be_bytes 8 (ec_offset k) ++ ec_bytes k in
  fits p → decode_file_export_chunk p = Ok (ServerFrame.FileExportChunk k).
Proof.
  intros Hid Ho H0 H1 p Hf. subst p. unfold decode_file_export_chunk.
  rewrite new_cursor_cur. consume reads_u64. consume reads_u64.
  rewrite read_remaining_cur, res_bind_Ok. cbv beta iota.
  rewrite ensure_pass by (by apply negb_true_iff, Z.eqb_neq).
  rewrite ensure_pass by (by apply Z.leb_le). by destruct k.
Qed.

Lemma export_end_decodes e :
  is_u64 (ee_transfer_id e) → length (ee_sha256 e) = FILE_EXPORT_DIGEST_BYTES →
  let p := to_be_bytes 8 (ee_transfer_id e) ++ ee_sha256 e in
  fits p → decode_file_export_end p = Ok (ServerFrame.FileExportEnd e).
Proof.
  intros Hid Hd p Hf. subst p. unfold decode_file_export_end. rewrite new_cursor_cur.
  consume reads_u64. consume_last (reads_bytes _ _ (ee_sha256 e) Hd).
  rewrite ensure_pass by apply finished_nil. by destruct e.
Qed.

Lemma response_decodes r p :
  is_u64 (resp_request_id r) → encode_response r = encode TAG_ATTACH_CONTROL_RESPONSE p →
  fits p → decode_response p = Ok r.
Proof.
  intros Hid He Hf. unfold encode_response in He. apply (f_equal (drop 5)) in He.
  rewrite !drop_encode in He. subst p. unfold decode_response. rewrite new_cursor_cur.
  consume reads_u64. consume_last (reads_u8 _ _).
  destruct r as [id []]; cbn [resp_result]; rewrite res_bind_Ok;
    by rewrite ensure_pass by apply finished_nil.
Qed.

Lemma server_decodes f bs :
  wf_server f → encode_server f = Ok bs → server_decodes_to bs f.
Proof.
  intros Hwf He.
  destruct f as [n|b|b|r| |url|s|k|e|p| | | |r]; cbn [encode_server] in He;
    cbn [wf_server] in Hwf;
    unfold encode_file_export_start, encode_file_export_chunk, encode_file_export_end,
      encode_response, str_len in *;
    invert_ok; bool_to_prop; subst bs; destruct_and?;
    (apply server_decodes_intro; [frame_len|intros Hf]); try reflexivity.
  - by apply welcome_decodes.
  - change (decode_shutdown (as_bytes (default "" r)) = Ok (ServerFrame.Shutdown r)).
    unfold decode_shutdown. destruct r as [r|]; [|done]. destruct H.
    change (default "" (Some r)) with r.
    rewrite (proj2 (Z.eqb_neq _ _)) by (by apply as_bytes_ne).
    by rewrite from_utf8_as_bytes.
  - change (decode_host_open_url (as_bytes url) = Ok (ServerFrame.HostOpenUrl url)).
    unfold decode_host_open_url. rewrite from_utf8_as_bytes by done. by rewrite ensure_pass.
  - pose proof (blen_nonneg (as_bytes (es_source_path s))).
    pose proof (blen_nonneg (as_bytes (es_file_name s))).
    apply export_start_decodes; [done|lia|lia|done].
  - by apply export_chunk_decodes.
  - by apply export_end_decodes.
  - change (decode_host_reveal_path (as_bytes p) = Ok (ServerFrame.HostRevealPath p)).
    unfold decode_host_reveal_path.
    rewrite ensure_pass by (by apply negb_true_iff, Z.eqb_neq, as_bytes_ne).
    rewrite ensure_pass by (by apply Z.leb_le). by rewrite from_utf8_as_bytes.
  - match goal with |- decode_server _ ?p = _ =>
      change ((r ← decode_response p; Ok (ServerFrame.AttachControlResponse r))
              = Ok (ServerFrame.AttachControlResponse r)) end.
    by rewrite (response_decodes r).
Qed.

(** ** What becomes of any server frame *)

(** The invariants of the Rust types, and payloads whose length fits the prefix. *)
Definition typed_server (f : ServerFrame.t) : Prop :=
  match f with
  | ServerFrame.Output bs | ServerFrame.SessionList bs => blen bs ≤ U32_MAX
  | ServerFrame.Shutdown reason => typed_opt_str reason ∧ str_len (default "" reason) ≤ U32_MAX
  | ServerFrame.HostOpenUrl t | ServerFrame.HostRevealPath t => wf_str t ∧ str_len t ≤ U32_MAX
  | _ => wf_server f
  end.

(** An empty reason is as if there were none; a payload over 4 MiB, a URL whose scheme is
    not on the list, and an empty or oversized path to reveal are refused. *)
Definition received_server (f : ServerFrame.t) : option ServerFrame.t :=
  match f with
  | ServerFrame.Output bs | ServerFrame.SessionList bs =>
      if blen bs <=? MAX_FRAME_PAYLOAD then Some f else None
  | ServerFrame.Shutdown reason =>
      if str_len (default "" reason) <=? MAX_FRAME_PAYLOAD
      then Some (ServerFrame.Shutdown (received_field reason)) else None
  | ServerFrame.HostOpenUrl url =>
      if (str_len url <=? MAX_FRAME_PAYLOAD) && is_host_open_url_scheme url then Some f else None
  | ServerFrame.HostRevealPath p =>
      if negb (str_eqb p "") && (str_len p <=? MAX_HOST_REVEAL_PATH_BYTES) then Some f else None
  | _ => Some f
  end.

Definition server_refused (bs : bytes) : Prop :=
  ∃ tag p, bs = encode tag p ∧ blen p ≤ U32_MAX
    ∧ (max_frame_payload_for_tag tag < blen p ∨ ∃ e, decode_server tag p = Err e).

Lemma wf_server_received f : wf_server f → typed_server f ∧ received_server f = Some f.
Proof.
  assert (MAX_FRAME_PAYLOAD ≤ U32_MAX ∧ MAX_HOST_REVEAL_PATH_BYTES ≤ U32_MAX) as [Hm Hm'] by done.
  destruct f as [n|b|b|r| |url|s|k|e|p| | | |r]; try (intros Hwf; by split); cbn.
  - intros Hb. rewrite (proj2 (Z.leb_le _ _)) by done. split; [lia|done].
  - intros Hb. rewrite (proj2 (Z.leb_le _ _)) by done. split; [lia|done].
  - intros [Ho Hl]. rewrite (proj2 (Z.leb_le _ _)), received_field_same by done.
    split; [split; [by apply opt_str_typed|lia]|done].
  - intros (Hs & Hl & Hu). rewrite (proj2 (Z.leb_le _ _)), Hu by done. split; [split; [done|lia]|done].
  - intros (Hs & Hne & Hl). unfold str_eqb. rewrite bool_decide_eq_false_2, (proj2 (Z.leb_le _ _)) by done.
    split; [split; [done|lia]|done].
Qed.

Lemma server_received f bs :
  typed_server f → encode_server f = Ok bs →
  match received_server f with Some g => server_decodes_to bs g | None => server_refused bs end.
Proof.
  intros Ht He. destruct f as [n|b|b|r| |url|s|k|e|p| | | |r]; cbn [received_server];
    try (apply server_decodes; [exact Ht|exact He]); cbn [typed_server encode_server] in *.
  - injection He as <-. destruct (Z.leb_spec (blen b) MAX_FRAME_PAYLOAD); [by apply (server_decodes (ServerFrame.Output b))|].
    eexists _, _. split_and!; [done..|by left].
  - injection He as <-. destruct (Z.leb_spec (blen b) MAX_FRAME_PAYLOAD); [by apply (server_decodes (ServerFrame.SessionList b))|].
    eexists _, _. split_and!; [done..|by left].
  - destruct Ht as [Ho Hl]. injection He as <-.
    destruct (Z.leb_spec (str_len (default "" r)) MAX_FRAME_PAYLOAD) as [Hle|Hgt].
    + replace (default "" r) with (default "" (received_field r)) by (by destruct r as [[]|]).
      apply server_decodes; [split; [by apply received_field_wf|]|done].
      by destruct r as [[]|].
    + eexists _, _. split_and!; [done..|by left].
  - destruct Ht as [Hs Hl]. injection He as <-.
    destruct (Z.leb_spec (str_len url) MAX_FRAME_PAYLOAD) as [Hle|Hgt]; cbn [andb].
    + destruct (is_host_open_url_scheme url) eqn:Hu; [by apply (server_decodes (ServerFrame.HostOpenUrl url))|].
      eexists _, _. split_and!; [done..|]. right.
      change (decode_server TAG_HOST_OPEN_URL) with decode_host_open_url. unfold decode_host_open_url.
      rewrite from_utf8_as_bytes by done. rewrite Hu. by eexists.
    + eexists _, _. split_and!; [done..|by left].
  - destruct Ht as [Hs Hl]. injection He as <-. destruct (negb (str_eqb p "") && _) eqn:Hc.
    + apply andb_true_iff in Hc as [Hne Hle]. apply (server_decodes (ServerFrame.HostRevealPath p)); [|done].
      unfold str_eqb in Hne. bool_to_prop. done.
    + eexists _, _. split_and!; [done..|]. right.
      change (decode_server TAG_HOST_REVEAL_PATH) with decode_host_reveal_path. unfold decode_host_reveal_path.
      destruct (blen (as_bytes p) =? 0) eqn:Hz; [by eexists|]. cbn [negb ensure]. rewrite res_bind_Ok.
      apply andb_false_iff in Hc as [Hc|Hc].
      * unfold str_eqb in Hc. bool_to_prop. by subst p.
      * unfold str_len in Hc. change (Z.of_nat (length (as_bytes p))) with (blen (as_bytes p)) in Hc.
        rewrite Hc. by eexists.
Qed.
