(* ===== verification/AttachWire.v ===== *)
(** * Attach protocol: what travels over the socket

    The reader of [attach.rs] against a one-shot reference, the wire round
    trips of both directions, the caps every decoded frame respects, and the
    classification of clipboard errors. *)

From stdpp Require Import base list strings.
From Stdlib Require Import ZArith Lia Strings.Byte.
From S2P Require Import Prelude AttachTypes AttachCodec AttachProofs.

(** ** The chunked reader *)

(** One read of [n] bytes, with the outcomes of a short stream. *)
Definition read_once (n : nat) (s : stream) : res (option (bytes * stream)) :=
  if (n <=? length (data s))%nat
  then Ok (Some (take n (data s), mk_stream (drop n (data s)) (ending s)))
  else match ending s with
       | EndEof => Ok None
       | EndIo => bail "attach frame: reading payload"
       | EndTimeout => bail "attach frame: timed out reading payload"
       end.

Definition prepend (acc : bytes) (r : res (option (bytes * stream)))
    : res (option (bytes * stream)) :=
  match r with
  | Ok (Some (bs, s)) => Ok (Some (acc ++ bs, s))
  | _ => r
  end.

(** Reading [m] bytes and then [n] is reading [m + n]. *)
Lemma read_once_add m n s acc :
  (m <= length (data s))%nat →
  prepend (acc ++ take m (data s)) (read_once n (mk_stream (drop m (data s)) (ending s)))
  = prepend acc (read_once (m + n) s).
Proof.
  intros Hm. unfold read_once. cbn [data ending]. rewrite length_drop.
  destruct (Nat.leb_spec (m + n) (length (data s))).
  - rewrite (proj2 (Nat.leb_le _ _)) by lia. cbn.
    by rewrite <-app_assoc, take_take_drop, drop_drop.
  - rewrite (proj2 (Nat.leb_gt _ _)) by lia. by destruct (ending s).
Qed.

Lemma read_chunks_once fuel remaining acc s :
  (remaining <= fuel)%nat →
  read_chunks fuel remaining acc s = prepend acc (read_once remaining s).
Proof.
  assert (Hz : ∀ acc s, prepend acc (read_once 0 s) = Ok (Some (acc, s))).
  { intros acc' [d e]. cbn. by rewrite app_nil_r, drop_0. }
  revert remaining acc s. induction fuel as [|fuel IH]; intros remaining acc s Hr.
  { replace remaining with 0%nat by lia. by rewrite Hz. }
  cbn [read_chunks]. destruct remaining as [|r]; [by rewrite Hz|].
  set (n := Nat.min CHUNK (S r)).
  assert (Hn : (0 < n ≤ S r)%nat) by (unfold n, CHUNK; lia). clearbody n.
  unfold read_exact. destruct (Nat.leb_spec n (length (data s))) as [Hl|Hl].
  - rewrite IH, read_once_add by lia. by replace (n + (S r - n))%nat with (S r) by lia.
  - unfold read_once. rewrite (proj2 (Nat.leb_gt _ _)) by lia. by destruct (ending s).
Qed.

(** The framing of the wire without chunking: a 4-byte big-endian length, the
    limit of the tag, then the payload in one read. *)
Definition read_frame_ref (first_byte : byte) (s : stream)
    : res (option (byte * bytes * stream)) :=
  match read_exact 4 s with
  | ReadFail EndEof => Ok None
  | ReadFail EndIo => bail "attach frame: reading length prefix"
  | ReadFail EndTimeout => bail "attach frame: timed out reading length prefix"
  | ReadOk len_buf s =>
      let len := from_be_bytes len_buf in
      if max_frame_payload_for_tag first_byte <? len
      then bail "attach frame payload {len} exceeds limit {max_payload}"
      else r ← read_once (Z.to_nat len) s;
           Ok (match r with
               | Some (bs, s) => Some (first_byte, bs, s)
               | None => None
               end)
  end.

Lemma prepend_nil r : prepend [] r = r.
Proof. by destruct r as [[[]|]| |]. Qed.

Lemma read_framed_payload_once first_byte s :
  read_framed_payload first_byte s = read_frame_ref first_byte s.
Proof.
  unfold read_framed_payload, read_frame_ref.
  destruct (read_exact 4 s) as [len_buf s'|[]]; [|done..].
  destruct (_ <? _); [done|]. by rewrite read_chunks_once, prepend_nil by lia.
Qed.

(** The 16 KiB chunked read loop of the frame reader is a single bounded
    read: on every stream, whatever its length and however it ends, it returns
    the same frame, the same rest of the stream and the same error as reading
    the announced payload at once, after the per-tag limit was checked. *)
Theorem read_framed_payload_reference first_byte s :
  read_framed_payload first_byte s = read_frame_ref first_byte s.
Proof. apply read_framed_payload_once. Qed.

Lemma read_frame_encoded tag p more e :
  blen p ≤ max_frame_payload_for_tag tag →
  ∃ body, encode tag p = tag :: body
    ∧ read_framed_payload tag (mk_stream (body ++ more) e)
      = Ok (Some (tag, p, mk_stream more e)).
Proof.
  intros Hp. exists (to_be_bytes 4 (blen p) ++ p). split; [done|].
  rewrite read_framed_payload_once. unfold read_frame_ref, read_exact.
  cbn [data ending]. rewrite <-app_assoc, length_app, length_to_be_bytes.
  cbn [Nat.add Nat.leb].
  rewrite take_app_length', drop_app_length' by (by rewrite length_to_be_bytes).
  assert (max_frame_payload_for_tag tag ≤ U32_MAX)
    by (unfold max_frame_payload_for_tag; repeat split_match; done).
  pose proof (blen_nonneg p).
  rewrite from_to_be_bytes by (cbn; range_lia).
  rewrite (proj2 (Z.ltb_ge _ _)), to_nat_blen by done. unfold read_once. cbn [data ending].
  rewrite length_app, (proj2 (Nat.leb_le _ _)) by lia. cbn.
  by rewrite take_app_length, drop_app_length.
Qed.

(** A frame over its limit is refused. *)
Lemma read_frame_oversized tag p more e :
  max_frame_payload_for_tag tag < blen p ≤ U32_MAX →
  ∃ err, read_framed_payload tag (mk_stream ((to_be_bytes 4 (blen p) ++ p) ++ more) e) = Err err.
Proof.
  intros Hp. rewrite read_framed_payload_once. unfold read_frame_ref, read_exact. cbn [data ending].
  rewrite <-app_assoc, length_app, length_to_be_bytes. cbn [Nat.add Nat.leb].
  rewrite take_app_length' by (by rewrite length_to_be_bytes).
  pose proof (blen_nonneg p). rewrite from_to_be_bytes by (cbn; range_lia).
  rewrite (proj2 (Z.ltb_lt _ _)) by lia. by eexists.
Qed.

Lemma refused_frame {A} (decode : byte → bytes → res A) tag p more e :
  blen p ≤ U32_MAX → (max_frame_payload_for_tag tag < blen p ∨ ∃ err, decode tag p = Err err) →
  ∃ err, (r ← read_framed_payload tag (mk_stream ((to_be_bytes 4 (blen p) ++ p) ++ more) e);
          match r with
          | None => Ok None
          | Some (tag, p, s) => f ← decode tag p; Ok (Some (f, s))
          end) = Err err.
Proof.
  intros Hu Hd. destruct (Z.lt_ge_cases (max_frame_payload_for_tag tag) (blen p)) as [Hlt|Hge].
  - destruct (read_frame_oversized tag p more e) as [err ->]; [lia|]. by exists err.
  - destruct Hd as [Hd|[err Hd]]; [lia|].
    destruct (read_frame_encoded tag p more e Hge) as (body & Hb & Hr).
    apply (f_equal tail) in Hb. cbn [encode tail] in Hb. rewrite Hb.
    rewrite Hr, res_bind_Ok. cbv beta iota. rewrite Hd. by exists err.
Qed.

(** ** Wire round trips *)

Section wire.
Context `{SJ1 : SerdeJson TelemetryContext, SJ2 : SerdeJson (option TelemetryContext)}.

(** C12: What the daemon's reader makes of the bytes of a client frame, for every
    frame the encoder accepts whose strings are UTF-8, whose integers and digests have
    the widths of their Rust types and whose raw payload is below 4 GiB.  Reading the
    encoding, followed by any further bytes, leaves exactly those bytes, so
    consecutive frames never bleed into each other, and gives the same frame, with two
    exceptions: a clipboard error comes back classified by its message, and an
    empty terminal field of a hello comes back unset.  Only an input or a command of
    more than 4 MiB and a spawn of an instance without a target, which the
    encoder does not check, are refused with an error.  In particular every frame that
    has none of these comes back unchanged.  [serde_json] is only asked to read back
    what it wrote. *)
Theorem client_wire_roundtrip
    {L1 : SerdeJsonLaw TelemetryContext} {L2 : SerdeJsonLaw (option TelemetryContext)}
    f bs more e :
  typed_client f → encode_client f = Ok bs →
  (∃ tag body, bs = tag :: body
    ∧ match received_client f with
      | Some g => read_client_frame tag (mk_stream (body ++ more) e)
                  = Ok (Some (g, mk_stream more e))
      | None => ∃ err, read_client_frame tag (mk_stream (body ++ more) e) = Err err
      end)
  ∧ (wf_client f → received_client f = Some f).
Proof.
  intros Hty He. split; [|by intros []%wf_received]. pose proof (client_received f bs Hty He) as Hr.
  unfold read_client_frame. destruct (received_client f) as [g|].
  - destruct Hr as (tag & p & -> & Hl & Hd).
    destruct (read_frame_encoded tag p more e Hl) as (body & Hb & Hr).
    exists tag, body. split; [done|]. rewrite Hr, res_bind_Ok. cbv beta iota. by rewrite Hd.
  - destruct Hr as (tag & p & -> & Hl & Hd).
    exists tag, (to_be_bytes 4 (blen p) ++ p). split; [done|].
    by eapply (refused_frame decode_client).
Qed.
End wire.

(** C13: What the host client's reader makes of the bytes of a server frame, for every
    frame the encoder accepts whose strings are UTF-8, whose integers and digests have
    the widths of their Rust types and whose payload is below 4 GiB.  Reading the
    encoding leaves exactly the bytes after it and gives the same frame, except that
    an empty shutdown reason comes back as none.  Only output or a session list of
    more than 4 MiB, a shutdown reason or URL of that size, a URL whose scheme is not
    on the list, and a path to reveal that is empty or over its cap, none of which the
    encoder checks, are refused with an error. *)
Theorem server_wire_roundtrip f bs more e :
  typed_server f → encode_server f = Ok bs →
  (∃ tag body, bs = tag :: body
    ∧ match received_server f with
      | Some g => read_server_frame tag (mk_stream (body ++ more) e)
                  = Ok (Some (g, mk_stream more e))
      | None => ∃ err, read_server_frame tag (mk_stream (body ++ more) e) = Err err
      end)
  ∧ (wf_server f → received_server f = Some f).
Proof.
  intros Hty He. split; [|by intros []%wf_server_received]. pose proof (server_received f bs Hty He) as Hr.
  unfold read_server_frame. destruct (received_server f) as [g|].
  - destruct Hr as (tag & p & -> & Hl & Hd).
    destruct (read_frame_encoded tag p more e Hl) as (body & Hb & Hr).
    exists tag, body. split; [done|]. rewrite Hr, res_bind_Ok. cbv beta iota. by rewrite Hd.
  - destruct Hr as (tag & p & -> & Hl & Hd).
    exists tag, (to_be_bytes 4 (blen p) ++ p). split; [done|].
    by eapply (refused_frame decode_server).
Qed.

(** ** A fragment of [serde_json]

    The JSON of [TelemetryContext::v1()], namely [{"v":1}], and of [null]:
    enough to run the codec on concrete frames. *)
Module JsonFragment.
Definition v1 : TelemetryContext := mk_context 1 None None None None None.
Definition v1_json : bytes := [x7b; x22; x76; x22; x3a; x31; x7d].
Definition null_json : bytes := [x6e; x75; x6c; x6c].

#[export] Instance context_json : SerdeJson TelemetryContext := {
  to_vec c := if bool_decide (c = v1) then Ok v1_json else bail "not in the fragment";
  from_slice bs := if bool_decide (bs = v1_json) then Some v1 else None;
}.
#[export] Instance opt_context_json : SerdeJson (option TelemetryContext) := {
  to_vec o := match o with Some c => to_vec c | None => Ok null_json end;
  from_slice bs := if bool_decide (bs = null_json) then Some None
                   else Some <$> from_slice bs;
}.

#[export] Instance context_json_law : SerdeJsonLaw TelemetryContext.
Proof.
  intros c bs. cbn. destruct (bool_decide_reflect (c = v1)); [|done].
  intros [= <-]. by subst c.
Qed.
#[export] Instance opt_context_json_law : SerdeJsonLaw (option TelemetryContext).
Proof.
  intros [c|] bs; cbn.
  - destruct (bool_decide_reflect (c = v1)); [|done]. intros [= <-]. by subst c.
  - by intros [= <-].
Qed.
End JsonFragment.

Section wire_witness.
Import JsonFragment.

Definition sample_hello : ClientFrame.t :=
  ClientFrame.Hello 24 80 (Some (SpawnRequest.Instance "claude"))
    [("PATH", "/bin"); ("LANG", "C")] (Some 7)
    (mk_terminal (Some "xterm-kitty") None (Some "truecolor")
       (Some (x01, x02, x03)) None
       (mk_overrides (Some true) None (Some false) None None
          (Some ImageProtocolCapability.Kitty)))
    (Some v1).

Lemma sample_hello_wf : wf_client sample_hello.
Proof.
  unfold sample_hello, wf_client. split_and!.
  1,2: range_lia.
  - by vm_compute.
  - repeat constructor.
  - intros z [= <-]. range_lia.
  - split_and!; [by vm_compute|done|by vm_compute].
Qed.

Lemma client_wire_roundtrip_witness :
  wf_client sample_hello ∧
  ∃ bs tag body, encode_client sample_hello = Ok bs ∧ bs = tag :: body
    ∧ read_client_frame tag (mk_stream (body ++ [TAG_DETACH]) EndEof)
      = Ok (Some (sample_hello, mk_stream [TAG_DETACH] EndEof)).
Proof.
  split; [exact sample_hello_wf|].
  destruct (encode_client sample_hello) as [bs| |] eqn:E; [|by vm_compute in E..].
  destruct (client_wire_roundtrip sample_hello bs [TAG_DETACH] EndEof
              (proj1 (wf_received _ sample_hello_wf)) E) as [(tag & body & Hb & Hr) Hw].
  rewrite (Hw sample_hello_wf) in Hr. exists bs, tag, body. exact (conj eq_refl (conj Hb Hr)).
Defined.
End wire_witness.

Definition sample_open_url : ServerFrame.t := ServerFrame.HostOpenUrl "HTTPS://a.b".

Lemma server_wire_roundtrip_witness :
  wf_server sample_open_url ∧
  ∃ bs tag body, encode_server sample_open_url = Ok bs ∧ bs = tag :: body
    ∧ read_server_frame tag (mk_stream (body ++ [TAG_BELL]) EndEof)
      = Ok (Some (sample_open_url, mk_stream [TAG_BELL] EndEof)).
Proof.
  assert (wf_server sample_open_url) as Hwf by (repeat split; by vm_compute).
  split; [exact Hwf|].
  destruct (encode_server sample_open_url) as [bs| |] eqn:E; [|by vm_compute in E..].
  destruct (server_wire_roundtrip sample_open_url bs [TAG_BELL] EndEof
              (proj1 (wf_server_received _ Hwf)) E) as [(tag & body & Hb & Hr) Hw].
  rewrite (Hw Hwf) in Hr. exists bs, tag, body. exact (conj eq_refl (conj Hb Hr)).
Defined.

(** ** What a decoded frame guarantees *)

(** Follow a decoder that ended in [Ok] down its binds. *)
Ltac run_ok :=
  repeat (invert_ok; match goal with
  | H : (let '(_, _) := ?x in _) = Ok _ |- _ => destruct x as [? ?]
  | H : (if ?c then _ else _) = Ok _ |- _ => destruct c eqn:?
  | H : match from_utf8 ?b with _ => _ end = Ok _ |- _ => destruct (from_utf8 b) eqn:?
  | H : match from_slice ?b with _ => _ end = Ok _ |- _ => destruct (from_slice b) eqn:?
  end); invert_ok; simplify_eq/=.

Lemma read_bytes_ok n field c bs c' :
  read_bytes n field c = Ok (bs, c') → length bs = n.
Proof.
  unfold read_bytes. intros H. run_ok. apply Nat.leb_le in Heqb0.
  rewrite length_take, length_drop. lia.
Qed.

Lemma read_be_ok n field c z c' :
  read_be n field c = Ok (z, c') → 0 ≤ z < 2 ^ (8 * Z.of_nat n).
Proof.
  unfold read_be. intros H. run_ok. apply read_bytes_ok in H0. subst n.
  apply from_be_bytes_range.
Qed.

Lemma read_u16_ok field c z c' : read_u16 field c = Ok (z, c') → is_u16 z.
Proof. intros H%read_be_ok. cbn in H. range_lia. Qed.
Lemma read_u32_ok field c z c' : read_u32 field c = Ok (z, c') → is_u32 z.
Proof. intros H%read_be_ok. cbn in H. range_lia. Qed.
Lemma read_u64_ok field c z c' : read_u64 field c = Ok (z, c') → is_u64 z.
Proof. intros H%read_be_ok. cbn in H. range_lia. Qed.

Lemma read_string_ok n field c s c' :
  read_string n field c = Ok (s, c') → wf_str s ∧ length (as_bytes s) = n.
Proof.
  unfold read_string. intros H. run_ok. apply read_bytes_ok in H0.
  apply from_utf8_Some in Heqo as [? <-]. done.
Qed.

Lemma str_len_of_nat s z : 0 ≤ z → length (as_bytes s) = Z.to_nat z → str_len s = z.
Proof. unfold str_len. lia. Qed.

(** The caps on the variables of a hello. *)
Definition env_entry_capped (kv : string * string) : Prop :=
  wf_str kv.1 ∧ wf_str kv.2
  ∧ str_len kv.1 ≤ MAX_HELLO_ENV_KEY ∧ str_len kv.2 ≤ MAX_HELLO_ENV_VALUE.

Lemma read_env_ok count c env c' :
  read_env count c = Ok (env, c') → length env = count ∧ Forall env_entry_capped env.
Proof.
  revert c env c'. induction count as [|count IH]; intros c env c' H.
  { cbn in H. run_ok. split; [done|constructor]. }
  cbn [read_env] in H. run_ok.
  match goal with H : read_env _ _ = _ |- _ => apply IH in H as [<- ?] end.
  split; [done|]. constructor; [|done].
  repeat match goal with
  | H : read_string _ _ _ = _ |- _ => apply read_string_ok in H as [? ?]
  | H : read_u16 _ _ = _ |- _ => apply read_u16_ok in H
  | H : read_u32 _ _ = _ |- _ => apply read_u32_ok in H
  end.
  bool_to_prop. unfold env_entry_capped, in_range in *. cbn.
  split_and!; try done; erewrite str_len_of_nat; try eassumption; lia.
Qed.

Definition opt_str_capped (o : option string) : Prop :=
  wf_opt_str o ∧ str_len (default "" o) ≤ MAX_CLIENT_TERMINAL_FIELD.

Lemma read_terminal_field_ok label c o c' :
  read_terminal_field label c = Ok (o, c') → opt_str_capped o.
Proof.
  unfold read_terminal_field. intros H. run_ok.
  apply read_u16_ok in H0. apply read_string_ok in H1 as [Hs Hl].
  bool_to_prop. unfold in_range in *. apply str_len_of_nat in Hl; [|lia].
  unfold opt_str_capped, str_eqb. case_bool_decide; cbn; [done|]. by rewrite Hl.
Qed.

Lemma read_focus_ok c o c' z : read_focus c = Ok (o, c') → o = Some z → is_u64 z.
Proof.
  unfold read_focus. intros H Ho. run_ok.
  destruct b; try discriminate; run_ok. by apply read_u64_ok in H1.
Qed.

Definition terminal_capped (t : ClientTerminal) : Prop :=
  opt_str_capped (term t) ∧ opt_str_capped (term_program t) ∧ opt_str_capped (colorterm t).

Lemma read_terminal_ok c t c' : read_terminal c = Ok (t, c') → terminal_capped t.
Proof.
  unfold read_terminal. intros H. run_ok.
  repeat match goal with
  | H : read_terminal_field _ _ = _ |- _ => apply read_terminal_field_ok in H
  end.
  by split_and!.
Qed.

Lemma decode_spawn_ok kind agent sp :
  wf_str agent → decode_spawn kind agent = Ok sp → wf_spawn sp.
Proof.
  intros Hs H. destruct kind; try discriminate; cbn in H; run_ok; try done.
  apply bool_decide_eq_false in Heqb. done.
Qed.

(** ** Clipboard error classes *)

Lemma from_message_Other m m' :
  ClipboardImageError.from_message m = ClipboardImageError.Other m' → m' = m.
Proof.
  unfold ClipboardImageError.from_message. intros H.
  repeat (split_match_in H; [discriminate|]). by injection H.
Qed.

(** One evaluation for all nine classes. *)
Lemma from_message_classes :
  let go e := ClipboardImageError.from_message (ClipboardImageError.message e) in
  go ClipboardImageError.Empty = ClipboardImageError.Empty
  ∧ go ClipboardImageError.TooLarge = ClipboardImageError.TooLarge
  ∧ go ClipboardImageError.UnsupportedFormat = ClipboardImageError.UnsupportedFormat
  ∧ go ClipboardImageError.DigestMismatch = ClipboardImageError.DigestMismatch
  ∧ go ClipboardImageError.ChunkSequence = ClipboardImageError.ChunkSequence
  ∧ go ClipboardImageError.MissingTransfer = ClipboardImageError.MissingTransfer
  ∧ go ClipboardImageError.DuplicateTransfer = ClipboardImageError.DuplicateTransfer
  ∧ go ClipboardImageError.BackendUnavailable = ClipboardImageError.BackendUnavailable
  ∧ go ClipboardImageError.Io = ClipboardImageError.Io.
Proof. vm_compute. by split_and!. Qed.

Lemma from_message_canonical e :
  (∀ m, e ≠ ClipboardImageError.Other m) →
  ClipboardImageError.from_message (ClipboardImageError.message e) = e.
Proof.
  intros He. pose proof from_message_classes. cbv zeta in H. destruct_and!.
  destruct e as [| | | | | | | | |m]; [done..|]. by destruct (He m).
Qed.

Lemma from_message_message m :
  ClipboardImageError.from_message
    (ClipboardImageError.message (ClipboardImageError.from_message m))
  = ClipboardImageError.from_message m.
Proof.
  destruct (ClipboardImageError.from_message m) as [| | | | | | | | |m'] eqn:E;
    try (by apply from_message_canonical).
  cbn [ClipboardImageError.message]. apply from_message_Other in E as E'. by subst m'.
Qed.

(** The wire representation of a clipboard error is stable: every error
    class other than [Other] is read back from its own message, and for any
    received text, classifying, printing the canonical message and classifying
    again gives the same class, so an error relayed through several hops never
    changes its class or its reason code. *)
Theorem clipboard_error_class_stable :
  (∀ e, (∀ m, e ≠ ClipboardImageError.Other m) →
     ClipboardImageError.from_message (ClipboardImageError.message e) = e)
  ∧ (∀ m, let e := ClipboardImageError.from_message m in
     ClipboardImageError.from_message (ClipboardImageError.message e) = e
     ∧ ClipboardImageError.reason_code
         (ClipboardImageError.from_message (ClipboardImageError.message e))
       = ClipboardImageError.reason_code e).
Proof.
  split.
  - apply from_message_canonical.
  - intros m e. unfold e. by rewrite from_message_message.
Qed.

Lemma from_message_wf m : wf_str m → wf_image_error (ClipboardImageError.from_message m).
Proof.
  intros Hm. split; [|apply from_message_message].
  destruct (ClipboardImageError.from_message m) as [| | | | | | | | |m'] eqn:E;
    try (vm_compute; reflexivity).
  apply from_message_Other in E. by subst m'.
Qed.

(** ** Caps of decoded client frames *)

(** Caps of the operations of a contextual request.  The sizes of a transfer
    start and of a chunk are not checked here but by the transfer table. *)
Definition operation_capped (op : AttachControlOperation.t) : Prop :=
  match op with
  | AttachControlOperation.ClipboardImage i =>
      0 < blen (img_bytes i) ≤ MAX_CLIPBOARD_IMAGE_BYTES
  | AttachControlOperation.ClipboardImageStart s => is_u64 (is_size s)
  | _ => True
  end.

Definition client_capped (f : ClientFrame.t) : Prop :=
  match f with
  | ClientFrame.Hello _ _ _ env _ terminal _ =>
      Z.of_nat (length env) ≤ MAX_HELLO_ENV ∧ Forall env_entry_capped env
      ∧ terminal_capped terminal
  | ClientFrame.ClipboardImage i => 0 < blen (img_bytes i) ≤ MAX_CLIPBOARD_IMAGE_BYTES
  | ClientFrame.ClipboardImageStart s => 0 < is_size s ≤ MAX_CLIPBOARD_IMAGE_TRANSFER_BYTES
  | ClientFrame.ClipboardImageChunk c =>
      0 < blen (ic_bytes c) ≤ MAX_CLIPBOARD_IMAGE_CHUNK_BYTES
  | ClientFrame.HostNotice m => 0 < str_len m ≤ MAX_HOST_NOTICE_BYTES
  | ClientFrame.AttachControl r => operation_capped (req_operation r)
  | ClientFrame.Input bs | ClientFrame.Command bs => blen bs ≤ MAX_FRAME_PAYLOAD
  | _ => True
  end.

(** Turn every successful field read in the context into its range fact. *)
Ltac read_facts :=
  repeat match goal with
  | H : read_string _ _ _ = Ok _ |- _ => apply read_string_ok in H as [? ?]
  | H : read_u16 _ _ = Ok _ |- _ => apply read_u16_ok in H
  | H : read_u32 _ _ = Ok _ |- _ => apply read_u32_ok in H
  | H : read_u64 _ _ = Ok _ |- _ => apply read_u64_ok in H
  | H : read_bytes _ _ _ = Ok _ |- _ => apply read_bytes_ok in H
  | H : read_env _ _ = Ok _ |- _ => apply read_env_ok in H as [? ?]
  | H : read_terminal _ = Ok _ |- _ => apply read_terminal_ok in H
  | H : from_utf8 _ = Some _ |- _ => apply from_utf8_Some in H as [? <-]
  end.

Lemma blen_pos bs : blen bs ≠ 0 → 0 < blen bs.
Proof. pose proof (blen_nonneg bs). lia. Qed.

Section caps.
Context `{SerdeJson TelemetryContext, SerdeJson (option TelemetryContext)}.

Definition client_ok (f : ClientFrame.t) : Prop := wf_client f ∧ client_capped f.

Lemma decode_hello_ok p f : decode_hello p = Ok f → client_ok f.
Proof.
  unfold decode_hello. intros Hd. run_ok.
  pose proof (λ z, read_focus_ok _ _ _ z ltac:(eassumption)) as Hfo.
  read_facts. bool_to_prop. unfold client_ok, wf_client, client_capped.
  match goal with
  | Hs : decode_spawn _ _ = Ok _ |- _ => apply decode_spawn_ok in Hs; [|done]
  end.
  match goal with Ht : terminal_capped _ |- _ => pose proof Ht as (Ht1 & Ht2 & Ht3) end.
  split_and!; try done.
  - eapply Forall_impl; [done|]. intros kv (? & ? & _). done.
  - split_and!; [apply Ht1|apply Ht2|apply Ht3].
  - unfold in_range in *. lia.
Qed.

Lemma decode_resize_ok p f : decode_resize p = Ok f → client_ok f.
Proof.
  unfold decode_resize. intros Hd. run_ok. bool_to_prop. split; [|done]. cbn [wf_client].
  assert (length (take 2 p) = 2%nat ∧ length (take 2 (drop 2 p)) = 2%nat) as [Ha Hb].
  { unfold blen in *. rewrite !length_take, length_drop. lia. }
  pose proof (from_be_bytes_range (take 2 p)). pose proof (from_be_bytes_range (take 2 (drop 2 p))).
  rewrite Ha, Hb in *. cbn in *. range_lia.
Qed.

Lemma decode_operation_ok kind c op c' :
  decode_operation kind c = Ok (op, c') → wf_operation op ∧ operation_capped op.
Proof.
  intros Hd. destruct kind; try discriminate; cbn in Hd; run_ok; read_facts; try done.
  - bool_to_prop. split; [done|]. cbn. split; [by apply blen_pos|done].
  - split; [|done]. by apply from_message_wf.
Qed.

Lemma decode_request_ok p r : decode_request p = Ok r → client_ok (ClientFrame.AttachControl r).
Proof.
  unfold decode_request. intros Hd. run_ok.
  match goal with Ho : decode_operation _ _ = _ |- _ => apply decode_operation_ok in Ho as [? ?] end.
  read_facts. by split_and!.
Qed.

Lemma decode_clipboard_image_ok p f : decode_clipboard_image p = Ok f → client_ok f.
Proof.
  destruct p as [|b p]; [discriminate|]. cbn. intros Hd. run_ok. bool_to_prop.
  split; [done|]. cbn. by split; [apply blen_pos|].
Qed.

Lemma decode_client_ok tag p f :
  blen p ≤ max_frame_payload_for_tag tag → decode_client tag p = Ok f → client_ok f.
Proof.
  intros Hp Hd. unfold decode_client, decode_client_legacy in Hd.
  repeat (split_match_in Hd; [match goal with
    H : Byte.eqb _ _ = true |- _ => apply byte_dec_bl in H; subst tag end|]);
    unfold decode_clipboard_image_start, decode_clipboard_image_chunk,
      decode_clipboard_image_end, decode_clipboard_image_error, decode_host_notice in Hd;
    run_ok; eauto using decode_request_ok, decode_hello_ok, decode_resize_ok,
      decode_clipboard_image_ok;
    read_facts; bool_to_prop; unfold client_ok; cbn [wf_client client_capped];
    split_and?; try done.
  - unfold in_range in *. cbn. lia.
  - by apply blen_pos.
  - by apply from_message_wf.
  - by apply blen_pos.
Qed.
End caps.

(** ** The decoder is total: no input makes it panic *)

Lemma bind_no_panic {A B} (r : res A) (f : A → res B) :
  r ≠ Panic → (∀ a, f a ≠ Panic) → r ≫= f ≠ Panic.
Proof. destruct r; cbn; auto. Qed.

Lemma ensure_no_panic c fmt : ensure c fmt ≠ Panic.
Proof. by destruct c. Qed.
Lemma read_u8_no_panic field c : read_u8 field c ≠ Panic.
Proof. unfold read_u8. by split_match. Qed.
Lemma read_bytes_no_panic n field c : read_bytes n field c ≠ Panic.
Proof. unfold read_bytes. by repeat split_match. Qed.
Lemma read_remaining_no_panic field c : read_remaining field c ≠ Panic.
Proof. unfold read_remaining. by split_match. Qed.
Lemma from_tag_no_panic b : ClipboardImageFormat.from_tag b ≠ Panic.
Proof. by destruct b. Qed.
Lemma flag_of_no_panic fmt b : flag_of fmt b ≠ Panic.
Proof. by destruct b. Qed.
Lemma decode_spawn_no_panic kind agent : decode_spawn kind agent ≠ Panic.
Proof. destruct kind; try done; cbn; by split_match. Qed.
#[export] Hint Resolve ensure_no_panic read_u8_no_panic read_bytes_no_panic
  read_remaining_no_panic from_tag_no_panic flag_of_no_panic decode_spawn_no_panic : jackin.

(** Walk a decoder: binds, pairs, conditionals; leaves come from the database. *)
Ltac no_panic :=
  repeat first
  [ solve [done | auto with jackin]
  | match goal with
    | |- _ ≫= _ ≠ Panic => apply bind_no_panic; [|intros]
    | |- (let '(_, _) := ?x in _) ≠ Panic => destruct x
    | |- match ?x with _ => _ end ≠ Panic => destruct x
    end ].

Lemma read_be_no_panic n field c : read_be n field c ≠ Panic.
Proof. unfold read_be. no_panic. Qed.
Lemma read_string_no_panic n field c : read_string n field c ≠ Panic.
Proof. unfold read_string. no_panic. Qed.
Lemma read_u16_no_panic field c : read_u16 field c ≠ Panic.
Proof. apply read_be_no_panic. Qed.
Lemma read_u32_no_panic field c : read_u32 field c ≠ Panic.
Proof. apply read_be_no_panic. Qed.
Lemma read_u64_no_panic field c : read_u64 field c ≠ Panic.
Proof. apply read_be_no_panic. Qed.
#[export] Hint Resolve read_string_no_panic read_u16_no_panic read_u32_no_panic
  read_u64_no_panic : jackin.
Lemma read_override_bool_no_panic label c : read_override_bool label c ≠ Panic.
Proof. unfold read_override_bool. no_panic. Qed.
Lemma read_image_override_no_panic c : read_image_override c ≠ Panic.
Proof. unfold read_image_override. no_panic. Qed.
Lemma read_color_field_no_panic label c : read_color_field label c ≠ Panic.
Proof. unfold read_color_field. no_panic. Qed.
Lemma read_focus_no_panic c : read_focus c ≠ Panic.
Proof. unfold read_focus. no_panic. Qed.
Lemma read_terminal_field_no_panic label c : read_terminal_field label c ≠ Panic.
Proof. unfold read_terminal_field. no_panic. Qed.
Lemma read_env_no_panic count c : read_env count c ≠ Panic.
Proof. revert c. induction count; intros c; cbn [read_env]; no_panic. Qed.
#[export] Hint Resolve read_override_bool_no_panic read_image_override_no_panic
  read_color_field_no_panic read_focus_no_panic read_terminal_field_no_panic
  read_env_no_panic : jackin.
Lemma read_capability_overrides_no_panic c : read_capability_overrides c ≠ Panic.
Proof. unfold read_capability_overrides. no_panic. Qed.
#[export] Hint Resolve read_capability_overrides_no_panic : jackin.
Lemma read_terminal_no_panic c : read_terminal c ≠ Panic.
Proof. unfold read_terminal. no_panic. Qed.
#[export] Hint Resolve read_terminal_no_panic : jackin.
Lemma decode_operation_no_panic kind c : decode_operation kind c ≠ Panic.
Proof. destruct kind; cbn [decode_operation]; no_panic. Qed.
#[export] Hint Resolve decode_operation_no_panic : jackin.

Section total.
Context `{SerdeJson TelemetryContext, SerdeJson (option TelemetryContext)}.

Lemma decode_client_no_panic tag p : decode_client tag p ≠ Panic.
Proof.
  unfold decode_client, decode_client_legacy, decode_request, decode_hello, decode_resize,
    decode_clipboard_image, decode_clipboard_image_start, decode_clipboard_image_chunk,
    decode_clipboard_image_end, decode_clipboard_image_error, decode_host_notice.
  no_panic.
Qed.
End total.

Lemma decode_server_no_panic tag p : decode_server tag p ≠ Panic.
Proof.
  unfold decode_server, decode_response, decode_welcome, decode_shutdown,
    decode_host_open_url, decode_file_export_start, decode_file_export_chunk,
    decode_file_export_end, decode_host_reveal_path.
  no_panic.
Qed.

Lemma read_once_no_panic n s : read_once n s ≠ Panic.
Proof. unfold read_once. by repeat split_match. Qed.

Lemma read_framed_payload_no_panic first_byte s : read_framed_payload first_byte s ≠ Panic.
Proof.
  rewrite read_framed_payload_once. unfold read_frame_ref.
  destruct (read_exact 4 s) as [|[]]; try done.
  destruct (_ <? _); [done|]. apply bind_no_panic; [apply read_once_no_panic|done].
Qed.

Lemma read_framed_payload_limit first_byte s tag p s' :
  read_framed_payload first_byte s = Ok (Some (tag, p, s')) →
  tag = first_byte ∧ blen p ≤ max_frame_payload_for_tag tag
  ∧ data s = to_be_bytes 4 (blen p) ++ p ++ data s' ∧ ending s' = ending s.
Proof.
  rewrite read_framed_payload_once. unfold read_frame_ref, read_exact.
  destruct (Nat.leb_spec 4 (length (data s))); [|by destruct (ending s)].
  set (len := from_be_bytes (take 4 (data s))).
  destruct (Z.ltb_spec (max_frame_payload_for_tag first_byte) len); [done|].
  unfold read_once. cbn [data ending]. intros Hr.
  assert (0 ≤ len) by (unfold len; pose proof (from_be_bytes_range (take 4 (data s))); lia).
  destruct (Nat.leb_spec (Z.to_nat len) (length (drop 4 (data s)))); [|by destruct (ending s)].
  rewrite res_bind_Ok in Hr. injection Hr as <- <- <-. cbn [data ending].
  assert (Hb : blen (take (Z.to_nat len) (drop 4 (data s))) = len).
  { unfold blen. rewrite length_take. lia. }
  rewrite Hb. split_and!; try done.
  pose proof (to_from_be_bytes (take 4 (data s))) as Hz.
  rewrite length_take, Nat.min_l in Hz by done. fold len in Hz.
  by rewrite take_drop, Hz, take_drop.
Qed.

Lemma read_framed_payload_None first_byte s :
  read_framed_payload first_byte s = Ok None → ending s = EndEof.
Proof.
  rewrite read_framed_payload_once. unfold read_frame_ref, read_exact, read_once.
  destruct (4 <=? length (data s))%nat; [|by destruct (ending s)].
  cbn [data ending]. destruct (_ <? _); [done|].
  destruct (_ <=? _)%nat; [done|]. by destruct (ending s).
Qed.

Section total_claim.
Context `{SerdeJson TelemetryContext, SerdeJson (option TelemetryContext)}.

(** C23: Reading a client frame off any byte stream is safe: the daemon's
    reader never panics; when it returns a frame, the bytes it consumed are a
    4-byte big-endian length and that many payload bytes, no more than the
    limit of the tag, the rest of the stream is left untouched, and the frame
    satisfies the type invariants (integer widths, 32-byte digests, UTF-8 text,
    errors classified by their message) and these caps: 64 variables of at most 1 KiB
    and 8 KiB, terminal fields, host notices, input and commands within their limits,
    non-empty images of at most 16 MiB, also in a request with context.  The
    start of a transfer and its chunks are non-empty and capped in their own frames;
    in a request with context the decoder does not cap them, nor the text of an
    error: only the limit of the whole frame holds there, and the transfer table
    checks the sizes. *)
Theorem read_client_frame_safe tag s :
  match read_client_frame tag s with
  | Ok (Some (f, s')) =>
      client_ok f
      ∧ ∃ p, data s = to_be_bytes 4 (blen p) ++ p ++ data s'
          ∧ blen p ≤ max_frame_payload_for_tag tag ∧ ending s' = ending s
  | Ok None => ending s = EndEof
  | Err _ => True
  | Panic => False
  end.
Proof.
  unfold read_client_frame.
  pose proof (read_framed_payload_no_panic tag s).
  destruct (read_framed_payload tag s) as [[[[t p] s']|]|e|] eqn:Hr; cbn; try done.
  - apply read_framed_payload_limit in Hr as (-> & Hl & Hd & He).
    pose proof (decode_client_no_panic tag p).
    destruct (decode_client tag p) as [f| |] eqn:Hf; cbn; try done.
    split; [by eapply decode_client_ok|]. by exists p.
  - by eapply read_framed_payload_None.
Qed.
End total_claim.

(** ** Encoder outcomes and terminal capabilities *)

(** The bounds the [assert!]s of the file-export encoders check. *)
Definition server_encodable (f : ServerFrame.t) : Prop :=
  match f with
  | ServerFrame.FileExportStart s =>
      0 < str_len (es_source_path s) ≤ MAX_FILE_EXPORT_PATH_BYTES
      ∧ 0 < str_len (es_file_name s) ≤ MAX_FILE_EXPORT_NAME_BYTES
  | ServerFrame.FileExportChunk c => 0 < blen (ec_bytes c) ≤ MAX_FILE_EXPORT_CHUNK_BYTES
  | _ => True
  end.

Lemma nonempty_leb n m : 0 ≤ n →
  (negb (n =? 0) = true ∧ (n <=? m) = true) ↔ 0 < n ≤ m.
Proof. rewrite negb_true_iff, Z.eqb_neq, Z.leb_le. lia. Qed.

(** The server encoder fails on no frame with an error value: it produces
    bytes exactly for the frames within the file-export bounds, and panics on
    exactly the others (an empty or oversized path, name or chunk). *)
Theorem encode_server_outcome f :
  (server_encodable f ∧ ∃ bs, encode_server f = Ok bs)
  ∨ (¬ server_encodable f ∧ encode_server f = Panic).
Proof.
  destruct f as [| | | | | |s|c| | | | | |]; try (left; split; [done|by eexists]);
    cbn [server_encodable encode_server].
  - change (str_len ?x) with (blen (as_bytes x)). unfold encode_file_export_start.
    rewrite <-!nonempty_leb by apply blen_nonneg.
    destruct (negb (blen (as_bytes (es_source_path s)) =? 0)),
      (blen (as_bytes (es_source_path s)) <=? _),
      (negb (blen (as_bytes (es_file_name s)) =? 0)), (blen (as_bytes (es_file_name s)) <=? _);
    first [left; split; [by split_and!|by eexists]|right; split; [by intros [[] []]|done]].
  - unfold encode_file_export_chunk. rewrite <-nonempty_leb by apply blen_nonneg.
    destruct (negb _), (_ <=? _);
    first [left; split; [by split_and!|by eexists]|right; split; [by intros []|done]].
Qed.

(** Terminal capabilities follow a fixed precedence: an explicit override
    decides its own capability whatever the terminal says; without one, a
    denylisted terminal (dumb, linux, warp or unidentified) never gets pointer
    shapes, a dumb or linux terminal gets neither synchronized output nor
    hyperlinks, and the user-override source is recorded exactly when some
    override is present. *)
Theorem attach_capabilities_precedence t :
  let c := attach_capabilities t in
  let o := capability_overrides t in
  (∀ b, ov_pointer_shapes o = Some b → pointer_shapes c = b)
  ∧ (∀ b, ov_truecolor o = Some b → truecolor c = b)
  ∧ (∀ b, ov_synchronized_output o = Some b → synchronized_output c = b)
  ∧ (∀ b, ov_osc8_hyperlinks o = Some b → osc8_hyperlinks c = b)
  ∧ (∀ b, ov_underline_style o = Some b → underline_style c = b)
  ∧ (∀ b, ov_image_protocol o = Some b → image_protocol c = b)
  ∧ (ov_pointer_shapes o = None → denylist (sources c) = true → pointer_shapes c = false)
  ∧ (str_in (to_ascii_lowercase (default "" (term t))) ["dumb"; "linux"] = true →
     (ov_synchronized_output o = None → synchronized_output c = false)
     ∧ (ov_osc8_hyperlinks o = None → osc8_hyperlinks c = false)
     ∧ denylist (sources c) = true)
  ∧ (user_override (sources c) = true ↔ o ≠ default_overrides).
Proof.
  intros c o. unfold c, attach_capabilities. fold o.
  cbn [apply_to pointer_shapes truecolor synchronized_output osc8_hyperlinks
       underline_style image_protocol sources denylist user_override].
  split_and!; try (by intros b ->).
  - intros ->. cbn. destruct (str_in _ ["dumb"; "linux"]), (str_contains "warp" _), (_ && _)%bool;
      cbn; rewrite ?andb_false_r; done.
  - intros ->. by split_and!; [intros ->..|].
  - destruct o as [[] [] [] [] [] []]; split; intros; try done; discriminate.
Qed.
