(* ===== verification/Clipboard.v ===== *)
(** * Clipboard image transfers

    The capsule side is [jackin-capsule/src/clipboard.rs] (the table of active
    transfers and the staging of an image) and the attach-control part of
    [daemon/control/frames.rs] and [daemon/state_tick.rs]; the host side is
    [write_clipboard_image_frames] of [jackin-runtime-host-attach].

    The [sha2] crate is a parameter, the class [Sha256] with its law.  The
    clock is an argument ([now], nanoseconds).  A [HashMap] is a [gmap]; the
    order in which the code visits it is unspecified, and no theorem depends
    on the order the model picks. *)

From stdpp Require Import base list gmap strings.
From Stdlib Require Import ZArith Lia Strings.Byte.
From S2P Require Import Prelude AgentEvidence AttachTypes AttachCodec AttachProofs.

(** ** The hasher *)

Class Sha256 := {
  hasher : Type;
  hasher_new : hasher;
  hasher_update : hasher → bytes → hasher;
  hasher_finalize : hasher → bytes;
}.

Definition sha256 `{Sha256} (bs : bytes) : bytes :=
  hasher_finalize (hasher_update hasher_new bs).

(** [Digest::update] may be called repeatedly, with the result of one call on
    the concatenation, and the output has 32 bytes. *)
Class Sha256Law `{Sha256} := {
  finalize_chunks : ∀ cs : list bytes,
    hasher_finalize (foldl hasher_update hasher_new cs) = sha256 (concat cs);
  finalize_length : ∀ h, length (hasher_finalize h) = FILE_EXPORT_DIGEST_BYTES;
}.

(** ** [slice::chunks] *)

Fixpoint chunks_fuel (fuel n : nat) (bs : bytes) : list bytes :=
  match fuel with
  | O => []
  | S fuel' =>
      match bs with
      | [] => []
      | _ => take n bs :: chunks_fuel fuel' n (drop n bs)
      end
  end.

(** Every chunk but the last has [n] > 0 bytes, so [length bs] rounds suffice. *)
Definition chunks (n : nat) (bs : bytes) : list bytes := chunks_fuel (length bs) n bs.

Lemma chunks_fuel_spec fuel n bs :
  (0 < n)%nat → (length bs <= fuel)%nat →
  concat (chunks_fuel fuel n bs) = bs
  ∧ Forall (λ c, 0 < length c ≤ n)%nat (chunks_fuel fuel n bs).
Proof.
  intros Hn. revert bs. induction fuel as [|fuel IH]; intros bs Hl.
  { destruct bs; [by split|cbn in Hl; lia]. }
  destruct bs as [|b bs]; [by split|]. cbn [chunks_fuel].
  destruct (IH (drop n (b :: bs))) as [Hc Hf].
  { rewrite length_drop. cbn in *. lia. }
  split.
  - cbn [concat]. by rewrite Hc, take_drop.
  - constructor; [|done]. rewrite length_take. cbn. lia.
Qed.

Lemma concat_chunks n bs : (0 < n)%nat → concat (chunks n bs) = bs.
Proof. intros. by apply chunks_fuel_spec. Qed.
Lemma chunks_bounds n bs :
  (0 < n)%nat → Forall (λ c, 0 < length c ≤ n)%nat (chunks n bs).
Proof. intros. by apply chunks_fuel_spec. Qed.

(** ** Magic bytes and staging *)

Definition starts_with_bytes (p bs : bytes) : bool := bytes_prefix p bs.

Definition magic_ok (f : ClipboardImageFormat.t) (bs : bytes) : bool :=
  match f with
  | ClipboardImageFormat.Png =>
      starts_with_bytes [x89; x50; x4e; x47; x0d; x0a; x1a; x0a] bs
  | ClipboardImageFormat.Jpeg => starts_with_bytes [xff; xd8; xff] bs
  | ClipboardImageFormat.Gif =>
      starts_with_bytes (as_bytes "GIF87a") bs || starts_with_bytes (as_bytes "GIF89a") bs
  | ClipboardImageFormat.Webp =>
      (12 <=? length bs)%nat && starts_with_bytes (as_bytes "RIFF") bs
      && bool_decide (take 4 (drop 8 bs) = as_bytes "WEBP")
  | ClipboardImageFormat.Tiff =>
      starts_with_bytes [x4d; x4d; x00; x2a] bs || starts_with_bytes [x49; x49; x2a; x00] bs
  end.

Definition validate_image_magic (i : ClipboardImage) : res () :=
  if blen (img_bytes i) =? 0 then bail "clipboard image payload is empty"
  else ensure (magic_ok (img_format i) (img_bytes i))
         "clipboard image magic bytes do not match {:?}".

(** The outcomes of the file-system calls of [stage_clipboard_image_at]. *)
Inductive open_result := Opened | AlreadyExists | OpenFailed.
Record stage_io := mk_stage_io {
  create_dir_all_ok : bool;
  set_permissions_ok : bool;
  open_attempt : nat → open_result;
  write_all_ok : bool;
  flush_ok : bool;
}.

(** The [for attempt in 0..16] loop; the staged path is named by its attempt. *)
Fixpoint stage_attempts (io : stage_io) (attempt remaining : nat) : res nat :=
  match remaining with
  | O => bail "could not allocate unique clipboard image path under {}"
  | S remaining' =>
      match open_attempt io attempt with
      | Opened =>
          _ ← ensure (write_all_ok io) "writing {}";
          _ ← ensure (flush_ok io) "flushing {}";
          Ok attempt
      | AlreadyExists => stage_attempts io (S attempt) remaining'
      | OpenFailed => bail "opening {}"
      end
  end.

Definition stage_clipboard_image (io : stage_io) (i : ClipboardImage) : res nat :=
  _ ← validate_image_magic i;
  _ ← ensure (create_dir_all_ok io) "creating {}";
  _ ← ensure (set_permissions_ok io) "setting permissions on {}";
  stage_attempts io 0 16.

(** ** The transfer table *)

Definition CLIPBOARD_IMAGE_TRANSFER_IDLE_TIMEOUT : duration := from_secs (5 * 60).

(** [Instant::checked_sub] on Linux: the seconds of an instant are an [i64]. *)
Definition INSTANT_MIN : instant := from_secs (- (2 ^ 63)).
Definition instant_checked_sub (now : instant) (d : duration) : option instant :=
  if now - d <? INSTANT_MIN then None else Some (now - d).

Section transfer.
Context `{Sha256}.

Record ActiveClipboardImageTransfer := mk_active {
  format : ClipboardImageFormat.t;
  expected_size : Z;
  tbytes : bytes;
  thasher : hasher;
  last_activity : instant;
}.

End transfer.

(** The table, keyed by transfer id. *)
Abbreviation ClipboardImageTransfers := (gmap Z ActiveClipboardImageTransfer).

Section transfers.
Context `{Sha256}.

Definition start (now : instant) (s : ClipboardImageStart) (t : ClipboardImageTransfers)
    : res () * ClipboardImageTransfers :=
  if bool_decide (is_Some (t !! is_transfer_id s))
  then (bail "clipboard image transfer {} already active", t)
  else if is_size s =? 0 then (bail "clipboard image transfer is empty", t)
  else if MAX_CLIPBOARD_IMAGE_TRANSFER_BYTES <? is_size s
  then (bail "clipboard image transfer {} bytes exceeds cap {MAX_CLIPBOARD_IMAGE_TRANSFER_BYTES}", t)
  else (Ok (), <[is_transfer_id s := mk_active (is_format s) (is_size s) [] hasher_new now]> t).

Definition chunk_inner (now : instant) (c : ClipboardImageChunk)
    (t : ClipboardImageTransfers) : res () * ClipboardImageTransfers :=
  match t !! ic_transfer_id c with
  | None => (bail "clipboard image transfer {} has no active start", t)
  | Some active =>
      let written := blen (tbytes active) in
      if U64_MAX <? written then (bail "clipboard image byte count overflow", t)
      else if negb (ic_offset c =? written)
      then (bail "clipboard image transfer {} offset {} did not match expected {}", t)
      else if U64_MAX <? blen (ic_bytes c)
      then (bail "clipboard image chunk length overflow", t)
      else
        let new_written := written + blen (ic_bytes c) in
        if U64_MAX <? new_written then (bail "clipboard image byte count overflow", t)
        else if expected_size active <? new_written
        then (bail "clipboard image transfer {} wrote {new_written} bytes, expected {}", t)
        else (Ok (), <[ic_transfer_id c :=
                mk_active (format active) (expected_size active)
                  (tbytes active ++ ic_bytes c)
                  (hasher_update (thasher active) (ic_bytes c)) now]> t)
  end.

Definition chunk (now : instant) (c : ClipboardImageChunk) (t : ClipboardImageTransfers)
    : res () * ClipboardImageTransfers :=
  let '(result, t) := chunk_inner now c t in
  if is_ok result then (result, t) else (result, delete (ic_transfer_id c) t).

Definition end_ (e : ClipboardImageEnd) (t : ClipboardImageTransfers)
    : res ClipboardImage * ClipboardImageTransfers :=
  match t !! ie_transfer_id e with
  | None => (bail "clipboard image transfer {} has no active start", t)
  | Some active =>
      let t := delete (ie_transfer_id e) t in
      let written := blen (tbytes active) in
      if U64_MAX <? written then (bail "clipboard image byte count overflow", t)
      else if negb (written =? expected_size active)
      then (bail "clipboard image transfer {} ended after {written} bytes, expected {}", t)
      else if negb (bool_decide (hasher_finalize (thasher active) = ie_sha256 e))
      then (bail "clipboard image transfer {} SHA-256 mismatch", t)
      else
        let image := mk_image (format active) (tbytes active) in
        (_ ← validate_image_magic image; Ok image, t)
  end.

Definition stale_ids (cutoff : instant) (t : ClipboardImageTransfers) : list Z :=
  (filter (λ kv, last_activity kv.2 ≤ cutoff) (map_to_list t)).*1.

Definition abort_idle_ids_before (cutoff : instant) (t : ClipboardImageTransfers)
    : list Z * ClipboardImageTransfers :=
  let ids := stale_ids cutoff t in
  (ids, foldr delete t ids).

Definition abort_idle_ids_older_than (now : instant) (max_idle : duration)
    (t : ClipboardImageTransfers) : list Z * ClipboardImageTransfers :=
  abort_idle_ids_before (default now (instant_checked_sub now max_idle)) t.
End transfers.

(** ** The invariant of the table *)

Section invariant.
Context `{Sha256Law}.

(** The announced size is within the cap, no more than that was received, and
    the hasher has seen exactly the received bytes. *)
Definition active_inv (a : ActiveClipboardImageTransfer) : Prop :=
  0 < expected_size a ≤ MAX_CLIPBOARD_IMAGE_TRANSFER_BYTES
  ∧ blen (tbytes a) ≤ expected_size a
  ∧ ∃ cs, concat cs = tbytes a ∧ thasher a = foldl hasher_update hasher_new cs.

Definition table_inv (t : ClipboardImageTransfers) : Prop :=
  map_Forall (λ _ a, active_inv a) t.

(** One operation of the table, in any order and at any time. *)
Inductive table_step (t : ClipboardImageTransfers) : ClipboardImageTransfers → Prop :=
| step_start now s : is_u64 (is_size s) → table_step t (start now s t).2
| step_chunk now c : table_step t (chunk now c t).2
| step_end e : table_step t (end_ e t).2
| step_abort now d : table_step t (abort_idle_ids_older_than now d t).2.

Definition table_reachable : ClipboardImageTransfers → Prop := rtc table_step ∅.

Lemma table_inv_delete k t : table_inv t → table_inv (delete k t).
Proof. intros Ht i a [_ Hi]%lookup_delete_Some. by apply (Ht i). Qed.

Lemma table_inv_foldr ids t : table_inv t → table_inv (foldr delete t ids).
Proof. induction ids; cbn; auto using table_inv_delete. Qed.

Lemma chunk_inner_inv now c t : table_inv t → table_inv (chunk_inner now c t).2.
Proof.
  intros Ht. unfold chunk_inner. destruct (t !! ic_transfer_id c) as [a|] eqn:Ha; [|done].
  repeat split_match; try done. bool_to_prop. cbn.
  apply map_Forall_insert_2; [|done]. destruct (Ht _ _ Ha) as (Hs & Hb & cs & Hc & Hh).
  unfold active_inv. cbn [tbytes expected_size thasher]. split; [done|split].
  - rewrite blen_app. lia.
  - exists (cs ++ [ic_bytes c]). rewrite concat_app, foldl_app, Hc, Hh. cbn.
    by rewrite app_nil_r.
Qed.

Lemma table_step_inv t t' : table_step t t' → table_inv t → table_inv t'.
Proof.
  intros Hs Ht. destruct Hs as [now s Hu|now c|e|now d].
  - unfold start. repeat split_match; try done. bool_to_prop. cbn.
    apply map_Forall_insert_2; [|done].
    unfold active_inv, in_range in *. cbn.
    split; [lia|split; [unfold blen; cbn; lia|by exists []]].
  - unfold chunk. pose proof (chunk_inner_inv now c t Ht).
    destruct (chunk_inner now c t) as [r t1]. destruct (is_ok r); [done|].
    by apply table_inv_delete.
  - unfold end_. destruct (t !! _); [|done].
    repeat split_match; cbn; by apply table_inv_delete.
  - by apply table_inv_foldr.
Qed.

Lemma table_reachable_inv t : table_reachable t → table_inv t.
Proof.
  intros Hr. unfold table_reachable in Hr.
  assert (Hi : table_inv ∅) by apply map_Forall_empty.
  revert Hi. induction Hr; eauto using table_step_inv.
Qed.

Lemma validate_image_magic_ok i u :
  validate_image_magic i = Ok u →
  blen (img_bytes i) ≠ 0 ∧ magic_ok (img_format i) (img_bytes i) = true.
Proof.
  unfold validate_image_magic. intros Hv. split_match_in Hv; invert_ok. by bool_to_prop.
Qed.

(** Nothing unverified leaves the transfer table: whatever interleaving of
    starts, chunks, ends and idle sweeps of any number of transfers led to the
    table, an [end] that returns an image closes an open transfer, and the
    image has exactly the announced size (1 byte to 64 MiB) and format, its
    SHA-256 is the digest the sender gave, and its magic bytes match its
    format; all other transfers are untouched. *)
Theorem end_ok_verified t e image t' :
  table_reachable t → end_ e t = (Ok image, t') →
  ∃ a, t !! ie_transfer_id e = Some a
    ∧ img_format image = format a ∧ blen (img_bytes image) = expected_size a
    ∧ 0 < blen (img_bytes image) ≤ MAX_CLIPBOARD_IMAGE_TRANSFER_BYTES
    ∧ sha256 (img_bytes image) = ie_sha256 e
    ∧ magic_ok (img_format image) (img_bytes image) = true
    ∧ t' = delete (ie_transfer_id e) t.
Proof.
  intros Hr%table_reachable_inv He. unfold end_ in He.
  destruct (t !! ie_transfer_id e) as [a|] eqn:Ha; [|done]. exists a. split; [done|].
  destruct (Hr _ _ Ha) as (Hs & Hb & cs & Hc & Hh).
  repeat (split_match_in He; [done|]). apply pair_equal_spec in He as [He <-].
  invert_ok. bool_to_prop. subst image.
  match goal with Hv : validate_image_magic _ = _ |- _ =>
    apply validate_image_magic_ok in Hv as [_ Hm] end.
  cbn [img_format img_bytes] in *. rewrite Hh, finalize_chunks, Hc in *.
  split_and!; try done; lia.
Qed.
End invariant.

(** ** Concrete runs *)

(** A stand-in hasher that satisfies the law: the first 32 bytes, padded. *)
Module SampleHash.
#[export] Instance sample_sha256 : Sha256 := {
  hasher := bytes;
  hasher_new := [];
  hasher_update h bs := h ++ bs;
  hasher_finalize h := take 32 (h ++ replicate 32 x00);
}.
#[export] Instance sample_sha256_law : Sha256Law.
Proof.
  split.
  - intros cs. unfold sha256. cbn. do 2 f_equal.
    assert (Hf : ∀ acc, foldl app acc cs = acc ++ concat cs); [|by rewrite Hf].
    induction cs as [|c cs IH]; intros acc; cbn; [by rewrite app_nil_r|].
    by rewrite IH, <-app_assoc.
  - intros h. change (length (take 32 (h ++ replicate 32 x00)) = 32%nat).
    rewrite length_take, length_app, length_replicate. lia.
Qed.
End SampleHash.

Section table_witness.
Import SampleHash.

Definition png_magic : bytes := [x89; x50; x4e; x47; x0d; x0a; x1a; x0a].
Definition sample_image : ClipboardImage := mk_image ClipboardImageFormat.Png png_magic.

Definition table_1 : ClipboardImageTransfers :=
  (start 0 (mk_img_start 7 ClipboardImageFormat.Png 8) ∅).2.
Definition table_2 : ClipboardImageTransfers :=
  (chunk 0 (mk_img_chunk 7 0 png_magic) table_1).2.

Lemma table_2_reachable : table_reachable table_2.
Proof.
  apply (rtc_l _ _ table_1); [apply step_start; cbn; range_lia|].
  apply rtc_once, step_chunk.
Qed.

Lemma end_ok_verified_witness :
  ∃ image t', end_ (mk_img_end 7 (hasher_finalize png_magic)) table_2 = (Ok image, t')
    ∧ sha256 (img_bytes image) = hasher_finalize png_magic.
Proof.
  exists sample_image, ∅.
  assert (He : end_ (mk_img_end 7 (hasher_finalize png_magic)) table_2 = (Ok sample_image, ∅))
    by (vm_compute; reflexivity).
  split; [exact He|].
  destruct (end_ok_verified table_2 _ _ _ table_2_reachable He) as (a & H).
  apply H.
Defined.
End table_witness.
