(* ===== verification/ClipboardControl.v ===== *)
(** * Clipboard images over the attach control channel

    The host turns an image into control requests
    ([write_clipboard_image_frames] of [jackin-runtime-host-attach]); the
    capsule's socket reader drops the legacy forms of those frames
    ([attach_protocol/client.rs]) and hands the rest to [handle_attach_control]
    ([daemon/control/frames.rs]), which answers each request, and the state tick
    ([daemon/state_tick.rs]) sweeps idle transfers.

    The answer channel and the calls into other parts of the multiplexer are
    the [effect]s a handler returns.  [uuid::Uuid::parse_str] is a parameter. *)

From stdpp Require Import base list gmap strings.
From Stdlib Require Import ZArith Lia Strings.Byte.
From S2P Require Import Prelude AgentEvidence AttachTypes AttachCodec AttachProofs Clipboard.

(** ** The host side *)

Section host.
Context `{Sha256}.

(** The loop over [image.bytes.chunks(..)]: the operations written, in order,
    and how the loop ended.  A chunk is written before its length is added. *)
Fixpoint send_chunks (transfer_id offset : Z) (cs : list bytes)
    : list AttachControlOperation.t * res () :=
  match cs with
  | [] => ([], Ok ())
  | c :: cs' =>
      let op := AttachControlOperation.ClipboardImageChunk (mk_img_chunk transfer_id offset c) in
      if U64_MAX <? blen c then ([op], bail "clipboard image chunk overflow")
      else if U64_MAX <? offset + blen c then ([op], bail "clipboard image offset overflow")
      else let '(ops, r) := send_chunks transfer_id (offset + blen c) cs' in (op :: ops, r)
  end.

Definition write_clipboard_image_frames (transfer_id : Z) (image : ClipboardImage)
    : list AttachControlOperation.t * res () :=
  let size := blen (img_bytes image) in
  if size <=? MAX_CONTEXTUAL_CLIPBOARD_IMAGE_BYTES
  then ([AttachControlOperation.ClipboardImage image], Ok ())
  else if U64_MAX <? size then ([], bail "clipboard image length overflow")
  else
    let begin := AttachControlOperation.ClipboardImageStart
                   (mk_img_start transfer_id (img_format image) size) in
    let cs := chunks (Z.to_nat MAX_CLIPBOARD_IMAGE_CHUNK_BYTES) (img_bytes image) in
    let '(ops, r) := send_chunks transfer_id 0 cs in
    match r with
    | Ok _ =>
        let digest := hasher_finalize (foldl hasher_update hasher_new cs) in
        (begin :: ops ++ [AttachControlOperation.ClipboardImageEnd
                            (mk_img_end transfer_id digest)], Ok ())
    | _ => (begin :: ops, r)
    end.
End host.

(** ** The capsule side *)

Module InsertMode.
Inductive t := PastePath | StageOnly.
End InsertMode.

Record PendingAttachControl := mk_pending_control {
  pend_request_id : Z;
  pend_context : TelemetryContext;
}.

(** The part of [ClipboardState] and of the client registry that the control
    channel works on; selections, notices and deadlines are display state. *)
Section state.
Context `{Sha256}.
Record ControlState := mk_control {
  transfers : ClipboardImageTransfers;
  insert_mode : InsertMode.t;
  pending : gmap Z PendingAttachControl;
  detach_requested : bool;
}.
End state.

(** What a handler does besides changing its state. *)
Inductive effect :=
| Respond (r : AttachControlResponse)
| Stage (i : ClipboardImage) (staged : bool)
| Delegate (f : ClientFrame.t).

(** [propagation::extract] rejects a request on its version or product ids. *)
Definition VERSION : Z := 1.

Section capsule.
Context `{Sha256}.
Context (uuid_parses : string → bool).

Definition valid_product_ids (c : TelemetryContext) : bool :=
  let uuid o := match o with None => true | Some s => uuid_parses s end in
  let session := match session_id c with
                 | None => true
                 | Some s => negb (str_eqb s "") && (str_len s <=? 64)
                 end in
  uuid (invocation_id c) && uuid (job_id c) && session.

Definition extract_rejects (c : TelemetryContext) : bool :=
  negb (v c =? VERSION) || negb (valid_product_ids c).

Definition respond (id : Z) (r : AttachControlResult.t) : effect := Respond (mk_response id r).

Definition outcome_of (b : bool) : AttachControlResult.t :=
  if b then AttachControlResult.Success else AttachControlResult.Rejected.

(** [stage_clipboard_image_response]: the insert mode is taken (reset) and the
    image staged; the notice and the paste into the focused pane are not state
    of this component. *)
Definition stage_clipboard_image_response (io : stage_io) (i : ClipboardImage)
    (st : ControlState) : bool * effect * ControlState :=
  let staged := is_ok (stage_clipboard_image io i) in
  (staged, Stage i staged,
   mk_control (transfers st) InsertMode.PastePath (pending st) (detach_requested st)).

Definition set_transfers (t : ClipboardImageTransfers) (st : ControlState) : ControlState :=
  mk_control t (insert_mode st) (pending st) (detach_requested st).
Definition set_pending (p : gmap Z PendingAttachControl) (st : ControlState) : ControlState :=
  mk_control (transfers st) (insert_mode st) p (detach_requested st).
Definition reset_insert_mode (st : ControlState) : ControlState :=
  mk_control (transfers st) InsertMode.PastePath (pending st) (detach_requested st).

(** A chunk or an end must carry the request id and context of its start. *)
Definition correlates (p : PendingAttachControl) (r : AttachControlRequest) : bool :=
  (pend_request_id p =? req_request_id r) && bool_decide (pend_context p = req_context r).

(** [handle_pending_clipboard_transfer]: [None] is the source's [false]. *)
Definition handle_pending_clipboard_transfer (io : stage_io) (now : instant)
    (r : AttachControlRequest) (st : ControlState) : option (list effect * ControlState) :=
  let reject := Some ([respond (req_request_id r) AttachControlResult.Rejected], st) in
  match req_operation r with
  | AttachControlOperation.ClipboardImageChunk c =>
      match pending st !! ic_transfer_id c with
      | None => reject
      | Some p =>
          if negb (correlates p r) then reject
          else
            let '(result, t) := chunk now c (transfers st) in
            let st := set_transfers t st in
            if is_ok result then Some ([], st)
            else Some ([respond (pend_request_id p) AttachControlResult.Rejected],
                       set_pending (delete (ic_transfer_id c) (pending st)) st)
      end
  | AttachControlOperation.ClipboardImageEnd e =>
      match pending st !! ie_transfer_id e with
      | None => reject
      | Some p =>
          if negb (correlates p r) then reject
          else
            let st := set_pending (delete (ie_transfer_id e) (pending st)) st in
            let '(result, t) := end_ e (transfers st) in
            let st := set_transfers t st in
            match result with
            | Ok image =>
                let '(staged, eff, st) := stage_clipboard_image_response io image st in
                Some ([eff; respond (pend_request_id p) (outcome_of staged)], st)
            | _ => Some ([respond (pend_request_id p) AttachControlResult.Rejected], st)
            end
      end
  | _ => None
  end.

(** [handle_attach_control]; the [unreachable!()] arm is [Panic]. *)
Definition handle_attach_control (io : stage_io) (now : instant)
    (r : AttachControlRequest) (st : ControlState) : res (list effect * ControlState) :=
  let id := req_request_id r in
  if extract_rejects (req_context r)
  then Ok ([respond id AttachControlResult.InvalidCorrelation], st)
  else match handle_pending_clipboard_transfer io now r st with
  | Some out => Ok out
  | None =>
  match req_operation r with
  | AttachControlOperation.Detach =>
      Ok ([respond id AttachControlResult.Success],
          mk_control (transfers st) (insert_mode st) (pending st) true)
  | AttachControlOperation.FocusIn =>
      Ok ([Delegate ClientFrame.FocusIn; respond id AttachControlResult.Success], st)
  | AttachControlOperation.FocusOut =>
      Ok ([Delegate ClientFrame.FocusOut; respond id AttachControlResult.Success], st)
  | AttachControlOperation.ClipboardImage image =>
      let '(staged, eff, st) := stage_clipboard_image_response io image st in
      Ok ([eff; respond id (outcome_of staged)], st)
  | AttachControlOperation.ClipboardImageStart s =>
      let '(result, t) := start now s (transfers st) in
      let st := set_transfers t st in
      if is_ok result
      then Ok ([], set_pending (<[is_transfer_id s :=
                      mk_pending_control id (req_context r)]> (pending st)) st)
      else Ok ([respond id AttachControlResult.Rejected], st)
  | AttachControlOperation.ClipboardImageError e =>
      Ok ([Delegate (ClientFrame.ClipboardImageError e);
           respond id AttachControlResult.Rejected], reset_insert_mode st)
  | AttachControlOperation.ClipboardImageChunk _
  | AttachControlOperation.ClipboardImageEnd _ => Panic
  end end.

(** The answers of the idle sweep, and the pending map without the swept ids. *)
Fixpoint sweep_pending (ids : list Z) (p : gmap Z PendingAttachControl)
    : list effect * gmap Z PendingAttachControl :=
  match ids with
  | [] => ([], p)
  | id :: ids' =>
      let '(effs, p') := sweep_pending ids' (delete id p) in
      match p !! id with
      | Some pend => (respond (pend_request_id pend) AttachControlResult.Rejected :: effs, p')
      | None => (effs, p')
      end
  end.

(** The clipboard part of [handle_state_tick]. *)
Definition state_tick (now : instant) (st : ControlState) : list effect * ControlState :=
  let '(ids, t) := abort_idle_ids_older_than now CLIPBOARD_IMAGE_TRANSFER_IDLE_TIMEOUT
                     (transfers st) in
  let '(effs, p) := sweep_pending ids (pending st) in
  let st := set_pending p (set_transfers t st) in
  (effs, match ids with [] => st | _ => reset_insert_mode st end).

(** The socket reader drops the legacy forms of the control operations. *)
Definition dropped_by_reader (f : ClientFrame.t) : bool :=
  match f with
  | ClientFrame.Detach | ClientFrame.FocusIn | ClientFrame.FocusOut
  | ClientFrame.ClipboardImage _ | ClientFrame.ClipboardImageStart _
  | ClientFrame.ClipboardImageChunk _ | ClientFrame.ClipboardImageEnd _
  | ClientFrame.ClipboardImageError _ => true
  | _ => false
  end.

(** A frame off the socket as the clipboard component sees it: [handle_client_frame]
    passes control requests on; frames of other components are delegated. *)
Definition on_frame (io : stage_io) (now : instant) (f : ClientFrame.t) (st : ControlState)
    : res (list effect * ControlState) :=
  if dropped_by_reader f then Ok ([], st)
  else match f with
  | ClientFrame.AttachControl r => handle_attach_control io now r st
  | f => Ok ([Delegate f], st)
  end.
End capsule.

(** ** Runs of the control channel *)

Section runs.
Context `{Sha256Law}.
Context (uuid_parses : string → bool).

Abbreviation handle := (handle_attach_control uuid_parses).

(** Requests arriving at given times, with the effects in order. *)
Fixpoint run_requests (io : stage_io) (reqs : list (instant * AttachControlRequest))
    (st : ControlState) : res (list effect * ControlState) :=
  match reqs with
  | [] => Ok ([], st)
  | (now, r) :: reqs' =>
      '(e1, st) ← handle io now r st;
      '(e2, st) ← run_requests io reqs' st;
      Ok (e1 ++ e2, st)
  end.

Definition initial_state : ControlState := mk_control ∅ InsertMode.PastePath ∅ false.

Inductive control_step (st : ControlState) : ControlState → Prop :=
| step_frame io now f effs st' :
    (∀ r s, f = ClientFrame.AttachControl r →
       req_operation r = AttachControlOperation.ClipboardImageStart s → is_u64 (is_size s)) →
    on_frame uuid_parses io now f st = Ok (effs, st') → control_step st st'
| step_tick now : control_step st (state_tick now st).2
| step_mode m : control_step st
    (mk_control (transfers st) m (pending st) (detach_requested st)).

Definition control_reachable : ControlState → Prop := rtc control_step initial_state.

(** Every open transfer has the request that opened it, and conversely. *)
Definition control_inv (st : ControlState) : Prop :=
  table_inv (transfers st) ∧ ∀ id, is_Some (transfers st !! id) ↔ is_Some (pending st !! id).

Lemma chunk_inner_result now c t :
  (is_ok (chunk_inner now c t).1 = true ∧ ∃ a a', t !! ic_transfer_id c = Some a
     ∧ (chunk_inner now c t).2 = <[ic_transfer_id c := a']> t)
  ∨ (is_ok (chunk_inner now c t).1 = false ∧ (chunk_inner now c t).2 = t).
Proof.
  unfold chunk_inner. destruct (t !! ic_transfer_id c) as [a|] eqn:Ha; [|by right].
  repeat split_match; try (by right). left. by eauto.
Qed.

Lemma chunk_result now c t :
  (is_ok (chunk now c t).1 = true ∧ ∃ a a', t !! ic_transfer_id c = Some a
     ∧ (chunk now c t).2 = <[ic_transfer_id c := a']> t)
  ∨ (is_ok (chunk now c t).1 = false ∧ (chunk now c t).2 = delete (ic_transfer_id c) t).
Proof.
  unfold chunk. destruct (chunk_inner_result now c t) as [[Hok Hs]|[Hok Hs]];
    destruct (chunk_inner now c t) as [r t']; cbn in *; rewrite Hok; [by left|].
  right. by subst t'.
Qed.

Lemma end_result e t :
  (end_ e t).2 = delete (ie_transfer_id e) t.
Proof.
  unfold end_. destruct (t !! ie_transfer_id e) as [a|] eqn:Ha.
  - by repeat split_match.
  - by rewrite delete_id.
Qed.

Lemma start_result now s t :
  (is_ok (start now s t).1 = true ∧ t !! is_transfer_id s = None
     ∧ ∃ a, (start now s t).2 = <[is_transfer_id s := a]> t)
  ∨ (is_ok (start now s t).1 = false ∧ (start now s t).2 = t).
Proof.
  unfold start. case_bool_decide as Hs; [by right|].
  repeat split_match; try (by right). left. split_and!; [done|by apply eq_None_not_Some|].
  by eauto.
Qed.

(** The key sets of two maps stay equal under the same insert or delete. *)
Lemma same_keys_insert {A B} (m : gmap Z A) (p : gmap Z B) k a b :
  (∀ id, is_Some (m !! id) ↔ is_Some (p !! id)) →
  ∀ id, is_Some (<[k := a]> m !! id) ↔ is_Some (<[k := b]> p !! id).
Proof. intros Hk id. rewrite !lookup_insert_is_Some'. specialize (Hk id). tauto. Qed.

Lemma same_keys_delete {A B} (m : gmap Z A) (p : gmap Z B) k :
  (∀ id, is_Some (m !! id) ↔ is_Some (p !! id)) →
  ∀ id, is_Some (delete k m !! id) ↔ is_Some (delete k p !! id).
Proof. intros Hk id. rewrite !lookup_delete_is_Some. specialize (Hk id). tauto. Qed.

Lemma same_keys_overwrite {A B} (m : gmap Z A) (p : gmap Z B) k a :
  is_Some (m !! k) → (∀ id, is_Some (m !! id) ↔ is_Some (p !! id)) →
  ∀ id, is_Some (<[k := a]> m !! id) ↔ is_Some (p !! id).
Proof.
  intros Hm Hk id. rewrite lookup_insert_is_Some'. specialize (Hk id).
  split; [|tauto]. intros [<-|?]; [tauto|tauto].
Qed.

Lemma handle_pending_inv io now r st :
  control_inv st →
  match handle_pending_clipboard_transfer io now r st with
  | Some (_, st') => control_inv st'
  | None => ∀ c e, req_operation r ≠ AttachControlOperation.ClipboardImageChunk c
              ∧ req_operation r ≠ AttachControlOperation.ClipboardImageEnd e
  end.
Proof.
  intros [Ht Hk]. unfold handle_pending_clipboard_transfer.
  destruct (req_operation r) as [| | |i|s|c|e|e]; try (by intros; split).
  - destruct (pending st !! ic_transfer_id c) as [p|] eqn:Hp; [|done].
    destruct (negb _); [done|].
    pose proof (table_step_inv _ _ (step_chunk (transfers st) now c) Ht) as Hi.
    destruct (chunk_result now c (transfers st)) as [(Hok & a & a' & Ha & Hs)|[Hok Hs]];
      destruct (chunk now c (transfers st)) as [res t]; cbn in *; rewrite Hok; subst t.
    + split; [done|]. by apply same_keys_overwrite; [eexists|].
    + split; [done|]. by apply same_keys_delete.
  - destruct (pending st !! ie_transfer_id e) as [p|] eqn:Hp; [|done].
    destruct (negb _); [done|].
    pose proof (table_step_inv _ _ (step_end (transfers st) e) Ht) as Hi.
    pose proof (end_result e (transfers st)) as Hs. cbn [transfers set_pending].
    destruct (end_ e (transfers st)) as [res t]. cbn in Hi, Hs. subst t.
    destruct res; (split; [done|]); by apply same_keys_delete.
Qed.

Lemma handle_inv io now r st :
  (∀ s, req_operation r = AttachControlOperation.ClipboardImageStart s → is_u64 (is_size s)) →
  control_inv st →
  ∃ effs st', handle io now r st = Ok (effs, st') ∧ control_inv st'.
Proof.
  intros Hu Hinv. unfold handle_attach_control. destruct (extract_rejects _ _); [by eauto|].
  pose proof (handle_pending_inv io now r st Hinv) as Hp.
  destruct (handle_pending_clipboard_transfer io now r st) as [[effs st']|]; [by eauto|].
  destruct (req_operation r) as [| | |i|s|c|e|e] eqn:Hop; try (by eauto).
  - destruct Hinv as [Ht Hk].
    pose proof (table_step_inv _ _ (step_start (transfers st) now s (Hu s eq_refl)) Ht) as Hi.
    destruct (start_result now s (transfers st)) as [(Hok & Hn & a & Hs)|[Hok Hs]];
      destruct (start now s (transfers st)) as [res t]; cbn in *; rewrite Hok; subst t;
      eexists _, _; (split; [done|]); (split; [done|]); [|done].
    by apply same_keys_insert.
  - by destruct (Hp c (mk_img_end 0 [])).
  - by destruct (Hp (mk_img_chunk 0 0 []) e).
Qed.

(** ** The idle sweep *)

Lemma sweep_pending_lookup ids p id :
  (sweep_pending ids p).2 !! id = if bool_decide (id ∈ ids) then None else p !! id.
Proof.
  revert p. induction ids as [|x ids IH]; intros p; [done|]. cbn.
  specialize (IH (delete x p)).
  destruct (sweep_pending ids (delete x p)) as [effs p'] eqn:E. cbn in IH.
  transitivity (p' !! id); [by destruct (p !! x)|]. rewrite IH.
  destruct (decide (x = id)) as [<-|Hne].
  - rewrite lookup_delete_eq, (bool_decide_eq_true_2 (_ ∈ _ :: _)) by set_solver.
    by case_bool_decide.
  - rewrite lookup_delete_ne by done.
    by rewrite (bool_decide_ext (id ∈ ids) (id ∈ x :: ids)) by set_solver.
Qed.

Lemma sweep_pending_answers ids p id pend :
  id ∈ ids → p !! id = Some pend →
  respond (pend_request_id pend) AttachControlResult.Rejected ∈ (sweep_pending ids p).1.
Proof.
  revert p. induction ids as [|x ids IH]; intros p Hin Hp; [by apply not_elem_of_nil in Hin|].
  cbn. specialize (IH (delete x p)).
  destruct (sweep_pending ids (delete x p)) as [effs p'] eqn:E. cbn in IH.
  destruct (decide (x = id)) as [->|Hne].
  - rewrite Hp. by left.
  - rewrite lookup_delete_ne in IH by done.
    assert (Hx : respond (pend_request_id pend) AttachControlResult.Rejected ∈ effs)
      by (apply IH; set_solver).
    destruct (p !! x); [by right|done].
Qed.

Lemma foldr_delete_lookup {A} (t : gmap Z A) ids id :
  foldr delete t ids !! id = if bool_decide (id ∈ ids) then None else t !! id.
Proof.
  induction ids as [|x ids IH]; [done|]. cbn. destruct (decide (x = id)) as [<-|Hne].
  - by rewrite lookup_delete_eq, bool_decide_eq_true_2 by set_solver.
  - rewrite lookup_delete_ne, IH by done.
    by rewrite (bool_decide_ext (id ∈ ids) (id ∈ x :: ids)) by set_solver.
Qed.

Lemma elem_of_stale_ids cutoff t id :
  id ∈ stale_ids cutoff t ↔ ∃ a, t !! id = Some a ∧ last_activity a ≤ cutoff.
Proof.
  unfold stale_ids. rewrite list_elem_of_fmap. split.
  - intros ([k a] & -> & [Hc Hin]%list_elem_of_filter). apply elem_of_map_to_list in Hin.
    by exists a.
  - intros (a & Ha & Hc). exists (id, a). split; [done|].
    apply list_elem_of_filter. split; [done|]. by apply elem_of_map_to_list.
Qed.

Lemma state_tick_eq now st :
  let cutoff := default now (instant_checked_sub now CLIPBOARD_IMAGE_TRANSFER_IDLE_TIMEOUT) in
  let ids := stale_ids cutoff (transfers st) in
  (state_tick now st).1 = (sweep_pending ids (pending st)).1
  ∧ transfers (state_tick now st).2 = foldr delete (transfers st) ids
  ∧ pending (state_tick now st).2 = (sweep_pending ids (pending st)).2.
Proof.
  intros cutoff ids. unfold state_tick, abort_idle_ids_older_than, abort_idle_ids_before.
  fold cutoff. fold ids. destruct (sweep_pending ids (pending st)) as [effs p].
  by destruct ids.
Qed.

Lemma tick_inv now st : control_inv st → control_inv (state_tick now st).2.
Proof.
  intros [Ht Hk]. destruct (state_tick_eq now st) as (_ & E1 & E2). split.
  - rewrite E1. by apply table_inv_foldr.
  - intros id. rewrite E1, E2, foldr_delete_lookup, sweep_pending_lookup.
    case_bool_decide; [|apply Hk]. by split; intros [? ?].
Qed.

Lemma control_step_inv st st' : control_step st st' → control_inv st → control_inv st'.
Proof.
  intros Hs Hinv. destruct Hs as [io now f effs st' Hu Hf|now|m]; [|by apply tick_inv|done].
  unfold on_frame in Hf. destruct (dropped_by_reader f); [by injection Hf as <- <-|].
  destruct f; try (by injection Hf as <- <-).
  destruct (handle_inv io now r st) as (effs' & st'' & He & Hi); [|done|].
  - intros s Hs. by eapply Hu.
  - rewrite He in Hf. by injection Hf as <- <-.
Qed.

Lemma control_reachable_inv st : control_reachable st → control_inv st.
Proof.
  intros Hr. unfold control_reachable in Hr.
  assert (Hi : control_inv initial_state).
  { split; [apply map_Forall_empty|]. intros id. cbn. rewrite !lookup_empty.
    by split; intros [? ?]. }
  revert Hi. induction Hr; eauto using control_step_inv.
Qed.

(** C26: Requests and transfers never come apart: after any sequence of frames
    off the socket, ticks and mode changes, an image transfer is open exactly
    when the request that opened it still awaits its answer, every open
    transfer is within its announced size, and the handler accepts any further
    frame without reaching its [unreachable!()] arm. *)
Theorem control_channel_invariant st :
  control_reachable st →
  control_inv st
  ∧ ∀ io now f,
      (∀ r s, f = ClientFrame.AttachControl r →
         req_operation r = AttachControlOperation.ClipboardImageStart s → is_u64 (is_size s)) →
      ∃ effs st', on_frame uuid_parses io now f st = Ok (effs, st').
Proof.
  intros Hinv%control_reachable_inv. split; [done|]. intros io now f Hu.
  unfold on_frame. destruct (dropped_by_reader f); [by eauto|].
  destruct f; try (by eauto).
  destruct (handle_inv io now r st) as (effs & st' & He & _); [|done|by eauto].
  intros s Hs. by eapply Hu.
Qed.

(** No image request is left hanging: a tick closes exactly the transfers
    that saw no activity for five minutes, answers [Rejected] to the request
    of each of them, and leaves every other transfer and request alone. *)
Theorem tick_answers_idle_requests st now :
  control_reachable st →
  INSTANT_MIN ≤ now - CLIPBOARD_IMAGE_TRANSFER_IDLE_TIMEOUT →
  ∀ id a, transfers st !! id = Some a →
  if bool_decide (last_activity a ≤ now - CLIPBOARD_IMAGE_TRANSFER_IDLE_TIMEOUT)
  then transfers (state_tick now st).2 !! id = None
       ∧ pending (state_tick now st).2 !! id = None
       ∧ ∃ p, pending st !! id = Some p
           ∧ respond (pend_request_id p) AttachControlResult.Rejected ∈ (state_tick now st).1
  else transfers (state_tick now st).2 !! id = Some a
       ∧ pending (state_tick now st).2 !! id = pending st !! id.
Proof.
  intros [Ht Hk]%control_reachable_inv Hmin id a Ha.
  destruct (state_tick_eq now st) as (E0 & E1 & E2).
  assert (Hc : instant_checked_sub now CLIPBOARD_IMAGE_TRANSFER_IDLE_TIMEOUT
               = Some (now - CLIPBOARD_IMAGE_TRANSFER_IDLE_TIMEOUT)).
  { unfold instant_checked_sub. by rewrite (proj2 (Z.ltb_ge _ _)). }
  rewrite Hc in E0, E1, E2. cbn [default from_option] in E0, E1, E2.
  rewrite E0, E1, E2, foldr_delete_lookup, sweep_pending_lookup.
  rewrite (bool_decide_ext (id ∈ stale_ids _ _)
             (last_activity a ≤ now - CLIPBOARD_IMAGE_TRANSFER_IDLE_TIMEOUT)).
  2:{ rewrite elem_of_stale_ids, Ha. naive_solver. }
  case_bool_decide as Hold; [|done]. split_and!; [done..|].
  destruct (proj1 (Hk id)) as [p Hp]; [by eexists|]. exists p. split; [done|].
  apply (sweep_pending_answers _ _ id); [|done]. apply elem_of_stale_ids. by exists a.
Qed.
End runs.

(** ** Delivery of an image *)

Section delivery.
Context `{Sha256Law}.
Context (uuid_parses : string → bool).
Context (io : stage_io) (id tid : Z) (ctx : TelemetryContext).
Context (Hctx : extract_rejects uuid_parses ctx = false).

Abbreviation run := (run_requests uuid_parses io).
Abbreviation request := (mk_request id ctx).

Lemma correlates_self op : correlates (mk_pending_control id ctx) (request op) = true.
Proof. unfold correlates. cbn. by rewrite Z.eqb_refl, bool_decide_eq_true_2. Qed.

Lemma handle_chunk now off bs st t0 fmt size received h last :
  pending st !! tid = Some (mk_pending_control id ctx) →
  transfers st = <[tid := mk_active fmt size received h last]> t0 →
  off = blen received → blen received + blen bs ≤ size → size ≤ U64_MAX →
  handle_attach_control uuid_parses io now
    (request (AttachControlOperation.ClipboardImageChunk (mk_img_chunk tid off bs))) st
  = Ok ([], set_transfers
              (<[tid := mk_active fmt size (received ++ bs) (hasher_update h bs) now]> t0) st).
Proof.
  intros Hp Ht -> Hle Hu. unfold handle_attach_control. cbn [req_context]. rewrite Hctx.
  unfold handle_pending_clipboard_transfer. cbn [req_operation ic_transfer_id].
  rewrite Hp, correlates_self. cbn [negb]. unfold chunk, chunk_inner.
  cbn [ic_transfer_id ic_offset ic_bytes]. rewrite Ht, lookup_insert_eq.
  cbn [tbytes expected_size format thasher].
  pose proof (blen_nonneg received). pose proof (blen_nonneg bs).
  rewrite !(proj2 (Z.ltb_ge _ _)), Z.eqb_refl by lia. cbn [negb is_ok].
  by rewrite insert_insert_eq.
Qed.

Lemma run_chunks cs :
  ∀ reqs off st t0 fmt size received h last,
  pending st !! tid = Some (mk_pending_control id ctx) →
  transfers st = <[tid := mk_active fmt size received h last]> t0 →
  off = blen received → blen received + blen (concat cs) ≤ size → size ≤ U64_MAX →
  (send_chunks tid off cs).2 = Ok ()
  ∧ (reqs.*2 = request <$> (send_chunks tid off cs).1 →
     ∃ last', run reqs st = Ok ([], set_transfers
       (<[tid := mk_active fmt size (received ++ concat cs)
                   (foldl hasher_update h cs) last']> t0) st)).
Proof.
  induction cs as [|c cs IH]; intros reqs off st t0 fmt size received h last Hp Ht -> Hle Hu.
  { split; [done|]. intros Hr. apply fmap_nil_inv in Hr as ->. exists last.
    cbn. rewrite app_nil_r, <-Ht. by destruct st. }
  cbn [concat] in *. rewrite blen_app in Hle.
  pose proof (blen_nonneg received). pose proof (blen_nonneg c). pose proof (blen_nonneg (concat cs)).
  cbn [send_chunks]. rewrite !(proj2 (Z.ltb_ge _ _)) by lia.
  destruct (IH (tail reqs) (blen received + blen c)
    (set_transfers (<[tid := mk_active fmt size (received ++ c) (hasher_update h c)
       (default 0 (fst <$> head reqs))]> t0) st) t0 fmt size (received ++ c)
       (hasher_update h c) (default 0 (fst <$> head reqs))) as [IH1 IH2];
    [done|done|by rewrite blen_app|rewrite blen_app; lia|done|].
  destruct (send_chunks tid (blen received + blen c) cs) as [ops r]. cbn in IH1, IH2.
  split; [done|]. cbn. intros Hr.
  destruct reqs as [|[now rq] reqs]; [discriminate|]. cbn in *. injection Hr as -> Hr.
  destruct (IH2 Hr) as [last' Hrun]. exists last'.
  rewrite (handle_chunk now (blen received) c st t0 fmt size received h last) by (done || lia).
  rewrite res_bind_Ok. cbv beta iota. rewrite Hrun, res_bind_Ok. cbv beta iota.
  cbn. by rewrite <-app_assoc.
Qed.

Lemma run_app r1 r2 st effs1 st1 effs2 st2 :
  run r1 st = Ok (effs1, st1) → run r2 st1 = Ok (effs2, st2) →
  run (r1 ++ r2) st = Ok (effs1 ++ effs2, st2).
Proof.
  revert st effs1. induction r1 as [|[now r] r1 IH]; intros st effs1 H1 H2.
  { cbn in H1. by injection H1 as <- <-. }
  cbn in *. apply bind_ok in H1 as ([e st'] & He & H1). rewrite He, res_bind_Ok. cbv beta iota.
  apply bind_ok in H1 as ([e' st''] & He' & H1). injection H1 as <- <-.
  rewrite (IH _ _ He' H2), res_bind_Ok. by rewrite app_assoc.
Qed.

Lemma handle_start now fmt size st :
  transfers st !! tid = None → 0 < size ≤ MAX_CLIPBOARD_IMAGE_TRANSFER_BYTES →
  handle_attach_control uuid_parses io now
    (request (AttachControlOperation.ClipboardImageStart (mk_img_start tid fmt size))) st
  = Ok ([], set_pending (<[tid := mk_pending_control id ctx]> (pending st))
              (set_transfers (<[tid := mk_active fmt size [] hasher_new now]> (transfers st)) st)).
Proof.
  intros Hn Hs. unfold handle_attach_control. cbn [req_context]. rewrite Hctx.
  cbn [handle_pending_clipboard_transfer req_operation]. unfold start.
  cbn [is_transfer_id is_size is_format].
  rewrite bool_decide_eq_false_2 by (rewrite Hn; by intros [? ?]).
  rewrite (proj2 (Z.eqb_neq _ _)), (proj2 (Z.ltb_ge _ _)) by lia. done.
Qed.

Abbreviation staged image := (is_ok (stage_clipboard_image io image)).

Lemma handle_end now image h last st t0 p0 :
  pending st = <[tid := mk_pending_control id ctx]> p0 → p0 !! tid = None →
  transfers st = <[tid := mk_active (img_format image) (blen (img_bytes image))
                            (img_bytes image) h last]> t0 → t0 !! tid = None →
  blen (img_bytes image) ≤ U64_MAX → validate_image_magic image = Ok () →
  handle_attach_control uuid_parses io now
    (request (AttachControlOperation.ClipboardImageEnd (mk_img_end tid (hasher_finalize h)))) st
  = Ok ([Stage image (staged image); respond id (outcome_of (staged image))],
        mk_control t0 InsertMode.PastePath p0 (detach_requested st)).
Proof.
  intros Hp Hp0 Ht Ht0 Hu Hv. unfold handle_attach_control. cbn [req_context]. rewrite Hctx.
  unfold handle_pending_clipboard_transfer. cbn [req_operation ie_transfer_id].
  rewrite Hp, lookup_insert_eq, correlates_self. cbn [negb].
  unfold end_. cbn [ie_transfer_id ie_sha256 transfers set_pending].
  rewrite Ht, lookup_insert_eq. cbn [tbytes expected_size format thasher].
  rewrite (proj2 (Z.ltb_ge _ _)), Z.eqb_refl by done. cbn [negb].
  rewrite bool_decide_eq_true_2 by done. cbn [negb].
  replace (mk_image (img_format image) (img_bytes image)) with image by by destruct image.
  rewrite Hv, res_bind_Ok. unfold stage_clipboard_image_response.
  cbn. by rewrite !delete_insert_id.
Qed.

(** The chunked form, for any chunking of the bytes. *)
Lemma run_transfer image st cs now reqs now' :
  validate_image_magic image = Ok () → concat cs = img_bytes image →
  0 < blen (img_bytes image) ≤ MAX_CLIPBOARD_IMAGE_TRANSFER_BYTES →
  transfers st !! tid = None → pending st !! tid = None →
  (send_chunks tid 0 cs).2 = Ok ()
  ∧ (reqs.*2 = request <$> (send_chunks tid 0 cs).1 →
     run ((now, request (AttachControlOperation.ClipboardImageStart
                  (mk_img_start tid (img_format image) (blen (img_bytes image)))))
          :: reqs ++ [(now', request (AttachControlOperation.ClipboardImageEnd
               (mk_img_end tid (hasher_finalize (foldl hasher_update hasher_new cs)))))]) st
     = Ok ([Stage image (staged image); respond id (outcome_of (staged image))],
           reset_insert_mode st)).
Proof.
  intros Hst Hcs Hsize Ht0 Hp0.
  assert (Hu : blen (img_bytes image) ≤ U64_MAX)
    by (unfold MAX_CLIPBOARD_IMAGE_TRANSFER_BYTES in *; range_lia).
  set (st1 := set_pending (<[tid := mk_pending_control id ctx]> (pending st))
    (set_transfers (<[tid := mk_active (img_format image) (blen (img_bytes image)) []
      hasher_new now]> (transfers st)) st)).
  destruct (run_chunks cs reqs 0 st1 (transfers st) (img_format image)
    (blen (img_bytes image)) [] hasher_new now) as [Hok Hrun];
    [apply lookup_insert_eq|done|done|by rewrite Hcs|done|].
  split; [done|]. intros Hr. destruct (Hrun Hr) as [last' Hmid]. rewrite Hcs in Hmid.
  cbn [run_requests]. rewrite handle_start, res_bind_Ok by done. cbv beta iota. fold st1.
  erewrite run_app; [|exact Hmid|cbn [run_requests]].
  - rewrite res_bind_Ok. done.
  - erewrite handle_end; [..|exact Hst]; try done.
Qed.

End delivery.

(** ** Concrete runs *)

Section witnesses.
Import SampleHash.

Definition sample_io : stage_io := mk_stage_io true true (λ _, Opened) true true.
Definition sample_context : TelemetryContext := mk_context 1 None None None None None.
Definition no_uuid : string → bool := λ _, false.

Definition start_request : AttachControlRequest :=
  mk_request 3 sample_context
    (AttachControlOperation.ClipboardImageStart (mk_img_start 7 ClipboardImageFormat.Png 8)).
Definition state_1 : ControlState :=
  mk_control table_1 InsertMode.PastePath {[7 := mk_pending_control 3 sample_context]} false.

Lemma state_1_reachable : control_reachable no_uuid state_1.
Proof.
  apply rtc_once.
  apply (step_frame no_uuid _ sample_io 0 (ClientFrame.AttachControl start_request) []).
  - intros r s [= <-] [= <-]. cbn. range_lia.
  - vm_compute. reflexivity.
Qed.

Lemma control_channel_invariant_witness :
  control_inv state_1
  ∧ ∃ effs st', on_frame no_uuid sample_io 0 ClientFrame.Detach state_1 = Ok (effs, st').
Proof.
  destruct (control_channel_invariant no_uuid state_1 state_1_reachable) as [Hi Hf].
  split; [exact Hi|]. by apply Hf.
Defined.

Lemma tick_answers_idle_requests_witness :
  respond 3 AttachControlResult.Rejected ∈ (state_tick (from_secs 600) state_1).1.
Proof.
  pose proof (tick_answers_idle_requests no_uuid state_1 (from_secs 600) state_1_reachable
    ltac:(vm_compute; discriminate) 7 (mk_active ClipboardImageFormat.Png 8 [] [] 0)
    ltac:(vm_compute; reflexivity)) as H.
  rewrite bool_decide_eq_true_2 in H by (vm_compute; discriminate).
  destruct H as (_ & _ & p & Hp & Hr). vm_compute in Hp. injection Hp as <-. exact Hr.
Defined.

(** An image of 20 MiB: a start, twenty chunks and an end. *)
Definition big_image : ClipboardImage :=
  mk_image ClipboardImageFormat.Png
    (png_magic ++ replicate (Z.to_nat (20 * 1024 * 1024) - 8) x00).

Lemma big_image_size : blen (img_bytes big_image) = 20 * 1024 * 1024.
Proof.
  unfold big_image, blen. cbn [img_bytes]. rewrite length_app, length_replicate.
  change (length png_magic) with 8%nat. lia.
Qed.

Lemma big_image_marked : validate_image_magic big_image = Ok ().
Proof. unfold big_image, validate_image_magic. cbn [img_format img_bytes]. reflexivity. Qed.

(** The requests for the image, all handled at time 5. *)
Definition big_requests : list (instant * AttachControlRequest) :=
  (λ op, (5, mk_request 4 sample_context op)) <$> (write_clipboard_image_frames 9 big_image).1.

Lemma big_requests_start :
  head big_requests
  = Some (5, mk_request 4 sample_context (AttachControlOperation.ClipboardImageStart
                (mk_img_start 9 ClipboardImageFormat.Png (20 * 1024 * 1024)))).
Proof.
  unfold big_requests, write_clipboard_image_frames. rewrite !big_image_size.
  change (_ <=? MAX_CONTEXTUAL_CLIPBOARD_IMAGE_BYTES) with false.
  change (U64_MAX <? _) with false. cbv beta iota zeta.
  by destruct (send_chunks 9 0 _) as [ops [[]| |]].
Qed.

End witnesses.
