(* ===== verification/PaneLayout.v ===== *)
(** * Pane layout of the capsule multiplexer

    [jackin-capsule/src/tui/layout.rs], [layout/tree.rs] and
    [layout/resize.rs]: rectangles, the binary tree of panes, splitting,
    removing, focus movement and border dragging, and [drag_resize_ratio] of
    [tui/update.rs].

    An [f32] is a [spec_float] of the Standard Library with 24 bits of
    precision, so the arithmetic is IEEE 754 binary32.  A [u16] is a [Z] and
    its additions wrap, as in a release build. *)

From stdpp Require Import base list sets.
From Stdlib Require Import ZArith Lia Floats.SpecFloat.
From S2P Require Import Prelude.

(** ** Single-precision floats *)

Module F32.
Definition t := spec_float.
Definition prec : Z := 24.
Definition emax : Z := 128.

Definition of_u16 (z : Z) : t := binary_normalize prec emax z 0 false.
Definition mul : t → t → t := SFmul prec emax.
Definition add : t → t → t := SFadd prec emax.
Definition div : t → t → t := SFdiv prec emax.
Definition neg : t → t := SFopp.
Definition ltb : t → t → bool := SFltb.

Definition is_finite (f : t) : bool :=
  match f with S754_zero _ | S754_finite _ _ _ => true | _ => false end.
Definition is_nan (f : t) : bool :=
  match f with S754_nan => true | _ => false end.

(** [f32::clamp]: a NaN stays a NaN. *)
Definition clamp (x lo hi : t) : t :=
  let x := if ltb x lo then lo else x in
  if ltb hi x then hi else x.

(** [f32::round], half away from zero, as an integer. *)
Definition round_finite (s : bool) (m : positive) (e : Z) : Z :=
  let mag := if 0 <=? e then Zpos m * 2 ^ e
             else (Zpos m + 2 ^ (- e - 1)) / 2 ^ (- e) in
  if s then - mag else mag.

(** [x.round().clamp(0.0, 65535.0) as u16]; a NaN casts to 0. *)
Definition round_to_u16 (f : t) : Z :=
  match f with
  | S754_nan => 0
  | S754_zero _ => 0
  | S754_infinity s => if s then 0 else U16_MAX
  | S754_finite s m e => Z.min U16_MAX (Z.max 0 (round_finite s m e))
  end.

(** The literals [0.05f32], [0.95f32] and [0.5f32]. *)
Definition lit_0_05 : t := S754_finite false 13421773 (-28).
Definition lit_0_95 : t := S754_finite false 15938355 (-24).
Definition lit_0_5 : t := S754_finite false 8388608 (-24).
End F32.
Abbreviation f32 := F32.t.

(** ** Rectangles *)

Module SplitDirectionGeometry.
Inductive t := LeftRight | TopBottom.
End SplitDirectionGeometry.

Definition ratio_to_cells (size : Z) (ratio : f32) : Z :=
  F32.round_to_u16 (F32.mul (F32.of_u16 size) ratio).

Record Rect := mk_rect { row : Z; col : Z; rows : Z; cols : Z }.

Definition shrink (r : Rect) (n : Z) : Rect :=
  let two_n := sat_mul U16_MAX n 2 in
  mk_rect (if two_n <=? rows r then add16 (row r) n else row r)
    (if two_n <=? cols r then add16 (col r) n else col r)
    (sat_sub (rows r) two_n) (sat_sub (cols r) two_n).

Definition contains (r inner : Rect) : bool :=
  (row r <=? row inner) && (col r <=? col inner)
  && (add16 (row inner) (rows inner) <=? add16 (row r) (rows r))
  && (add16 (col inner) (cols inner) <=? add16 (col r) (cols r)).

Definition STATUS_BAR_ROWS : Z := 2.
Definition BRANCH_CONTEXT_BAR_ROWS : Z := 1.
Definition CAPSULE_HINT_TOP_SEPARATOR_ROWS : Z := 1.
Definition CAPSULE_HINT_BAR_ROWS : Z := 1.
Definition CAPSULE_HINT_SEPARATOR_ROWS : Z := 1.

Definition available_content_rows (term_rows : Z) : Z :=
  sat_sub (sat_sub (sat_sub (sat_sub (sat_sub term_rows STATUS_BAR_ROWS)
    BRANCH_CONTEXT_BAR_ROWS) CAPSULE_HINT_TOP_SEPARATOR_ROWS)
    CAPSULE_HINT_BAR_ROWS) CAPSULE_HINT_SEPARATOR_ROWS.

Definition content_rect (content_rows term_cols : Z) : Rect :=
  mk_rect STATUS_BAR_ROWS 0 content_rows term_cols.

Definition split_spawn_inner_size (d : SplitDirectionGeometry.t) (r : Rect) : Z * Z :=
  match d with
  | SplitDirectionGeometry.LeftRight => (sat_sub (rows r) 2, sat_sub (cols r / 2) 2)
  | SplitDirectionGeometry.TopBottom => (sat_sub (rows r / 2) 2, sat_sub (cols r) 2)
  end.

Definition local_mouse_position (inner : Rect) (y x : Z) : option (Z * Z) :=
  if (y <? row inner) || (add16 (row inner) (rows inner) <=? y) then None
  else if (x <? col inner) || (add16 (col inner) (cols inner) <=? x) then None
  else Some (sub16 y (row inner), sub16 x (col inner)).

Module Direction.
Inductive t := Left | Right | Up | Down.
#[global] Instance eq_dec : EqDecision t.
Proof. solve_decision. Defined.
End Direction.

Module SplitPosition.
Inductive t := Before | After.
End SplitPosition.

Module SplitOrient.
Inductive t := Horizontal | Vertical.
End SplitOrient.

Definition SPLIT_RATIO_MIN : f32 := F32.lit_0_05.
Definition SPLIT_RATIO_MAX : f32 := F32.lit_0_95.
Definition SPLIT_RATIO_DEFAULT : f32 := F32.lit_0_5.

Definition clamp_split_ratio (r : f32) : f32 := F32.clamp r SPLIT_RATIO_MIN SPLIT_RATIO_MAX.

(** ** The tree *)

Inductive PaneTree :=
| Leaf (id : Z)
| HSplit (left right : PaneTree) (ratio : f32)
| VSplit (top bottom : PaneTree) (ratio : f32).

(** The size of the first part of a split: at least one cell, and one left. *)
Definition first_cells (size : Z) (ratio : f32) : Z :=
  Z.min (Z.max (ratio_to_cells size ratio) 1) (sat_sub size 1).

Definition left_rect (r : Rect) (ratio : f32) : Rect :=
  mk_rect (row r) (col r) (rows r) (first_cells (cols r) ratio).
Definition right_rect (r : Rect) (ratio : f32) : Rect :=
  let lc := first_cells (cols r) ratio in
  mk_rect (row r) (add16 (col r) lc) (rows r) (sub16 (cols r) lc).
Definition top_rect (r : Rect) (ratio : f32) : Rect :=
  mk_rect (row r) (col r) (first_cells (rows r) ratio) (cols r).
Definition bottom_rect (r : Rect) (ratio : f32) : Rect :=
  let tr := first_cells (rows r) ratio in
  mk_rect (add16 (row r) tr) (col r) (sub16 (rows r) tr) (cols r).

Fixpoint leaves (t : PaneTree) (r : Rect) : list (Z * Rect) :=
  match t with
  | Leaf id => [(id, r)]
  | HSplit lft rgt ratio => leaves lft (left_rect r ratio) ++ leaves rgt (right_rect r ratio)
  | VSplit top bottom ratio => leaves top (top_rect r ratio) ++ leaves bottom (bottom_rect r ratio)
  end.

Fixpoint all_ids (t : PaneTree) : list Z :=
  match t with
  | Leaf id => [id]
  | HSplit lft rgt _ => all_ids lft ++ all_ids rgt
  | VSplit top bottom _ => all_ids top ++ all_ids bottom
  end.

Fixpoint leaf_count (t : PaneTree) : nat :=
  match t with
  | Leaf _ => 1
  | HSplit lft rgt _ => leaf_count lft + leaf_count rgt
  | VSplit top bottom _ => leaf_count top + leaf_count bottom
  end.

Definition place (old_id new_id : Z) (p : SplitPosition.t) : Z * Z :=
  match p with
  | SplitPosition.Before => (new_id, old_id)
  | SplitPosition.After => (old_id, new_id)
  end.

(** The mutating methods return the flag of the source and the new tree. *)
Fixpoint split_h (old_id new_id : Z) (p : SplitPosition.t) (t : PaneTree) : bool * PaneTree :=
  match t with
  | Leaf id =>
      if id =? old_id then
        let '(a, b) := place old_id new_id p in (true, HSplit (Leaf a) (Leaf b) F32.lit_0_5)
      else (false, t)
  | HSplit lft rgt ratio =>
      let '(ok, lft) := split_h old_id new_id p lft in
      if ok then (true, HSplit lft rgt ratio)
      else let '(ok, rgt) := split_h old_id new_id p rgt in (ok, HSplit lft rgt ratio)
  | VSplit top bottom ratio =>
      let '(ok, top) := split_h old_id new_id p top in
      if ok then (true, VSplit top bottom ratio)
      else let '(ok, bottom) := split_h old_id new_id p bottom in (ok, VSplit top bottom ratio)
  end.

Fixpoint split_v (old_id new_id : Z) (p : SplitPosition.t) (t : PaneTree) : bool * PaneTree :=
  match t with
  | Leaf id =>
      if id =? old_id then
        let '(a, b) := place old_id new_id p in (true, VSplit (Leaf a) (Leaf b) F32.lit_0_5)
      else (false, t)
  | HSplit lft rgt ratio =>
      let '(ok, lft) := split_v old_id new_id p lft in
      if ok then (true, HSplit lft rgt ratio)
      else let '(ok, rgt) := split_v old_id new_id p rgt in (ok, HSplit lft rgt ratio)
  | VSplit top bottom ratio =>
      let '(ok, top) := split_v old_id new_id p top in
      if ok then (true, VSplit top bottom ratio)
      else let '(ok, bottom) := split_v old_id new_id p bottom in (ok, VSplit top bottom ratio)
  end.

Definition is_leaf (id : Z) (t : PaneTree) : bool :=
  match t with Leaf l => l =? id | _ => false end.

(** The arms of the two splits are the same up to the constructor [mk]:
    [a] and [b] are the children, [ra] and [rb] their recursive results. *)
Definition remove_split (mk : PaneTree → PaneTree → PaneTree) (id : Z) (a b : PaneTree)
    (ra rb : bool * option PaneTree * PaneTree) : bool * option PaneTree * PaneTree :=
  if is_leaf id a then (true, Some b, mk a (Leaf 0))
  else if is_leaf id b then (true, Some a, mk (Leaf 0) b)
  else
    let '(found, replacement, a') := ra in
    if found then (true, None, mk (default a' replacement) b)
    else
      let '(found, replacement, b') := rb in
      if found then (true, None, mk a' (default b' replacement))
      else (false, None, mk a' b').

Fixpoint remove_inner (id : Z) (t : PaneTree) : bool * option PaneTree * PaneTree :=
  match t with
  | Leaf lid => (lid =? id, None, t)
  | HSplit lft rgt ratio =>
      remove_split (λ a b, HSplit a b ratio) id lft rgt
        (remove_inner id lft) (remove_inner id rgt)
  | VSplit top bottom ratio =>
      remove_split (λ a b, VSplit a b ratio) id top bottom
        (remove_inner id top) (remove_inner id bottom)
  end.

Definition remove (id : Z) (t : PaneTree) : bool * PaneTree :=
  let '(found, replacement, t') := remove_inner id t in
  (found, default t' replacement).

(** ** Focus movement *)

Definition beyond (d : Direction.t) (fr fc : Z) (r : Rect) : bool :=
  match d with
  | Direction.Left => add16 (col r) (cols r) <? fc
  | Direction.Right => fc <? col r
  | Direction.Up => add16 (row r) (rows r) <? fr
  | Direction.Down => fr <? row r
  end.

Definition centre (r : Rect) : Z * Z :=
  (add16 (row r) (rows r / 2), add16 (col r) (cols r / 2)).

(** Differences are taken in [i32] and their absolute values added in [u32]:
    no overflow is possible for [u16] coordinates. *)
Definition distance (fr fc : Z) (r : Rect) : Z :=
  Z.abs ((centre r).1 - fr) + Z.abs ((centre r).2 - fc).

(** [Iterator::min_by_key]: the first element of minimal key. *)
Definition min_by {A} (key : A → Z) (l : list A) : option A :=
  match l with
  | [] => None
  | a :: l' => Some (foldl (λ best x, if key x <? key best then x else best) a l')
  end.

Definition adjacent (t : PaneTree) (r : Rect) (from_id : Z) (d : Direction.t) : option Z :=
  match list_find (λ l, l.1 = from_id) (leaves t r) with
  | None => None
  | Some (_, (_, from_rect)) =>
      let '(fr, fc) := centre from_rect in
      let candidates := filter (λ l, l.1 ≠ from_id ∧ beyond d fr fc l.2 = true) (leaves t r) in
      fst <$> min_by (λ l, distance fr fc l.2) candidates
  end.

(** ** Resizing *)

Definition crosses (in_first : bool) (d first second : Direction.t) : bool :=
  if in_first then bool_decide (d = second) else bool_decide (d = first).

Fixpoint resize (leaf_id : Z) (d : Direction.t) (delta : f32) (t : PaneTree)
    : bool * PaneTree :=
  if negb (F32.is_finite delta) then (false, t) else
  match t with
  | Leaf _ => (false, t)
  | HSplit lft rgt ratio =>
      let left_has := bool_decide (leaf_id ∈ all_ids lft) in
      if crosses left_has d Direction.Left Direction.Right then
        let signed := if left_has then delta else F32.neg delta in
        (true, HSplit lft rgt (clamp_split_ratio (F32.add ratio signed)))
      else if left_has then
        let '(ok, lft) := resize leaf_id d delta lft in (ok, HSplit lft rgt ratio)
      else
        let '(ok, rgt) := resize leaf_id d delta rgt in (ok, HSplit lft rgt ratio)
  | VSplit top bottom ratio =>
      let top_has := bool_decide (leaf_id ∈ all_ids top) in
      if crosses top_has d Direction.Up Direction.Down then
        let signed := if top_has then delta else F32.neg delta in
        (true, VSplit top bottom (clamp_split_ratio (F32.add ratio signed)))
      else if top_has then
        let '(ok, top) := resize leaf_id d delta top in (ok, VSplit top bottom ratio)
      else
        let '(ok, bottom) := resize leaf_id d delta bottom in (ok, VSplit top bottom ratio)
  end.

(** The split whose border is at a cell: the path to it (0 for the first
    child), its orientation and its rectangle. *)
Fixpoint border_at (t : PaneTree) (r : Rect) (y x : Z)
    : option (list Z * SplitOrient.t * Rect) :=
  match t with
  | Leaf _ => None
  | HSplit lft rgt ratio =>
      let boundary_b := add16 (col r) (first_cells (cols r) ratio) in
      let boundary_a := sub16 boundary_b 1 in
      if (row r <=? y) && (y <? add16 (row r) (rows r))
         && ((x =? boundary_a) || (x =? boundary_b))
      then Some ([], SplitOrient.Horizontal, r)
      else match border_at lft (left_rect r ratio) y x with
      | Some (p, o, rr) => Some (0 :: p, o, rr)
      | None =>
          match border_at rgt (right_rect r ratio) y x with
          | Some (p, o, rr) => Some (1 :: p, o, rr)
          | None => None
          end
      end
  | VSplit top bottom ratio =>
      let boundary_b := add16 (row r) (first_cells (rows r) ratio) in
      let boundary_a := sub16 boundary_b 1 in
      if (col r <=? x) && (x <? add16 (col r) (cols r))
         && ((y =? boundary_a) || (y =? boundary_b))
      then Some ([], SplitOrient.Vertical, r)
      else match border_at top (top_rect r ratio) y x with
      | Some (p, o, rr) => Some (0 :: p, o, rr)
      | None =>
          match border_at bottom (bottom_rect r ratio) y x with
          | Some (p, o, rr) => Some (1 :: p, o, rr)
          | None => None
          end
      end
  end.

Fixpoint set_ratio_at (path : list Z) (new_ratio : f32) (t : PaneTree) : bool * PaneTree :=
  if negb (F32.is_finite new_ratio) then (false, t) else
  let clamped := clamp_split_ratio new_ratio in
  match path with
  | [] =>
      match t with
      | HSplit lft rgt _ => (true, HSplit lft rgt clamped)
      | VSplit top bottom _ => (true, VSplit top bottom clamped)
      | Leaf _ => (false, t)
      end
  | step :: rest =>
      match t with
      | HSplit lft rgt ratio =>
          if step =? 0
          then let '(ok, lft) := set_ratio_at rest clamped lft in (ok, HSplit lft rgt ratio)
          else let '(ok, rgt) := set_ratio_at rest clamped rgt in (ok, HSplit lft rgt ratio)
      | VSplit top bottom ratio =>
          if step =? 0
          then let '(ok, top) := set_ratio_at rest clamped top in (ok, VSplit top bottom ratio)
          else let '(ok, bottom) := set_ratio_at rest clamped bottom in (ok, VSplit top bottom ratio)
      | Leaf _ => (false, t)
      end
  end.

Definition drag_resize_ratio (o : SplitOrient.t) (r : Rect) (y x : Z) : f32 :=
  match o with
  | SplitOrient.Horizontal =>
      F32.clamp (F32.div (F32.of_u16 (sat_sub x (col r))) (F32.of_u16 (cols r)))
        F32.lit_0_05 F32.lit_0_95
  | SplitOrient.Vertical =>
      F32.clamp (F32.div (F32.of_u16 (sat_sub y (row r))) (F32.of_u16 (rows r)))
        F32.lit_0_05 F32.lit_0_95
  end.

(** Half of an odd width rounds up, as [f32::round] does. *)
Example ratio_to_cells_values :
  ratio_to_cells 80 F32.lit_0_5 = 40 ∧ ratio_to_cells 81 F32.lit_0_5 = 41
  ∧ ratio_to_cells 100 F32.lit_0_05 = 5 ∧ ratio_to_cells 65535 F32.lit_0_95 = 62258.
Proof. vm_compute. done. Qed.
