(* ===== verification/PaneProofs.v ===== *)
(** * Pane layout: tiling, identity of panes, bounded ratios

    The theorems on the pane tree of [PaneLayout]. *)

From stdpp Require Import base list sets relations.
From Stdlib Require Import ZArith Lia Floats.SpecFloat.
From S2P Require Import Prelude PaneLayout.

(** ** Tiling *)

(** The cells of a rectangle do not wrap around the [u16] range. *)
Definition wf_rect (r : Rect) : Prop :=
  0 ≤ row r ∧ 0 ≤ col r ∧ 0 ≤ rows r ∧ 0 ≤ cols r
  ∧ row r + rows r ≤ U16_MAX ∧ col r + cols r ≤ U16_MAX.

(** The hit test of the mouse code. *)
Definition cell_in (r : Rect) (y x : Z) : bool :=
  (row r <=? y) && (y <? add16 (row r) (rows r))
  && (col r <=? x) && (x <? add16 (col r) (cols r)).

Lemma first_cells_range size ratio : 0 ≤ size → 0 ≤ first_cells size ratio ≤ size.
Proof. unfold first_cells, sat_sub. lia. Qed.

(** Rewrite wrapping arithmetic on in-range operands into plain arithmetic. *)
Ltac unwrap16 :=
  unfold add16, sub16;
  repeat match goal with |- context [wrap16 ?z] =>
    rewrite (wrap16_small z) by (unfold in_range, U16_MAX in *; lia) end.

Section split_rects.
Context (r : Rect) (ratio : f32) (Hr : wf_rect r).

Lemma wf_left : wf_rect (left_rect r ratio).
Proof.
  destruct Hr as (? & ? & ? & ? & ? & ?).
  pose proof (first_cells_range (cols r) ratio). unfold wf_rect, left_rect. cbn. lia.
Qed.
Lemma wf_top : wf_rect (top_rect r ratio).
Proof.
  destruct Hr as (? & ? & ? & ? & ? & ?).
  pose proof (first_cells_range (rows r) ratio). unfold wf_rect, top_rect. cbn. lia.
Qed.
Lemma wf_right : wf_rect (right_rect r ratio).
Proof.
  destruct Hr as (? & ? & ? & ? & ? & ?).
  pose proof (first_cells_range (cols r) ratio).
  unfold wf_rect, right_rect. cbn. unwrap16. lia.
Qed.
Lemma wf_bottom : wf_rect (bottom_rect r ratio).
Proof.
  destruct Hr as (? & ? & ? & ? & ? & ?).
  pose proof (first_cells_range (rows r) ratio).
  unfold wf_rect, bottom_rect. cbn. unwrap16. lia.
Qed.

(** A split divides the cells of a rectangle in two disjoint parts. *)
Lemma cell_in_h y x :
  (if cell_in r y x then 1 else 0)%nat =
  ((if cell_in (left_rect r ratio) y x then 1 else 0)
   + (if cell_in (right_rect r ratio) y x then 1 else 0))%nat.
Proof.
  destruct Hr as (? & ? & ? & ? & ? & ?).
  pose proof (first_cells_range (cols r) ratio).
  unfold cell_in, left_rect, right_rect. cbn. unwrap16.
  repeat match goal with |- context [?a <=? ?b] => destruct (Z.leb_spec a b) end;
  repeat match goal with |- context [?a <? ?b] => destruct (Z.ltb_spec a b) end; cbn; lia.
Qed.
Lemma cell_in_v y x :
  (if cell_in r y x then 1 else 0)%nat =
  ((if cell_in (top_rect r ratio) y x then 1 else 0)
   + (if cell_in (bottom_rect r ratio) y x then 1 else 0))%nat.
Proof.
  destruct Hr as (? & ? & ? & ? & ? & ?).
  pose proof (first_cells_range (rows r) ratio).
  unfold cell_in, top_rect, bottom_rect. cbn. unwrap16.
  repeat match goal with |- context [?a <=? ?b] => destruct (Z.leb_spec a b) end;
  repeat match goal with |- context [?a <? ?b] => destruct (Z.ltb_spec a b) end; cbn; lia.
Qed.
End split_rects.

Definition hits (t : PaneTree) (r : Rect) (y x : Z) : nat :=
  length (filter (λ l, cell_in l.2 y x = true) (leaves t r)).

Lemma leaves_ids t r : (leaves t r).*1 = all_ids t.
Proof.
  revert r. induction t as [id|a IHa b IHb q|a IHa b IHb q]; intros r; cbn; [done|..];
    by rewrite fmap_app, IHa, IHb.
Qed.

Lemma leaves_tile_aux t r y x :
  wf_rect r → hits t r y x = (if cell_in r y x then 1 else 0)%nat.
Proof.
  revert r. induction t as [id|a IHa b IHb q|a IHa b IHb q]; intros r Hr.
  - unfold hits. cbn [leaves]. rewrite filter_cons, filter_nil. cbn [snd].
    case_decide as Hc; [by rewrite Hc|]. by destruct (cell_in r y x).
  - unfold hits in *. cbn [leaves]. rewrite filter_app, length_app.
    rewrite IHa, IHb by auto using wf_left, wf_right. symmetry. by apply cell_in_h.
  - unfold hits in *. cbn [leaves]. rewrite filter_app, length_app.
    rewrite IHa, IHb by auto using wf_top, wf_bottom. symmetry. by apply cell_in_v.
Qed.

Lemma leaves_wf t r : wf_rect r → Forall (λ l, wf_rect l.2) (leaves t r).
Proof.
  revert r. induction t as [id|a IHa b IHb q|a IHa b IHb q]; intros r Hr; cbn.
  - by constructor.
  - apply Forall_app; auto using wf_left, wf_right.
  - apply Forall_app; auto using wf_top, wf_bottom.
Qed.

(** C30: The panes tile the screen: whatever the tree and its ratios, every cell
    of the content rectangle belongs to exactly one pane and no cell outside it
    to any, so a mouse event has exactly one target; the panes are the leaves
    of the tree in order, one rectangle each, and none leaves the [u16] range. *)
Theorem panes_tile t r :
  wf_rect r →
  (∀ y x, hits t r y x = (if cell_in r y x then 1 else 0)%nat)
  ∧ (leaves t r).*1 = all_ids t ∧ length (leaves t r) = leaf_count t
  ∧ Forall (λ l, wf_rect l.2) (leaves t r).
Proof.
  intros Hr. split_and!; [|apply leaves_ids| |by apply leaves_wf].
  - intros y x. by apply leaves_tile_aux.
  - clear Hr. revert r. induction t as [id|a IHa b IHb q|a IHa b IHb q]; intros r; cbn; [done|..];
      by rewrite length_app, IHa, IHb.
Qed.

Definition sample_tree : PaneTree :=
  HSplit (Leaf 1) (VSplit (Leaf 2) (Leaf 3) F32.lit_0_95) F32.lit_0_5.

Lemma panes_tile_witness : hits sample_tree (content_rect 20 80) 7 40 = 1%nat.
Proof.
  assert (Hr : wf_rect (content_rect 20 80)) by (vm_compute; split_and!; discriminate).
  refine (eq_trans (proj1 (panes_tile sample_tree (content_rect 20 80) Hr) 7 40) _).
  vm_compute. reflexivity.
Defined.

(** ** Splitting and removing *)

(** Both splits are one traversal, up to the node they build. *)
Fixpoint split_gen (mk : PaneTree → PaneTree → PaneTree) (old_id new_id : Z)
    (p : SplitPosition.t) (t : PaneTree) : bool * PaneTree :=
  match t with
  | Leaf id =>
      if id =? old_id then
        let '(a, b) := place old_id new_id p in (true, mk (Leaf a) (Leaf b))
      else (false, t)
  | HSplit lft rgt ratio =>
      let '(ok, lft) := split_gen mk old_id new_id p lft in
      if ok then (true, HSplit lft rgt ratio)
      else let '(ok, rgt) := split_gen mk old_id new_id p rgt in (ok, HSplit lft rgt ratio)
  | VSplit top bottom ratio =>
      let '(ok, top) := split_gen mk old_id new_id p top in
      if ok then (true, VSplit top bottom ratio)
      else let '(ok, bottom) := split_gen mk old_id new_id p bottom in (ok, VSplit top bottom ratio)
  end.

Definition mk_h (a b : PaneTree) : PaneTree := HSplit a b F32.lit_0_5.
Definition mk_v (a b : PaneTree) : PaneTree := VSplit a b F32.lit_0_5.

Lemma split_h_gen old new p t : split_h old new p t = split_gen mk_h old new p t.
Proof. induction t as [|? IHa ? IHb|? IHa ? IHb]; cbn; [done|by rewrite IHa, IHb..]. Qed.
Lemma split_v_gen old new p t : split_v old new p t = split_gen mk_v old new p t.
Proof. induction t as [|? IHa ? IHb|? IHa ? IHb]; cbn; [done|by rewrite IHa, IHb..]. Qed.

Lemma is_leaf_absent id t : id ∉ all_ids t → is_leaf id t = false.
Proof. destruct t; cbn; [|done..]. intros Hn. apply Z.eqb_neq. set_solver. Qed.

Lemma remove_inner_absent id t : id ∉ all_ids t → remove_inner id t = (false, None, t).
Proof.
  induction t as [l|a IHa b IHb q|a IHa b IHb q]; cbn; intros Hn.
  - rewrite (proj2 (Z.eqb_neq _ _)); [done|]. set_solver.
  - unfold remove_split. rewrite !is_leaf_absent, IHa, IHb by set_solver. done.
  - unfold remove_split. rewrite !is_leaf_absent, IHa, IHb by set_solver. done.
Qed.

(** The arm of a split node, when only the first or only the second child
    contains the id and is not a leaf. *)
Lemma remove_split_first c id a b ra rb r a' :
  is_leaf id a = false → id ∉ all_ids b → ra = (true, r, a') →
  remove_split c id a b ra rb = (true, None, c (default a' r) b).
Proof. intros Ha Hb ->. unfold remove_split. by rewrite Ha, is_leaf_absent. Qed.

Lemma remove_split_second c id a b ra rb r b' :
  id ∉ all_ids a → is_leaf id b = false → ra = (false, None, a) → rb = (true, r, b') →
  remove_split c id a b ra rb = (true, None, c a (default b' r)).
Proof. intros Ha Hb -> ->. unfold remove_split. by rewrite Hb, is_leaf_absent. Qed.

Section splitting.
Context (mk : PaneTree → PaneTree → PaneTree) (Hmk : mk = mk_h ∨ mk = mk_v).
Context (old new : Z) (p : SplitPosition.t).

Lemma mk_ids a b : all_ids (mk a b) = all_ids a ++ all_ids b.
Proof. by destruct Hmk; subst mk. Qed.

Lemma split_gen_absent t : old ∉ all_ids t → split_gen mk old new p t = (false, t).
Proof.
  induction t as [id|a IHa b IHb q|a IHa b IHb q]; cbn; intros Hn.
  - rewrite (proj2 (Z.eqb_neq _ _)); [done|]. set_solver.
  - rewrite IHa, IHb by set_solver. done.
  - rewrite IHa, IHb by set_solver. done.
Qed.

(** The new pane lands next to the first occurrence of the old one. *)
Definition placed : list Z := let '(a, b) := place old new p in [a; b].

Lemma split_gen_ids t :
  old ∈ all_ids t →
  ∃ t' l1 l2, split_gen mk old new p t = (true, t') ∧ all_ids t = l1 ++ old :: l2
    ∧ all_ids t' = l1 ++ placed ++ l2.
Proof.
  induction t as [id|a IHa b IHb q|a IHa b IHb q]; cbn; intros Hin.
  - apply list_elem_of_singleton in Hin as <-. rewrite Z.eqb_refl.
    unfold placed. destruct (place old new p) as [c d]. eexists _, [], [].
    split_and!; [done|done|]. by rewrite mk_ids.
  - destruct (decide (old ∈ all_ids a)) as [Ha|Ha].
    + destruct (IHa Ha) as (t' & l1 & l2 & -> & E1 & E2).
      exists (HSplit t' b q), l1, (l2 ++ all_ids b). cbn.
      rewrite E1, E2, <-!app_assoc. done.
    + rewrite split_gen_absent by done. destruct IHb as (t' & l1 & l2 & -> & E1 & E2); [set_solver|].
      exists (HSplit a t' q), (all_ids a ++ l1), l2. cbn. rewrite E1, E2, <-!app_assoc. done.
  - destruct (decide (old ∈ all_ids a)) as [Ha|Ha].
    + destruct (IHa Ha) as (t' & l1 & l2 & -> & E1 & E2).
      exists (VSplit t' b q), l1, (l2 ++ all_ids b). cbn.
      rewrite E1, E2, <-!app_assoc. done.
    + rewrite split_gen_absent by done. destruct IHb as (t' & l1 & l2 & -> & E1 & E2); [set_solver|].
      exists (VSplit a t' q), (all_ids a ++ l1), l2. cbn. rewrite E1, E2, <-!app_assoc. done.
Qed.

Lemma split_gen_not_leaf t t' id :
  split_gen mk old new p t = (true, t') → is_leaf id t' = false.
Proof.
  destruct t as [l|a b q|a b q]; cbn.
  - destruct (l =? old); [|done]. destruct (place old new p) as [c d]. intros [= <-].
    by destruct Hmk; subst mk.
  - repeat (destruct (split_gen _ _ _ _ _) as [[] ?]); by intros [= <-].
  - repeat (destruct (split_gen _ _ _ _ _) as [[] ?]); by intros [= <-].
Qed.

Lemma split_gen_false t t' : split_gen mk old new p t = (false, t') → t' = t.
Proof.
  intros Hs. destruct (decide (old ∈ all_ids t)) as [Hin|Hn].
  - destruct (split_gen_ids t Hin) as (? & ? & ? & Hs' & _). by rewrite Hs' in Hs.
  - rewrite split_gen_absent in Hs by done. by injection Hs.
Qed.

Lemma remove_split_gen t t' :
  new ∉ all_ids t → split_gen mk old new p t = (true, t') →
  ∃ r s, remove_inner new t' = (true, r, s) ∧ default s r = t.
Proof.
  revert t'. induction t as [id|a IHa b IHb q|a IHa b IHb q]; intros t' Hn Hs; cbn in Hs, Hn.
  { destruct (Z.eqb_spec id old) as [->|]; [|done].
    assert (Hno : new ≠ old) by set_solver.
    destruct Hmk as [-> | ->], p; cbn in Hs; injection Hs as <-; cbn;
      unfold remove_split; cbn; rewrite ?Z.eqb_refl, ?(proj2 (Z.eqb_neq old new)) by done;
      eexists _, _; (split; [done|]); done. }
  all: destruct (split_gen mk old new p a) as [[] a'] eqn:Ea;
    [injection Hs as <-; destruct (IHa a') as (r & s & Hr & Hd); [set_solver|done|]
    |apply split_gen_false in Ea as ->;
     destruct (split_gen mk old new p b) as [[] b'] eqn:Eb; [|done]; injection Hs as <-;
     destruct (IHb b') as (r & s & Hr & Hd); [set_solver|done|]]; cbn.
  1,3: erewrite remove_split_first; [|by eapply split_gen_not_leaf|set_solver|done].
  3,4: erewrite remove_split_second;
        [|set_solver|by eapply split_gen_not_leaf|by apply remove_inner_absent; set_solver|done].
  all: eexists _, _; (split; [done|]); cbn; by rewrite Hd.
Qed.
End splitting.

Lemma filter_absent (id : Z) (l : list Z) : id ∉ l → filter (λ i, i ≠ id) l = l.
Proof.
  intros Hn. induction l as [|x l IH]; [done|].
  rewrite filter_cons_True, IH by set_solver. done.
Qed.

Lemma remove_inner_ids id t :
  NoDup (all_ids t) → id ∈ all_ids t →
  ∃ r s, remove_inner id t = (true, r, s)
    ∧ (t = Leaf id ∨ all_ids (default s r) = filter (λ i, i ≠ id) (all_ids t)).
Proof.
  induction t as [l|a IHa b IHb q|a IHa b IHb q]; cbn [all_ids]; intros Hnd Hin.
  { apply list_elem_of_singleton in Hin as <-. cbn. rewrite Z.eqb_refl. eauto 10. }
  all: apply NoDup_app in Hnd as (Hna & Hab & Hnb); rewrite filter_app; cbn [remove_inner];
    unfold remove_split.
  all: destruct (is_leaf id a) eqn:Ela;
    [destruct a; try done; cbn in Ela; apply Z.eqb_eq in Ela; subst;
     eexists _, _; (split; [done|]); right; cbn [from_option all_ids];
     rewrite (filter_absent id (all_ids b)) by (apply Hab; set_solver);
     by rewrite filter_cons_False, filter_nil by (intros []; done)|].
  all: destruct (is_leaf id b) eqn:Elb;
    [destruct b; try done; cbn in Elb; apply Z.eqb_eq in Elb; subst;
     eexists _, _; (split; [done|]); right; cbn [from_option all_ids];
     rewrite (filter_absent id (all_ids a)) by set_solver;
     by rewrite filter_cons_False, filter_nil, app_nil_r by (intros []; done)|].
  all: destruct (decide (id ∈ all_ids a)) as [Ha|Ha];
    [destruct (IHa Hna Ha) as (r & s & -> & [->|He]); [by cbn in Ela; rewrite Z.eqb_refl in Ela|]
    |rewrite (remove_inner_absent id a) by done;
     destruct (IHb Hnb) as (r & s & -> & [->|He]); [set_solver|by cbn in Elb; rewrite Z.eqb_refl in Elb|]].
  all: eexists _, _; (split; [done|]); right; cbn; rewrite He.
  1,3: by rewrite (filter_absent id (all_ids b)) by (apply Hab; set_solver).
  all: by rewrite (filter_absent id (all_ids a)) by done.
Qed.

(** C31: Opening and closing a pane are inverse: splitting an open pane with a
    fresh one always succeeds, in either direction and on either side, adds
    exactly the new pane next to the old one, and removing the new pane gives
    back the very same tree, ratios included. *)
Theorem split_remove_roundtrip t old new p :
  old ∈ all_ids t → new ∉ all_ids t →
  ∀ split, split = split_h ∨ split = split_v →
  ∃ t' l1 l2, split old new p t = (true, t')
    ∧ all_ids t = l1 ++ old :: l2 ∧ all_ids t' = l1 ++ placed old new p ++ l2
    ∧ remove new t' = (true, t).
Proof.
  intros Ho Hn split Hs.
  assert (∃ mk, (mk = mk_h ∨ mk = mk_v) ∧ split old new p t = split_gen mk old new p t)
    as (mk & Hmk & ->).
  { destruct Hs as [->| ->]; [exists mk_h|exists mk_v]; eauto using split_h_gen, split_v_gen. }
  destruct (split_gen_ids mk Hmk old new p t Ho) as (t' & l1 & l2 & Hs' & E1 & E2).
  exists t', l1, l2. split_and!; [done..|].
  destruct (remove_split_gen mk Hmk old new p t t' Hn Hs') as (r & s & Hr & Hd).
  unfold remove. by rewrite Hr, Hd.
Qed.

Lemma split_remove_roundtrip_witness :
  ∃ t' l1 l2, split_v 2 9 SplitPosition.Before sample_tree = (true, t')
    ∧ all_ids sample_tree = l1 ++ 2 :: l2
    ∧ all_ids t' = l1 ++ placed 2 9 SplitPosition.Before ++ l2
    ∧ remove 9 t' = (true, sample_tree).
Proof.
  refine (split_remove_roundtrip sample_tree 2 9 SplitPosition.Before _ _ split_v (or_intror eq_refl)).
  - by apply (bool_decide_unpack _); vm_compute.
  - by apply (bool_decide_unpack _); vm_compute.
Defined.

(** Removing a pane removes that pane and nothing else: in a tree of
    distinct panes the others keep their order, an unknown id changes nothing
    and is reported, and the last pane of a tree is reported but stays. *)
Theorem remove_spec t id :
  NoDup (all_ids t) →
  (id ∉ all_ids t → remove id t = (false, t))
  ∧ (t = Leaf id → remove id t = (true, t))
  ∧ (id ∈ all_ids t → t ≠ Leaf id → (remove id t).1 = true
       ∧ all_ids (remove id t).2 = filter (λ i, i ≠ id) (all_ids t)).
Proof.
  intros Hnd. unfold remove. split_and!.
  - intros Hn. by rewrite remove_inner_absent.
  - intros ->. cbn. by rewrite Z.eqb_refl.
  - intros Hin Hne. destruct (remove_inner_ids id t Hnd Hin) as (r & s & -> & [->|He]); [done|].
    by split.
Qed.

Lemma remove_spec_witness : all_ids (remove 2 sample_tree).2 = [1; 3].
Proof.
  assert (Hnd : NoDup (all_ids sample_tree)) by (by apply (bool_decide_unpack _); vm_compute).
  assert (Hin : 2 ∈ all_ids sample_tree) by (by apply (bool_decide_unpack _); vm_compute).
  rewrite (proj2 (proj2 (proj2 (remove_spec sample_tree 2 Hnd)) Hin ltac:(done))).
  vm_compute. reflexivity.
Defined.

(** ** Ratios stay within their bounds *)

Lemma shr_1_nonneg mrs : 0 ≤ shr_m mrs → 0 ≤ shr_m (shr_1 mrs).
Proof. destruct mrs as [[|[]|[]] r s]; cbn; lia. Qed.

Lemma iter_shr_nonneg n mrs : 0 ≤ shr_m mrs → 0 ≤ shr_m (iter_pos shr_1 n mrs).
Proof.
  revert mrs. induction n as [n IH|n IH|]; intros mrs Hm; cbn; auto using shr_1_nonneg.
Qed.

Lemma shr_fexp_nonneg prec emax m e l : 0 ≤ m → 0 ≤ shr_m (shr_fexp prec emax m e l).1.
Proof.
  intros Hm. unfold shr_fexp, shr.
  assert (0 ≤ shr_m (shr_record_of_loc m l)) by by destruct l as [|[]].
  destruct (_ - e); cbn; auto using iter_shr_nonneg.
Qed.

Lemma round_nearest_even_nonneg m l : 0 ≤ m → 0 ≤ round_nearest_even m l.
Proof. destruct l as [|[]]; cbn; [lia| |lia|lia]. destruct (Z.even m); lia. Qed.

(** Rounding a non-negative mantissa never produces a NaN. *)
Lemma binary_round_aux_not_nan prec emax s m e l :
  0 ≤ m → F32.is_nan (binary_round_aux prec emax s m e l) = false.
Proof.
  intros Hm. unfold binary_round_aux.
  pose proof (shr_fexp_nonneg prec emax m e l Hm) as H1.
  destruct (shr_fexp prec emax m e l) as [mrs e']. cbn [fst] in H1.
  pose proof (shr_fexp_nonneg prec emax _ e' loc_Exact
    (round_nearest_even_nonneg _ (loc_of_shr_record mrs) H1)) as H2.
  destruct (shr_fexp prec emax (round_nearest_even _ _) e' loc_Exact) as [mrs2 e2].
  cbn [fst] in H2. destruct (shr_m mrs2); [done| |lia]. by destruct (_ <=? _).
Qed.

Lemma binary_normalize_not_nan prec emax m e s :
  F32.is_nan (binary_normalize prec emax m e s) = false.
Proof.
  unfold binary_normalize, binary_round. destruct m as [|m|m]; [done|..];
    destruct (shl_align _ _ _); by apply binary_round_aux_not_nan.
Qed.

Lemma add_not_nan x y :
  F32.is_finite x = true → F32.is_finite y = true → F32.is_nan (F32.add x y) = false.
Proof.
  destruct x as [sx|sx| |sx mx ex], y as [sy|sy| |sy my ey]; try done; cbn [F32.is_finite].
  - by destruct sx, sy.
  - intros _ _. apply binary_normalize_not_nan.
Qed.

Lemma div_not_nan x m e :
  F32.is_finite x = true → F32.is_nan (F32.div x (S754_finite false m e)) = false.
Proof.
  destruct x as [sx|sx| |sx mx ex]; try done. intros _. unfold F32.div, SFdiv.
  unfold SFdiv_core_binary.
  match goal with |- context [Z.div_eucl ?a ?b] =>
    pose proof (Z.div_eucl_eq a b) as Hd; pose proof (Z_div_pos a b) as Hp;
    unfold Z.div in Hp; destruct (Z.div_eucl a b) as [q r] end.
  apply binary_round_aux_not_nan. apply Hp; [done|].
  match goal with |- context [match ?s with _ => _ end] => destruct s as [|s'|s'] end; try lia.
  apply Z.shiftl_nonneg. lia.
Qed.

Definition ratio_ok (r : f32) : bool :=
  F32.is_finite r && negb (F32.ltb r SPLIT_RATIO_MIN) && negb (F32.ltb SPLIT_RATIO_MAX r).

Lemma clamp_split_ratio_ok r : F32.is_nan r = false → ratio_ok (clamp_split_ratio r) = true.
Proof.
  intros Hn. unfold clamp_split_ratio, F32.clamp.
  destruct (F32.ltb r SPLIT_RATIO_MIN) eqn:Hlo; [by vm_compute|].
  destruct (F32.ltb SPLIT_RATIO_MAX r) eqn:Hhi; [by vm_compute|].
  unfold ratio_ok. rewrite Hlo, Hhi. by destruct r as [|[]| |].
Qed.

Lemma clamp_idem r : ratio_ok r = true → clamp_split_ratio r = r.
Proof.
  unfold ratio_ok, clamp_split_ratio, F32.clamp. intros H.
  apply andb_true_iff in H as [[_ H1%negb_true_iff]%andb_true_iff H2%negb_true_iff].
  by rewrite H1, H2.
Qed.

Lemma finite_not_nan r : F32.is_finite r = true → F32.is_nan r = false.
Proof. by destruct r. Qed.

Lemma ratio_ok_finite r : ratio_ok r = true → F32.is_finite r = true.
Proof. unfold ratio_ok. by intros [[H _]%andb_true_iff _]%andb_true_iff. Qed.

Fixpoint wf_tree (t : PaneTree) : Prop :=
  match t with
  | Leaf _ => True
  | HSplit a b q | VSplit a b q => ratio_ok q = true ∧ wf_tree a ∧ wf_tree b
  end.

Lemma resize_spec id d delta t :
  F32.is_finite delta = true → wf_tree t →
  all_ids (resize id d delta t).2 = all_ids t ∧ wf_tree (resize id d delta t).2.
Proof.
  intros Hd. assert (Hneg : F32.is_finite (F32.neg delta) = true) by by destruct delta.
  assert (Hadd : ∀ q s, ratio_ok q = true → F32.is_finite s = true →
    ratio_ok (clamp_split_ratio (F32.add q s)) = true)
    by (intros; by apply clamp_split_ratio_ok, add_not_nan; [apply ratio_ok_finite|]).
  induction t as [l|a IHa b IHb q|a IHa b IHb q]; intros Hw; cbn [resize]; rewrite Hd; [done|..];
    destruct Hw as (Hq & Ha & Hb); cbn [negb];
    destruct (crosses _ _ _ _);
    [case_bool_decide; cbn; split_and!; auto|
     destruct (IHa Ha), (IHb Hb); destruct (resize id d delta a) as [ok1 a'],
       (resize id d delta b) as [ok2 b']; case_bool_decide; cbn in *; split_and!; auto; congruence|
     case_bool_decide; cbn; split_and!; auto|
     destruct (IHa Ha), (IHb Hb); destruct (resize id d delta a) as [ok1 a'],
       (resize id d delta b) as [ok2 b']; case_bool_decide; cbn in *; split_and!; auto; congruence].
Qed.

Lemma set_ratio_at_spec path q t :
  wf_tree t →
  all_ids (set_ratio_at path q t).2 = all_ids t ∧ wf_tree (set_ratio_at path q t).2.
Proof.
  revert q t. induction path as [|s path IH]; intros q t Hw; cbn [set_ratio_at];
    destruct (F32.is_finite q) eqn:Hq; cbn [negb]; try done;
    pose proof (clamp_split_ratio_ok q (finite_not_nan q Hq)) as Hc;
    destruct t as [l|a b r|a b r]; try done; destruct Hw as (Hr & Ha & Hb); try (cbn; by split_and!);
    destruct (IH (clamp_split_ratio q) a Ha), (IH (clamp_split_ratio q) b Hb);
    destruct (set_ratio_at path _ a) as [ok1 a'], (set_ratio_at path _ b) as [ok2 b'];
    destruct (s =? 0); cbn in *; split_and!; auto; congruence.
Qed.

Lemma split_gen_wf mk old new p t :
  (mk = mk_h ∨ mk = mk_v) → wf_tree t → wf_tree (split_gen mk old new p t).2.
Proof.
  intros Hmk. induction t as [l|a IHa b IHb q|a IHa b IHb q]; intros Hw; cbn [split_gen].
  { destruct (l =? old); [|done]. destruct (place old new p) as [c d].
    destruct Hmk as [-> | ->]; cbn; split_and!; done. }
  all: destruct Hw as (Hq & Ha & Hb); specialize (IHa Ha); specialize (IHb Hb);
    destruct (split_gen mk old new p a) as [[] a'], (split_gen mk old new p b) as [ok b'];
    cbn in *; by split_and!.
Qed.

Lemma remove_inner_wf id t :
  wf_tree t →
  let '(found, r, s) := remove_inner id t in
  wf_tree (default s r) ∧ (found = false → r = None).
Proof.
  induction t as [l|a IHa b IHb q|a IHa b IHb q]; intros Hw; [done|..].
  all: destruct Hw as (Hq & Ha & Hb); specialize (IHa Ha); specialize (IHb Hb);
    cbn [remove_inner]; unfold remove_split.
  all: destruct (is_leaf id a); [done|].
  all: destruct (is_leaf id b); [done|].
  all: destruct (remove_inner id a) as [[[] ra] a']; destruct IHa as [IHa Hra]; [by cbn|].
  all: rewrite (Hra eq_refl) in IHa; cbn in IHa.
  all: destruct (remove_inner id b) as [[[] rb] b']; destruct IHb as [IHb Hrb]; [by cbn|].
  all: rewrite (Hrb eq_refl) in IHb; by cbn in *.
Qed.

Lemma remove_wf id t : wf_tree t → wf_tree (remove id t).2.
Proof.
  intros Hw. pose proof (remove_inner_wf id t Hw). unfold remove.
  destruct (remove_inner id t) as [[found r] s]. apply H.
Qed.

(** One layout operation of the multiplexer. *)
Inductive layout_step (t : PaneTree) : PaneTree → Prop :=
| layout_split_h old new p : layout_step t (split_h old new p t).2
| layout_split_v old new p : layout_step t (split_v old new p t).2
| layout_remove id : layout_step t (remove id t).2
| layout_resize id d delta :
    F32.is_finite delta = true → layout_step t (resize id d delta t).2
| layout_set_ratio path q : layout_step t (set_ratio_at path q t).2.

Lemma layout_step_wf t t' : layout_step t t' → wf_tree t → wf_tree t'.
Proof.
  intros Hs Hw. destruct Hs as [old new p|old new p|id|id d delta Hd|path q].
  - rewrite split_h_gen. apply split_gen_wf; auto.
  - rewrite split_v_gen. apply split_gen_wf; auto.
  - by apply remove_wf.
  - by apply resize_spec.
  - by apply set_ratio_at_spec.
Qed.

(** However panes are opened, closed, resized by keys (any finite step) or
    dragged (any ratio, even a NaN), starting from one pane every ratio in the
    tree stays a finite number between 0.05 and 0.95, so no pane can be squeezed
    out by its sibling; and resizing or dragging never adds, drops or reorders
    panes. *)
Theorem layout_ratios_bounded id t :
  rtc layout_step (Leaf id) t →
  wf_tree t
  ∧ (∀ i d delta, F32.is_finite delta = true → all_ids (resize i d delta t).2 = all_ids t)
  ∧ (∀ path q, all_ids (set_ratio_at path q t).2 = all_ids t).
Proof.
  intros Hr. assert (Hw : wf_tree t).
  { assert (H0 : wf_tree (Leaf id)) by done. revert H0.
    induction Hr; eauto using layout_step_wf. }
  split_and!; [done|..].
  - intros i d delta Hd. by apply resize_spec.
  - intros path q. by apply set_ratio_at_spec.
Qed.

Lemma layout_ratios_bounded_witness :
  wf_tree (set_ratio_at [] S754_nan (split_h 1 2 SplitPosition.After (Leaf 1)).2).2.
Proof.
  refine (proj1 (layout_ratios_bounded 1 _ _)).
  apply (rtc_l _ _ (split_h 1 2 SplitPosition.After (Leaf 1)).2); [apply layout_split_h|].
  apply rtc_once, layout_set_ratio.
Defined.

(** ** Dragging a border *)

(** [u16] values convert exactly: checked for all of them. *)
Fixpoint of_u16_ok (fuel : nat) (z : Z) : bool :=
  match fuel with
  | O => true
  | S fuel' =>
      match F32.of_u16 z with
      | S754_finite false _ _ => of_u16_ok fuel' (z + 1)
      | _ => false
      end
  end.

Lemma of_u16_ok_spec fuel z0 z :
  of_u16_ok fuel z0 = true → z0 ≤ z < z0 + Z.of_nat fuel →
  ∃ m e, F32.of_u16 z = S754_finite false m e.
Proof.
  revert z0. induction fuel as [|fuel IH]; intros z0 Hok Hz; [lia|]. cbn in Hok.
  destruct (F32.of_u16 z0) as [| | |[] m e] eqn:E; try done.
  destruct (decide (z = z0)) as [->|Hne]; [by eauto|]. apply (IH (z0 + 1)); [done|lia].
Qed.

Lemma of_u16_finite z : 0 < z ≤ U16_MAX → ∃ m e, F32.of_u16 z = S754_finite false m e.
Proof.
  intros Hz. apply (of_u16_ok_spec (Z.to_nat 65535) 1); [vm_compute; reflexivity|].
  unfold U16_MAX in *. lia.
Qed.

Lemma of_u16_is_finite z : 0 ≤ z ≤ U16_MAX → F32.is_finite (F32.of_u16 z) = true.
Proof.
  intros Hz. destruct (decide (z = 0)) as [->|Hne]; [done|].
  by destruct (of_u16_finite z) as (m & e & ->); [lia|].
Qed.

Definition axis_size (o : SplitOrient.t) (r : Rect) : Z :=
  match o with SplitOrient.Horizontal => cols r | SplitOrient.Vertical => rows r end.

(** Dividing an offset by a size: a clamped ratio, or a NaN or infinity that
    clamps to a bound, when the size is zero. *)
Lemma ratio_of_offset off size :
  0 ≤ off ≤ U16_MAX → 0 < size ≤ U16_MAX →
  ratio_ok (F32.clamp (F32.div (F32.of_u16 off) (F32.of_u16 size)) F32.lit_0_05 F32.lit_0_95) = true.
Proof.
  intros Hoff Hsize. destruct (of_u16_finite size Hsize) as (m & e & ->).
  apply clamp_split_ratio_ok, div_not_nan, of_u16_is_finite. done.
Qed.

Lemma drag_ratio_ok o r y x :
  wf_rect r → is_u16 y → is_u16 x → 0 < axis_size o r →
  ratio_ok (drag_resize_ratio o r y x) = true.
Proof.
  intros (? & ? & ? & ? & ? & ?) Hy Hx Hs. unfold drag_resize_ratio.
  destruct o; cbn in Hs; apply ratio_of_offset; unfold sat_sub, in_range in *; lia.
Qed.

(** Where a path leads: the split there and the rectangle it divides. *)
Fixpoint split_at (path : list Z) (t : PaneTree) (r : Rect) : option (SplitOrient.t * Rect) :=
  match t, path with
  | Leaf _, _ => None
  | HSplit _ _ _, [] => Some (SplitOrient.Horizontal, r)
  | VSplit _ _ _, [] => Some (SplitOrient.Vertical, r)
  | HSplit a b q, s :: rest =>
      if s =? 0 then split_at rest a (left_rect r q) else split_at rest b (right_rect r q)
  | VSplit a b q, s :: rest =>
      if s =? 0 then split_at rest a (top_rect r q) else split_at rest b (bottom_rect r q)
  end.

Lemma border_at_split t r y x p o rr :
  border_at t r y x = Some (p, o, rr) → split_at p t r = Some (o, rr).
Proof.
  revert r p o rr. induction t as [l|a IHa b IHb q|a IHa b IHb q]; intros r p o rr; [done|..];
    cbn [border_at].
  all: destruct (_ && _ && _)%bool; [by intros [= <- <- <-]|].
  1: destruct (border_at a (left_rect r q) y x) as [[[p1 o1] r1]|] eqn:Ea;
       [intros [= <- <- <-]; by apply IHa in Ea|];
     destruct (border_at b (right_rect r q) y x) as [[[p1 o1] r1]|] eqn:Eb; [|done];
     intros [= <- <- <-]; by apply IHb in Eb.
  destruct (border_at a (top_rect r q) y x) as [[[p1 o1] r1]|] eqn:Ea;
    [intros [= <- <- <-]; by apply IHa in Ea|].
  destruct (border_at b (bottom_rect r q) y x) as [[[p1 o1] r1]|] eqn:Eb; [|done].
  intros [= <- <- <-]; by apply IHb in Eb.
Qed.

Lemma split_at_wf p t r o rr : wf_rect r → split_at p t r = Some (o, rr) → wf_rect rr.
Proof.
  revert p r. induction t as [l|a IHa b IHb q|a IHa b IHb q]; intros [|s p] r Hr; cbn;
    try done; try (by intros [= <- <-]); destruct (s =? 0); intros Hs;
    eauto using wf_left, wf_right, wf_top, wf_bottom.
Qed.

Lemma set_ratio_at_valid p q t r o rr :
  ratio_ok q = true → split_at p t r = Some (o, rr) → (set_ratio_at p q t).1 = true.
Proof.
  intros Hq. revert t r. induction p as [|s p IH]; intros [l|a b c|a b c] r Hs; try done;
    cbn [set_ratio_at]; rewrite (ratio_ok_finite _ Hq), (clamp_idem _ Hq); cbn [negb]; try done;
    cbn in Hs; destruct (s =? 0); apply IH in Hs; by destruct (set_ratio_at p q _).
Qed.

(** A border that can be grabbed can be dragged: when the cell under the
    mouse is on a border, the recorded path leads to a split of that
    orientation whose rectangle is the recorded one, and moving the mouse to
    any cell afterwards sets its ratio, to a value within bounds and without
    touching the panes; only a split with no cells along its axis is left
    alone, because its ratio would be 0/0. *)
Theorem border_drag t r y x p o rr :
  wf_rect r → border_at t r y x = Some (p, o, rr) →
  split_at p t r = Some (o, rr) ∧ wf_rect rr
  ∧ ∀ y' x', is_u16 y' → is_u16 x' → 0 < axis_size o rr →
      let q := drag_resize_ratio o rr y' x' in
      ratio_ok q = true ∧ (set_ratio_at p q t).1 = true.
Proof.
  intros Hr Hb%border_at_split. pose proof (split_at_wf _ _ _ _ _ Hr Hb) as Hrr.
  split_and!; [done..|]. intros y' x' Hy Hx Hs q.
  assert (Hq : ratio_ok q = true) by by apply drag_ratio_ok.
  split; [done|]. by eapply set_ratio_at_valid.
Qed.

Lemma border_drag_witness :
  border_at sample_tree (content_rect 20 80) 20 60
    = Some ([1], SplitOrient.Vertical, mk_rect 2 40 20 40)
  ∧ (set_ratio_at [1] (drag_resize_ratio SplitOrient.Vertical (mk_rect 2 40 20 40) 8 3)
       sample_tree).1 = true.
Proof.
  assert (Hr : wf_rect (content_rect 20 80)) by (vm_compute; split_and!; discriminate).
  assert (Hb : border_at sample_tree (content_rect 20 80) 20 60
    = Some ([1], SplitOrient.Vertical, mk_rect 2 40 20 40)) by (vm_compute; reflexivity).
  split; [exact Hb|].
  refine (proj2 (proj2 (proj2 (border_drag _ _ _ _ _ _ _ Hr Hb)) 8 3 _ _ _)).
  - range_lia.
  - range_lia.
  - vm_compute. reflexivity.
Defined.

(** ** Moving the focus *)

Lemma min_by_spec {A} (key : A → Z) l a :
  min_by key l = Some a → a ∈ l ∧ ∀ x, x ∈ l → key a ≤ key x.
Proof.
  destruct l as [|a0 l]; [done|]. intros [= <-]. revert a0.
  induction l as [|b l IH]; intros a0; cbn [foldl].
  { split; [by left|]. by intros x [->|[]%not_elem_of_nil]%elem_of_cons. }
  destruct (IH (if key b <? key a0 then b else a0)) as [Hin Hmin].
  set (m := foldl _ _ l) in *. split.
  - apply elem_of_cons in Hin as [->|Hin]; [|by do 2 right].
    destruct (key b <? key a0); set_solver.
  - pose proof (Hmin _ (list_elem_of_here _ _)) as Hm.
    intros x Hx. destruct (Z.ltb_spec (key b) (key a0)); set_unfold;
      destruct Hx as [->|[->|Hx]]; try lia; apply Hmin; set_solver.
Qed.

Lemma NoDup_fst_inj {A} (l : list (Z * A)) i a b :
  NoDup l.*1 → (i, a) ∈ l → (i, b) ∈ l → a = b.
Proof.
  induction l as [|[k c] l IH]; cbn; [by intros _ []%not_elem_of_nil|].
  intros [Hk Hnd]%NoDup_cons Ha Hb.
  assert (Hin : ∀ d, (i, d) ∈ l → i ∈ l.*1)
    by (intros d Hd; apply list_elem_of_fmap; by exists (i, d)).
  apply elem_of_cons in Ha as [Ha|Ha]; apply elem_of_cons in Hb as [Hb|Hb];
    simplify_eq; auto; exfalso; eauto.
Qed.

(** Moving the focus goes to the nearest pane on that side: the answer is
    another open pane whose rectangle lies entirely beyond the centre of the
    current one in the given direction, at minimal distance between centres
    among all such panes; no answer means there is none, or the pane is not in
    the tree. *)
Theorem adjacent_nearest t r from d :
  NoDup (all_ids t) →
  match adjacent t r from d with
  | Some id =>
      id ∈ all_ids t ∧ id ≠ from ∧ ∃ fr rid,
        (from, fr) ∈ leaves t r ∧ (id, rid) ∈ leaves t r
        ∧ beyond d (centre fr).1 (centre fr).2 rid = true
        ∧ ∀ i ri, (i, ri) ∈ leaves t r → i ≠ from →
            beyond d (centre fr).1 (centre fr).2 ri = true →
            distance (centre fr).1 (centre fr).2 rid ≤ distance (centre fr).1 (centre fr).2 ri
  | None =>
      ∀ fr i ri, (from, fr) ∈ leaves t r → (i, ri) ∈ leaves t r → i ≠ from →
        beyond d (centre fr).1 (centre fr).2 ri = false
  end.
Proof.
  intros Hnd. unfold adjacent.
  assert (Huniq : ∀ i r1 r2, (i, r1) ∈ leaves t r → (i, r2) ∈ leaves t r → r1 = r2).
  { intros i r1 r2 H1 H2. rewrite <-(leaves_ids t r) in Hnd.
    by eapply (NoDup_fst_inj (leaves t r)). }
  destruct (list_find _ _) as [[k [fid fr]]|] eqn:Hf.
  - apply list_find_Some in Hf as (Hk & Hid & _). cbn in Hid. subst fid.
    apply list_elem_of_lookup_2 in Hk. destruct (centre fr) as [cr cc] eqn:Hc.
    destruct (min_by _ _) as [[id rid]|] eqn:Hm; cbn [fmap option_fmap option_map fst].
    + apply min_by_spec in Hm as [[[Hne Hb] Hin]%list_elem_of_filter Hmin]. cbn [fst snd] in *.
      split_and!; [|done|].
      { rewrite <-(leaves_ids t r). apply list_elem_of_fmap. by exists (id, rid). }
      exists fr, rid. rewrite Hc. split_and!; try done. intros i ri Hi Hni Hbi.
      apply (Hmin (i, ri)). by apply list_elem_of_filter.
    + intros fr' i ri Hfr Hi Hne. rewrite (Huniq _ _ _ Hfr Hk), Hc.
      destruct (beyond d cr cc ri) eqn:Hb; [|done].
      destruct (filter _ (leaves t r)) as [|] eqn:Hfl; [|done].
      assert (Habs : (i, ri) ∈ filter (λ l, l.1 ≠ from ∧ beyond d cr cc l.2 = true) (leaves t r))
        by by apply list_elem_of_filter.
      rewrite Hfl in Habs. by apply not_elem_of_nil in Habs.
  - intros fr i ri Hfr. apply list_find_None in Hf. rewrite Forall_forall in Hf.
    by destruct (Hf _ Hfr).
Qed.

Lemma adjacent_nearest_witness :
  adjacent sample_tree (content_rect 20 80) 1 Direction.Right = Some 2
  ∧ 2 ∈ all_ids sample_tree ∧ 2 ≠ 1.
Proof.
  assert (Hnd : NoDup (all_ids sample_tree)) by (by apply (bool_decide_unpack _); vm_compute).
  assert (E : adjacent sample_tree (content_rect 20 80) 1 Direction.Right = Some 2)
    by (vm_compute; reflexivity).
  pose proof (adjacent_nearest sample_tree (content_rect 20 80) 1 Direction.Right Hnd) as H.
  rewrite E in H. destruct H as (Hin & Hne & _). exact (conj E (conj Hin Hne)).
Defined.
