(* ===== verification/Supervisor.v ===== *)
(** * Tabs and sessions of the capsule multiplexer

    The session supervisor of [jackin-capsule/src/daemon/supervisor.rs] and the
    operations of [Multiplexer] on it: spawning tabs and splitting panes
    ([session_lifecycle/agent_spawn.rs], [session_lifecycle/spawn.rs],
    [pane_layout/splits.rs]), closing them, focus, zoom and resizing
    ([session_lifecycle/tabs.rs], [pane_layout/focus.rs],
    [pane_layout/geometry.rs], [mouse_input/hover.rs]) and the removal of exited
    sessions ([session_lifecycle/teardown.rs]), with the codename words of
    [wordlist.rs] and the instance lookups of [CapsuleConfig].

    A [Session] owns a PTY and a terminal grid; the fields kept are the ones
    these operations read or write.  The part of [Session::spawn] that talks to
    the operating system is an input, [spawn_outcome].  The wall clock is the
    argument [now].  Focus reports written to the children, redraw requests and
    the text selection that [cancel_drag] also clears are left out. *)

From stdpp Require Import base list gmap sets strings pretty relations.
From Stdlib Require Import ZArith Lia.
From S2P Require Import Prelude PaneLayout.

(** ** Codenames *)

Definition WORDLIST : list string :=
  ["badger"; "crane"; "falcon"; "gecko"; "heron"; "ibex"; "jackal"; "kite"; "lynx"; "mink";
   "newt"; "otter"; "puma"; "quail"; "raven"; "stoat"; "teal"; "vole"; "wren"; "yak"; "adder";
   "bison"; "cobra"; "dingo"; "egret"; "finch"; "grebe"; "hyena"; "impala"; "jaguar"; "kudu";
   "lemur"; "moose"; "narwhal"; "ocelot"; "puffin"; "quokka"; "robin"; "skunk"; "tapir";
   "urubu"; "viper"; "wombat"; "xerus"; "zebu"; "axolotl"; "boar"; "coyote"; "dhole"; "ermine";
   "ferret"; "goshawk"; "harrier"; "iguazu"; "junco"; "kestrel"; "limpet"; "marten"; "nutria";
   "osprey"; "petrel"; "arch"; "bay"; "bluff"; "cape"; "cliff"; "crag"; "delta"; "dune";
   "fjord"; "gorge"; "gulch"; "inlet"; "isle"; "knoll"; "ledge"; "mesa"; "moor"; "peak";
   "reef"; "ridge"; "scarp"; "shelf"; "shoal"; "sill"; "spit"; "spur"; "steppe"; "swale";
   "talus"; "tor"; "vale"; "atoll"; "butte"; "cirque"; "draw"; "flats"; "gully"; "heath";
   "karst"; "loch"; "marsh"; "notch"; "overhang"; "plain"; "quarry"; "ravine"; "scree"; "tarn";
   "vent"; "wash"; "xenolith"; "yardang"; "aurora"; "cirrus"; "frost"; "gale"; "haze"; "mist";
   "nimbus"; "squall"; "storm"; "surge"; "tide"; "veil"; "zephyr"; "anvil"; "bora"; "cloud";
   "drizzle"; "eddy"; "flurry"; "gloom"; "hail"; "inflow"; "jetstream"; "katabatic"; "lull";
   "mirage"; "nebula"; "overcast"; "plume"; "quasar"; "rime"; "sleet"].

Definition taken (live retired : gset string) (word : string) : bool :=
  bool_decide (word ∈ live) || bool_decide (word ∈ retired).

(** The words in the order the first loop tries them. *)
Definition word_order (offset : Z) : list string :=
  (λ i, default "" (WORDLIST !! Z.to_nat (add64 offset (Z.of_nat i) mod Z.of_nat (length WORDLIST))))
    <$> seq 0 (length WORDLIST).

Definition suffixed (base : string) (n : nat) : string := base +:+ "-" +:+ pretty n.

(** The unbounded [for n in 2u32..] loop: [fuel] names are tried.  One more
    than the number of names in use is enough, see [pick_codename_fresh]. *)
Fixpoint find_suffix (fuel n : nat) (live retired : gset string) (base : string) : string :=
  match fuel with
  | O => suffixed base n
  | S fuel' =>
      if taken live retired (suffixed base n) then find_suffix fuel' (S n) live retired base
      else suffixed base n
  end.

Definition pick_codename (live retired : gset string) (offset : Z) : string :=
  match list_find (λ w, taken live retired w = false) (word_order offset) with
  | Some (_, word) => word
  | None =>
      let base := default "" (WORDLIST !! Z.to_nat (offset mod Z.of_nat (length WORDLIST))) in
      find_suffix (size live + size retired) 2 live retired base
  end.

(** ** Launch configuration *)

Record SessionIdentity := mk_identity { uid : Z; gid : Z }.

(** The fields of [CapsuleConfig] that spawning reads. *)
Record CapsuleConfig := mk_config {
  instances : list string;
  agents : gmap string string;
  accounts : gmap string string;
  labels : gmap string string;
  instance_home_dirs : gmap string string;
  instance_cache_dirs : gmap string string;
  instance_forwarded_dirs : gmap string string;
  instance_identities : gmap string SessionIdentity;
  shell_identity : option SessionIdentity;
}.

(** The loop of [resolve_instance] over the instances of an agent. *)
Fixpoint unique_hit (c : CapsuleConfig) (raw : string) (hit : option string)
    (ids : list string) : res string :=
  match ids with
  | [] =>
      match hit with
      | Some id => Ok id
      | None => bail "not in launch config allowlist"
      end
  | id :: ids' =>
      if bool_decide (agents c !! id = Some raw) then
        match hit with
        | Some _ => bail "ambiguous agent: several instances share it; pick an instance"
        | None => unique_hit c raw (Some id) ids'
        end
      else unique_hit c raw hit ids'
  end.

Definition resolve_instance (c : CapsuleConfig) (raw : string) : res string :=
  if bool_decide (raw ∈ instances c) then
    if bool_decide (is_Some (agents c !! raw)) then Ok raw
    else bail "instance has no agent runtime in launch config"
  else unique_hit c raw None (instances c).

(** [agent.map(|raw| resolve_instance(raw)).transpose()] *)
Definition resolve_target (c : CapsuleConfig) (raw : option string) : res (option string) :=
  match raw with
  | None => Ok None
  | Some r =>
      match resolve_instance c r with
      | Ok id => Ok (Some id)
      | Err e => bail_at "rejected spawn target {raw:?}: {reason}" (err_fmt e)
      | Panic => Panic
      end
  end.

(** The first letter in upper case.  Agent slugs are ASCII. *)
Definition upper_first (s : string) : string :=
  match s with
  | EmptyString => EmptyString
  | String c s' =>
      let n := Ascii.N_of_ascii c in
      if (97 <=? n)%N && (n <=? 122)%N then String (Ascii.ascii_of_N (n - 32)) s'
      else String c s'
  end.

Definition visible_agent_label (instance_label agent_slug provider_label : option string)
    : string :=
  match instance_label with
  | Some l => l
  | None =>
      match agent_slug with
      | None => "Shell"
      | Some slug =>
          match provider_label with
          | Some p => upper_first slug +:+ " (" +:+ p +:+ ")"
          | None => upper_first slug
          end
      end
  end.

(** ** State *)

Record Tab := mk_tab {
  auto_label : string;
  custom_label : option string;
  tree : PaneTree;
  focused_id : Z;
  zoomed : option Z;
  codename : string;
  instance : option string;
  account_id : option string;
}.

Definition new_single (label_ : string) (session_id : Z) (codename_ : string) : Tab :=
  mk_tab label_ None (Leaf session_id) session_id None codename_ None None.

Definition label (t : Tab) : string := default (auto_label t) (custom_label t).

Definition set_custom_label (l : string) (t : Tab) : Tab :=
  mk_tab (auto_label t) (if str_eqb l "" then None else Some l) (tree t) (focused_id t)
    (zoomed t) (codename t) (instance t) (account_id t).

Definition reset_to_auto (t : Tab) : Tab :=
  mk_tab (auto_label t) None (tree t) (focused_id t) (zoomed t) (codename t) (instance t)
    (account_id t).

(** Field updates of the operations below. *)
Definition with_tree (p : PaneTree) (t : Tab) : Tab :=
  mk_tab (auto_label t) (custom_label t) p (focused_id t) (zoomed t) (codename t) (instance t)
    (account_id t).
Definition with_focus (id : Z) (t : Tab) : Tab :=
  mk_tab (auto_label t) (custom_label t) (tree t) id (zoomed t) (codename t) (instance t)
    (account_id t).
Definition with_zoom (z : option Z) (t : Tab) : Tab :=
  mk_tab (auto_label t) (custom_label t) (tree t) (focused_id t) z (codename t) (instance t)
    (account_id t).
Definition with_instance (i a : option string) (t : Tab) : Tab :=
  mk_tab (auto_label t) (custom_label t) (tree t) (focused_id t) (zoomed t) (codename t) i a.

Record SessionProvider := mk_provider {
  provider_label : string;
  provider_env : list (string * string);
}.

Record Session := mk_session {
  s_label : string;
  s_agent : option string;
  s_account_id : option string;
  s_identity : SessionIdentity;
  s_provider : option SessionProvider;
  s_size : Z * Z;                      (* rows and columns of the PTY and grid *)
}.

(** [Session::resize] *)
Definition session_resize (rows_ cols_ : Z) (s : Session) : Session :=
  mk_session (s_label s) (s_agent s) (s_account_id s) (s_identity s) (s_provider s)
    (Z.max rows_ 1, Z.max cols_ 1).

Record AgentRecord := mk_record {
  rec_session_id : Z;
  rec_codename : string;
  rec_agent : option string;
  rec_account_id : option string;
  rec_provider : option string;
  started_at : Z;
  exited_at : option Z;
}.

Definition with_exit (e : option Z) (r : AgentRecord) : AgentRecord :=
  mk_record (rec_session_id r) (rec_codename r) (rec_agent r) (rec_account_id r)
    (rec_provider r) (started_at r) e.

Record DragState := mk_drag {
  tab_idx : nat;
  path : list Z;
  orient : SplitOrient.t;
  drag_rect : Rect;
}.

Record SessionSupervisor := mk_sup {
  sessions : gmap Z Session;
  tabs : list Tab;
  active_tab : nat;
  codename_live : gset string;
  codename_retired : gset string;
  agent_history : list AgentRecord;
  wordlist_offset : Z;
}.

(** [Multiplexer], with the fields of its render state used here and the
    process-wide counter [NEXT_ID] of [session/types.rs]. *)
Record Multiplexer := mk_mux {
  session_supervisor : SessionSupervisor;
  term_rows : Z;
  term_cols : Z;
  content_rows : Z;
  drag : option DragState;
  launch_config : CapsuleConfig;
  pane_home_seq : Z;
  NEXT_ID : Z;
}.

Definition set_sessions (g : gmap Z Session) (s : SessionSupervisor) : SessionSupervisor :=
  mk_sup g (tabs s) (active_tab s) (codename_live s) (codename_retired s)
    (agent_history s) (wordlist_offset s).
Definition set_tabs (ts : list Tab) (s : SessionSupervisor) : SessionSupervisor :=
  mk_sup (sessions s) ts (active_tab s) (codename_live s) (codename_retired s)
    (agent_history s) (wordlist_offset s).
Definition set_active (a : nat) (s : SessionSupervisor) : SessionSupervisor :=
  mk_sup (sessions s) (tabs s) a (codename_live s) (codename_retired s)
    (agent_history s) (wordlist_offset s).
Definition set_names (l r : gset string) (s : SessionSupervisor) : SessionSupervisor :=
  mk_sup (sessions s) (tabs s) (active_tab s) l r (agent_history s) (wordlist_offset s).
Definition set_history (h : list AgentRecord) (s : SessionSupervisor) : SessionSupervisor :=
  mk_sup (sessions s) (tabs s) (active_tab s) (codename_live s) (codename_retired s)
    h (wordlist_offset s).
Definition set_offset (o : Z) (s : SessionSupervisor) : SessionSupervisor :=
  mk_sup (sessions s) (tabs s) (active_tab s) (codename_live s) (codename_retired s)
    (agent_history s) o.

(** [on f m] changes the supervisor of [m]. *)
Definition on (f : SessionSupervisor → SessionSupervisor) (m : Multiplexer) : Multiplexer :=
  mk_mux (f (session_supervisor m)) (term_rows m) (term_cols m) (content_rows m) (drag m)
    (launch_config m) (pane_home_seq m) (NEXT_ID m).
Definition set_drag (d : option DragState) (m : Multiplexer) : Multiplexer :=
  mk_mux (session_supervisor m) (term_rows m) (term_cols m) (content_rows m) d
    (launch_config m) (pane_home_seq m) (NEXT_ID m).
Definition set_size (r c n : Z) (m : Multiplexer) : Multiplexer :=
  mk_mux (session_supervisor m) r c n (drag m) (launch_config m) (pane_home_seq m) (NEXT_ID m).
Definition set_counters (seq_ next : Z) (m : Multiplexer) : Multiplexer :=
  mk_mux (session_supervisor m) (term_rows m) (term_cols m) (content_rows m) (drag m)
    (launch_config m) seq_ next.

(** [iter_mut().rev().find(p)] with an update: the last match. *)
Fixpoint update_last (p : AgentRecord → bool) (f : AgentRecord → AgentRecord)
    (l : list AgentRecord) : list AgentRecord :=
  match l with
  | [] => []
  | r :: l' =>
      if existsb p l' then r :: update_last p f l'
      else if p r then f r :: l' else r :: l'
  end.

(** ** Registry and history *)

(** [SessionRegistry]: id 0 is not a session id. *)
Definition registry_insert (id : Z) (se : Session) (g : gmap Z Session) : gmap Z Session :=
  if id =? 0 then g else <[id := se]> g.
Definition registry_remove (id : Z) (g : gmap Z Session) : gmap Z Session :=
  if id =? 0 then g else delete id g.
Definition registry_alter (f : Session → Session) (id : Z) (g : gmap Z Session)
    : gmap Z Session :=
  if id =? 0 then g else alter f id g.
Definition registry_get (id : Z) (g : gmap Z Session) : option Session :=
  if id =? 0 then None else g !! id.

Definition retire_codename (c : string) (now : Z) (s : SessionSupervisor) : SessionSupervisor :=
  set_history
    (update_last (λ r, str_eqb (rec_codename r) c) (with_exit (Some now)) (agent_history s))
    (set_names (codename_live s ∖ {[c]}) ({[c]} ∪ codename_retired s) s).

(** [record.exited_at.get_or_insert(now)] *)
Definition mark_agent_session_exited (id now : Z) (s : SessionSupervisor) : SessionSupervisor :=
  set_history
    (update_last (λ r, rec_session_id r =? id)
       (λ r, with_exit (Some (default now (exited_at r))) r) (agent_history s)) s.

Definition active (s : SessionSupervisor) : option Tab := tabs s !! active_tab s.
Definition active_focused_id (s : SessionSupervisor) : option Z := focused_id <$> active s.
Definition active_zoomed_id (s : SessionSupervisor) : option Z :=
  t ← active s; z ← zoomed t;
  if bool_decide (z ∈ all_ids (tree t)) then Some z else None.

(** Change tab [i] in place. *)
Definition alter_tab (f : Tab → Tab) (i : nat) (s : SessionSupervisor) : SessionSupervisor :=
  set_tabs (alter f i (tabs s)) s.

(** [tabs.remove(i)] *)
Definition remove_tab (i : nat) (s : SessionSupervisor) : SessionSupervisor :=
  set_tabs (delete i (tabs s)) s.

(** [if active_tab >= tabs.len() { active_tab = tabs.len().saturating_sub(1) }] *)
Definition clamp_active (s : SessionSupervisor) : SessionSupervisor :=
  if (length (tabs s) <=? active_tab s)%nat
  then set_active (length (tabs s) - 1) s else s.

Definition cancel_drag (m : Multiplexer) : Multiplexer := set_drag None m.

(** ** Geometry *)

Definition content (m : Multiplexer) : Rect := content_rect (content_rows m) (term_cols m).

Definition resize_leaf (g : gmap Z Session) (l : Z * Rect) : gmap Z Session :=
  let inner := shrink l.2 1 in
  registry_alter (session_resize (rows inner) (cols inner)) l.1 g.

Definition resize_panes (m : Multiplexer) : Multiplexer :=
  let s := session_supervisor m in
  let panes :=
    match active_zoomed_id s with
    | Some z => [(z, content m)]
    | None => concat ((λ t, leaves (tree t) (content m)) <$> tabs s)
    end in
  on (λ s, set_sessions (foldl resize_leaf (sessions s) panes) s) m.

Definition DEFAULT_ROWS : Z := 24.
Definition DEFAULT_COLS : Z := 80.
Definition MIN_ROWS : Z := STATUS_BAR_ROWS + 3.
Definition MIN_COLS : Z := 3.
Definition normalize_size (r c : Z) : Z * Z :=
  (Z.max (if r =? 0 then DEFAULT_ROWS else r) MIN_ROWS,
   Z.max (if c =? 0 then DEFAULT_COLS else c) MIN_COLS).

Definition resize_terminal (r c : Z) (m : Multiplexer) : Multiplexer :=
  let '(r, c) := normalize_size r c in
  resize_panes (set_size r c (available_content_rows r) (cancel_drag m)).

Record VisiblePane := mk_visible {
  vp_id : Z;
  outer : Rect;
  inner : Rect;
  focused : bool;
}.

Definition visible_panes_for_layout (content_rect : Rect) (focused_id_ zoom_id : option Z)
    (active_tab_ : option Tab) : list VisiblePane :=
  match zoom_id with
  | Some z => [mk_visible z content_rect (shrink content_rect 1) (bool_decide (Some z = focused_id_))]
  | None =>
      match active_tab_ with
      | None => []
      | Some t =>
          (λ l, mk_visible l.1 l.2 (shrink l.2 1) (bool_decide (Some l.1 = focused_id_)))
            <$> leaves (tree t) content_rect
      end
  end.

Definition visible_panes (m : Multiplexer) : list VisiblePane :=
  let s := session_supervisor m in
  visible_panes_for_layout (content m) (active_focused_id s) (active_zoomed_id s) (active s).

(** ** Spawning

    [M A]: an operation on the multiplexer that may fail.  An error leaves the
    changes made before it, as [?] does on [&mut self]. *)

Definition M (A : Type) : Type := Multiplexer → res A * Multiplexer.

#[global] Instance M_ret : MRet M := λ A a m, (Ok a, m).
#[global] Instance M_bind : MBind M := λ A B f x m,
  match x m with
  | (Ok a, m') => f a m'
  | (Err e, m') => (Err e, m')
  | (Panic, m') => (Panic, m')
  end.

Definition lift {A} (r : res A) : M A := λ m, (r, m).
Definition get {A} (f : Multiplexer → A) : M A := λ m, (Ok (f m), m).
Definition modify (f : Multiplexer → Multiplexer) : M () := λ m, (Ok (), f m).

Definition MAX_TABS : nat := 32.
Definition MAX_SESSIONS : nat := 64.

Definition ensure_capacity_for_new_session (add_tab : bool) (s : SessionSupervisor) : res () :=
  if add_tab && (MAX_TABS <=? length (tabs s))%nat
  then bail "tab limit reached ({max_tabs}); close one before spawning another"
  else if (MAX_SESSIONS <=? size (sessions s))%nat
  then bail "pane limit reached ({max_sessions}); close some panes before opening more"
  else Ok ().

Definition pick_next_codename : M string := λ m,
  let s := session_supervisor m in
  (Ok (pick_codename (codename_live s) (codename_retired s) (wordlist_offset s)),
   on (set_offset (add64 (wordlist_offset s) 1)) m).

Definition record_agent_history (id now : Z) (c : string) (agent provider : option string)
    (m : Multiplexer) : Multiplexer :=
  let cfg := launch_config m in
  let slug := (λ stored, default stored (agents cfg !! stored)) <$> agent in
  let provider :=
    match provider with
    | Some p => Some p
    | None =>
        if bool_decide (slug = Some "claude") then Some "anthropic"
        else if bool_decide (slug = Some "codex") then Some "openai" else None
    end in
  let account := agent ≫= λ id, accounts cfg !! id in
  on (λ s, set_history (agent_history s ++ [mk_record id c agent account provider now None]) s) m.

(** [assign_pane_home_seq]: a second live session of an instance gets a home
    directory of its own. *)
Definition assign_pane_home_seq (instance_ : string) : M (option Z) := λ m,
  let s := session_supervisor m in
  if bool_decide (map_Exists (λ _ se, s_agent se = Some instance_) (sessions s))
  then (Ok (Some (pane_home_seq m)), set_counters (add64 (pane_home_seq m) 1) (NEXT_ID m) m)
  else (Ok None, m).

Definition PANE_HOMES_DIR_NAME : string := "panes".

(** The command line built for a session, without its environment and model
    options. *)
Inductive command :=
| AgentCommand (agent instance_ home_dir forwarded_dir codename_ : string) (id : SessionIdentity)
| ShellCommand (codename_ : string) (id : SessionIdentity).

Record SessionLaunch := mk_launch {
  launch_label : string;
  cmd : command;
  cache_dir : option string;
}.

Definition ok_or {A} (o : option A) (fmt : string) : res A :=
  match o with Some a => Ok a | None => bail fmt end.

Definition session_launch (instance_ provider : option string) (codename_ : string)
    : M SessionLaunch :=
  seq_ ← (match instance_ with
          | Some id => assign_pane_home_seq id
          | None => mret None
          end);
  cfg ← get launch_config;
  match instance_ with
  | Some id =>
      slug ← lift (ok_or (agents cfg !! id)
        "instance {instance:?} has no agent runtime in launch config");
      base_home ← lift (ok_or (instance_home_dirs cfg !! id)
        "instance {instance:?} has no home dir in launch config");
      let home_dir :=
        match seq_ with
        | Some n => base_home +:+ "/" +:+ PANE_HOMES_DIR_NAME +:+ "/" +:+ pretty n
        | None => base_home
        end in
      forwarded ← lift (ok_or (instance_forwarded_dirs cfg !! id)
        "instance {instance:?} has no forwarded dir in launch config");
      identity ← lift (ok_or (instance_identities cfg !! id)
        "instance {instance:?} has no isolated Unix identity");
      mret (mk_launch (visible_agent_label (labels cfg !! id) (Some slug) provider)
              (AgentCommand slug id home_dir forwarded codename_ identity)
              (instance_cache_dirs cfg !! id))
  | None =>
      identity ← lift (ok_or (shell_identity cfg)
        "launch config has no isolated shell identity");
      mret (mk_launch (visible_agent_label None None None) (ShellCommand codename_ identity) None)
  end.

(** What the operating system makes of [Session::spawn]: the PTY may not open,
    the child may not start (after the id was drawn), or both succeed. *)
Inductive spawn_outcome := PtyFailed | ChildFailed | Spawned.

Definition next_id : M Z := λ m,
  (Ok (NEXT_ID m), set_counters (pane_home_seq m) (add64 (NEXT_ID m) 1) m).

Definition session_spawn (o : spawn_outcome) (se : Session) : M (Session * Z) :=
  match o with
  | PtyFailed => lift (bail "failed to open PTY")
  | ChildFailed => _ ← next_id; lift (bail "failed to spawn session process")
  | Spawned => id ← next_id; mret (se, id)
  end.

(** The identity check shared by the two spawning operations. *)
Definition spawn_identity (cfg : CapsuleConfig) (agent : option string) (fmt : string)
    : res SessionIdentity :=
  match agent ≫= λ id, instance_identities cfg !! id with
  | Some i => Ok i
  | None => ok_or (shell_identity cfg) fmt
  end.

Definition spawn_session (now : Z) (o : spawn_outcome) (agent : option string)
    (env : list (string * string)) (provider : option string) : M Z :=
  _ ← (λ m, (ensure_capacity_for_new_session true (session_supervisor m), m));
  cfg ← get launch_config;
  agent ← lift (resolve_target cfg agent);
  c ← pick_next_codename;
  _ ← modify cancel_drag;
  launch ← session_launch agent provider c;
  let account := agent ≫= λ id, accounts cfg !! id in
  identity ← lift (spawn_identity cfg agent "spawn target has no isolated Unix identity");
  r ← get content_rows;
  w ← get term_cols;
  '(se, id) ← session_spawn o
    (mk_session (launch_label launch) agent account identity
       ((λ l, mk_provider l env) <$> provider) (sat_sub r 2, sat_sub w 2));
  _ ← modify (on (λ s, set_sessions (registry_insert id se (sessions s)) s));
  let tab := with_instance agent account (new_single (launch_label launch) id c) in
  _ ← modify (on (λ s,
         if bool_decide (tabs s = []) then set_active 0 (set_tabs (tabs s ++ [tab]) s)
         else set_active (length (tabs s)) (set_tabs (tabs s ++ [tab]) s)));
  _ ← modify (on (λ s, set_names ({[c]} ∪ codename_live s) (codename_retired s) s));
  _ ← modify (record_agent_history id now c agent provider);
  _ ← modify resize_panes;
  mret id.

Module SplitDirection.
Inductive t := Left | Right | Above | Below.
End SplitDirection.

Definition split_geometry (d : SplitDirection.t) : SplitDirectionGeometry.t :=
  match d with
  | SplitDirection.Left | SplitDirection.Right => SplitDirectionGeometry.LeftRight
  | SplitDirection.Above | SplitDirection.Below => SplitDirectionGeometry.TopBottom
  end.

Definition split_in (d : SplitDirection.t) (from_id new_id : Z) (t : PaneTree) : bool * PaneTree :=
  match d with
  | SplitDirection.Left => split_h from_id new_id SplitPosition.Before t
  | SplitDirection.Right => split_h from_id new_id SplitPosition.After t
  | SplitDirection.Above => split_v from_id new_id SplitPosition.Before t
  | SplitDirection.Below => split_v from_id new_id SplitPosition.After t
  end.

(** The last part of [split_focused_into]: the new pane enters the tree, or the
    session is dropped again. *)
Definition place_split (now : Z) (d : SplitDirection.t) (from_id new_id : Z) (m : Multiplexer)
    : Multiplexer :=
  match active (session_supervisor m) with
  | None => m
  | Some tab =>
      let '(placed, t') := split_in d from_id new_id (tree tab) in
      if negb placed then
        on (λ s, mark_agent_session_exited new_id now
                   (set_sessions (registry_remove new_id (sessions s)) s)) m
      else
        resize_panes
          (on (λ s, alter_tab (λ t, with_focus new_id (with_tree t' t)) (active_tab s) s) m)
  end.

Definition split_focused_into (now : Z) (o : spawn_outcome) (d : SplitDirection.t)
    (target : option string) (env : list (string * string)) (provider : option string) : M () :=
  _ ← (λ m, (ensure_capacity_for_new_session false (session_supervisor m), m));
  cfg ← get launch_config;
  agent ← lift (resolve_target cfg target);
  _ ← modify cancel_drag;
  tab ← get (λ m, active (session_supervisor m));
  match tab with
  | None => mret ()
  | Some tab =>
      let c := codename tab in
      let from_id := focused_id tab in
      r ← get content;
      let from_rect :=
        match list_find (λ l, l.1 = from_id) (leaves (tree tab) r) with
        | Some (_, l) => l.2
        | None => r
        end in
      launch ← session_launch agent provider c;
      let account := agent ≫= λ id, accounts cfg !! id in
      identity ← lift (spawn_identity cfg agent "split target has no isolated Unix identity");
      '(se, new_id) ← session_spawn o
        (mk_session (launch_label launch) agent account identity
           ((λ l, mk_provider l env) <$> provider)
           (split_spawn_inner_size (split_geometry d) from_rect));
      _ ← modify (on (λ s, set_sessions (registry_insert new_id se (sessions s)) s));
      _ ← modify (record_agent_history new_id now c agent provider);
      modify (place_split now d from_id new_id)
  end.

Definition focused_spawn_metadata (s : SessionSupervisor)
    : option string * list (string * string) * option string :=
  match active s ≫= λ tab, registry_get (focused_id tab) (sessions s) with
  | None => (None, [], None)
  | Some se =>
      (s_agent se, from_option provider_env [] (s_provider se), provider_label <$> s_provider se)
  end.

Definition split_focused (now : Z) (o : spawn_outcome) (d : SplitDirection.t) : M () :=
  _ ← (λ m, (ensure_capacity_for_new_session false (session_supervisor m), m));
  meta ← get (λ m, focused_spawn_metadata (session_supervisor m));
  let '(agent, env, provider) := meta in
  split_focused_into now o d agent env provider.

(** ** Tabs, focus and zoom *)

Definition next_tab (m : Multiplexer) : Multiplexer :=
  if bool_decide (tabs (session_supervisor m) = []) then m
  else on (λ s, set_active ((active_tab s + 1) mod length (tabs s)) s) (cancel_drag m).

Definition prev_tab (m : Multiplexer) : Multiplexer :=
  if bool_decide (tabs (session_supervisor m) = []) then m
  else on (λ s, set_active (if (active_tab s =? 0)%nat then length (tabs s) - 1
                            else active_tab s - 1) s) (cancel_drag m).

(** Also the [SwitchTab] action. *)
Definition jump_tab (idx : nat) (m : Multiplexer) : Multiplexer :=
  let s := session_supervisor m in
  if (idx <? length (tabs s))%nat && negb (idx =? active_tab s)%nat
  then on (set_active idx) (cancel_drag m) else m.

Definition toggle_zoom (m : Multiplexer) : Multiplexer :=
  match active (session_supervisor m) with
  | None => m
  | Some tab =>
      let was_zoomed :=
        match zoomed tab with
        | Some z => bool_decide (z ∈ all_ids (tree tab))
        | None => false
        end in
      resize_panes
        (on (λ s, alter_tab (with_zoom (if was_zoomed then None else Some (focused_id tab)))
                    (active_tab s) s) m)
  end.

Definition move_focus (d : Direction.t) (m : Multiplexer) : Multiplexer :=
  match active (session_supervisor m) with
  | None => m
  | Some tab =>
      match adjacent (tree tab) (content m) (focused_id tab) d with
      | Some next_id => on (λ s, alter_tab (with_focus next_id) (active_tab s) s) m
      | None => m
      end
  end.

Definition focus_pane_at (y x : Z) (m : Multiplexer) : bool * Multiplexer :=
  let s := session_supervisor m in
  let r := content m in
  let focus id := (true, on (λ s, alter_tab (with_focus id) (active_tab s) s) m) in
  if y <? STATUS_BAR_ROWS then (false, m)
  else match active s with
  | None => (false, m)
  | Some tab =>
      let prev := focused_id tab in
      match active_zoomed_id s with
      | Some z =>
          if (y <? add16 (row r) (rows r)) && (x <? add16 (col r) (cols r)) && negb (z =? prev)
          then focus z else (false, m)
      | None =>
          match list_find
                  (λ l : Z * Rect, (row l.2 <=? y) && (y <? add16 (row l.2) (rows l.2))
                     && (col l.2 <=? x) && (x <? add16 (col l.2) (cols l.2))
                     && negb (l.1 =? prev)) (leaves (tree tab) r) with
          | Some (_, (id, _)) => focus id
          | None => (false, m)
          end
      end
  end.

Definition focus_session_globally (id : Z) (m : Multiplexer) : bool * Multiplexer :=
  let probe := mk_rect 0 0 (term_rows m) (term_cols m) in
  match list_find (λ t, id ∈ (leaves (tree t) probe).*1) (tabs (session_supervisor m)) with
  | Some (i, _) => (true, on (λ s, set_active i (alter_tab (with_focus id) i s)) m)
  | None => (false, m)
  end.

Definition resize_focused (d : Direction.t) (m : Multiplexer) : Multiplexer :=
  match active (session_supervisor m) with
  | None => m
  | Some tab =>
      let '(ok, t') := resize (focused_id tab) d F32.lit_0_05 (tree tab) in
      let m := on (λ s, alter_tab (with_tree t') (active_tab s) s) m in
      if ok then resize_panes m else m
  end.

Definition detect_drag_start (y x : Z) (m : Multiplexer) : option DragState :=
  let s := session_supervisor m in
  if (y <? STATUS_BAR_ROWS) || bool_decide (is_Some (active_zoomed_id s)) then None
  else
    tab ← active s;
    '(p, o, r) ← border_at (tree tab) (content m) y x;
    Some (mk_drag (active_tab s) p o r).

Definition start_drag_resize (y x : Z) (m : Multiplexer) : Multiplexer :=
  set_drag (detect_drag_start y x m) m.

Definition drag_motion (y x : Z) (m : Multiplexer) : Multiplexer :=
  match drag m with
  | None => m
  | Some d =>
      let new_ratio := drag_resize_ratio (orient d) (drag_rect d) y x in
      match tabs (session_supervisor m) !! tab_idx d with
      | None => m
      | Some tab =>
          let '(ok, t') := set_ratio_at (path d) new_ratio (tree tab) in
          let m := on (alter_tab (with_tree t') (tab_idx d)) m in
          if ok then resize_panes m else m
      end
  end.

(** ** Closing *)

Definition filter_zoom (id : Z) (t : Tab) : Tab :=
  with_zoom (z ← zoomed t; if z =? id then None else Some z) t.

Definition close_focused_pane (now : Z) (m : Multiplexer) : Multiplexer :=
  let m := cancel_drag m in
  match active (session_supervisor m) with
  | None => m
  | Some tab =>
      let id := focused_id tab in
      let next_focus := snd <$> list_find (λ sid, sid ≠ id) (all_ids (tree tab)) in
      let s := alter_tab (with_tree (remove id (tree tab)).2)
                 (active_tab (session_supervisor m)) (session_supervisor m) in
      let s := set_sessions (registry_remove id (sessions s)) s in
      let s := alter_tab (filter_zoom id) (active_tab s) s in
      let s :=
        match next_focus with
        | Some nf => alter_tab (with_focus nf) (active_tab s) s
        | None => clamp_active (remove_tab (active_tab s) s)
        end in
      let s := mark_agent_session_exited id now s in
      resize_panes (on (λ _, s) m)
  end.

(** One session of a closed tab. *)
Definition close_session (now : Z) (s : SessionSupervisor) (id : Z) : SessionSupervisor :=
  match registry_get id (sessions s) with
  | Some _ => mark_agent_session_exited id now (set_sessions (registry_remove id (sessions s)) s)
  | None => s
  end.

Definition close_focused_tab (now : Z) (m : Multiplexer) : Multiplexer :=
  match active (session_supervisor m) with
  | None => m
  | Some tab =>
      let m := cancel_drag m in
      let s := foldl (close_session now) (session_supervisor m) (all_ids (tree tab)) in
      let s := remove_tab (active_tab s) s in
      let s := retire_codename (codename tab) now s in
      let s := clamp_active s in
      resize_panes (on (λ _, s) m)
  end.

Definition exit_all_sessions (m : Multiplexer) : Multiplexer :=
  on (λ s, set_active 0 (set_tabs [] (set_sessions ∅ s))) (cancel_drag m).

(** The first part of [remove_exited_session]: the tab of the session. *)
Definition detach_exited (id now : Z) (i : nat) (tab : Tab) (s : SessionSupervisor)
    : SessionSupervisor :=
  let ids := all_ids (tree tab) in
  if bool_decide (ids = [id]) then
    let was_active := (i =? active_tab s)%nat in
    let s := remove_tab i s in
    let s := retire_codename (codename tab) now s in
    if was_active then clamp_active (set_active (i - 1) s)
    else if (i <? active_tab s)%nat then set_active (active_tab s - 1) s else s
  else
    let t' := (remove id (tree tab)).2 in
    let s := alter_tab (with_tree t') i s in
    if focused_id tab =? id then
      match all_ids t' with
      | nf :: _ => alter_tab (with_focus nf) i s
      | [] => s
      end
    else s.

Definition remove_exited_session (id now : Z) (m : Multiplexer) : Multiplexer :=
  let m := cancel_drag m in
  let s := session_supervisor m in
  let owning := list_find (λ t, id ∈ all_ids (tree t)) (tabs s) in
  let s := match owning with Some (i, tab) => detach_exited id now i tab s | None => s end in
  let s := set_sessions (registry_remove id (sessions s)) s in
  let s := mark_agent_session_exited id now s in
  let s := match owning with Some (i, _) => alter_tab (filter_zoom id) i s | None => s end in
  resize_panes (on (λ _, s) m).

(** [Multiplexer::with_clock] in a process that has started no session:
    [offset] is the sub-second part of the clock. *)
Definition new_multiplexer (r c : Z) (cfg : CapsuleConfig) (offset : Z) : Multiplexer :=
  let '(r, c) := normalize_size r c in
  mk_mux (mk_sup ∅ [] 0 ∅ ∅ [] offset) r c (available_content_rows r) None cfg 0 1.

(** ** The operations as one step function *)

Inductive op :=
| OpSpawn (o : spawn_outcome) (agent : option string) (env : list (string * string))
    (provider : option string)
| OpSplitInto (o : spawn_outcome) (d : SplitDirection.t) (agent : option string)
    (env : list (string * string)) (provider : option string)
| OpSplit (o : spawn_outcome) (d : SplitDirection.t)
| OpNextTab | OpPrevTab | OpJumpTab (idx : nat)
| OpToggleZoom | OpMoveFocus (d : Direction.t) | OpFocusAt (y x : Z) | OpFocusSession (id : Z)
| OpResizeFocused (d : Direction.t)
| OpStartDrag (y x : Z) | OpDragMotion (y x : Z) | OpEndDrag
| OpClosePane | OpCloseTab | OpExitAll
| OpExited (id : Z)
| OpTerminalSize (r c : Z).

Definition step (now : Z) (o : op) (m : Multiplexer) : Multiplexer :=
  match o with
  | OpSpawn out agent env provider => (spawn_session now out agent env provider m).2
  | OpSplitInto out d agent env provider => (split_focused_into now out d agent env provider m).2
  | OpSplit out d => (split_focused now out d m).2
  | OpNextTab => next_tab m
  | OpPrevTab => prev_tab m
  | OpJumpTab idx => jump_tab idx m
  | OpToggleZoom => toggle_zoom m
  | OpMoveFocus d => move_focus d m
  | OpFocusAt y x => (focus_pane_at y x m).2
  | OpFocusSession id => (focus_session_globally id m).2
  | OpResizeFocused d => resize_focused d m
  | OpStartDrag y x => start_drag_resize y x m
  | OpDragMotion y x => drag_motion y x m
  | OpEndDrag => set_drag None m
  | OpClosePane => close_focused_pane now m
  | OpCloseTab => close_focused_tab now m
  | OpExitAll => exit_all_sessions m
  | OpExited id => remove_exited_session id now m
  | OpTerminalSize r c => resize_terminal r c m
  end.

(** A run: each operation with the time it happens at. *)
Definition run (ops : list (Z * op)) (m : Multiplexer) : Multiplexer :=
  foldl (λ m o, step o.1 o.2 m) m ops.
