(* ===== verification/SupervisorProofs.v ===== *)
(** * The session supervisor keeps its books

    Codenames are never reused, the tabs, trees, sessions and history of
    [Supervisor] stay consistent under every sequence of operations, and the
    sessions on screen have the size of their panes. *)

From stdpp Require Import base list gmap sets strings pretty relations.
From Stdlib Require Import ZArith Lia Permutation.
From S2P Require Import Prelude PaneLayout PaneProofs Supervisor.

(** ** Codenames *)

Lemma suffixed_inj base : Inj (=) (=) (suffixed base).
Proof.
  intros a b H. unfold suffixed in H.
  by apply (inj (String.append base)), (inj (String.append "-")), (inj pretty) in H.
Qed.

Lemma taken_false live retired w : taken live retired w = false ↔ w ∉ live ∪ retired.
Proof. unfold taken. rewrite orb_false_iff, !bool_decide_eq_false. set_solver. Qed.

Lemma find_suffix_taken fuel n live retired base :
  find_suffix fuel n live retired base ∈ live ∪ retired →
  ∀ k, (n ≤ k ≤ n + fuel)%nat → suffixed base k ∈ live ∪ retired.
Proof.
  revert n. induction fuel as [|fuel IH]; intros n; cbn.
  - intros H k Hk. by replace k with n by lia.
  - destruct (taken live retired (suffixed base n)) eqn:Ht.
    + intros H k Hk. destruct (decide (k = n)) as [->|]; [|eapply IH; [done|lia]].
      apply dec_stable. by rewrite <-taken_false, Ht.
    + intros H. by apply taken_false in Ht.
Qed.

Lemma find_suffix_fresh live retired base :
  find_suffix (size live + size retired) 2 live retired base ∉ live ∪ retired.
Proof.
  intros H. pose proof (find_suffix_taken _ _ _ _ _ H) as Hall.
  set (n := (size live + size retired)%nat) in *.
  assert (Hsub : (list_to_set (suffixed base <$> seq 2 (S n)) : gset string) ⊆ live ∪ retired).
  { intros w (k & -> & Hk%elem_of_seq)%elem_of_list_to_set%list_elem_of_fmap. apply Hall. lia. }
  apply subseteq_size in Hsub.
  rewrite size_list_to_set, length_fmap, length_seq in Hsub
    by (apply NoDup_fmap_2; [apply suffixed_inj|apply NoDup_seq]).
  pose proof (size_union_alt live retired). pose proof (subseteq_size (retired ∖ live) retired).
  assert (size (retired ∖ live) ≤ size retired)%nat by (auto with set_solver). lia.
Qed.

Lemma pick_codename_new live retired offset :
  pick_codename live retired offset ∉ live ∪ retired.
Proof.
  unfold pick_codename. destruct (list_find _ _) as [[i w]|] eqn:Hf.
  - apply list_find_Some in Hf as (_ & Ht & _). by apply taken_false.
  - apply find_suffix_fresh.
Qed.

(** ** The books

    [books] relates the tabs, the ids of the live sessions, the codenames, the
    history and the id counter.  It does not depend on the order of the tabs. *)

Definition tab_ids (t : Tab) : list Z := all_ids (tree t).
Definition pane_ids (ts : list Tab) : list Z := concat (tab_ids <$> ts).

Record tab_ok (t : Tab) : Prop := mk_tab_ok {
  focus_open : focused_id t ∈ tab_ids t;
  zoom_open : ∀ z, zoomed t = Some z → z ∈ tab_ids t;
  ratios_ok : wf_tree (tree t);
}.

(** The history has a record of session [id] under codename [c] that is not
    marked exited. *)
Definition open_record (h : list AgentRecord) (c : string) (id : Z) : Prop :=
  ∃ r, r ∈ h ∧ rec_session_id r = id ∧ rec_codename r = c ∧ exited_at r = None.

Record books (ts : list Tab) (D : gset Z) (live retired : gset string)
    (h : list AgentRecord) (next : Z) : Prop := mk_books {
  b_tabs : Forall tab_ok ts;
  b_nodup : NoDup (pane_ids ts);
  b_sessions : D = list_to_set (pane_ids ts);
  b_fresh : Forall (λ id, 1 ≤ id < next) (pane_ids ts);
  b_names : NoDup (codename <$> ts);
  b_live : Forall (λ t, codename t ∈ live) ts;
  b_disjoint : live ## retired;
  b_history : Forall (λ r, rec_session_id r < next ∧ rec_codename r ∈ live ∪ retired) h;
  b_open : ∀ t id, t ∈ ts → id ∈ tab_ids t → open_record h (codename t) id;
  b_capacity : (length ts ≤ MAX_TABS)%nat ∧ (size D ≤ MAX_SESSIONS)%nat;
}.

Lemma pane_ids_cons t ts : pane_ids (t :: ts) = tab_ids t ++ pane_ids ts.
Proof. done. Qed.

Lemma pane_ids_elem id ts : id ∈ pane_ids ts ↔ ∃ t, t ∈ ts ∧ id ∈ tab_ids t.
Proof.
  unfold pane_ids. induction ts as [|t ts IH]; cbn; [set_solver|].
  rewrite elem_of_app, IH. set_solver.
Qed.

#[global] Instance pane_ids_proper : Proper ((≡ₚ) ==> (≡ₚ)) pane_ids.
Proof.
  induction 1 as [|t ts us _ IH|t u ts|ts us vs _ IH1 _ IH2]; [done|..].
  - by rewrite !pane_ids_cons, IH.
  - rewrite !pane_ids_cons, !app_assoc. by rewrite (Permutation_app_comm (tab_ids u)).
  - by rewrite IH1.
Qed.

Lemma books_perm ts us D live retired h next :
  ts ≡ₚ us → books ts D live retired h next → books us D live retired h next.
Proof.
  intros Hp [H1 H2 H3 H4 H5 H6 H7 H8 H9 [H10 H11]]. split; rewrite <-?Hp; try done.
  intros t id Ht. apply H9. by rewrite Hp.
Qed.

Lemma books_next ts D live retired h next :
  books ts D live retired h next → books ts D live retired h (next + 1).
Proof.
  intros [H1 H2 H3 H4 H5 H6 H7 H8 H9 H10]. split; try done.
  - eapply Forall_impl; [exact H4|]. cbn. lia.
  - eapply Forall_impl; [exact H8|]. cbn. intros r []. split; [lia|done].
Qed.

(** *** The history *)

Lemma update_last_keep p f h r : r ∈ h → p r = false → r ∈ update_last p f h.
Proof.
  induction h as [|x h IH]; cbn; [done|]. intros Hr Hp.
  apply elem_of_cons in Hr as [<-|Hr].
  - destruct (existsb p h); [left|]. by rewrite Hp; left.
  - destruct (existsb p h); [right; auto|]. destruct (p x); by right.
Qed.

Lemma update_last_Forall (P : AgentRecord → Prop) p f h :
  (∀ r, P r → P (f r)) → Forall P h → Forall P (update_last p f h).
Proof.
  intros Hf. induction 1 as [|r h Hr Hh IH]; cbn; [done|].
  destruct (existsb p h); [by constructor|]. destruct (p r); constructor; auto.
Qed.

Lemma open_keep p f h c id :
  (∀ r, rec_session_id r = id → rec_codename r = c → p r = false) →
  open_record h c id → open_record (update_last p f h) c id.
Proof. intros Hp (r & Hr & <- & <- & He). exists r. split_and!; auto using update_last_keep. Qed.

Definition mark (id now : Z) (h : list AgentRecord) : list AgentRecord :=
  update_last (λ r, rec_session_id r =? id)
    (λ r, with_exit (Some (default now (exited_at r))) r) h.

Definition retire (c : string) (now : Z) (h : list AgentRecord) : list AgentRecord :=
  update_last (λ r, str_eqb (rec_codename r) c) (with_exit (Some now)) h.

Lemma open_mark h c id id' now :
  id' ≠ id → open_record h c id → open_record (mark id' now h) c id.
Proof. intros Hne. apply open_keep. intros r <- _. by apply Z.eqb_neq. Qed.

Lemma open_retire h c c' id now :
  c ≠ c' → open_record h c id → open_record (retire c' now h) c id.
Proof. intros Hne. apply open_keep. intros r _ <-. by apply bool_decide_eq_false. Qed.

Lemma open_app h c id r : open_record h c id → open_record (h ++ [r]) c id.
Proof. intros (x & Hx & ?). exists x. split; [|done]. apply elem_of_app. by left. Qed.

(** *** The changes an operation can make *)

Section changes.
Context (t : Tab) (rest : list Tab) (D : gset Z) (live retired : gset string)
  (h : list AgentRecord) (next : Z).
Context (H : books (t :: rest) D live retired h next).

(** A tab changes its focus, zoom, labels or ratios. *)
Lemma books_update t' :
  tab_ok t' → tab_ids t' = tab_ids t → codename t' = codename t →
  books (t' :: rest) D live retired h next.
Proof using H.
  intros Hok Hi Hc. destruct H as [H1 H2 H3 H4 H5 H6 H7 H8 H9 H10].
  rewrite pane_ids_cons in *. split; rewrite ?pane_ids_cons, ?Hi; try done.
  - by inversion H1; constructor.
  - cbn in *. by rewrite Hc.
  - inversion H6; constructor; [by rewrite Hc|done].
  - intros u id [->|Hu]%elem_of_cons Hid.
    + rewrite Hc. apply H9; [left|by rewrite <-Hi].
    + apply H9; [by right|done].
Qed.

(** A pane opens in a tab. *)
Lemma books_split t' r :
  1 ≤ next → (size D < MAX_SESSIONS)%nat →
  tab_ok t' → tab_ids t' ≡ₚ next :: tab_ids t → codename t' = codename t →
  rec_session_id r = next → rec_codename r = codename t → exited_at r = None →
  books (t' :: rest) ({[next]} ∪ D) live retired (h ++ [r]) (next + 1).
Proof using H.
  intros Hn Hsz Hok Hi Hc Hr1 Hr2 Hr3. destruct H as [H1 H2 H3 H4 H5 H6 H7 H8 H9 [H10 H11]].
  assert (Hp : pane_ids (t' :: rest) ≡ₚ next :: pane_ids (t :: rest))
    by (by rewrite !pane_ids_cons, Hi).
  assert (Hnew : next ∉ pane_ids (t :: rest)).
  { intros Hin. eapply Forall_forall in H4; [|exact Hin]. cbn in H4. lia. }
  split; rewrite ?Hp; try done.
  - by inversion H1; constructor.
  - by constructor.
  - by rewrite H3.
  - constructor; [lia|]. eapply Forall_impl; [exact H4|]. cbn. lia.
  - cbn in *. by rewrite Hc.
  - inversion H6; constructor; [by rewrite Hc|done].
  - apply Forall_app. split.
    + eapply Forall_impl; [exact H8|]. cbn. intros x []. split; [lia|done].
    + constructor; [|done]. split; [lia|]. rewrite Hr2. inversion H6. set_solver.
  - intros u id [->|Hu]%elem_of_cons Hid.
    + rewrite Hi in Hid. rewrite Hc. apply elem_of_cons in Hid as [->|Hid].
      * exists r. split_and!; try done. apply elem_of_app. right. by left.
      * apply open_app, H9; [left|done].
    + apply open_app, H9; [by right|done].
  - split; [done|]. rewrite size_union, size_singleton by set_solver. lia.
Qed.

(** A pane of a tab closes and another one remains. *)
Lemma books_close t' id now :
  tab_ok t' → tab_ids t' = filter (λ i, i ≠ id) (tab_ids t) → codename t' = codename t →
  id ∈ tab_ids t →
  books (t' :: rest) (D ∖ {[id]}) live retired (mark id now h) next.
Proof using H.
  intros Hok Hi Hc Hin. destruct H as [H1 H2 H3 H4 H5 H6 H7 H8 H9 [H10 H11]].
  rewrite pane_ids_cons in *.
  assert (Hrest : id ∉ pane_ids rest) by (apply NoDup_app in H2 as (_ & H2 & _); auto).
  split; rewrite ?pane_ids_cons, ?Hi; try done.
  - by inversion H1; constructor.
  - apply NoDup_app in H2 as (Ha & Hb & Hd). apply NoDup_app. split_and!; [by apply NoDup_filter| |done].
    intros x [_ Hx]%list_elem_of_filter. auto.
  - apply set_eq. intros x. rewrite H3.
    rewrite elem_of_difference, !elem_of_list_to_set, !elem_of_app, list_elem_of_filter.
    rewrite elem_of_singleton. naive_solver.
  - apply Forall_app in H4 as [Ha Hb]. apply Forall_app. split; [|done].
    apply Forall_forall. intros x [_ Hx]%list_elem_of_filter. by eapply Forall_forall in Ha.
  - cbn in *. by rewrite Hc.
  - inversion H6; constructor; [by rewrite Hc|done].
  - by apply update_last_Forall.
  - intros u i [->|Hu]%elem_of_cons Hid.
    + rewrite Hi in Hid. apply list_elem_of_filter in Hid as [Hne Hid].
      rewrite Hc. apply open_mark; [done|]. apply H9; [left|done].
    + apply open_mark; [|apply H9; [by right|done]]. intros ->.
      apply Hrest, pane_ids_elem. eauto.
  - split; [done|]. etrans; [|exact H11]. apply subseteq_size. set_solver.
Qed.

(** A tab closes with all its panes; its codename may be retired. *)
Lemma books_drop live' retired' h' :
  live' ## retired' → live ∪ retired ⊆ live' ∪ retired' → live ⊆ {[codename t]} ∪ live' →
  Forall (λ r, rec_session_id r < next ∧ rec_codename r ∈ live ∪ retired) h' →
  (∀ c id, c ≠ codename t → id ∉ tab_ids t → open_record h c id → open_record h' c id) →
  books rest (D ∖ list_to_set (tab_ids t)) live' retired' h' next.
Proof using H.
  intros Hd Hall Hl Hh Ho. destruct H as [H1 H2 H3 H4 H5 H6 H7 H8 H9 [H10 H11]].
  rewrite pane_ids_cons in *. apply NoDup_app in H2 as (Ha & Hb & Hc).
  cbn in H5. apply NoDup_cons in H5 as [H5a H5b]. apply Forall_cons in H6 as [H6a H6b].
  assert (Hother : ∀ u, u ∈ rest → codename u ≠ codename t).
  { intros u Hu E. apply H5a. rewrite <-E. by apply list_elem_of_fmap_2. }
  split; try done.
  - by inversion H1.
  - rewrite H3, list_to_set_app_L. set_solver.
  - by apply Forall_app in H4 as [_ H4].
  - apply Forall_forall. intros u Hu. eapply Forall_forall in H6b; [|exact Hu]. cbn in H6b.
    apply Hother in Hu. set_solver.
  - eapply Forall_impl; [exact Hh|]. cbn. intros r []. split; [done|]. set_solver.
  - intros u id Hu Hid. apply Ho; [by apply Hother| |apply H9; [by right|done]].
    intros Hin. apply (Hb id Hin), pane_ids_elem. eauto.
  - cbn in H10. split; [lia|]. etrans; [|exact H11]. apply subseteq_size. set_solver.
Qed.
End changes.

(** A tab opens with one pane. *)
Lemma books_spawn ts D live retired h next t c r :
  books ts D live retired h next →
  1 ≤ next → (length ts < MAX_TABS)%nat → (size D < MAX_SESSIONS)%nat →
  c ∉ live ∪ retired →
  tab_ok t → tab_ids t = [next] → codename t = c →
  rec_session_id r = next → rec_codename r = c → exited_at r = None →
  books (t :: ts) ({[next]} ∪ D) ({[c]} ∪ live) retired (h ++ [r]) (next + 1).
Proof.
  intros [H1 H2 H3 H4 H5 H6 H7 H8 H9 [H10 H11]] Hn Hlen Hsz Hfr Hok Hi Hc Hr1 Hr2 Hr3.
  assert (Hnew : next ∉ pane_ids ts).
  { intros Hin. eapply Forall_forall in H4; [|exact Hin]. cbn in H4. lia. }
  assert (Hex : ∀ t', t' ∈ ts → codename t' ∈ live) by (by apply Forall_forall).
  split; rewrite ?pane_ids_cons, ?Hi; cbn [app].
  - by constructor.
  - by constructor.
  - by rewrite H3.
  - constructor; [lia|]. eapply Forall_impl; [exact H4|]. cbn. lia.
  - cbn. rewrite Hc. constructor; [|done]. intros (u & Hu & Hin)%list_elem_of_fmap.
    apply Hex in Hin. rewrite <-Hu in Hin. apply Hfr. by apply elem_of_union_l.
  - constructor; [set_solver|]. eapply Forall_impl; [exact H6|]. cbn. set_solver.
  - set_solver.
  - apply Forall_app. split.
    + eapply Forall_impl; [exact H8|]. cbn. intros x []. split; [lia|set_solver].
    + constructor; [|done]. split; [lia|set_solver].
  - intros u id [->|Hu]%elem_of_cons Hid.
    + rewrite Hi in Hid. apply list_elem_of_singleton in Hid as ->. exists r.
      split_and!; try done; [|congruence]. apply elem_of_app. right. by left.
    + apply open_app, H9; done.
  - cbn. split; [lia|]. rewrite size_union, size_singleton by set_solver. lia.
Qed.

(** ** The invariant of the multiplexer *)

(** The orientation of the split a path leads to. *)
Fixpoint split_orient (p : list Z) (t : PaneTree) : option SplitOrient.t :=
  match t, p with
  | Leaf _, _ => None
  | HSplit _ _ _, [] => Some SplitOrient.Horizontal
  | VSplit _ _ _, [] => Some SplitOrient.Vertical
  | HSplit a b _, s :: p | VSplit a b _, s :: p =>
      if s =? 0 then split_orient p a else split_orient p b
  end.

Definition active_ok (s : SessionSupervisor) : Prop :=
  (active_tab s < length (tabs s))%nat ∨ tabs s = [] ∧ active_tab s = 0%nat.

Definition sup_books (s : SessionSupervisor) (next : Z) : Prop :=
  books (tabs s) (dom (sessions s)) (codename_live s) (codename_retired s) (agent_history s) next.

(** A drag in progress is about an open split of the recorded orientation. *)
Definition drag_ok (m : Multiplexer) : Prop :=
  ∀ d, drag m = Some d →
    wf_rect (drag_rect d) ∧
    ∃ t, tabs (session_supervisor m) !! tab_idx d = Some t
      ∧ split_orient (path d) (tree t) = Some (orient d).

Record inv (m : Multiplexer) : Prop := mk_inv {
  i_books : sup_books (session_supervisor m) (NEXT_ID m);
  i_active : active_ok (session_supervisor m);
  i_next : 1 ≤ NEXT_ID m;
  i_size : MIN_ROWS ≤ term_rows m ≤ U16_MAX ∧ MIN_COLS ≤ term_cols m ≤ U16_MAX
           ∧ content_rows m = available_content_rows (term_rows m);
  i_drag : drag_ok m;
}.

Lemma tab_at ts i (t : Tab) :
  ts !! i = Some t →
  ∃ rest, ts ≡ₚ t :: rest ∧ (∀ f, alter f i ts ≡ₚ f t :: rest) ∧ delete i ts ≡ₚ rest.
Proof.
  intros Hi. assert (Hlt := lookup_lt_Some _ _ _ Hi). exists (take i ts ++ drop (S i) ts).
  assert (Hlen : length (take i ts) = i) by (rewrite length_take; lia).
  apply take_drop_middle in Hi. revert Hi Hlen.
  generalize (take i ts) as l1, (drop (S i) ts) as l2. intros l1 l2 <- <-.
  split_and!.
  - symmetry. apply Permutation_middle.
  - intros f. rewrite alter_app_r_alt, Nat.sub_diag by lia. cbn.
    symmetry. apply Permutation_middle.
  - by rewrite delete_middle.
Qed.

Lemma wf_content m : inv m → wf_rect (content m).
Proof.
  intros [_ _ _ (H1 & H2 & H3) _]. unfold content, content_rect, wf_rect. cbn. rewrite H3.
  unfold available_content_rows, sat_sub, MIN_ROWS, MIN_COLS in *.
  unfold STATUS_BAR_ROWS, BRANCH_CONTEXT_BAR_ROWS, CAPSULE_HINT_TOP_SEPARATOR_ROWS,
    CAPSULE_HINT_BAR_ROWS, CAPSULE_HINT_SEPARATOR_ROWS, in_range, U16_MAX in *. lia.
Qed.

Lemma dom_resize_leaf g l : dom (resize_leaf g l) = dom g.
Proof. unfold resize_leaf, registry_alter. destruct (_ =? 0); [done|]. apply dom_alter_L. Qed.

Lemma dom_resize_leaves ls g : dom (foldl resize_leaf g ls) = dom g.
Proof. revert g. induction ls as [|l ls IH]; intros g; cbn; [done|]. by rewrite IH, dom_resize_leaf. Qed.

Lemma inv_resize_panes m : inv m → inv (resize_panes m).
Proof.
  intros [H1 H2 H3 H4 H5]. split; try done.
  unfold sup_books in *. cbn. by rewrite dom_resize_leaves.
Qed.

Lemma inv_cancel_drag m : inv m → inv (cancel_drag m).
Proof. by intros [H1 H2 H3 H4 H5]; split. Qed.

(** A change of the supervisor with no drag in progress. *)
Lemma inv_on s m :
  inv m → sup_books s (NEXT_ID m) → active_ok s → inv (on (λ _, s) (cancel_drag m)).
Proof. by intros [H1 H2 H3 H4 H5] ??; split. Qed.

(** A change of one tab that keeps its panes. *)
Lemma inv_alter f g m t :
  inv m → tabs (session_supervisor m) !! g (session_supervisor m) = Some t →
  tab_ok (f t) → tab_ids (f t) = tab_ids t → codename (f t) = codename t →
  (∀ p, split_orient p (tree (f t)) = split_orient p (tree t)) →
  inv (on (λ s, alter_tab f (g s) s) m).
Proof.
  intros [H1 H2 H3 H4 H5] Hi Hok Hids Hc Hs. split; try done; cbn.
  - unfold sup_books in *. destruct (tab_at _ _ _ Hi) as (rest & Hp & Ha & _). cbn.
    eapply books_perm; [symmetry; apply Ha|]. eapply books_update; eauto using books_perm.
  - unfold active_ok in *. cbn. rewrite length_alter.
    destruct H2 as [H2|[H2 ?]]; [by left|]. rewrite H2 in Hi. done.
  - intros d Hd. destruct (H5 d Hd) as (Hr & u & Hu & Ho). split; [done|]. cbn.
    destruct (decide (tab_idx d = g (session_supervisor m))) as [E|E].
    + exists (f t). rewrite E in *. rewrite Hi in Hu. injection Hu as <-.
      rewrite list_lookup_alter_eq, Hi. split; [done|]. by rewrite Hs.
    + exists u. by rewrite list_lookup_alter_ne by done.
Qed.

Lemma active_tab_ok m t : inv m → active (session_supervisor m) = Some t → tab_ok t.
Proof.
  intros [[H1 _ _ _ _ _ _ _ _ _] _ _ _ _] Ha%list_elem_of_lookup_2.
  by eapply Forall_forall in H1.
Qed.

(** *** Focus, zoom and ratios *)

Lemma with_focus_ok id t : tab_ok t → id ∈ tab_ids t → tab_ok (with_focus id t).
Proof. by intros [H1 H2 H3] Hid; split. Qed.

Lemma inv_focus g id m t :
  inv m → tabs (session_supervisor m) !! g (session_supervisor m) = Some t →
  id ∈ tab_ids t → inv (on (λ s, alter_tab (with_focus id) (g s) s) m).
Proof.
  intros Hm Ht Hid. apply (inv_alter (with_focus id) g m t); try done. apply with_focus_ok; [|done].
  destruct Hm as [[H1 _ _ _ _ _ _ _ _ _] _ _ _ _].
  apply list_elem_of_lookup_2 in Ht. by eapply Forall_forall in H1.
Qed.

Lemma adjacent_elem t r id d id' : adjacent t r id d = Some id' → id' ∈ all_ids t.
Proof.
  unfold adjacent. destruct (list_find _ _) as [[? [? fr]]|]; [|done].
  destruct (centre fr) as [y x]. intros ([i q] & Hm & ->)%fmap_Some. cbn.
  destruct (min_by_spec _ _ _ Hm) as [Hin _].
  apply list_elem_of_filter in Hin as [_ Hin]. rewrite <-(leaves_ids t r).
  by apply (list_elem_of_fmap_2 fst) in Hin.
Qed.

Lemma inv_move_focus d m : inv m → inv (move_focus d m).
Proof.
  intros Hm. unfold move_focus. destruct (active _) as [t|] eqn:Ha; [|done].
  destruct (adjacent _ _ _ _) as [id|] eqn:Hd; [|done].
  eapply inv_focus; [done|exact Ha|]. by eapply adjacent_elem.
Qed.

Lemma active_zoomed_elem s t z :
  active s = Some t → active_zoomed_id s = Some z → z ∈ tab_ids t ∧ zoomed t = Some z.
Proof.
  unfold active_zoomed_id. intros ->. cbn. destruct (zoomed t) as [y|]; cbn; [|done].
  case_bool_decide; [|done]. by intros [= <-].
Qed.

Lemma inv_focus_pane_at y x m : inv m → inv (focus_pane_at y x m).2.
Proof.
  intros Hm. unfold focus_pane_at. destruct (y <? STATUS_BAR_ROWS); [done|].
  destruct (active _) as [t|] eqn:Ha; [|done].
  destruct (active_zoomed_id _) as [z|] eqn:Hz.
  - destruct (_ && _ && _)%bool; [|done]. eapply inv_focus; [done|exact Ha|].
    by eapply active_zoomed_elem.
  - destruct (list_find _ _) as [[? [id r]]|] eqn:Hf; [|done].
    eapply inv_focus; [done|exact Ha|]. unfold tab_ids. rewrite <-(leaves_ids _ (content m)).
    apply list_find_Some in Hf as (Hl%list_elem_of_lookup_2 & _).
    by apply (list_elem_of_fmap_2 fst) in Hl.
Qed.

Lemma inv_set_active m i :
  inv m → (i < length (tabs (session_supervisor m)))%nat → inv (on (set_active i) m).
Proof. intros [H1 H2 H3 H4 H5] Hi. split; try done. by left. Qed.

Lemma inv_focus_session id m : inv m → inv (focus_session_globally id m).2.
Proof.
  intros Hm. unfold focus_session_globally. destruct (list_find _ _) as [[i t]|] eqn:Hf; [|done].
  apply list_find_Some in Hf as (Hi & Hid & _). rewrite leaves_ids in Hid.
  change (inv (on (set_active i) (on (λ s, alter_tab (with_focus id) i s) m))).
  apply inv_set_active; [by eapply (inv_focus (λ _, i))|].
  cbn. rewrite length_alter. by apply lookup_lt_Some in Hi.
Qed.

Lemma inv_toggle_zoom m : inv m → inv (toggle_zoom m).
Proof.
  intros Hm. unfold toggle_zoom. destruct (active _) as [t|] eqn:Ha; [|done].
  apply inv_resize_panes. eapply inv_alter; [done|exact Ha| |done..].
  pose proof (active_tab_ok _ _ Hm Ha) as [H1 H2 H3]. split; [done| |done].
  intros z. cbn. destruct (zoomed t) as [y|]; [case_bool_decide|]; [done|by intros [= <-]..].
Qed.

Lemma resize_orient id d delta t p :
  split_orient p (resize id d delta t).2 = split_orient p t.
Proof.
  revert p. induction t as [l|a IHa b IHb q|a IHa b IHb q]; intros p; cbn [resize];
    destruct (negb _); try done.
  all: destruct (crosses _ _ _ _); [by destruct p|].
  all: destruct (bool_decide _);
    [destruct (resize id d delta a) as [ok a'] eqn:E|destruct (resize id d delta b) as [ok b'] eqn:E];
    destruct p as [|s p]; cbn in *; try done; destruct (s =? 0); auto.
Qed.

Lemma set_ratio_orient path q t p :
  split_orient p (set_ratio_at path q t).2 = split_orient p t.
Proof.
  revert q t p. induction path as [|s path IH]; intros q t p; cbn [set_ratio_at];
    destruct (negb _); try done; [by destruct t, p|..]; destruct t as [l|a b r|a b r]; [done|..].
  all: destruct (s =? 0);
    [specialize (IH (clamp_split_ratio q) a); destruct (set_ratio_at path _ a) as [ok a'] eqn:E|
     specialize (IH (clamp_split_ratio q) b); destruct (set_ratio_at path _ b) as [ok b'] eqn:E];
    destruct p as [|s' p]; cbn in *; try done; destruct (s' =? 0); auto.
Qed.

(** A tab gets a tree with the same panes. *)
Lemma inv_retree g t' m t :
  inv m → tabs (session_supervisor m) !! g (session_supervisor m) = Some t →
  all_ids t' = all_ids (tree t) → wf_tree t' →
  (∀ p, split_orient p t' = split_orient p (tree t)) →
  inv (on (λ s, alter_tab (with_tree t') (g s) s) m).
Proof.
  intros Hm Ht Hi Hw Ho. apply (inv_alter _ _ _ t); try done.
  destruct Hm as [[H1 _ _ _ _ _ _ _ _ _] _ _ _ _].
  apply list_elem_of_lookup_2 in Ht. eapply Forall_forall in H1 as [Hf Hz _]; [|exact Ht].
  unfold tab_ids in *. split; unfold tab_ids; cbn; rewrite ?Hi; auto.
Qed.

Lemma inv_resize_focused d m : inv m → inv (resize_focused d m).
Proof.
  intros Hm. unfold resize_focused. destruct (active _) as [t|] eqn:Ha; [|done].
  pose proof (active_tab_ok _ _ Hm Ha) as [_ _ H3].
  destruct (resize_spec (focused_id t) d F32.lit_0_05 (tree t)) as [Hi Hw]; [done..|].
  pose proof (resize_orient (focused_id t) d F32.lit_0_05 (tree t)) as Ho.
  destruct (resize _ _ _ _) as [ok t'] eqn:Hr. cbn in Hi, Hw, Ho.
  assert (inv (on (λ s, alter_tab (with_tree t') (active_tab s) s) m)) by by eapply inv_retree.
  destruct ok; [by apply inv_resize_panes|done].
Qed.

Lemma inv_drag_motion y x m : inv m → inv (drag_motion y x m).
Proof.
  intros Hm. unfold drag_motion. destruct (drag m) as [d|]; [|done].
  destruct (_ !! _) as [t|] eqn:Ht; [|done].
  assert (Hw : wf_tree (tree t)).
  { destruct Hm as [[H1 _ _ _ _ _ _ _ _ _] _ _ _ _]. apply list_elem_of_lookup_2 in Ht.
    by eapply Forall_forall in H1 as [_ _ ?]. }
  destruct (set_ratio_at_spec (path d) (drag_resize_ratio (orient d) (drag_rect d) y x) (tree t) Hw)
    as [Hi Hw'].
  pose proof (set_ratio_orient (path d) (drag_resize_ratio (orient d) (drag_rect d) y x) (tree t)) as Ho.
  destruct (set_ratio_at _ _ _) as [ok t'] eqn:Hr. cbn in Hi, Hw', Ho.
  assert (inv (on (alter_tab (with_tree t') (tab_idx d)) m))
    by by eapply (inv_retree (λ _, tab_idx d)).
  destruct ok; [by apply inv_resize_panes|done].
Qed.

Lemma split_at_orient p t r o rr : split_at p t r = Some (o, rr) → split_orient p t = Some o.
Proof.
  revert p r. induction t as [l|a IHa b IHb q|a IHa b IHb q]; intros [|s p] r; cbn; try done;
    try (by intros [= <- _]); destruct (s =? 0); eauto.
Qed.

Lemma inv_start_drag y x m : inv m → inv (start_drag_resize y x m).
Proof.
  intros Hm. pose proof (wf_content m Hm) as Hwf. destruct Hm as [H1 H2 H3 H4 H5].
  split; try done. intros d Hd. cbn in Hd. unfold detect_drag_start in Hd.
  destruct (_ || _)%bool; [done|]. destruct (active _) as [t|] eqn:Ha; [|done]. cbn in Hd.
  destruct (border_at _ _ _ _) as [[[p o] r]|] eqn:Hb; [|done]. injection Hd as <-. cbn.
  apply border_at_split in Hb. split; [by eapply split_at_wf|].
  exists t. split; [done|]. by eapply split_at_orient.
Qed.

(** *** Switching tabs *)

Lemma inv_next_tab m : inv m → inv (next_tab m).
Proof.
  intros Hm. unfold next_tab. case_bool_decide as E; [done|].
  apply (inv_set_active (cancel_drag m)); [by apply inv_cancel_drag|].
  apply Nat.mod_upper_bound. cbn. by destruct (tabs _).
Qed.

Lemma inv_prev_tab m : inv m → inv (prev_tab m).
Proof.
  intros Hm. unfold prev_tab. case_bool_decide as E; [done|].
  apply (inv_set_active (cancel_drag m)); [by apply inv_cancel_drag|]. cbn.
  destruct (i_active _ Hm) as [Ha|[Ha _]]; [|done].
  destruct (Nat.eqb_spec (active_tab (session_supervisor m)) 0); lia.
Qed.

Lemma inv_jump_tab i m : inv m → inv (jump_tab i m).
Proof.
  intros Hm. unfold jump_tab. destruct (Nat.ltb_spec i (length (tabs (session_supervisor m)))); [|done].
  destruct (negb _); [|done]. by apply (inv_set_active (cancel_drag m)); [apply inv_cancel_drag|].
Qed.

(** *** Closing *)

Lemma all_ids_nonempty t : all_ids t ≠ [].
Proof.
  induction t as [l|a IHa b IHb q|a IHa b IHb q]; cbn; [done|..];
    by destruct (all_ids a).
Qed.

Lemma remove_ids id t :
  NoDup (all_ids t) → id ∈ all_ids t → all_ids t ≠ [id] →
  all_ids (remove id t).2 = filter (λ i, i ≠ id) (all_ids t).
Proof.
  intros Hn Hin Hne. unfold remove.
  destruct (remove_inner_ids id t Hn Hin) as (r & s & -> & [->|H]); [by destruct Hne|done].
Qed.

Lemma filter_zoom_ok id t : tab_ok t → tab_ok (filter_zoom id t).
Proof.
  intros [H1 H2 H3]. split; [done| |done]. cbn. intros z.
  destruct (zoomed t) as [y|]; [|done]. cbn. destruct (y =? id); [done|]. intros [= <-]. auto.
Qed.

Lemma filter_zoom_other id t z : zoomed (filter_zoom id t) = Some z → zoomed t = Some z ∧ z ≠ id.
Proof.
  cbn. destruct (zoomed t) as [y|]; [|done]. cbn. destruct (Z.eqb_spec y id); [done|].
  by intros [= <-].
Qed.

Lemma alter_none {A} (f : A → A) (i : nat) (l : list A) : l !! i = None → alter f i l = l.
Proof.
  revert i. induction l as [|x l IH]; intros [|i] H; cbn in *; try done. f_equal. by apply IH.
Qed.

Lemma books_filter_zoom id i ts D live retired h next :
  books ts D live retired h next → books (alter (filter_zoom id) i ts) D live retired h next.
Proof.
  intros H. destruct (ts !! i) as [t|] eqn:Hi.
  - destruct (tab_at _ _ _ Hi) as (rest & Hp & Ha & _).
    eapply books_perm; [symmetry; apply Ha|].
    apply (books_update t); [by apply (books_perm ts)| |done..].
    apply filter_zoom_ok. destruct H as [H _ _ _ _ _ _ _ _ _].
    apply list_elem_of_lookup_2 in Hi. by eapply Forall_forall in H.
  - by rewrite alter_none.
Qed.

Lemma books_mark id now ts D live retired h next :
  id ∉ pane_ids ts → books ts D live retired h next →
  books ts D live retired (mark id now h) next.
Proof.
  intros Hid [H1 H2 H3 H4 H5 H6 H7 H8 H9 H10]. split; try done.
  - by apply update_last_Forall.
  - intros t i Ht Hi. apply open_mark; [|auto]. intros ->. apply Hid, pane_ids_elem. eauto.
Qed.

Lemma clamp_active_ok s : active_ok (clamp_active s).
Proof.
  unfold clamp_active, active_ok. destruct (Nat.leb_spec (length (tabs s)) (active_tab s)); [|by left].
  cbn. destruct (tabs s) as [|t ts]; cbn; [by right|]. left. lia.
Qed.

Lemma clamp_active_books s next : sup_books s next → sup_books (clamp_active s) next.
Proof. unfold clamp_active. by destruct (_ <=? _)%nat. Qed.

Lemma delete_alter {A} (f : A → A) (i : nat) (l : list A) : delete i (alter f i l) = delete i l.
Proof. revert i. induction l as [|x l IH]; intros [|i]; [done..|].
  change (x :: delete i (alter f i l) = x :: delete i l). by rewrite IH.
Qed.

Lemma registry_remove_dom id g : 1 ≤ id → dom (registry_remove id g) = dom g ∖ {[id]}.
Proof.
  intros Hid. unfold registry_remove. rewrite (proj2 (Z.eqb_neq id 0)) by lia. apply dom_delete_L.
Qed.

Lemma books_tab ts D live retired h next t id :
  books ts D live retired h next → t ∈ ts → id ∈ tab_ids t →
  tab_ok t ∧ NoDup (tab_ids t) ∧ 1 ≤ id < next.
Proof.
  intros [H1 H2 _ H4 _ _ _ _ _ _] Ht Hid. split_and!.
  - by eapply Forall_forall in H1.
  - apply list_elem_of_split in Ht as (l1 & l2 & ->). unfold pane_ids in H2.
    rewrite fmap_app, concat_app in H2. apply NoDup_app in H2 as (_ & _ & H2).
    by apply NoDup_app in H2 as (? & _).
  - apply (proj1 (Forall_forall _ _) H4). apply pane_ids_elem. eauto.
  - apply (proj1 (Forall_forall _ _) H4). apply pane_ids_elem. eauto.
Qed.

(** The tab of a pane that closes while others stay open. *)
Lemma closed_tab_ok id nf t :
  tab_ok t → NoDup (tab_ids t) → id ∈ tab_ids t → tab_ids t ≠ [id] →
  nf ∈ tab_ids t → nf ≠ id →
  tab_ok (filter_zoom id (with_focus nf (with_tree (remove id (tree t)).2 t)))
  ∧ all_ids (remove id (tree t)).2 = filter (λ i, i ≠ id) (tab_ids t).
Proof.
  intros [H1 H2 H3] Hn Hid Hne Hnf Hnn. pose proof (remove_ids _ _ Hn Hid Hne) as Hr.
  split; [|done]. split; unfold tab_ids; [cbn|cbn [tree filter_zoom with_zoom]|].
  - rewrite Hr. by apply list_elem_of_filter.
  - intros z Hz. apply filter_zoom_other in Hz as [Hz Hzn]. cbn in Hz.
    cbn. rewrite Hr. apply list_elem_of_filter. auto.
  - cbn. by apply remove_wf.
Qed.

Lemma NoDup_all_eq (id : Z) l : NoDup l → id ∈ l → (∀ x, x ∈ l → x = id) → l = [id].
Proof.
  intros Hn Hin Hall. destruct l as [|a [|b l]]; [by apply not_elem_of_nil in Hin|..].
  - f_equal. apply Hall. left.
  - apply NoDup_cons in Hn as [Hn _]. destruct Hn. rewrite (Hall a), (Hall b) by set_solver. left.
Qed.

Lemma inv_close_focused_pane now m : inv m → inv (close_focused_pane now m).
Proof.
  intros Hm. unfold close_focused_pane. cbn [session_supervisor cancel_drag set_drag].
  destruct (active (session_supervisor m)) as [t|] eqn:Ha; [|by apply inv_cancel_drag].
  set (s := session_supervisor m) in *. set (id := focused_id t).
  apply inv_resize_panes, inv_on; [done| |].
  - pose proof (i_books _ Hm) as Hb. fold s in Hb.
    destruct (books_tab _ _ _ _ _ _ t id Hb) as (Hok & Hn & Hid);
      [by eapply list_elem_of_lookup_2|apply (active_tab_ok m t Hm Ha)|].
    destruct (tab_at _ _ _ Ha) as (rest & Hp & Hal & Hdel).
    apply (books_perm _ _ _ _ _ _ _ Hp) in Hb.
    pose proof (focus_open _ Hok) as Hf. fold id in Hf.
    destruct (list_find _ _) as [[j nf]|] eqn:Hnf; cbn [fmap option_fmap option_map snd].
    + apply list_find_Some in Hnf as (Hj%list_elem_of_lookup_2 & Hne & _).
      assert (Hone : tab_ids t ≠ [id]) by (unfold tab_ids; intros E; rewrite E in Hj; set_solver).
      destruct (closed_tab_ok id nf t) as [Hok' Hids]; [done..|].
      unfold sup_books. cbn. rewrite registry_remove_dom by lia.
      rewrite !list_alter_alter_eq. eapply books_perm; [symmetry; apply Hal|].
      by apply (books_close t).
    + apply list_find_None in Hnf.
      assert (Hone : tab_ids t = [id]).
      { apply NoDup_all_eq; [done..|]. intros x Hx. eapply Forall_forall in Hnf; [|exact Hx].
        by apply dec_stable in Hnf. }
      assert (Hdrop : books rest (dom (sessions s) ∖ {[id]}) (codename_live s) (codename_retired s)
                        (mark id now (agent_history s)) (NEXT_ID m)).
      { replace {[id]} with (list_to_set (tab_ids t) : gset Z) by (rewrite Hone; set_solver).
        apply (books_drop t rest _ _ _ _ _ Hb); [by apply Hb|done|set_solver| |].
        - apply update_last_Forall; [done|]. by apply Hb.
        - intros c i _ Hi. apply open_mark. rewrite Hone in Hi. set_solver. }
      unfold sup_books. cbn. unfold clamp_active.
      destruct (_ <=? _)%nat; cbn; rewrite !delete_alter, registry_remove_dom by lia;
        (eapply books_perm; [symmetry; exact Hdel|exact Hdrop]).
  - unfold active_ok. destruct (list_find _ _) as [[j nf]|] eqn:Hnf; cbn.
    + rewrite !length_alter. left. by eapply lookup_lt_Some.
    + apply (clamp_active_ok (remove_tab (active_tab s) _)).
Qed.

Lemma close_session_fold now ids s :
  Forall (λ id, 1 ≤ id) ids →
  let s' := foldl (close_session now) s ids in
  tabs s' = tabs s ∧ active_tab s' = active_tab s ∧ codename_live s' = codename_live s
  ∧ codename_retired s' = codename_retired s
  ∧ dom (sessions s') = dom (sessions s) ∖ list_to_set ids
  ∧ (∀ P : AgentRecord → Prop, (∀ r e, P r → P (with_exit e r)) →
       Forall P (agent_history s) → Forall P (agent_history s'))
  ∧ (∀ c i, i ∉ ids → open_record (agent_history s) c i → open_record (agent_history s') c i).
Proof.
  intros Hpos. revert s. induction Hpos as [|id ids Hid Hpos IH]; intros s; cbn -[list_to_set].
  { split_and!; try done. set_solver. }
  destruct (IH (close_session now s id)) as (-> & -> & -> & -> & -> & HP & Ho).
  unfold close_session, registry_get in *. rewrite (proj2 (Z.eqb_neq id 0)) in * by lia.
  destruct (sessions s !! id) as [se|] eqn:Hs; cbn in *.
  - rewrite registry_remove_dom by done. split_and!; try done.
    + set_solver.
    + intros P HPe Hh. apply HP; [done|]. apply update_last_Forall; auto.
    + intros c i Hi Hop. apply Ho; [set_solver|]. apply open_mark; [set_solver|done].
  - split_and!; try done.
    + apply not_elem_of_dom in Hs. set_solver.
    + intros c i Hi. apply Ho. set_solver.
Qed.

Lemma inv_close_focused_tab now m : inv m → inv (close_focused_tab now m).
Proof.
  intros Hm. unfold close_focused_tab.
  destruct (active (session_supervisor m)) as [t|] eqn:Ha; [|done].
  cbn [session_supervisor cancel_drag set_drag]. set (s := session_supervisor m) in *.
  apply inv_resize_panes, inv_on; [done|apply clamp_active_books|apply clamp_active_ok].
  pose proof (i_books _ Hm) as Hb. fold s in Hb.
  destruct (tab_at _ _ _ Ha) as (rest & Hp & Hal & Hdel).
  apply (books_perm _ _ _ _ _ _ _ Hp) in Hb.
  assert (Hpos : Forall (λ id, 1 ≤ id) (tab_ids t)).
  { destruct Hb as [_ _ _ Hf _ _ _ _ _ _]. rewrite pane_ids_cons in Hf.
    apply Forall_app in Hf as [Hf _]. eapply Forall_impl; [exact Hf|]. cbn. lia. }
  destruct (close_session_fold now (tab_ids t) s Hpos) as (E1 & E2 & E3 & E4 & E5 & HP & Ho).
  fold (tab_ids t). unfold sup_books. cbn. rewrite E1, E2, E3, E4, E5.
  eapply books_perm; [symmetry; exact Hdel|].
  pose proof (b_disjoint _ _ _ _ _ _ Hb) as Hdis.
  apply (books_drop t rest _ _ _ _ _ Hb).
  - set_solver.
  - intros x Hx. destruct (decide (x = codename t)); set_solver.
  - intros x Hx. destruct (decide (x = codename t)); set_solver.
  - apply update_last_Forall; [done|]. apply HP; [done|]. by apply Hb.
  - intros c i Hc Hi Hop. apply open_retire; [done|]. by apply Ho.
Qed.

Lemma books_empty ts D live retired h next :
  books ts D live retired h next → books [] ∅ live retired h next.
Proof.
  intros [H1 H2 H3 H4 H5 H6 H7 H8 H9 [H10 H11]].
  split; cbn; try done; try constructor. by intros t id ?%not_elem_of_nil.
  cbn; lia. rewrite size_empty. lia.
Qed.

Lemma inv_exit_all m : inv m → inv (exit_all_sessions m).
Proof.
  intros Hm. apply (inv_on _ _ Hm); [|by right].
  unfold sup_books. cbn. rewrite dom_empty_L. eapply books_empty, Hm.
Qed.

(** *** Exited sessions *)

(** The last pane of a tab goes, and its tab and codename with it. *)
Lemma books_last_pane id now i t rest s next :
  books (t :: rest) (dom (sessions s)) (codename_live s) (codename_retired s) (agent_history s) next →
  delete i (tabs s) ≡ₚ rest → tab_ids t = [id] →
  books (delete i (tabs s)) (dom (sessions s) ∖ {[id]})
    (codename_live s ∖ {[codename t]}) ({[codename t]} ∪ codename_retired s)
    (mark id now (retire (codename t) now (agent_history s))) next.
Proof.
  intros Hb Hdel Hone.
  eapply books_perm; [symmetry; exact Hdel|].
  replace {[id]} with (list_to_set (tab_ids t) : gset Z) by (rewrite Hone; set_solver).
  pose proof (b_disjoint _ _ _ _ _ _ Hb) as Hdis.
  apply (books_drop t rest _ _ _ _ _ Hb).
  - set_solver.
  - intros x Hx. destruct (decide (x = codename t)); set_solver.
  - intros x Hx. destruct (decide (x = codename t)); set_solver.
  - do 2 (apply update_last_Forall; [done|]). by apply Hb.
  - intros c j Hc Hj Hop. apply open_mark; [rewrite Hone in Hj; set_solver|].
    by apply open_retire.
Qed.

Lemma books_detach id now i t s next :
  sup_books s next → tabs s !! i = Some t → id ∈ tab_ids t →
  let s' := detach_exited id now i t s in
  books (alter (filter_zoom id) i (tabs s')) (dom (sessions s') ∖ {[id]}) (codename_live s') (codename_retired s')
    (mark id now (agent_history s')) next.
Proof.
  intros Hb Hi Hid. unfold sup_books in Hb.
  destruct (books_tab _ _ _ _ _ _ t id Hb) as (Hok & Hn & Hpos);
    [by eapply list_elem_of_lookup_2|done|].
  destruct (tab_at _ _ _ Hi) as (rest & Hp & Hal & Hdel).
  apply (books_perm _ _ _ _ _ _ _ Hp) in Hb. unfold detach_exited. fold (tab_ids t).
  case_bool_decide as Hone.
  - pose proof (books_last_pane id now i t rest s next Hb Hdel Hone) as Hdrop.
    unfold clamp_active.
    repeat match goal with |- context [if ?b then _ else _] => destruct b end;
      by apply books_filter_zoom.
  - assert (Hnf : ∃ nf l, all_ids (remove id (tree t)).2 = nf :: l).
    { pose proof (all_ids_nonempty (remove id (tree t)).2).
      destruct (all_ids _) as [|nf l]; [done|eauto]. }
    destruct Hnf as (nf & l & Hnf). pose proof (remove_ids _ _ Hn Hid Hone) as Hr.
    set (f := if focused_id t =? id then nf else focused_id t).
    assert (Hf : f ∈ tab_ids t ∧ f ≠ id).
    { subst f. destruct (Z.eqb_spec (focused_id t) id); [|by split; [apply Hok|]].
      assert (Hin : nf ∈ filter (λ i, i ≠ id) (all_ids (tree t))) by (rewrite <-Hr, Hnf; left).
      apply list_elem_of_filter in Hin as [? ?]. done. }
    destruct (closed_tab_ok id f t) as [Hok' Hids]; [done..|naive_solver|naive_solver|].
    set (s' := if focused_id t =? id then _ else _).
    assert (Hs' : tabs s' = alter (λ t, with_focus (if focused_id t =? id then nf else focused_id t)
                                   (with_tree (remove id (tree t)).2 t)) i (tabs s)).
    { subst s'. rewrite Hnf. destruct (Z.eqb_spec (focused_id t) id) as [E|E]; cbn;
        rewrite ?list_alter_alter_eq; apply list_alter_ext; try done;
        intros u Hu; rewrite Hi in Hu; injection Hu as <-; cbn.
      - by rewrite E, Z.eqb_refl.
      - by rewrite (proj2 (Z.eqb_neq _ _)). }
    assert (Hrest : dom (sessions s') = dom (sessions s) ∧ codename_live s' = codename_live s
      ∧ codename_retired s' = codename_retired s ∧ agent_history s' = agent_history s)
      by (subst s'; rewrite Hnf; by destruct (_ =? _)).
    destruct Hrest as (E2 & E3 & E4 & E5). rewrite Hs', E2, E3, E4, E5.
    rewrite list_alter_alter_eq. eapply books_perm; [symmetry; apply Hal|].
    by apply (books_close t).
Qed.

Lemma detach_active id now i t s :
  active_ok s → tabs s !! i = Some t → active_ok (detach_exited id now i t s).
Proof.
  intros Ha Hi%lookup_lt_Some. unfold detach_exited. case_bool_decide.
  - destruct (Nat.eqb_spec i (active_tab s)); [apply clamp_active_ok|].
    destruct (Nat.ltb_spec i (active_tab (retire_codename (codename t) now (remove_tab i s))));
      unfold active_ok in *; cbn in *; rewrite length_delete by (by apply lookup_lt_is_Some);
      destruct Ha as [Ha|[Ha ?]]; try (rewrite Ha in Hi; cbn in Hi); lia.
  - unfold active_ok in *. destruct Ha as [Ha|[Ha _]]; [|rewrite Ha in Hi; cbn in Hi; lia].
    left. destruct (_ =? _); [destruct (all_ids (remove _ _).2)|]; cbn [tabs active_tab alter_tab set_tabs];
      by rewrite ?length_alter.
Qed.

Lemma inv_remove_exited id now m : inv m → inv (remove_exited_session id now m).
Proof.
  intros Hm. unfold remove_exited_session. cbn [session_supervisor cancel_drag set_drag].
  set (s := session_supervisor m). apply inv_resize_panes, inv_on; [done| |].
  - pose proof (i_books _ Hm) as Hb. fold s in Hb.
    destruct (list_find _ _) as [[i t]|] eqn:Hf.
    + apply list_find_Some in Hf as (Hi & Hid & _).
      destruct (books_tab _ _ _ _ _ _ t id Hb) as (_ & _ & Hpos);
        [by eapply list_elem_of_lookup_2|done|].
      pose proof (books_detach id now i t s _ Hb Hi Hid) as Hd. unfold sup_books. cbn in *.
      by rewrite registry_remove_dom by lia.
    + apply list_find_None in Hf.
      assert (Hn : id ∉ pane_ids (tabs s)).
      { intros (u & Hu & Hid)%pane_ids_elem. by eapply Forall_forall in Hf. }
      unfold sup_books in *. cbn. apply books_mark; [done|].
      replace (dom (registry_remove id (sessions s))) with (dom (sessions s)); [done|].
      unfold registry_remove. destruct (id =? 0); [done|]. rewrite dom_delete_L.
      rewrite (b_sessions _ _ _ _ _ _ Hb). set_solver.
  - pose proof (i_active _ Hm) as Ha. fold s in Ha.
    destruct (list_find _ _) as [[i t]|] eqn:Hf; [|done].
    apply list_find_Some in Hf as (Hi & _).
    pose proof (detach_active id now i t s Ha Hi) as Hd.
    unfold active_ok in *. cbn. rewrite length_alter. cbn in Hd.
    destruct Hd as [Hd|[Hd ?]]; [by left|right]. split; [|done].
    by rewrite Hd.
Qed.

(** *** Terminal size *)

Lemma inv_resize_terminal r c m :
  is_u16 r → is_u16 c → inv m → inv (resize_terminal r c m).
Proof.
  intros Hr Hc Hm. unfold resize_terminal, normalize_size. apply inv_resize_panes.
  destruct Hm as [H1 H2 H3 H4 H5]. split; try done. cbn.
  unfold MIN_ROWS, MIN_COLS, DEFAULT_ROWS, DEFAULT_COLS, STATUS_BAR_ROWS.
  unfold in_range, U16_MAX in *. split_and!; try done; destruct (_ =? 0); lia.
Qed.

(** ** Sessions on screen have the size of their panes *)

(** The terminal of every visible pane is as large as its inner rectangle, and
    never smaller than one cell. *)
Definition sizes_agree (m : Multiplexer) : Prop :=
  ∀ vp, vp ∈ visible_panes m →
    ∃ se, sessions (session_supervisor m) !! vp_id vp = Some se
      ∧ s_size se = (Z.max (rows (inner vp)) 1, Z.max (cols (inner vp)) 1).

Definition sized (g : gmap Z Session) (l : Z * Rect) : Prop :=
  ∃ se, g !! l.1 = Some se
    ∧ s_size se = (Z.max (rows (shrink l.2 1)) 1, Z.max (cols (shrink l.2 1)) 1).

Lemma resize_leaf_sized g l : 1 ≤ l.1 → l.1 ∈ dom g → sized (resize_leaf g l) l.
Proof.
  intros Hpos [se Hse]%elem_of_dom. unfold sized, resize_leaf, registry_alter.
  rewrite (proj2 (Z.eqb_neq l.1 0)) by lia. rewrite lookup_alter_eq, Hse. cbn. eauto.
Qed.

Lemma resize_leaf_other g l l' : l.1 ≠ l'.1 → sized g l → sized (resize_leaf g l') l.
Proof.
  intros Hne. unfold sized, resize_leaf, registry_alter. destruct (l'.1 =? 0); [done|].
  by rewrite lookup_alter_ne by done.
Qed.

Lemma resize_leaves_sized ls g l :
  NoDup ls.*1 → l ∈ ls → 1 ≤ l.1 → l.1 ∈ dom g → sized (foldl resize_leaf g ls) l.
Proof.
  assert (Hkeep : ∀ ls g, l.1 ∉ ls.*1 → sized g l → sized (foldl resize_leaf g ls) l).
  { intros us. induction us as [|u us IH]; intros g' Hl Hs; [done|]. cbn in *.
    apply IH; [set_solver|]. apply resize_leaf_other; [set_solver|done]. }
  intros Hn Hin Hpos. revert g. induction ls as [|u ls IH]; intros g Hd; [by apply not_elem_of_nil in Hin|].
  cbn in *. apply NoDup_cons in Hn as [Hu Hn]. apply elem_of_cons in Hin as [<-|Hin].
  - apply Hkeep; [done|]. by apply resize_leaf_sized.
  - apply IH; [done..|]. by rewrite dom_resize_leaf.
Qed.

Lemma layout_ids r ts : (concat ((λ t, leaves (tree t) r) <$> ts)).*1 = pane_ids ts.
Proof.
  unfold pane_ids. induction ts as [|t ts IH]; cbn; [done|].
  by rewrite fmap_app, leaves_ids, IH.
Qed.

Lemma resized_agree m : inv (resize_panes m) → sizes_agree (resize_panes m).
Proof.
  intros Hm vp Hvp. pose proof (i_books _ Hm) as Hb. unfold sup_books in Hb. cbn in Hb.
  rewrite dom_resize_leaves in Hb.
  set (s := session_supervisor m) in *.
  assert (Hd : ∀ id, id ∈ pane_ids (tabs s) → 1 ≤ id ∧ id ∈ dom (sessions s)).
  { intros id Hid. rewrite (b_sessions _ _ _ _ _ _ Hb). split; [|set_solver].
    apply (proj1 (Forall_forall _ _) (b_fresh _ _ _ _ _ _ Hb) id Hid). }
  change (visible_panes (resize_panes m)) with
    (visible_panes_for_layout (content m) (active_focused_id s) (active_zoomed_id s) (active s)) in Hvp.
  cbn [session_supervisor resize_panes on set_sessions sessions]. fold s.
  unfold visible_panes_for_layout in Hvp. destruct (active_zoomed_id s) as [z|] eqn:Hz.
  - apply list_elem_of_singleton in Hvp as ->. cbn.
    destruct (active s) as [t|] eqn:Ha; [|by unfold active_zoomed_id in Hz; rewrite Ha in Hz].
    destruct (active_zoomed_elem _ _ _ Ha Hz) as [Hin _].
    destruct (Hd z) as [H1 H2].
    { apply pane_ids_elem. exists t. split; [|done]. by eapply list_elem_of_lookup_2. }
    apply (resize_leaf_sized (sessions s) (z, content m)); done.
  - destruct (active s) as [t|] eqn:Ha; [|by apply not_elem_of_nil in Hvp].
    apply list_elem_of_fmap in Hvp as (l & -> & Hl). cbn.
    apply list_elem_of_lookup_2 in Ha.
    assert (Hin : l ∈ concat ((λ t, leaves (tree t) (content m)) <$> tabs s)).
    { apply list_elem_of_In, in_concat. exists (leaves (tree t) (content m)).
      split; apply list_elem_of_In; [|done]. by apply (list_elem_of_fmap_2 (λ t, leaves (tree t) (content m))). }
    destruct (Hd l.1) as [H1 H2].
    { rewrite <-(layout_ids (content m)). by apply (list_elem_of_fmap_2 fst) in Hin. }
    apply resize_leaves_sized; try done. rewrite layout_ids. apply Hb.
Qed.

(** ** Spawning

    Spawning operations are reasoned about with a triple for [M]: from [P] an
    operation ends in [Q] with its result, or in [E] with an error. *)

Definition hoare {A} (P : Multiplexer → Prop) (x : M A) (Q : A → Multiplexer → Prop)
    (E : Multiplexer → Prop) : Prop :=
  ∀ m, P m → match x m with (Ok a, m') => Q a m' | (_, m') => E m' end.

Lemma hoare_bind {A B} P (x : M A) (Q : A → _) (f : A → M B) R E :
  hoare P x Q E → (∀ a, hoare (Q a) (f a) R E) → hoare P (x ≫= f) R E.
Proof.
  intros Hx Hf m Hm. specialize (Hx m Hm). unfold mbind, M_bind.
  destruct (x m) as [[a|e|] m']; [by apply Hf|done..].
Qed.

Lemma hoare_lift {A} (P : Multiplexer → Prop) (r : res A) (E : Multiplexer → Prop) :
  (∀ m, P m → E m) → hoare P (lift r) (λ a m, P m ∧ r = Ok a) E.
Proof. intros HE m Hm. destruct r; cbn; auto. Qed.

Lemma hoare_get {A} P (f : Multiplexer → A) E : hoare P (get f) (λ a m, P m ∧ a = f m) E.
Proof. by intros m Hm. Qed.

Lemma hoare_modify (P : Multiplexer → Prop) f (Q : () → Multiplexer → Prop) E :
  (∀ m, P m → Q () (f m)) → hoare P (modify f) Q E.
Proof. intros H m Hm. by apply H. Qed.

(** Launching only moves the pane home counter. *)
Lemma set_counters_id m : set_counters (pane_home_seq m) (NEXT_ID m) m = m.
Proof. by destruct m. Qed.

Lemma session_launch_state i p c m :
  ∃ q, (session_launch i p c m).2 = set_counters q (NEXT_ID m) m.
Proof.
  unfold session_launch. destruct i as [i|].
  - unfold mbind, M_bind, assign_pane_home_seq. case_bool_decide; cbn;
      unfold lift, ok_or;
      repeat match goal with |- context [match ?o with Some _ => _ | None => _ end] =>
        destruct o; cbn end; eauto; exists (pane_home_seq m); by rewrite set_counters_id.
  - unfold mbind, M_bind. cbn. exists (pane_home_seq m). rewrite set_counters_id.
    by destruct (shell_identity _).
Qed.

Lemma hoare_session_launch (P : Multiplexer → Prop) i p c (E : Multiplexer → Prop) :
  (∀ m q, P m → P (set_counters q (NEXT_ID m) m)) → (∀ m, P m → E m) →
  hoare P (session_launch i p c) (λ _ m, P m) E.
Proof.
  intros Hq HE m Hm. destruct (session_launch_state i p c m) as [q Hl].
  destruct (session_launch i p c m) as [[a|e|] m']; cbn in Hl; rewrite Hl; auto.
Qed.

Lemma hoare_session_spawn n (P : Multiplexer → Prop) o se (E : Multiplexer → Prop) :
  (∀ m, P m → NEXT_ID m = n) → 0 ≤ n < U64_MAX →
  (∀ m, P m → E m) → (∀ m, P m → E (set_counters (pane_home_seq m) (n + 1) m)) →
  hoare P (session_spawn o se)
    (λ r m, r = (se, n) ∧ ∃ m0, P m0 ∧ m = set_counters (pane_home_seq m0) (n + 1) m0) E.
Proof.
  intros Hn Hr HE HE' m Hm. pose proof (Hn m Hm) as Hnm.
  assert (Hadd : add64 (NEXT_ID m) 1 = n + 1).
  { rewrite Hnm. unfold add64, wrap64. apply Z.mod_small. range_lia. }
  destruct o; cbn; unfold mbind, M_bind; cbn; rewrite ?Hadd; [by apply HE|by apply HE'|].
  split; [by rewrite Hnm|]. eauto.
Qed.

Lemma hoare_capacity b (P : Multiplexer → Prop) (E : Multiplexer → Prop) :
  (∀ m, P m → E m) →
  hoare P (λ m, (ensure_capacity_for_new_session b (session_supervisor m), m))
    (λ _ m, P m ∧ (b = true → (length (tabs (session_supervisor m)) < MAX_TABS)%nat)
            ∧ (size (dom (sessions (session_supervisor m))) < MAX_SESSIONS)%nat) E.
Proof.
  intros HE m Hm. unfold ensure_capacity_for_new_session. rewrite size_dom.
  destruct (b && _)%bool eqn:Hb; [by apply HE|].
  destruct (Nat.leb_spec MAX_SESSIONS (size (sessions (session_supervisor m)))); [by apply HE|].
  split_and!; [done| |done]. intros ->. by apply Nat.leb_gt in Hb.
Qed.

Lemma inv_counters q m : inv m → inv (set_counters q (NEXT_ID m) m).
Proof. by intros [H1 H2 H3 H4 H5]; split. Qed.

Lemma inv_counters_next q n m : NEXT_ID m = n → inv m → inv (set_counters q (n + 1) m).
Proof.
  intros <- [H1 H2 H3 H4 H5]. split; try done; cbn; [by apply books_next|lia].
Qed.

Lemma registry_insert_dom id se g : 1 ≤ id → dom (registry_insert id se g) = {[id]} ∪ dom g.
Proof.
  intros Hid. unfold registry_insert. rewrite (proj2 (Z.eqb_neq id 0)) by lia. apply dom_insert_L.
Qed.

(** What an operation may do to the invariant and the id counter. *)
Definition advances (n : Z) (m : Multiplexer) : Prop :=
  inv m ∧ n ≤ NEXT_ID m ≤ n + 1.

(** The books are the ones of [s1]; the codename offset may have moved. *)
Definition same_books (s1 s : SessionSupervisor) : Prop :=
  sessions s = sessions s1 ∧ tabs s = tabs s1 ∧ active_tab s = active_tab s1
  ∧ codename_live s = codename_live s1
  ∧ codename_retired s = codename_retired s1 ∧ agent_history s = agent_history s1.

(** A failed operation leaves the books as they were. *)
Definition failed (n : Z) (s1 : SessionSupervisor) (m : Multiplexer) : Prop :=
  advances n m ∧ same_books s1 (session_supervisor m).

Lemma start_failed n s1 m :
  inv m → NEXT_ID m = n → session_supervisor m = s1 → failed n s1 m.
Proof. intros Hi <- <-. split; [split; [done|lia]|done]. Qed.

(** *** Opening a tab *)

Section spawn.
Context (n now : Z) (s1 : SessionSupervisor) (Hn : 1 ≤ n < U64_MAX).

(** Ready to open a tab under codename [c]. *)
Definition tab_ready (c : string) (m : Multiplexer) : Prop :=
  inv m ∧ NEXT_ID m = n ∧ same_books s1 (session_supervisor m)
  ∧ (length (tabs s1) < MAX_TABS)%nat ∧ (size (dom (sessions s1)) < MAX_SESSIONS)%nat
  ∧ c ∉ codename_live s1 ∪ codename_retired s1
  ∧ drag m = None.

Lemma tab_ready_failed c m : tab_ready c m → failed n s1 m.
Proof using Hn. intros (Hi & <- & Hs & _). split; [split; [done|lia]|done]. Qed.

(** The state with the new tab, before the panes are sized. *)
Definition add_tab (c : string) (se : Session) (tab : Tab) (agent provider : option string)
    (m : Multiplexer) : Multiplexer :=
  record_agent_history n now c agent provider
    (on (λ s, set_names ({[c]} ∪ codename_live s) (codename_retired s) s)
    (on (λ s, if bool_decide (tabs s = []) then set_active 0 (set_tabs (tabs s ++ [tab]) s)
              else set_active (length (tabs s)) (set_tabs (tabs s ++ [tab]) s))
    (on (λ s, set_sessions (registry_insert n se (sessions s)) s)
    (set_counters (pane_home_seq m) (n + 1) m)))).

(** Both branches make the last tab active. *)
Lemma push_tab (s : SessionSupervisor) tab :
  (if bool_decide (tabs s = []) then set_active 0 (set_tabs (tabs s ++ [tab]) s)
   else set_active (length (tabs s)) (set_tabs (tabs s ++ [tab]) s))
  = set_active (length (tabs s)) (set_tabs (tabs s ++ [tab]) s).
Proof using Type. case_bool_decide as E; [|done]. by rewrite E. Qed.

(** What opening a tab did to the books of [s1]. *)
Definition opened (s : SessionSupervisor) : Prop :=
  ∃ t, tabs s = tabs s1 ++ [t] ∧ active s = Some t ∧ tab_ids t = [n] ∧ focused_id t = n
    ∧ codename t ∉ codename_live s1 ∪ codename_retired s1
    ∧ dom (sessions s) = {[n]} ∪ dom (sessions s1)
    ∧ codename_live s = {[codename t]} ∪ codename_live s1
    ∧ codename_retired s = codename_retired s1.

Lemma add_tab_opened c se tab agent provider m :
  tab_ready c m → tree tab = Leaf n → focused_id tab = n → zoomed tab = None →
  codename tab = c →
  inv (add_tab c se tab agent provider m)
  ∧ opened (session_supervisor (add_tab c se tab agent provider m)).
Proof using Hn.
  intros (Hi & Hnx & (E1 & E2 & E2' & E3 & E4 & E5) & Hlt & Hls & Hc & Hdr) Ht Hf Hz Hcn.
  destruct Hi as [H1 H2 H3 H4 H5]. unfold add_tab, on. cbn [session_supervisor]. rewrite push_tab.
  split; [split|]; [|..|by intros d; cbn; rewrite Hdr|]; cbn; try done; [| |lia|].
  - unfold sup_books in *. cbn. rewrite registry_insert_dom by lia.
    eapply books_perm; [apply Permutation_cons_append|]. rewrite Hnx in H1.
    eapply books_spawn; rewrite ?E1, ?E2, ?E3, ?E4 in *; try done; try lia.
    + split; unfold tab_ids; rewrite ?Ht, ?Hf, ?Hz; cbn; [by left|done|done].
    + unfold tab_ids. by rewrite Ht.
  - left. cbn. rewrite length_app. cbn. lia.
  - exists tab. unfold active, tab_ids. cbn.
    rewrite Ht, Hcn, E1, E2, E3, E4, registry_insert_dom, lookup_app_r, Nat.sub_diag by lia. done.
Qed.

Lemma spawn_session_triple o agent env provider :
  hoare (λ m, inv m ∧ NEXT_ID m = n ∧ session_supervisor m = s1)
    (spawn_session now o agent env provider)
    (λ id m, advances n m ∧ id = n ∧ opened (session_supervisor m) ∧ sizes_agree m)
    (failed n s1).
Proof using Hn.
  unfold spawn_session. eapply hoare_bind; [apply hoare_capacity|intros u].
  { intros m (Hi & Hnx & Hs). by apply start_failed. }
  eapply hoare_bind; [apply hoare_get|intros cfg].
  eapply hoare_bind; [apply hoare_lift|intros ag].
  { intros m [[(Hi & Hnx & Hs) _] _]. by apply start_failed. }
  apply (hoare_bind _ _ (λ c m, inv m ∧ NEXT_ID m = n ∧ same_books s1 (session_supervisor m)
    ∧ (length (tabs s1) < MAX_TABS)%nat ∧ (size (dom (sessions s1)) < MAX_SESSIONS)%nat
    ∧ c ∉ codename_live s1 ∪ codename_retired s1)).
  { intros m [[[(Hi & Hnx & E) [Hl Hs]] _] _]. cbn. rewrite E in *. split_and!; auto using pick_codename_new; try done.
    by destruct Hi; split. }
  intros c. apply (hoare_bind _ _ (λ _, tab_ready c)).
  { apply hoare_modify. intros m (Hi & ? & ? & ? & ? & ?).
    unfold tab_ready. split_and!; try done. by apply inv_cancel_drag. }
  intros _. apply (hoare_bind _ _ (λ _, tab_ready c)).
  { apply hoare_session_launch; [|apply tab_ready_failed].
    intros m q (Hi & ? & ? & ? & ? & ? & ?). unfold tab_ready.
    split_and!; try done. by apply inv_counters. }
  intros la. eapply hoare_bind; [apply hoare_lift, tab_ready_failed|intros idn].
  eapply hoare_bind; [apply hoare_get|intros r]. eapply hoare_bind; [apply hoare_get|intros w].
  eapply hoare_bind; [apply (hoare_session_spawn n); [|lia|..]|].
  1-3: intros m (((Hr & _) & _) & _).
  { apply Hr. } { by eapply tab_ready_failed. }
  { split; [split|]; [apply inv_counters_next; apply Hr|cbn; lia|apply Hr]. }
  intros [se id] m ([= -> ->] & m0 & (((Hr & _) & _) & _) & ->).
  match goal with |- context [with_instance ?a ?b ?t] => set (tab := with_instance a b t) end.
  match goal with |- context [mk_session ?a ?b ?d ?e ?f ?g] =>
    destruct (add_tab_opened c (mk_session a b d e f g) tab ag provider m0) as [Hi Ho]; [done..|];
    set (m1 := add_tab c (mk_session a b d e f g) tab ag provider m0) in *;
    change (advances n (resize_panes m1) ∧ n = n ∧ opened (session_supervisor (resize_panes m1))
            ∧ sizes_agree (resize_panes m1))
  end.
  apply inv_resize_panes in Hi.
  split_and!; [split; [done|cbn; lia]|done| |by apply resized_agree].
  destruct Ho as (t & Ho). exists t. cbn. rewrite dom_resize_leaves. exact Ho.
Qed.
End spawn.

(** *** Splitting a pane *)

Lemma split_in_ok d old new t :
  old ∈ all_ids t → wf_tree t →
  ∃ t', split_in d old new t = (true, t') ∧ all_ids t' ≡ₚ new :: all_ids t ∧ wf_tree t'.
Proof.
  intros Hin Hw.
  assert (Hgen : ∀ mk p, mk = mk_h ∨ mk = mk_v → ∃ t', split_gen mk old new p t = (true, t')
    ∧ all_ids t' ≡ₚ new :: all_ids t ∧ wf_tree t').
  { intros mk p Hmk.
    destruct (split_gen_ids mk Hmk old new p t Hin) as (t' & l1 & l2 & Hs & E1 & E2).
    exists t'. pose proof (split_gen_wf mk old new p t Hmk Hw) as Hw'. rewrite Hs in Hw'.
    split_and!; [done| |done]. rewrite E1, E2. unfold placed. destruct p; cbn.
    - symmetry. apply (Permutation_middle l1 (old :: l2) new).
    - rewrite (Permutation_swap new old l2). symmetry.
      apply (Permutation_middle l1 (old :: l2) new). }
  destruct d; cbn; rewrite ?split_h_gen, ?split_v_gen; auto.
Qed.

Section split.
Context (n now : Z) (s1 : SessionSupervisor) (Hn : 1 ≤ n < U64_MAX).

Definition split_ready (m : Multiplexer) : Prop :=
  inv m ∧ NEXT_ID m = n ∧ same_books s1 (session_supervisor m)
  ∧ (size (dom (sessions s1)) < MAX_SESSIONS)%nat ∧ drag m = None.

Lemma split_ready_failed m : split_ready m → failed n s1 m.
Proof using Hn. intros (Hi & <- & Hs & _). split; [split; [done|lia]|done]. Qed.

(** What splitting did to the books of [s1]. *)
Definition split_opened (s : SessionSupervisor) : Prop :=
  ∃ t t', active s1 = Some t ∧ active s = Some t' ∧ active_tab s = active_tab s1
    ∧ length (tabs s) = length (tabs s1)
    ∧ tab_ids t' ≡ₚ n :: tab_ids t ∧ focused_id t' = n ∧ codename t' = codename t
    ∧ dom (sessions s) = {[n]} ∪ dom (sessions s1).

(** The state with the new session, before it has a pane. *)
Definition add_session (c : string) (se : Session) (agent provider : option string)
    (m : Multiplexer) : Multiplexer :=
  record_agent_history n now c agent provider
    (on (λ s, set_sessions (registry_insert n se (sessions s)) s)
    (set_counters (pane_home_seq m) (n + 1) m)).

Lemma place_split_opened d se agent provider tab m :
  split_ready m → active s1 = Some tab →
  let m' := place_split now d (focused_id tab) n
              (add_session (codename tab) se agent provider m) in
  advances n m' ∧ split_opened (session_supervisor m') ∧ sizes_agree m'.
Proof using Hn.
  intros (Hi & Hnx & (E1 & E2 & E2' & E3 & E4 & E5) & Hls & Hdr) Ha.
  destruct Hi as [H1 H2 H3 H4 H5].
  assert (Ha' : tabs (session_supervisor m) !! active_tab (session_supervisor m) = Some tab)
    by (by rewrite E2, E2').
  pose proof (list_elem_of_lookup_2 _ _ _ Ha') as Hel.
  assert (Hok : tab_ok tab).
  { destruct H1 as [H1 _ _ _ _ _ _ _ _ _]. by eapply Forall_forall in H1. }
  destruct (split_in_ok d (focused_id tab) n (tree tab)) as (t' & Hs & Hids & Hw);
    [apply Hok|apply Hok|].
  set (f := λ t, with_focus n (with_tree t' t)).
  assert (Hm' : place_split now d (focused_id tab) n (add_session (codename tab) se agent provider m)
    = resize_panes (on (λ s, alter_tab f (active_tab s) s)
        (add_session (codename tab) se agent provider m))).
  { unfold place_split. change (active (session_supervisor (add_session _ _ _ _ m)))
      with (active (session_supervisor m)). unfold active. by rewrite Ha', Hs. }
  cbn zeta. rewrite Hm'. clear Hm'.
  destruct (tab_at _ _ _ Ha') as (rest & Hp & Hal & _).
  match goal with |- advances n ?m' ∧ _ => assert (Hi : inv m') end.
  { apply inv_resize_panes. split; cbn; try done; [| |lia|by intros x; cbn; rewrite Hdr].
    + unfold sup_books in *. cbn. rewrite registry_insert_dom by lia.
      eapply books_perm; [symmetry; apply Hal|]. rewrite Hnx in H1.
      apply (books_split tab); try done; [|lia|by rewrite E1|].
      * by eapply books_perm.
      * split; unfold tab_ids; cbn; rewrite ?Hids; [left| |done].
        intros z Hz. rewrite Hids. right. by apply Hok.
    + left. cbn. rewrite length_alter. by eapply lookup_lt_Some. }
  split_and!; [by split; [|cbn; lia]| |by apply resized_agree].
  - assert (Hal' : alter f (active_tab s1) (tabs s1) !! active_tab s1 = Some (f tab))
      by (by rewrite list_lookup_alter_eq, <-E2, <-E2', Ha').
    exists tab, (f tab). split_and!; try done.
    + unfold active. cbn -[alter]. by rewrite E2, E2'.
    + cbn -[alter]. by rewrite length_alter, E2.
    + cbn -[alter]. by rewrite dom_resize_leaves, registry_insert_dom, E1 by lia.
Qed.

Lemma split_into_triple o d target env provider :
  hoare (λ m, inv m ∧ NEXT_ID m = n ∧ session_supervisor m = s1)
    (split_focused_into now o d target env provider)
    (λ _ m, advances n m ∧ (active s1 = None ∧ same_books s1 (session_supervisor m)
                            ∨ split_opened (session_supervisor m) ∧ sizes_agree m))
    (failed n s1).
Proof using Hn.
  unfold split_focused_into. eapply hoare_bind; [apply hoare_capacity|intros u].
  { intros m (Hi & Hnx & Hs). by apply start_failed. }
  eapply hoare_bind; [apply hoare_get|intros cfg].
  eapply hoare_bind; [apply hoare_lift|intros ag].
  { intros m [[(Hi & Hnx & Hs) _] _]. by apply start_failed. }
  apply (hoare_bind _ _ (λ _, split_ready)).
  { apply hoare_modify. intros m [[[(Hi & Hnx & E) [_ Hl]] _] _]. unfold split_ready.
    rewrite E in Hl. cbn. rewrite E. split_and!; try done. by apply inv_cancel_drag. }
  intros _. eapply hoare_bind; [apply hoare_get|intros tab].
  destruct tab as [tab|]; cbn beta iota zeta.
  2: { intros m [Hr Ha]. cbn. pose proof (split_ready_failed m Hr) as [Hadv Hs].
       split; [done|]. left. split; [|done].
       destruct Hs as (_ & E2 & E2' & _). unfold active in *. by rewrite <-E2, <-E2'. }
  apply (hoare_bind _ _ (λ _ m, split_ready m ∧ active s1 = Some tab)).
  { intros m [Hr Ha]. cbn. split; [done|]. destruct Hr as (_ & _ & (_ & E2 & E2' & _) & _).
    unfold active in *. by rewrite <-E2, <-E2'. }
  intros r. apply (hoare_bind _ _ (λ _ m, split_ready m ∧ active s1 = Some tab)).
  { apply hoare_session_launch; [|intros m []; by apply split_ready_failed].
    intros m q [(Hi & ? & ? & ? & ?) ?]. split; [|done]. unfold split_ready.
    split_and!; try done. by apply inv_counters. }
  intros la. eapply hoare_bind; [apply hoare_lift; intros m []; by apply split_ready_failed|intros idn].
  eapply hoare_bind; [apply (hoare_session_spawn n); [|lia|..]|].
  1-3: intros m [[Hr _] _].
  { apply Hr. } { by apply split_ready_failed. }
  { split; [split|]; [apply inv_counters_next; apply Hr|cbn; lia|apply Hr]. }
  intros [se id] m ([= -> ->] & m0 & [[Hr Ha] _] & ->).
  match goal with |- context [mk_session ?a ?b ?c ?e ?f ?g] =>
    destruct (place_split_opened d (mk_session a b c e f g) ag provider tab m0 Hr Ha) as [Hi Ho]
  end.
  split; [exact Hi|]. right. exact Ho.
Qed.
End split.

(** ** Runs *)

(** Terminal sizes arrive as [u16]. *)
Definition op_ok (o : op) : Prop :=
  match o with
  | OpTerminalSize r c => is_u16 r ∧ is_u16 c
  | _ => True
  end.

Lemma hoare_advances {A} (x : M A) (Q : A → Multiplexer → Prop) n s1 m :
  hoare (λ m, inv m ∧ NEXT_ID m = n ∧ session_supervisor m = s1) x
    (λ a m, advances n m ∧ Q a m) (failed n s1) →
  inv m → NEXT_ID m = n → session_supervisor m = s1 → advances n (x m).2.
Proof.
  intros Hx Hm Hn Hs. specialize (Hx m (conj Hm (conj Hn Hs))).
  destruct (x m) as [[a|e|] m']; cbn; apply Hx.
Qed.

Lemma inv_advances n m : NEXT_ID m = n → inv m → advances n m.
Proof. intros <- Hm. split; [done|lia]. Qed.

Lemma split_focused_triple n now s1 o d :
  1 ≤ n < U64_MAX →
  hoare (λ m, inv m ∧ NEXT_ID m = n ∧ session_supervisor m = s1) (split_focused now o d)
    (λ _ m, advances n m ∧ (active s1 = None ∧ same_books s1 (session_supervisor m)
                            ∨ split_opened n s1 (session_supervisor m) ∧ sizes_agree m))
    (failed n s1).
Proof.
  intros Hn. unfold split_focused.
  apply (hoare_bind _ _ (λ _ m, inv m ∧ NEXT_ID m = n ∧ session_supervisor m = s1)).
  { intros m (Hi & Hnx & Hs). destruct (ensure_capacity_for_new_session _ _); [done|..];
      by apply start_failed. }
  intros _. apply (hoare_bind _ _ (λ _ m, inv m ∧ NEXT_ID m = n ∧ session_supervisor m = s1)).
  { by intros m Hm. }
  intros [[ag env] pr]. by apply split_into_triple.
Qed.

(** Only spawning draws ids. *)
Lemma step_NEXT_ID now o m :
  match o with OpSpawn _ _ _ _ | OpSplitInto _ _ _ _ _ | OpSplit _ _ => False | _ => True end →
  NEXT_ID (step now o m) = NEXT_ID m.
Proof.
  destruct o; try done; intros _; cbn [step];
    unfold next_tab, prev_tab, jump_tab, toggle_zoom, move_focus, focus_pane_at,
      focus_session_globally, resize_focused, drag_motion, close_focused_pane, close_focused_tab;
    by repeat case_match.
Qed.

Lemma step_advances now o m :
  op_ok o → NEXT_ID m < U64_MAX → inv m → advances (NEXT_ID m) (step now o m).
Proof.
  intros Ho Hn Hm. pose proof (i_next _ Hm) as Hpos.
  destruct o as [| | | | | | | | | | | | | | | | | |r c].
  1: eapply hoare_advances; [by apply spawn_session_triple|done..].
  1: eapply hoare_advances; [by apply split_into_triple|done..].
  1: eapply hoare_advances; [by apply split_focused_triple|done..].
  all: apply inv_advances; [by apply step_NEXT_ID|]; cbn [step].
  16: destruct Ho; by apply inv_resize_terminal.
  all: eauto using inv_next_tab, inv_prev_tab, inv_jump_tab,
    inv_toggle_zoom, inv_move_focus, inv_focus_pane_at, inv_focus_session, inv_resize_focused,
    inv_start_drag, inv_drag_motion, inv_close_focused_pane,
    inv_close_focused_tab, inv_exit_all, inv_remove_exited.
  by apply inv_cancel_drag.
Qed.

Lemma run_advances ops m :
  Forall (λ o, op_ok o.2) ops → inv m → NEXT_ID m + Z.of_nat (length ops) ≤ U64_MAX →
  inv (run ops m) ∧ NEXT_ID m ≤ NEXT_ID (run ops m) ≤ NEXT_ID m + Z.of_nat (length ops).
Proof.
  unfold run. intros Hf. revert m. induction Hf as [|[now o] ops Ho Hf IH]; intros m Hm Hn; cbn in *.
  { split; [done|lia]. }
  destruct (step_advances now o m Ho) as [Hi Hx]; [lia|done|].
  destruct (IH (step now o m) Hi) as [? ?]; [lia|]. split; [done|lia].
Qed.

Lemma new_multiplexer_inv r c cfg offset :
  is_u16 r → is_u16 c → inv (new_multiplexer r c cfg offset).
Proof.
  intros Hr Hc. split.
  - unfold sup_books. cbn. split; cbn; try done; try constructor.
    + by intros t id ?%not_elem_of_nil.
    + unfold MAX_TABS. lia.
    + unfold MAX_SESSIONS. rewrite dom_empty_L, size_empty. lia.
  - by right.
  - done.
  - cbn. unfold MIN_ROWS, MIN_COLS, DEFAULT_ROWS, DEFAULT_COLS, STATUS_BAR_ROWS.
    unfold in_range, U16_MAX in *. split_and!; try done; destruct (_ =? 0); lia.
  - done.
Qed.

(** C29: Whatever the user and the child processes do, the multiplexer keeps its
    books.  After any sequence of spawns (successful or not), splits, closes,
    exits, focus moves, zooms, drags and terminal resizes from a fresh
    multiplexer: every pane is in exactly one tab and exactly the panes have a
    live session; each tab's focus, and its zoom if any, is one of its own
    panes; the active tab exists unless there are none; the tab and session
    limits hold; every tab has a codename of its own that is marked live and
    every open pane an unfinished history record under it; ratios stay within
    bounds; and a border drag in progress is about a split that still exists. *)
Theorem supervisor_invariant ops r c cfg offset :
  is_u16 r → is_u16 c → Forall (λ o, op_ok o.2) ops → Z.of_nat (length ops) < U64_MAX →
  inv (run ops (new_multiplexer r c cfg offset)).
Proof.
  intros Hr Hc Hf Hlen. apply run_advances; [done|by apply new_multiplexer_inv|].
  change (NEXT_ID _) with 1. lia.
Qed.

Definition shell_config : CapsuleConfig :=
  mk_config [] ∅ ∅ ∅ ∅ ∅ ∅ ∅ (Some (mk_identity 1000 1000)).

(** Two tabs, the first one split in two panes. *)
Definition sample_ops : list (Z * op) :=
  [(10, OpSpawn Spawned None [] None);
   (20, OpSplitInto Spawned SplitDirection.Right None [] None);
   (30, OpSpawn Spawned None [] None)].

Definition sample_mux : Multiplexer := run sample_ops (new_multiplexer 40 120 shell_config 7).

Lemma sample_mux_inv : inv sample_mux.
Proof.
  apply run_advances; [by repeat constructor|by apply new_multiplexer_inv|].
  vm_compute. discriminate.
Qed.

Lemma supervisor_invariant_witness :
  pane_ids (tabs (session_supervisor sample_mux)) = [1; 2; 3]
  ∧ inv (run sample_ops (new_multiplexer 40 120 shell_config 7)).
Proof.
  split; [vm_compute; reflexivity|].
  apply supervisor_invariant; [vm_compute; split; discriminate..| |vm_compute; reflexivity].
  repeat constructor.
Defined.

(** ** What the operations do *)

Lemma history_names m c :
  inv m → c ∉ codename_live (session_supervisor m) ∪ codename_retired (session_supervisor m) →
  c ∉ rec_codename <$> agent_history (session_supervisor m)
  ∧ c ∉ codename <$> tabs (session_supervisor m).
Proof.
  intros [[_ _ _ _ _ H6 _ H8 _ _] _ _ _ _] Hc. split.
  - intros (r & -> & Hr)%list_elem_of_fmap. eapply Forall_forall in H8 as [_ H8]; [|exact Hr]. done.
  - intros (t & -> & Ht)%list_elem_of_fmap. eapply Forall_forall in H6; [|exact Ht].
    cbn in H6. set_solver.
Qed.

(** Starting a session opens a tab and nothing else changes hands: the new
    tab is last and active, its only pane is the new session, whose id was
    never used, and its codename is one that no session of this multiplexer,
    running or finished, ever had; all panes on screen are sized to fit.  When
    any step fails, from the limits to the process spawn, the tabs, sessions,
    codenames and history are as before. *)
Theorem spawn_opens_tab now o agent env provider m :
  inv m → NEXT_ID m < U64_MAX →
  let s := session_supervisor m in
  match spawn_session now o agent env provider m with
  | (Ok id, m') =>
      id = NEXT_ID m ∧ sizes_agree m'
      ∧ dom (sessions (session_supervisor m')) = {[id]} ∪ dom (sessions s)
      ∧ ∃ t, tabs (session_supervisor m') = tabs s ++ [t]
          ∧ active (session_supervisor m') = Some t ∧ tab_ids t = [id] ∧ id ∉ pane_ids (tabs s)
          ∧ codename t ∉ rec_codename <$> agent_history s ∧ codename t ∉ codename <$> tabs s
  | (_, m') => same_books s (session_supervisor m')
  end.
Proof.
  intros Hm Hn s.
  assert (Hr : 1 ≤ NEXT_ID m < U64_MAX) by (split; [apply Hm|done]).
  pose proof (spawn_session_triple (NEXT_ID m) now s Hr o agent env provider m) as Ht.
  specialize (Ht (conj Hm (conj eq_refl eq_refl))).
  destruct (spawn_session _ _ _ _ _ m) as [[id|e|] m']; [|apply Ht..].
  destruct Ht as (_ & -> & (t & E1 & E2 & E3 & _ & Hc & E4 & _) & Hsz).
  destruct (history_names m _ Hm Hc) as [H1 H2].
  split_and!; [done..|]. exists t. split_and!; try done.
  intros Hin. pose proof (b_fresh _ _ _ _ _ _ (i_books _ Hm)) as Hf.
  eapply Forall_forall in Hf; [|exact Hin]. cbn in Hf. lia.
Qed.

Lemma spawn_opens_tab_witness :
  ∃ m', spawn_session 40 Spawned None [] None sample_mux = (Ok 4, m')
    ∧ dom (sessions (session_supervisor m')) = {[4]} ∪ dom (sessions (session_supervisor sample_mux)).
Proof.
  pose proof (spawn_opens_tab 40 Spawned None [] None sample_mux sample_mux_inv eq_refl) as H.
  destruct (spawn_session 40 Spawned None [] None sample_mux) as [r m'] eqn:E.
  assert (Hr : r = Ok 4) by (apply (f_equal fst) in E; vm_compute in E; congruence).
  exists m'. subst r. cbn beta iota zeta in H. split; [reflexivity|]. exact (proj1 (proj2 (proj2 H))).
Defined.

(** Splitting the focused pane always finds a place for the new one: when
    the process starts, the active tab has exactly one more pane, which takes
    the focus, under the same codename, and the panes on screen are sized to
    fit; so the branch that drops the new session again is never taken.  On an
    error, and when there is no tab to split, nothing changes. *)
Theorem split_opens_pane now o d target env provider m :
  inv m → NEXT_ID m < U64_MAX →
  let s := session_supervisor m in
  match split_focused_into now o d target env provider m with
  | (Ok _, m') =>
      active s = None ∧ same_books s (session_supervisor m')
      ∨ split_opened (NEXT_ID m) s (session_supervisor m') ∧ sizes_agree m'
  | (_, m') => same_books s (session_supervisor m')
  end.
Proof.
  intros Hm Hn s.
  assert (Hr : 1 ≤ NEXT_ID m < U64_MAX) by (split; [apply Hm|done]).
  pose proof (split_into_triple (NEXT_ID m) now s Hr o d target env provider m) as Ht.
  specialize (Ht (conj Hm (conj eq_refl eq_refl))).
  by destruct (split_focused_into _ _ _ _ _ _ m) as [[u|e|] m']; apply Ht.
Qed.

Lemma split_opens_pane_witness :
  match split_focused_into 40 Spawned SplitDirection.Above None [] None sample_mux with
  | (Ok _, m') => split_opened 4 (session_supervisor sample_mux) (session_supervisor m')
  | _ => False
  end.
Proof.
  pose proof (split_opens_pane 40 Spawned SplitDirection.Above None [] None sample_mux
                sample_mux_inv eq_refl) as H.
  destruct (split_focused_into _ _ _ _ _ _ sample_mux) as [r m'] eqn:E.
  assert (Hr : r = Ok ()) by (apply (f_equal fst) in E; vm_compute in E; congruence).
  subst r. cbn beta iota zeta in H. destruct H as [[Ha _]|[H _]]; [|exact H].
  exfalso. vm_compute in Ha. discriminate.
Defined.

Lemma no_tab_agree m : active (session_supervisor m) = None → sizes_agree m.
Proof.
  intros Ha vp Hvp. unfold visible_panes, visible_panes_for_layout, active_zoomed_id in Hvp.
  rewrite Ha in Hvp. by apply not_elem_of_nil in Hvp.
Qed.

(** After a zoom, a close, an exit or a new terminal size, the terminal of
    every pane on screen is exactly as large as the pane, whatever the sizes
    were before. *)
Theorem layout_resizes_sessions now o m :
  inv m → op_ok o →
  match o with
  | OpToggleZoom | OpClosePane | OpCloseTab | OpExited _ | OpTerminalSize _ _ =>
      sizes_agree (step now o m)
  | _ => True
  end.
Proof.
  intros Hm Ho. assert (Hs : inv (step now o m) ∨ match o with
    | OpToggleZoom | OpClosePane | OpCloseTab | OpExited _ | OpTerminalSize _ _ => False
    | _ => True end).
  { destruct o; try (by right); left; cbn [step]; eauto using inv_toggle_zoom,
      inv_close_focused_pane, inv_close_focused_tab, inv_remove_exited.
    destruct Ho. by apply inv_resize_terminal. }
  destruct o; try done; destruct Hs as [Hs|[]]; cbn [step] in *.
  - unfold toggle_zoom in *. destruct (active _) eqn:Ha; [by apply resized_agree|by apply no_tab_agree].
  - unfold close_focused_pane in *. cbv zeta in *.
    destruct (active _) eqn:Ha; [by apply resized_agree|by apply no_tab_agree].
  - unfold close_focused_tab in *. destruct (active _) eqn:Ha; [by apply resized_agree|by apply no_tab_agree].
  - by apply resized_agree.
  - by apply resized_agree.
Qed.

Lemma layout_resizes_sessions_witness : sizes_agree (step 40 OpClosePane sample_mux).
Proof.
  exact (layout_resizes_sessions 40 OpClosePane sample_mux sample_mux_inv I).
Defined.

(** Zooming the left pane of tab 1, opening a tab and going back leaves the
    zoomed pane with the terminal of the unzoomed one: [spawn_session] sized
    every tab as if nothing were zoomed, and switching tabs does not size
    anything. *)
Definition stale_ops : list (Z * op) :=
  [(10, OpSpawn Spawned None [] None);
   (20, OpSplitInto Spawned SplitDirection.Right None [] None);
   (30, OpToggleZoom);
   (40, OpSpawn Spawned None [] None);
   (50, OpPrevTab)].

(** Switching tabs does not fit the sessions to their panes: there is a run
    after which the zoomed pane is drawn 118 columns wide while
    its terminal still has 58. *)
Theorem tab_switch_stale_size :
  let m := run stale_ops (new_multiplexer 40 120 shell_config 7) in
  (∃ vp se, visible_panes m = [vp] ∧ vp_id vp = 2 ∧ cols (inner vp) = 118
     ∧ sessions (session_supervisor m) !! 2 = Some se ∧ (s_size se).2 = 58)
  ∧ ¬ sizes_agree m.
Proof.
  assert (H : let m := run stale_ops (new_multiplexer 40 120 shell_config 7) in
    ∃ vp se, visible_panes m = [vp] ∧ vp_id vp = 2 ∧ cols (inner vp) = 118
     ∧ sessions (session_supervisor m) !! 2 = Some se ∧ (s_size se).2 = 58).
  { vm_compute. eexists _, _. split_and!; reflexivity. }
  split; [exact H|]. cbv zeta in *. destruct H as (vp & se & Hv & Hid & Hc & Hse & Hsz). intros Ha.
  destruct (Ha vp) as (se' & Hse' & Hs'); [rewrite Hv; by left|].
  rewrite Hid, Hse in Hse'. injection Hse' as <-. rewrite Hs', Hc in Hsz. by cbn in Hsz.
Qed.

(** ** Exits *)

Lemma alter_focus (f : Tab → Tab) (i j : nat) (ts : list Tab) :
  (∀ t, focused_id (f t) = focused_id t) →
  focused_id <$> alter f i ts !! j = focused_id <$> ts !! j.
Proof.
  intros Hf. destruct (decide (i = j)) as [<-|Hne].
  - rewrite list_lookup_alter_eq. destruct (ts !! i); cbn; [by rewrite Hf|done].
  - by rewrite list_lookup_alter_ne.
Qed.

Lemma detach_keeps_focus id now i t s :
  tab_ok t → tabs s !! i = Some t → active_focused_id s ≠ Some id →
  active_focused_id (detach_exited id now i t s) = active_focused_id s.
Proof.
  intros Hok Hi Hf. unfold active_focused_id, active in *. unfold detach_exited. case_bool_decide as Hone.
  - assert (Hne : i ≠ active_tab s).
    { intros E. apply Hf. rewrite <-E, Hi. cbn. pose proof (focus_open _ Hok) as Ho.
      unfold tab_ids in Ho. rewrite Hone in Ho. by apply list_elem_of_singleton in Ho as ->. }
    rewrite (proj2 (Nat.eqb_neq _ _) Hne). cbn [active_tab retire_codename remove_tab set_history set_names set_tabs].
    destruct (Nat.ltb_spec i (active_tab s)); cbn [tabs active_tab set_active retire_codename remove_tab set_history set_names set_tabs].
    + rewrite list_lookup_delete_ge by lia. by replace (S (active_tab s - 1)) with (active_tab s) by lia.
    + by rewrite list_lookup_delete_lt by lia.
  - destruct (Z.eqb_spec (focused_id t) id) as [E|E].
    + assert (Hne : i ≠ active_tab s) by (intros E'; apply Hf; by rewrite <-E', Hi, <-E).
      destruct (all_ids (remove _ _).2); cbn [tabs active_tab alter_tab set_tabs];
        by rewrite !list_lookup_alter_ne.
    + cbn [tabs active_tab alter_tab set_tabs]. by apply alter_focus.
Qed.

(** A session that exits disappears alone: the open panes afterwards are
    the ones before without it, in whichever tab it was, and its session is
    gone.  When it was not the focused pane, the focus stays on the pane it
    was on, even if tabs move because the exit emptied one. *)
Theorem exit_removes_one_pane id now m :
  inv m →
  let s := session_supervisor m in
  let s' := session_supervisor (remove_exited_session id now m) in
  (∀ i, i ∈ pane_ids (tabs s') ↔ i ∈ pane_ids (tabs s) ∧ i ≠ id)
  ∧ dom (sessions s') = dom (sessions s) ∖ {[id]}
  ∧ (active_focused_id s ≠ Some id → active_focused_id s' = active_focused_id s).
Proof.
  intros Hm s s'. pose proof (i_books _ Hm) as Hb. fold s in Hb.
  pose proof (i_books _ (inv_remove_exited id now m Hm)) as Hb'. fold s' in Hb'.
  assert (Hdom : dom (sessions s') = dom (sessions s) ∖ {[id]}).
  { assert (H0 : 0 ∉ dom (sessions s)).
    { rewrite (b_sessions _ _ _ _ _ _ Hb), elem_of_list_to_set. intros Hin.
      pose proof (proj1 (Forall_forall _ _) (b_fresh _ _ _ _ _ _ Hb) _ Hin). cbn in *. lia. }
    unfold s', remove_exited_session. cbn. rewrite dom_resize_leaves. fold s.
    set (w := list_find _ _). assert (Hw : ∀ u, dom (registry_remove id u) = dom u ∖ {[id]} ∨ id = 0).
    { intros u. unfold registry_remove. destruct (Z.eqb_spec id 0); [by right|left; apply dom_delete_L]. }
    destruct w as [[i t]|]; cbn; unfold detach_exited, clamp_active;
      repeat case_match; cbn; match goal with |- dom (registry_remove id ?u) = _ => destruct (Hw u) as [->| ->] end;
      try done; unfold registry_remove; cbn; set_solver. }
  split_and!; [|done|].
  - intros i. pose proof (b_sessions _ _ _ _ _ _ Hb) as E. pose proof (b_sessions _ _ _ _ _ _ Hb') as E'.
    rewrite Hdom in E'. rewrite <-!(elem_of_list_to_set (C := gset Z)), <-E, <-E'. set_solver.
  - intros Hf. unfold s', remove_exited_session. cbn [session_supervisor resize_panes on cancel_drag set_drag].
    fold s. destruct (list_find _ _) as [[i t]|] eqn:Hl; [|done].
    apply list_find_Some in Hl as (Hi & _).
    assert (Hok : tab_ok t).
    { apply list_elem_of_lookup_2 in Hi. by apply (proj1 (Forall_forall _ _) (b_tabs _ _ _ _ _ _ Hb)). }
    rewrite <-(detach_keeps_focus id now i t s Hok Hi Hf). by apply alter_focus.
Qed.

Lemma exit_removes_one_pane_witness :
  active_focused_id (session_supervisor sample_mux) = Some 3
  ∧ active_focused_id (session_supervisor (remove_exited_session 1 50 sample_mux)) = Some 3.
Proof.
  assert (H : active_focused_id (session_supervisor sample_mux) = Some 3) by (vm_compute; reflexivity).
  split; [exact H|].
  refine (eq_trans (proj2 (proj2 (exit_removes_one_pane 1 50 sample_mux sample_mux_inv)) _) H).
  rewrite H. discriminate.
Defined.
