(* ===== verification/WorkflowModel.v ===== *)
(** * The workflow reducer

    The enums of [jackin-workflow/src/model.rs] with their database spellings
    and the pure reducer [advance] that every observation goes through.  The
    theorem: however observations arrive, the reducer accepts only boundedly
    many of them. *)

From stdpp Require Import base list strings relations well_founded.
From Stdlib Require Import ZArith Lia.
From S2P Require Import Prelude.

(** ** Enums *)

Module RunStatus.
Inductive t := Active | Paused | NeedsOperator | Accepted | Failed | Cancelled.
#[global] Instance eq_dec : EqDecision t.
Proof. solve_decision. Defined.
Definition as_str (s : t) : string :=
  match s with
  | Active => "active"
  | Paused => "paused"
  | NeedsOperator => "needs_operator"
  | Accepted => "accepted"
  | Failed => "failed"
  | Cancelled => "cancelled"
  end.
Definition parse (v : string) : option t :=
  if str_eqb v "active" then Some Active
  else if str_eqb v "paused" then Some Paused
  else if str_eqb v "needs_operator" then Some NeedsOperator
  else if str_eqb v "accepted" then Some Accepted
  else if str_eqb v "failed" then Some Failed
  else if str_eqb v "cancelled" then Some Cancelled
  else None.
Definition is_terminal (s : t) : bool :=
  match s with Accepted | Failed | Cancelled => true | _ => false end.
Lemma parse_as_str s : parse (as_str s) = Some s.
Proof. by destruct s. Qed.
Lemma parse_Some v s : parse v = Some s → v = as_str s.
Proof. unfold parse, str_eqb. repeat case_bool_decide; by intros [= <-]. Qed.
End RunStatus.

Module Stage.
Inductive t := Prepare | Implement | Capture | Test | Review | Decide.
#[global] Instance eq_dec : EqDecision t.
Proof. solve_decision. Defined.
Definition as_str (s : t) : string :=
  match s with
  | Prepare => "prepare"
  | Implement => "implement"
  | Capture => "capture"
  | Test => "test"
  | Review => "review"
  | Decide => "decide"
  end.
Definition parse (v : string) : option t :=
  if str_eqb v "prepare" then Some Prepare
  else if str_eqb v "implement" then Some Implement
  else if str_eqb v "capture" then Some Capture
  else if str_eqb v "test" then Some Test
  else if str_eqb v "review" then Some Review
  else if str_eqb v "decide" then Some Decide
  else None.
Lemma stage_parse_as_str s : parse (as_str s) = Some s.
Proof. by destruct s. Qed.
Lemma stage_parse_Some v s : parse v = Some s → v = as_str s.
Proof. unfold parse, str_eqb. repeat case_bool_decide; by intros [= <-]. Qed.
End Stage.

Module CommandState.
Inductive t := Queued | Dispatching | Written | TurnEnded | DeliveryUnknown.
#[global] Instance eq_dec : EqDecision t.
Proof. solve_decision. Defined.
Definition as_str (s : t) : string :=
  match s with
  | Queued => "queued"
  | Dispatching => "dispatching"
  | Written => "written"
  | TurnEnded => "turn_ended"
  | DeliveryUnknown => "delivery_unknown"
  end.
Definition parse (v : string) : option t :=
  if str_eqb v "queued" then Some Queued
  else if str_eqb v "dispatching" then Some Dispatching
  else if str_eqb v "written" then Some Written
  else if str_eqb v "turn_ended" then Some TurnEnded
  else if str_eqb v "delivery_unknown" then Some DeliveryUnknown
  else None.
End CommandState.

Module EffectKind.
Inductive t := Launch | Capture | Backup.
Definition as_str (k : t) : string :=
  match k with Launch => "launch" | Capture => "capture" | Backup => "backup" end.
Definition parse (v : string) : option t :=
  if str_eqb v "launch" then Some Launch
  else if str_eqb v "capture" then Some Capture
  else if str_eqb v "backup" then Some Backup
  else None.
End EffectKind.

Module EffectStatus.
Inductive t := Intended | Adopted | Dispatched | Done | Abandoned.
Definition as_str (s : t) : string :=
  match s with
  | Intended => "intended"
  | Adopted => "adopted"
  | Dispatched => "dispatched"
  | Done => "done"
  | Abandoned => "abandoned"
  end.
Definition parse (v : string) : option t :=
  if str_eqb v "intended" then Some Intended
  else if str_eqb v "adopted" then Some Adopted
  else if str_eqb v "dispatched" then Some Dispatched
  else if str_eqb v "done" then Some Done
  else if str_eqb v "abandoned" then Some Abandoned
  else None.
End EffectStatus.

Module Actor.
Inductive t := Host | Worker.
#[global] Instance eq_dec : EqDecision t.
Proof. solve_decision. Defined.
End Actor.

Module Observation.
Inductive t :=
| TurnStarted | TurnEnded | TestStarted | TestPassed | TestFailed | ReviewPassed | ReviewFailed
| InfraFailed | SessionLost | UncertainDelivery | CaptureStalled | VerifiedCurrent.
#[global] Instance eq_dec : EqDecision t.
Proof. solve_decision. Defined.
End Observation.

(** ** The reducer *)

Record RunView := mk_view {
  v_status : RunStatus.t;
  v_stage : Stage.t;
  v_round : Z;
  v_candidate_generation : Z;
}.

Record NextState := mk_next {
  n_status : RunStatus.t;
  n_stage : Stage.t;
  n_round : Z;
  n_event_kind : string;
}.

(** A refusal carries its reason. *)
Record ReducerRefusal := mk_refusal { refusal_reason : string }.

Definition advance (view : RunView) (max_repair_turns : Z) (o : Observation.t) (a : Actor.t)
    : ReducerRefusal + NextState :=
  let s := v_status view in
  let st := v_stage view in
  let r := v_round view in
  if RunStatus.is_terminal s then inl (mk_refusal "run is terminal")
  else if bool_decide (s = RunStatus.NeedsOperator)
  then inl (mk_refusal "run needs operator resolution first")
  else if bool_decide (s = RunStatus.Paused) && negb (bool_decide (o = Observation.TurnEnded))
  then inl (mk_refusal "run is paused; only an in-deadline turn may finish")
  else match o with
  | Observation.TurnStarted =>
      if negb (bool_decide (st = Stage.Prepare))
      then inl (mk_refusal "turn start outside the prepare stage")
      else inr (mk_next s Stage.Implement r "turn_started")
  | Observation.TestStarted =>
      if negb (bool_decide (st = Stage.Capture))
      then inl (mk_refusal "test start outside the capture stage")
      else inr (mk_next s Stage.Test r "test_started")
  | Observation.TurnEnded =>
      if negb (bool_decide (st = Stage.Implement))
      then inl (mk_refusal "turn end outside the implement stage")
      else inr (mk_next s Stage.Capture r "turn_ended")
  | Observation.TestPassed =>
      if negb (bool_decide (st = Stage.Test))
      then inl (mk_refusal "test result outside the test stage")
      else inr (mk_next s Stage.Review r "test_passed")
  | Observation.TestFailed | Observation.ReviewFailed =>
      if negb (bool_decide (st = Stage.Test) || bool_decide (st = Stage.Review))
      then inl (mk_refusal "verification result outside test/review")
      else if r <? max_repair_turns
      then inr (mk_next s Stage.Implement (r + 1) "repair_turn")
      else inr (mk_next RunStatus.Failed st r "repair_budget_exhausted")
  | Observation.ReviewPassed =>
      if negb (bool_decide (st = Stage.Review))
      then inl (mk_refusal "review result outside the review stage")
      else inr (mk_next s Stage.Decide r "review_passed")
  | Observation.VerifiedCurrent =>
      if negb (bool_decide (a = Actor.Host)) then inl (mk_refusal "only the host can accept a run")
      else if negb (bool_decide (st = Stage.Decide))
      then inl (mk_refusal "acceptance requires the decide stage")
      else inr (mk_next RunStatus.Accepted Stage.Decide r "accepted")
  | Observation.InfraFailed => inr (mk_next RunStatus.NeedsOperator st r "infra_failed")
  | Observation.SessionLost => inr (mk_next RunStatus.NeedsOperator st r "session_lost")
  | Observation.UncertainDelivery => inr (mk_next RunStatus.NeedsOperator st r "uncertain_delivery")
  | Observation.CaptureStalled => inr (mk_next RunStatus.NeedsOperator st r "capture_stalled")
  end.

Definition GRAPH_STAGES : list string :=
  ["prepare"; "implement"; "capture"; "test"; "review"; "decide"].

Definition graph_order (name : string) : option nat :=
  fst <$> list_find (λ s, s = name) GRAPH_STAGES.

Definition graph_node_state (stage current : string) : string :=
  match graph_order stage, graph_order current with
  | Some a, Some b =>
      if (a <? b)%nat then "done" else if (a =? b)%nat then "current" else "pending"
  | _, _ => "unknown"
  end.

(** ** The reducer terminates *)

(** A sequence of observations the reducer accepts one after the other. *)
Fixpoint observe_all (max : Z) (v : RunView) (os : list (Observation.t * Actor.t))
    : option RunView :=
  match os with
  | [] => Some v
  | (o, a) :: os =>
      match advance v max o a with
      | inl _ => None
      | inr n => observe_all max
                   (mk_view (n_status n) (n_stage n) (n_round n) (v_candidate_generation v)) os
      end
  end.

Definition stage_order (s : Stage.t) : Z :=
  match s with
  | Stage.Prepare => 0 | Stage.Implement => 1 | Stage.Capture => 2
  | Stage.Test => 3 | Stage.Review => 4 | Stage.Decide => 5
  end.

(** The observations a run can still take: four per repair turn left and one per
    stage left; none once it is finished or waits for the operator. *)
Definition remaining (max : Z) (v : RunView) : Z :=
  if RunStatus.is_terminal (v_status v) || bool_decide (v_status v = RunStatus.NeedsOperator)
  then 0 else 4 * (max - v_round v) + 6 - stage_order (v_stage v).

Lemma advance_decreases max v o a n :
  advance v max o a = inr n → v_round v ≤ max →
  n_round n ≤ max ∧
  0 ≤ remaining max (mk_view (n_status n) (n_stage n) (n_round n) (v_candidate_generation v))
    < remaining max v.
Proof.
  destruct v as [st sg r g]. unfold advance, remaining. cbn. intros Hadv Hr.
  destruct (RunStatus.is_terminal st) eqn:Ht; [done|].
  destruct (bool_decide (st = RunStatus.NeedsOperator)) eqn:Hn; [done|].
  destruct (bool_decide (st = RunStatus.Paused) && _); [done|].
  assert (0 ≤ stage_order sg ≤ 5) by (destruct sg; cbn; lia).
  destruct o; repeat split_match_in Hadv; simplify_eq/=; rewrite ?Ht, ?Hn; cbn [orb];
    bool_to_prop; subst; cbn in *; try lia.
  all: match goal with H : _ ∨ _ |- _ => destruct H; bool_to_prop; subst; cbn in *; lia end.
Qed.

(** C28: Whatever observations arrive, from whichever actor, the reducer accepts
    at most four per repair turn left plus one per stage left: a fresh run with
    [max] repair turns takes at most [4 * max + 6] observations before it is
    finished or waits for an operator. *)
Theorem reducer_terminates max v os v' :
  v_round v ≤ max → observe_all max v os = Some v' →
  Z.of_nat (length os) ≤ remaining max v ∧
  (v = mk_view RunStatus.Active Stage.Prepare 0 0 → remaining max v = 4 * max + 6).
Proof.
  intros Hr Ho. split.
  2: { intros ->. unfold remaining. rewrite bool_decide_false by done. cbn. lia. }
  revert v Hr Ho. induction os as [|[o a] os IH]; intros v Hr; cbn [observe_all].
  - intros _. unfold remaining. split_match; [done|].
    assert (stage_order (v_stage v) ≤ 5) by (destruct (v_stage v); cbn; lia). cbn. lia.
  - destruct (advance v max o a) as [|n] eqn:Hadv; [done|]. intros Ho.
    destruct (advance_decreases _ _ _ _ _ Hadv Hr) as [Hn Hlt].
    apply IH in Ho; [|done]. cbn [length]. lia.
Qed.

Lemma reducer_terminates_witness :
  Z.of_nat 6 ≤ remaining 0 (mk_view RunStatus.Active Stage.Prepare 0 0).
Proof.
  refine (proj1 (reducer_terminates 0 (mk_view RunStatus.Active Stage.Prepare 0 0)
    ((λ o, (o, Actor.Host)) <$>
       [Observation.TurnStarted; Observation.TurnEnded; Observation.TestStarted;
        Observation.TestPassed; Observation.ReviewPassed; Observation.VerifiedCurrent])
    (mk_view RunStatus.Accepted Stage.Decide 0 0) _ _)); [cbn; lia|reflexivity].
Defined.
