(* ===== verification/WorkflowStore.v ===== *)
(** * The workflow run store

    [jackin-workflow/src/store.rs]: the tables of the SQLite database, one
    operation per method of [RunStore], and the errors of [lib.rs].

    A table is the list of its rows in [rowid] order.  An operation runs in the
    monad [M E]: it reads and writes the connection, the artifact directory and
    the clock, and ends in an error [E] or a value.  Every SQL statement and
    every file operation is a point where the environment may refuse: the
    connection carries the refusals to come ([faults]), each with the text of
    the refusal.  A transaction whose body fails restores the tables; [COMMIT]
    and [ROLLBACK] themselves are taken to succeed. *)

From stdpp Require Import base list gmap strings pretty.
From Stdlib Require Import ZArith Lia Strings.Byte.
From S2P Require Import Prelude Clipboard WorkflowModel.

(** ** Errors ([lib.rs]) *)

Module ErrorKind.
Inductive t := Invalid | NotFound | Busy | StaleVersion | StaleEpoch | Blocked | Storage.
#[global] Instance eq_dec : EqDecision t.
Proof. solve_decision. Defined.
End ErrorKind.

Record WorkflowError := mk_werr { we_kind : ErrorKind.t; we_message : string }.
#[global] Instance werr_eq_dec : EqDecision WorkflowError.
Proof. solve_decision. Defined.

Definition invalid := mk_werr ErrorKind.Invalid.
Definition not_found := mk_werr ErrorKind.NotFound.
Definition busy := mk_werr ErrorKind.Busy.
Definition stale_version := mk_werr ErrorKind.StaleVersion.
Definition stale_epoch := mk_werr ErrorKind.StaleEpoch.
Definition blocked := mk_werr ErrorKind.Blocked.
Definition storage := mk_werr ErrorKind.Storage.

(** ** Rows *)

Record StoredRun := mk_run {
  run_id : string;
  plan_hash : string;
  max_repair_turns : Z;
  idempotency_key : string;
  status : string;
  stage : string;
  round : Z;
  candidate : option string;
  candidate_generation : Z;
  version : Z;
  owner_epoch : Z;
  pause_kind : option string;
}.

Record StoredCommand := mk_command {
  command_id : string;
  c_run_id : string;
  session_ref : string;
  prompt_digest : string;
  turn : Z;
  lease_generation : Z;
  c_state : string;
  receipt : option string;
  resolution : option string;
}.

Record StoredSession := mk_session {
  s_run_id : string;
  worker_id : string;
  s_instance_id : option string;
  s_capsule_epoch : option Z;
  session_id : option Z;
  s_process_identity : option string;
  agent_profile : option string;
  auth_profile : option string;
}.

Record StoredEffect := mk_effect {
  operation_id : string;
  e_run_id : string;
  e_kind : string;
  e_status : string;
  expected_state : option string;
  external_identity : option string;
  ownership_label : option string;
  preservation : option string;
}.

Record StoredEvent := mk_event {
  seq : Z;
  at_ : Z;
  ev_actor : string;
  ev_kind : string;
  evidence_ref : option string;
}.

Record StoredEvidence := mk_evidence {
  ed_candidate : string;
  ed_kind : string;
  ed_source : string;
  ed_quality : string;
  ed_result : string;
  ed_policy_hash : option string;
  ed_artifact_digest : option string;
}.

Record StoredCheckpoint := mk_checkpoint {
  ck_candidate : string;
  commit_hash : string;
  tree_hash : string;
  source_manifest : string;
  local_path : string;
  backup_state : string;
  preservation_hold : option string;
}.

(** The tables; the three whose struct leaves out the [run_id] column pair it
    with the row. *)
Record Db := mk_db {
  meta : gmap string string;
  runs : list StoredRun;
  sessions : list StoredSession;
  commands : list StoredCommand;
  checkpoints : list (string * StoredCheckpoint);
  evidence : list (string * StoredEvidence);
  events : list (string * StoredEvent);
  effects : list StoredEffect;
}.

Definition empty_db : Db := mk_db ∅ [] [] [] [] [] [] [].

Definition set_meta (m : gmap string string) (d : Db) : Db :=
  mk_db m (runs d) (sessions d) (commands d) (checkpoints d) (evidence d) (events d) (effects d).
Definition set_runs (rs : list StoredRun) (d : Db) : Db :=
  mk_db (meta d) rs (sessions d) (commands d) (checkpoints d) (evidence d) (events d) (effects d).
Definition set_sessions (ss : list StoredSession) (d : Db) : Db :=
  mk_db (meta d) (runs d) ss (commands d) (checkpoints d) (evidence d) (events d) (effects d).
Definition set_commands (cs : list StoredCommand) (d : Db) : Db :=
  mk_db (meta d) (runs d) (sessions d) cs (checkpoints d) (evidence d) (events d) (effects d).
Definition set_checkpoints (ks : list (string * StoredCheckpoint)) (d : Db) : Db :=
  mk_db (meta d) (runs d) (sessions d) (commands d) ks (evidence d) (events d) (effects d).
Definition set_evidence (es : list (string * StoredEvidence)) (d : Db) : Db :=
  mk_db (meta d) (runs d) (sessions d) (commands d) (checkpoints d) es (events d) (effects d).
Definition set_events (es : list (string * StoredEvent)) (d : Db) : Db :=
  mk_db (meta d) (runs d) (sessions d) (commands d) (checkpoints d) (evidence d) es (effects d).
Definition set_effects (es : list StoredEffect) (d : Db) : Db :=
  mk_db (meta d) (runs d) (sessions d) (commands d) (checkpoints d) (evidence d) (events d) es.

(** [RunStore]: the connection, the artifact directory (file name to content)
    and the owner epoch, with what the environment will answer: the statement
    and file errors to come, the clock readings to come, and the text the
    database gives a violated constraint. *)
Record RunStore := mk_store {
  conn : Db;
  artifacts : gmap string bytes;
  epoch : Z;
  faults : list (option string);
  clock : list Z;
  constraint_text : string → string;
}.

Definition set_conn (d : Db) (w : RunStore) : RunStore :=
  mk_store d (artifacts w) (epoch w) (faults w) (clock w) (constraint_text w).
Definition set_artifacts (a : gmap string bytes) (w : RunStore) : RunStore :=
  mk_store (conn w) a (epoch w) (faults w) (clock w) (constraint_text w).
Definition set_epoch (n : Z) (w : RunStore) : RunStore :=
  mk_store (conn w) (artifacts w) n (faults w) (clock w) (constraint_text w).
Definition set_faults (fs : list (option string)) (w : RunStore) : RunStore :=
  mk_store (conn w) (artifacts w) (epoch w) fs (clock w) (constraint_text w).
Definition set_clock (ts : list Z) (w : RunStore) : RunStore :=
  mk_store (conn w) (artifacts w) (epoch w) (faults w) ts (constraint_text w).

(** ** The monad *)

Definition M (E A : Type) : Type := RunStore → (E + A) * RunStore.

#[global] Instance M_ret E : MRet (M E) := λ A a w, (inr a, w).
#[global] Instance M_bind E : MBind (M E) := λ A B k m w,
  match m w with
  | (inl e, w') => (inl e, w')
  | (inr a, w') => k a w'
  end.

Definition fail {E A} (e : E) : M E A := λ w, (inl e, w).
Definition asks {E A} (f : RunStore → A) : M E A := λ w, (inr (f w), w).
Definition modify {E} (f : RunStore → RunStore) : M E () := λ w, (inr (), f w).
Definition gets {E A} (f : Db → A) : M E A := asks (λ w, f (conn w)).
Definition update {E} (f : Db → Db) : M E () := modify (λ w, set_conn (f (conn w)) w).
Definition map_err {E E' A} (f : E → E') (m : M E A) : M E' A := λ w,
  match m w with
  | (inl e, w') => (inl (f e), w')
  | (inr a, w') => (inr a, w')
  end.
(** [impl From<String> for WorkflowError], as [?] applies it. *)
Definition lift {A} (m : M string A) : M WorkflowError A := map_err storage m.
Definition from_sum {E A} (r : E + A) : M E A := λ w, (r, w).
Definition ok_or {E A} (o : option A) (e : E) : M E A :=
  match o with Some a => mret a | None => fail e end.
(** [if c { return Err(e) }] *)
Definition refuse {E} (c : bool) (e : E) : M E () := if c then fail e else mret ().

(** A statement or a file operation that may fail with [msg] and the reason. *)
Definition fallible (msg : string) : M string () := λ w,
  match faults w with
  | Some err :: fs => (inl (msg +:+ err), set_faults fs w)
  | None :: fs => (inr (), set_faults fs w)
  | [] => (inr (), w)
  end.

(** An insert that breaks a [UNIQUE] constraint. *)
Definition violated {A} (msg what : string) : M string A := λ w,
  (inl (msg +:+ constraint_text w what), w).

Definition now_secs {E} : M E Z := λ w,
  match clock w with
  | t :: ts => (inr t, set_clock ts w)
  | [] => (inr 0, w)
  end.

(** [rows.next()] until it gives no row: one statement step per row and one for
    the end. *)
Fixpoint read_rows {A} (msg : string) (rows : list A) : M string (list A) :=
  _ ← fallible msg;
  match rows with
  | [] => mret []
  | row :: rest => out ← read_rows msg rest; mret (row :: out)
  end.

(** A query for at most one row. *)
Definition query_one {A} (query read : string) (f : Db → A) : M string A :=
  _ ← fallible query; _ ← fallible read; gets f.
Definition query_all {A} (query read : string) (f : Db → list A) : M string (list A) :=
  _ ← fallible query; rows ← gets f; read_rows read rows.

Definition txn_begin : M string () := fallible "begin workflow store transaction failed: ".
(** The transaction's body and [txn_end]. *)
Definition txn_end (body : M string ()) : M string () := λ w,
  match body w with
  | (inr _, w') => (inr (), w')
  | (inl e, w') => (inl e, set_conn (conn w) w')
  end.

(** A [u64] or [usize] stored with [as i64]. *)
Definition as_i64 (z : Z) : Z :=
  if z <? 9223372036854775808 then z else z - 18446744073709551616.
Definition I64_MAX : Z := 9223372036854775807.

(** ** Statement helpers *)

Definition find_run (id : string) (d : Db) : option StoredRun :=
  snd <$> list_find (λ r, run_id r = id) (runs d).

Definition meta_get (key : string) : M string (option string) :=
  query_one "read workflow store meta failed: " "scan workflow store meta failed: "
    (λ d, meta d !! key).
Definition meta_put (key value : string) : M string () :=
  _ ← fallible "write workflow store meta failed: ";
  update (λ d, set_meta (<[key := value]> (meta d)) d).

Definition run_exists (id : string) : M string bool :=
  query_one "check workflow run failed: " "read workflow run check failed: "
    (λ d, bool_decide (is_Some (find_run id d))).

Definition version_conflict (id : string) : M string string :=
  there ← run_exists id;
  if there : bool then mret "stale run version" else mret "workflow run not found".

Definition seqs_of (id : string) (es : list (string * StoredEvent)) : list Z :=
  (λ p, seq p.2) <$> filter (λ p, p.1 = id) es.

(** [SELECT COALESCE(MAX(seq), -1) + 1 FROM events WHERE run_id = ?] *)
Definition next_event_seq (id : string) : M string Z :=
  query_one "compute workflow event seq failed: " "read workflow event seq failed: "
    (λ d, foldr Z.max (-1) (seqs_of id (events d)) + 1).

Definition insert_event (id : string) (sq t : Z) (actor kind : string) (ref : option string)
    : M string () :=
  _ ← fallible "insert workflow event failed: ";
  taken ← gets (λ d, bool_decide (sq ∈ seqs_of id (events d)));
  if taken : bool then violated "insert workflow event failed: " "events.run_id, events.seq"
  else update (λ d, set_events (events d ++ [(id, mk_event sq t actor kind ref)]) d).

Record NewEffect := mk_new_effect {
  ne_operation_id : string;
  ne_kind : EffectKind.t;
  ne_expected_state : option string;
  ne_external_identity : option string;
  ne_ownership_label : option string;
  ne_preservation : option string;
}.

Definition insert_effect (id : string) (e : NewEffect) : M string () :=
  _ ← fallible "insert workflow effect failed: ";
  taken ← gets (λ d, bool_decide (ne_operation_id e ∈ operation_id <$> effects d));
  if taken : bool then violated "insert workflow effect failed: " "effects.operation_id"
  else update (λ d, set_effects (effects d ++
    [mk_effect (ne_operation_id e) id (EffectKind.as_str (ne_kind e)) "intended"
       (ne_expected_state e) (ne_external_identity e) (ne_ownership_label e)
       (ne_preservation e)]) d).

Definition find_command (id : string) (d : Db) : option StoredCommand :=
  snd <$> list_find (λ c, command_id c = id) (commands d).

Definition command_run (id : string) : M string string :=
  o ← query_one "load command run failed: " "read command run failed: "
        (λ d, c_run_id <$> find_command id d);
  ok_or o "workflow command not found".

(** ** [RunStore::open] *)

Definition SCHEMA_VERSION : string := "1".

Definition initialize_schema : M string () :=
  _ ← fallible "initialize workflow store schema failed: ";
  _ ← fallible "record workflow store schema version failed: ";
  update (λ d, set_meta (<["schema_version" := SCHEMA_VERSION]> (meta d)) d).

Definition bump_owner_epoch : M WorkflowError Z :=
  lift (o ← meta_get "owner_epoch";
        let current := default "0" o in
        n ← from_sum (match parse_u64 current with
                      | inl err => inl ("decode owner epoch failed: " +:+ err)
                      | inr n => inr n
                      end);
        let next := add64 n 1 in
        _ ← meta_put "owner_epoch" (pretty next);
        mret next).

(** [parent] and [utf8]: whether the database path has a parent directory and
    is valid UTF-8. *)
Definition open (parent utf8 : bool) : M WorkflowError () :=
  _ ← lift (fallible "create workflow artifact dir failed: ");
  _ ← (if parent then lift (fallible "create workflow store dir failed: ") else mret ());
  _ ← refuse (negb utf8) (storage "workflow store path is not utf8");
  _ ← lift (fallible "open workflow store failed: ");
  _ ← lift initialize_schema;
  n ← bump_owner_epoch;
  modify (set_epoch n).

(** ** Runs *)

Definition create_run (id plan : string) (max : Z) (key : string) : M WorkflowError () :=
  now ← now_secs;
  _ ← lift txn_begin;
  lift (txn_end (
    _ ← fallible "insert workflow run failed: ";
    ids ← gets (λ d, run_id <$> runs d);
    keys ← gets (λ d, idempotency_key <$> runs d);
    _ ← (if bool_decide (id ∈ ids) then violated "insert workflow run failed: " "runs.run_id"
         else if bool_decide (key ∈ keys)
         then violated "insert workflow run failed: " "runs.idempotency_key"
         else
           n ← asks epoch;
           update (λ d, set_runs (runs d ++
             [mk_run id plan max key "active" "prepare" 0 None 0 0 (as_i64 n) None]) d));
    insert_event id 0 now "host" "run_started" None)).

Definition load_run (id : string) : M WorkflowError (option StoredRun) :=
  lift (query_one "load workflow run failed: " "read workflow run failed: " (find_run id)).

Definition find_run_by_key (key : string) (d : Db) : option StoredRun :=
  snd <$> list_find (λ r, idempotency_key r = key) (runs d).
Definition load_run_by_key (key : string) : M WorkflowError (option StoredRun) :=
  lift (query_one "load workflow run by key failed: " "read workflow run by key failed: "
          (find_run_by_key key)).

(** [status IN ('active', 'paused', 'needs_operator')] *)
Definition incomplete (r : StoredRun) : bool :=
  str_in (status r) ["active"; "paused"; "needs_operator"].
Definition find_active (d : Db) : option StoredRun :=
  snd <$> list_find (λ r, incomplete r = true) (runs d).
Definition active_run : M WorkflowError (option StoredRun) :=
  lift (query_one "load active workflow run failed: " "read active workflow run failed: "
          find_active).

Definition limit_rows {A} (limit : Z) (rows : list A) : list A :=
  take (Z.to_nat (Z.max limit 1)) rows.

Definition list_runs (limit : Z) : M WorkflowError (list StoredRun) :=
  lift (query_all "list workflow runs failed: " "read workflow runs failed: "
          (λ d, limit_rows limit (rev (runs d)))).

(** [ORDER BY seq]: the rows of a run are inserted in increasing [seq], which
    [WorkflowInvariant] proves, so the table order is the requested order. *)
Definition load_events (id : string) (after limit : Z) : M WorkflowError (list StoredEvent) :=
  lift (query_all "load workflow events failed: " "read workflow events failed: "
          (λ d, limit_rows limit
                  (filter (λ e, after < seq e) (snd <$> filter (λ p, p.1 = id) (events d))))).

Definition load_evidence (id : string) : M WorkflowError (list StoredEvidence) :=
  lift (query_all "load workflow evidence failed: " "read workflow evidence failed: "
          (λ d, snd <$> filter (λ p, p.1 = id) (evidence d))).

Definition load_checkpoints (id : string) : M WorkflowError (list StoredCheckpoint) :=
  lift (query_all "load workflow checkpoints failed: " "read workflow checkpoints failed: "
          (λ d, snd <$> filter (λ p, p.1 = id) (checkpoints d))).

Record RunTransition := mk_transition {
  t_run_id : string;
  t_expected_version : Z;
  t_status : RunStatus.t;
  t_stage : Stage.t;
  t_round : Z;
  t_candidate : option string;
  t_candidate_generation : Z;
  t_pause_kind : option string;
  t_event_actor : string;
  t_event_kind : string;
  t_effect : option NewEffect;
}.

(** The row after [UPDATE runs SET ... version = version + 1]. *)
Definition transitioned (t : RunTransition) (epoch : Z) (r : StoredRun) : StoredRun :=
  mk_run (run_id r) (plan_hash r) (max_repair_turns r) (idempotency_key r)
    (RunStatus.as_str (t_status t)) (Stage.as_str (t_stage t)) (t_round t) (t_candidate t)
    (as_i64 (t_candidate_generation t)) (version r + 1) (as_i64 epoch) (t_pause_kind t).

Definition matches_version (t : RunTransition) (r : StoredRun) : bool :=
  str_eqb (run_id r) (t_run_id t) && (version r =? t_expected_version t).

Definition update_where {A} (p : A → bool) (f : A → A) (rows : list A) : list A :=
  (λ r, if p r then f r else r) <$> rows.

Definition rekind_transition (message : string) : WorkflowError :=
  if str_eqb message "stale run version" then stale_version message
  else if str_eqb message "workflow run not found" then not_found message
  else storage message.

Definition apply_transition (t : RunTransition) : M WorkflowError () :=
  now ← now_secs;
  _ ← lift txn_begin;
  map_err rekind_transition (txn_end (
    _ ← fallible "update workflow run failed: ";
    changed ← gets (λ d, existsb (matches_version t) (runs d));
    n ← asks epoch;
    _ ← update (λ d, set_runs (update_where (matches_version t) (transitioned t n) (runs d)) d);
    _ ← (if negb changed
         then conflict ← version_conflict (t_run_id t); fail conflict else mret ());
    sq ← next_event_seq (t_run_id t);
    _ ← insert_event (t_run_id t) sq now (t_event_actor t) (t_event_kind t) None;
    match t_effect t with
    | Some effect => insert_effect (t_run_id t) effect
    | None => mret ()
    end)).

(** ** Commands *)

Record NewCommand := mk_new_command {
  nc_run_id : string;
  nc_command_id : string;
  nc_session_ref : string;
  nc_prompt_digest : string;
  nc_turn : Z;
  nc_lease_generation : Z;
  nc_state : CommandState.t;
}.

Definition insert_command (c : NewCommand) : M WorkflowError () :=
  now ← now_secs;
  let event_kind := match nc_state c with
                    | CommandState.Queued => "command_queued"
                    | CommandState.Dispatching => "command_dispatching"
                    | _ => "command_state"
                    end in
  _ ← lift txn_begin;
  lift (txn_end (
    _ ← fallible "insert workflow command failed: ";
    taken ← gets (λ d, bool_decide (nc_command_id c ∈ command_id <$> commands d));
    _ ← (if taken : bool
         then violated "insert workflow command failed: " "commands.command_id"
         else update (λ d, set_commands (commands d ++
                [mk_command (nc_command_id c) (nc_run_id c) (nc_session_ref c)
                   (nc_prompt_digest c) (nc_turn c) (as_i64 (nc_lease_generation c))
                   (CommandState.as_str (nc_state c)) None None]) d));
    sq ← next_event_seq (nc_run_id c);
    insert_event (nc_run_id c) sq now "host" event_kind (Some (nc_command_id c)))).

Definition insert_dispatching_command (run id ref digest : string) (trn lease : Z)
    : M WorkflowError () :=
  insert_command (mk_new_command run id ref digest trn lease CommandState.Dispatching).
Definition insert_queued_command (run id ref digest : string) (trn lease : Z)
    : M WorkflowError () :=
  insert_command (mk_new_command run id ref digest trn lease CommandState.Queued).

Definition with_command_state (state : CommandState.t) (rcpt res : option string)
    (c : StoredCommand) : StoredCommand :=
  mk_command (command_id c) (c_run_id c) (session_ref c) (prompt_digest c) (turn c)
    (lease_generation c) (CommandState.as_str state) rcpt res.

Definition rekind_missing (missing message : string) : WorkflowError :=
  if str_eqb message missing then not_found message else storage message.

Definition set_command_state (id : string) (state : CommandState.t)
    (rcpt res : option string) : M WorkflowError () :=
  now ← now_secs;
  _ ← lift txn_begin;
  map_err (rekind_missing "workflow command not found") (txn_end (
    _ ← fallible "update workflow command failed: ";
    changed ← gets (λ d, existsb (λ c, str_eqb (command_id c) id) (commands d));
    _ ← update (λ d, set_commands (update_where (λ c, str_eqb (command_id c) id)
                                     (with_command_state state rcpt res) (commands d)) d);
    _ ← refuse (negb changed) "workflow command not found";
    run ← command_run id;
    sq ← next_event_seq run;
    let kind := match state with
                | CommandState.Written => "command_written"
                | CommandState.TurnEnded => "command_turn_ended"
                | CommandState.DeliveryUnknown => "command_delivery_unknown"
                | CommandState.Queued | CommandState.Dispatching => "command_state"
                end in
    insert_event run sq now "host" kind (Some id))).

Definition load_command (id : string) : M WorkflowError (option StoredCommand) :=
  lift (query_one "load workflow command failed: " "read workflow command failed: "
          (find_command id)).

Definition in_state (run : string) (state : CommandState.t) (d : Db) : list StoredCommand :=
  filter (λ c, c_run_id c = run ∧ c_state c = CommandState.as_str state) (commands d).
Definition commands_in_state (run : string) (state : CommandState.t)
    : M WorkflowError (list StoredCommand) :=
  lift (query_all "list workflow commands failed: " "read workflow commands failed: "
          (in_state run state)).

(** ** Sessions and events *)

Definition clamp_i64 (z : Z) : Z := if z <=? I64_MAX then z else I64_MAX.

Record SessionAttachment := mk_attachment {
  sa_run_id : string;
  sa_worker_id : string;
  sa_instance_id : option string;
  sa_capsule_epoch : option Z;
  sa_session_id : option Z;
  sa_process_identity : option string;
  sa_agent_profile : option string;
  sa_auth_profile : option string;
}.

Definition store_session (s : SessionAttachment) : M WorkflowError () :=
  lift (_ ← fallible "record workflow session failed: ";
        update (λ d, set_sessions (sessions d ++
          [mk_session (sa_run_id s) (sa_worker_id s) (sa_instance_id s)
             (clamp_i64 <$> sa_capsule_epoch s) (clamp_i64 <$> sa_session_id s)
             (sa_process_identity s) (sa_agent_profile s) (sa_auth_profile s)]) d)).

Definition load_sessions (id : string) : M WorkflowError (list StoredSession) :=
  lift (query_all "list workflow sessions failed: " "read workflow sessions failed: "
          (λ d, filter (λ s, s_run_id s = id) (sessions d))).

Definition append_event (id actor kind : string) (ref : option string) : M WorkflowError () :=
  now ← now_secs;
  lift (sq ← next_event_seq id; insert_event id sq now actor kind ref).

(** ** Effects *)

Definition effect_pending (run kind label : string) (e : StoredEffect) : Prop :=
  e_run_id e = run ∧ e_kind e = kind ∧ ownership_label e = Some label ∧
  str_in (e_status e) ["intended"; "adopted"; "dispatched"] = true.
#[global] Instance effect_pending_dec run kind label e :
  Decision (effect_pending run kind label e).
Proof. unfold effect_pending. apply _. Defined.

Definition find_effect (op : string) (d : Db) : option StoredEffect :=
  snd <$> list_find (λ e, operation_id e = op) (effects d).

(** [{run_id}:{kind}:{n}] *)
Definition effect_op_id (run kind : string) (n : Z) : string :=
  run +:+ ":" +:+ kind +:+ ":" +:+ pretty n.

Definition ensure_effect (run : string) (kind : EffectKind.t) (label : string)
    : M WorkflowError StoredEffect :=
  lift (
    found ← query_one "find workflow effect failed: " "read workflow effect failed: "
              (λ d, snd <$> list_find (effect_pending run (EffectKind.as_str kind) label)
                              (effects d));
    match found with
    | Some effect => mret effect
    | None =>
        count ← query_one "count workflow effects failed: "
                  "read workflow effect count failed: "
                  (λ d, Z.of_nat (length
                     (filter (λ e, e_run_id e = run ∧ e_kind e = EffectKind.as_str kind)
                        (effects d))));
        let op := effect_op_id run (EffectKind.as_str kind) (sat_add I64_MAX count 1) in
        _ ← insert_effect run (mk_new_effect op kind None None (Some label) None);
        fresh ← query_one "reload workflow effect failed: "
                  "read reloaded workflow effect failed: " (find_effect op);
        ok_or fresh "effect vanished after insert"
    end).

Definition with_effect_status (st : EffectStatus.t) (identity pres : option string)
    (e : StoredEffect) : StoredEffect :=
  mk_effect (operation_id e) (e_run_id e) (e_kind e) (EffectStatus.as_str st)
    (expected_state e) identity (ownership_label e) pres.

Definition set_effect (run op : string) (st : EffectStatus.t) (identity pres : option string)
    : M WorkflowError () :=
  now ← now_secs;
  _ ← lift txn_begin;
  map_err (rekind_missing "workflow effect not found") (txn_end (
    _ ← fallible "update workflow effect failed: ";
    changed ← gets (λ d, existsb (λ e, str_eqb (operation_id e) op) (effects d));
    _ ← update (λ d, set_effects (update_where (λ e, str_eqb (operation_id e) op)
                                    (with_effect_status st identity pres) (effects d)) d);
    _ ← refuse (negb changed) "workflow effect not found";
    sq ← next_event_seq run;
    insert_event run sq now "host" "effect_state" (Some op))).

Definition load_effects (id : string) : M WorkflowError (list StoredEffect) :=
  lift (query_all "list workflow effects failed: " "read workflow effects failed: "
          (λ d, filter (λ e, e_run_id e = id) (effects d))).

(** ** Evidence and checkpoints *)

Definition evidence_key (p : string * StoredEvidence) : string * string * string :=
  (p.1, ed_candidate p.2, ed_kind p.2).

Definition record_evidence (run : string) (e : StoredEvidence) : M WorkflowError () :=
  lift (_ ← fallible "record workflow evidence failed: ";
        taken ← gets (λ d, bool_decide (evidence_key (run, e) ∈ evidence_key <$> evidence d));
        if taken : bool
        then violated "record workflow evidence failed: "
               "evidence.run_id, evidence.candidate, evidence.kind"
        else update (λ d, set_evidence (evidence d ++ [(run, e)]) d)).

Definition partial_evidence (run cand : string) (p : string * StoredEvidence) : Prop :=
  p.1 = run ∧ ed_candidate p.2 = cand ∧ str_in (ed_kind p.2) ["test"; "review"] = true ∧
  ed_result p.2 = "incomplete".
#[global] Instance partial_evidence_dec run cand p : Decision (partial_evidence run cand p).
Proof. unfold partial_evidence. apply _. Defined.

Definition discard_partial_evidence (run cand : string) : M WorkflowError Z :=
  lift (_ ← fallible "discard partial workflow evidence failed: ";
        n ← gets (λ d, Z.of_nat (length (filter (partial_evidence run cand) (evidence d))));
        _ ← update (λ d, set_evidence
                           (filter (λ p, ¬ partial_evidence run cand p) (evidence d)) d);
        mret n).

Definition checkpoint_key (p : string * StoredCheckpoint) : string * string :=
  (p.1, ck_candidate p.2).

(** [INSERT ... ON CONFLICT(run_id, candidate) DO UPDATE] *)
Definition upsert_checkpoint (row : string * StoredCheckpoint)
    (rows : list (string * StoredCheckpoint)) : list (string * StoredCheckpoint) :=
  if bool_decide (checkpoint_key row ∈ checkpoint_key <$> rows)
  then update_where (λ p, bool_decide (checkpoint_key p = checkpoint_key row)) (λ _, row) rows
  else rows ++ [row].

Definition store_checkpoint (run : string) (ck : StoredCheckpoint) : M WorkflowError () :=
  lift (_ ← fallible "record workflow checkpoint failed: ";
        update (λ d, set_checkpoints (upsert_checkpoint (run, ck) (checkpoints d)) d)).

(** ** Artifacts *)

Definition hex_digit (n : Z) : byte := byte_of_Z (if n <? 10 then 48 + n else 87 + n).
(** [hex::encode] *)
Definition hex_encode (bs : bytes) : string :=
  of_bytes (concat ((λ b, [hex_digit (Z_of_byte b / 16); hex_digit (Z_of_byte b mod 16)]) <$> bs)).

Section Artifacts.
Context `{Sha256}.

Definition sha256_hex (bs : bytes) : string := hex_encode (sha256 bs).

(** The file-name-safe spelling, character by character: a character outside
    ASCII is one underscore, so continuation bytes give nothing. *)
Definition safe_byte (b : byte) : bytes :=
  let c := Z_of_byte b in
  if between 97 122 c || between 65 90 c || between 48 57 c || (c =? 45) || (c =? 95) || (c =? 46)
  then [b] else if is_cont b then [] else [byte_of_Z 95].
Definition safe_name (name : string) : string :=
  of_bytes (concat (safe_byte <$> as_bytes name)).

Definition artifact_name (name digest : string) : string := safe_name name +:+ "." +:+ digest.

(** Publishes the bytes under [{safe}.{digest}] unless that file is there; the
    staging file never has a published name. *)
Definition write_artifact (name : string) (bs : bytes) : M WorkflowError string :=
  let digest := sha256_hex bs in
  let target := artifact_name name digest in
  there ← asks (λ w, bool_decide (is_Some (artifacts w !! target)));
  _ ← (if there : bool then mret () else
       _ ← lift (fallible "stage workflow artifact failed: ");
       _ ← lift (fallible "write workflow artifact failed: ");
       _ ← lift (fallible "flush workflow artifact failed: ");
       _ ← lift (fallible "sync workflow artifact failed: ");
       _ ← lift (fallible "publish workflow artifact failed: ");
       modify (λ w, set_artifacts (<[target := bs]> (artifacts w)) w));
  mret digest.

Definition verify_artifact (name digest : string) : M WorkflowError bool :=
  _ ← lift (fallible "read workflow artifact failed: ");
  asks (λ w, match artifacts w !! artifact_name name digest with
             | None => false
             | Some bs => str_eqb (sha256_hex bs) digest
             end).

End Artifacts.
