(* ===== verification/WorkflowVerify.v ===== *)
(** * Workflow verification: tests, reviews, feedback and the decision

    [jackin-workflow/src/verify.rs] and [verify/process.rs]: the frozen test
    policy, the test worker and its result, the review schema, the redacted
    feedback document, the acceptance decision and the repair delivery gate.

    Running [git] and [docker] and reading files are outcomes of the
    environment, given as arguments; [serde_json] parsing and Unicode lower
    casing are parameters.  A slice out of range or off a character boundary is
    [Panic]. *)

From stdpp Require Import base list gmap strings pretty.
From Stdlib Require Import ZArith Lia Strings.Byte.
From S2P Require Import Prelude Clipboard WorkflowModel WorkflowStore.

Definition MAX_TEST_OUTPUT_BYTES : Z := 64 * 1024.
Definition MAX_REVIEW_BYTES : Z := 64 * 1024.
Definition MAX_FEEDBACK_BYTES : Z := 4 * 1024.
Definition MAX_TEST_EXCERPT_BYTES : Z := 1500.
Definition MAX_REVIEW_CORRECTIONS : Z := 1.
Definition TEST_SANDBOX_IMAGE : string :=
  "python@sha256:1b668429b3511ab407d8e00648891631b0b1a4d7e15e3ca70f38ab5b91ad4ab4".
Definition SANDBOX_PROFILE : string :=
  "sandbox-wrapper-v1;watchdog-grace=5s;network=none;readonly-root;cap-drop=all;memory=536870912;cpus=1;pids=64;trusted-ro;candidate-ro;tmpfs=/tmp:64m,/build:256m;env=PYTHONDONTWRITEBYTECODE=1".

(** ** String helpers *)

(** A single non-empty path-safe token. *)
Definition path_safe_token (s : string) : bool :=
  negb (is_blank s) &&
  negb (bool_decide (is_Some (find_ws_or (λ b, byte_is 47 b || byte_is 0 b) (as_bytes s)))).

(** [s.chars().take(n).collect()] *)
Fixpoint take_chars_bytes (n : nat) (bs : bytes) : bytes :=
  match bs with
  | [] => []
  | b :: r =>
      if is_cont b then b :: take_chars_bytes n r
      else match n with O => [] | S n' => b :: take_chars_bytes n' r end
  end.
Definition take_chars (n : Z) (s : string) : string :=
  of_bytes (take_chars_bytes (Z.to_nat n) (as_bytes s)).

(** [String::from_utf8_lossy]: every maximal invalid prefix of a character
    becomes U+FFFD. *)
Definition REPLACEMENT : bytes := byte_of_Z <$> [239; 191; 189].
Definition second_ok (c : Z) (b : byte) : bool :=
  let z := Z_of_byte b in
  if c =? 224 then between 160 191 z
  else if c =? 237 then between 128 159 z
  else if c =? 240 then between 144 191 z
  else if c =? 244 then between 128 143 z
  else is_cont b.
Fixpoint lossy (bs : bytes) : bytes :=
  match bs with
  | [] => []
  | b0 :: r0 =>
    let c := Z_of_byte b0 in
    if c <? 128 then b0 :: lossy r0
    else if between 194 223 c then
      match r0 with
      | b1 :: r1 => if is_cont b1 then b0 :: b1 :: lossy r1 else REPLACEMENT ++ lossy r0
      | [] => REPLACEMENT
      end
    else if between 224 239 c then
      match r0 with
      | b1 :: r1 =>
          if second_ok c b1 then
            match r1 with
            | b2 :: r2 =>
                if is_cont b2 then b0 :: b1 :: b2 :: lossy r2 else REPLACEMENT ++ lossy r1
            | [] => REPLACEMENT
            end
          else REPLACEMENT ++ lossy r0
      | [] => REPLACEMENT
      end
    else if between 240 244 c then
      match r0 with
      | b1 :: r1 =>
          if second_ok c b1 then
            match r1 with
            | b2 :: r2 =>
                if is_cont b2 then
                  match r2 with
                  | b3 :: r3 =>
                      if is_cont b3 then b0 :: b1 :: b2 :: b3 :: lossy r3
                      else REPLACEMENT ++ lossy r2
                  | [] => REPLACEMENT
                  end
                else REPLACEMENT ++ lossy r1
            | [] => REPLACEMENT
            end
          else REPLACEMENT ++ lossy r0
      | [] => REPLACEMENT
      end
    else REPLACEMENT ++ lossy r0
  end.
Definition from_utf8_lossy (bs : bytes) : string := of_bytes (lossy bs).

(** ** The frozen test policy *)

Section Policy.
Context `{Sha256}.

Record TestPolicy := mk_policy {
  argv : list string;
  timeout_secs : Z;
  policy_hash : string;
}.

(** The pieces [Digest::update] is given, in order. *)
Definition policy_parts (args : list string) (timeout : Z) : list bytes :=
  concat ((λ part, [as_bytes part; [byte_of_Z 0]]) <$> args)
  ++ [as_bytes TEST_SANDBOX_IMAGE; byte_of_Z 0 :: as_bytes SANDBOX_PROFILE ++ [byte_of_Z 0];
      to_be_bytes 8 timeout].

Definition freeze (args : list string) (timeout : Z) : WorkflowError + TestPolicy :=
  if bool_decide (args = []) || existsb is_blank args
  then inl (invalid "frozen test policy needs a non-empty exact argv")
  else if negb (between 1 3600 timeout)
  then inl (invalid "frozen test policy timeout must be within 1..=3600 seconds")
  else inr (mk_policy args timeout
              (hex_encode (hasher_finalize
                 (foldl hasher_update hasher_new (policy_parts args timeout))))).
End Policy.

(** ** The test worker *)

Record TestWorkerSpec := mk_worker_spec {
  tw_worker_id : string;
  tw_candidate_id : string;
  tw_commit : string;
  tw_tree : string;
  tw_policy_hash : string;
  tw_timeout_secs : Z;
}.

Fixpoint check_tokens (what : string) (labelled : list (string * string))
    : WorkflowError + () :=
  match labelled with
  | [] => inr ()
  | (label, value) :: rest =>
      if path_safe_token value then check_tokens what rest
      else inl (invalid (what +:+ " worker " +:+ label
                         +:+ " must be a single non-empty path-safe token"))
  end.

Definition test_worker_name (run : string) (rnd : Z) (cand : string) : string :=
  "test-" +:+ run +:+ "-r" +:+ pretty rnd +:+ "-" +:+ cand.

Definition worker_spec_new (run : string) (rnd : Z) (cand commit tree : string)
    (policy : TestPolicy) : WorkflowError + TestWorkerSpec :=
  match check_tokens "test" [("run", run); ("candidate", cand); ("commit", commit);
                             ("tree", tree)] with
  | inl e => inl e
  | inr _ => inr (mk_worker_spec (test_worker_name run rnd cand) cand commit tree
                    (policy_hash policy) (timeout_secs policy))
  end.

Record PreparedTestWorker := mk_prepared {
  pw_worker_id : string;
  pw_work_dir : string;
  pw_commit : string;
  pw_tree : string;
}.

(** What the environment answers: [git dir args] is [run_git], [is_dir] and
    [exists] are [Path::is_dir] and [Path::exists], [create_dir_all] may give an
    error text.  [path_join] is [Path::join] on a relative component. *)
Record Env := mk_env {
  git : string → list string → WorkflowError + string;
  is_dir : string → bool;
  path_exists : string → bool;
  create_dir_all : string → option string;
}.

Definition path_join (dir name : string) : string :=
  match rev (as_bytes dir) with
  | [] => name
  | b :: _ => if byte_is 47 b then dir +:+ name else dir +:+ "/" +:+ name
  end.

Definition sum_bind {E A B} (r : E + A) (k : A → E + B) : E + B :=
  match r with inl e => inl e | inr a => k a end.

Definition prepare_test_worker (env : Env) (repo : string) (spec : TestWorkerSpec)
    (scratch : string) : WorkflowError + PreparedTestWorker :=
  let work_dir := path_join scratch (tw_worker_id spec) in
  if negb (is_dir env repo)
  then inl (not_found ("test worker source repository " +:+ repo +:+ " does not exist"))
  else match create_dir_all env scratch with
  | Some err => inl (storage ("create test worker scratch root failed: " +:+ err))
  | None =>
    if path_exists env work_dir
    then inl (invalid ("test worker directory " +:+ work_dir
                       +:+ " already exists; workers are single-use"))
    else
      sum_bind (git env scratch ["clone"; "--no-hardlinks"; "--no-checkout"; "--"; repo;
                                 tw_worker_id spec]) (λ _,
      sum_bind (git env work_dir ["checkout"; "--detach"; tw_commit spec]) (λ _,
      sum_bind (git env work_dir ["rev-parse"; "HEAD"]) (λ head,
      if negb (str_eqb head (tw_commit spec))
      then inl (storage ("test worker HEAD " +:+ head +:+ " does not match checkpoint "
                         +:+ tw_commit spec))
      else
      sum_bind (git env work_dir ["rev-parse"; "HEAD^{tree}"]) (λ tree,
      if negb (str_eqb tree (tw_tree spec))
      then inl (storage ("test worker tree " +:+ tree +:+ " does not match checkpoint "
                         +:+ tw_tree spec))
      else
      sum_bind (git env work_dir ["status"; "--porcelain"]) (λ dirty,
      if negb (str_eqb dirty "")
      then inl (storage "test worker checkout is not clean after pinning the checkpoint")
      else inr (mk_prepared (tw_worker_id spec) work_dir head tree))))))
  end.

(** ** Test execution *)

Record BoundedOutput := mk_output { out_bytes : bytes; truncated : bool }.

(** [read_bounded]: the reads of the stream in order, [None] an error or end of
    file. *)
Fixpoint read_bounded_from (out : BoundedOutput) (reads : list (option bytes)) : BoundedOutput :=
  match reads with
  | [] | None :: _ | Some [] :: _ => out
  | Some chunk :: rest =>
      let remaining := sat_sub MAX_TEST_OUTPUT_BYTES (blen (out_bytes out)) in
      let kept := Z.min remaining (blen chunk) in
      read_bounded_from
        (mk_output (out_bytes out ++ take (Z.to_nat kept) chunk)
           (truncated out || (kept <? blen chunk))) rest
  end.
Definition read_bounded : list (option bytes) → BoundedOutput :=
  read_bounded_from (mk_output [] false).

Record TestExecution := mk_execution {
  exit_code : Z;
  timed_out : bool;
  stdout : BoundedOutput;
  stderr : BoundedOutput;
}.

Definition exit_label (x : TestExecution) : string :=
  if timed_out x then "timeout"
  else if exit_code x <? 0 then "signal"
  else "exit " +:+ pretty (exit_code x).

(** [docker inspect --format {{json .State}}], through the accessors of
    [serde_json::Value]. *)
Record DockerState := mk_docker_state {
  ds_error : option string;
  ds_status : option string;
  ds_running : option bool;
  ds_started_at : option string;
  ds_exit_code : option Z;
}.

(** The answers to the state query and to [docker rm]: a query is an error, a
    time-out or an exit status with its standard output. *)
Definition finish_test_execution (parse_state : bytes → string + DockerState)
    (worker : string) (query : WorkflowError + option (bool * bytes)) (removed : bool)
    (docker_cli_code : Z) (out err : BoundedOutput) : WorkflowError + TestExecution :=
  sum_bind query (λ answer,
  match answer with
  | None => inl (blocked "Docker sandbox state query timed out")
  | Some (success, text) =>
    if negb removed
    then inl (blocked ("test worker " +:+ worker +:+ " Docker sandbox cleanup failed"))
    else if negb success
    then inl (blocked ("test worker " +:+ worker
                       +:+ " Docker sandbox did not produce a container state"))
    else match parse_state text with
    | inl e => inl (blocked ("test worker Docker sandbox returned invalid state: " +:+ e))
    | inr st =>
      if match ds_error st with Some e => negb (str_eqb e "") | None => false end
      then inl (blocked ("test worker " +:+ worker
                         +:+ " Docker sandbox failed before test completion"))
      else if negb (bool_decide (ds_status st = Some "exited"))
              || negb (bool_decide (ds_running st = Some false))
              || match ds_started_at st with
                 | None => true
                 | Some started => starts_with "0001-01-01" started
                 end
      then inl (blocked ("test worker " +:+ worker
                         +:+ " Docker sandbox did not complete cleanly"))
      else match ds_exit_code st with
      | None => inl (blocked "test worker Docker sandbox omitted its exit code")
      | Some code =>
        if negb (between (-2147483648) 2147483647 code)
        then inl (blocked "test worker Docker sandbox omitted its exit code")
        else if negb (code =? docker_cli_code)
        then inl (blocked ("test worker " +:+ worker
                           +:+ " Docker exit status disagrees with container state"))
        else inr (mk_execution code false out err)
      end
    end
  end).

Section Results.
Context `{Sha256}.

Record TestResult := mk_result {
  tr_candidate_id : string;
  tr_commit : string;
  tr_tree : string;
  tr_policy_hash : string;
  tr_worker_id : string;
  tr_exit_code : Z;
  tr_passed : bool;
  tr_excerpt : string;
  tr_output_digest : string;
}.

Definition from_execution (spec : TestWorkerSpec) (policy : TestPolicy) (x : TestExecution)
    : TestResult :=
  let combined := from_utf8_lossy (out_bytes (stderr x)) +:+ of_bytes [byte_of_Z 10]
                  +:+ from_utf8_lossy (out_bytes (stdout x)) in
  mk_result (tw_candidate_id spec) (tw_commit spec) (tw_tree spec) (policy_hash policy)
    (tw_worker_id spec) (exit_code x) ((exit_code x =? 0) && negb (timed_out x))
    (take_chars MAX_TEST_EXCERPT_BYTES combined)
    (hex_encode (hasher_finalize
       (foldl hasher_update hasher_new
          [out_bytes (stdout x); [byte_of_Z 0]; out_bytes (stderr x)]))).

Definition LF : string := of_bytes [byte_of_Z 10].

Definition persist_test_output (cand : string) (x : TestExecution) : M WorkflowError string :=
  write_artifact ("test-output-" +:+ cand)
    (as_bytes ("candidate " +:+ cand +:+ " " +:+ exit_label x +:+ LF +:+ "--- stdout ---" +:+ LF)
     ++ out_bytes (stdout x)
     ++ as_bytes (LF +:+ "--- stderr ---" +:+ LF)
     ++ out_bytes (stderr x)).

Definition record_test_evidence (run : string) (result : TestResult) (digest : string)
    : M WorkflowError () :=
  record_evidence run
    (mk_evidence (tr_candidate_id result) "test" "trusted-test-worker" "host-observed"
       (if tr_passed result then "pass" else "fail") (Some (tr_policy_hash result))
       (Some digest)).
End Results.

(** ** Reviews *)

Module Severity.
Inductive t := Blocker | Major | Minor | Note.
#[global] Instance eq_dec : EqDecision t.
Proof. solve_decision. Defined.
End Severity.
Module ReviewStatus.
Inductive t := Pass | Fail.
#[global] Instance eq_dec : EqDecision t.
Proof. solve_decision. Defined.
Definition as_str (s : t) : string := match s with Pass => "pass" | Fail => "fail" end.
End ReviewStatus.

Record ReviewFinding := mk_finding {
  f_id : string;
  f_severity : Severity.t;
  f_path : string;
  line_start : option Z;
  line_end : option Z;
  explanation : string;
  suggestion : string;
}.

Record ReviewResult := mk_review {
  schema_version : Z;
  rv_candidate_id : string;
  rv_commit : string;
  rv_tree : string;
  rv_status : ReviewStatus.t;
  findings : list ReviewFinding;
}.

Record ReviewExpectation := mk_expectation {
  x_candidate_id : string;
  x_commit : string;
  x_tree : string;
}.

(** [path.split('/')] *)
Fixpoint split_slash (acc bs : bytes) : list bytes :=
  match bs with
  | [] => [rev acc]
  | b :: r => if byte_is 47 b then rev acc :: split_slash [] r else split_slash (b :: acc) r
  end.

Definition valid_relative_path (path : string) : bool :=
  if str_eqb path "" || (512 <? str_len path) || starts_with "/" path then false
  else negb (existsb (λ part, bool_decide (part = []) || bool_decide (part = as_bytes ".."))
               (split_slash [] (as_bytes path))).

Fixpoint check_identity (triples : list (string * string * string)) : WorkflowError + () :=
  match triples with
  | [] => inr ()
  | (label, actual, wanted) :: rest =>
      if is_blank actual || negb (str_eqb actual wanted)
      then inl (invalid ("review " +:+ label +:+ " does not name the candidate under review"))
      else check_identity rest
  end.

Fixpoint check_texts (texts : list (string * string)) : WorkflowError + () :=
  match texts with
  | [] => inr ()
  | (label, text) :: rest =>
      if is_blank text || (4096 <? str_len text)
      then inl (invalid ("review finding " +:+ label
                         +:+ " must be non-empty and at most 4096 bytes"))
      else check_texts rest
  end.

Definition check_line_range (f : ReviewFinding) : WorkflowError + () :=
  match line_start f, line_end f with
  | Some 0, _ | _, Some 0 => inl (invalid "review line numbers are 1-based")
  | Some s, Some e => if e <? s then inl (invalid "review line range ends before it starts")
                      else inr ()
  | None, Some _ => inl (invalid "review line_end needs a line_start")
  | _, _ => inr ()
  end.

(** The path appears in the message in its [Debug] spelling, left as a hole. *)
Definition check_finding (f : ReviewFinding) : WorkflowError + () :=
  if is_blank (f_id f) || (128 <? str_len (f_id f))
  then inl (invalid "review finding needs a non-empty id of at most 128 bytes")
  else if negb (valid_relative_path (f_path f))
  then inl (invalid "review finding path {:?} is outside the candidate source")
  else sum_bind (check_line_range f) (λ _,
       check_texts [("explanation", explanation f); ("suggestion", suggestion f)]).

Fixpoint check_findings (fs : list ReviewFinding) : WorkflowError + () :=
  match fs with
  | [] => inr ()
  | f :: rest => sum_bind (check_finding f) (λ _, check_findings rest)
  end.

Definition is_note (f : ReviewFinding) : bool := bool_decide (f_severity f = Severity.Note).

Definition blocking_count (fs : list ReviewFinding) : nat :=
  length (List.filter (λ f, negb (is_note f)) fs).

Definition too_long (n : Z) : WorkflowError :=
  invalid ("review result is " +:+ pretty n +:+ " bytes; the limit is "
           +:+ pretty MAX_REVIEW_BYTES).

(** [parse] is [serde_json::from_slice]. *)
Definition validate_review (parse : bytes → string + ReviewResult) (bs : bytes)
    (expected : ReviewExpectation) : WorkflowError + ReviewResult :=
  if MAX_REVIEW_BYTES <? blen bs then inl (too_long (blen bs))
  else match parse bs with
  | inl err => inl (invalid ("review result is not valid review JSON: " +:+ err))
  | inr result =>
    if negb (schema_version result =? 1)
    then inl (invalid ("review schema_version is " +:+ pretty (schema_version result)
                       +:+ "; only version 1 is accepted"))
    else
    sum_bind (check_identity [("candidate_id", rv_candidate_id result, x_candidate_id expected);
                              ("commit", rv_commit result, x_commit expected);
                              ("tree", rv_tree result, x_tree expected)]) (λ _,
    if (256 <? length (findings result))%nat
    then inl (invalid "review carries more than 256 findings")
    else
    sum_bind (check_findings (findings result)) (λ _,
    match rv_status result with
    | ReviewStatus.Pass =>
        if (0 <? blocking_count (findings result))%nat
        then inl (invalid
          "a passing review must not carry blocker, major, or minor findings")
        else inr result
    | ReviewStatus.Fail =>
        if bool_decide (findings result = [])
        then inl (invalid "a failing review needs at least one finding")
        else inr result
    end))
  end.

Definition review_acceptable (result : ReviewResult) : bool :=
  bool_decide (rv_status result = ReviewStatus.Pass) && forallb is_note (findings result).

Definition record_review_evidence (run cand policy : string) (result : ReviewResult)
    (digest : string) : M WorkflowError () :=
  record_evidence run
    (mk_evidence cand "review" "independent-review-worker" "host-validated"
       (ReviewStatus.as_str (rv_status result)) (Some policy) (Some digest)).

Record ReviewWorkerSpec := mk_review_worker {
  rw_worker_id : string;
  rw_candidate_id : string;
  rw_commit : string;
  rw_tree : string;
  rw_result_path : string;
  corrections_used : Z;
}.

Definition review_worker_new (run : string) (rnd : Z) (cand commit tree result_dir : string)
    : WorkflowError + ReviewWorkerSpec :=
  match check_tokens "review" [("run", run); ("candidate", cand); ("commit", commit);
                               ("tree", tree)] with
  | inl e => inl e
  | inr _ => inr (mk_review_worker ("review-" +:+ run +:+ "-r" +:+ pretty rnd +:+ "-" +:+ cand)
                    cand commit tree (path_join result_dir "review.json") 0)
  end.

Definition correction_allowed (used : Z) : bool := used <? MAX_REVIEW_CORRECTIONS.

Definition take_correction (s : ReviewWorkerSpec) : WorkflowError + ReviewWorkerSpec :=
  if negb (correction_allowed (corrections_used s))
  then inl (blocked "review correction budget is spent; operator action required")
  else inr (mk_review_worker (rw_worker_id s) (rw_candidate_id s) (rw_commit s) (rw_tree s)
              (rw_result_path s) (corrections_used s + 1)).

Definition expectation (s : ReviewWorkerSpec) : ReviewExpectation :=
  mk_expectation (rw_candidate_id s) (rw_commit s) (rw_tree s).

(** The answers of [fs::metadata] (missing, another error, a length) and
    [fs::read]. *)
Inductive Metadata := MissingFile | MetadataError (err : string) | FileLength (len : Z).

Definition read_review_bytes (path : string) (md : Metadata) (read : string + bytes)
    : WorkflowError + bytes :=
  match md with
  | MissingFile => inl (not_found ("review result " +:+ path
                          +:+ " is missing; a missing review blocks acceptance"))
  | MetadataError err => inl (storage ("read review result " +:+ path +:+ " failed: " +:+ err))
  | FileLength len =>
    if MAX_REVIEW_BYTES <? len then inl (too_long len)
    else match read with
    | inl err => inl (storage ("read review result " +:+ path +:+ " failed: " +:+ err))
    | inr bs => if MAX_REVIEW_BYTES <? blen bs then inl (too_long (blen bs)) else inr bs
    end
  end.

(** ** Feedback *)

Record FailingCheck := mk_check {
  ch_name : string;
  ch_excerpt : string;
  ch_location : option string;
}.

(** [str::find(&str)] *)
Fixpoint find_sub (needle hay : bytes) : option nat :=
  if bytes_prefix needle hay then Some 0%nat
  else match hay with [] => None | _ :: rest => S <$> find_sub needle rest end.

Definition boundary (bs : bytes) (i : nat) : bool :=
  (i =? 0)%nat || (i =? length bs)%nat
  || match bs !! i with Some b => negb (is_cont b) | None => false end.
(** [&s[i..]] *)
Definition slice_from (bs : bytes) (i : nat) : res bytes :=
  if boundary bs i then Ok (drop i bs) else Panic.
(** [String::replace_range] *)
Definition replace_range (bs : bytes) (s e : nat) (new : bytes) : res bytes :=
  if (s <=? e)%nat && boundary bs s && boundary bs e
  then Ok (take s bs ++ new ++ drop e bs) else Panic.

Definition REDACTED : bytes := as_bytes "[redacted]".
Definition TOKEN_PREFIXES : list string :=
  ["sk-"; "AKIA"; "xoxa-"; "xoxb-"; "xoxp-"; "ghp_"; "gho_"; "gsk_"; "Bearer "].
Definition SECRET_LABELS : list string :=
  ["api_key"; "apikey"; "secret"; "token"; "password"; "session_id"; "agent_id"; "account_id"].

Definition is_quote (b : byte) : bool := byte_is 34 b || byte_is 39 b.

(** The loop for one token prefix, from [from]; the recursion is bounded by the
    bytes left, so [Err] never comes out. *)
Fixpoint redact_prefix (fuel : nat) (prefix : bytes) (from : nat) (line : bytes) : res bytes :=
  match fuel with
  | O => bail "fuel"
  | S fuel =>
    tail ← slice_from line from;
    match find_sub prefix tail with
    | None => Ok line
    | Some hit =>
      let start := (from + hit)%nat in
      rest ← slice_from line start;
      let e := match find_ws_or is_quote rest with
               | Some offset => (start + offset)%nat
               | None => length line
               end in
      if (length prefix + 3 <? e - start)%nat then
        line' ← replace_range line start e REDACTED;
        redact_prefix fuel prefix (start + length REDACTED) line'
      else redact_prefix fuel prefix (start + length prefix) line
    end
  end.

(** The first byte that is no space, tab, colon or equals sign. *)
Fixpoint find_value (bs : bytes) : option nat :=
  match bs with
  | [] => None
  | b :: rest =>
      if byte_is 32 b || byte_is 9 b || byte_is 58 b || byte_is 61 b
      then S <$> find_value rest else Some 0%nat
  end.

(** The loop for one secret label: hits are searched in [lower], the lower-case
    copy taken before the first replacement. *)
Fixpoint redact_label (fuel : nat) (lower label : bytes) (from : nat) (line : bytes)
    : res bytes :=
  match fuel with
  | O => bail "fuel"
  | S fuel =>
    tail ← slice_from lower from;
    match find_sub label tail with
    | None => Ok line
    | Some hit =>
      let value_from := (from + hit + length label)%nat in
      after ← slice_from line value_from;
      let value_start := default (length after) (find_value after) in
      if (length after <=? value_start)%nat then Ok line
      else
        let absolute := (value_from + value_start)%nat in
        rest ← slice_from line absolute;
        let value_end := match find_ws_or (λ b, is_quote b || byte_is 59 b) rest with
                         | Some offset => (absolute + offset)%nat
                         | None => length line
                         end in
        if (absolute <? value_end)%nat then
          line' ← replace_range line absolute value_end REDACTED;
          redact_label fuel lower label (absolute + length REDACTED) line'
        else redact_label fuel lower label absolute line
    end
  end.

Fixpoint fold_res {A B} (f : B → A → res B) (acc : B) (l : list A) : res B :=
  match l with [] => Ok acc | x :: l => acc' ← f acc x; fold_res f acc' l end.
Fixpoint map_res {A B} (f : A → res B) (l : list A) : res (list B) :=
  match l with [] => Ok [] | x :: l => y ← f x; ys ← map_res f l; Ok (y :: ys) end.

Section Feedback.
(** [str::to_lowercase] *)
Context (to_lowercase : string → string).

Definition redact_line (line : string) : res string :=
  redacted ← fold_res (λ acc prefix,
      redact_prefix (S (length acc)) (as_bytes prefix) 0 acc)
      (as_bytes line) TOKEN_PREFIXES;
  let lower := as_bytes (to_lowercase (of_bytes redacted)) in
  out ← fold_res (λ acc label, redact_label (S (length lower)) lower (as_bytes label) 0 acc)
          redacted SECRET_LABELS;
  Ok (of_bytes out).

Definition redact_secrets (text : string) : res string :=
  out ← map_res redact_line (lines text);
  Ok (join LF out).

Record FeedbackInput := mk_feedback_input {
  fi_candidate_id : string;
  fi_commit : string;
  fi_round : Z;
  remaining_repairs : Z;
  checks : list FailingCheck;
  fi_findings : list ReviewFinding;
  evidence_refs : list string;
}.

Definition severity_label (s : Severity.t) : string :=
  match s with
  | Severity.Blocker => "blocker"
  | Severity.Major => "major"
  | Severity.Minor => "minor"
  | Severity.Note => "note"
  end.

Definition finding_location (f : ReviewFinding) : string :=
  match line_start f, line_end f with
  | Some s, Some e =>
      if negb (e =? s) then f_path f +:+ ":" +:+ pretty s +:+ "-" +:+ pretty e
      else f_path f +:+ ":" +:+ pretty s
  | Some s, None => f_path f +:+ ":" +:+ pretty s
  | None, _ => f_path f
  end.

Definition check_text (c : FailingCheck) : string :=
  "- " +:+ ch_name c
  +:+ match ch_location c with Some l => " at " +:+ l | None => "" end
  +:+ LF
  +:+ join "" ((λ l, "  " +:+ take_chars 200 l +:+ LF) <$> take 10 (lines (ch_excerpt c))).

Definition finding_text (f : ReviewFinding) : string :=
  "- [" +:+ severity_label (f_severity f) +:+ "] " +:+ f_id f +:+ " " +:+ finding_location f
  +:+ " — " +:+ take_chars 300 (explanation f) +:+ " → " +:+ take_chars 300 (suggestion f)
  +:+ LF.

Definition section_text {A} (title : string) (f : A → string) (l : list A) : string :=
  match l with [] => "" | _ => title +:+ LF +:+ join "" (f <$> l) end.

Definition feedback_doc (input : FeedbackInput) : string :=
  "repair feedback for " +:+ fi_candidate_id input +:+ " (" +:+ take_chars 12 (fi_commit input)
  +:+ ") round " +:+ pretty (fi_round input) +:+ ": " +:+ pretty (remaining_repairs input)
  +:+ " repair turn(s) left" +:+ LF
  +:+ section_text "failing checks:" check_text (checks input)
  +:+ section_text "review findings:" finding_text (fi_findings input)
  +:+ section_text "evidence:" (λ r, "- " +:+ take_chars 160 r +:+ LF) (evidence_refs input).

Definition cap_feedback (scrubbed : string) : string :=
  if str_len scrubbed <=? MAX_FEEDBACK_BYTES then scrubbed
  else take_chars MAX_FEEDBACK_BYTES scrubbed +:+ LF +:+ "[truncated]".

(** The outer result is a panic or the Rust result. *)
Definition build_feedback (input : FeedbackInput) : res (WorkflowError + string) :=
  if is_blank (fi_candidate_id input) || is_blank (fi_commit input)
  then Ok (inl (invalid "feedback needs the current candidate identity"))
  else if bool_decide (length (checks input) = 0%nat)
          && bool_decide (length (fi_findings input) = 0%nat)
  then Ok (inl (invalid "feedback needs at least one failing check or finding"))
  else
    scrubbed ← redact_secrets (feedback_doc input);
    Ok (inr (cap_feedback scrubbed)).

(** The bound [stage_repair_feedback] puts on the document it is given. *)
Definition feedback_admissible (feedback : string) : bool :=
  negb (is_blank feedback || (MAX_FEEDBACK_BYTES + 16 <? str_len feedback)).
End Feedback.

(** ** The decision *)

Record CandidateRef := mk_candidate {
  ca_candidate_id : string;
  ca_commit : string;
  ca_tree : string;
  ca_generation : Z;
}.
#[global] Instance candidate_eq_dec : EqDecision CandidateRef.
Proof. solve_decision. Defined.

Record CandidateEvidence := mk_candidate_evidence {
  ce_candidate : CandidateRef;
  ce_current : CandidateRef;
  test_passed : bool;
  ce_review_acceptable : bool;
  test_policy_hash : string;
  expected_policy_hash : string;
  source_current : bool;
  backup_satisfied : bool;
  host_owned : bool;
  epoch_current : bool;
  uncertainty_pending : bool;
  ce_round : Z;
  ce_max_repair_turns : Z;
}.

Module Decision.
Inductive t := Accept | Repair | Fail (reason : string) | NeedsOperator (reason : string).
End Decision.

Definition decide_candidate (e : CandidateEvidence) : Decision.t :=
  let c := ce_candidate e in
  if is_blank (ca_candidate_id c) || is_blank (ca_commit c) || is_blank (ca_tree c)
  then Decision.NeedsOperator "incomplete candidate evidence"
  else if negb (bool_decide (c = ce_current e))
  then Decision.NeedsOperator "stale evidence: the candidate moved; re-verify the current candidate"
  else if negb (str_eqb (test_policy_hash e) (expected_policy_hash e))
  then Decision.NeedsOperator "stale evidence: the test policy changed; a new plan is required"
  else if uncertainty_pending e
  then Decision.NeedsOperator "unresolved delivery uncertainty blocks the decision"
  else if negb (epoch_current e)
  then Decision.NeedsOperator "owner epoch moved; automatic input from this epoch is stale"
  else if negb (host_owned e)
  then Decision.NeedsOperator "automatic input is not host-owned; resolve input ownership first"
  else if negb (source_current e)
  then Decision.NeedsOperator "source drifted from the candidate; recapture before deciding"
  else if negb (backup_satisfied e)
  then Decision.NeedsOperator "required backup has not completed"
  else if test_passed e && ce_review_acceptable e then Decision.Accept
  else if ce_round e <? ce_max_repair_turns e then Decision.Repair
  else Decision.Fail "repair budget is exhausted with failing verification".

Record SessionIdentity := mk_identity {
  si_instance_id : string;
  si_session_id : Z;
  si_capsule_epoch : option Z;
  si_process_identity : option string;
}.
#[global] Instance identity_eq_dec : EqDecision SessionIdentity.
Proof. solve_decision. Defined.

Record DeliveryGate := mk_gate {
  recorded : SessionIdentity;
  observed : SessionIdentity;
  owner_epoch_current : bool;
  operator_owned : bool;
  turn_ended : bool;
}.

Definition admit_repair_delivery (g : DeliveryGate) : WorkflowError + () :=
  if negb (bool_decide (recorded g = observed g))
  then inl (blocked "implementer session identity changed; refusing repair delivery to an uncertain session")
  else if negb (owner_epoch_current g)
  then inl (blocked "owner epoch moved; repair prompt from this epoch is stale")
  else if operator_owned g
  then inl (blocked "operator owns session input; automatic repair input is refused")
  else if negb (turn_ended g)
  then inl (blocked "implementer turn has not ended; repair delivery waits")
  else inr ().
