(* ===== verification/WorkflowService.v ===== *)
(** * The workflow service

    [jackin-workflow/src/service.rs], [service/recovery.rs] and
    [service/backend.rs]: every operation of [WorkflowService], composed of the
    store operations of [WorkflowStore] in the order of the source.

    Fresh [uuid]s, the answers of [git] and of the file system, and the outcome
    of running the sandboxed test command are arguments. *)

From stdpp Require Import base list gmap strings pretty sorting.
From Stdlib Require Import ZArith Lia Strings.Byte.
From S2P Require Import Prelude Clipboard WorkflowModel WorkflowStore WorkflowVerify.

(** ** Data *)

Record RunSummary := mk_summary {
  rs_run_id : string;
  rs_plan_hash : string;
  rs_status : string;
  rs_stage : string;
  rs_round : Z;
  rs_candidate : option string;
  rs_candidate_generation : Z;
  rs_version : Z;
  rs_owner_epoch : Z;
  rs_pause_kind : option string;
  rs_max_repair_turns : Z;
}.

Record RunDetail := mk_detail {
  rd_summary : RunSummary;
  rd_sessions : list StoredSession;
  rd_effects : list StoredEffect;
  rd_events : list StoredEvent;
  rd_evidence : list StoredEvidence;
  rd_checkpoints : list StoredCheckpoint;
}.

Module OperatorDecision.
Inductive t := ContinueFromCurrent | SubmitNew | Cancel.
Definition as_str (d : t) : string :=
  match d with
  | ContinueFromCurrent => "continue_from_current"
  | SubmitNew => "submit_new"
  | Cancel => "cancel"
  end.
Definition parse (v : string) : option t :=
  if str_eqb v "continue_from_current" then Some ContinueFromCurrent
  else if str_eqb v "submit_new" then Some SubmitNew
  else if str_eqb v "cancel" then Some Cancel
  else None.
End OperatorDecision.

Record LiveInstance := mk_instance {
  li_instance_id : string;
  li_ownership_label : string;
  capture_paused : bool;
  session_alive : bool;
  li_capsule_epoch : option Z;
  li_process_identity : option string;
}.

Record InstanceInventory := mk_inventory {
  instances : list LiveInstance;
  backup_refs : list string;
}.

Record RecordedDispatch := mk_dispatch { rd_command_id : string; rd_prompt_digest : string }.
Record RecoveryReport := mk_report { rr_run_id : option string; actions : list string }.

Record RecordedTest := mk_recorded_test {
  rt_passed : bool;
  rt_policy_hash : string;
  rt_artifact_digest : string;
  rt_worker_id : string;
  rt_exit_code : Z;
  rt_excerpt : string;
}.
Record RecordedReview := mk_recorded_review {
  acceptable : bool;
  rr_artifact_digest : string;
}.

Record TestBundleFile := mk_bundle_file { logical_path : string; bf_digest : string }.

Record RecordTestParams := mk_test_params {
  check_program : string;
  check_script : string;
  bundle_digest : string;
  bundle_files : list TestBundleFile;
  repo : option string;
  scratch : string;
  rp_timeout_secs : Z;
}.

(** ** Conversions *)

(** [u32::try_from(z.max(0)).unwrap_or(d)] and [u64::try_from(z.max(0)).unwrap_or(0)] *)
Definition to_u32 (d z : Z) : Z := let m := Z.max z 0 in if m <=? U32_MAX then m else d.
Definition to_u64 (z : Z) : Z := let m := Z.max z 0 in if m <=? U64_MAX then m else 0.

Definition run_missing (id : string) : WorkflowError :=
  not_found ("run " +:+ id +:+ " not found").
Definition unknown_status (id : string) : WorkflowError :=
  storage ("run " +:+ id +:+ " has unknown status").
Definition unknown_stage (id : string) : WorkflowError :=
  storage ("run " +:+ id +:+ " has unknown stage").
Definition terminal_run : WorkflowError := invalid "run is terminal".

Definition opt_or {E A} (o : option A) (e : E) : E + A :=
  match o with Some a => inr a | None => inl e end.

Definition view_of (r : StoredRun) : WorkflowError + RunView :=
  sum_bind (opt_or (RunStatus.parse (status r)) (unknown_status (run_id r))) (λ st,
  sum_bind (opt_or (Stage.parse (stage r)) (unknown_stage (run_id r))) (λ sg,
  inr (mk_view st sg (to_u32 0 (round r)) (to_u64 (candidate_generation r))))).

Definition summarize (r : StoredRun) : WorkflowError + RunSummary :=
  sum_bind (opt_or (RunStatus.parse (status r)) (unknown_status (run_id r))) (λ st,
  sum_bind (opt_or (Stage.parse (stage r)) (unknown_stage (run_id r))) (λ sg,
  inr (mk_summary (run_id r) (plan_hash r) (RunStatus.as_str st) (Stage.as_str sg)
         (to_u32 0 (round r)) (candidate r) (to_u64 (candidate_generation r)) (version r)
         (to_u64 (owner_epoch r)) (pause_kind r) (to_u32 0 (max_repair_turns r))))).

Definition effect_for (next : NextState) (run : string) : option NewEffect :=
  if str_eqb (n_event_kind next) "turn_ended"
     && (bool_decide (n_status next = RunStatus.Active)
         || bool_decide (n_status next = RunStatus.Paused))
  then Some (mk_new_effect (effect_op_id run "capture" (sat_add U32_MAX (n_round next) 1))
               EffectKind.Capture None None (Some (run +:+ ":capture")) None)
  else None.

(** ** Loading guards shared by the operations *)

Definition require_run (id : string) : M WorkflowError StoredRun :=
  o ← load_run id; ok_or o (run_missing id).

Definition check_expected_version (r : StoredRun) (id : string) (expected : Z)
    : M WorkflowError () :=
  refuse (negb (version r =? expected))
    (stale_version ("run " +:+ id +:+ " moved: expected version " +:+ pretty expected
                    +:+ ", found " +:+ pretty (version r))).

Definition parse_status (r : StoredRun) (id : string) : M WorkflowError RunStatus.t :=
  ok_or (RunStatus.parse (status r)) (unknown_status id).
Definition parse_stage (r : StoredRun) (id : string) : M WorkflowError Stage.t :=
  ok_or (Stage.parse (stage r)) (unknown_stage id).

(** [parse_status] and the refusal of a terminal run. *)
Definition live_status (r : StoredRun) (id : string) : M WorkflowError RunStatus.t :=
  st ← parse_status r id;
  _ ← refuse (RunStatus.is_terminal st) terminal_run;
  mret st.

Definition check_candidate_id (cand : string) : M WorkflowError () :=
  refuse (negb (path_safe_token cand))
    (invalid "candidate must be a single non-empty path-safe token").

Definition no_checkpoint (cand : string) : WorkflowError :=
  blocked ("candidate `" +:+ cand +:+ "` has no checkpoint; capture it first").
Definition no_candidate : WorkflowError := blocked "no candidate is recorded for this run".

Definition find_checkpoint (cand : string) (cks : list StoredCheckpoint)
    : option StoredCheckpoint :=
  snd <$> list_find (λ k, ck_candidate k = cand) cks.

Definition is_verdict (cand : string) (e : StoredEvidence) : bool :=
  str_eqb (ed_candidate e) cand && str_in (ed_kind e) ["test"; "review"].
Definition is_kind (cand kind : string) (e : StoredEvidence) : bool :=
  str_eqb (ed_candidate e) cand && str_eqb (ed_kind e) kind.

Definition summary_of (id : string) : M WorkflowError RunSummary :=
  o ← load_run id;
  match o with
  | Some r => from_sum (summarize r)
  | None => fail (run_missing id)
  end.

(** ** Runs *)

Definition start_run (uuid plan : string) (max : Z) (key : string)
    : M WorkflowError RunSummary :=
  _ ← refuse (is_blank key || is_blank plan)
        (invalid "plan hash and idempotency key are required");
  existing ← load_run_by_key key;
  match existing with
  | Some r => from_sum (summarize r)
  | None =>
      active ← active_run;
      match active with
      | Some r => fail (busy ("run " +:+ run_id r
                              +:+ " is already active; no queue in the MVP"))
      | None =>
          let id := "run-" +:+ uuid in
          _ ← create_run id plan max key;
          _ ← ensure_effect id EffectKind.Launch ("plan:" +:+ plan);
          summary_of id
      end
  end.

Definition run_summary (id : option string) : M WorkflowError RunSummary :=
  match id with
  | Some id => summary_of id
  | None =>
      o ← active_run;
      match o with
      | Some r => from_sum (summarize r)
      | None => fail (not_found "no active run")
      end
  end.

Fixpoint collect {E A B} (f : A → E + B) (l : list A) : E + list B :=
  match l with
  | [] => inr []
  | a :: l => sum_bind (f a) (λ b, sum_bind (collect f l) (λ bs, inr (b :: bs)))
  end.

Definition service_list_runs (limit : Z) : M WorkflowError (list RunSummary) :=
  rs ← list_runs limit; from_sum (collect summarize rs).

Definition run_detail (id : string) (after limit : Z) : M WorkflowError RunDetail :=
  summary ← summary_of id;
  ss ← load_sessions id;
  es ← load_effects id;
  evs ← load_events id after limit;
  eds ← load_evidence id;
  cks ← load_checkpoints id;
  mret (mk_detail summary ss es evs eds cks).

Record TransitionRequest := mk_request {
  q_status : RunStatus.t;
  q_stage : Stage.t;
  q_round : Z;
  q_pause_kind : option string;
  q_actor : string;
  q_event_kind : string;
  q_effect : option NewEffect;
}.

Definition apply (r : StoredRun) (q : TransitionRequest) : M WorkflowError () :=
  apply_transition (mk_transition (run_id r) (version r) (q_status q) (q_stage q) (q_round q)
    (candidate r) (to_u64 (candidate_generation r)) (q_pause_kind q) (q_actor q)
    (q_event_kind q) (q_effect q)).

Definition submit_observation (id : string) (expected caller_epoch : Z) (actor : Actor.t)
    (obs : Observation.t) : M WorkflowError RunSummary :=
  owner ← asks epoch;
  _ ← refuse (negb (caller_epoch =? owner))
        (stale_epoch ("caller epoch " +:+ pretty caller_epoch +:+ " is older than owner epoch "
                      +:+ pretty owner));
  r ← require_run id;
  view ← from_sum (view_of r);
  let max := to_u32 U32_MAX (max_repair_turns r) in
  next ← from_sum (match advance view max obs actor with
                   | inl refusal => inl (blocked (refusal_reason refusal))
                   | inr next => inr next
                   end);
  let effect := effect_for next id in
  let label := if bool_decide (actor = Actor.Host) then "host" else "worker" in
  _ ← apply_transition (mk_transition id expected (n_status next) (n_stage next) (n_round next)
        (candidate r) (to_u64 (candidate_generation r)) (pause_kind r) label
        (n_event_kind next) effect);
  summary_of id.

Definition record_candidate (id cand : string) (expected : Z) (actor : string)
    : M WorkflowError RunSummary :=
  _ ← check_candidate_id cand;
  r ← require_run id;
  _ ← check_expected_version r id expected;
  st ← live_status r id;
  sg ← parse_stage r id;
  rows ← load_evidence id;
  _ ← refuse (existsb (is_verdict cand) rows)
        (invalid ("candidate `" +:+ cand
                  +:+ "` already carries verification evidence; record a new candidate"));
  let generation := add64 (to_u64 (candidate_generation r)) 1 in
  _ ← apply_transition (mk_transition id expected st sg (to_u32 0 (round r)) (Some cand)
        generation (pause_kind r) actor "candidate_recorded" None);
  summary_of id.

Definition record_session (s : SessionAttachment) (expected : Z) (actor : string)
    : M WorkflowError RunSummary :=
  let id := sa_run_id s in
  r ← require_run id;
  _ ← check_expected_version r id expected;
  _ ← live_status r id;
  _ ← refuse (is_blank (sa_worker_id s)) (invalid "worker id is required");
  _ ← store_session s;
  _ ← append_event id actor "worker_started" (Some (sa_worker_id s));
  summary_of id.

(** ** Checkpoints *)

Definition verify_source (env : Env) (dir commit cand : string) : WorkflowError + string :=
  if is_blank commit then inl (invalid "checkpoint commit is required")
  else
    sum_bind (git env dir ["rev-parse"; "HEAD"]) (λ head,
    if negb (str_eqb head commit)
    then inl (blocked ("local source HEAD " +:+ head +:+ " does not match candidate `" +:+ cand
                       +:+ "` commit " +:+ commit))
    else
    sum_bind (git env dir ["rev-parse"; "HEAD^{tree}"]) (λ tree,
    sum_bind (git env dir ["status"; "--porcelain"]) (λ dirty,
    if negb (str_eqb dirty "")
    then inl (blocked ("local source for candidate `" +:+ cand
                       +:+ "` has uncommitted changes; commit the candidate first"))
    else inr tree))).

Definition record_checkpoint (env : Env) (id : string) (ck : StoredCheckpoint) (expected : Z)
    : M WorkflowError RunSummary :=
  let cand := ck_candidate ck in
  r ← require_run id;
  _ ← check_expected_version r id expected;
  _ ← live_status r id;
  _ ← refuse (negb (bool_decide (candidate r = Some cand)))
        (invalid ("checkpoint candidate `" +:+ cand
                  +:+ "` does not match the recorded run candidate `"
                  +:+ default "none" (candidate r) +:+ "`"));
  tree ← from_sum (verify_source env (local_path ck) (commit_hash ck) cand);
  _ ← refuse (negb (is_blank (tree_hash ck)) && negb (str_eqb (tree_hash ck) tree))
        (invalid ("recorded tree " +:+ tree_hash ck +:+ " does not match the local source tree "
                  +:+ tree));
  rows ← load_evidence id;
  _ ← (if existsb (is_verdict cand) rows then
         cks ← load_checkpoints id;
         match find_checkpoint cand cks with
         | None => fail (storage ("candidate `" +:+ cand +:+ "` has evidence but no checkpoint"))
         | Some previous =>
             refuse (negb (str_eqb (commit_hash previous) (commit_hash ck))
                     || negb (str_eqb (tree_hash previous) tree))
               (invalid ("candidate `" +:+ cand
                  +:+ "` already has verification evidence; changed source needs a new candidate"))
         end
       else mret ());
  _ ← store_checkpoint id (mk_checkpoint cand (commit_hash ck) tree (source_manifest ck)
        (local_path ck) (backup_state ck) (preservation_hold ck));
  _ ← append_event id "host" "checkpoint_created" (Some cand);
  summary_of id.

(** ** Verdicts *)

Section Verdicts.
Context `{Sha256}.

Definition pair_le (a b : string * string) : Prop :=
  (if str_eqb a.1 b.1 then bytes_leb (as_bytes a.2) (as_bytes b.2)
   else bytes_leb (as_bytes a.1) (as_bytes b.1)) = true.
#[global] Instance pair_le_dec : RelDecision pair_le.
Proof. intros a b. unfold pair_le. apply _. Defined.

Definition bundle_manifest_digest (files : list (string * string)) : string :=
  sha256_hex (concat ((λ p, as_bytes p.1 ++ [byte_of_Z 0] ++ as_bytes p.2 ++ [byte_of_Z 0])
                        <$> merge_sort pair_le files)).

(** [script]: what [fs::read] of the check script gives; [run_test]: the
    sandboxed execution. *)
Definition record_test (env : Env) (script : string + bytes)
    (run_test : TestPolicy → PreparedTestWorker → list TestBundleFile →
                WorkflowError + TestExecution)
    (id : string) (expected : Z) (p : RecordTestParams)
    : M WorkflowError (RunSummary * RecordedTest) :=
  r ← require_run id;
  _ ← check_expected_version r id expected;
  _ ← live_status r id;
  sg ← parse_stage r id;
  _ ← refuse (negb (bool_decide (sg = Stage.Test)))
        (invalid "recorded tests belong to the test stage");
  cand ← ok_or (candidate r) no_candidate;
  cks ← load_checkpoints id;
  ck ← ok_or (find_checkpoint cand cks) (no_checkpoint cand);
  rows ← load_evidence id;
  _ ← refuse (existsb (is_kind cand "test") rows)
        (invalid ("test evidence already recorded for `" +:+ cand
                  +:+ "`; record a new candidate to re-verify"));
  bs ← from_sum (match script with
                 | inl err => inl (invalid ("cannot read check script " +:+ check_script p
                                            +:+ ": " +:+ err))
                 | inr bs => inr bs
                 end);
  let script_digest := sha256_hex bs in
  _ ← refuse (negb (existsb (λ f, str_eqb (bf_digest f) script_digest) (bundle_files p)))
        (invalid "check script is not a member of the frozen test bundle");
  let manifest := bundle_manifest_digest ((λ f, (logical_path f, bf_digest f))
                                            <$> bundle_files p) in
  _ ← refuse (negb (str_eqb manifest (bundle_digest p)))
        (invalid "test bundle manifest does not match the frozen bundle digest");
  let rnd := to_u32 0 (round r) in
  let worker := test_worker_name id rnd cand in
  policy ← from_sum (freeze [check_program p; check_script p; path_join (scratch p) worker]
                       (rp_timeout_secs p));
  spec ← from_sum (worker_spec_new id rnd cand (commit_hash ck) (tree_hash ck) policy);
  prepared ← from_sum (prepare_test_worker env (default (local_path ck) (repo p)) spec
                         (scratch p));
  execution ← from_sum (run_test policy prepared (bundle_files p));
  let result := from_execution spec policy execution in
  artifact ← persist_test_output cand execution;
  _ ← record_test_evidence id result artifact;
  _ ← append_event id "host" "test_completed" (Some (tr_candidate_id result));
  summary ← summary_of id;
  mret (summary, mk_recorded_test (tr_passed result) (policy_hash policy) artifact worker
                   (tr_exit_code result) (tr_excerpt result)).

(** [file]: what [read_review_bytes] sees of the review file. *)
Definition record_review (parse : bytes → string + ReviewResult)
    (file : Metadata * (string + bytes)) (id : string) (expected : Z)
    (review_file policy : string) : M WorkflowError (RunSummary * RecordedReview) :=
  r ← require_run id;
  _ ← check_expected_version r id expected;
  _ ← live_status r id;
  sg ← parse_stage r id;
  _ ← refuse (negb (bool_decide (sg = Stage.Review)))
        (invalid "recorded reviews belong to the review stage");
  _ ← refuse (is_blank policy) (invalid "review evidence needs the recorded test policy hash");
  cand ← ok_or (candidate r) no_candidate;
  cks ← load_checkpoints id;
  ck ← ok_or (find_checkpoint cand cks) (no_checkpoint cand);
  rows ← load_evidence id;
  recorded_policy ← ok_or
    (row ← snd <$> list_find (λ e, is_kind cand "test" e = true) rows; ed_policy_hash row)
    (blocked ("candidate `" +:+ cand
              +:+ "` has no recorded test verdict; record the test verdict first"));
  _ ← refuse (negb (str_eqb recorded_policy policy))
        (invalid ("review policy `" +:+ policy +:+ "` does not match the recorded test policy `"
                  +:+ recorded_policy +:+ "` for `" +:+ cand +:+ "`"));
  _ ← refuse (existsb (is_kind cand "review") rows)
        (invalid ("review evidence already recorded for `" +:+ cand
                  +:+ "`; record a new candidate to re-verify"));
  bs ← from_sum (read_review_bytes review_file file.1 file.2);
  result ← from_sum (validate_review parse bs
                       (mk_expectation cand (commit_hash ck) (tree_hash ck)));
  artifact ← write_artifact ("review-" +:+ cand) bs;
  _ ← record_review_evidence id cand policy result artifact;
  _ ← append_event id "host" "review_completed" (Some cand);
  summary ← summary_of id;
  mret (summary, mk_recorded_review (review_acceptable result) artifact).

End Verdicts.

(** [split_whitespace().next().unwrap_or_default()] *)
Definition first_word (s : string) : string :=
  let bs := strip_while ws1 ws2 ws3 (as_bytes s) in
  of_bytes (match find_ws_or (λ _, false) bs with Some n => take n bs | None => bs end).

Definition record_backup (env : Env) (id : string) (expected : Z)
    (remote git_ref actor : string) : M WorkflowError RunSummary :=
  _ ← refuse (is_blank remote || is_blank git_ref) (invalid "backup remote and ref are required");
  r ← require_run id;
  _ ← check_expected_version r id expected;
  _ ← live_status r id;
  cand ← ok_or (candidate r) no_candidate;
  cks ← load_checkpoints id;
  ck ← ok_or (find_checkpoint cand cks) (no_checkpoint cand);
  listing ← from_sum (git env (local_path ck) ["ls-remote"; remote; git_ref]);
  let resolved := first_word listing in
  _ ← refuse (negb (str_eqb resolved (commit_hash ck)))
        (blocked ("backup ref `" +:+ git_ref +:+ "` resolves to `" +:+ resolved
                  +:+ "`, not the candidate commit " +:+ commit_hash ck
                  +:+ "; push the candidate first"));
  effect ← ensure_effect id EffectKind.Backup (id +:+ ":backup");
  _ ← set_effect id (operation_id effect) EffectStatus.Done
        (Some (remote +:+ " " +:+ git_ref)) None;
  _ ← store_checkpoint id (mk_checkpoint cand (commit_hash ck) (tree_hash ck)
        (source_manifest ck) (local_path ck) ("done:" +:+ git_ref) (preservation_hold ck));
  _ ← append_event id actor "checkpoint_backup_changed" (Some (operation_id effect));
  summary_of id.

(** ** Advancing and accepting *)

Definition incomplete_evidence : WorkflowError := blocked "incomplete candidate evidence".

Definition accept_run (env : Env) (id : string) (expected : Z) (expected_policy : string)
    : M WorkflowError RunSummary :=
  r ← require_run id;
  _ ← check_expected_version r id expected;
  _ ← live_status r id;
  sg ← parse_stage r id;
  _ ← refuse (negb (bool_decide (sg = Stage.Decide)))
        (blocked "acceptance requires the decide stage");
  cand ← ok_or (candidate r) incomplete_evidence;
  cks ← load_checkpoints id;
  ck ← ok_or (find_checkpoint cand cks) incomplete_evidence;
  all ← load_evidence id;
  let rows := filter (λ e, ed_candidate e = cand) all in
  match filter (λ e, ed_kind e = "test") rows, filter (λ e, ed_kind e = "review") rows with
  | [], _ | _, [] =>
      fail (blocked
        "incomplete candidate evidence: recorded test and review verdicts are required")
  | [test], [review] =>
      let policy := default "" (ed_policy_hash test) in
      _ ← refuse (str_eqb policy "" || negb (bool_decide (ed_policy_hash review = Some policy)))
            (blocked "stale evidence: test and review verdicts disagree on the policy");
      let verified := verify_source env (local_path ck) (commit_hash ck) cand in
      es ← load_effects id;
      let backup := existsb (λ e, str_eqb (e_kind e) (EffectKind.as_str EffectKind.Backup)
                                  && str_eqb (e_status e) (EffectStatus.as_str EffectStatus.Done))
                      es in
      unknown ← commands_in_state id CommandState.DeliveryUnknown;
      let identity := mk_candidate cand (commit_hash ck) (tree_hash ck)
                        (to_u64 (candidate_generation r)) in
      match decide_candidate
        (mk_candidate_evidence identity identity
           (str_eqb (ed_result test) "pass") (str_eqb (ed_result review) "pass")
           policy expected_policy
           (match verified with inr _ => true | inl _ => false end) backup
           true true (negb (bool_decide (length unknown = 0%nat)))
           (to_u32 0 (round r)) (to_u32 U32_MAX (max_repair_turns r))) with
      | Decision.Accept =>
          owner ← asks epoch;
          submit_observation id expected owner Actor.Host Observation.VerifiedCurrent
      | Decision.Repair =>
          fail (blocked "verification did not pass and the repair budget remains; repair the candidate instead of accepting")
      | Decision.Fail reason | Decision.NeedsOperator reason => fail (blocked reason)
      end
  | _, _ =>
      fail (blocked
        "ambiguous candidate evidence: exactly one recorded verdict per kind is required")
  end.

Definition parse_actor (a : string) : option Actor.t :=
  if str_eqb a "host" then Some Actor.Host
  else if str_eqb a "worker" then Some Actor.Worker else None.

Definition parse_observation (o : string) : option Observation.t :=
  if str_eqb o "turn_started" then Some Observation.TurnStarted
  else if str_eqb o "turn_ended" then Some Observation.TurnEnded
  else if str_eqb o "test_started" then Some Observation.TestStarted
  else if str_eqb o "test_passed" then Some Observation.TestPassed
  else if str_eqb o "test_failed" then Some Observation.TestFailed
  else if str_eqb o "review_passed" then Some Observation.ReviewPassed
  else if str_eqb o "review_failed" then Some Observation.ReviewFailed
  else if str_eqb o "verified_current" then Some Observation.VerifiedCurrent
  else if str_eqb o "infra_failed" then Some Observation.InfraFailed
  else if str_eqb o "session_lost" then Some Observation.SessionLost
  else if str_eqb o "uncertain_delivery" then Some Observation.UncertainDelivery
  else if str_eqb o "capture_stalled" then Some Observation.CaptureStalled
  else None.

Definition advance_run (env : Env) (id : string) (expected : Z) (actor observation : string)
    (expected_policy : option string) : M WorkflowError RunSummary :=
  a ← ok_or (parse_actor actor)
        (invalid ("unknown advance actor `" +:+ actor +:+ "`; use host or worker"));
  o ← ok_or (parse_observation observation)
        (invalid ("unknown advance observation `" +:+ observation +:+ "`"));
  if bool_decide (o = Observation.VerifiedCurrent) then
    _ ← refuse (negb (bool_decide (a = Actor.Host))) (invalid "only the host can accept a run");
    let expected_hash := default "" expected_policy in
    _ ← refuse (is_blank expected_hash)
          (invalid "acceptance needs the expected test policy hash");
    accept_run env id expected expected_hash
  else
    owner ← asks epoch;
    submit_observation id expected owner a o.

(** ** Operator operations *)

Definition pause_run (id actor reason : string) (checkpoint : bool)
    : M WorkflowError RunSummary :=
  r ← require_run id;
  st ← live_status r id;
  _ ← refuse (bool_decide (st = RunStatus.Paused)) (invalid "run is already paused");
  _ ← refuse (bool_decide (st = RunStatus.NeedsOperator))
        (blocked "resolve the operator block before pausing");
  sg ← parse_stage r id;
  _ ← apply r (mk_request RunStatus.Paused sg (to_u32 0 (round r))
        (Some (if checkpoint then "checkpoint" else "operator")) actor
        (if checkpoint then "checkpoint_paused" else "run_paused") None);
  _ ← append_event id actor "pause_reason" (Some reason);
  summary_of id.

Definition resume_run (id actor : string) : M WorkflowError RunSummary :=
  r ← require_run id;
  _ ← refuse (negb (str_in (status r) [RunStatus.as_str RunStatus.Paused;
                                       RunStatus.as_str RunStatus.NeedsOperator]))
        (invalid "only a paused or operator-blocked run can resume");
  uncertain ← commands_in_state id CommandState.DeliveryUnknown;
  _ ← match uncertain with
      | [] => mret ()
      | c :: _ => fail (blocked ("command " +:+ command_id c
                          +:+ " has uncertain delivery; resolve it before resume"))
      end;
  sg ← parse_stage r id;
  _ ← apply r (mk_request RunStatus.Active sg (to_u32 0 (round r)) None actor "run_resumed" None);
  summary_of id.

Definition cancel_run (id actor reason : string) : M WorkflowError RunSummary :=
  r ← require_run id;
  _ ← live_status r id;
  sg ← parse_stage r id;
  _ ← match candidate r with
      | Some cand =>
          store_checkpoint id (mk_checkpoint cand "preserved" "preserved"
            "cancel-preserved-source" "preserved" "preserved" (Some "cancel-hold"))
      | None => mret ()
      end;
  _ ← apply r (mk_request RunStatus.Cancelled sg (to_u32 0 (round r)) None actor
        "run_cancelled" None);
  _ ← append_event id actor "cancel_reason" (Some reason);
  summary_of id.

Definition reactivate (id actor event_kind : string) : M WorkflowError () :=
  r ← require_run id;
  if negb (str_eqb (status r) (RunStatus.as_str RunStatus.NeedsOperator)) then mret ()
  else
    sg ← parse_stage r id;
    apply r (mk_request RunStatus.Active sg (to_u32 0 (round r)) None actor event_kind None).

Definition command_missing (id : string) : WorkflowError :=
  not_found ("command " +:+ id +:+ " not found").

Definition resolve_input (uuid id cmd : string) (decision : OperatorDecision.t)
    (actor observed_state : string) : M WorkflowError RunSummary :=
  _ ← refuse (is_blank observed_state)
        (blocked "inspect the original session before resolving uncertain delivery");
  o ← load_command cmd;
  c ← ok_or o (command_missing cmd);
  _ ← refuse (negb (str_eqb (c_run_id c) id)) (invalid "command does not belong to this run");
  _ ← refuse (negb (str_eqb (c_state c) (CommandState.as_str CommandState.DeliveryUnknown)))
        (invalid "only uncertain delivery can be resolved");
  match decision with
  | OperatorDecision.ContinueFromCurrent =>
      _ ← set_command_state cmd CommandState.DeliveryUnknown (receipt c)
            (Some ("continue_from_current by " +:+ actor +:+ ": " +:+ observed_state));
      _ ← reactivate id actor "input_resolved_continue";
      summary_of id
  | OperatorDecision.SubmitNew =>
      let new_id := "cmd-" +:+ uuid in
      _ ← insert_queued_command id new_id (session_ref c) (prompt_digest c)
            (to_u32 0 (turn c)) (to_u64 (lease_generation c));
      _ ← set_command_state cmd CommandState.DeliveryUnknown (receipt c)
            (Some ("superseded_by " +:+ new_id +:+ " (" +:+ actor +:+ ")"));
      _ ← reactivate id actor "input_resolved_new";
      summary_of id
  | OperatorDecision.Cancel =>
      _ ← set_command_state cmd CommandState.DeliveryUnknown (receipt c)
            (Some ("run cancelled by " +:+ actor));
      cancel_run id actor "operator cancelled uncertain delivery"
  end.

(** ** Commands and effects *)

Section Dispatch.
Context `{Sha256}.

Definition begin_dispatch (uuid id ref prompt : string) (trn lease : Z)
    : M WorkflowError (string * string) :=
  let cmd := "cmd-" +:+ uuid in
  digest ← write_artifact cmd (as_bytes prompt);
  _ ← insert_dispatching_command id cmd ref digest trn lease;
  mret (cmd, digest).

Definition record_dispatch_intent (uuid id ref prompt : string) (trn lease : Z)
    : M WorkflowError (RunSummary * RecordedDispatch) :=
  o ← load_run id;
  _ ← ok_or o (run_missing id);
  _ ← refuse (is_blank ref) (invalid "session ref is required");
  _ ← refuse (str_eqb prompt "") (invalid "prompt is required");
  let cmd := "cmd-" +:+ uuid in
  digest ← write_artifact cmd (as_bytes prompt);
  _ ← insert_queued_command id cmd ref digest trn lease;
  _ ← set_command_state cmd CommandState.Dispatching None
        (Some "dispatch intent recorded; no transport send");
  summary ← summary_of id;
  mret (summary, mk_dispatch cmd digest).

Definition stage_repair_feedback (uuid id ref feedback : string) (trn lease : Z)
    (gate : DeliveryGate) : M WorkflowError (string * string) :=
  _ ← from_sum (admit_repair_delivery gate);
  _ ← refuse (negb (feedback_admissible feedback))
        (invalid "repair feedback must be the bounded document from build_feedback");
  out ← begin_dispatch uuid id ref feedback trn lease;
  _ ← append_event id "host" "repair_feedback_staged" (Some out.1);
  mret out.
End Dispatch.

Definition command_written (cmd : string) (written : Z) : M WorkflowError () :=
  o ← load_command cmd;
  c ← ok_or o (command_missing cmd);
  _ ← refuse (negb (str_eqb (c_state c) (CommandState.as_str CommandState.Dispatching)))
        (invalid ("command " +:+ cmd +:+ " is not dispatching"));
  set_command_state cmd CommandState.Written (Some (pretty written)) None.

Definition command_turn_ended (cmd quality : string) : M WorkflowError () :=
  o ← load_command cmd;
  c ← ok_or o (command_missing cmd);
  _ ← refuse (negb (str_eqb (c_state c) (CommandState.as_str CommandState.Written)))
        (invalid ("command " +:+ cmd +:+ " has no confirmed write"));
  set_command_state cmd CommandState.TurnEnded (receipt c) (Some quality).

Definition plan_effect (id : string) (kind : EffectKind.t) (label : string)
    : M WorkflowError StoredEffect :=
  o ← load_run id;
  match o with
  | None => fail (run_missing id)
  | Some _ => ensure_effect id kind label
  end.

Definition adopt_effect (id op identity : string) : M WorkflowError () :=
  set_effect id op EffectStatus.Adopted (Some identity) None.

(** ** Recovery ([service/recovery.rs]) *)

(** A [for] loop that pushes actions. *)
Fixpoint for_each {A} (body : A → M WorkflowError (list string)) (l : list A)
    : M WorkflowError (list string) :=
  match l with
  | [] => mret []
  | a :: l => out ← body a; rest ← for_each body l; mret (out ++ rest)
  end.

Definition escalate_to_operator (id event_kind : string) : M WorkflowError () :=
  r ← require_run id;
  if str_eqb (status r) (RunStatus.as_str RunStatus.NeedsOperator)
  then append_event id "host" event_kind None
  else
    st ← parse_status r id;
    if RunStatus.is_terminal st || bool_decide (st = RunStatus.Paused)
    then append_event id "host" event_kind None
    else
      sg ← parse_stage r id;
      apply r (mk_request RunStatus.NeedsOperator sg (to_u32 0 (round r)) (pause_kind r)
                 "host" event_kind None).

Definition recover_commands (id : string) : M WorkflowError (list string) :=
  dispatching ← commands_in_state id CommandState.Dispatching;
  acts ← for_each (λ c,
    _ ← set_command_state (command_id c) CommandState.DeliveryUnknown None
          (Some "recovered: dispatch interrupted before receipt");
    mret ["command " +:+ command_id c +:+ " is delivery_unknown; automatic input blocked"])
    dispatching;
  unknown ← commands_in_state id CommandState.DeliveryUnknown;
  if bool_decide (length unknown = 0%nat) then mret acts
  else
    _ ← escalate_to_operator id "uncertain_delivery";
    mret (acts ++ ["run needs_operator: uncertain input delivery"]).

Definition recover_launch (id : string) (e : StoredEffect) (inv : InstanceInventory)
    : M WorkflowError string :=
  let label := default "" (ownership_label e) in
  match list_find (λ i, li_ownership_label i = label) (instances inv) with
  | Some (_, i) =>
      _ ← set_effect id (operation_id e) EffectStatus.Adopted (Some (li_instance_id i)) None;
      mret ("adopted " +:+ li_instance_id i +:+ " for operation " +:+ operation_id e)
  | None => mret ("no live instance for operation " +:+ operation_id e
                  +:+ "; confirm backend absence before relaunch")
  end.

Definition recover_backup (id : string) (e : StoredEffect) (inv : InstanceInventory)
    : M WorkflowError string :=
  let confirmed := match external_identity e with
                   | Some identity => str_in identity (backup_refs inv)
                   | None => false
                   end in
  if confirmed then
    _ ← set_effect id (operation_id e) EffectStatus.Done (external_identity e) None;
    mret ("backup operation " +:+ operation_id e +:+ " confirmed at its remote ref")
  else mret ("backup operation " +:+ operation_id e
             +:+ " is uncertain; query the exact remote ref before retry").

Definition capture_staging_paused (e : StoredEffect) (inv : InstanceInventory) : bool :=
  existsb (λ i, capture_paused i
                && match ownership_label e with
                   | Some label => str_eqb (li_ownership_label i) label
                   | None => false
                   end) (instances inv).

Definition recover_effect (id : string) (inv : InstanceInventory) (e : StoredEffect)
    : M WorkflowError (list string) :=
  kind ← ok_or (EffectKind.parse (e_kind e)) (storage ("unknown effect kind " +:+ e_kind e));
  let pending := str_in (e_status e) [EffectStatus.as_str EffectStatus.Intended;
                                      EffectStatus.as_str EffectStatus.Dispatched] in
  match kind with
  | EffectKind.Launch =>
      if pending then a ← recover_launch id e inv; mret [a] else mret []
  | EffectKind.Capture =>
      if negb (str_in (e_status e) [EffectStatus.as_str EffectStatus.Done;
                                    EffectStatus.as_str EffectStatus.Abandoned])
         && capture_staging_paused e inv then
        _ ← escalate_to_operator id "capture_staging_paused";
        mret ["capture staging paused for operation " +:+ operation_id e
              +:+ "; inspect then resume or preserve"]
      else mret []
  | EffectKind.Backup =>
      if pending then a ← recover_backup id e inv; mret [a] else mret []
  end.

Definition recover_effects (id : string) (inv : InstanceInventory)
    : M WorkflowError (list string) :=
  es ← load_effects id; for_each (recover_effect id inv) es.

(** [u64::try_from(epoch).unwrap_or(0)] on an [i64] *)
Definition epoch_u64 (z : Z) : Z := if z <? 0 then 0 else z.

Definition session_lost (s : StoredSession) (inv : InstanceInventory) : bool :=
  match identity ← s_instance_id s;
        snd <$> list_find (λ i, li_instance_id i = identity) (instances inv) with
  | None => bool_decide (is_Some (s_instance_id s))
  | Some i =>
      if negb (session_alive i) then true
      else if match s_capsule_epoch s, li_capsule_epoch i with
              | Some recorded, Some live => negb (epoch_u64 recorded =? live)
              | _, _ => false
              end then true
      else match s_process_identity s, li_process_identity i with
           | Some recorded, Some live => negb (str_eqb live recorded)
           | _, _ => false
           end
  end.

Definition recover_session (id : string) (inv : InstanceInventory) (s : StoredSession)
    : M WorkflowError (list string) :=
  if session_lost s inv then
    _ ← append_event id "host" "session_lost" (s_instance_id s);
    _ ← escalate_to_operator id "session_lost";
    mret ["session for worker " +:+ worker_id s
          +:+ " lost; source kept, no same-session claim"]
  else mret [].

Definition recover_sessions (id : string) (inv : InstanceInventory)
    : M WorkflowError (list string) :=
  ss ← load_sessions id; for_each (recover_session id inv) ss.

Section Recover.
Context `{Sha256}.

Definition recover_artifact (id : string) (c : StoredCommand) : M WorkflowError (list string) :=
  good ← verify_artifact (command_id c) (prompt_digest c);
  if good : bool then mret []
  else
    _ ← append_event id "host" "artifact_digest_mismatch" (Some (command_id c));
    mret ["prompt artifact for command " +:+ command_id c +:+ " no longer verifies"].

Definition recover_artifacts (id : string) : M WorkflowError (list string) :=
  written ← commands_in_state id CommandState.Written;
  ended ← commands_in_state id CommandState.TurnEnded;
  for_each (recover_artifact id) (written ++ ended).

Definition recover (inv : InstanceInventory) : M WorkflowError RecoveryReport :=
  o ← active_run;
  match o with
  | None => mret (mk_report None ["no incomplete run"])
  | Some r =>
      let id := run_id r in
      a1 ← recover_commands id;
      a2 ← recover_effects id inv;
      a3 ← match candidate r with
           | Some cand =>
               n ← discard_partial_evidence id cand;
               mret (if 0 <? n
                     then ["discarded " +:+ pretty n
                           +:+ " partial test/review rows; one fresh attempt allowed"]
                     else [])
           | None => mret []
           end;
      a4 ← recover_sessions id inv;
      a5 ← recover_artifacts id;
      let acts := a1 ++ a2 ++ a3 ++ a4 ++ a5 in
      mret (mk_report (Some id)
              (match acts with [] => ["recovered with no findings"] | _ => acts end))
  end.

(** ** The requests of the service

    One constructor per operation that can write, with its arguments and the
    answers of the environment it consumes; the last eight are the methods that
    are not part of [WorkflowBackend]. *)

Inductive Request :=
| RStart (uuid plan : string) (max : Z) (key : string)
| RPause (id actor reason : string) (checkpoint : bool)
| RResume (id actor : string)
| RCancel (id actor reason : string)
| RResolve (uuid id cmd : string) (decision : OperatorDecision.t) (actor observed : string)
| RSession (s : SessionAttachment) (expected : Z)
| RCandidate (id cand : string) (expected : Z)
| RCheckpoint (env : Env) (id : string) (ck : StoredCheckpoint) (expected : Z)
| RTest (env : Env) (script : string + bytes)
    (run_test : TestPolicy → PreparedTestWorker → list TestBundleFile →
                WorkflowError + TestExecution)
    (id : string) (expected : Z) (p : RecordTestParams)
| RReview (parse : bytes → string + ReviewResult) (file : Metadata * (string + bytes))
    (id : string) (expected : Z) (review_file policy : string)
| RBackup (env : Env) (id : string) (expected : Z) (remote git_ref : string)
| RAdvance (env : Env) (id : string) (expected : Z) (actor observation : string)
    (policy : option string)
| RDispatch (uuid id ref prompt : string) (trn lease : Z)
| RRecover (inv : InstanceInventory)
| RFeedback (uuid id ref feedback : string) (trn lease : Z) (gate : DeliveryGate)
| RWritten (cmd : string) (written : Z)
| RTurnEnded (cmd quality : string)
| RPlanEffect (id : string) (kind : EffectKind.t) (label : string)
| RAdoptEffect (id op identity : string)
| RObserve (id : string) (expected caller_epoch : Z) (actor : Actor.t) (obs : Observation.t)
| RAccept (env : Env) (id : string) (expected : Z) (policy : string)
| RBegin (uuid id ref prompt : string) (trn lease : Z).

Definition void {E A} (m : M E A) : M E () := _ ← m; mret ().

Definition exec (q : Request) : M WorkflowError () :=
  match q with
  | RStart uuid plan max key => void (start_run uuid plan max key)
  | RPause id actor reason ck => void (pause_run id actor reason ck)
  | RResume id actor => void (resume_run id actor)
  | RCancel id actor reason => void (cancel_run id actor reason)
  | RResolve uuid id cmd dec actor obs => void (resolve_input uuid id cmd dec actor obs)
  | RSession s expected => void (record_session s expected "operator")
  | RCandidate id cand expected => void (record_candidate id cand expected "operator")
  | RCheckpoint env id ck expected => void (record_checkpoint env id ck expected)
  | RTest env script run_test id expected p =>
      void (record_test env script run_test id expected p)
  | RReview parse file id expected rf policy =>
      void (record_review parse file id expected rf policy)
  | RBackup env id expected remote ref =>
      void (record_backup env id expected remote ref "operator")
  | RAdvance env id expected actor obs policy =>
      void (advance_run env id expected actor obs policy)
  | RDispatch uuid id ref prompt trn lease =>
      void (record_dispatch_intent uuid id ref prompt trn lease)
  | RRecover inv => void (recover inv)
  | RFeedback uuid id ref fb trn lease gate =>
      void (stage_repair_feedback uuid id ref fb trn lease gate)
  | RWritten cmd n => command_written cmd n
  | RTurnEnded cmd q => command_turn_ended cmd q
  | RPlanEffect id kind label => void (plan_effect id kind label)
  | RAdoptEffect id op identity => adopt_effect id op identity
  | RObserve id expected ep actor obs => void (submit_observation id expected ep actor obs)
  | RAccept env id expected policy => void (accept_run env id expected policy)
  | RBegin uuid id ref prompt trn lease => void (begin_dispatch uuid id ref prompt trn lease)
  end.

End Recover.
