(* ===== verification/WorkflowLogic.v ===== *)
(** * A program logic for the run store

    [triple d m Q]: run from tables [d], whatever the environment answers, the
    outcome and the tables [m] ends with satisfy [Q].  [always m R] relates the
    tables before and after every run of [m].  The rules follow the
    combinators of [WorkflowStore]; the specifications of the store operations
    below them are what the service proofs use. *)

From stdpp Require Import base list gmap strings pretty.
From Stdlib Require Import ZArith Lia.
From S2P Require Import Prelude Clipboard WorkflowModel WorkflowStore WorkflowVerify WorkflowService.

Definition triple {E A} (d : Db) (m : M E A) (Q : E + A → Db → Prop) : Prop :=
  ∀ w, conn w = d → Q (m w).1 (conn (m w).2).

Definition always {E A} (m : M E A) (R : Db → Db → Prop) : Prop :=
  ∀ d, triple d m (λ _ d', R d d').

(** [m] leaves the tables alone and, when it succeeds, returns [f] of them. *)
Definition reads {E A} (m : M E A) (f : Db → A) : Prop :=
  ∀ d, triple d m (λ r d', d' = d ∧ ∀ a, r = inr a → a = f d).

(** ** Rules *)

Section rules.
Context {E : Type}.

Lemma triple_mono {A} d (m : M E A) (Q Q' : E + A → Db → Prop) :
  (∀ r d', Q r d' → Q' r d') → triple d m Q → triple d m Q'.
Proof. intros HQ Hm w Hw. apply HQ, Hm, Hw. Qed.

Lemma triple_ret {A} d (a : A) (Q : E + A → Db → Prop) : Q (inr a) d → triple d (mret a) Q.
Proof. by intros H w <-. Qed.

Lemma triple_fail {A} d (e : E) (Q : E + A → Db → Prop) : Q (inl e) d → triple d (fail e) Q.
Proof. by intros H w <-. Qed.

Lemma triple_bind {A B} d (m : M E A) (k : A → M E B) (Q : E + B → Db → Prop) :
  triple d m (λ r d', match r with
                      | inl e => Q (inl e) d'
                      | inr a => triple d' (k a) Q
                      end) →
  triple d (m ≫= k) Q.
Proof.
  intros Hm w Hw. specialize (Hm w Hw). unfold mbind, M_bind.
  destruct (m w) as [[e|a] w']; cbn in *; [done|]. by apply Hm.
Qed.

Lemma triple_asks {A} d (f : RunStore → A) (Q : E + A → Db → Prop) :
  (∀ a, Q (inr a) d) → triple d (asks f) Q.
Proof. intros H w <-. apply H. Qed.

Lemma triple_gets {A} d (f : Db → A) (Q : E + A → Db → Prop) :
  Q (inr (f d)) d → triple d (gets f) Q.
Proof. by intros H w <-. Qed.

Lemma triple_update d (f : Db → Db) (Q : E + () → Db → Prop) :
  Q (inr ()) (f d) → triple d (update f) Q.
Proof. by intros H w <-. Qed.

Lemma triple_now d (Q : E + Z → Db → Prop) : (∀ t, Q (inr t) d) → triple d now_secs Q.
Proof. intros H w <-. unfold now_secs. destruct (clock w); apply H. Qed.

Lemma triple_from_sum {A} d (r : E + A) (Q : E + A → Db → Prop) :
  Q r d → triple d (from_sum r) Q.
Proof. by intros H w <-. Qed.

Lemma triple_ok_or {A} d (o : option A) (e : E) (Q : E + A → Db → Prop) :
  (o = None → Q (inl e) d) → (∀ a, o = Some a → Q (inr a) d) → triple d (ok_or o e) Q.
Proof.
  intros HN HS. destruct o; [by apply triple_ret, HS|by apply triple_fail, HN].
Qed.

Lemma triple_refuse d (c : bool) (e : E) (Q : E + () → Db → Prop) :
  (c = true → Q (inl e) d) → (c = false → Q (inr ()) d) → triple d (refuse c e) Q.
Proof. intros HT HF. destruct c; [by apply triple_fail, HT|by apply triple_ret, HF]. Qed.

Lemma triple_reads {A B} d (m : M E A) f (k : A → M E B) (Q : E + B → Db → Prop) :
  reads m f → (∀ e, Q (inl e) d) → triple d (k (f d)) Q → triple d (m ≫= k) Q.
Proof.
  intros Hm He Hk. apply triple_bind. eapply triple_mono, Hm.
  intros [e|a] d' [-> Ha]; [apply He|]. by rewrite (Ha a eq_refl).
Qed.
End rules.

Lemma triple_fallible msg d (Q : string + () → Db → Prop) :
  (∀ e, Q (inl e) d) → Q (inr ()) d → triple d (fallible msg) Q.
Proof. intros He Ho w <-. unfold fallible. destruct (faults w) as [|[]]; cbn; auto. Qed.

Lemma triple_violated {A} msg what d (Q : string + A → Db → Prop) :
  (∀ e, Q (inl e) d) → triple d (violated msg what) Q.
Proof. intros He w <-. apply He. Qed.

Lemma triple_map_err {E E' A} (f : E → E') d (m : M E A) (Q : E' + A → Db → Prop) :
  triple d m (λ r d', Q (match r with inl e => inl (f e) | inr a => inr a end) d') →
  triple d (map_err f m) Q.
Proof.
  intros Hm w Hw. specialize (Hm w Hw). unfold map_err.
  by destruct (m w) as [[e|a] w'].
Qed.

Lemma triple_lift {A} d (m : M string A) (Q : WorkflowError + A → Db → Prop) :
  triple d m (λ r d', Q (match r with inl e => inl (storage e) | inr a => inr a end) d') →
  triple d (lift m) Q.
Proof. apply triple_map_err. Qed.

Lemma triple_txn_end d body (Q : string + () → Db → Prop) :
  triple d body (λ r d', match r with inl e => Q (inl e) d | inr _ => Q (inr ()) d' end) →
  triple d (txn_end body) Q.
Proof.
  intros Hm w Hw. specialize (Hm w Hw). unfold txn_end.
  destruct (body w) as [[e|a] w']; cbn in *; [|done]. by rewrite Hw.
Qed.

(** ** Reads *)

Lemma reads_keep {E A} (m : M E A) f R : Reflexive R → reads m f → always m R.
Proof. intros HR Hm d. eapply triple_mono, Hm. by intros r d' [-> _]. Qed.

Lemma reads_lift {A} (m : M string A) f : reads m f → reads (lift m) f.
Proof.
  intros Hm d. apply triple_lift. eapply triple_mono, Hm.
  intros [e|a] d' [-> Ha]; split; naive_solver.
Qed.

Lemma query_one_reads {A} q r (f : Db → A) : reads (query_one q r f) f.
Proof.
  intros d. do 2 (apply triple_bind, triple_fallible; [naive_solver|]).
  apply triple_gets. naive_solver.
Qed.

Lemma read_rows_reads {A} msg (rows : list A) : reads (read_rows msg rows) (λ _, rows).
Proof.
  induction rows as [|row rows IH]; intros d; cbn;
    (apply triple_bind, triple_fallible; [naive_solver|]); [apply triple_ret; naive_solver|].
  eapply triple_reads; [exact IH|naive_solver|]. apply triple_ret. naive_solver.
Qed.

Lemma query_all_reads {A} q r (f : Db → list A) : reads (query_all q r f) f.
Proof.
  intros d. apply triple_bind, triple_fallible; [naive_solver|].
  apply triple_bind, triple_gets, read_rows_reads.
Qed.

Create HintDb reads.
#[export] Hint Resolve query_one_reads query_all_reads reads_lift : reads.

Lemma load_run_reads id : reads (load_run id) (find_run id).
Proof. unfold load_run. auto with reads. Qed.
Lemma load_run_by_key_reads key : reads (load_run_by_key key) (find_run_by_key key).
Proof. unfold load_run_by_key. auto with reads. Qed.
Lemma active_run_reads : reads active_run find_active.
Proof. unfold active_run. auto with reads. Qed.
Lemma load_evidence_reads id :
  reads (load_evidence id) (λ d, snd <$> filter (λ p, p.1 = id) (evidence d)).
Proof. unfold load_evidence. auto with reads. Qed.
Lemma load_checkpoints_reads id :
  reads (load_checkpoints id) (λ d, snd <$> filter (λ p, p.1 = id) (checkpoints d)).
Proof. unfold load_checkpoints. auto with reads. Qed.
Lemma load_effects_reads id :
  reads (load_effects id) (λ d, filter (λ e, e_run_id e = id) (effects d)).
Proof. unfold load_effects. auto with reads. Qed.
Lemma load_sessions_reads id :
  reads (load_sessions id) (λ d, filter (λ s, s_run_id s = id) (sessions d)).
Proof. unfold load_sessions. auto with reads. Qed.
Lemma load_command_reads id : reads (load_command id) (find_command id).
Proof. unfold load_command. auto with reads. Qed.
Lemma commands_in_state_reads id st : reads (commands_in_state id st) (in_state id st).
Proof. unfold commands_in_state. auto with reads. Qed.
Lemma next_event_seq_reads id :
  reads (next_event_seq id) (λ d, foldr Z.max (-1) (seqs_of id (events d)) + 1).
Proof. unfold next_event_seq. auto with reads. Qed.
#[export] Hint Resolve load_run_reads load_run_by_key_reads active_run_reads load_evidence_reads
  load_checkpoints_reads load_effects_reads load_sessions_reads load_command_reads
  commands_in_state_reads next_event_seq_reads : reads.

(** ** Relations that hold however a computation runs *)

Section always.
Context (R : Db → Db → Prop) `{!PreOrder R}.

Lemma always_ret {E A} (a : A) : always (mret (M := M E) a) R.
Proof. intros d. by apply triple_ret. Qed.
Lemma always_fail {E A} (e : E) : always (A := A) (fail e) R.
Proof. intros d. by apply triple_fail. Qed.
Lemma always_bind {E A B} (m : M E A) (k : A → M E B) :
  always m R → (∀ a, always (k a) R) → always (m ≫= k) R.
Proof.
  intros Hm Hk d. apply triple_bind. eapply triple_mono, Hm. intros [e|a] d' Hd; [done|].
  eapply triple_mono, Hk. intros r d''. by transitivity d'.
Qed.
Lemma always_asks {E A} (f : RunStore → A) : always (E := E) (asks f) R.
Proof. intros d. by apply triple_asks. Qed.
Lemma always_gets {E A} (f : Db → A) : always (E := E) (gets f) R.
Proof. intros d. by apply triple_gets. Qed.
Lemma always_now {E} : always (E := E) now_secs R.
Proof. intros d. by apply triple_now. Qed.
Lemma always_from_sum {E A} (r : E + A) : always (from_sum r) R.
Proof. intros d. by apply triple_from_sum. Qed.
Lemma always_ok_or {E A} (o : option A) (e : E) : always (ok_or o e) R.
Proof. intros d. by apply triple_ok_or. Qed.
Lemma always_refuse {E} c (e : E) : always (refuse c e) R.
Proof. intros d. by apply triple_refuse. Qed.
Lemma always_fallible msg : always (fallible msg) R.
Proof. intros d. by apply triple_fallible. Qed.
Lemma always_violated {A} msg what : always (A := A) (violated msg what) R.
Proof. intros d. by apply triple_violated. Qed.
Lemma always_map_err {E E' A} (f : E → E') (m : M E A) : always m R → always (map_err f m) R.
Proof. intros Hm d. by apply triple_map_err, Hm. Qed.
Lemma always_txn_end body : always body R → always (txn_end body) R.
Proof.
  intros Hm d. apply triple_txn_end. eapply triple_mono, Hm. by intros [] d'.
Qed.
Lemma always_update {E} f : (∀ d, R d (f d)) → always (E := E) (update f) R.
Proof. intros Hf d. by apply triple_update. Qed.
Lemma always_reads {E A} (m : M E A) f : reads m f → always m R.
Proof. apply reads_keep. apply _. Qed.
Lemma always_for_each {A} (body : A → M WorkflowError (list string)) l :
  (∀ a, always (body a) R) → always (for_each body l) R.
Proof.
  intros Hb. induction l as [|a l IH]; cbn; [apply always_ret|].
  apply always_bind; [apply Hb|intros out]. apply always_bind; [done|intros]. apply always_ret.
Qed.

(** A prefix that is related, then anything that keeps the relation. *)
Lemma triple_then {E A B} d (m : M E A) (k : A → M E B) :
  triple d m (λ _ d', R d d') → (∀ a, always (k a) R) →
  triple d (m ≫= k) (λ _ d', R d d').
Proof.
  intros Hm Hk. apply triple_bind. eapply triple_mono, Hm. intros [e|a] d' Hd; [done|].
  eapply triple_mono, Hk. intros r d''. by transitivity d'.
Qed.
End always.

(** ** What the store promises the service

    [StoreKeeps R]: the store operations that write tables other than [runs]
    stay within [R].  [RunsKeep R]: so do the two that write runs. *)

Class StoreKeeps (R : Db → Db → Prop) := {
  keeps_preorder :: PreOrder R;
  keeps_insert_command : ∀ c, always (insert_command c) R;
  keeps_set_command_state : ∀ id st rc rs, always (set_command_state id st rc rs) R;
  keeps_store_session : ∀ s, always (store_session s) R;
  keeps_append_event : ∀ id a k r, always (append_event id a k r) R;
  keeps_ensure_effect : ∀ id k l, always (ensure_effect id k l) R;
  keeps_set_effect : ∀ id op st i p, always (set_effect id op st i p) R;
  keeps_record_evidence : ∀ id e, always (record_evidence id e) R;
  keeps_discard : ∀ id c, always (discard_partial_evidence id c) R;
  keeps_store_checkpoint : ∀ id ck, always (store_checkpoint id ck) R;
}.

Class RunsKeep (R : Db → Db → Prop) := {
  keeps_store :: StoreKeeps R;
  keeps_create_run : ∀ id plan max key, always (create_run id plan max key) R;
  keeps_apply_transition : ∀ t, always (apply_transition t) R;
}.

(** Decompose a computation along its combinators, by its head symbol. *)
Ltac always_step :=
  lazymatch goal with
  | H : always ?m ?R |- always ?m ?R => exact H
  | |- always (mret _) _ => apply always_ret; apply _
  | |- always (fail _) _ => apply always_fail; apply _
  | |- always (asks _) _ => apply always_asks; apply _
  | |- always (gets _) _ => apply always_gets; apply _
  | |- always now_secs _ => apply always_now; apply _
  | |- always (from_sum _) _ => apply always_from_sum; apply _
  | |- always (ok_or _ _) _ => apply always_ok_or; apply _
  | |- always (refuse _ _) _ => apply always_refuse; apply _
  | |- always (fallible _) _ => apply always_fallible; apply _
  | |- always (violated _ _) _ => apply always_violated; apply _
  | |- always (for_each _ _) _ => apply always_for_each; [apply _|intros]
  | |- always (map_err _ _) _ => apply always_map_err
  | |- always (lift _) _ => apply always_map_err
  | |- always (txn_end _) _ => apply always_txn_end; [apply _|]
  | |- always (_ ≫= _) _ => apply always_bind; [apply _| |intros]
  | |- always (match ?x with _ => _ end) _ => destruct x
  | |- always (update _) _ => apply always_update; intros
  | |- always (query_one _ _ _) _ => eapply always_reads; [apply _|apply query_one_reads]
  | |- always (query_all _ _ _) _ => eapply always_reads; [apply _|apply query_all_reads]
  end.
(** The store's reads and writes. *)
Ltac always_store :=
  lazymatch goal with
  | |- always (insert_command _) _ => apply keeps_insert_command
  | |- always (set_command_state _ _ _ _) _ => apply keeps_set_command_state
  | |- always (store_session _) _ => apply keeps_store_session
  | |- always (append_event _ _ _ _) _ => apply keeps_append_event
  | |- always (ensure_effect _ _ _) _ => apply keeps_ensure_effect
  | |- always (set_effect _ _ _ _ _) _ => apply keeps_set_effect
  | |- always (record_evidence _ _) _ => apply keeps_record_evidence
  | |- always (discard_partial_evidence _ _) _ => apply keeps_discard
  | |- always (store_checkpoint _ _) _ => apply keeps_store_checkpoint
  | |- always (create_run _ _ _ _) _ => apply keeps_create_run
  | |- always (apply_transition _) _ => apply keeps_apply_transition
  | |- always ?m _ => eapply (always_reads _ m); solve [eauto 2 with reads]
  end.
Ltac always_auto := cbv zeta; repeat first [ always_step | always_store ].

Section service.
Context `{Sha256} (R : Db → Db → Prop) `{!StoreKeeps R}.

Lemma always_require_run id : always (require_run id) R.
Proof. unfold require_run. always_auto. Qed.
Lemma always_summary_of id : always (summary_of id) R.
Proof. unfold summary_of. always_auto. Qed.
Lemma always_write_artifact name bs : always (write_artifact name bs) R.
Proof.
  unfold write_artifact. always_auto.
  intros d w Hw. cbn. by rewrite Hw.
Qed.
Lemma always_verify_artifact name digest : always (verify_artifact name digest) R.
Proof. unfold verify_artifact, lift. always_auto. Qed.
End service.

Ltac always_service :=
  unfold void, check_expected_version, live_status, parse_status, parse_stage,
    check_candidate_id, persist_test_output, record_test_evidence, record_review_evidence,
    insert_dispatching_command, insert_queued_command;
  cbv zeta;
  repeat lazymatch goal with
  | |- always (require_run _) _ => apply always_require_run; apply _
  | |- always (summary_of _) _ => apply always_summary_of; apply _
  | |- always (write_artifact _ _) _ => apply always_write_artifact; apply _
  | |- always (verify_artifact _ _) _ => apply always_verify_artifact; apply _
  | |- _ => first [ always_step | always_store ]
  end.

(** Every request that only goes through the other tables. *)
Section requests.
Context `{Sha256} (R : Db → Db → Prop) `{!StoreKeeps R}.

Lemma always_record_session s v a : always (record_session s v a) R.
Proof. unfold record_session. always_service. Qed.
Lemma always_record_checkpoint env id ck v : always (record_checkpoint env id ck v) R.
Proof. unfold record_checkpoint. always_service. Qed.
Lemma always_record_test env script run id v p :
  always (record_test env script run id v p) R.
Proof. unfold record_test. always_service. Qed.
Lemma always_record_review parse file id v rf pol :
  always (record_review parse file id v rf pol) R.
Proof. unfold record_review. always_service. Qed.
Lemma always_record_backup env id v remote ref a :
  always (record_backup env id v remote ref a) R.
Proof. unfold record_backup. always_service. Qed.
Lemma always_record_dispatch_intent uuid id ref prompt trn lease :
  always (record_dispatch_intent uuid id ref prompt trn lease) R.
Proof. unfold record_dispatch_intent. always_service. Qed.
Lemma always_begin_dispatch uuid id ref prompt trn lease :
  always (begin_dispatch uuid id ref prompt trn lease) R.
Proof. unfold begin_dispatch. always_service. Qed.
Lemma always_stage_repair_feedback uuid id ref fb trn lease gate :
  always (stage_repair_feedback uuid id ref fb trn lease gate) R.
Proof. unfold stage_repair_feedback, begin_dispatch. always_service. Qed.
Lemma always_command_written cmd n : always (command_written cmd n) R.
Proof. unfold command_written. always_service. Qed.
Lemma always_command_turn_ended cmd q : always (command_turn_ended cmd q) R.
Proof. unfold command_turn_ended. always_service. Qed.
Lemma always_plan_effect id k l : always (plan_effect id k l) R.
Proof. unfold plan_effect. always_service. Qed.
Lemma always_adopt_effect id op i : always (adopt_effect id op i) R.
Proof. unfold adopt_effect. always_service. Qed.

(** Recovery writes runs only through [escalate_to_operator]. *)
Lemma always_recover inv :
  (∀ id k, always (escalate_to_operator id k) R) → always (recover inv) R.
Proof.
  intros He.
  unfold recover, recover_commands, recover_effects, recover_effect, recover_launch,
    recover_backup, recover_sessions, recover_session, recover_artifacts, recover_artifact.
  cbv zeta. repeat first [ apply He | always_service ].
Qed.
End requests.

(** Every request, when all the store operations stay within [R]. *)
Lemma always_exec `{Sha256} R `{!RunsKeep R} q : always (exec q) R.
Proof.
  destruct q; cbn [exec]; unfold void; try (apply always_bind; [apply _| |intros; apply always_ret; apply _]).
  - unfold start_run. always_service.
  - unfold pause_run, apply. always_service.
  - unfold resume_run, apply. always_service.
  - unfold cancel_run, apply. always_service.
  - unfold resolve_input, reactivate, cancel_run, apply. always_service.
  - apply always_record_session, _.
  - unfold record_candidate. always_service.
  - apply always_record_checkpoint, _.
  - apply always_record_test, _.
  - apply always_record_review, _.
  - apply always_record_backup, _.
  - unfold advance_run, accept_run, submit_observation. always_service.
  - apply always_record_dispatch_intent, _.
  - apply always_recover; [apply _|]. intros. unfold escalate_to_operator, apply. always_service.
  - apply always_stage_repair_feedback, _.
  - apply always_command_written, _.
  - apply always_command_turn_ended, _.
  - apply always_plan_effect, _.
  - apply always_adopt_effect, _.
  - unfold submit_observation. always_service.
  - unfold accept_run, submit_observation. always_service.
  - apply always_begin_dispatch, _.
Qed.
