(* ===== verification/WorkflowRuns.v ===== *)
(** * The workflow service refines the run protocol

    The abstract specification of a run is a small transition system, [astep]:
    the reducer's observations, and what an operator or recovery may do.  Every
    request of the service, under every pattern of database failures, moves
    every run by a sequence of these steps, keeps its identity and adds at most
    a run in the initial state; [runs_ok] is the invariant of the run table.
    Acceptance is tracked: [acc id] says whether the acceptance step is
    available to run [id]. *)

From stdpp Require Import base list gmap strings pretty relations.
From Stdlib Require Import ZArith Lia.
From S2P Require Import Prelude Clipboard WorkflowModel WorkflowStore WorkflowVerify WorkflowService.
From S2P Require Import WorkflowLogic.

(** ** The abstract run *)

Record ARun := mk_arun {
  a_status : RunStatus.t;
  a_stage : Stage.t;
  a_round : Z;
  a_candidate : option string;
  a_version : Z;
}.

Definition a_moved (a : ARun) (st : RunStatus.t) (sg : Stage.t) (rd : Z) : ARun :=
  mk_arun st sg rd (a_candidate a) (a_version a + 1).
Definition a_status_set (a : ARun) (st : RunStatus.t) : ARun :=
  a_moved a st (a_stage a) (a_round a).

Inductive astep (acc : Prop) (max : Z) (a : ARun) : ARun → Prop :=
| a_observe g o actor next :
    advance (mk_view (a_status a) (a_stage a) (a_round a) g) max o actor = inr next →
    (o = Observation.VerifiedCurrent → acc) →
    astep acc max a (a_moved a (n_status next) (n_stage next) (n_round next))
| a_pause : a_status a = RunStatus.Active → astep acc max a (a_status_set a RunStatus.Paused)
| a_resume :
    a_status a = RunStatus.Paused ∨ a_status a = RunStatus.NeedsOperator →
    astep acc max a (a_status_set a RunStatus.Active)
| a_cancel :
    RunStatus.is_terminal (a_status a) = false →
    astep acc max a (a_status_set a RunStatus.Cancelled)
| a_escalate :
    a_status a = RunStatus.Active → astep acc max a (a_status_set a RunStatus.NeedsOperator)
| a_candidate_recorded cand :
    RunStatus.is_terminal (a_status a) = false →
    astep acc max a (mk_arun (a_status a) (a_stage a) (a_round a) (Some cand) (a_version a + 1)).

Definition a_initial : ARun := mk_arun RunStatus.Active Stage.Prepare 0 None 0.

Lemma astep_version acc max a b : astep acc max a b → a_version b = a_version a + 1.
Proof. by destruct 1. Qed.

Lemma astep_live acc max a b :
  astep acc max a b → RunStatus.is_terminal (a_status a) = false.
Proof.
  destruct 1 as [g o actor next Hadv _|H|[H|H]|H|H|cand H]; try done; try (by rewrite H).
  unfold advance in Hadv. cbn in Hadv. by destruct (RunStatus.is_terminal (a_status a)).
Qed.

Lemma astep_mono (acc acc' : Prop) max a b :
  (acc → acc') → astep acc max a b → astep acc' max a b.
Proof. intros Ha. destruct 1; [eapply a_observe; [done|tauto]|by constructor..]. Qed.

(** ** The invariant of the run table and the refinement *)

Definition budget (r : StoredRun) : Z := to_u32 U32_MAX (max_repair_turns r).

Definition abs (r : StoredRun) : option ARun :=
  st ← RunStatus.parse (status r);
  sg ← Stage.parse (stage r);
  Some (mk_arun st sg (round r) (candidate r) (version r)).

Record run_wf (r : StoredRun) : Prop := mk_run_wf {
  wf_abs : is_Some (abs r);
  wf_round : 0 ≤ round r ≤ budget r;
}.

Record runs_ok (rs : list StoredRun) : Prop := mk_runs_ok {
  ok_ids : NoDup (run_id <$> rs);
  ok_keys : NoDup (idempotency_key <$> rs);
  ok_wf : Forall run_wf rs;
  ok_single : (length (filter (λ r, incomplete r = true) rs) ≤ 1)%nat;
}.

(** The columns no operation changes. *)
Definition identity_of (r : StoredRun) : string * string * Z * string :=
  (run_id r, plan_hash r, max_repair_turns r, idempotency_key r).

Definition run_moves (acc : string → Prop) (r r' : StoredRun) : Prop :=
  identity_of r' = identity_of r ∧
  ∃ a a', abs r = Some a ∧ abs r' = Some a' ∧ rtc (astep (acc (run_id r)) (budget r)) a a'.

Definition run_started (acc : string → Prop) (r : StoredRun) : Prop :=
  ∃ a, abs r = Some a ∧ rtc (astep (acc (run_id r)) (budget r)) a_initial a.

Definition moves (acc : string → Prop) (rs rs' : list StoredRun) : Prop :=
  (length rs ≤ length rs')%nat ∧
  ∀ i r', rs' !! i = Some r' →
    match rs !! i with
    | Some r => run_moves acc r r'
    | None => run_started acc r'
    end.

Definition evolves (acc : string → Prop) (d d' : Db) : Prop :=
  runs_ok (runs d) → runs_ok (runs d') ∧ moves acc (runs d) (runs d').

Lemma run_moves_refl acc r : run_wf r → run_moves acc r r.
Proof. intros [[a Ha] _]. split; [done|]. exists a, a. by repeat split. Qed.

Lemma run_moves_trans acc r1 r2 r3 :
  run_moves acc r1 r2 → run_moves acc r2 r3 → run_moves acc r1 r3.
Proof.
  intros [Hi (a & b & Ha & Hb & H)] [Hi' (b' & c & Hb' & Hc & H')].
  assert (b' = b) as -> by congruence. split; [congruence|]. exists a, c. repeat split; try done.
  injection Hi as Hid _ Hm _. unfold budget in *. rewrite Hid, Hm in H'.
  by etrans.
Qed.

Lemma run_started_moves acc r r' : run_started acc r → run_moves acc r r' → run_started acc r'.
Proof.
  intros (a & Ha & H) [Hi (a' & b & Ha' & Hb & H')]. assert (a' = a) as -> by congruence.
  exists b. split; [done|]. injection Hi as Hid _ Hm _. unfold budget in *. rewrite Hid, Hm.
  by etrans.
Qed.

Lemma moves_refl acc rs : Forall run_wf rs → moves acc rs rs.
Proof.
  intros Hwf. split; [done|]. intros i r Hr. rewrite Hr.
  apply run_moves_refl. by eapply Forall_lookup_1.
Qed.

Lemma moves_trans acc rs1 rs2 rs3 : moves acc rs1 rs2 → moves acc rs2 rs3 → moves acc rs1 rs3.
Proof.
  intros [Hl H] [Hl' H']. split; [lia|]. intros i r3 Hr3. specialize (H' i r3 Hr3).
  destruct (rs2 !! i) as [r2|] eqn:Hr2.
  - specialize (H i r2 Hr2). destruct (rs1 !! i); [by eapply run_moves_trans|].
    by eapply run_started_moves.
  - apply lookup_ge_None in Hr2. by rewrite lookup_ge_None_2 by lia.
Qed.

#[export] Instance evolves_preorder acc : PreOrder (evolves acc).
Proof.
  split.
  - intros d Hok. split; [done|]. apply moves_refl, Hok.
  - intros d1 d2 d3 H H' Hok. destruct (H Hok) as [Hok2 Hm]. destruct (H' Hok2) as [Hok3 Hm'].
    split; [done|]. by eapply moves_trans.
Qed.

(** ** The operations that leave runs alone *)

Definition same_runs (d d' : Db) : Prop := runs d' = runs d.
#[export] Instance same_runs_preorder : PreOrder same_runs.
Proof. split; [done|]. intros d1 d2 d3 H H'. unfold same_runs in *. congruence. Qed.

Lemma always_sub {E A} (m : M E A) (R R' : Db → Db → Prop) :
  (∀ d d', R d d' → R' d d') → always m R → always m R'.
Proof. intros Hs Hm d. eapply triple_mono, Hm. auto. Qed.

Lemma insert_event_same id sq t a k r : always (insert_event id sq t a k r) same_runs.
Proof. unfold insert_event. always_auto. exact eq_refl. Qed.
Lemma insert_effect_same id e : always (insert_effect id e) same_runs.
Proof. unfold insert_effect. always_auto. exact eq_refl. Qed.

Ltac same_auto :=
  cbv zeta; repeat first
    [ lazymatch goal with
      | |- always (insert_event _ _ _ _ _ _) _ => apply insert_event_same
      | |- always (insert_effect _ _) _ => apply insert_effect_same
      | |- same_runs _ _ => exact eq_refl
      end
    | always_step
    | lazymatch goal with
      | |- always ?m _ => eapply (always_reads _ m); solve [eauto 2 with reads]
      end ].

#[export] Instance same_runs_keeps : StoreKeeps same_runs.
Proof.
  split; [apply _|..]; intros;
    unfold insert_command, set_command_state, command_run, store_session, append_event,
      ensure_effect, set_effect, record_evidence, discard_partial_evidence, store_checkpoint,
      txn_begin; same_auto.
Qed.

Lemma StoreKeeps_sub R R' `{!StoreKeeps R, !PreOrder R'} :
  (∀ d d', R d d' → R' d d') → StoreKeeps R'.
Proof.
  intros Hs. split; [done|..]; intros; (eapply always_sub; [exact Hs|]); always_store.
Qed.

#[export] Instance evolves_keeps acc : StoreKeeps (evolves acc).
Proof.
  refine (StoreKeeps_sub same_runs (evolves acc) _). intros d d' Hs Hok. rewrite Hs. split; [done|].
  apply moves_refl, Hok.
Qed.

(** ** The operations that write runs *)

Lemma apply_transition_outcome t d :
  triple d (apply_transition t) (λ res d', match res with
    | inl _ => d' = d
    | inr _ => ∃ n, runs d' = update_where (matches_version t) (transitioned t n) (runs d)
    end).
Proof.
  unfold apply_transition.
  apply triple_bind, triple_now. intros now.
  apply triple_bind, triple_lift, triple_fallible; [auto|].
  apply triple_map_err, triple_txn_end.
  apply triple_bind, triple_fallible; [auto|].
  apply triple_bind, triple_gets. apply triple_bind, triple_asks. intros n.
  apply triple_bind, triple_update.
  set (d1 := set_runs _ d).
  eapply (triple_mono _ _ (λ _ d', same_runs d1 d')).
  { intros [e|[]] d' Hd; [auto|]. by exists n. }
  match goal with |- triple _ ?m _ => assert (always m same_runs) as Hm; [|apply Hm] end.
  unfold version_conflict, run_exists. same_auto.
Qed.

Lemma apply_transition_runs t d :
  triple d (apply_transition t) (λ _ d', runs d' = runs d ∨
    ∃ n, runs d' = update_where (matches_version t) (transitioned t n) (runs d)).
Proof.
  eapply triple_mono, apply_transition_outcome. intros [e|u] d'; [|by right].
  intros ->. by left.
Qed.

Lemma create_run_runs id plan max key d :
  triple d (create_run id plan max key) (λ _ d', runs d' = runs d ∨
    id ∉ run_id <$> runs d ∧ key ∉ idempotency_key <$> runs d ∧
    ∃ n, runs d' = runs d ++ [mk_run id plan max key "active" "prepare" 0 None 0 0 n None]).
Proof.
  unfold create_run.
  apply triple_bind, triple_now. intros now.
  apply triple_bind, triple_lift, triple_fallible; [auto|].
  apply triple_lift, triple_txn_end.
  apply triple_bind, triple_fallible; [auto|].
  do 2 apply triple_bind, triple_gets.
  case_bool_decide; [by apply triple_bind, triple_violated; auto|].
  case_bool_decide; [by apply triple_bind, triple_violated; auto|].
  apply triple_bind, triple_bind, triple_asks. intros n. apply triple_update.
  eapply triple_mono, insert_event_same.
  intros [e|[]] d' Hd; [auto|]. right. do 2 (split; [done|]). by exists (as_i64 n).
Qed.

Lemma find_run_Some id d r : find_run id d = Some r → r ∈ runs d ∧ run_id r = id.
Proof.
  unfold find_run. intros ([i r'] & Hf & ->)%fmap_Some. cbn.
  apply list_find_Some in Hf as (Hi & Hid & _). split; [by eapply list_elem_of_lookup_2|done].
Qed.

Lemma run_unique rs r1 r2 :
  NoDup (run_id <$> rs) → r1 ∈ rs → r2 ∈ rs → run_id r1 = run_id r2 → r1 = r2.
Proof.
  intros Hnd [i Hi]%list_elem_of_lookup [j Hj]%list_elem_of_lookup Heq.
  assert (i = j) as ->; [|congruence].
  apply (NoDup_lookup _ i j (run_id r1) Hnd); rewrite list_lookup_fmap;
    [by rewrite Hi|by rewrite Hj, Heq].
Qed.

Lemma abs_Some r a :
  abs r = Some a →
  RunStatus.parse (status r) = Some (a_status a) ∧ Stage.parse (stage r) = Some (a_stage a) ∧
  a = mk_arun (a_status a) (a_stage a) (round r) (candidate r) (version r).
Proof.
  unfold abs. intros (st & Hst & (sg & Hsg & [= <-])%bind_Some)%bind_Some. done.
Qed.

Lemma abs_incomplete r a :
  abs r = Some a → incomplete r = negb (RunStatus.is_terminal (a_status a)).
Proof.
  intros (Hst%RunStatus.parse_Some & _)%abs_Some. unfold incomplete. rewrite Hst.
  by destruct (a_status a).
Qed.

Lemma filter_length_fmap {A} (P : A → Prop) `{!∀ x, Decision (P x)} (g : A → A) (l : list A) :
  (∀ x, x ∈ l → P (g x) → P x) → (length (filter P (g <$> l)) ≤ length (filter P l))%nat.
Proof.
  induction l as [|x l IH]; intros Hg; [done|].
  assert (length (filter P (g <$> l)) ≤ length (filter P l))%nat as IH'.
  { apply IH. intros y Hy. apply Hg. by right. }
  rewrite fmap_cons, !filter_cons. destruct (decide (P (g x))) as [HP|].
  - rewrite decide_True by (apply Hg; [left|done]). cbn. lia.
  - destruct (decide (P x)); cbn; lia.
Qed.

Lemma astep_round acc max a b :
  astep acc max a b → 0 ≤ a_round a ≤ max → 0 ≤ a_round b ≤ max.
Proof.
  intros H Hr. destruct H as [g o actor next Hadv _| | | | |]; cbn; try done.
  unfold advance in Hadv. cbn in Hadv.
  destruct o; repeat split_match_in Hadv; simplify_eq; cbn; bool_to_prop; lia.
Qed.

(** The abstract state a transition asks for. *)
Definition target (t : RunTransition) (r : StoredRun) : ARun :=
  mk_arun (t_status t) (t_stage t) (t_round t) (t_candidate t) (version r + 1).

Lemma abs_transitioned t n r : abs (transitioned t n r) = Some (target t r).
Proof. unfold abs. cbn. by rewrite RunStatus.parse_as_str, Stage.stage_parse_as_str. Qed.

Section transition.
Context (acc : string → Prop).

(** A transition is allowed when it is a step of the run it was computed from. *)
Definition allowed (d : Db) (t : RunTransition) : Prop :=
  ∃ r, find_run (t_run_id t) d = Some r ∧
  (run_wf r → version r = t_expected_version t →
   ∃ a, abs r = Some a ∧ astep (acc (run_id r)) (budget r) a (target t r)).

(** The row the update rewrites, and only that one, takes the step. *)
Lemma updated_row d t n r0 :
  runs_ok (runs d) → allowed d t → r0 ∈ runs d →
  let r' := if matches_version t r0 then transitioned t n r0 else r0 in
  run_moves acc r0 r' ∧ run_wf r' ∧ (incomplete r' = true → incomplete r0 = true).
Proof.
  intros Hok (r & Hf & Hstep) Hin r'. subst r'.
  assert (run_wf r0) as Hwf by (eapply Forall_forall; [apply Hok|done]).
  destruct (matches_version t r0) eqn:Hm; [|by auto using run_moves_refl].
  unfold matches_version, str_eqb in Hm. bool_to_prop.
  apply find_run_Some in Hf as [Hr Hid].
  assert (r0 = r) as ->.
  { eapply run_unique; [apply Hok|done|done|congruence]. }
  destruct (Hstep Hwf) as (a & Ha & Hs); [done|]. rewrite (abs_incomplete _ _ Ha).
  split; [|split].
  - split; [done|]. exists a, (target t r). rewrite abs_transitioned. repeat split; [done|].
    by apply rtc_once.
  - split; [rewrite abs_transitioned; eauto|]. eapply (astep_round _ _ _ _ Hs).
    apply abs_Some in Ha as (_ & _ & ->). apply Hwf.
  - intros _. apply astep_live in Hs. by rewrite Hs.
Qed.

Lemma apply_transition_evolves d t :
  allowed d t → triple d (apply_transition t) (λ _ d', evolves acc d d').
Proof.
  intros Hal. eapply triple_mono, apply_transition_runs.
  intros _ d' [Hs|[n Hs]] Hok; rewrite Hs; [split; [done|apply moves_refl, Hok]|].
  set (g := λ r0, if matches_version t r0 then transitioned t n r0 else r0).
  assert (∀ r0, r0 ∈ runs d → run_moves acc r0 (g r0) ∧ run_wf (g r0) ∧
            (incomplete (g r0) = true → incomplete r0 = true)) as Hg.
  { intros r0 Hr0. by apply (updated_row d). }
  assert (∀ B (f : StoredRun → B), (∀ r0, r0 ∈ runs d → f (g r0) = f r0) →
            f <$> (g <$> runs d) = f <$> runs d) as Hf.
  { intros B f Hf. rewrite <-list_fmap_compose. apply list_fmap_ext.
    intros i r0 Hi. apply Hf. by eapply list_elem_of_lookup_2. }
  change (update_where _ _ _) with (g <$> runs d). split; [split|split].
  - rewrite Hf; [apply Hok|]. intros r0 Hr0. apply Hg in Hr0 as [[Hi _] _]. by injection Hi.
  - rewrite Hf; [apply Hok|]. intros r0 Hr0. apply Hg in Hr0 as [[Hi _] _]. by injection Hi.
  - apply Forall_fmap, Forall_forall. intros r0 Hr0. by apply Hg.
  - etrans; [|apply Hok]. apply filter_length_fmap. intros r0 Hr0. by apply Hg.
  - by rewrite length_fmap.
  - intros i r' Hr'. rewrite list_lookup_fmap in Hr'.
    apply fmap_Some in Hr' as (r0 & Hr0 & ->). rewrite Hr0.
    apply Hg. by eapply list_elem_of_lookup_2.
Qed.

Lemma find_active_None d : find_active d = None → filter (λ r, incomplete r = true) (runs d) = [].
Proof.
  unfold find_active. intros H%fmap_None%list_find_None.
  induction H as [|r rs Hr _ IH]; [done|]. rewrite filter_cons_False by done. exact IH.
Qed.

Lemma create_run_evolves d id plan max key :
  find_active d = None → triple d (create_run id plan max key) (λ _ d', evolves acc d d').
Proof.
  intros Hact. eapply triple_mono, create_run_runs.
  intros _ d' [Hs|(Hid & Hkey & n & Hs)] Hok; rewrite Hs;
    [split; [done|apply moves_refl, Hok]|].
  set (r := mk_run _ _ _ _ _ _ _ _ _ _ _ _).
  assert (0 ≤ budget r) as Hb.
  { unfold budget, to_u32, r. cbn. split_match; range_lia. }
  split; [split|split].
  - rewrite fmap_app. apply NoDup_app. split; [apply Hok|]. split; [|apply NoDup_singleton].
    intros x Hx ->%list_elem_of_singleton. by apply Hid.
  - rewrite fmap_app. apply NoDup_app. split; [apply Hok|]. split; [|apply NoDup_singleton].
    intros x Hx ->%list_elem_of_singleton. by apply Hkey.
  - apply Forall_app. split; [apply Hok|]. constructor; [|done]. split; [by eexists|].
    cbn. lia.
  - rewrite filter_app, (find_active_None _ Hact). cbn [app]. apply length_filter.
  - rewrite length_app. lia.
  - intros i r' Hr'. destruct (runs d !! i) as [r0|] eqn:Hr0.
    + rewrite (lookup_app_l_Some _ _ _ _ Hr0) in Hr'. simplify_eq.
      apply run_moves_refl. destruct Hok as [_ _ Hwf _]. by eapply Forall_lookup_1.
    + apply lookup_ge_None in Hr0. rewrite lookup_app_r in Hr' by done.
      apply list_lookup_singleton_Some in Hr' as [_ <-]. by exists a_initial.
Qed.
End transition.

(** ** The requests *)

Lemma require_run_triple {B} d id (k : StoredRun → M WorkflowError B) Q :
  (∀ e, Q (inl e) d) → (∀ r, find_run id d = Some r → triple d (k r) Q) →
  triple d (require_run id ≫= k) Q.
Proof.
  intros He Hk. apply triple_bind. unfold require_run.
  eapply triple_reads; [apply load_run_reads|done|].
  apply triple_ok_or; [auto|]. intros r Hr. by apply Hk.
Qed.

Lemma live_status_triple {B} d r id (k : RunStatus.t → M WorkflowError B) Q :
  (∀ e, Q (inl e) d) →
  (∀ st, RunStatus.parse (status r) = Some st → RunStatus.is_terminal st = false →
         triple d (k st) Q) →
  triple d (live_status r id ≫= k) Q.
Proof.
  intros He Hk. apply triple_bind. unfold live_status, parse_status.
  apply triple_bind, triple_ok_or; [auto|]. intros st Hst.
  apply triple_bind, triple_refuse; [auto|]. intros Hterm.
  apply triple_ret. by apply Hk.
Qed.

Lemma verified_current_inv st sg rd g max actor next :
  advance (mk_view st sg rd g) max Observation.VerifiedCurrent actor = inr next →
  actor = Actor.Host ∧ st = RunStatus.Active ∧ sg = Stage.Decide.
Proof. by destruct st, sg, actor. Qed.

Lemma decide_accept e :
  decide_candidate e = Decision.Accept →
  ce_candidate e = ce_current e ∧ test_policy_hash e = expected_policy_hash e ∧
  uncertainty_pending e = false ∧ epoch_current e = true ∧ host_owned e = true ∧
  source_current e = true ∧ backup_satisfied e = true ∧
  test_passed e = true ∧ ce_review_acceptable e = true.
Proof.
  unfold decide_candidate, str_eqb. intros Hd. repeat split_match_in Hd; try done.
  by bool_to_prop.
Qed.

Definition checkpoints_of (id : string) (d : Db) : list StoredCheckpoint :=
  snd <$> filter (λ p, p.1 = id) (checkpoints d).
Definition evidence_of (id : string) (d : Db) : list StoredEvidence :=
  snd <$> filter (λ p, p.1 = id) (evidence d).
(** The verdicts of one kind recorded for a candidate of a run. *)
Definition verdicts (cand kind id : string) (d : Db) : list StoredEvidence :=
  filter (λ e, ed_kind e = kind) (filter (λ e, ed_candidate e = cand) (evidence_of id d)).

Lemma parse_actor_host a : parse_actor a = Some Actor.Host → a = "host".
Proof. unfold parse_actor, str_eqb. by repeat case_bool_decide. Qed.
Lemma parse_observation_verified o :
  parse_observation o = Some Observation.VerifiedCurrent → o = "verified_current".
Proof. unfold parse_observation, str_eqb. by repeat case_bool_decide. Qed.

Lemma find_run_self id d r : find_run id d = Some r → find_run (run_id r) d = Some r.
Proof. intros H. by destruct (find_run_Some _ _ _ H) as [_ ->]. Qed.

Lemma budget_u32 r : 0 ≤ budget r ≤ U32_MAX.
Proof. unfold budget, to_u32. split_match; bool_to_prop; range_lia. Qed.

Lemma round_u32 r : run_wf r → to_u32 0 (round r) = round r.
Proof.
  intros [_ Hr]. pose proof (budget_u32 r). unfold to_u32. split_match; bool_to_prop; lia.
Qed.

Lemma status_in r a b :
  str_in (status r) [RunStatus.as_str a; RunStatus.as_str b] = true →
  ∃ st, RunStatus.parse (status r) = Some st ∧ (st = a ∨ st = b).
Proof.
  intros [E|[E|[=]]%str_in_cons]%str_in_cons; rewrite E, RunStatus.parse_as_str; eauto.
Qed.

Lemma find_run_same d d' id : same_runs d d' → find_run id d' = find_run id d.
Proof. unfold find_run. by intros ->. Qed.

Section requests.
Context `{Sha256} (acc : string → Prop).

Lemma allowed_intro d t r st sg :
  find_run (t_run_id t) d = Some r →
  RunStatus.parse (status r) = Some st → Stage.parse (stage r) = Some sg →
  (run_wf r → astep (acc (t_run_id t)) (budget r)
                (mk_arun st sg (round r) (candidate r) (version r)) (target t r)) →
  allowed acc d t.
Proof.
  intros Hf Hst Hsg Hs. exists r. split; [done|]. intros Hwf _.
  eexists. split; [unfold abs; by rewrite Hst, Hsg|].
  apply find_run_Some in Hf as [_ ->]. by apply Hs.
Qed.

(** Step through guards and reads; on a refusal the tables are unchanged. *)
Ltac tstep :=
  lazymatch goal with
  | |- triple _ (require_run _ ≫= _) _ =>
      apply require_run_triple; [intros; reflexivity|intros ? ?]
  | |- triple _ (live_status _ _ ≫= _) _ =>
      apply live_status_triple; [intros; reflexivity|intros ? ? ?]
  | |- triple _ (parse_stage _ _ ≫= _) _ =>
      apply triple_bind, triple_ok_or; [intros; reflexivity|intros ? ?]
  | |- triple _ (parse_status _ _ ≫= _) _ =>
      apply triple_bind, triple_ok_or; [intros; reflexivity|intros ? ?]
  | |- triple _ (ok_or _ _ ≫= _) _ =>
      apply triple_bind, triple_ok_or; [intros; reflexivity|intros ? ?]
  | |- triple _ (check_expected_version _ _ _ ≫= _) _ =>
      apply triple_bind, triple_refuse; [intros; reflexivity|intros ?]
  | |- triple _ (check_candidate_id _ ≫= _) _ =>
      apply triple_bind, triple_refuse; [intros; reflexivity|intros ?]
  | |- triple _ (refuse _ _ ≫= _) _ =>
      apply triple_bind, triple_refuse; [intros; reflexivity|intros ?]
  | |- triple _ (asks _ ≫= _) _ => apply triple_bind, triple_asks; intros ?
  | |- triple _ (fail _) _ => apply triple_fail; reflexivity
  | |- triple _ (mret _) _ => apply triple_ret; reflexivity
  | |- triple _ (from_sum (match ?x with _ => _ end) ≫= _) _ =>
      apply triple_bind, triple_from_sum; destruct x eqn:?; [reflexivity|]
  | |- triple _ (from_sum ?x ≫= _) _ =>
      apply triple_bind, triple_from_sum; destruct x eqn:?; [reflexivity|]
  | |- triple _ (_ ≫= _) _ =>
      eapply triple_reads; [solve [eauto 2 with reads]|intros; reflexivity|]
  end.
Ltac tsteps := cbv zeta; repeat tstep; cbv zeta beta.
(** A transition, then operations on other tables. *)
Ltac transition :=
  first
    [ apply triple_then; [apply _|apply apply_transition_evolves|intros; always_service]
    | apply apply_transition_evolves ].

Lemma start_run_evolves d uuid plan max key :
  triple d (start_run uuid plan max key) (λ _ d', evolves acc d d').
Proof.
  unfold start_run. tsteps.
  destruct (find_run_by_key key d); [by apply triple_from_sum|].
  tsteps. destruct (find_active d) eqn:Hact; [by apply triple_fail|].
  apply triple_then; [apply _|by apply create_run_evolves|intros; always_service].
Qed.

(** An operation on other tables comes first. *)
Lemma triple_skip {E A B} d (m : M E A) (k : A → M E B) :
  always m same_runs →
  (∀ a d', same_runs d d' → triple d' (k a) (λ _ d'', evolves acc d' d'')) →
  triple d (m ≫= k) (λ _ d'', evolves acc d d'').
Proof.
  intros Hm Hk. apply triple_bind. eapply triple_mono, Hm. intros [e|a] d' Hs.
  - intros Hok. rewrite Hs. split; [done|apply moves_refl, Hok].
  - eapply triple_mono; [|by apply Hk]. intros r d''. unfold evolves. by rewrite Hs.
Qed.

(** The transition is the step [c] of the run it was loaded from. *)
Ltac allow c :=
  eapply allowed_intro;
    [first [eassumption | eapply find_run_self; eassumption]|eassumption|eassumption|];
  intros Hwf; unfold target; cbn [t_status t_stage t_round t_candidate];
  rewrite ?(round_u32 _ Hwf); apply (c _ _ (mk_arun _ _ _ _ _));
  cbn [a_status a_stage a_round].

Lemma pause_run_evolves d id actor reason ck :
  triple d (pause_run id actor reason ck) (λ _ d', evolves acc d d').
Proof.
  unfold pause_run, apply. tsteps. transition. allow a_pause.
  bool_to_prop. by destruct st.
Qed.

Lemma resume_run_evolves d id actor :
  triple d (resume_run id actor) (λ _ d', evolves acc d d').
Proof.
  unfold resume_run, apply. tsteps.
  destruct (in_state _ _ d); [|apply triple_bind, triple_fail; reflexivity].
  apply triple_bind, triple_ret. tsteps. transition.
  apply negb_false_iff, status_in in H1 as (st & Hst & Hc). allow a_resume. done.
Qed.

Lemma cancel_run_evolves d id actor reason :
  triple d (cancel_run id actor reason) (λ _ d', evolves acc d d').
Proof.
  unfold cancel_run, apply. tsteps. apply triple_skip.
  { destruct (candidate r); always_auto. }
  intros _ d' Hs. rewrite <-(find_run_same _ _ _ Hs) in *. transition. allow a_cancel. done.
Qed.

Lemma reactivate_evolves d id actor kind :
  triple d (reactivate id actor kind) (λ _ d', evolves acc d d').
Proof.
  unfold reactivate, apply. tsteps.
  destruct (negb (str_eqb (status r) (RunStatus.as_str RunStatus.NeedsOperator))) eqn:Hn; tsteps.
  unfold str_eqb in Hn. bool_to_prop. transition.
  assert (RunStatus.parse (status r) = Some RunStatus.NeedsOperator)
    by (by rewrite Hn, RunStatus.parse_as_str).
  allow a_resume. by right.
Qed.

Lemma resolve_input_evolves d uuid id cmd dec actor obs :
  triple d (resolve_input uuid id cmd dec actor obs) (λ _ d', evolves acc d d').
Proof.
  unfold resolve_input. tsteps. destruct dec.
  - apply triple_skip; [always_service|]. intros _ d' _.
    apply triple_then; [apply _|apply reactivate_evolves|intros; always_service].
  - apply triple_skip; [always_service|]. intros _ d' _.
    apply triple_skip; [always_service|]. intros _ d'' _.
    apply triple_then; [apply _|apply reactivate_evolves|intros; always_service].
  - apply triple_skip; [always_service|]. intros _ d' _. apply cancel_run_evolves.
Qed.

Lemma record_candidate_evolves d id cand v actor :
  triple d (record_candidate id cand v actor) (λ _ d', evolves acc d d').
Proof.
  unfold record_candidate. tsteps. transition. allow a_candidate_recorded. done.
Qed.

Lemma escalate_evolves d id kind :
  triple d (escalate_to_operator id kind) (λ _ d', evolves acc d d').
Proof.
  unfold escalate_to_operator, apply. tsteps.
  destruct (str_eqb (status r) _) eqn:Hn; [apply keeps_append_event|]. tsteps.
  destruct (RunStatus.is_terminal a || bool_decide (a = RunStatus.Paused)) eqn:Ht;
    [apply keeps_append_event|]. tsteps.
  transition. allow a_escalate. unfold str_eqb in Hn. bool_to_prop.
  match goal with H : RunStatus.parse _ = Some a |- _ => apply RunStatus.parse_Some in H end.
  by destruct a.
Qed.

(** An observation is a step of the reducer; acceptance must be available to an
    active run at its decision. *)
Lemma submit_observation_evolves d id v ep actor obs :
  (obs = Observation.VerifiedCurrent → actor = Actor.Host →
   ∀ r, find_run id d = Some r → status r = "active" → stage r = "decide" → acc id) →
  triple d (submit_observation id v ep actor obs) (λ _ d', evolves acc d d').
Proof.
  intros Hacc. unfold submit_observation. tsteps. transition.
  match goal with Hv : view_of r = inr ?v |- _ => rename Hv into Hview end.
  match goal with Ha : advance _ _ _ _ = inr ?n |- _ => rename Ha into Hadv end.
  unfold view_of, opt_or in Hview.
  destruct (RunStatus.parse (status r)) as [st|] eqn:Hst; [|done].
  destruct (Stage.parse (stage r)) as [sg|] eqn:Hsg; [|done]. injection Hview as <-.
  eapply allowed_intro; [eassumption..|]. intros Hwf. rewrite (round_u32 _ Hwf) in Hadv.
  eapply (a_observe _ _ (mk_arun _ _ _ _ _)); [done|]. intros ->.
  apply verified_current_inv in Hadv as (-> & -> & ->).
  by apply (Hacc eq_refl eq_refl r); [|apply (RunStatus.parse_Some _ _ Hst)
                                      |apply (Stage.stage_parse_Some _ _ Hsg)].
Qed.

(** What the tables and the source must show when run [id] at version [v] is
    accepted against policy [pol]. *)
Definition acceptable_now (env : Env) (id pol : string) (v : Z) (d : Db) : Prop :=
  ∃ r cand ck test review,
    find_run id d = Some r ∧ version r = v ∧ status r = "active" ∧ stage r = "decide" ∧
    candidate r = Some cand ∧
    find_checkpoint cand (checkpoints_of id d) = Some ck ∧
    verdicts cand "test" id d = [test] ∧ verdicts cand "review" id d = [review] ∧
    ed_result test = "pass" ∧ ed_result review = "pass" ∧
    ed_policy_hash test = Some pol ∧ ed_policy_hash review = Some pol ∧
    (∃ tree, verify_source env (local_path ck) (commit_hash ck) cand = inr tree) ∧
    (∃ e, e ∈ effects d ∧ e_run_id e = id ∧ e_kind e = "backup" ∧ e_status e = "done") ∧
    in_state id CommandState.DeliveryUnknown d = [].

Lemma accept_run_evolves d env id v pol :
  (acceptable_now env id pol v d → acc id) →
  triple d (accept_run env id v pol) (λ _ d', evolves acc d d').
Proof.
  intros Hacc. unfold accept_run. tsteps. rename a0 into cand, a1 into ck.
  change (snd <$> filter _ (evidence d)) with (evidence_of id d).
  change (filter (λ e, ed_kind e = "test") _) with (verdicts cand "test" id d).
  change (filter (λ e, ed_kind e = "review") _) with (verdicts cand "review" id d).
  destruct (verdicts cand "test" id d) as [|test [|? ?]] eqn:Htest; [tsteps| |].
  2: { destruct (verdicts cand "review" id d); tsteps. }
  destruct (verdicts cand "review" id d) as [|review [|? ?]] eqn:Hreview; [tsteps| |tsteps].
  tsteps.
  match goal with |- triple _ (match decide_candidate ?e with _ => _ end) _ =>
    destruct (decide_candidate e) eqn:Hdec; try tsteps end.
  apply decide_accept in Hdec. cbn in Hdec.
  destruct Hdec as (_ & Hpol & Hunc & _ & _ & Hsrc & Hback & Hpass & Hrev).
  unfold str_eqb in *. bool_to_prop.
  apply submit_observation_evolves. intros _ _ r' Hr' Hact Hdecide.
  assert (r' = r) as -> by congruence. apply Hacc.
  exists r, cand, ck, test, review. repeat split; try done.
  - destruct (ed_policy_hash test); [by f_equal|done].
  - congruence.
  - by destruct (verify_source _ _ _ _) as [|tree]; [|exists tree].
  - apply existsb_exists in Hback as (e & He%list_elem_of_In%list_elem_of_filter & Hb).
    bool_to_prop. exists e. by destruct He.
  - by apply nil_length_inv.
Qed.

Lemma advance_run_evolves d env id v actor obs pol :
  (actor = "host" → obs = "verified_current" →
   acceptable_now env id (default "" pol) v d → acc id) →
  triple d (advance_run env id v actor obs pol) (λ _ d', evolves acc d d').
Proof.
  intros Hacc. unfold advance_run. tsteps.
  match goal with |- context [bool_decide (?o = Observation.VerifiedCurrent)] =>
    destruct (bool_decide (o = Observation.VerifiedCurrent)) eqn:Ho end; tsteps.
  - apply accept_run_evolves. intros Hnow. bool_to_prop. subst. apply Hacc; [..|done].
    + by apply parse_actor_host.
    + by apply parse_observation_verified.
  - apply submit_observation_evolves. intros ->. by bool_to_prop.
Qed.

(** When a request makes the acceptance step available to run [id]. *)
Definition accepts (q : Request) (d : Db) (id : string) : Prop :=
  match q with
  | RAdvance env id' v actor obs pol =>
      id' = id ∧ actor = "host" ∧ obs = "verified_current" ∧
      acceptable_now env id (default "" pol) v d
  | RObserve id' _ _ actor obs =>
      id' = id ∧ actor = Actor.Host ∧ obs = Observation.VerifiedCurrent
  | RAccept env id' v pol => id' = id ∧ acceptable_now env id pol v d
  | _ => False
  end.
End requests.

Lemma exec_evolves `{Sha256} q d : triple d (exec q) (λ _ d', evolves (accepts q d) d d').
Proof.
  destruct q; cbn [exec]; unfold void;
    try (apply triple_then; [apply _| |intros; apply always_ret; apply _]).
  - apply start_run_evolves.
  - apply pause_run_evolves.
  - apply resume_run_evolves.
  - apply cancel_run_evolves.
  - apply resolve_input_evolves.
  - apply always_record_session, _.
  - apply record_candidate_evolves.
  - apply always_record_checkpoint, _.
  - apply always_record_test, _.
  - apply always_record_review, _.
  - apply always_record_backup, _.
  - apply advance_run_evolves. cbn. auto.
  - apply always_record_dispatch_intent, _.
  - apply always_recover; [apply _|]. intros id k d'. apply escalate_evolves.
  - apply always_stage_repair_feedback, _.
  - apply always_command_written, _.
  - apply always_command_turn_ended, _.
  - apply always_plan_effect, _.
  - apply always_adopt_effect, _.
  - apply submit_observation_evolves. cbn. auto.
  - apply accept_run_evolves. cbn. auto.
  - apply always_begin_dispatch, _.
Qed.
