(* ===== verification/WorkflowInvariant.v ===== *)
(** * The tables of the workflow store stay consistent

    The invariant of the whole database: unique keys in every table, the run
    table of [WorkflowRuns], and an event log that is, for every run, numbered
    0, 1, 2, ... without a gap.  It holds of an empty database and every request
    preserves it, under every pattern of failures. *)

From stdpp Require Import base list gmap strings pretty relations.
From Stdlib Require Import ZArith Lia.
From S2P Require Import Prelude Clipboard WorkflowModel WorkflowStore WorkflowVerify WorkflowService.
From S2P Require Import WorkflowLogic WorkflowRuns.

Definition contiguous (es : list (string * StoredEvent)) : Prop :=
  ∀ id, seqs_of id es = seqZ 0 (Z.of_nat (length (seqs_of id es))).

Record side_ok (d : Db) : Prop := mk_side_ok {
  so_commands : NoDup (command_id <$> commands d);
  so_effects : NoDup (operation_id <$> effects d);
  so_evidence : NoDup (evidence_key <$> evidence d);
  so_checkpoints : NoDup (checkpoint_key <$> checkpoints d);
  so_events : contiguous (events d);
}.

Definition db_ok (d : Db) : Prop := runs_ok (runs d) ∧ side_ok d.

Definition keeps (P : Db → Prop) (d d' : Db) : Prop := P d → P d'.
#[export] Instance keeps_inv_preorder P : PreOrder (keeps P).
Proof. split; [by intros d H|]. intros d1 d2 d3 H H' HP. by apply H', H. Qed.

(** ** The event log *)

Lemma seqs_of_app id es es' : seqs_of id (es ++ es') = seqs_of id es ++ seqs_of id es'.
Proof. unfold seqs_of. by rewrite filter_app, fmap_app. Qed.

Lemma max_seqZ n : foldr Z.max (-1) (seqZ 0 (Z.of_nat n)) = Z.of_nat n - 1.
Proof.
  induction n as [|n IH]; [done|].
  rewrite seqZ_S, foldr_app. cbn.
  assert (∀ a l, -1 ≤ a → foldr Z.max a l = Z.max a (foldr Z.max (-1) l)) as Hf.
  { intros a l Ha. induction l as [|x l IHl]; cbn; [lia|]. rewrite IHl. lia. }
  rewrite Hf, IH by lia. lia.
Qed.

(** Appending the next number, or a number already taken, keeps the log
    contiguous: in the second case the insert is refused. *)
Lemma contiguous_insert es id sq t a k r :
  contiguous es → 0 ≤ sq ≤ Z.of_nat (length (seqs_of id es)) → sq ∉ seqs_of id es →
  contiguous (es ++ [(id, mk_event sq t a k r)]).
Proof.
  intros Hc Hr Hn id'. rewrite seqs_of_app. unfold seqs_of at 2 4. rewrite filter_cons.
  cbn [fst]. destruct (decide (id = id')) as [<-|]; cbn.
  - assert (sq = Z.of_nat (length (seqs_of id es))) as ->.
    { destruct (decide (sq = Z.of_nat (length (seqs_of id es)))) as [|Hne]; [done|].
      exfalso. apply Hn. rewrite (Hc id). apply elem_of_seqZ. lia. }
    rewrite length_app. cbn. rewrite Nat.add_1_r, seqZ_S. f_equal. apply Hc.
  - rewrite !app_nil_r. apply Hc.
Qed.

Lemma insert_event_keeps d id sq t a k r :
  (side_ok d → 0 ≤ sq ≤ Z.of_nat (length (seqs_of id (events d)))) →
  triple d (insert_event id sq t a k r) (λ _ d', keeps side_ok d d').
Proof.
  intros Hr. unfold insert_event. apply triple_bind, triple_fallible; [done|].
  apply triple_bind, triple_gets. case_bool_decide; [by apply triple_violated|].
  apply triple_update. intros Hok. specialize (Hr Hok). destruct Hok. split; try done.
  by apply contiguous_insert.
Qed.

Lemma log_then_keeps {A} id t a k r (rest : M string A) :
  always rest (keeps side_ok) →
  always (sq ← next_event_seq id; _ ← insert_event id sq t a k r; rest) (keeps side_ok).
Proof.
  intros Hk d. eapply triple_reads; [apply next_event_seq_reads|done|].
  apply triple_then; [apply _| |auto]. apply insert_event_keeps.
  intros Hok. rewrite (so_events _ Hok id), max_seqZ, length_seqZ. lia.
Qed.

Lemma log_keeps id t a k r :
  always (sq ← next_event_seq id; insert_event id sq t a k r) (keeps side_ok).
Proof.
  intros d. eapply triple_reads; [apply next_event_seq_reads|done|]. apply insert_event_keeps.
  intros Hok. rewrite (so_events _ Hok id), max_seqZ, length_seqZ. lia.
Qed.

(** ** Inserts under a key, and updates that keep it *)

Lemma always_insert {R : Db → Db → Prop} `{!PreOrder R} (c : Db → bool) f msg what :
  (∀ d, c d = false → R d (f d)) →
  always (taken ← gets c; if taken : bool then violated msg what else update f) R.
Proof.
  intros Hf d. apply triple_bind, triple_gets. destruct (c d) eqn:Hc.
  - by apply triple_violated.
  - apply triple_update. auto.
Qed.

Lemma always_insert_then {R : Db → Db → Prop} `{!PreOrder R} {B} (c : Db → bool) f msg what
    (rest : M string B) :
  (∀ d, c d = false → R d (f d)) → always rest R →
  always (taken ← gets c; _ ← (if taken : bool then violated msg what else update f); rest) R.
Proof.
  intros Hf Hr d. apply triple_bind, triple_gets. apply triple_then; [done| |auto].
  destruct (c d) eqn:Hc; [by apply triple_violated|]. apply triple_update. auto.
Qed.

Lemma NoDup_snoc {A K} (key : A → K) (l : list A) (x : A) :
  NoDup (key <$> l) → key x ∉ key <$> l → NoDup (key <$> (l ++ [x])).
Proof.
  intros Hnd Hx. rewrite fmap_app. apply NoDup_app. split; [done|]. split; [|apply NoDup_singleton].
  intros y Hy ->%list_elem_of_singleton. by apply Hx.
Qed.

Lemma update_where_key {A K} (key : A → K) p f (l : list A) :
  (∀ x, p x = true → key (f x) = key x) → key <$> update_where p f l = key <$> l.
Proof.
  intros Hf. unfold update_where. rewrite <-list_fmap_compose. apply list_fmap_ext.
  intros i x _. cbn. destruct (p x) eqn:Hp; auto.
Qed.

Lemma insert_effect_keeps id e : always (insert_effect id e) (keeps side_ok).
Proof.
  unfold insert_effect. apply always_bind; [apply _|apply always_fallible, _|intros _].
  apply always_insert. intros d Hn%bool_decide_eq_false [H1 H2 H3 H4 H5]. split; try done.
  by apply NoDup_snoc.
Qed.

Lemma upsert_keeps row rows :
  NoDup (checkpoint_key <$> rows) → NoDup (checkpoint_key <$> upsert_checkpoint row rows).
Proof.
  intros Hnd. unfold upsert_checkpoint. case_bool_decide; [|by apply NoDup_snoc].
  rewrite update_where_key; [done|]. by intros x <-%bool_decide_eq_true.
Qed.

Ltac side_auto :=
  cbv zeta; repeat first
    [ lazymatch goal with
      | |- always (insert_effect _ _) _ => apply insert_effect_keeps
      | |- always (next_event_seq _ ≫= _) _ => first [apply log_keeps | apply log_then_keeps]
      | |- always (insert_event _ 0 _ _ _ _) _ => intros ?; apply insert_event_keeps; lia
      | |- always (gets _ ≫= _) _ =>
          first [apply always_insert; intros ? Hnew%bool_decide_eq_false
                |apply always_insert_then; [intros ? Hnew%bool_decide_eq_false|]]
      end
    | always_step
    | lazymatch goal with
      | |- always ?m _ => eapply (always_reads _ m); solve [eauto 2 with reads]
      end ].

#[export] Instance side_keeps : RunsKeep (keeps side_ok).
Proof.
  split; [split; [apply _|..]|..]; intros;
    unfold insert_command, set_command_state, command_run, store_session, append_event,
      ensure_effect, set_effect, record_evidence, discard_partial_evidence, store_checkpoint,
      create_run, apply_transition, version_conflict, run_exists, txn_begin; side_auto;
    try (intros [H1 H2 H3 H4 H5]; split; try done).
  - by apply NoDup_snoc.
  - cbn. by rewrite update_where_key.
  - cbn. by rewrite update_where_key.
  - by apply NoDup_snoc.
  - cbn. eapply sublist_NoDup; [exact H3|]. apply fmap_sublist, sublist_filter.
  - by apply upsert_keeps.
Qed.

(** ** The whole invariant *)

Lemma db_ok_empty m : db_ok (set_meta m empty_db).
Proof.
  split; [split|split]; try constructor; done.
Qed.

Lemma exec_db_ok `{Sha256} q w : db_ok (conn w) → db_ok (conn (exec q w).2).
Proof.
  intros [Hr Hs]. split.
  - by apply (exec_evolves q (conn w) w).
  - by apply (always_exec (keeps side_ok) q (conn w) w).
Qed.
