(* ===== verification/WorkflowDemo.v ===== *)
(** * A complete workflow run, executed

    Concrete requests that take a run from its start to the point where it can
    be accepted, with a stand-in hash and a [git] that answers for one commit.
    The theorems of [WorkflowProofs] are instantiated at it. *)

From stdpp Require Import base list gmap strings pretty.
From Stdlib Require Import ZArith Strings.Byte.
From S2P Require Import Prelude Clipboard WorkflowModel WorkflowStore WorkflowVerify WorkflowService.
Import SampleHash.

(** A store with no refusals to come. *)
Definition fresh_store (d : Db) (n : Z) : RunStore := mk_store d ∅ n [] [] (λ what, what).

Fixpoint exec_all (qs : list Request) (w : RunStore) : RunStore :=
  match qs with [] => w | q :: qs => exec_all qs (exec q w).2 end.

Definition demo_git (dir : string) (args : list string) : WorkflowError + string :=
  match args with
  | ["rev-parse"; "HEAD"] => inr "c1"
  | ["rev-parse"; "HEAD^{tree}"] => inr "t1"
  | "ls-remote" :: _ => inr "c1 refs/heads/backup"
  | _ => inr ""
  end.
Definition demo_env : Env := mk_env demo_git (λ _, true) (λ _, false) (λ _, None).
Definition demo_script : bytes := as_bytes "assert True".
Definition demo_files : list TestBundleFile := [mk_bundle_file "check.py" (sha256_hex demo_script)].
Definition demo_params : RecordTestParams :=
  mk_test_params "python3" "/checks/check.py"
    (bundle_manifest_digest ((λ f, (logical_path f, bf_digest f)) <$> demo_files))
    demo_files None "/scratch" 60.
Definition demo_execution : TestExecution :=
  mk_execution 0 false (mk_output (as_bytes "ok") false) (mk_output [] false).
Definition demo_policy : string :=
  match freeze ["python3"; "/checks/check.py"; "/scratch/test-run-u1-r0-cand1"] 60 with
  | inr p => policy_hash p
  | inl _ => ""
  end.
Definition demo_review (_ : bytes) : string + ReviewResult :=
  inr (mk_review 1 "cand1" "c1" "t1" ReviewStatus.Pass []).

Definition demo_run : list Request :=
  [RStart "u1" "plan" 2 "key";
   RAdvance demo_env "run-u1" 0 "worker" "turn_started" None;
   RAdvance demo_env "run-u1" 1 "worker" "turn_ended" None;
   RCandidate "run-u1" "cand1" 2;
   RCheckpoint demo_env "run-u1" (mk_checkpoint "cand1" "c1" "" "manifest" "/src" "none" None) 3;
   RAdvance demo_env "run-u1" 3 "host" "test_started" None;
   RTest demo_env (inr demo_script) (λ _ _ _, inr demo_execution) "run-u1" 4 demo_params;
   RAdvance demo_env "run-u1" 4 "host" "test_passed" None;
   RReview demo_review (FileLength 2, inr (as_bytes "{}")) "run-u1" 5 "/review.json" demo_policy;
   RAdvance demo_env "run-u1" 5 "host" "review_passed" None;
   RBackup demo_env "run-u1" 6 "origin" "refs/heads/backup"].
Definition demo_accept : Request :=
  RAdvance demo_env "run-u1" 6 "host" "verified_current" (Some demo_policy).
Definition demo_store : RunStore := exec_all demo_run (fresh_store empty_db 1).

(** The first candidate is backed up and fails its test; the second one, of another
    commit, is never backed up. *)
Definition late_git (dir : string) (args : list string) : WorkflowError + string :=
  match args with
  | ["rev-parse"; "HEAD"] => inr "c2"
  | ["rev-parse"; "HEAD^{tree}"] => inr "t2"
  | "ls-remote" :: _ => inr "c1 refs/heads/backup"
  | _ => inr ""
  end.
Definition late_env : Env := mk_env late_git (λ _, true) (λ _, false) (λ _, None).
Definition late_policy : string :=
  match freeze ["python3"; "/checks/check.py"; "/scratch/test-run-u1-r1-cand2"] 60 with
  | inr p => policy_hash p
  | inl _ => ""
  end.
Definition late_review (_ : bytes) : string + ReviewResult :=
  inr (mk_review 1 "cand2" "c2" "t2" ReviewStatus.Pass []).
Definition late_run : list Request :=
  [RStart "u1" "plan" 2 "key";
   RAdvance demo_env "run-u1" 0 "worker" "turn_started" None;
   RAdvance demo_env "run-u1" 1 "worker" "turn_ended" None;
   RCandidate "run-u1" "cand1" 2;
   RCheckpoint demo_env "run-u1" (mk_checkpoint "cand1" "c1" "" "manifest" "/src" "none" None) 3;
   RBackup demo_env "run-u1" 3 "origin" "refs/heads/backup";
   RAdvance demo_env "run-u1" 3 "host" "test_started" None;
   RAdvance demo_env "run-u1" 4 "host" "test_failed" None;
   RAdvance late_env "run-u1" 5 "worker" "turn_ended" None;
   RCandidate "run-u1" "cand2" 6;
   RCheckpoint late_env "run-u1" (mk_checkpoint "cand2" "c2" "" "manifest" "/src" "none" None) 7;
   RAdvance late_env "run-u1" 7 "host" "test_started" None;
   RTest late_env (inr demo_script) (λ _ _ _, inr demo_execution) "run-u1" 8 demo_params;
   RAdvance late_env "run-u1" 8 "host" "test_passed" None;
   RReview late_review (FileLength 2, inr (as_bytes "{}")) "run-u1" 9 "/review.json" late_policy;
   RAdvance late_env "run-u1" 9 "host" "review_passed" None;
   RAdvance late_env "run-u1" 10 "host" "verified_current" (Some late_policy)].
Definition late_store : RunStore := exec_all late_run (fresh_store empty_db 1).

(** The backup of an earlier candidate is enough for acceptance. *)
Example accepted_without_own_backup :
  status <$> runs (conn late_store) = ["accepted"] ∧
  candidate <$> runs (conn late_store) = [Some "cand2"] ∧
  (λ c, (commit_hash c, backup_state c)) <$> (snd <$> checkpoints (conn late_store))
  = [("c1", "done:refs/heads/backup"); ("c2", "none")].
Proof. vm_compute. done. Qed.
