(* ===== verification/WorkflowEpoch.v ===== *)
(** * Owner epochs fence stale processes

    Every opening of the store takes the next owner epoch; requests never touch
    it; so a process that opened the store earlier is refused. *)

From stdpp Require Import base list gmap strings pretty relations.
From Stdlib Require Import ZArith Lia Strings.Byte Strings.Ascii.
From S2P Require Import Prelude Digits Clipboard WorkflowModel WorkflowStore WorkflowVerify WorkflowService.
From S2P Require Import WorkflowLogic WorkflowDemo.

(** ** Fencing *)

(** Requests leave the meta table alone. *)
Definition same_meta (d d' : Db) : Prop := meta d' = meta d.
#[export] Instance same_meta_preorder : PreOrder same_meta.
Proof. split; [done|]. intros d1 d2 d3 H H'. unfold same_meta in *. congruence. Qed.

#[export] Instance same_meta_keeps : RunsKeep same_meta.
Proof.
  split; [split; [apply _|..]|..]; intros;
    unfold insert_command, set_command_state, command_run, store_session, append_event,
      ensure_effect, set_effect, record_evidence, discard_partial_evidence, store_checkpoint,
      create_run, apply_transition, version_conflict, run_exists, insert_event, insert_effect,
      txn_begin; always_auto; exact eq_refl.
Qed.

(** One request served on the tables, by a process of any epoch. *)
Definition served `{Sha256} (d d' : Db) : Prop :=
  ∃ q w, conn w = d ∧ conn (exec q w).2 = d'.

Lemma served_meta `{Sha256} d d' : rtc served d d' → meta d' = meta d.
Proof.
  induction 1 as [d|d d1 d2 (q & w & <- & <-) _ IH]; [done|].
  rewrite IH. exact (always_exec same_meta q (conn w) w eq_refl).
Qed.

Lemma map_err_inr {E E' A} (f : E → E') (m : M E A) w a w' :
  map_err f m w = (inr a, w') → m w = (inr a, w').
Proof. unfold map_err. destruct (m w) as [[e|x] w1]; intros H; by simplify_eq. Qed.

Lemma bind_inr {E A B} (m : M E A) (k : A → M E B) w b w' :
  (m ≫= k) w = (inr b, w') → ∃ a w1, m w = (inr a, w1) ∧ k a w1 = (inr b, w').
Proof. unfold mbind, M_bind. destruct (m w) as [[e|a] w1]; [done|]. eauto. Qed.

Lemma fallible_inr msg w u w' : fallible msg w = (inr u, w') → conn w' = conn w.
Proof. unfold fallible. destruct (faults w) as [|[]]; intros ?; by simplify_eq/=. Qed.

Lemma refuse_inr {E} c (e : E) w u w' : refuse c e w = (inr u, w') → c = false ∧ w' = w.
Proof. destruct c; [done|]. by intros [= _ ->]. Qed.

Lemma add64_range a b : is_u64 (add64 a b).
Proof.
  unfold add64, wrap64, in_range, U64_MAX.
  pose proof (Z.mod_pos_bound (a + b) 18446744073709551616). lia.
Qed.

(** Take a successful computation apart. *)
Ltac invert_run :=
  repeat match goal with
  | H : (_ ≫= _) _ = (inr _, _) |- _ => apply bind_inr in H as (? & ? & ? & ?)
  | H : lift _ _ = (inr _, _) |- _ => apply map_err_inr in H
  | H : fallible _ _ = (inr _, _) |- _ => apply fallible_inr in H
  | H : refuse _ _ _ = (inr _, _) |- _ => apply refuse_inr in H as [? ?]; subst
  | H : mret _ _ = (inr _, _) |- _ => injection H as ? ?; subst
  | H : gets _ _ = (inr _, _) |- _ => injection H as ? ?; subst
  | H : update _ _ = (inr _, _) |- _ => injection H as ?; subst
  | H : modify _ _ = (inr _, _) |- _ => injection H as ?; subst
  | H : from_sum _ _ = (inr _, _) |- _ => injection H as ? ?; subst
  end.

(** What opening the store does to the epoch. *)
Lemma open_epoch parent utf8 w w' :
  open parent utf8 w = (inr (), w') →
  ∃ n, parse_u64 (default "0" (meta (conn w) !! "owner_epoch")) = inr n ∧
       epoch w' = add64 n 1 ∧
       meta (conn w') !! "owner_epoch" = Some (pretty (epoch w')).
Proof.
  unfold open, initialize_schema, bump_owner_epoch, meta_get, meta_put, query_one.
  intros Hw. invert_run.
  assert (conn x2 = conn x0) as Hdir by (destruct parent; invert_run; congruence).
  exists x13. cbn. rewrite lookup_insert_eq. split; [|done].
  assert (meta (conn x14) !! "owner_epoch" = meta (conn w) !! "owner_epoch") as Hm.
  { rewrite H10, H4. cbn. rewrite lookup_insert_ne by done. congruence. }
  rewrite Hm in H5. by destruct (parse_u64 _); simplify_eq.
Qed.

(** C21: Each opening of the store takes the owner epoch after the one of the
    opening before it, however many requests were served in between and whatever
    failed in them; and the process that opened it last refuses every observation that
    carries the epoch of the opening before, with a stale-epoch error and without a
    change.  (A process compares the epoch of a caller with the one it took itself:
    an earlier process that is still running refuses nothing, as
    [old_owner_not_fenced] shows.) *)
Theorem owner_epoch_fences `{Sha256} parent utf8 parent' utf8' w w1 w2 w3 :
  open parent utf8 w = (inr (), w1) → rtc served (conn w1) (conn w2) →
  open parent' utf8' w2 = (inr (), w3) → epoch w1 < U64_MAX →
  epoch w3 = epoch w1 + 1 ∧
  ∀ id v actor obs, ∃ msg,
    submit_observation id v (epoch w1) actor obs w3 = (inl (stale_epoch msg), w3).
Proof.
  intros (n & Hn & He & Hm)%open_epoch Hs%served_meta (n' & Hn' & He' & _)%open_epoch Hlt.
  rewrite Hs, Hm in Hn'. cbn in Hn'.
  assert (is_u64 (epoch w1)) as Hr by (rewrite He; apply add64_range).
  rewrite parse_u64_pretty in Hn' by done. injection Hn' as <-.
  assert (epoch w3 = epoch w1 + 1) as Heq.
  { rewrite He'. unfold add64, wrap64. rewrite Z.mod_small; [done|]. range_lia. }
  split; [done|]. intros id v actor obs. eexists.
  unfold submit_observation, mbind, M_bind. cbn [asks].
  by rewrite (proj2 (Z.eqb_neq (epoch w1) (epoch w3))) by lia.
Qed.

Section epoch_witness.
Import SampleHash.

Definition opened_once : RunStore := (open true true (fresh_store empty_db 0)).2.
Definition opened_twice : RunStore :=
  (open true true (exec (RStart "u1" "plan" 2 "key") opened_once).2).2.

Lemma owner_epoch_fences_witness :
  epoch opened_once = 1 ∧ epoch opened_twice = 2 ∧
  ∃ msg, submit_observation "run-u1" 0 1 Actor.Host Observation.TurnStarted opened_twice
         = (inl (stale_epoch msg), opened_twice).
Proof.
  assert (open true true (fresh_store empty_db 0) = (inr (), opened_once)) as H1
    by (vm_compute; reflexivity).
  assert (open true true (exec (RStart "u1" "plan" 2 "key") opened_once).2
          = (inr (), opened_twice)) as H2 by (vm_compute; reflexivity).
  destruct (owner_epoch_fences _ _ _ _ _ _ _ _ H1
              (rtc_once _ _ (ex_intro _ _ (ex_intro _ _ (conj eq_refl eq_refl)))) H2
              ltac:(vm_compute; reflexivity)) as [_ Hf].
  split; [vm_compute; reflexivity|]. split; [vm_compute; reflexivity|].
  exact (Hf "run-u1" 0 Actor.Host Observation.TurnStarted).
Defined.

(** The first process, with the tables the second one has opened since: its own
    observation is carried out, although the epoch of the tables is past its own. *)
Definition old_owner : RunStore :=
  mk_store (conn opened_twice) ∅ (epoch opened_once) [] [] (λ what, what).
Example old_owner_not_fenced :
  meta (conn old_owner) !! "owner_epoch" = Some "2" ∧ epoch old_owner = 1 ∧
  stage <$> runs (conn old_owner) = ["prepare"] ∧
  stage <$> runs (conn (exec (RAdvance demo_env "run-u1" 0 "host" "turn_started" None) old_owner).2)
  = ["implement"].
Proof. vm_compute. done. Qed.
End epoch_witness.
