(* ===== verification/WorkflowProofs.v ===== *)
(** * What the workflow service guarantees

    The protocol refinement, the soundness of acceptance, the invariant of every
    reachable database, idempotent starts, optimistic concurrency, recovery, and
    the behaviours of the resolution and cancellation paths that differ from
    their design. *)

From stdpp Require Import base list gmap strings pretty relations.
From Stdlib Require Import ZArith Lia.
From S2P Require Import Prelude Clipboard WorkflowModel WorkflowStore WorkflowVerify WorkflowService.
From S2P Require Import WorkflowLogic WorkflowRuns WorkflowInvariant WorkflowDemo.

(** ** Refinement *)

Lemma moves_mono (acc acc' : string → Prop) rs rs' :
  (∀ id, acc id → acc' id) → moves acc rs rs' → moves acc' rs rs'.
Proof.
  intros Ha [Hl H]. split; [done|]. intros i r' Hr'. specialize (H i r' Hr').
  assert (∀ id m a b, rtc (astep (acc id) m) a b → rtc (astep (acc' id) m) a b) as Hm.
  { intros id m a b Hs. eapply (rtc_congruence (λ x, x)); [|exact Hs].
    intros x y. apply astep_mono, Ha. }
  destruct (rs !! i).
  - destruct H as [Hi (a & a' & Hab & Hab' & Hs)]. split; [done|]. exists a, a'. eauto.
  - destruct H as (a & Hab & Hs). exists a. eauto.
Qed.

(** C1: Every request of the workflow service, whatever the database refuses on
    the way, refines the run protocol: each run of the table keeps its identity
    and moves by a sequence of protocol steps (its version counts them), a row
    added is a run started in the initial state, and the table stays
    well-formed: unique ids and keys, parsable states, rounds within the repair
    budget, at most one run that is not finished. *)
Theorem service_refines_protocol `{Sha256} (q : Request) (w : RunStore) :
  runs_ok (runs (conn w)) →
  let d' := conn (exec q w).2 in
  runs_ok (runs d') ∧ moves (λ _, True) (runs (conn w)) (runs d').
Proof.
  intros Hok. destruct (exec_evolves q (conn w) w eq_refl Hok) as [Hok' Hm].
  split; [done|]. by eapply moves_mono.
Qed.

Lemma rtc_astep_version acc max a b :
  rtc (astep acc max) a b →
  a_version a ≤ a_version b ∧ (a_version a = a_version b → a = b).
Proof.
  induction 1 as [a|a b c Hs _ [IH1 IH2]]; [by split|].
  apply astep_version in Hs. split; [lia|]. lia.
Qed.

(** ** Acceptance *)

Lemma astep_accepts acc max a b :
  astep acc max a b → a_status a ≠ RunStatus.Accepted → a_status b = RunStatus.Accepted → acc.
Proof.
  destruct 1 as [g o actor next Hadv Hno| | | | |]; cbn; try done. intros Ha Hb.
  unfold advance in Hadv. cbn in Hadv.
  destruct o; repeat split_match_in Hadv; simplify_eq/=; tauto.
Qed.

Lemma rtc_astep_accepts acc max a b :
  rtc (astep acc max) a b →
  a_status a ≠ RunStatus.Accepted → a_status b = RunStatus.Accepted → acc.
Proof.
  induction 1 as [a|a b c Hs _ IH]; [done|]. intros Ha Hc.
  destruct (decide (a_status b = RunStatus.Accepted)) as [E|E];
    [by eapply astep_accepts|by apply IH].
Qed.

Lemma find_run_lookup d id r :
  find_run id d = Some r → ∃ i, runs d !! i = Some r ∧ run_id r = id.
Proof.
  intros [Hr Hid]%find_run_Some. apply list_elem_of_lookup in Hr as [i Hi]. eauto.
Qed.

(** The row of a run before and after a request. *)
Lemma moves_find acc d d' id r r' :
  runs_ok (runs d') → moves acc (runs d) (runs d') →
  find_run id d = Some r → find_run id d' = Some r' → run_moves acc r r'.
Proof.
  intros Hok [Hl Hm] (i & Hi & Hid)%find_run_lookup (j & Hj & Hid')%find_run_lookup.
  destruct (lookup_lt_is_Some_2 (runs d') i) as [ri Hri].
  { apply lookup_lt_Some in Hi. lia. }
  pose proof (Hm i ri Hri) as H. rewrite Hi in H.
  enough (ri = r') as <- by done.
  assert (run_id ri = run_id r) by (destruct H as [[= Hx _ _ _] _]; done).
  eapply run_unique; [apply Hok|by eapply list_elem_of_lookup_2..|congruence].
Qed.

(** C2: A run becomes accepted only through [advance_run] by the host with
    [verified_current], through [accept_run], or through [submit_observation] of that
    observation by the host; the last two are inherent methods that the backend
    interface does not expose.  With the first two, the request is at the run's current
    version, the run is active at the decide stage, and the tables hold, for its
    current candidate: a checkpoint whose local source is clean and at the recorded
    commit, exactly one test verdict and one review verdict, both passing and both
    under the expected policy.  The run (not necessarily its current candidate) has a
    finished backup, and none of its commands is of uncertain delivery. *)
Theorem acceptance_sound `{Sha256} (q : Request) (w : RunStore) (id : string) (r r' : StoredRun) :
  runs_ok (runs (conn w)) →
  find_run id (conn w) = Some r → find_run id (conn (exec q w).2) = Some r' →
  status r ≠ "accepted" → status r' = "accepted" →
  match q with
  | RAdvance env id' v actor obs pol =>
      id' = id ∧ actor = "host" ∧ obs = "verified_current" ∧
      acceptable_now env id (default "" pol) v (conn w)
  | RObserve id' _ _ actor obs =>
      id' = id ∧ actor = Actor.Host ∧ obs = Observation.VerifiedCurrent
  | RAccept env id' v pol => id' = id ∧ acceptable_now env id pol v (conn w)
  | _ => False
  end.
Proof.
  intros Hok Hr Hr' Hn Hacc. change (accepts q (conn w) id).
  destruct (exec_evolves q (conn w) w eq_refl Hok) as [Hok' Hm].
  destruct (moves_find _ _ _ _ _ _ Hok' Hm Hr Hr') as [_ (a & a' & Ha & Ha' & Hs)].
  apply abs_Some in Ha as (Hst & _ & _), Ha' as (Hst' & _ & _).
  apply find_run_Some in Hr as [_ Hid]. rewrite Hid in Hs.
  eapply rtc_astep_accepts; [exact Hs|..].
  - intros E. rewrite E in Hst. by apply RunStatus.parse_Some in Hst.
  - apply RunStatus.parse_Some in Hst'. rewrite Hacc in Hst'. by destruct (a_status a').
Qed.

(** ** The invariant of every reachable database *)

(** A database some service process has worked on: each request may meet a new
    owner epoch, clock, artifact directory and pattern of refusals, and between
    requests a process may open the store. *)
Inductive reachable `{Sha256} : Db → Prop :=
| reach_empty m : reachable (set_meta m empty_db)
| reach_exec q w : reachable (conn w) → reachable (conn (exec q w).2)
| reach_open parent utf8 w : reachable (conn w) → reachable (conn (open parent utf8 w).2).

(** [open] writes only the meta table. *)
Definition only_meta (d d' : Db) : Prop := ∃ m, d' = set_meta m d.
#[export] Instance only_meta_preorder : PreOrder only_meta.
Proof.
  split; [intros d; exists (meta d); by destruct d|].
  intros d1 d2 d3 [m ->] [m' ->]. by exists m'.
Qed.

Lemma open_only_meta parent utf8 : always (open parent utf8) only_meta.
Proof.
  unfold open, bump_owner_epoch, initialize_schema, meta_get, meta_put.
  always_auto; [by eexists..|]. intros d w <-. cbn. reflexivity.
Qed.

Lemma reachable_ok `{Sha256} (d : Db) : reachable d → db_ok d.
Proof.
  induction 1 as [m|q w _ IH|parent utf8 w _ IH].
  - apply db_ok_empty.
  - by apply exec_db_ok.
  - destruct (open_only_meta parent utf8 (conn w) w eq_refl) as [m ->].
    destruct IH as [Hr []]. split; [done|by split].
Qed.

(** C20: In every database the service can produce, by any sequence of requests
    and reopenings and under every pattern of failures: run ids and idempotency
    keys are unique, at most one run is unfinished, every run's state parses and
    its round is within its repair budget; command ids, effect operation ids,
    verdicts per candidate and kind and checkpoints per candidate are unique; and
    the events of each run are numbered 0, 1, 2, ... without gap or repetition. *)
Theorem reachable_db_ok `{Sha256} (d : Db) : reachable d → db_ok d.
Proof. apply reachable_ok. Qed.

Section demo_witnesses.
Import SampleHash.

Lemma demo_reachable qs : reachable (conn (exec_all qs (fresh_store empty_db 1))).
Proof.
  assert (∀ w, reachable (conn w) → reachable (conn (exec_all qs w))) as Hall.
  { induction qs as [|q qs IH]; intros w Hw; [done|]. cbn. by apply IH, reach_exec. }
  apply Hall. apply (reach_empty ∅).
Qed.

Lemma reachable_db_ok_witness :
  db_ok (conn demo_store) ∧ length (events (conn demo_store)) = 12%nat.
Proof.
  split; [|vm_compute; reflexivity]. apply reachable_db_ok, demo_reachable.
Defined.

Lemma service_refines_protocol_witness :
  runs_ok (runs (conn demo_store)) ∧
  runs_ok (runs (conn (exec demo_accept demo_store).2)) ∧
  status <$> runs (conn (exec demo_accept demo_store).2) = ["accepted"].
Proof.
  assert (runs_ok (runs (conn demo_store))) as Hok.
  { apply reachable_ok, demo_reachable. }
  split; [exact Hok|]. split; [|vm_compute; reflexivity].
  exact (proj1 (service_refines_protocol demo_accept demo_store Hok)).
Defined.

Lemma acceptance_sound_witness :
  acceptable_now demo_env "run-u1" demo_policy 6 (conn demo_store).
Proof.
  assert (runs_ok (runs (conn demo_store))) as Hok by apply reachable_ok, demo_reachable.
  destruct (find_run "run-u1" (conn demo_store)) as [r|] eqn:Hr; [|by vm_compute in Hr].
  destruct (find_run "run-u1" (conn (exec demo_accept demo_store).2)) as [r'|] eqn:Hr';
    [|by vm_compute in Hr'].
  assert (status r ≠ "accepted") as Hn by (by vm_compute in Hr; injection Hr as <-).
  assert (status r' = "accepted") as Ha by (by vm_compute in Hr'; injection Hr' as <-).
  exact (proj2 (proj2 (proj2
    (acceptance_sound demo_accept demo_store "run-u1" r r' Hok Hr Hr' Hn Ha)))).
Defined.
End demo_witnesses.

(** ** Starting a run twice *)

Lemma query_one_calm {A} q r (f : Db → A) w :
  faults w = [] → query_one q r f w = (inr (f (conn w)), w).
Proof.
  intros Hf. unfold query_one, fallible, mbind, M_bind. by rewrite Hf; cbn; rewrite Hf.
Qed.

(** Starting a run under an idempotency key that is already recorded never
    touches the database, whatever fails; when the database answers, the result
    is the summary of the run recorded under that key, whatever plan and budget
    the repeated request names. *)
Theorem start_run_idempotent uuid plan max key w r :
  find_run_by_key key (conn w) = Some r → is_blank key = false → is_blank plan = false →
  conn (start_run uuid plan max key w).2 = conn w ∧
  (∀ s, (start_run uuid plan max key w).1 = inr s → summarize r = inr s) ∧
  (faults w = [] → start_run uuid plan max key w = (summarize r, w)).
Proof.
  intros Hr Hk Hp.
  assert (triple (conn w) (start_run uuid plan max key)
            (λ res d', d' = conn w ∧ ∀ s, res = inr s → summarize r = inr s)) as Ht.
  { unfold start_run. rewrite Hk, Hp. cbn [orb refuse]. apply triple_bind, triple_ret.
    eapply triple_reads; [apply load_run_by_key_reads|by intros|]. rewrite Hr.
    by apply triple_from_sum. }
  destruct (Ht w eq_refl) as [Hc Hs]. split; [done|]. split; [done|]. intros Hf.
  unfold start_run, load_run_by_key, lift, map_err, mbind, M_bind. rewrite Hk, Hp. cbn.
  by rewrite query_one_calm, Hr.
Qed.

(** ** Optimistic concurrency *)

Definition refused {A} (d : Db) (res : WorkflowError + A) (d' : Db) : Prop :=
  (∃ e, res = inl e) ∧ d' = d.

(** The run and version a request was computed against. *)
Definition expected_of (q : Request) : option (string * Z) :=
  match q with
  | RSession s v => Some (sa_run_id s, v)
  | RCandidate id _ v | RCheckpoint _ id _ v | RTest _ _ _ id v _ | RReview _ _ id v _ _
  | RBackup _ id v _ _ | RAdvance _ id v _ _ _ | RObserve id v _ _ _
  | RAccept _ id v _ => Some (id, v)
  | _ => None
  end.

Section stale.
Context `{Sha256} (d : Db) (id : string) (v : Z) (r : StoredRun).
Context (Hok : runs_ok (runs d)) (Hr : find_run id d = Some r) (Hv : version r ≠ v).

Lemma refused_inl {A} (e : WorkflowError) : refused (A := A) d (inl e) d.
Proof. split; [by exists e|done]. Qed.
Hint Resolve refused_inl : core.

Lemma versioned_refused {A} (k : StoredRun → M WorkflowError A) :
  triple d (r ← require_run id; _ ← check_expected_version r id v; k r) (refused d).
Proof.
  apply require_run_triple; [auto|]. intros r' Hr'. assert (r' = r) as -> by congruence.
  apply triple_bind, triple_refuse; [auto|]. intros Hc. bool_to_prop. lia.
Qed.

Lemma no_match t : t_run_id t = id → t_expected_version t = v →
  existsb (matches_version t) (runs d) = false.
Proof.
  intros Hid He. apply not_true_is_false. intros Hx.
  apply existsb_exists in Hx as (r' & Hin%list_elem_of_In & Hm).
  unfold matches_version, str_eqb in Hm. bool_to_prop.
  apply find_run_Some in Hr as [Hin' Hid'].
  assert (r' = r) as -> by (eapply run_unique; [apply Hok|done|done|congruence]). lia.
Qed.

Lemma apply_transition_refused t :
  t_run_id t = id → t_expected_version t = v → triple d (apply_transition t) (refused d).
Proof.
  intros Hid He. unfold apply_transition. apply triple_bind, triple_now. intros now.
  apply triple_bind, triple_lift, triple_fallible; [auto|].
  apply triple_map_err, triple_txn_end.
  apply triple_bind, triple_fallible; [auto|].
  apply triple_bind, triple_gets. rewrite no_match by done.
  apply triple_bind, triple_asks. intros n. apply triple_bind, triple_update.
  apply triple_bind. cbn [negb]. unfold version_conflict, run_exists.
  do 2 apply triple_bind. eapply triple_mono; [|apply query_one_reads].
  intros [e|b] d' _; [auto|]. destruct b; apply triple_ret, triple_fail; auto.
Qed.

Lemma submit_refused ep actor obs : triple d (submit_observation id v ep actor obs) (refused d).
Proof.
  unfold submit_observation. apply triple_bind, triple_asks. intros owner.
  apply triple_bind, triple_refuse; [auto|]. intros _.
  apply require_run_triple; [auto|]. intros r' Hr'.
  apply triple_bind, triple_from_sum. destruct (view_of r') as [|view]; [auto|].
  apply triple_bind, triple_from_sum. destruct (advance _ _ _ _); [auto|].
  apply triple_bind. eapply triple_mono; [|by apply apply_transition_refused].
  intros res d' [[e ->] ->]. auto.
Qed.

Lemma expected_refused q : expected_of q = Some (id, v) → triple d (exec q) (refused d).
Proof.
  assert (∀ A (m : M WorkflowError A),
            triple d m (refused d) → triple d (void m) (refused d)) as Hvoid.
  { intros A m Hm. unfold void. apply triple_bind. eapply triple_mono, Hm.
    intros res d' [[e ->] ->]. auto. }
  destruct q; cbn [expected_of exec]; intros [= Hq1 Hq2]; apply Hvoid;
    unfold record_session; cbv zeta; rewrite Hq1, Hq2; try apply versioned_refused.
  - unfold record_candidate. apply triple_bind, triple_refuse; [auto|]. intros _.
    apply versioned_refused.
  - unfold record_backup. apply triple_bind, triple_refuse; [auto|]. intros _.
    apply versioned_refused.
  - unfold advance_run. apply triple_bind, triple_ok_or; [auto|]. intros a _.
    apply triple_bind, triple_ok_or; [auto|]. intros o _. destruct (bool_decide _).
    + do 2 (apply triple_bind, triple_refuse; [auto|]; intros _). apply versioned_refused.
    + apply triple_bind, triple_asks. intros n. apply submit_refused.
  - apply submit_refused.
Qed.
End stale.

(** C27: A request computed against an outdated version of its run is refused and
    leaves the database exactly as it was. *)
Theorem stale_request_refused `{Sha256} (q : Request) (w : RunStore) id v r :
  runs_ok (runs (conn w)) → expected_of q = Some (id, v) →
  find_run id (conn w) = Some r → version r ≠ v →
  (∃ e, (exec q w).1 = inl e) ∧ conn (exec q w).2 = conn w.
Proof.
  intros Hok Hq Hr Hv. by apply (expected_refused (conn w) id v r Hok Hr Hv q Hq w).
Qed.

(** ** Recovery *)

(** The commands table is left alone. *)
Definition same_commands (d d' : Db) : Prop := commands d' = commands d.
#[export] Instance same_commands_preorder : PreOrder same_commands.
Proof. split; [done|]. intros d1 d2 d3 H H'. unfold same_commands in *. congruence. Qed.

Lemma append_event_commands id a k r : always (append_event id a k r) same_commands.
Proof. unfold append_event, insert_event. always_auto. exact eq_refl. Qed.
Lemma set_effect_commands id op st i p : always (set_effect id op st i p) same_commands.
Proof. unfold set_effect, insert_event, txn_begin. always_auto; exact eq_refl. Qed.
Lemma apply_transition_commands t : always (apply_transition t) same_commands.
Proof.
  unfold apply_transition, version_conflict, run_exists, insert_event, insert_effect, txn_begin.
  always_auto; exact eq_refl.
Qed.
Lemma discard_commands id c : always (discard_partial_evidence id c) same_commands.
Proof. unfold discard_partial_evidence. always_auto; exact eq_refl. Qed.

(** A run that is not active stays so and the commands are left alone: what
    every later stage of recovery guarantees. *)
Definition not_active (id : string) (d : Db) : Prop :=
  ∀ r, find_run id d = Some r → status r ≠ "active".
Definition settled (id : string) (d d' : Db) : Prop :=
  commands d' = commands d ∧ (runs d' = runs d ∨ not_active id d').
#[export] Instance settled_preorder id : PreOrder (settled id).
Proof.
  split; [by split; auto|].
  intros d1 d2 d3 [Hc [Hr|Hn]] [Hc' [Hr'|Hn']]; (split; [congruence|]); auto.
  - left. congruence.
  - right. intros r. unfold find_run. rewrite Hr'. apply Hn.
Qed.

Lemma settled_same {E A} id (m : M E A) :
  always m same_runs → always m same_commands → always m (settled id).
Proof. intros Hr Hc d w Hw. split; [by apply Hc|left; by apply Hr]. Qed.

Lemma snd_prod_map_S {A} (o : option (nat * A)) : snd <$> (prod_map S id <$> o) = snd <$> o.
Proof. by destruct o as [[]|]. Qed.

Lemma find_run_update d d' id g :
  (∀ x, run_id (g x) = run_id x) → runs d' = g <$> runs d →
  find_run id d' = g <$> find_run id d.
Proof.
  intros Hg Hr. unfold find_run. rewrite Hr. clear Hr.
  induction (runs d) as [|x rs IH]; [done|]. cbn.
  destruct (decide (run_id (g x) = id)) as [E|E]; rewrite Hg in E.
  - by rewrite decide_True.
  - rewrite decide_False by done. rewrite !snd_prod_map_S. exact IH.
Qed.

Lemma transition_not_active id t n d d' r :
  t_run_id t = id → t_status t ≠ RunStatus.Active →
  find_run id d = Some r → version r = t_expected_version t →
  runs d' = update_where (matches_version t) (transitioned t n) (runs d) → not_active id d'.
Proof.
  intros Hid Hst Hr Hv Hn r' Hr'.
  set (g := λ x, if matches_version t x then transitioned t n x else x).
  rewrite (find_run_update d d' id g), Hr in Hr'; [|intros x; unfold g; by split_match|exact Hn].
  apply find_run_Some in Hr as [_ Hid']. cbn in Hr'. unfold g, matches_version, str_eqb in Hr'.
  rewrite bool_decide_true, Hv, Z.eqb_refl in Hr' by congruence. cbn in Hr'.
  injection Hr' as <-. cbn. by destruct (t_status t).
Qed.

Lemma escalate_settles id kind : always (escalate_to_operator id kind) (settled id).
Proof.
  assert (always (append_event id "host" kind None) (settled id)) as Hev.
  { apply settled_same; [apply keeps_append_event|apply append_event_commands]. }
  intros d. unfold escalate_to_operator, apply, parse_status, parse_stage.
  apply require_run_triple; [intros; reflexivity|]. intros r Hr.
  destruct (str_eqb _ _); [apply Hev|].
  apply triple_bind, triple_ok_or; [reflexivity|]. intros st _.
  destruct (_ || _); [apply Hev|].
  apply triple_bind, triple_ok_or; [reflexivity|]. intros sg _.
  intros w Hw. split; [by apply apply_transition_commands|].
  match goal with |- context [apply_transition ?t] =>
    destruct (apply_transition_runs t d w Hw) as [|[n Hn]]; [by left|right] end.
  by apply (transition_not_active id _ n d _ r) in Hn;
    [|apply find_run_Some in Hr as [_ <-]| | |].
Qed.

(** After a successful escalation the run is not active. *)
Lemma escalate_not_active id kind d :
  triple d (escalate_to_operator id kind)
    (λ res d', ∀ u, res = inr u → not_active id d').
Proof.
  assert (∀ r, find_run id d = Some r → status r ≠ "active" →
    triple d (append_event id "host" kind None) (λ res d', ∀ u, res = inr u → not_active id d'))
    as Hev.
  { intros r Hr Hn. eapply triple_mono; [|apply (keeps_append_event (R := same_runs))].
    intros res d' Hs u _ r' Hr'. rewrite (find_run_same _ _ _ Hs) in Hr'. by simplify_eq. }
  unfold escalate_to_operator, apply, parse_status, parse_stage.
  apply require_run_triple; [done|]. intros r Hr. specialize (Hev r Hr).
  destruct (str_eqb _ _) eqn:Hs; [unfold str_eqb in Hs; bool_to_prop|].
  { apply Hev. by rewrite Hs. }
  apply triple_bind, triple_ok_or; [done|]. intros st Hst%RunStatus.parse_Some.
  destruct (_ || _) eqn:Ht.
  { apply Hev. rewrite Hst. by destruct st. }
  apply triple_bind, triple_ok_or; [done|]. intros sg _.
  eapply triple_mono, apply_transition_outcome. intros [e|u] d' Hd u' [= ->].
  destruct Hd as [n Hn].
  by apply (transition_not_active id _ n d _ r) in Hn;
    [|apply find_run_Some in Hr as [_ <-]| | |].
Qed.

(** The interrupted dispatches are marked, whatever their number. *)
Lemma set_command_state_outcome id st rc rs d :
  triple d (set_command_state id st rc rs) (λ res d', match res with
    | inl _ => d' = d
    | inr _ => commands d' = update_where (λ c, str_eqb (command_id c) id)
                               (with_command_state st rc rs) (commands d)
    end).
Proof.
  unfold set_command_state.
  apply triple_bind, triple_now. intros now.
  apply triple_bind, triple_lift, triple_fallible; [auto|].
  apply triple_map_err, triple_txn_end.
  apply triple_bind, triple_fallible; [auto|].
  apply triple_bind, triple_gets. apply triple_bind, triple_update.
  set (d1 := set_commands _ d).
  eapply (triple_mono _ _ (λ _ d', same_commands d1 d')).
  { by intros [e|[]] d' Hd. }
  match goal with |- triple _ ?m _ => assert (always m same_commands) as Hm; [|apply Hm] end.
  unfold command_run, insert_event. always_auto; exact eq_refl.
Qed.

Lemma in_state_Some id st d c :
  c ∈ in_state id st d ↔ c ∈ commands d ∧ c_run_id c = id ∧ c_state c = CommandState.as_str st.
Proof. unfold in_state. rewrite list_elem_of_filter. tauto. Qed.

(** The mark that recovery leaves on an interrupted command. *)
Definition interrupted : StoredCommand → StoredCommand :=
  with_command_state CommandState.DeliveryUnknown None
    (Some "recovered: dispatch interrupted before receipt").
(** The commands table with the marks on the commands of these names. *)
Definition marked (ids : list string) (d : Db) : list StoredCommand :=
  (λ c, if bool_decide (command_id c ∈ ids) then interrupted c else c) <$> commands d.

Lemma mark_dispatching (l : list StoredCommand) d :
  triple d (for_each (λ c,
    _ ← set_command_state (command_id c) CommandState.DeliveryUnknown None
          (Some "recovered: dispatch interrupted before receipt");
    mret ["command " +:+ command_id c +:+ " is delivery_unknown; automatic input blocked"]) l)
    (λ res d', ∀ acts, res = inr acts → commands d' = marked (command_id <$> l) d).
Proof.
  revert d. induction l as [|c0 l IH]; intros d; cbn [for_each].
  { apply triple_ret. intros acts _. unfold marked. cbn.
    rewrite <-(list_fmap_id (commands d)) at 1. apply list_fmap_ext. done. }
  apply triple_bind, triple_bind. eapply triple_mono, set_command_state_outcome.
  intros [e|u] d1 Hd1; [done|]. apply triple_ret, triple_bind.
  eapply triple_mono, IH. intros [e|acts1] d2 H2; [done|].
  apply triple_ret. intros acts _. rewrite (H2 acts1 eq_refl). unfold marked. rewrite Hd1.
  unfold update_where. rewrite <-list_fmap_compose. apply list_fmap_ext. intros i c _.
  unfold compose, str_eqb. rewrite fmap_cons. change (with_command_state _ _ _ c) with (interrupted c).
  repeat case_bool_decide; rewrite ?elem_of_cons in *; try tauto; done.
Qed.

Lemma marked_dispatching id d d' :
  commands d' = marked (command_id <$> in_state id CommandState.Dispatching d) d →
  in_state id CommandState.Dispatching d' = [].
Proof.
  intros Hc. apply elem_of_nil_inv. intros c (Hin & Hid & Hst)%in_state_Some.
  rewrite Hc in Hin. apply list_elem_of_fmap in Hin as (c' & -> & Hin).
  case_bool_decide as Hm; [by destruct c'|]. apply Hm, list_elem_of_fmap_2, in_state_Some. done.
Qed.

Lemma triple_and {E A} d (m : M E A) (Q Q' : E + A → Db → Prop) :
  triple d m Q → triple d m Q' → triple d m (λ r d', Q r d' ∧ Q' r d').
Proof. intros H H' w Hw. split; auto. Qed.

(** What recovery from [d0] establishes about the deliveries of a run. *)
Definition deliveries_settled (id : string) (d0 d : Db) : Prop :=
  commands d = marked (command_id <$> in_state id CommandState.Dispatching d0) d0 ∧
  (in_state id CommandState.DeliveryUnknown d = [] ∨ not_active id d).

Lemma deliveries_settled_mono id d0 d d' :
  settled id d d' → deliveries_settled id d0 d → deliveries_settled id d0 d'.
Proof.
  unfold deliveries_settled, in_state. intros [-> Hr] [H1 H2]. split; [done|].
  destruct H2 as [H2|H2]; [by left|right]. destruct Hr as [Hr|]; [|done].
  intros r. rewrite (find_run_same _ _ _ Hr). apply H2.
Qed.

Lemma recover_commands_settles id d :
  triple d (recover_commands id) (λ res d', ∀ acts, res = inr acts → deliveries_settled id d d').
Proof.
  unfold recover_commands. eapply triple_reads; [apply commands_in_state_reads|done|].
  apply triple_bind. eapply triple_mono, mark_dispatching.
  intros [e|acts] d1 Hd1; [done|]. specialize (Hd1 acts eq_refl).
  eapply triple_reads; [apply commands_in_state_reads|done|]. case_bool_decide as Hlen.
  { apply triple_ret. intros _ _. split; [done|left]. by apply nil_length_inv. }
  apply triple_bind. eapply triple_mono.
  2: { apply triple_and; [apply escalate_not_active|apply escalate_settles]. }
  intros [e|u] d2 [Hn Hs]; [done|]. apply triple_ret. intros _ _.
  split; [|right; by apply (Hn u)]. by rewrite (proj1 Hs).
Qed.

Lemma recover_tail_settles `{Sha256} id inv :
  always (recover_effects id inv) (settled id) ∧ always (recover_sessions id inv) (settled id)
  ∧ always (recover_artifacts id) (settled id).
Proof.
  assert (∀ a k r, always (append_event id a k r) (settled id)) as Hev.
  { intros. apply settled_same; [apply keeps_append_event|apply append_event_commands]. }
  assert (∀ op st i p, always (set_effect id op st i p) (settled id)) as Hef.
  { intros. apply settled_same; [apply keeps_set_effect|apply set_effect_commands]. }
  unfold recover_effects, recover_effect, recover_launch, recover_backup, recover_sessions,
    recover_session, recover_artifacts, recover_artifact, verify_artifact. cbv zeta.
  split; [|split];
    repeat first [apply Hev | apply Hef | apply escalate_settles | always_step
                 | lazymatch goal with
                   | |- always ?m _ => eapply (always_reads _ m); solve [eauto 2 with reads]
                   end].
Qed.


(** ** Resolved deliveries stay uncertain *)

Definition has_unknown (id : string) (d : Db) : Prop :=
  ∃ c, c ∈ in_state id CommandState.DeliveryUnknown d.

Lemma store_checkpoint_commands id ck : always (store_checkpoint id ck) same_commands.
Proof. unfold store_checkpoint. always_auto. exact eq_refl. Qed.

(** One step of a computation that leaves the commands alone. *)
Ltac commands_step :=
  lazymatch goal with
  | |- always (apply_transition _) _ => apply apply_transition_commands
  | |- always (append_event _ _ _ _) _ => apply append_event_commands
  | |- always (store_checkpoint _ _) _ => apply store_checkpoint_commands
  | |- _ => first
      [ always_step
      | lazymatch goal with
        | |- always ?m _ => eapply (always_reads _ m); solve [eauto 2 with reads]
        end ]
  end.

Lemma same_commands_unknown id d d' : same_commands d d' → keeps (has_unknown id) d d'.
Proof. unfold same_commands, keeps, has_unknown, in_state. by intros ->. Qed.

Lemma set_unknown_keeps id cmd rc rs :
  always (set_command_state cmd CommandState.DeliveryUnknown rc rs) (keeps (has_unknown id)).
Proof.
  intros d. eapply triple_mono, set_command_state_outcome.
  intros [e|u] d' Hd [c Hc]; [rewrite Hd; by exists c|].
  apply in_state_Some in Hc as (Hin & Hid & Hst).
  eexists. apply in_state_Some. rewrite Hd. split.
  { unfold update_where. apply list_elem_of_fmap. by exists c. }
  by destruct (str_eqb (command_id c) cmd).
Qed.

Lemma insert_command_keeps id c : always (insert_command c) (keeps (has_unknown id)).
Proof.
  unfold insert_command, insert_event, txn_begin. always_auto.
  - intros [c' Hc]. exists c'. apply in_state_Some. apply in_state_Some in Hc as (Hin & H).
    split; [|done]. apply elem_of_app. by left.
  - by apply same_commands_unknown.
Qed.

(** The tail of a resolution. *)
Lemma reactivate_keeps id id' a k : always (reactivate id' a k) (keeps (has_unknown id)).
Proof.
  apply (always_sub _ same_commands); [apply same_commands_unknown|].
  unfold reactivate, apply, require_run, parse_stage.
  repeat commands_step.
Qed.
Lemma cancel_run_keeps id id' a k : always (cancel_run id' a k) (keeps (has_unknown id)).
Proof.
  apply (always_sub _ same_commands); [apply same_commands_unknown|].
  unfold cancel_run, apply, require_run, parse_stage, live_status, parse_status, summary_of.
  repeat commands_step.
Qed.
Lemma summary_of_keeps id id' : always (summary_of id') (keeps (has_unknown id)).
Proof. unfold summary_of. always_auto. Qed.

Lemma resolve_input_unknown uuid id cmd dec actor obs d :
  triple d (resolve_input uuid id cmd dec actor obs)
    (λ res d', ∀ s, res = inr s → has_unknown id d').
Proof.
  unfold resolve_input. apply triple_bind, triple_refuse; [done|]. intros _.
  eapply triple_reads; [apply load_command_reads|done|].
  apply triple_bind, triple_ok_or; [done|]. intros c Hc.
  apply triple_bind, triple_refuse; [done|]. intros Hid.
  apply triple_bind, triple_refuse; [done|]. intros Hst.
  assert (has_unknown id d) as Hd.
  { unfold str_eqb in *. bool_to_prop. exists c. apply in_state_Some. split; [|done].
    unfold find_command in Hc. apply fmap_Some in Hc as ([i c'] & Hf & ->).
    apply list_find_Some in Hf as (Hi & _). by eapply list_elem_of_lookup_2. }
  match goal with |- triple _ ?m _ => assert (always m (keeps (has_unknown id))) as Hm end.
  { destruct dec; unfold insert_queued_command; cbv zeta;
      repeat lazymatch goal with
      | |- always (set_command_state _ _ _ _) _ => apply set_unknown_keeps
      | |- always (insert_command _) _ => apply insert_command_keeps
      | |- always (reactivate _ _ _) _ => apply reactivate_keeps
      | |- always (cancel_run _ _ _) _ => apply cancel_run_keeps
      | |- always (summary_of _) _ => apply summary_of_keeps
      | |- _ => always_step
      end. }
  eapply triple_mono, Hm. intros res d' Hk s _. by apply Hk.
Qed.

Lemma unknown_not_nil id d :
  has_unknown id d → ∃ c l, in_state id CommandState.DeliveryUnknown d = c :: l.
Proof.
  intros [c Hc]. destruct (in_state _ _ _) as [|c' l]; [|by exists c', l].
  by apply not_elem_of_nil in Hc.
Qed.

Lemma accept_run_unknown env id v pol d :
  has_unknown id d → triple d (accept_run env id v pol) (refused d).
Proof.
  intros (c & l & Hl)%unknown_not_nil.
  assert (∀ A e, @refused A d (inl e) d) as Href by (intros; split; eauto).
  unfold accept_run, parse_stage, check_expected_version.
  apply require_run_triple; [auto|]. intros r _.
  apply triple_bind, triple_refuse; [auto|]. intros _.
  apply live_status_triple; [auto|]. intros st _ _.
  apply triple_bind, triple_ok_or; [auto|]. intros sg _.
  apply triple_bind, triple_refuse; [auto|]. intros _.
  apply triple_bind, triple_ok_or; [auto|]. intros cand _.
  eapply triple_reads; [apply load_checkpoints_reads|auto|].
  apply triple_bind, triple_ok_or; [auto|]. intros ck _.
  eapply triple_reads; [apply load_evidence_reads|auto|]. cbv zeta.
  repeat match goal with |- triple _ (match ?x with [] => _ | _ => _ end) _ => destruct x end;
    try (apply triple_fail; auto).
  apply triple_bind, triple_refuse; [auto|]. intros _.
  eapply triple_reads; [apply load_effects_reads|auto|].
  eapply triple_reads; [apply commands_in_state_reads|auto|]. rewrite Hl.
  match goal with |- triple _ (match decide_candidate ?e with _ => _ end) _ =>
    destruct (decide_candidate e) eqn:Hdec; try (apply triple_fail; auto) end.
  apply decide_accept in Hdec. cbn in Hdec. by destruct Hdec as (_ & _ & ? & _).
Qed.

Lemma resume_run_unknown id actor d :
  has_unknown id d → triple d (resume_run id actor) (refused d).
Proof.
  intros (c & l & Hl)%unknown_not_nil.
  assert (∀ A e, @refused A d (inl e) d) as Href by (intros; split; eauto).
  unfold resume_run. apply require_run_triple; [auto|]. intros r _.
  apply triple_bind, triple_refuse; [auto|]. intros _.
  eapply triple_reads; [apply commands_in_state_reads|auto|]. rewrite Hl.
  apply triple_bind, triple_fail. auto.
Qed.

(** Resolving a command of uncertain delivery does not lift its block: when
    [resolve_input] succeeds, with whatever decision, the command is still of
    uncertain delivery, and from any database where a run has such a command,
    resolved or not, acceptance and resumption of that run are refused and
    change nothing. *)
Theorem resolution_keeps_block uuid id cmd dec actor obs w s :
  (resolve_input uuid id cmd dec actor obs w).1 = inr s →
  in_state id CommandState.DeliveryUnknown (conn (resolve_input uuid id cmd dec actor obs w).2)
    ≠ [] ∧
  ∀ w', in_state id CommandState.DeliveryUnknown (conn w') ≠ [] →
    (∀ env v pol, (∃ e, (accept_run env id v pol w').1 = inl e) ∧
                  conn (accept_run env id v pol w').2 = conn w') ∧
    (∀ actor', (∃ e, (resume_run id actor' w').1 = inl e) ∧
               conn (resume_run id actor' w').2 = conn w').
Proof.
  intros Hs. split.
  { pose proof (resolve_input_unknown uuid id cmd dec actor obs (conn w) w eq_refl s Hs) as Hu.
    apply unknown_not_nil in Hu as (c & l & ->). done. }
  intros w' Hne. assert (has_unknown id (conn w')) as Hu.
  { unfold has_unknown. destruct (in_state _ _ _) as [|c l]; [done|]. exists c. by left. }
  split.
  - intros env v pol. exact (accept_run_unknown env id v pol (conn w') Hu w' eq_refl).
  - intros actor'. exact (resume_run_unknown id actor' (conn w') Hu w' eq_refl).
Qed.

(** ** Cancellation *)

(** The checkpoint row cancellation writes. *)
Definition preserved_row (cand : string) : StoredCheckpoint :=
  mk_checkpoint cand "preserved" "preserved" "cancel-preserved-source" "preserved" "preserved"
    (Some "cancel-hold").

Definition same_checkpoints (d d' : Db) : Prop := checkpoints d' = checkpoints d.
#[export] Instance same_checkpoints_preorder : PreOrder same_checkpoints.
Proof. split; [done|]. intros d1 d2 d3 H H'. unfold same_checkpoints in *. congruence. Qed.

Lemma apply_transition_checkpoints t : always (apply_transition t) same_checkpoints.
Proof.
  unfold apply_transition, version_conflict, run_exists, insert_event, insert_effect, txn_begin.
  always_auto; exact eq_refl.
Qed.
Lemma append_event_checkpoints id a k r : always (append_event id a k r) same_checkpoints.
Proof. unfold append_event, insert_event. always_auto. exact eq_refl. Qed.
Lemma summary_of_checkpoints id : always (summary_of id) same_checkpoints.
Proof. unfold summary_of. always_auto. Qed.

Lemma find_upsert id row rows :
  find_checkpoint (ck_candidate row)
    (snd <$> filter (λ p, p.1 = id) (upsert_checkpoint (id, row) rows)) = Some row.
Proof.
  unfold find_checkpoint, upsert_checkpoint, update_where. case_bool_decide as Hin.
  - induction rows as [|[id' ck] rows IH]; [by apply not_elem_of_nil in Hin|].
    rewrite fmap_cons, filter_cons. cbn [fst].
    destruct (bool_decide (checkpoint_key (id', ck) = checkpoint_key (id, row))) eqn:Hk.
    + cbn. rewrite decide_True by done. cbn. by rewrite decide_True.
    + apply bool_decide_eq_false in Hk. unfold checkpoint_key in *. cbn in *.
      apply elem_of_cons in Hin as [Hin|Hin]; [congruence|].
      destruct (decide (id' = id)) as [->|]; [|by apply IH].
      cbn. rewrite decide_False by congruence. rewrite snd_prod_map_S. by apply IH.
  - induction rows as [|[id' ck] rows IH]; cbn [app].
    + rewrite filter_cons. cbn. rewrite decide_True by done. cbn. by rewrite decide_True.
    + rewrite fmap_cons, not_elem_of_cons in Hin. destruct Hin as [Hne Hin].
      rewrite filter_cons. cbn [fst]. destruct (decide (id' = id)) as [->|]; [|by apply IH].
      cbn. rewrite decide_False by (unfold checkpoint_key in Hne; cbn in Hne; congruence).
      rewrite snd_prod_map_S. by apply IH.
Qed.

(** Cancelling a run replaces the checkpoint of its candidate: after a
    cancellation that succeeds, the commit, tree, local path and backup state on
    record are the word [preserved], whatever the checkpoint held before. *)
Theorem cancel_overwrites_checkpoint id actor reason w s w' r cand :
  find_run id (conn w) = Some r → candidate r = Some cand →
  cancel_run id actor reason w = (inr s, w') →
  find_checkpoint cand (checkpoints_of id (conn w')) = Some (preserved_row cand).
Proof.
  intros Hr Hc Hw.
  assert (triple (conn w) (cancel_run id actor reason) (λ res d', ∀ s, res = inr s →
            find_checkpoint cand (checkpoints_of id d') = Some (preserved_row cand))) as Ht.
  { unfold cancel_run, parse_stage, apply. apply require_run_triple; [done|]. intros r' Hr'.
    assert (r' = r) as -> by congruence.
    apply live_status_triple; [done|]. intros st _ _.
    apply triple_bind, triple_ok_or; [done|]. intros sg _. rewrite Hc.
    apply triple_bind. unfold store_checkpoint.
    apply triple_lift, triple_bind, triple_fallible; [done|]. apply triple_update.
    match goal with |- triple ?d1 ?m _ => assert (always m same_checkpoints) as Hm end.
    { repeat first [apply apply_transition_checkpoints | apply append_event_checkpoints
                   | apply summary_of_checkpoints | always_step]. }
    eapply triple_mono, Hm. intros res d' Hd s' _. unfold checkpoints_of. rewrite Hd.
    exact (find_upsert id (preserved_row cand) (checkpoints (conn w))). }
  specialize (Ht w eq_refl s). rewrite Hw in Ht. by apply Ht.
Qed.

(** ** Instances *)

Section instances.
Import SampleHash.

Definition started : RunStore := exec_all [RStart "u1" "plan" 2 "key"] (fresh_store empty_db 1).

Lemma start_run_idempotent_witness :
  (start_run "u2" "other plan" 9 "key" started).2 = started ∧
  rs_run_id <$> (match (start_run "u2" "other plan" 9 "key" started).1 with
                 | inr s => Some s | inl _ => None end) = Some "run-u1".
Proof.
  destruct (find_run_by_key "key" (conn started)) as [r|] eqn:Hr; [|by vm_compute in Hr].
  destruct (start_run_idempotent "u2" "other plan" 9 "key" started r Hr eq_refl eq_refl)
    as (_ & _ & Hs).
  rewrite (Hs eq_refl). split; [reflexivity|].
  vm_compute in Hr. injection Hr as <-. reflexivity.
Defined.

Lemma stale_request_refused_witness :
  (∃ e, (exec (RCandidate "run-u1" "cand2" 3) demo_store).1 = inl e) ∧
  conn (exec (RCandidate "run-u1" "cand2" 3) demo_store).2 = conn demo_store.
Proof.
  destruct (find_run "run-u1" (conn demo_store)) as [r|] eqn:Hr; [|by vm_compute in Hr].
  assert (runs_ok (runs (conn demo_store))) as Hok by apply reachable_ok, demo_reachable.
  assert (version r ≠ 3) as Hv by (by vm_compute in Hr; injection Hr as <-).
  exact (stale_request_refused (RCandidate "run-u1" "cand2" 3) demo_store "run-u1" 3 r Hok
           eq_refl Hr Hv).
Defined.

(** A dispatch was recorded and the process died. *)
Definition crashed : RunStore :=
  exec_all [RDispatch "d1" "run-u1" "session" "implement the plan" 0 0] started.
Definition recovered : RunStore := (exec (RRecover (mk_inventory [] [])) crashed).2.


Lemma resolution_keeps_block_witness :
  let w := (resolve_input "n" "run-u1" "cmd-d1" OperatorDecision.ContinueFromCurrent
              "operator" "prompt visible" recovered).2 in
  in_state "run-u1" CommandState.DeliveryUnknown (conn w) ≠ [] ∧
  status <$> runs (conn w) = ["active"].
Proof.
  destruct (resolve_input "n" "run-u1" "cmd-d1" OperatorDecision.ContinueFromCurrent
              "operator" "prompt visible" recovered).1 as [e|s] eqn:Hs; [by vm_compute in Hs|].
  split; [|vm_compute; reflexivity].
  exact (proj1 (resolution_keeps_block _ _ _ _ _ _ _ _ Hs)).
Defined.

Lemma cancel_overwrites_checkpoint_witness :
  commit_hash <$> find_checkpoint "cand1" (checkpoints_of "run-u1" (conn demo_store)) = Some "c1" ∧
  find_checkpoint "cand1" (checkpoints_of "run-u1"
    (conn (cancel_run "run-u1" "operator" "stop" demo_store).2)) = Some (preserved_row "cand1").
Proof.
  split; [vm_compute; reflexivity|].
  destruct (find_run "run-u1" (conn demo_store)) as [r|] eqn:Hr; [|by vm_compute in Hr].
  destruct (cancel_run "run-u1" "operator" "stop" demo_store) as [[e|s] w'] eqn:Hw;
    [by vm_compute in Hw|].
  assert (candidate r = Some "cand1") as Hc by (by vm_compute in Hr; injection Hr as <-).
  exact (cancel_overwrites_checkpoint _ _ _ _ _ _ _ _ Hr Hc Hw).
Defined.

(** The run and its launch effect are saved in two steps: when the second fails,
    the run stays without an effect, and repeating the request under the same key
    answers with that run and does not plan the effect. *)
Definition interrupted_start : RunStore :=
  (start_run "u1" "plan" 2 "key"
     (mk_store empty_db ∅ 1 (replicate 7 None ++ [Some "disk full"]) [] (λ what, what))).2.

Example start_run_not_atomic :
  run_id <$> runs (conn interrupted_start) = ["run-u1"] ∧
  effects (conn interrupted_start) = [] ∧
  is_ok (match (start_run "u2" "plan" 2 "key" interrupted_start).1 with
         | inr s => Ok s | inl _ => Panic end) = true ∧
  effects (conn (start_run "u2" "plan" 2 "key" interrupted_start).2) = [].
Proof. vm_compute. repeat split. Qed.
End instances.
