(* ===== verification/WorkflowVerifyProofs.v ===== *)
(** * Verification verdicts, feedback and redaction

    Bounded output capture, the review schema, what a passing test means, and
    the redaction of the feedback document: it terminates, and three inputs show
    where it departs from its purpose. *)

From stdpp Require Import base list gmap strings pretty.
From Stdlib Require Import ZArith Lia Strings.Byte.
From S2P Require Import Prelude Clipboard WorkflowModel WorkflowStore WorkflowVerify.

(** ** Captured output *)

(** The bytes a stream delivers before it ends or fails. *)
Fixpoint delivered (reads : list (option bytes)) : bytes :=
  match reads with
  | [] | None :: _ | Some [] :: _ => []
  | Some chunk :: rest => chunk ++ delivered rest
  end.

Lemma read_bounded_from_spec out reads :
  blen (out_bytes out) ≤ MAX_TEST_OUTPUT_BYTES →
  (truncated out = true → blen (out_bytes out) = MAX_TEST_OUTPUT_BYTES) →
  read_bounded_from out reads =
  mk_output (take (Z.to_nat MAX_TEST_OUTPUT_BYTES) (out_bytes out ++ delivered reads))
    (truncated out
     || (MAX_TEST_OUTPUT_BYTES <? blen (out_bytes out) + blen (delivered reads))).
Proof.
  revert out. induction reads as [|[[|b bs]|] reads IH]; intros [o t] Hlen Htr.
  1, 2, 4: cbn [read_bounded_from delivered out_bytes truncated] in *;
    rewrite app_nil_r, take_ge by (unfold blen in *; lia);
    rewrite (proj2 (Z.ltb_ge _ _)) by (unfold blen in *; cbn; lia); by rewrite orb_false_r.
  cbn [read_bounded_from delivered]. set (chunk := b :: bs).
  cbn [out_bytes truncated] in *.
  set (kept := Z.min _ _).
  assert (0 ≤ kept ≤ blen chunk) as Hk by (unfold kept, sat_sub, blen; lia).
  assert (kept = Z.min (MAX_TEST_OUTPUT_BYTES - blen o) (blen chunk)) as Hkept
    by (unfold kept, sat_sub; lia).
  rewrite IH; cbn [out_bytes truncated].
  - f_equal.
    + rewrite <-!app_assoc. destruct (decide (kept = blen chunk)) as [E|E].
      * by rewrite (take_ge chunk) by (unfold blen in *; lia).
      * rewrite !take_app. rewrite (take_ge o) by (unfold blen in *; lia). f_equal.
        rewrite length_take, take_take.
        replace (Z.to_nat MAX_TEST_OUTPUT_BYTES - length o)%nat with (Z.to_nat kept)
          by (unfold blen in *; lia).
        replace (Z.to_nat kept - length chunk)%nat with 0%nat by (unfold blen in *; lia).
        replace (Z.to_nat kept - Z.to_nat kept `min` length chunk)%nat with 0%nat
          by (unfold blen in *; lia).
        rewrite !take_0, !app_nil_r. f_equal. lia.
    + rewrite <-orb_assoc. f_equal. unfold blen in *. rewrite !length_app, length_take.
      destruct (kept <? Z.of_nat (length chunk)) eqn:E; cbn [orb]; bool_to_prop; symmetry.
      * apply Z.ltb_lt. lia.
      * f_equal. lia.
  - unfold blen in *. rewrite length_app, length_take. lia.
  - unfold blen in *. rewrite length_app, length_take. intros Ht. apply orb_true_iff in Ht.
    destruct Ht as [Ht|Ht]; [specialize (Htr Ht)|bool_to_prop]; lia.
Qed.

(** Capturing a test's output keeps exactly the first [MAX_TEST_OUTPUT_BYTES]
    bytes the stream delivers, however they are split into reads, drains the
    rest, and reports truncation exactly when there was more. *)
Theorem read_bounded_spec reads :
  let all := delivered reads in
  read_bounded reads = mk_output (take (Z.to_nat MAX_TEST_OUTPUT_BYTES) all)
                         (MAX_TEST_OUTPUT_BYTES <? blen all).
Proof.
  cbv zeta. unfold read_bounded. by rewrite read_bounded_from_spec.
Qed.

(** ** Reviews *)

(** What a finding must be to be recorded. *)
Definition finding_ok (f : ReviewFinding) : Prop :=
  is_blank (f_id f) = false ∧ str_len (f_id f) ≤ 128 ∧
  valid_relative_path (f_path f) = true ∧
  line_start f ≠ Some 0 ∧ line_end f ≠ Some 0 ∧
  (∀ e, line_end f = Some e → ∃ s, line_start f = Some s ∧ s ≤ e) ∧
  is_blank (explanation f) = false ∧ str_len (explanation f) ≤ 4096 ∧
  is_blank (suggestion f) = false ∧ str_len (suggestion f) ≤ 4096.

Definition review_ok (x : ReviewExpectation) (r : ReviewResult) : Prop :=
  schema_version r = 1 ∧
  (rv_candidate_id r, rv_commit r, rv_tree r) = (x_candidate_id x, x_commit x, x_tree x) ∧
  is_blank (rv_candidate_id r) = false ∧ is_blank (rv_commit r) = false ∧
  is_blank (rv_tree r) = false ∧
  (length (findings r) ≤ 256)%nat ∧ Forall finding_ok (findings r) ∧
  match rv_status r with
  | ReviewStatus.Pass => Forall (λ f, f_severity f = Severity.Note) (findings r)
  | ReviewStatus.Fail => findings r ≠ []
  end.

Lemma check_line_range_ok f :
  check_line_range f = inr () ↔
  line_start f ≠ Some 0 ∧ line_end f ≠ Some 0 ∧
  (∀ e, line_end f = Some e → ∃ s, line_start f = Some s ∧ s ≤ e).
Proof.
  unfold check_line_range. destruct (line_start f) as [[|s|s]|], (line_end f) as [[|e|e]|];
    try (destruct (_ <? _) eqn:Hlt; bool_to_prop); split; try done; naive_solver lia.
Qed.

Lemma check_texts_ok texts :
  check_texts texts = inr () ↔
  Forall (λ p, is_blank p.2 = false ∧ str_len p.2 ≤ 4096) texts.
Proof.
  induction texts as [|[l t] texts IH]; cbn; [done|]. rewrite Forall_cons. cbn.
  destruct (is_blank t), (4096 <? str_len t) eqn:E; cbn; bool_to_prop; try rewrite IH; naive_solver lia.
Qed.

Lemma check_finding_ok f : check_finding f = inr () ↔ finding_ok f.
Proof.
  unfold check_finding, finding_ok.
  destruct (is_blank (f_id f)), (128 <? str_len (f_id f)) eqn:E1; cbn [orb];
    bool_to_prop; try naive_solver lia.
  destruct (valid_relative_path (f_path f)); cbn [negb]; [|naive_solver].
  destruct (check_line_range f) as [e|[]] eqn:E2; cbn [sum_bind].
  - assert (¬ check_line_range f = inr ()) as Hn by (by rewrite E2).
    rewrite check_line_range_ok in Hn. naive_solver.
  - apply check_line_range_ok in E2. rewrite check_texts_ok, !Forall_cons. cbn. naive_solver.
Qed.

Lemma check_findings_ok fs : check_findings fs = inr () ↔ Forall finding_ok fs.
Proof.
  induction fs as [|f fs IH]; cbn; [done|]. rewrite Forall_cons, <-check_finding_ok, <-IH.
  destruct (check_finding f) as [|[]]; cbn; naive_solver.
Qed.

Lemma check_identity_ok ts :
  check_identity ts = inr () ↔ Forall (λ t, is_blank t.1.2 = false ∧ t.1.2 = t.2) ts.
Proof.
  induction ts as [|[[l a] x] ts IH]; cbn; [done|]. rewrite Forall_cons. cbn. unfold str_eqb.
  destruct (is_blank a); cbn; [naive_solver|]. case_bool_decide; cbn; naive_solver.
Qed.

Lemma blocking_none fs :
  blocking_count fs = 0%nat ↔ Forall (λ f, f_severity f = Severity.Note) fs.
Proof.
  unfold blocking_count, is_note. induction fs as [|f fs IH]; cbn; [done|].
  rewrite Forall_cons, <-IH. case_bool_decide; cbn; naive_solver.
Qed.

(** The review schema check is exactly its specification: a review file is
    recorded if and only if it fits the size limit, parses, names version 1 and
    the candidate, commit and tree under review, and every finding is within its
    bounds, inside the source tree and has a sound line range; a passing review
    carries notes only and a failing one at least one finding.  So the recorded
    verdict is a pass exactly when the review is acceptable. *)
Theorem validate_review_spec parse bs x r :
  (validate_review parse bs x = inr r ↔
   blen bs ≤ MAX_REVIEW_BYTES ∧ parse bs = inr r ∧ review_ok x r) ∧
  (review_ok x r → (review_acceptable r = true ↔ ReviewStatus.as_str (rv_status r) = "pass")).
Proof.
  split.
  - unfold validate_review, review_ok.
    destruct (MAX_REVIEW_BYTES <? blen bs) eqn:E0; bool_to_prop; [naive_solver lia|].
    destruct (parse bs) as [e|r0]; [naive_solver|].
    destruct (schema_version r0 =? 1) eqn:E1; cbn [negb]; bool_to_prop; [|naive_solver].
    pose proof (check_identity_ok [("candidate_id", rv_candidate_id r0, x_candidate_id x);
      ("commit", rv_commit r0, x_commit x); ("tree", rv_tree r0, x_tree x)]) as Hid.
    rewrite !Forall_cons in Hid. cbn [fst snd] in Hid.
    destruct (check_identity _) as [e|[]]; cbn [sum_bind]; [naive_solver|].
    destruct (256 <? length (findings r0))%nat eqn:E2;
      [apply Nat.ltb_lt in E2; naive_solver lia|apply Nat.ltb_ge in E2].
    pose proof (check_findings_ok (findings r0)) as Hfs.
    destruct (check_findings (findings r0)) as [e|[]]; cbn [sum_bind]; [naive_solver|].
    pose proof (blocking_none (findings r0)) as Hb.
    destruct (proj1 Hid eq_refl) as ([Hc Hc'] & [Hm Hm'] & [Ht Ht'] & _).
    destruct (rv_status r0) eqn:Est; [destruct (blocking_count (findings r0)) eqn:Eb; cbn|].
    2: { split; [done|]. intros (_ & [= <-] & H). rewrite Est in H.
         destruct H as (_ & _ & _ & _ & _ & _ & _ & H). apply Hb in H. lia. }
    2: case_bool_decide as Hf.
    2: { split; [done|]. intros (_ & [= <-] & H). rewrite Est in H.
         by destruct H as (_ & _ & _ & _ & _ & _ & _ & H). }
    all: split; [|by intros (_ & [= <-] & _)]; intros [= <-]; rewrite Est;
      split; [done|]; split; [done|]; rewrite Hc', Hm', Ht' in *;
      split_and!; [done..| | |]; first [done | lia | by apply Hfs | by apply Hb | idtac].
  - intros (_ & _ & _ & _ & _ & _ & _ & Hst). unfold review_acceptable.
    destruct (rv_status r); cbn; [|done]. split; [done|]. intros _.
    apply forallb_forall. intros f Hf%list_elem_of_In.
    rewrite Forall_forall in Hst. by apply bool_decide_eq_true, Hst.
Qed.

(** ** Redaction *)

Lemma bytes_prefix_take p bs : bytes_prefix p bs = true → bs = p ++ drop (length p) bs.
Proof.
  revert bs. induction p as [|x p IH]; intros [|y bs]; cbn; try done.
  intros H. apply andb_true_iff in H as [He Hp]. apply Byte.byte_dec_bl in He as ->.
  f_equal. by apply IH.
Qed.

Lemma find_sub_Some p bs i :
  find_sub p bs = Some i → ∃ rest, drop i bs = p ++ rest ∧ (i + length p ≤ length bs)%nat.
Proof.
  revert i. induction bs as [|b bs IH]; intros i; cbn.
  - destruct (bytes_prefix p []) eqn:Hp; [|done]. intros [= <-].
    apply bytes_prefix_take in Hp. destruct p; [|done]. by exists [].
  - destruct (bytes_prefix p (b :: bs)) eqn:Hp.
    + intros [= <-]. apply bytes_prefix_take in Hp as Heq. exists (drop (length p) (b :: bs)).
      split; [exact Heq|]. apply (f_equal length) in Heq. rewrite length_app in Heq. cbn in *. lia.
    + destruct (find_sub p bs) as [j|]; [|done]. intros [= <-].
      destruct (IH j eq_refl) as (rest & Hd & Hl). exists rest. cbn. split; [done|lia].
Qed.

Lemma slice_from_Ok bs i out : slice_from bs i = Ok out → (i ≤ length bs)%nat ∧ out = drop i bs.
Proof.
  unfold slice_from, boundary. intros H. split_match_in H; [|done]. injection H as <-.
  split; [|done]. apply orb_true_iff in Heqb as [H|H].
  - apply orb_true_iff in H as [H|H]; apply Nat.eqb_eq in H; lia.
  - destruct (bs !! i) eqn:E; [|done]. apply lookup_lt_Some in E. lia.
Qed.

Lemma replace_range_Ok bs s e new out :
  replace_range bs s e new = Ok out → out = take s bs ++ new ++ drop e bs.
Proof. unfold replace_range. intros H. split_match_in H; [|done]. by injection H. Qed.

Definition terminates {A} (r : res A) : Prop := ∀ e, r ≠ Err e.

Lemma terminates_bind {A B} (r : res A) (f : A → res B) :
  terminates r → (∀ a, r = Ok a → terminates (f a)) → terminates (r ≫= f).
Proof. intros Hr Hf e. destruct r as [a| |]; [by apply Hf|by specialize (Hr e0)|done]. Qed.

Lemma slice_terminates bs i : terminates (slice_from bs i).
Proof. unfold slice_from. by destruct (boundary bs i). Qed.
Lemma replace_terminates bs s e new : terminates (replace_range bs s e new).
Proof. unfold replace_range. by destruct (_ && _). Qed.

Lemma redact_prefix_terminates fuel p from line :
  p ≠ [] → (length line - from < fuel)%nat → terminates (redact_prefix fuel p from line).
Proof.
  intros Hp. revert from line. induction fuel as [|fuel IH]; intros from line Hf; [lia|].
  cbn [redact_prefix]. apply terminates_bind; [apply slice_terminates|]. intros tail Ht.
  apply slice_from_Ok in Ht as [Hle ->].
  destruct (find_sub p (drop from line)) as [hit|] eqn:Hs; [|done].
  apply find_sub_Some in Hs as (rest & _ & Hl). rewrite length_drop in Hl.
  assert (0 < length p)%nat by (destruct p; cbn; [done|lia]).
  apply terminates_bind; [apply slice_terminates|]. intros rest' _.
  set (e := match find_ws_or _ _ with Some _ => _ | None => _ end).
  destruct (length p + 3 <? e - (from + hit))%nat eqn:Hlt; [|apply IH; lia].
  apply Nat.ltb_lt in Hlt.
  apply terminates_bind; [apply replace_terminates|]. intros line' Hr.
  apply replace_range_Ok in Hr as ->. apply IH.
  change (length REDACTED) with 10%nat.
  rewrite !length_app, length_take, length_drop. change (length REDACTED) with 10%nat. lia.
Qed.

Lemma redact_label_terminates fuel lower label from line :
  label ≠ [] → (length lower - from < fuel)%nat →
  terminates (redact_label fuel lower label from line).
Proof.
  intros Hp. revert from line. induction fuel as [|fuel IH]; intros from line Hf; [lia|].
  cbn [redact_label]. apply terminates_bind; [apply slice_terminates|]. intros tail Ht.
  apply slice_from_Ok in Ht as [Hle ->].
  destruct (find_sub label (drop from lower)) as [hit|] eqn:Hs; [|done].
  apply find_sub_Some in Hs as (rest & _ & Hl). rewrite length_drop in Hl.
  assert (0 < length label)%nat by (destruct label; cbn; [done|lia]).
  apply terminates_bind; [apply slice_terminates|]. intros after _.
  split_match; [done|].
  apply terminates_bind; [apply slice_terminates|]. intros value _.
  split_match; [|apply IH; lia].
  apply terminates_bind; [apply replace_terminates|]. intros line' _. apply IH. lia.
Qed.

Lemma fold_terminates {A B} (f : B → A → res B) acc l :
  (∀ b a, a ∈ l → terminates (f b a)) → terminates (fold_res f acc l).
Proof.
  revert acc. induction l as [|a l IH]; intros acc Hf; [done|]. cbn.
  apply terminates_bind; [apply Hf; by left|]. intros b _. apply IH. intros b' a' Ha'.
  apply Hf. by right.
Qed.

(** Redaction terminates on every text, whatever lower casing does: the
    scans for token prefixes and for secret labels always move forward, so the
    bound on their iterations is never reached. *)
Theorem redact_secrets_terminates (to_lowercase : string → string) (text : string) e :
  ~ redact_secrets to_lowercase text = Err e.
Proof.
  revert e. change (terminates (redact_secrets to_lowercase text)).
  unfold redact_secrets. apply terminates_bind; [|done].
  induction (lines text) as [|line ls IH]; [done|]. cbn [map_res].
  apply terminates_bind; [|intros y _; by apply terminates_bind].
  unfold redact_line. apply terminates_bind.
  { apply fold_terminates. intros b p Hp. apply redact_prefix_terminates; [|lia].
    repeat (apply elem_of_cons in Hp as [->|Hp]; [done|]). by apply not_elem_of_nil in Hp. }
  intros redacted _. apply terminates_bind; [|done].
  apply fold_terminates. intros b p Hp. apply redact_label_terminates; [|lia].
  repeat (apply elem_of_cons in Hp as [->|Hp]; [done|]). by apply not_elem_of_nil in Hp.
Qed.

(** What the source relies on of [str::to_lowercase]: on ASCII it is the ASCII
    lower casing. *)
Definition is_ascii (s : string) : bool := forallb (λ b, Z_of_byte b <? 128) (as_bytes s).
Definition lowercases_ascii (to_lowercase : string → string) : Prop :=
  ∀ s, is_ascii s = true → to_lowercase s = to_ascii_lowercase s.

Lemma find_ws_bearer rest :
  ∃ n, find_ws_or is_quote (as_bytes "Bearer " ++ rest) = Some n ∧ (n ≤ 6)%nat.
Proof. exists 6%nat. split; [by destruct rest|done]. Qed.

Lemma redact_bearer_same fuel from line out :
  redact_prefix fuel (as_bytes "Bearer ") from line = Ok out → out = line.
Proof.
  revert from. induction fuel as [|fuel IH]; intros from; [done|]. cbn [redact_prefix].
  intros H. apply bind_ok in H as (tail & Ht & H). apply slice_from_Ok in Ht as [Hle ->].
  destruct (find_sub _ _) as [hit|] eqn:Hs; [|by apply Ok_inj in H].
  apply find_sub_Some in Hs as (rest & Hd & _). rewrite drop_drop in Hd.
  apply bind_ok in H as (rest' & Hr & H). apply slice_from_Ok in Hr as [_ ->]. rewrite Hd in H.
  destruct (find_ws_bearer rest) as (n & Hn & Hle6). rewrite Hn in H.
  destruct (_ <? _)%nat eqn:Hlt; [|by apply IH in H].
  apply Nat.ltb_lt in Hlt. cbn in Hlt. lia.
Qed.

(** The [Bearer] prefix never redacts anything: the prefix ends in a space,
    and the end of the token is searched from the start of the prefix, so the
    token is always taken to be the word [Bearer] alone. *)
Theorem bearer_token_never_redacted (line out : bytes) :
  redact_prefix (S (length line)) (as_bytes "Bearer ") 0 line = Ok out → out = line.
Proof. apply redact_bearer_same. Qed.

Definition bearer_line : string := "Authorization: Bearer abcdefghijklmnop".

Lemma bearer_token_never_redacted_witness :
  redact_secrets to_ascii_lowercase bearer_line = Ok bearer_line ∧
  ∃ out, redact_prefix (S (length (as_bytes bearer_line))) (as_bytes "Bearer ") 0
           (as_bytes bearer_line) = Ok out ∧ out = as_bytes bearer_line.
Proof.
  split; [vm_compute; reflexivity|].
  destruct (redact_prefix (S (length (as_bytes bearer_line))) (as_bytes "Bearer ") 0
              (as_bytes bearer_line)) as [out| |] eqn:H; [|by vm_compute in H..].
  exists out. split; [reflexivity|].
  exact (bearer_token_never_redacted (as_bytes bearer_line) out H).
Defined.

Definition leaky_check : FailingCheck :=
  mk_check "python3 check.py (exit 1)" "login failed: password=hunter2" None.
Definition leaky_input : FeedbackInput :=
  mk_feedback_input "cand1" "c1" 0 2 [leaky_check] [] [].

Section findings.
Context (to_lowercase : string → string) (Hlower : lowercases_ascii to_lowercase).

Lemma redact_line_ascii line redacted :
  fold_res (λ acc prefix, redact_prefix (S (length acc)) (as_bytes prefix) 0 acc)
    (as_bytes line) TOKEN_PREFIXES = Ok redacted →
  is_ascii (of_bytes redacted) = true →
  redact_line to_lowercase line = redact_line to_ascii_lowercase line.
Proof. intros Hf Ha. unfold redact_line. rewrite Hf. cbn. by rewrite Hlower. Qed.
End findings.

(** Redaction panics on an ordinary short secret: after the secret of a label
    is replaced, the search for the next occurrence of the label continues at an
    offset of the redacted line in the lower-case copy taken before, which is
    out of range when the secret is near the end of the line and shorter than
    its replacement.  So building feedback from a test output that prints
    [password=hunter2] panics; and a later secret on a line whose first one was
    long is redacted at the wrong place, leaving its beginning. *)
Theorem redaction_loses_its_place (to_lowercase : string → string) :
  lowercases_ascii to_lowercase →
  redact_secrets to_lowercase "password=hunter2" = Panic ∧
  build_feedback to_lowercase leaky_input = Panic ∧
  redact_secrets to_lowercase
    "token: abcdefghijklmnopqrstuv yyyyyyyyyy password=abcdefghijklmnopqrstuvwxyz"
  = Ok "token: [redacted] yyyyyyyyyy password=abcdefghijk[redacted]".
Proof.
  intros Hl.
  assert (∀ line, is_ascii line = true →
            fold_res (λ acc prefix, redact_prefix (S (length acc)) (as_bytes prefix) 0 acc)
              (as_bytes line) TOKEN_PREFIXES = Ok (as_bytes line) →
            redact_line to_lowercase line = redact_line to_ascii_lowercase line) as Hline.
  { intros line Ha Hf. eapply redact_line_ascii; [done|exact Hf|]. by rewrite of_as_bytes. }
  split; [|split].
  - unfold redact_secrets. replace (lines "password=hunter2") with ["password=hunter2"]
      by (vm_compute; reflexivity).
    cbn [map_res]. rewrite Hline by (vm_compute; reflexivity). vm_compute. reflexivity.
  - unfold build_feedback, redact_secrets. cbn [leaky_input].
    destruct (lines (feedback_doc leaky_input)) as [|l1 [|l2 [|l3 [|l4 [|]]]]] eqn:Hls;
      vm_compute in Hls; try discriminate Hls.
    injection Hls as <- <- <- <-. cbn [map_res].
    rewrite !Hline by (vm_compute; reflexivity). vm_compute. reflexivity.
  - unfold redact_secrets.
    match goal with |- (out ← map_res _ (lines ?t); _) = _ =>
      replace (lines t) with [t] by (vm_compute; reflexivity) end.
    cbn [map_res]. rewrite Hline by (vm_compute; reflexivity). vm_compute. reflexivity.
Qed.

Lemma redaction_loses_its_place_witness :
  redact_secrets to_ascii_lowercase "password=hunter2" = Panic.
Proof. by apply (redaction_loses_its_place to_ascii_lowercase). Defined.

(** The document [build_feedback] truncates is cut at 4096 characters, but
    [stage_repair_feedback] admits 4112 bytes: with two findings, whose dash and
    arrow take three bytes each, a truncated document is refused.  The lower
    casing here is the one [str::to_lowercase] performs on these characters. *)
Definition long_finding (id : string) : ReviewFinding :=
  mk_finding id Severity.Major "src/lib.rs" (Some 1) None
    (of_bytes (replicate 300 (byte_of_Z 97))) (of_bytes (replicate 300 (byte_of_Z 98))).
Definition long_input : FeedbackInput :=
  mk_feedback_input "cand1" "c1" 0 2 []
    (long_finding <$> ["F1"; "F2"; "F3"; "F4"; "F5"; "F6"; "F7"]) [].

Example truncated_feedback_refused :
  match build_feedback to_ascii_lowercase long_input with
  | Ok (inr doc) => str_len doc = 4134 ∧ feedback_admissible doc = false
  | _ => False
  end.
Proof. vm_compute. split; reflexivity. Qed.

(** ** Test verdicts *)

Lemma sum_bind_ok {E A B} (r : E + A) (k : A → E + B) b :
  sum_bind r k = inr b → ∃ a, r = inr a ∧ k a = inr b.
Proof. destruct r; [done|]. eauto. Qed.

Lemma prepare_test_worker_ok env repo spec scratch pw :
  prepare_test_worker env repo spec scratch = inr pw →
  pw_work_dir pw = path_join scratch (tw_worker_id spec) ∧
  path_exists env (pw_work_dir pw) = false ∧
  git env (pw_work_dir pw) ["rev-parse"; "HEAD"] = inr (tw_commit spec) ∧
  git env (pw_work_dir pw) ["rev-parse"; "HEAD^{tree}"] = inr (tw_tree spec) ∧
  git env (pw_work_dir pw) ["status"; "--porcelain"] = inr "".
Proof.
  unfold prepare_test_worker, str_eqb. cbv zeta. intros H.
  split_match_in H; [done|]. split_match_in H; [done|]. split_match_in H; [done|].
  apply sum_bind_ok in H as (c1 & _ & H). apply sum_bind_ok in H as (c2 & _ & H).
  apply sum_bind_ok in H as (head & Hhead & H). split_match_in H; [done|].
  apply sum_bind_ok in H as (tree & Htree & H). split_match_in H; [done|].
  apply sum_bind_ok in H as (dirty & Hdirty & H). split_match_in H; [done|].
  injection H as <-. bool_to_prop. subst. by cbn.
Qed.

Lemma finish_test_execution_ok parse worker query removed code out err x :
  finish_test_execution parse worker query removed code out err = inr x →
  removed = true ∧ timed_out x = false ∧ exit_code x = code ∧
  ∃ text st, query = inr (Some (true, text)) ∧ parse text = inr st ∧
    default "" (ds_error st) = "" ∧ ds_status st = Some "exited" ∧
    ds_running st = Some false ∧ ds_exit_code st = Some code.
Proof.
  unfold finish_test_execution, str_eqb. intros H.
  apply sum_bind_ok in H as ([[success text]|] & -> & H); [|done].
  destruct removed; cbn [negb] in H; [|done]. destruct success; cbn [negb] in H; [|done].
  destruct (parse text) as [e|st] eqn:Hp; [done|].
  destruct (match ds_error st with Some _ => _ | None => _ end) eqn:He; [done|].
  split_match_in H; [done|]. split_match_in H; [|done]. split_match_in H; [done|].
  split_match_in H; [done|]. injection H as <-. bool_to_prop. cbn.
  repeat split; try done. exists text, st. repeat split; try done; [|congruence].
  destruct (ds_error st) as [e|]; [|done]. by bool_to_prop.
Qed.

(** A test verdict of [pass] means what it says: the worker's checkout is a
    fresh directory at exactly the checkpoint's commit and tree with no local
    change, and the sandbox container exited on its own, with no Docker error,
    with exit code 0 both in its recorded state and from the Docker command, and
    was removed. *)
Theorem test_verdict_sound `{Sha256} env repo spec scratch policy pw parse query removed code
    out err x :
  prepare_test_worker env repo spec scratch = inr pw →
  finish_test_execution parse (pw_worker_id pw) query removed code out err = inr x →
  tr_passed (from_execution spec policy x) = true →
  path_exists env (pw_work_dir pw) = false ∧
  git env (pw_work_dir pw) ["rev-parse"; "HEAD"] = inr (tw_commit spec) ∧
  git env (pw_work_dir pw) ["rev-parse"; "HEAD^{tree}"] = inr (tw_tree spec) ∧
  git env (pw_work_dir pw) ["status"; "--porcelain"] = inr "" ∧
  removed = true ∧ code = 0 ∧
  ∃ text st, query = inr (Some (true, text)) ∧ parse text = inr st ∧
    default "" (ds_error st) = "" ∧ ds_status st = Some "exited" ∧
    ds_running st = Some false ∧ ds_exit_code st = Some 0.
Proof.
  intros (_ & Hw & Hh & Ht & Hs)%prepare_test_worker_ok
    (Hr & _ & Hc & text & st & Hq & Hp & He & Hst & Hrun & Hec)%finish_test_execution_ok Hpass.
  cbn in Hpass. bool_to_prop. assert (code = 0) as -> by congruence.
  repeat split; try done. by exists text, st.
Qed.

Section verdict_witness.
Import SampleHash.
Definition pinned_git (dir : string) (args : list string) : WorkflowError + string :=
  match args with
  | ["rev-parse"; "HEAD"] => inr "c1"
  | ["rev-parse"; "HEAD^{tree}"] => inr "t1"
  | _ => inr ""
  end.
Definition pinned_env : Env := mk_env pinned_git (λ _, true) (λ _, false) (λ _, None).
Definition pinned_spec : TestWorkerSpec := mk_worker_spec "test-r-r0-c" "cand" "c1" "t1" "p" 60.
Definition exited_ok : DockerState :=
  mk_docker_state (Some "") (Some "exited") (Some false) (Some "2026-01-01") (Some 0).

Lemma test_verdict_sound_witness :
  git pinned_env "/s/test-r-r0-c" ["rev-parse"; "HEAD"] = inr "c1".
Proof.
  refine (proj1 (proj2 (test_verdict_sound pinned_env "/repo" pinned_spec "/s"
    (mk_policy [] 60 "p") (mk_prepared "test-r-r0-c" "/s/test-r-r0-c" "c1" "t1")
    (λ _, inr exited_ok) (inr (Some (true, []))) true 0 (mk_output [] false) (mk_output [] false)
    (mk_execution 0 false (mk_output [] false) (mk_output [] false)) _ _ _)));
    vm_compute; reflexivity.
Defined.
End verdict_witness.
