(* ===== verification/WorkflowSpool.v ===== *)
(** * The session spool

    [jackin-workflow/src/spool.rs]: terminal output stripped of escape sequences
    and control characters, kept in a buffer of bounded size.

    A character is the list of its UTF-8 bytes.  Splitting a string at an offset
    inside a character is [Panic]. *)

From stdpp Require Import base list strings.
From Stdlib Require Import ZArith Lia Strings.Byte.
From S2P Require Import Prelude.

Definition DEFAULT_SPOOL_CAPACITY_BYTES : Z := 256 * 1024.
Definition MAX_PUSH_BYTES : Z := 1024 * 1024.

(** [str::chars]: a byte and the continuation bytes after it. *)
Fixpoint chars (bs : bytes) : list bytes :=
  match bs with
  | [] => []
  | b :: r =>
      match r with
      | c :: _ =>
          if is_cont c then match chars r with h :: t => (b :: h) :: t | [] => [[b]] end
          else [b] :: chars r
      | [] => [[b]]
      end
  end.

Definition is_char (z : Z) (c : bytes) : bool :=
  match c with [b] => Z_of_byte b =? z | _ => false end.

(** [char::is_control]: the Unicode category Cc, U+0000 to U+001F and U+007F to
    U+009F. *)
Definition is_control (c : bytes) : bool :=
  match c with
  | [b] => (Z_of_byte b <? 32) || (Z_of_byte b =? 127)
  | [b; d] => (Z_of_byte b =? 194) && between 128 159 (Z_of_byte d)
  | _ => false
  end.

(** [('@'..='~').contains(&c)] *)
Definition is_csi_final (c : bytes) : bool :=
  match c with [b] => between 64 126 (Z_of_byte b) | _ => false end.

Fixpoint skip_csi (cs : list bytes) : list bytes :=
  match cs with
  | [] => []
  | c :: r => if is_csi_final c then r else skip_csi r
  end.

Fixpoint skip_osc (cs : list bytes) : list bytes :=
  match cs with
  | [] => []
  | c :: r =>
      if is_char 7 c then r
      else if is_char 27 c then
        match r with d :: r' => if is_char 92 d then r' else r | [] => r end
      else skip_osc r
  end.

Definition skip_escape (cs : list bytes) : list bytes :=
  match cs with
  | c :: r =>
      if is_char 91 c then skip_csi r
      else if is_char 93 c then skip_osc r
      else r
  | [] => []
  end.

(** Every iteration consumes a character: [fuel] is their number. *)
Fixpoint sanitize_chars (fuel : nat) (cs : list bytes) : list bytes :=
  match fuel with
  | O => []
  | S fuel =>
      match cs with
      | [] => []
      | c :: r =>
          if is_char 27 c then sanitize_chars fuel (skip_escape r)
          else if is_control c && negb (is_char 10 c || is_char 9 c) then sanitize_chars fuel r
          else c :: sanitize_chars fuel r
      end
  end.

Definition sanitize_terminal_text (input : bytes) : bytes :=
  let cs := chars input in concat (sanitize_chars (length cs) cs).

(** [str::is_char_boundary] *)
Definition is_char_boundary (bs : bytes) (i : nat) : bool :=
  (i =? 0)%nat || (i =? length bs)%nat
  || match bs !! i with Some b => negb (is_cont b) | None => false end.

(** [while !is_char_boundary(i) { i += 1 }], at most to the end of the text. *)
Fixpoint next_boundary (fuel : nat) (bs : bytes) (i : nat) : nat :=
  match fuel with
  | O => i
  | S fuel => if is_char_boundary bs i then i else next_boundary fuel bs (S i)
  end.

Record SessionSpool := mk_spool {
  capacity_bytes : Z;
  text : bytes;
  dropped_bytes : Z;
  sealed : bool;
}.

Definition spool_new (capacity : Z) : SessionSpool := mk_spool (Z.max capacity 1) [] 0 false.

(** [String::split_off] at [cut], keeping the tail. *)
Definition split_off (bs : bytes) (cut : nat) : res bytes :=
  if is_char_boundary bs cut then Ok (drop cut bs) else Panic.

Definition push (s : SessionSpool) (chunk : bytes) : res SessionSpool :=
  if sealed s then Ok s
  else
    let clean0 := sanitize_terminal_text chunk in
    '(clean, dropped) ←
      (if MAX_PUSH_BYTES <? blen clean0 then
         let cut := (length clean0 - Z.to_nat MAX_PUSH_BYTES)%nat in
         clean ← split_off clean0 cut;
         Ok (clean, add64 (dropped_bytes s) (Z.of_nat cut))
       else Ok (clean0, dropped_bytes s));
    let joined := text s ++ clean in
    if capacity_bytes s <? blen joined then
      let cut := (length joined - Z.to_nat (capacity_bytes s))%nat in
      let boundary := next_boundary (length joined) joined cut in
      Ok (mk_spool (capacity_bytes s) (drop boundary joined)
            (add64 dropped (Z.of_nat boundary)) false)
    else Ok (mk_spool (capacity_bytes s) joined dropped false).

Definition seal (s : SessionSpool) : SessionSpool :=
  mk_spool (capacity_bytes s) (text s) (dropped_bytes s) true.

Definition has_gap (s : SessionSpool) : bool := 0 <? dropped_bytes s.

Record SpoolRead := mk_read { read_text : bytes; gap : bool; read_dropped : Z }.
Definition read (s : SessionSpool) : SpoolRead := mk_read (text s) (has_gap s) (dropped_bytes s).

(** ** Sanitizing *)

Lemma skip_csi_length cs : (length (skip_csi cs) ≤ length cs)%nat.
Proof. induction cs as [|c r IH]; cbn; [done|]. destruct (is_csi_final c); lia. Qed.
Lemma skip_osc_length cs : (length (skip_osc cs) ≤ length cs)%nat.
Proof.
  induction cs as [|c r IH]; cbn; [done|]. destruct (is_char 7 c); [lia|].
  destruct (is_char 27 c); [|lia]. destruct r as [|d r']; [cbn; lia|].
  cbn. destruct (is_char 92 d); cbn in *; lia.
Qed.
Lemma skip_escape_length cs : (length (skip_escape cs) ≤ length cs)%nat.
Proof.
  destruct cs as [|c r]; cbn; [done|].
  pose proof (skip_csi_length r). pose proof (skip_osc_length r).
  destruct (is_char 91 c); [lia|]. destruct (is_char 93 c); lia.
Qed.

(** More fuel than characters changes nothing. *)
Lemma sanitize_fuel n m cs :
  (length cs ≤ n)%nat → (length cs ≤ m)%nat → sanitize_chars n cs = sanitize_chars m cs.
Proof.
  revert m cs. induction n as [|n IH]; intros [|m] [|c r] Hn Hm; cbn in *; try done; try lia.
  pose proof (skip_escape_length r).
  destruct (is_char 27 c); [apply IH; lia|].
  destruct (_ && _); [apply IH; lia|]. f_equal. apply IH; lia.
Qed.

(** A character the spool may hold. *)
Definition printable (c : bytes) : bool := negb (is_control c) || is_char 10 c || is_char 9 c.

Lemma sanitize_printable n cs : Forall (λ c, printable c = true) (sanitize_chars n cs).
Proof.
  revert cs. induction n as [|n IH]; intros [|c r]; cbn; try done.
  destruct (is_char 27 c); [apply IH|]. destruct (is_control c) eqn:Hc; cbn; [|].
  - destruct (is_char 10 c || is_char 9 c) eqn:Hl; cbn; [|apply IH].
    constructor; [|apply IH]. unfold printable. rewrite Hc. exact Hl.
  - constructor; [|apply IH]. unfold printable. by rewrite Hc.
Qed.

Lemma concat_chars bs : concat (chars bs) = bs.
Proof.
  induction bs as [|b r IH]; [done|]. cbn [chars]. destruct r as [|c r']; [done|].
  destruct (is_cont c).
  - destruct (chars (c :: r')) as [|h t]; [done|]. cbn in *. by rewrite IH.
  - cbn [concat]. by rewrite IH.
Qed.

(** Text with nothing to strip is kept as it is. *)
Lemma sanitize_plain n cs :
  (length cs ≤ n)%nat → Forall (λ c, is_char 27 c = false ∧ printable c = true) cs →
  sanitize_chars n cs = cs.
Proof.
  revert n. induction cs as [|c r IH]; intros [|n] Hn Hf; cbn in *; try done; [lia|].
  apply Forall_cons in Hf as [[He Hp] Hf]. rewrite He. unfold printable in Hp.
  rewrite <-orb_assoc in Hp.
  destruct (is_control c); cbn in *; [rewrite Hp; cbn|]; f_equal; apply IH; by try lia.
Qed.

(** ** The buffer *)

Lemma next_boundary_spec fuel bs i :
  (i ≤ length bs)%nat → (length bs - i ≤ fuel)%nat →
  (i ≤ next_boundary fuel bs i ≤ length bs)%nat ∧
  is_char_boundary bs (next_boundary fuel bs i) = true.
Proof.
  revert i. induction fuel as [|fuel IH]; intros i Hi Hf; cbn.
  - assert (i = length bs) as -> by lia. split; [lia|]. unfold is_char_boundary.
    by rewrite Nat.eqb_refl, orb_true_r.
  - destruct (is_char_boundary bs i) eqn:Hb; [split; [lia|done]|].
    destruct (decide (i = length bs)) as [->|Hne].
    + unfold is_char_boundary in Hb. by rewrite Nat.eqb_refl, orb_true_r in Hb.
    + destruct (IH (S i)) as [? ?]; [lia..|]. split; [lia|done].
Qed.

(** The first byte starts a character. *)
Definition starts_char (bs : bytes) : Prop :=
  match bs with b :: _ => is_cont b = false | [] => True end.

Lemma drop_boundary bs i : starts_char bs → is_char_boundary bs i = true → starts_char (drop i bs).
Proof.
  intros Hs Hb. unfold is_char_boundary in Hb. apply orb_true_iff in Hb as [Hb|Hb].
  - apply orb_true_iff in Hb as [Hb|Hb]; apply Nat.eqb_eq in Hb as ->; [done|].
    by rewrite drop_all.
  - destruct (bs !! i) as [b|] eqn:Hi; [|done]. rewrite (drop_S _ _ _ Hi). cbn.
    by destruct (is_cont b).
Qed.

(** What a push adds to the history of the session. *)
Definition pushed (s : SessionSpool) (chunk : bytes) : bytes :=
  if sealed s then [] else sanitize_terminal_text chunk.

Lemma starts_char_app a b : starts_char a → starts_char b → starts_char (a ++ b).
Proof. by destruct a. Qed.

(** A character of a well-formed string. *)
Definition well_started (c : bytes) : Prop := ∃ b r, c = b :: r ∧ is_cont b = false.

Lemma chars_step b c r :
  chars (b :: c :: r) =
  if is_cont c then match chars (c :: r) with h :: t => (b :: h) :: t | [] => [[b]] end
  else [b] :: chars (c :: r).
Proof. done. Qed.

Lemma chars_cons b r : ∃ h t, chars (b :: r) = (b :: h) :: t ∧ Forall well_started t.
Proof.
  revert b. induction r as [|c r IH]; intros b; [by exists [], []|]. rewrite chars_step.
  destruct (IH c) as (h & t & Ht & Hf). destruct (is_cont c) eqn:Hc.
  - rewrite Ht. by exists (c :: h), t.
  - exists [], (chars (c :: r)). split; [done|]. rewrite Ht. constructor; [|done].
    by exists c, h.
Qed.

Lemma chars_well_started bs : starts_char bs → Forall well_started (chars bs).
Proof.
  destruct bs as [|b r]; [done|]. intros Hb. destruct (chars_cons b r) as (h & t & -> & Hf).
  constructor; [by exists b, h|done].
Qed.

Lemma skip_forall (P : bytes → Prop) cs : Forall P cs → Forall P (skip_escape cs).
Proof.
  assert (∀ l, Forall P l → Forall P (skip_csi l)) as Hcsi.
  { induction 1 as [|c r Hc Hr IH]; cbn; [done|]. by destruct (is_csi_final c). }
  assert (∀ l, Forall P l → Forall P (skip_osc l)) as Hosc.
  { induction 1 as [|c r Hc Hr IH]; cbn; [done|]. destruct (is_char 7 c); [done|].
    destruct (is_char 27 c); [|done]. destruct Hr as [|d r' Hd Hr']; [done|].
    destruct (is_char 92 d); [done|by constructor]. }
  destruct 1 as [|c r Hc Hr]; cbn; [done|]. destruct (is_char 91 c); [by apply Hcsi|].
  destruct (is_char 93 c); [by apply Hosc|done].
Qed.

Lemma sanitize_forall (P : bytes → Prop) n cs : Forall P cs → Forall P (sanitize_chars n cs).
Proof.
  revert cs. induction n as [|n IH]; intros cs; cbn; [done|].
  destruct 1 as [|c r Hc Hr]; [done|]. destruct (is_char 27 c); [by apply IH, skip_forall|].
  destruct (_ && _); [by apply IH|]. constructor; [done|by apply IH].
Qed.

Lemma sanitize_starts_char chunk : starts_char chunk → starts_char (sanitize_terminal_text chunk).
Proof.
  intros Hs%chars_well_started. unfold sanitize_terminal_text.
  apply (sanitize_forall _ (length (chars chunk))) in Hs.
  by destruct Hs as [|c r (b & h & -> & Hb) _].
Qed.

(** The outcome of a push in one equation: [cut] bytes of the chunk and
    [boundary] bytes of the buffer are dropped. *)
Lemma push_Ok s chunk s' :
  push s chunk = Ok s' → sealed s = false →
  let clean := sanitize_terminal_text chunk in
  ∃ cut boundary,
    (cut = length clean - Z.to_nat MAX_PUSH_BYTES)%nat ∧
    is_char_boundary clean cut = true ∧
    let joined := text s ++ drop cut clean in
    boundary = (if capacity_bytes s <? blen joined
                then next_boundary (length joined) joined
                       (length joined - Z.to_nat (capacity_bytes s))
                else 0%nat) ∧
    (is_u64 (dropped_bytes s) →
     s' = mk_spool (capacity_bytes s) (drop boundary joined)
            (wrap64 (dropped_bytes s + Z.of_nat cut + Z.of_nat boundary)) false).
Proof.
  unfold push. intros H Hs. rewrite Hs in H. cbv zeta in *.
  set (clean := sanitize_terminal_text chunk) in *.
  apply bind_ok in H as ([clean1 dropped] & Hc & H).
  exists (length clean - Z.to_nat MAX_PUSH_BYTES)%nat.
  assert (clean1 = drop (length clean - Z.to_nat MAX_PUSH_BYTES) clean ∧
          is_char_boundary clean (length clean - Z.to_nat MAX_PUSH_BYTES) = true ∧
          (is_u64 (dropped_bytes s) → dropped = wrap64 (dropped_bytes s
             + Z.of_nat (length clean - Z.to_nat MAX_PUSH_BYTES)))) as (-> & Hb & Hd).
  { destruct (MAX_PUSH_BYTES <? blen clean) eqn:Hlt; bool_to_prop.
    - apply bind_ok in Hc as (c & Hc & [= <- <-]). unfold split_off in Hc.
      split_match_in Hc; [|done]. by injection Hc as <-.
    - injection Hc as <- <-. unfold blen in Hlt.
      replace (length clean - Z.to_nat MAX_PUSH_BYTES)%nat with 0%nat by lia.
      split; [done|]. split; [done|]. intros Hu. rewrite Z.add_0_r. unfold wrap64.
      rewrite Z.mod_small; [done|]. range_lia. }
  eexists. split; [done|]. split; [done|]. split; [reflexivity|]. intros Hu. rewrite (Hd Hu) in H.
  destruct (_ <? _); injection H as <-; f_equal.
  - unfold add64, wrap64. by rewrite Zplus_mod_idemp_l.
  - by rewrite Z.add_0_r.
Qed.

(** A push that returns keeps the newest part of the session's text: the
    buffer is a suffix of the old buffer followed by the sanitized chunk (for a
    capacity within the push limit, as the default is), holds at most the
    capacity, starts at a character boundary, and what is kept plus what is
    counted as dropped is exactly what was pushed (counted in 64 bits). *)
Theorem push_keeps_newest s chunk s' :
  push s chunk = Ok s' → 1 ≤ capacity_bytes s ≤ MAX_PUSH_BYTES →
  blen (text s) ≤ capacity_bytes s → is_u64 (dropped_bytes s) →
  starts_char (text s) → starts_char chunk →
  capacity_bytes s' = capacity_bytes s ∧ blen (text s') ≤ capacity_bytes s ∧
  starts_char (text s') ∧
  (∃ lost, text s ++ pushed s chunk = lost ++ text s') ∧
  wrap64 (dropped_bytes s' + blen (text s'))
  = wrap64 (dropped_bytes s + blen (text s) + blen (pushed s chunk)).
Proof.
  intros Hp Hcap Hlen Hu Hst Hsc. unfold pushed. destruct (sealed s) eqn:Hsealed.
  { unfold push in Hp. rewrite Hsealed in Hp. injection Hp as <-. cbn.
    repeat split; try done; [|by rewrite Z.add_0_r]. exists []. by rewrite app_nil_r. }
  apply sanitize_starts_char in Hsc.
  destruct (push_Ok _ _ _ Hp Hsealed) as (cut & bd & Hcut & Hcb & Hbd & Hs'). cbv zeta in *.
  specialize (Hs' Hu). set (clean := sanitize_terminal_text chunk) in *.
  set (joined := text s ++ drop cut clean) in *.
  assert (length joined = length (text s) + (length clean - cut))%nat as Hjl
    by (unfold joined; rewrite length_app, length_drop; lia).
  assert (starts_char joined) as Hj by (apply starts_char_app; [done|by apply drop_boundary]).
  assert ((bd ≤ length joined)%nat ∧ is_char_boundary joined bd = true ∧
          Z.of_nat (length joined - bd) ≤ capacity_bytes s ∧
          (0 < cut → length (text s) ≤ bd)%nat) as (Hbl & Hbb & Hfit & Hall).
  { rewrite Hbd. unfold blen in *. destruct (capacity_bytes s <? _) eqn:Hlt; bool_to_prop.
    - destruct (next_boundary_spec (length joined) joined
                  (length joined - Z.to_nat (capacity_bytes s))) as [? ?]; [lia..|].
      repeat split; [lia|done|lia|lia].
    - repeat split; [lia|lia|]. unfold MAX_PUSH_BYTES in *. lia. }
  subst s'. cbn [capacity_bytes text dropped_bytes]. unfold blen. rewrite !length_drop.
  repeat split; [done|by apply drop_boundary| |].
  - destruct (decide (cut = 0%nat)) as [->|Hne].
    + exists (take bd joined). rewrite take_drop. unfold joined. by rewrite drop_0.
    + exists (text s ++ take (cut + (bd - length (text s))) clean).
      unfold joined. rewrite drop_app_ge by lia. rewrite drop_drop, <-app_assoc, take_drop. done.
  - unfold wrap64. rewrite Zplus_mod_idemp_l. f_equal. lia.
Qed.


Lemma push_keeps_newest_witness :
  let s := mk_spool 4 (as_bytes "abc") 0 false in
  let chunk := as_bytes "de" in
  push s chunk = Ok (mk_spool 4 (as_bytes "bcde") 1 false) ∧ blen (as_bytes "bcde") ≤ 4.
Proof.
  intros s chunk.
  assert (push s chunk = Ok (mk_spool 4 (as_bytes "bcde") 1 false)) as Hp
    by (vm_compute; reflexivity).
  split; [exact Hp|].
  apply (push_keeps_newest s chunk _ Hp); vm_compute; repeat split; discriminate.
Defined.

(** ** Oversized chunks *)

(** [n] two-byte characters (U+00E9) and an ASCII letter. *)
Definition e_acute : bytes := [xc3; xa9].
Definition accented (n : nat) : bytes := concat (replicate n e_acute) ++ [x61].

Lemma chars_accented n : chars (accented n) = replicate n e_acute ++ [[x61]].
Proof.
  unfold accented. induction n as [|n IH]; [done|].
  cbn [replicate concat]. unfold e_acute at 1. cbn [app]. rewrite !chars_step.
  change (concat (replicate n e_acute) ++ [x61]) with (accented n) in *.
  replace (is_cont xa9) with true by done.
  assert (∃ b r, accented n = b :: r ∧ is_cont b = false) as (b & r & Hbr & Hb).
  { destruct n; unfold accented; cbn; eauto. }
  rewrite Hbr in *. rewrite chars_step, Hb, IH. done.
Qed.

Lemma sanitize_accented n : sanitize_terminal_text (accented n) = accented n.
Proof.
  unfold sanitize_terminal_text. rewrite sanitize_plain; [apply concat_chars|done|].
  rewrite chars_accented. apply Forall_app. split; [|by constructor].
  by apply Forall_replicate.
Qed.

Lemma length_accented n : length (accented n) = (2 * n + 1)%nat.
Proof.
  unfold accented. rewrite length_app. cbn. induction n as [|n IH]; [done|]. cbn in *. lia.
Qed.

(** A push of well-formed text can panic: when the sanitized chunk is over
    the push limit and the cut falls inside a character, [split_off] is called
    off a character boundary.  The panic happens exactly then, and it does
    happen, for every capacity, on 524288 accented letters followed by one ASCII
    letter. *)
Theorem push_splits_characters s chunk :
  (push s chunk = Panic ↔
   sealed s = false ∧ MAX_PUSH_BYTES < blen (sanitize_terminal_text chunk) ∧
   is_char_boundary (sanitize_terminal_text chunk)
     (length (sanitize_terminal_text chunk) - Z.to_nat MAX_PUSH_BYTES) = false) ∧
  ∀ capacity, push (spool_new capacity) (accented (Z.to_nat 524288)) = Panic.
Proof.
  assert (∀ s chunk, push s chunk = Panic ↔
    sealed s = false ∧ MAX_PUSH_BYTES < blen (sanitize_terminal_text chunk) ∧
    is_char_boundary (sanitize_terminal_text chunk)
      (length (sanitize_terminal_text chunk) - Z.to_nat MAX_PUSH_BYTES) = false) as Hiff.
  { intros s0 chunk0. unfold push, split_off. destruct (sealed s0); [naive_solver|]. cbv zeta.
    destruct (MAX_PUSH_BYTES <? blen (sanitize_terminal_text chunk0)) eqn:Hlt; bool_to_prop.
    - destruct (is_char_boundary _ _) eqn:Hb; cbn; [|done]. split_match; naive_solver.
    - cbn. split_match; naive_solver lia. }
  split; [apply Hiff|]. intros capacity. apply Hiff. rewrite sanitize_accented.
  unfold blen. rewrite length_accented. split; [done|]. split; [unfold MAX_PUSH_BYTES; lia|].
  replace (2 * Z.to_nat 524288 + 1 - Z.to_nat MAX_PUSH_BYTES)%nat with 1%nat
    by (unfold MAX_PUSH_BYTES; lia).
  unfold is_char_boundary. rewrite length_accented.
  destruct (Z.to_nat 524288) as [|n] eqn:Hn; [lia|].
  rewrite (proj2 (Nat.eqb_neq 1 (2 * S n + 1))) by lia. reflexivity.
Qed.
