(* ===== verification/OrderedMap.v ===== *)
(** * Ordered maps and text helpers of the standard library

    [BTreeMap<String, A>] is a [gmap] whose iteration is sorted by key, and
    [BTreeSet<String>] a [gset] whose least element is taken first; the order is
    the byte order of [str].  The string methods that the configuration and the
    environment code share ([strip_prefix], [strip_suffix], [split_once],
    [split]) are here too. *)

From stdpp Require Import base list gmap strings sorting.
From Stdlib Require Import ZArith Lia Bool.
From S2P Require Import Prelude.

(** ** The order of strings *)

Definition str_le (a b : string) : Prop := bytes_leb (as_bytes a) (as_bytes b) = true.

#[global] Instance str_le_dec : RelDecision str_le.
Proof. intros a b. unfold str_le. apply _. Defined.

Lemma bytes_leb_refl a : bytes_leb a a = true.
Proof. induction a as [|x a IH]; [done|]. cbn. by rewrite !Z.ltb_irrefl. Qed.

Lemma bytes_leb_cons x a y b :
  bytes_leb (x :: a) (y :: b) = true ↔
  Z_of_byte x < Z_of_byte y ∨ (x = y ∧ bytes_leb a b = true).
Proof.
  cbn. destruct (Z.ltb_spec (Z_of_byte x) (Z_of_byte y)); [naive_solver|].
  destruct (Z.ltb_spec (Z_of_byte y) (Z_of_byte x)).
  - split; [done|]. intros [?|[-> _]]; lia.
  - assert (x = y) as ->.
    { rewrite <-(byte_of_Z_of_byte x), <-(byte_of_Z_of_byte y). f_equal. lia. }
    split; [naive_solver|]. intros [?|[_ ?]]; [lia|done].
Qed.

Lemma bytes_leb_trans a b c :
  bytes_leb a b = true → bytes_leb b c = true → bytes_leb a c = true.
Proof.
  revert b c. induction a as [|x a IH]; intros [|y b] [|z c]; try done.
  rewrite !bytes_leb_cons. intros [?|[-> ?]] [?|[-> ?]]; [left; lia|auto..|].
  right. split; [done|]. by eapply IH.
Qed.

Lemma bytes_leb_antisymm a b : bytes_leb a b = true → bytes_leb b a = true → a = b.
Proof.
  revert b. induction a as [|x a IH]; intros [|y b]; try done.
  rewrite !bytes_leb_cons. intros [?|[-> ?]] [?|[Heq ?]]; try lia; [subst; lia|].
  f_equal. by apply IH.
Qed.

Lemma bytes_leb_total a b : bytes_leb a b = true ∨ bytes_leb b a = true.
Proof.
  revert b. induction a as [|x a IH]; intros [|y b]; cbn; auto.
  destruct (Z.ltb_spec (Z_of_byte x) (Z_of_byte y)), (Z.ltb_spec (Z_of_byte y) (Z_of_byte x));
    auto; lia.
Qed.

#[global] Instance str_le_refl : Reflexive str_le.
Proof. intros a. apply bytes_leb_refl. Qed.
#[global] Instance str_le_trans : Transitive str_le.
Proof. intros a b c. apply bytes_leb_trans. Qed.
#[global] Instance str_le_antisymm : AntiSymm (=) str_le.
Proof.
  intros a b Hab Hba. rewrite <-(of_as_bytes a), <-(of_as_bytes b). f_equal.
  by apply bytes_leb_antisymm.
Qed.
#[global] Instance str_le_total : Total str_le.
Proof. intros a b. apply bytes_leb_total. Qed.

(** ** [BTreeSet<String>] *)

Definition sorted_elements (X : gset string) : list string := merge_sort str_le (elements X).

(** [BTreeSet::pop_first] *)
Definition pop_first (X : gset string) : option (string * gset string) :=
  match sorted_elements X with
  | [] => None
  | x :: _ => Some (x, X ∖ {[x]})
  end.

Lemma sorted_elements_perm X : sorted_elements X ≡ₚ elements X.
Proof. apply merge_sort_Permutation. Qed.

Lemma pop_first_None X : pop_first X = None → X = ∅.
Proof.
  unfold pop_first. destruct (sorted_elements X) eqn:E; [|done]. intros _.
  apply leibniz_equiv, elements_empty_iff, Permutation_nil_r.
  by rewrite <-sorted_elements_perm, E.
Qed.

Lemma pop_first_Some X x X' :
  pop_first X = Some (x, X') → x ∈ X ∧ X' = X ∖ {[x]} ∧ ∀ y, y ∈ X → str_le x y.
Proof.
  unfold pop_first. destruct (sorted_elements X) as [|z l] eqn:E; [done|].
  intros [= <- <-]. assert (∀ y, y ∈ X ↔ y ∈ z :: l) as Hin.
  { intros y. by rewrite <-E, sorted_elements_perm, elem_of_elements. }
  split; [by apply Hin; left|]. split; [done|]. intros y [->|Hy]%Hin%elem_of_cons; [done|].
  assert (StronglySorted str_le (z :: l)) as Hs
    by (rewrite <-E; apply StronglySorted_merge_sort; apply _).
  inversion Hs as [|? ? ? Hall]; subst. by apply (proj1 (Forall_forall _ _) Hall).
Qed.

(** ** [BTreeMap<String, A>] *)

Section btree.
Context {A : Type}.
Implicit Types (m : gmap string A).

Definition key_le (p q : string * A) : Prop := str_le p.1 q.1.
#[global] Instance key_le_dec : RelDecision key_le.
Proof. intros p q. unfold key_le. apply _. Defined.
#[global] Instance key_le_trans : Transitive key_le.
Proof. intros p q r. apply str_le_trans. Qed.
#[global] Instance key_le_total : Total key_le.
Proof. intros p q. apply str_le_total. Qed.

(** [BTreeMap::iter], [BTreeMap::keys] and [BTreeMap::into_values] *)
Definition btree_iter m : list (string * A) := merge_sort key_le (map_to_list m).
Definition btree_keys m : list string := (btree_iter m).*1.
Definition btree_values m : list A := (btree_iter m).*2.

Lemma btree_iter_perm m : btree_iter m ≡ₚ map_to_list m.
Proof. apply merge_sort_Permutation. Qed.

Lemma elem_of_btree_iter m k a : (k, a) ∈ btree_iter m ↔ m !! k = Some a.
Proof. by rewrite btree_iter_perm, elem_of_map_to_list. Qed.

Lemma NoDup_btree_keys m : NoDup (btree_keys m).
Proof. unfold btree_keys. rewrite btree_iter_perm. apply NoDup_fst_map_to_list. Qed.

Lemma elem_of_btree_keys m k : k ∈ btree_keys m ↔ k ∈ dom m.
Proof.
  unfold btree_keys. rewrite list_elem_of_fmap, elem_of_dom. split.
  - intros ([k' a] & -> & Hin%elem_of_btree_iter). eauto.
  - intros [a Hk]. exists (k, a). by rewrite elem_of_btree_iter.
Qed.

Lemma length_btree_keys m : length (btree_keys m) = size m.
Proof. unfold btree_keys. by rewrite btree_iter_perm, length_fmap, length_map_to_list. Qed.

End btree.

Lemma filter_all {A} (P : A → Prop) `{∀ x, Decision (P x)} l : Forall P l → filter P l = l.
Proof. induction 1; [done|]. rewrite filter_cons, decide_True by done. by f_equal. Qed.

(** ** String methods *)

Lemma str_app_assoc (a b c : string) : (a +:+ b) +:+ c = a +:+ b +:+ c.
Proof. induction a as [|x a IH]; [done|]. exact (f_equal (String x) IH). Qed.

Lemma str_app_nil (s : string) : s +:+ "" = s.
Proof. induction s as [|c s IH]; [done|]. exact (f_equal (String c) IH). Qed.

(** [str::strip_prefix] *)
Fixpoint strip_prefix (p s : string) : option string :=
  match p, s with
  | "", _ => Some s
  | String c p, String d s => if Ascii.eqb c d then strip_prefix p s else None
  | String _ _, "" => None
  end.

(** [str::split_once]: what is before and after the first occurrence. *)
Fixpoint split_once (pat s : string) : option (string * string) :=
  match strip_prefix pat s with
  | Some after => Some ("", after)
  | None =>
      match s with
      | "" => None
      | String c s => prod_map (String c) id <$> split_once pat s
      end
  end.

Lemma strip_prefix_Some p s r : strip_prefix p s = Some r ↔ s = p +:+ r.
Proof.
  revert s. induction p as [|c p IH]; intros s; cbn; [split; [by intros [= ->]|by intros ->]|].
  destruct s as [|d s]; cbn; [done|].
  destruct (Ascii.eqb_spec c d) as [->|Hne].
  - rewrite IH. split; [by intros ->|by intros [= ->]].
  - split; [done|]. by intros [= <- _].
Qed.

Lemma starts_with_iff p s : starts_with p s = true ↔ ∃ r, s = p +:+ r.
Proof.
  revert s. induction p as [|c p IH]; intros s.
  { split; [by exists s|by destruct s]. }
  destruct s as [|d s]; [split; [done|by intros [r [=]]]|].
  change (starts_with (String c p) (String d s))
    with (if Ascii.ascii_dec c d then starts_with p s else false).
  destruct (Ascii.ascii_dec c d) as [->|Hne].
  - rewrite IH. split; intros [r Hr]; exists r; [by rewrite Hr|by injection Hr].
  - split; [done|]. by intros [r [= <- _]].
Qed.

Lemma split_once_Some pat s before after :
  split_once pat s = Some (before, after) → s = before +:+ pat +:+ after.
Proof.
  revert before. induction s as [|c s IH]; intros before; cbn.
  - destruct (strip_prefix pat "") eqn:E; [|done]. intros [= <- <-].
    by apply strip_prefix_Some in E.
  - destruct (strip_prefix pat (String c s)) eqn:E.
    + intros [= <- <-]. by apply strip_prefix_Some in E.
    + destruct (split_once pat s) as [[b a]|]; [|done]. intros [= <- <-].
      by rewrite (IH b eq_refl) at 1.
Qed.

Lemma split_once_unfold pat s :
  split_once pat s
  = match strip_prefix pat s with
    | Some after => Some ("", after)
    | None =>
        match s with
        | "" => None
        | String c s => prod_map (String c) id <$> split_once pat s
        end
    end.
Proof. by destruct s. Qed.

#[global] Arguments starts_with : simpl never.
#[global] Arguments strip_prefix : simpl never.
#[global] Arguments split_once : simpl never.

(** [str::strip_suffix] *)
Definition str_rev (s : string) : string := of_bytes (rev (as_bytes s)).
Definition strip_suffix (p s : string) : option string :=
  str_rev <$> strip_prefix (str_rev p) (str_rev s).

Lemma as_bytes_app (a b : string) : as_bytes (a +:+ b) = as_bytes a ++ as_bytes b.
Proof.
  unfold as_bytes. induction a as [|c a IH]; [done|].
  change (String c a +:+ b) with (String c (a +:+ b)).
  unfold String.list_byte_of_string in *. cbn. by rewrite IH.
Qed.

Lemma str_rev_app (a b : string) : str_rev (a +:+ b) = str_rev b +:+ str_rev a.
Proof.
  unfold str_rev. rewrite as_bytes_app, rev_app_distr.
  rewrite <-(of_as_bytes (of_bytes _ +:+ _)). by rewrite as_bytes_app, !as_of_bytes.
Qed.

Lemma str_rev_involutive s : str_rev (str_rev s) = s.
Proof. unfold str_rev. by rewrite as_of_bytes, rev_involutive, of_as_bytes. Qed.

Lemma strip_suffix_Some p s r : strip_suffix p s = Some r ↔ s = r +:+ p.
Proof.
  unfold strip_suffix. rewrite fmap_Some. split.
  - intros (t & Ht%strip_prefix_Some & ->). rewrite <-(str_rev_involutive s), Ht, str_rev_app.
    by rewrite str_rev_involutive.
  - intros ->. exists (str_rev r). rewrite str_rev_app, str_rev_involutive. split; [|done].
    by apply strip_prefix_Some.
Qed.

(** [str::split('/')] and the like, on a one-byte separator. *)
Fixpoint split_on (sep : Ascii.ascii → bool) (s : string) : list string :=
  match s with
  | "" => [""]
  | String c s =>
      if sep c then "" :: split_on sep s
      else match split_on sep s with
           | [] => [String c ""]
           | w :: ws => String c w :: ws
           end
  end.

Lemma split_on_sep sep (c : Ascii.ascii) (a b : string) :
  forallb (λ c, negb (sep c)) (String.list_ascii_of_string a) = true → sep c = true →
  split_on sep (a +:+ String c b) = a :: split_on sep b.
Proof.
  intros Ha Hc. induction a as [|d a IH].
  { change ("" +:+ String c b) with (String c b). cbn [split_on]. by rewrite Hc. } cbn in Ha. bool_to_prop.
  change (String d a +:+ String c b) with (String d (a +:+ String c b)). cbn.
  by rewrite H, IH.
Qed.

Lemma split_on_none sep (a : string) :
  forallb (λ c, negb (sep c)) (String.list_ascii_of_string a) = true → split_on sep a = [a].
Proof.
  induction a as [|c a IH]; intros Ha; [done|]. cbn in Ha. bool_to_prop. cbn.
  by rewrite H, IH.
Qed.
