(* ===== verification/EnvModel.v ===== *)
(** * Role environments: declaration, validation, ordering and resolution

    The environment of a role manifest (jackin-core [env_model.rs],
    [manifest.rs]; jackin-manifest [validate.rs]; jackin-env [env_resolver.rs]):
    the declarations, the two scanners of [${env.NAME}] placeholders, the
    validation of a manifest, Kahn's algorithm for the order in which variables
    are resolved, and the resolution itself, which asks the operator through an
    [EnvPrompter].  The prompter is a parameter: a state and an answer to each
    question. *)

From stdpp Require Import base list gmap strings.
From Stdlib Require Import ZArith Lia Bool Strings.Byte.
From S2P Require Import Prelude OrderedMap.

(** ** Declarations *)

Record EnvVarDecl := mk_decl {
  default_value : option string;
  interactive : bool;
  skippable : bool;
  prompt : option string;
  options : list string;
  depends_on : list string
}.

Abbreviation Decls := (gmap string EnvVarDecl).

(** The names a declaration depends on: its [depends_on] entries that carry the
    [env.] prefix, without it. *)
Definition deps_of (d : EnvVarDecl) : list string := omap (strip_prefix "env.") (depends_on d).

(** ** Reserved names *)

Definition RESERVED_RUNTIME_ENV_VARS : list (string * option string) := [
  ("JACKIN", Some "1");
  ("JACKIN_DIND_HOSTNAME", None);
  ("JACKIN_CONTAINER_NAME", None);
  ("JACKIN_INSTANCE_ID", None);
  ("JACKIN_CAPSULE_SUPERVISOR_PID", None);
  ("JACKIN_AGENT", None);
  ("JACKIN_AGENT_CODENAME", None);
  ("JACKIN_ROLE", None);
  ("JACKIN_WORKDIR", None);
  ("JACKIN_GIT_COAUTHOR_TRAILER", None);
  ("JACKIN_GIT_DCO", None);
  ("DOCKER_HOST", None);
  ("DOCKER_TLS_VERIFY", None);
  ("DOCKER_CERT_PATH", None);
  ("TESTCONTAINERS_HOST_OVERRIDE", None);
  ("JACKIN_NETWORK_MODE", None);
  ("JACKIN_ALLOWED_HOSTS", None);
  ("JACKIN_FIREWALL_INSTALLED", None);
  ("JACKIN_NETWORK_ENFORCEMENT", None);
  ("JACKIN_SUDO", None);
  ("JACKIN_LANE_CODEX_MODEL", None);
  ("JACKIN_LANE_CODEX_EFFORT", None);
  ("ANTHROPIC_MODEL", None);
  ("CLAUDE_CODE_EFFORT_LEVEL", None)
].

Definition is_reserved (name : string) : bool :=
  existsb (λ p, str_eqb p.1 name) RESERVED_RUNTIME_ENV_VARS.

Definition env_value_is_deny (value : string) : bool := str_in value ["deny"; "off"; "no"].

Definition open_links_allowed (value : option string) : bool :=
  match value with None => true | Some v => negb (env_value_is_deny v) end.

(** ** Placeholders *)

(** The [while let Some(start) = rest.find(..)] loop; every turn consumes at
    least the two opening bytes, so the length of the text bounds the turns. *)
Fixpoint refs_loop (fuel : nat) (rest : string) : list string :=
  match fuel with
  | O => []
  | S fuel =>
      match split_once "${" rest with
      | None => []
      | Some (_, after_open) =>
          match split_once "}" after_open with
          | None => []
          | Some (ref_expr, next) =>
              match strip_prefix "env." ref_expr with
              | Some var_name => var_name :: refs_loop fuel next
              | None => refs_loop fuel next
              end
          end
      end
  end.

Definition extract_interpolation_refs (s : string) : list string :=
  refs_loop (String.length s) s.

(** [resolved_map.get(name)]: the map is collected from the pairs, so the last
    pair of a name counts. *)
Definition resolved_get (resolved : list (string * string)) (name : string) : option string :=
  (list_to_map (rev resolved) : gmap string string) !! name.

Fixpoint interpolate_loop (fuel : nat) (resolved : list (string * string)) (rest : string)
    : string :=
  match fuel with
  | O => rest
  | S fuel =>
      match split_once "${" rest with
      | None => rest
      | Some (before, after_open) =>
          match split_once "}" after_open with
          | None => before +:+ "${" +:+ after_open
          | Some (ref_expr, next) =>
              let raw := "${" +:+ ref_expr +:+ "}" in
              before
              +:+ match strip_prefix "env." ref_expr with
                  | Some var_name => default raw (resolved_get resolved var_name)
                  | None => raw
                  end
              +:+ interpolate_loop fuel resolved next
          end
      end
  end.

Definition interpolate (template : string) (resolved : list (string * string)) : string :=
  interpolate_loop (String.length template) resolved template.

(** ** The order of resolution: Kahn's algorithm *)

Record Kahn := mk_kahn {
  in_degree : gmap string Z;
  adjacency : gmap string (list string)
}.

(** [entry(k).or_default()] followed by an update. *)
Definition entry_push (k v : string) (m : gmap string (list string)) : gmap string (list string) :=
  <[k := default [] (m !! k) ++ [v]]> m.
Definition entry_incr (k : string) (m : gmap string Z) : gmap string Z :=
  <[k := add64 (default 0 (m !! k)) 1]> m.
Definition or_insert {A} (k : string) (a : A) (m : gmap string A) : gmap string A :=
  match m !! k with Some _ => m | None => <[k := a]> m end.

Definition add_node (g : Kahn) (name : string) : Kahn :=
  mk_kahn (or_insert name 0 (in_degree g)) (or_insert name [] (adjacency g)).

Definition add_dep (name : string) (g : Kahn) (dep : string) : Kahn :=
  match strip_prefix "env." dep with
  | Some dep_name =>
      mk_kahn (entry_incr name (in_degree g)) (entry_push dep_name name (adjacency g))
  | None => g
  end.

Definition add_deps (g : Kahn) (p : string * EnvVarDecl) : Kahn :=
  foldl (add_dep p.1) g (depends_on p.2).

Definition env_graph (declarations : Decls) : Kahn :=
  foldl add_deps (foldl add_node (mk_kahn ∅ ∅) (btree_keys declarations))
    (btree_iter declarations).

(** The names of degree zero. *)
Definition initial_ready (degrees : gmap string Z) : gset string :=
  dom (filter (λ p : string * Z, p.2 = 0) degrees).

(** One neighbour of a resolved name. *)
Definition relax (st : gmap string Z * gset string) (neighbor : string)
    : gmap string Z * gset string :=
  match st.1 !! neighbor with
  | Some deg =>
      let deg := wrap64 (deg - 1) in
      (<[neighbor := deg]> st.1, if deg =? 0 then {[neighbor]} ∪ st.2 else st.2)
  | None => st
  end.

(** [while let Some(node) = ready.pop_first()]. *)
Fixpoint kahn_loop (fuel : nat) (adj : gmap string (list string))
    (st : gmap string Z * gset string) (result : list string) : list string * gset string :=
  match fuel with
  | O => (result, st.2)
  | S fuel =>
      match pop_first st.2 with
      | None => (result, st.2)
      | Some (node, ready) =>
          kahn_loop fuel adj (foldl relax (st.1, ready) (default [] (adj !! node)))
            (result ++ [node])
      end
  end.

(** A name enters the queue at most once, so one turn per declaration and one
    for the empty queue are enough. *)
Definition topological_env_order (declarations : Decls) : res (list string) :=
  let g := env_graph declarations in
  let '(result, _) :=
    kahn_loop (S (size declarations)) (adjacency g)
      (in_degree g, initial_ready (in_degree g)) [] in
  if bool_decide (length result = size declarations) then Ok result
  else bail "env var dependency cycle detected".

(** ** Role manifests *)

Module Agent.
Inductive t :=
| Claude | Codex | Amp | Kimi | Opencode | Grok | Antigravity | Gemini | Cursor | Muse | Omp
| Hermes.
#[global] Instance eq_dec : EqDecision t.
Proof. solve_decision. Defined.

Definition slug (a : t) : string :=
  match a with
  | Claude => "claude" | Codex => "codex" | Amp => "amp" | Kimi => "kimi"
  | Opencode => "opencode" | Grok => "grok" | Antigravity => "antigravity"
  | Gemini => "gemini" | Cursor => "cursor" | Muse => "muse" | Omp => "omp"
  | Hermes => "hermes"
  end.

Definition from_slug (s : string) : option t :=
  if str_eqb s "claude" then Some Claude else if str_eqb s "codex" then Some Codex
  else if str_eqb s "amp" then Some Amp else if str_eqb s "kimi" then Some Kimi
  else if str_eqb s "opencode" then Some Opencode else if str_eqb s "grok" then Some Grok
  else if str_eqb s "antigravity" then Some Antigravity
  else if str_eqb s "gemini" then Some Gemini else if str_eqb s "cursor" then Some Cursor
  else if str_eqb s "muse" then Some Muse else if str_eqb s "omp" then Some Omp
  else if str_eqb s "hermes" then Some Hermes else None.
End Agent.

(** The part of a manifest that validation reads.  A table of an agent is the
    model it names, if it is present at all; [amp] has no fields. *)
Record RoleManifest := mk_manifest {
  agents : option (list Agent.t);
  claude : option (option string);
  codex : option (option string);
  amp : option ();
  kimi : option (option string);
  opencode : option (option string);
  grok : option (option string);
  env : Decls
}.

Definition supported_agents (m : RoleManifest) : list Agent.t :=
  default [Agent.Claude] (agents m).

Definition present {A} (o : option A) : bool := match o with Some _ => true | None => false end.

Definition has_agent_config (m : RoleManifest) (a : Agent.t) : bool :=
  match a with
  | Agent.Claude => present (claude m)
  | Agent.Codex => present (codex m)
  | Agent.Amp => present (amp m)
  | Agent.Kimi => present (kimi m)
  | Agent.Opencode => present (opencode m)
  | Agent.Grok => present (grok m)
  | _ => false
  end.

Definition agent_model (m : RoleManifest) (a : Agent.t) : option string :=
  match a with
  | Agent.Claude => mjoin (claude m)
  | Agent.Codex => mjoin (codex m)
  | Agent.Kimi => mjoin (kimi m)
  | Agent.Opencode => mjoin (opencode m)
  | Agent.Grok => mjoin (grok m)
  | _ => None
  end.

(** ** Validation *)

Definition ensure_at (c : bool) (fmt arg : string) : res () :=
  if c then Ok () else bail_at fmt arg.

Definition is_digit (b : byte) : bool := between 48 57 (Z_of_byte b).
Definition is_word (b : byte) : bool :=
  is_digit b || between 65 90 (Z_of_byte b) || between 97 122 (Z_of_byte b)
  || (Z_of_byte b =? 95).

(** A byte that is alphanumeric or an underscore is ASCII, so the [is_ascii]
    test of the source adds nothing to the last one. *)
Definition is_valid_env_var_name (name : string) : bool :=
  match as_bytes name with
  | [] => false
  | b :: _ as bs => negb (is_digit b) && forallb is_word bs
  end.

(** The warning about a table whose agent is not in the list. *)
Definition ignored_table (m : RoleManifest) (a : Agent.t) : list string :=
  if has_agent_config m a && negb (bool_decide (a ∈ supported_agents m)) then
    ["[" +:+ Agent.slug a +:+ "] table is present but `agents` does not include "
     +:+ Agent.slug a +:+ "; the table is ignored — add " +:+ Agent.slug a
     +:+ " to `agents` to enable it."]
  else [].

Fixpoint check_tables (m : RoleManifest) (l : list Agent.t) : res () :=
  match l with
  | [] => Ok ()
  | a :: l =>
      _ ← ensure_at (has_agent_config m a)
            "[{slug}] table required when {slug} is in `agents`" (Agent.slug a);
      check_tables m l
  end.

Definition validate_agent_consistency (m : RoleManifest) : res (list string) :=
  _ ← ensure (negb (bool_decide (agents m = Some []))) "`agents` must not be empty";
  _ ← check_tables m (supported_agents m);
  Ok (if present (agents m) then
        ignored_table m Agent.Codex ++ ignored_table m Agent.Claude ++ ignored_table m Agent.Amp
        ++ ignored_table m Agent.Kimi ++ ignored_table m Agent.Opencode
      else []).

Definition validate_env_ref (m : RoleManifest) (owner ref_name : string) : res () :=
  _ ← ensure_at (negb (str_eqb ref_name ""))
        "env var {owner}: {context} contains empty env reference" owner;
  _ ← ensure_at (is_valid_env_var_name ref_name)
        "env var {owner}: {context} contains invalid env var name" owner;
  ensure_at (present (env m !! ref_name))
    "env var {owner}: {context} references unknown env var" owner.

Fixpoint check_deps (m : RoleManifest) (name : string) (seen : gset string)
    (deps : list string) : res () :=
  match deps with
  | [] => Ok ()
  | dep :: deps =>
      match strip_prefix "env." dep with
      | None => bail_at "env var {name}: depends_on entry must use env. prefix" name
      | Some dep_name =>
          _ ← ensure_at (negb (str_eqb dep_name name))
                "env var {name}: depends_on cannot reference self" name;
          _ ← ensure_at (negb (bool_decide (dep_name ∈ seen)))
                "env var {name}: depends_on contains duplicate entry" name;
          _ ← validate_env_ref m name dep_name;
          check_deps m name ({[dep_name]} ∪ seen) deps
      end
  end.

Fixpoint check_refs (m : RoleManifest) (name : string) (dep_names refs : list string) : res () :=
  match refs with
  | [] => Ok ()
  | r :: refs =>
      _ ← validate_env_ref m name r;
      _ ← ensure_at (str_in r dep_names)
            "env var {name}: {field} references a variable not listed in depends_on" name;
      check_refs m name dep_names refs
  end.

Definition validate_env_interpolation (m : RoleManifest) (name : string) (d : EnvVarDecl)
    : res () :=
  _ ← ensure_at (forallb (λ o, bool_decide (extract_interpolation_refs o = [])) (options d))
        "env var {name}: options cannot contain interpolation placeholders" name;
  _ ← check_deps m name ∅ (depends_on d);
  _ ← check_refs m name (deps_of d) (default [] (extract_interpolation_refs <$> prompt d));
  check_refs m name (deps_of d) (default [] (extract_interpolation_refs <$> default_value d)).

(** One turn of the loop over the declarations, with the warnings it pushes. *)
Definition validate_decl (m : RoleManifest) (name : string) (d : EnvVarDecl)
    : res (list string) :=
  _ ← ensure_at (is_valid_env_var_name name)
        "env var: name must contain only ASCII letters, digits, and underscores" name;
  _ ← ensure_at (negb (is_reserved name))
        "env var {name}: reserved for jackin runtime metadata{detail}" name;
  _ ← ensure_at (interactive d || present (default_value d))
        "env var {name}: non-interactive variable must have a default value" name;
  _ ← ensure_at (interactive d || bool_decide (options d = []))
        "env var {name}: options requires interactive = true" name;
  let warnings :=
    (if negb (interactive d) && present (prompt d)
     then ["env var " +:+ name +:+ ": prompt is ignored without interactive = true"] else [])
    ++ (if negb (interactive d) && skippable d
        then ["env var " +:+ name +:+ ": skippable is meaningless without interactive = true"]
        else []) in
  _ ← validate_env_interpolation m name d;
  Ok warnings.

Fixpoint validate_decls (m : RoleManifest) (l : list (string * EnvVarDecl)) : res (list string) :=
  match l with
  | [] => Ok []
  | (name, d) :: l =>
      ws ← validate_decl m name d;
      rest ← validate_decls m l;
      Ok (ws ++ rest)
  end.

Definition validate_role_manifest (m : RoleManifest) : res (list string) :=
  ws ← validate_agent_consistency m;
  ds ← validate_decls m (btree_iter (env m));
  _ ← topological_env_order (env m);
  Ok (ws ++ ds).

(** ** Resolution *)

Module PromptResult.
Inductive t := Value (v : string) | Skipped.
End PromptResult.

(** The [EnvPrompter] trait, with the state of the conversation made explicit. *)
Record EnvPrompter (St : Type) := mk_prompter {
  prompt_text : string → option string → bool → St → res PromptResult.t * St;
  prompt_select : string → list string → option string → bool → St → res PromptResult.t * St
}.
Arguments prompt_text {St} _ _ _ _ _.
Arguments prompt_select {St} _ _ _ _ _ _.

Section resolve.
Context {St : Type} (prompter : EnvPrompter St) (overrides : gmap string string).

Record Resolving := mk_resolving { vars : list (string * string); skipped : gset string }.

Definition push_var (name value : string) (s : Resolving) : Resolving :=
  mk_resolving (vars s ++ [(name, value)]) (skipped s).
Definition skip_var (name : string) (s : Resolving) : Resolving :=
  mk_resolving (vars s) ({[name]} ∪ skipped s).

Definition ask (name : string) (d : EnvVarDecl) (s : Resolving) (st : St)
    : res PromptResult.t * St :=
  let title := interpolate (default name (prompt d)) (vars s) in
  let dflt := (λ t, interpolate t (vars s)) <$> default_value d in
  match options d with
  | [] => prompt_text prompter title dflt (skippable d) st
  | opts => prompt_select prompter title opts dflt (skippable d) st
  end.

(** One name of the order. *)
Definition resolve_one (declarations : Decls) (name : string) (s : Resolving) (st : St)
    : res Resolving * St :=
  match declarations !! name with
  | None => (Panic, st)
  | Some d =>
      match overrides !! name with
      | Some value => (Ok (push_var name value s), st)
      | None =>
          if existsb (λ dep, match strip_prefix "env." dep with
                             | Some dep_name => bool_decide (dep_name ∈ skipped s)
                             | None => false
                             end) (depends_on d)
          then (Ok (skip_var name s), st)
          else if negb (interactive d) then
            (Ok (match default_value d with
                 | Some t => push_var name (interpolate t (vars s)) s
                 | None => s
                 end), st)
          else
            let '(answer, st) := ask name d s st in
            (match answer with
             | Ok (PromptResult.Value value) => Ok (push_var name value s)
             | Ok PromptResult.Skipped =>
                 if skippable d then Ok (skip_var name s)
                 else bail_at "env var {name}: required prompt cannot be skipped" name
             | Err e => Err e
             | Panic => Panic
             end, st)
      end
  end.

Fixpoint resolve_all (declarations : Decls) (order : list string) (s : Resolving) (st : St)
    : res Resolving * St :=
  match order with
  | [] => (Ok s, st)
  | name :: order =>
      let '(r, st) := resolve_one declarations name s st in
      match r with
      | Ok s => resolve_all declarations order s st
      | Err e => (Err e, st)
      | Panic => (Panic, st)
      end
  end.

Definition resolve_env_with_overrides (declarations : Decls) (st : St)
    : res (list (string * string)) * St :=
  match topological_env_order declarations with
  | Ok order =>
      let '(r, st) := resolve_all declarations order (mk_resolving [] ∅) st in
      (vars <$> r, st)
  | Err e => (Err e, st)
  | Panic => (Panic, st)
  end.

End resolve.

Definition resolve_env {St} (prompter : EnvPrompter St) (declarations : Decls) (st : St)
    : res (list (string * string)) * St :=
  resolve_env_with_overrides prompter ∅ declarations st.
