(* ===== verification/EnvOrder.v ===== *)
(** * The order in which environment variables are resolved

    Kahn's algorithm of [topological_env_order] against its specification: the
    order it returns is the one that always takes the least name, in the byte
    order of strings, among those whose dependencies are already resolved; and
    it refuses exactly the declarations that no order can satisfy. *)

From stdpp Require Import base list gmap strings.
From Stdlib Require Import ZArith Lia Bool.
From S2P Require Import Prelude OrderedMap EnvModel.

(** ** The dependency graph *)

(** The pairs (dependency, name), in the order the code visits them. *)
Definition edges (decls : Decls) : list (string * string) :=
  btree_iter decls ≫= λ p, (λ x, (x, p.1)) <$> deps_of p.2.

Lemma elem_of_edges decls x y :
  (x, y) ∈ edges decls ↔ ∃ d, decls !! y = Some d ∧ x ∈ deps_of d.
Proof.
  unfold edges. rewrite list_elem_of_bind. split.
  - intros ([n d] & Hin & Hp). apply list_elem_of_fmap in Hin as (? & [= -> ->] & ?).
    apply elem_of_btree_iter in Hp. eauto.
  - intros (d & Hd & Hx). exists (y, d). split; [by apply list_elem_of_fmap; eauto|].
    by apply elem_of_btree_iter.
Qed.

Definition add_edge (g : Kahn) (e : string * string) : Kahn :=
  mk_kahn (entry_incr e.2 (in_degree g)) (entry_push e.1 e.2 (adjacency g)).

Lemma add_deps_edges g p : add_deps g p = foldl add_edge g ((λ x, (x, p.1)) <$> deps_of p.2).
Proof.
  unfold add_deps, deps_of. generalize (depends_on p.2). intros l. revert g.
  induction l as [|dep l IH]; intros g; cbn; [done|].
  unfold add_dep at 2. destruct (strip_prefix "env." dep); cbn; apply IH.
Qed.

Lemma env_graph_edges decls :
  env_graph decls
  = foldl add_edge (foldl add_node (mk_kahn ∅ ∅) (btree_keys decls)) (edges decls).
Proof.
  unfold env_graph, edges. generalize (foldl add_node (mk_kahn ∅ ∅) (btree_keys decls)).
  induction (btree_iter decls) as [|p l IH]; intros g; cbn; [done|].
  rewrite IH, foldl_app, add_deps_edges. done.
Qed.

Lemma lookup_or_insert {A} k (a : A) m y :
  or_insert k a m !! y = if decide (y = k) then Some (default a (m !! k)) else m !! y.
Proof.
  unfold or_insert. destruct (m !! k) eqn:E, (decide (y = k)) as [->|]; cbn; try done.
  - by rewrite lookup_insert_eq.
  - by rewrite lookup_insert_ne.
Qed.

Lemma nodes_lookup ks g y :
  in_degree (foldl add_node g ks) !! y
  = (if decide (y ∈ ks) then Some (default 0 (in_degree g !! y)) else in_degree g !! y) ∧
  default [] (adjacency (foldl add_node g ks) !! y) = default [] (adjacency g !! y).
Proof.
  revert g. induction ks as [|k ks IH]; intros g; cbn [foldl]; [done|].
  destruct (IH (add_node g k)) as [-> ->]. cbn. rewrite !lookup_or_insert. split.
  - destruct (decide (y = k)) as [->|Hne]; cbn.
    + rewrite (decide_True (P := k ∈ k :: ks)) by set_solver. by case_decide.
    + destruct (decide (y ∈ ks)); [rewrite decide_True by set_solver; done|].
      by rewrite decide_False by set_solver.
  - by destruct (decide (y = k)) as [->|].
Qed.

(** The edges into a name and the names an edge leads to. *)
Definition into (y : string) (es : list (string * string)) : Z :=
  Z.of_nat (length (filter (λ e, e.2 = y) es)).
Definition out (x : string) (es : list (string * string)) : list string :=
  (filter (λ e, e.1 = x) es).*2.

Lemma into_cons y a b es : into y ((a, b) :: es) = (if decide (b = y) then 1 else 0) + into y es.
Proof. unfold into. rewrite filter_cons. cbn [snd]. case_decide; cbn [length]; lia. Qed.
Lemma out_cons x a b es :
  out x ((a, b) :: es) = (if decide (a = x) then [b] else []) ++ out x es.
Proof. unfold out. rewrite filter_cons. cbn [fst]. by case_decide. Qed.

Lemma edges_lookup es g y :
  (∀ e, e ∈ es → is_Some (in_degree g !! e.2)) →
  (∀ d, in_degree g !! y = Some d → 0 ≤ d ∧ d + Z.of_nat (length es) ≤ U64_MAX) →
  in_degree (foldl add_edge g es) !! y = (λ d, d + into y es) <$> in_degree g !! y ∧
  default [] (adjacency (foldl add_edge g es) !! y)
  = default [] (adjacency g !! y) ++ out y es.
Proof.
  revert g. induction es as [|[a b] es IH]; intros g Hdom Hb; cbn [foldl].
  { unfold out. cbn. rewrite app_nil_r. split; [|done].
    destruct (in_degree g !! y) as [d|]; [|done]. cbn. f_equal. unfold into. cbn. lia. }
  assert (is_Some (in_degree g !! b)) as [db Hdb] by (apply (Hdom (a, b)); left).
  destruct (IH (add_edge g (a, b))) as [-> ->]; cbn [add_edge in_degree adjacency fst snd].
  - intros e He. unfold entry_incr. destruct (decide (e.2 = b)) as [->|].
    + rewrite lookup_insert_eq. eauto.
    + rewrite lookup_insert_ne by done. apply Hdom. by right.
  - unfold entry_incr. intros d. cbn in Hb. destruct (decide (y = b)) as [->|].
    + rewrite lookup_insert_eq, Hdb. intros [= <-]. cbn. specialize (Hb _ Hdb).
      unfold add64, wrap64. rewrite Z.mod_small by (unfold U64_MAX in *; lia). lia.
    + rewrite lookup_insert_ne by done. intros Hd. specialize (Hb _ Hd). lia.
  - rewrite into_cons, out_cons. unfold entry_incr, entry_push. split.
    + destruct (decide (b = y)) as [->|].
      * rewrite lookup_insert_eq, Hdb. cbn in *. specialize (Hb _ Hdb). f_equal.
        unfold add64, wrap64. rewrite Z.mod_small by (unfold U64_MAX in *; lia). lia.
      * by rewrite lookup_insert_ne.
    + destruct (decide (a = y)) as [->|].
      * rewrite lookup_insert_eq. cbn. by rewrite <-app_assoc.
      * by rewrite lookup_insert_ne.
Qed.

(** ** One turn of the loop *)

Definition count (y : string) (ns : list string) : Z := Z.of_nat (length (filter (λ n, n = y) ns)).

Lemma count_cons y n ns : count y (n :: ns) = (if decide (n = y) then 1 else 0) + count y ns.
Proof. unfold count. rewrite filter_cons. case_decide; cbn [length]; lia. Qed.

Lemma relax_all ns deg ready :
  (∀ y d, deg !! y = Some d → count y ns ≤ d ≤ U64_MAX) →
  ∀ y, (foldl relax (deg, ready) ns).1 !! y = (λ d, d - count y ns) <$> deg !! y ∧
       (y ∈ (foldl relax (deg, ready) ns).2 ↔
        y ∈ ready ∨ ∃ d, deg !! y = Some d ∧ 0 < d ∧ d = count y ns).
Proof.
  revert deg ready. induction ns as [|n ns IH]; intros deg ready Hb y; cbn [foldl].
  { cbn. split.
    - destruct (deg !! y); [|done]. cbn. f_equal. unfold count. cbn. lia.
    - split; [by left|]. intros [?|(d & _ & Hd & ->)]; [done|]. unfold count in Hd. cbn in Hd. lia. }
  unfold relax at 2 4. cbn [fst snd]. destruct (deg !! n) as [dn|] eqn:Hn.
  - pose proof (Hb _ _ Hn) as Hbn. rewrite count_cons, decide_True in Hbn by done.
    assert (0 ≤ count n ns) by (unfold count; lia).
    assert (wrap64 (dn - 1) = dn - 1) as Hw
      by (unfold wrap64; apply Z.mod_small; unfold U64_MAX in *; lia).
    cbv zeta. rewrite Hw. destruct (IH (<[n := dn - 1]> deg)
      (if dn - 1 =? 0 then {[n]} ∪ ready else ready)) with (y := y) as [H1 H2].
    { intros z d. destruct (decide (z = n)) as [->|].
      - rewrite lookup_insert_eq. intros [= <-]. lia.
      - rewrite lookup_insert_ne by done. intros Hz%Hb. rewrite count_cons in Hz.
        case_decide; lia. }
    rewrite H1, H2, count_cons. clear H1 H2. destruct (decide (n = y)) as [->|Hne].
    + rewrite lookup_insert_eq, Hn. cbn. split; [f_equal; lia|].
      destruct (Z.eqb_spec (dn - 1) 0); split.
      * intros _. right. exists dn. repeat split; lia.
      * intros _. left. set_solver.
      * intros [?|(d & [= <-] & ? & ?)]; [by left|]. right. exists dn. repeat split; lia.
      * intros [?|(d & [= <-] & ? & ?)]; [by left|]. right. exists (dn - 1). repeat split; lia.
    + rewrite lookup_insert_ne by done. rewrite Z.add_0_l. split; [done|].
      destruct (Z.eqb_spec (dn - 1) 0); set_solver.
  - destruct (IH deg ready) with (y := y) as [H1 H2].
    { intros z d Hz%Hb. rewrite count_cons in Hz. case_decide; lia. }
    rewrite H1, H2, count_cons. destruct (decide (n = y)) as [->|Hne].
    + rewrite Hn. split; [done|]. split; (intros [?|(d & [=] & _)]; by left).
    + by rewrite Z.add_0_l.
Qed.

(** ** The invariant of the loop *)

Section order.
Context (decls : Decls).

(** [y] can be resolved once the names of [P] are. *)
Definition available (P : list string) (y : string) : Prop :=
  y ∈ dom decls ∧ y ∉ P ∧ ∀ x, (x, y) ∈ edges decls → x ∈ P.

(** The edges into [y] from names that are not resolved yet. *)
Definition pending (P : list string) (y : string) : Z :=
  into y (filter (λ e, e.1 ∉ P) (edges decls)).

(** Every name was the least available one when it was taken. *)
Definition greedy (P : list string) : Prop :=
  ∀ i x, P !! i = Some x →
    available (take i P) x ∧ ∀ y, available (take i P) y → str_le x y.

Record loop_inv (P : list string) (st : gmap string Z * gset string) : Prop := {
  li_greedy : greedy P;
  li_degree y : st.1 !! y = if decide (y ∈ dom decls) then Some (pending P y) else None;
  li_ready y : y ∈ st.2 ↔ available P y
}.

Lemma pending_zero P y : pending P y = 0 ↔ ∀ x, (x, y) ∈ edges decls → x ∈ P.
Proof.
  unfold pending, into. rewrite list_filter_filter. split.
  - intros Hz x Hin. destruct (decide (x ∈ P)) as [|Hx]; [done|exfalso].
    assert ((x, y) ∈ filter (λ e : string * string, e.2 = y ∧ e.1 ∉ P) (edges decls)) as Hf
      by (by apply list_elem_of_filter).
    destruct (filter _ _); [by apply elem_of_nil in Hf|]. cbn in Hz. lia.
  - intros Hall. destruct (filter _ _) as [|[x z] l] eqn:E; [done|exfalso].
    assert ((x, z) ∈ filter (λ e : string * string, e.2 = y ∧ e.1 ∉ P) (edges decls)) as Hf
      by (rewrite E; left).
    apply list_elem_of_filter in Hf as [[Hy Hx] Hin]. cbn in *. subst. by apply Hx, Hall.
Qed.

Lemma pending_snoc P x y :
  x ∉ P → pending P y = pending (P ++ [x]) y + count y (out x (edges decls)).
Proof.
  intros Hx. unfold pending, count, out. induction (edges decls) as [|[a b] es IH]; [done|].
  rewrite !filter_cons. cbn [fst].
  destruct (decide (a = x)) as [->|Hne].
  - rewrite decide_True, decide_False by set_solver. rewrite into_cons. cbn [fmap list_fmap snd].
    rewrite filter_cons. case_decide; cbn [length]; lia.
  - destruct (decide (a ∉ P)).
    + rewrite decide_True by set_solver. rewrite !into_cons. lia.
    + rewrite decide_False by set_solver. lia.
Qed.

Lemma pending_nonneg P y : 0 ≤ pending P y.
Proof. unfold pending, into. lia. Qed.

Lemma pending_bound P y : pending P y ≤ Z.of_nat (length (edges decls)).
Proof.
  unfold pending, into. pose proof (length_filter (λ e : string * string, e.1 ∉ P) (edges decls)).
  pose proof (length_filter (λ e : string * string, e.2 = y)
                (filter (λ e : string * string, e.1 ∉ P) (edges decls))). lia.
Qed.

Lemma greedy_resolved P y x : greedy P → y ∈ P → (x, y) ∈ edges decls → x ∈ P.
Proof.
  intros Hg (i & Hi)%list_elem_of_lookup Hxy. destruct (Hg _ _ Hi) as [(_ & _ & Ha) _].
  apply Ha, (elem_of_take _ _ _) in Hxy as (j & Hj & _). by eapply list_elem_of_lookup_2.
Qed.

Lemma greedy_NoDup P : greedy P → NoDup P ∧ P ⊆ btree_keys decls.
Proof.
  intros Hg. split.
  - apply NoDup_alt. intros i j x Hi Hj. destruct (decide (i = j)) as [|Hne]; [done|exfalso].
    assert (∀ i j, P !! i = Some x → P !! j = Some x → (i < j)%nat → False) as Hlt.
    { intros i' j' Hi' Hj' Hlt. destruct (Hg _ _ Hj') as [(_ & Hn & _) _].
      apply Hn, elem_of_take. eauto. }
    destruct (Nat.lt_trichotomy i j) as [?|[?|?]]; eauto.
  - intros y (i & Hi)%list_elem_of_lookup. apply elem_of_btree_keys.
    by destruct (Hg _ _ Hi) as [(? & _) _].
Qed.

Lemma greedy_snoc P x :
  greedy P → available P x → (∀ y, available P y → str_le x y) → greedy (P ++ [x]).
Proof.
  intros Hg Ha Hmin i z Hi. apply lookup_app_Some in Hi as [Hi|[Hle Hi]].
  - rewrite take_app_le by (apply lookup_lt_Some in Hi; lia). by apply Hg.
  - apply list_lookup_singleton_Some in Hi as [Hi <-].
    replace i with (length P) by lia. rewrite take_app_length. done.
Qed.

Hypothesis edges_fit : Z.of_nat (length (edges decls)) ≤ U64_MAX.

Lemma env_graph_lookup y :
  in_degree (env_graph decls) !! y
  = (if decide (y ∈ dom decls) then Some (pending [] y) else None) ∧
  default [] (adjacency (env_graph decls) !! y) = out y (edges decls).
Proof.
  assert (∀ z, in_degree (foldl add_node (mk_kahn ∅ ∅) (btree_keys decls)) !! z
               = if decide (z ∈ dom decls) then Some 0 else None) as Hnode.
  { intros z. destruct (nodes_lookup (btree_keys decls) (mk_kahn ∅ ∅) z) as [-> _]. cbn.
    rewrite lookup_empty. cbn. do 2 case_decide; try done; by rewrite elem_of_btree_keys in *. }
  rewrite env_graph_edges. edestruct (edges_lookup (edges decls)) as [-> ->].
  - intros [a b] (d & Hb & _)%elem_of_edges. cbn. rewrite Hnode, decide_True; [eauto|].
    apply elem_of_dom. eauto.
  - intros d. rewrite Hnode. case_decide; [|done]. intros [= <-]. lia.
  - destruct (nodes_lookup (btree_keys decls) (mk_kahn ∅ ∅) y) as [_ ->]. rewrite Hnode. cbn.
    rewrite lookup_empty. split; [|done]. case_decide; [|done]. cbn [fmap option_fmap option_map].
    f_equal. unfold pending. rewrite Z.add_0_l. f_equal. symmetry. apply filter_all, Forall_true.
    intros e. apply not_elem_of_nil.
Qed.

Lemma loop_inv_init :
  loop_inv [] (in_degree (env_graph decls), initial_ready (in_degree (env_graph decls))).
Proof.
  split; cbn [fst snd].
  - intros i x. by rewrite lookup_nil.
  - intros y. apply env_graph_lookup.
  - intros y. unfold initial_ready, available. rewrite elem_of_dom. split.
    + intros [d [Hd Hz]%map_lookup_filter_Some]. cbn in Hz. subst.
      rewrite (proj1 (env_graph_lookup y)) in Hd. case_decide; [|done]. injection Hd as Hp.
      split; [done|]. split; [apply not_elem_of_nil|]. by apply pending_zero.
    + intros (Hy & _ & Hp%pending_zero). exists 0. apply map_lookup_filter_Some.
      rewrite (proj1 (env_graph_lookup y)), decide_True by done. cbn. by rewrite Hp.
Qed.

Lemma loop_inv_step P st x ready :
  loop_inv P st → pop_first st.2 = Some (x, ready) →
  loop_inv (P ++ [x])
    (foldl relax (st.1, ready) (default [] (adjacency (env_graph decls) !! x))).
Proof.
  intros [Hg Hd Hr] (Hx & -> & Hmin)%pop_first_Some. rewrite (proj2 (env_graph_lookup x)).
  apply Hr in Hx as Hax. pose proof Hax as (Hxd & HxP & Hxe).
  assert (∀ y, pending P y = pending (P ++ [x]) y + count y (out x (edges decls))) as Hsnoc
    by (intros y; by apply pending_snoc).
  assert (∀ y, 0 ≤ pending (P ++ [x]) y) as Hnn by (intros; apply pending_nonneg).
  assert (∀ y d, st.1 !! y = Some d → count y (out x (edges decls)) ≤ d ≤ U64_MAX) as Hb.
  { intros y d. rewrite Hd. case_decide; [|done]. intros [= <-].
    pose proof (pending_bound P y). specialize (Hsnoc y). specialize (Hnn y). lia. }
  split.
  - apply greedy_snoc; [done..|]. intros y Hy. by apply Hmin, Hr.
  - intros y. destruct (relax_all _ _ (st.2 ∖ {[x]}) Hb y) as [-> _]. rewrite Hd.
    case_decide; [|done]. cbn. f_equal. rewrite Hsnoc. lia.
  - intros y. destruct (relax_all _ _ (st.2 ∖ {[x]}) Hb y) as [_ ->].
    rewrite elem_of_difference, elem_of_singleton, Hr, Hd. unfold available.
    rewrite <-!pending_zero, elem_of_app, list_elem_of_singleton. specialize (Hsnoc y).
    specialize (Hnn y). assert (0 ≤ count y (out x (edges decls))) by (unfold count; lia).
    split.
    + intros [((Hy & HyP & Hp) & Hne)|(d & Hdy & Hpos & Heq)].
      * split; [done|]. split; [naive_solver|]. lia.
      * case_decide as Hy; [|done]. injection Hdy as <-. split; [done|]. split; [|lia].
        intros [HyP| ->].
        -- assert (pending P y = 0); [|lia]. apply pending_zero. intros z. by apply greedy_resolved.
        -- assert (pending P x = 0); [|lia]. by apply pending_zero.
    + intros (Hy & HyP & Hp). destruct (decide (pending P y = 0)) as [Hz|Hz].
      * left. repeat split; [done|naive_solver|done|naive_solver].
      * right. exists (pending P y). rewrite decide_True by done.
        pose proof (pending_nonneg P y). repeat split; lia.
Qed.

Lemma greedy_length P : greedy P → (length P ≤ size decls)%nat.
Proof.
  intros [Hn Hs]%greedy_NoDup. rewrite <-length_btree_keys.
  by apply NoDup_submseteq, submseteq_length in Hs.
Qed.

Lemma kahn_loop_spec fuel P st :
  loop_inv P st → (size decls - length P < fuel)%nat →
  let '(result, ready) := kahn_loop fuel (adjacency (env_graph decls)) st P in
  greedy result ∧ ∀ y, ¬ available result y.
Proof.
  revert P st. induction fuel as [|fuel IH]; intros P st Hinv Hf; [lia|]. cbn [kahn_loop].
  destruct (pop_first st.2) as [[x ready]|] eqn:Hp.
  - apply IH; [by apply loop_inv_step|]. pose proof (loop_inv_step _ _ _ _ Hinv Hp) as [Hg _ _].
    apply greedy_length in Hg. rewrite length_app in *. cbn in *. lia.
  - apply pop_first_None in Hp. destruct Hinv as [Hg _ Hr]. split; [done|].
    intros y Hy%Hr. rewrite Hp in Hy. by apply elem_of_empty in Hy.
Qed.

(** ** The specification *)

(** A complete greedy order of the declarations. *)
Definition resolution_order (order : list string) : Prop :=
  greedy order ∧ length order = size decls.

(** Some numbering puts every dependency, declared itself, before its user. *)
Definition orderable : Prop :=
  ∃ rank : string → nat, ∀ x y,
    (x, y) ∈ edges decls → x ∈ dom decls ∧ (rank x < rank y)%nat.

Lemma greedy_unique P Q : greedy P → greedy Q → length P = length Q → P = Q.
Proof.
  intros HP HQ Hlen.
  assert (∀ n, take n P = take n Q) as Hall.
  { induction n as [|n IH]; [done|].
    destruct (decide (n < length P)%nat) as [Hlt|Hge];
      [|rewrite !take_ge in IH by lia; by rewrite !take_ge by lia].
    destruct (lookup_lt_is_Some_2 P n) as [x Hx]; [done|].
    destruct (lookup_lt_is_Some_2 Q n) as [y Hy]; [lia|].
    rewrite (take_S_r _ _ _ Hx), (take_S_r _ _ _ Hy), IH. f_equal. f_equal.
    destruct (HP _ _ Hx) as [Hax Hmx], (HQ _ _ Hy) as [Hay Hmy]. rewrite IH in *.
    apply (anti_symm str_le); auto. }
  rewrite <-(firstn_all P), <-(firstn_all Q), <-Hlen. apply Hall.
Qed.

Lemma resolution_order_dom order y : resolution_order order → y ∈ dom decls → y ∈ order.
Proof.
  intros [Hg Hl] Hy. destruct (greedy_NoDup _ Hg) as [Hn Hs].
  apply NoDup_submseteq in Hs; [|done].
  apply submseteq_length_Permutation in Hs; [|by rewrite length_btree_keys, Hl].
  rewrite Hs. by apply elem_of_btree_keys.
Qed.

Lemma resolution_orderable order : resolution_order order → orderable.
Proof.
  intros Ho. pose proof Ho as [Hg Hl].
  exists (λ x, default 0%nat (fst <$> list_find (λ y, y = x) order)). intros x y Hxy.
  pose proof Hxy as (d & Hd & _)%elem_of_edges.
  assert (y ∈ order) as Hy by (apply resolution_order_dom; [done|apply elem_of_dom; eauto]).
  destruct (list_find_elem_of (λ z, z = y) order y Hy eq_refl) as [[j y'] Hj].
  pose proof Hj as (Hjl & -> & _)%list_find_Some. destruct (Hg _ _ Hjl) as [(_ & _ & Hdep) _].
  apply Hdep in Hxy. apply elem_of_take in Hxy as (i & Hi & Hij).
  assert (x ∈ order) as Hx by (by eapply list_elem_of_lookup_2).
  destruct (list_find_elem_of (λ z, z = x) order x Hx eq_refl) as [[i' x'] Hi'].
  pose proof Hi' as (Hil & -> & Hfirst)%list_find_Some. rewrite Hi', Hj. cbn. split.
  - apply (greedy_NoDup _ Hg) in Hx. by apply elem_of_btree_keys.
  - destruct (decide (i < i')%nat) as [Hlt|]; [|lia]. by destruct (Hfirst _ _ Hi Hlt).
Qed.

(** When nothing is available and the declarations are orderable, everything is
    resolved: the unresolved name of least rank would be available. *)
Lemma stuck_complete P :
  greedy P → (∀ y, ¬ available P y) → orderable → length P = size decls.
Proof.
  intros Hg Hno [rank Hrank]. destruct (greedy_NoDup _ Hg) as [Hn Hs].
  assert (∀ n y, rank y = n → y ∈ dom decls → y ∈ P) as Hall.
  { induction n as [n IH] using lt_wf_ind. intros y Hy Hdom.
    destruct (decide (y ∈ P)) as [|HyP]; [done|]. exfalso. apply (Hno y).
    split; [done|]. split; [done|]. intros x Hxy.
    destruct (Hrank _ _ Hxy) as [Hx Hlt]. by apply (IH (rank x)); [lia|..]. }
  rewrite <-length_btree_keys. apply Nat.le_antisymm; apply submseteq_length, NoDup_submseteq;
    try done; [apply NoDup_btree_keys|].
  intros y Hy. by apply (Hall (rank y)), elem_of_btree_keys.
Qed.

Lemma topological_outcome :
  topological_env_order decls = bail "env var dependency cycle detected" ∧ ¬ orderable ∨
  ∃ order, topological_env_order decls = Ok order ∧ resolution_order order.
Proof.
  unfold topological_env_order. cbv zeta.
  pose proof (kahn_loop_spec (S (size decls)) [] _ loop_inv_init) as Hspec. cbn [length] in Hspec.
  specialize (Hspec ltac:(lia)). destruct (kahn_loop _ _ _ _) as [result ready].
  destruct Hspec as [Hg Hno]. destruct (bool_decide (length result = size decls)) eqn:Hb;
    bool_to_prop.
  - right. exists result. done.
  - left. split; [done|]. intros Ho. by apply Hb, stuck_complete.
Qed.

End order.

(** C32: The order in which environment variables are resolved is the unique
    complete order that takes at each step the least name, in byte order, whose
    dependencies are all resolved already; and the only error, the cycle error,
    is returned exactly when no numbering of the names puts every dependency
    (itself declared) before the variable that uses it.  The edge count must fit
    the machine word that counts it. *)
Theorem topological_env_order_spec decls :
  Z.of_nat (length (edges decls)) ≤ U64_MAX →
  (∀ order, topological_env_order decls = Ok order ↔ resolution_order decls order) ∧
  (∀ e, topological_env_order decls = Err e ↔
        e = mk_error "env var dependency cycle detected" "" ∧ ¬ orderable decls) ∧
  topological_env_order decls ≠ Panic.
Proof.
  intros Hfit. destruct (topological_outcome decls Hfit) as [[-> Hno]|(order & -> & Ho)].
  - split; [|split; [|done]].
    + intros order. split; [done|]. intros Ho%resolution_orderable. done.
    + intros e. unfold bail. split; [by intros [= <-]|by intros [-> _]].
  - split; [|split; [|done]].
    + intros order'. split; [by intros [= <-]|]. intros Ho'. f_equal.
      destruct Ho as [? Hl], Ho' as [? Hl']. apply (greedy_unique decls); [done..|].
      by rewrite Hl, Hl'.
    + intros e. split; [done|]. intros [_ Hno]. by destruct Hno; eapply resolution_orderable.
Qed.

Definition sample_decl (deps : list string) : EnvVarDecl :=
  mk_decl (Some "x") false false None [] deps.
Definition sample_decls : Decls :=
  {[ "BRANCH" := sample_decl ["env.TEAM"]; "TEAM" := sample_decl []; "ACCOUNT" := sample_decl [] ]}.
Definition cyclic_decls : Decls :=
  {[ "A" := sample_decl ["env.B"]; "B" := sample_decl ["env.A"] ]}.

Lemma topological_env_order_spec_witness :
  resolution_order sample_decls ["ACCOUNT"; "TEAM"; "BRANCH"] ∧ ¬ orderable cyclic_decls.
Proof.
  split.
  - apply (topological_env_order_spec sample_decls); [vm_compute; discriminate|].
    vm_compute. reflexivity.
  - destruct (topological_env_order_spec cyclic_decls) as (_ & Herr & _);
      [vm_compute; discriminate|].
    destruct (Herr (mk_error "env var dependency cycle detected" "")) as [Hno _].
    apply Hno. vm_compute. reflexivity.
Defined.
