(* ===== verification/EnvProofs.v ===== *)
(** * Placeholders and the resolution of a validated environment

    The scanner that validation uses and the one that substitution uses see the
    same placeholders; and a manifest that passes validation resolves, with
    every reference bound, under any prompter that answers as its contract
    says. *)

From stdpp Require Import base list gmap strings.
From Stdlib Require Import ZArith Lia Bool.
From S2P Require Import Prelude OrderedMap EnvModel EnvOrder.

(** ** Templates *)

Inductive piece := Lit (s : string) | Hole (expr : string).

Definition raw (p : piece) : string :=
  match p with Lit s => s | Hole e => "${" +:+ e +:+ "}" end.
Definition ref_of (p : piece) : option string :=
  match p with Lit _ => None | Hole e => strip_prefix "env." e end.
Definition fill (vs : list (string * string)) (p : piece) : string :=
  match r ← ref_of p; resolved_get vs r with
  | Some v => v
  | None => raw p
  end.
Definition cat (l : list string) : string := foldr String.append "" l.

(** [first pat s b a]: [s] is [b], the first occurrence of [pat], and [a]. *)
Definition occurs (pat s : string) : Prop := ∃ b a, s = b +:+ pat +:+ a.
Definition first (pat s b a : string) : Prop :=
  s = b +:+ pat +:+ a ∧
  ∀ b' a', s = b' +:+ pat +:+ a' → (String.length b ≤ String.length b')%nat.

(** The pieces of a template: a hole opens at the first [${] and closes at the
    first [}] after it; text with no complete hole is literal. *)
Inductive template : string → list piece → Prop :=
| template_end s : ¬ occurs "${" s → template s [Lit s]
| template_open s b a : first "${" s b a → ¬ occurs "}" a → template s [Lit s]
| template_hole s b a e n ps :
    first "${" s b a → first "}" a e n → template n ps →
    template s (Lit b :: Hole e :: ps).

Lemma str_length_app (a b : string) :
  String.length (a +:+ b) = (String.length a + String.length b)%nat.
Proof. induction a as [|c a IH]; [done|]. exact (f_equal S IH). Qed.

Lemma str_app_inj (a b c d : string) :
  a +:+ b = c +:+ d → String.length a = String.length c → a = c ∧ b = d.
Proof.
  revert c. induction a as [|x a IH]; intros [|y c]; try done; cbn.
  intros [= -> H] [= Hl]. destruct (IH _ H Hl) as [-> ->]. done.
Qed.

Lemma first_unique pat s b a b' a' :
  first pat s b a → first pat s b' a' → b = b' ∧ a = a'.
Proof.
  intros [-> H] [Hs H']. assert (String.length b = String.length b') as Hl.
  { apply Nat.le_antisymm; [by eapply H|by eapply H']. }
  destruct (str_app_inj _ _ _ _ Hs Hl) as [-> Hp]. split; [done|].
  by apply (str_app_inj pat a pat a').
Qed.

Lemma template_unique s ps ps' : template s ps → template s ps' → ps = ps'.
Proof.
  intros H. revert ps'.
  induction H as [s Hno|s b a Hf Hno|s b a e n ps Hf Hc Hn IH]; intros ps' H';
    inversion H' as [? Hno'|? b' a' Hf' Hno'|? b' a' e' n' ? Hf' Hc' Hn']; subst; try done.
  - destruct Hf' as [-> _]. destruct Hno. by exists b', a'.
  - destruct (first_unique _ _ _ _ _ _ Hf Hf') as [-> ->]. destruct Hc' as [-> _].
    destruct Hno. by exists e', n'.
  - destruct Hf as [-> _]. destruct Hno'. by exists b, a.
  - destruct (first_unique _ _ _ _ _ _ Hf Hf') as [-> ->]. destruct Hc as [-> _].
    destruct Hno'. by exists e, n.
  - destruct (first_unique _ _ _ _ _ _ Hf Hf') as [-> ->].
    destruct (first_unique _ _ _ _ _ _ Hc Hc') as [-> ->]. by rewrite (IH _ Hn').
Qed.

Lemma split_once_first pat s b a : split_once pat s = Some (b, a) → first pat s b a.
Proof.
  intros Hs. split; [by apply split_once_Some|]. revert b Hs.
  induction s as [|c s IH]; intros b; rewrite split_once_unfold.
  - destruct (strip_prefix pat ""); [|done]. intros [= <- _] b' a' _. cbn. lia.
  - destruct (strip_prefix pat (String c s)) eqn:Hp; [intros [= <- _] b' a' _; cbn; lia|].
    destruct (split_once pat s) as [[b0 a0]|]; [|done]. intros [= <- <-] [|d b'] a' Hs.
    + assert (strip_prefix pat (String c s) = Some a') by (by apply strip_prefix_Some).
      congruence.
    + injection Hs as -> Hs. cbn. apply le_n_S. by eapply (IH b0).
Qed.

Lemma split_once_None pat s : split_once pat s = None → ¬ occurs pat s.
Proof.
  induction s as [|c s IH]; rewrite split_once_unfold; intros Hs (b & a & Heq).
  - destruct (strip_prefix pat "") eqn:Hp; [done|]. destruct b; [|done].
    assert (strip_prefix pat "" = Some a) by (by apply strip_prefix_Some). congruence.
  - destruct (strip_prefix pat (String c s)) eqn:Hp; [done|].
    destruct (split_once pat s) as [[b0 a0]|]; [done|]. destruct b as [|d b].
    + assert (strip_prefix pat (String c s) = Some a) by (by apply strip_prefix_Some).
      congruence.
    + injection Heq as -> Heq. apply IH; [done|]. by exists b, a.
Qed.

Lemma cat_cons x l : cat (x :: l) = x +:+ cat l.
Proof. done. Qed.

Lemma fill_lit vs s : fill vs (Lit s) = s.
Proof. done. Qed.

Lemma fill_hole vs e :
  fill vs (Hole e)
  = match strip_prefix "env." e with
    | Some r => default (raw (Hole e)) (resolved_get vs r)
    | None => raw (Hole e)
    end.
Proof. unfold fill. cbn. destruct (strip_prefix "env." e); [|done]. cbn. by destruct (resolved_get _ _). Qed.

Lemma scans fuel s :
  (String.length s ≤ fuel)%nat →
  ∃ ps, template s ps ∧ refs_loop fuel s = omap ref_of ps ∧
        (∀ vs, interpolate_loop fuel vs s = cat (fill vs <$> ps)) ∧ cat (raw <$> ps) = s.
Proof.
  assert (∀ fuel s, template s [Lit s] → refs_loop fuel s = [] →
            (∀ vs, interpolate_loop fuel vs s = s) →
            ∃ ps, template s ps ∧ refs_loop fuel s = omap ref_of ps ∧
              (∀ vs, interpolate_loop fuel vs s = cat (fill vs <$> ps)) ∧ cat (raw <$> ps) = s)
    as Hlit.
  { intros fuel' s' Ht Hr Hi. exists [Lit s']. split; [done|]. split; [done|]. split.
    - intros vs. rewrite Hi. symmetry. apply str_app_nil.
    - apply str_app_nil. }
  revert s. induction fuel as [|fuel IH]; intros s Hl.
  { destruct s; [|cbn in Hl; lia]. apply Hlit; [|done..]. constructor. by apply split_once_None. }
  destruct (split_once "${" s) as [[b a]|] eqn:Ho.
  2: { apply Hlit; [by constructor; apply split_once_None|cbn; by rewrite Ho|].
       intros vs. cbn. by rewrite Ho. }
  pose proof (split_once_Some _ _ _ _ Ho) as Hs. apply split_once_first in Ho as Hf.
  destruct (split_once "}" a) as [[e n]|] eqn:Hc.
  2: { apply Hlit; [by eapply template_open, split_once_None|cbn; by rewrite Ho, Hc|].
       intros vs. cbn. by rewrite Ho, Hc. }
  pose proof (split_once_Some _ _ _ _ Hc) as Ha. apply split_once_first in Hc as Hcf.
  destruct (IH n) as (ps & Ht & Hr & Hi & Hraw).
  { subst s a. rewrite !str_length_app in Hl. cbn in Hl. lia. }
  exists (Lit b :: Hole e :: ps). split; [by eapply template_hole|]. split; [|split].
  - cbn [refs_loop]. rewrite Ho, Hc. cbn. destruct (strip_prefix "env." e); by rewrite Hr.
  - intros vs. cbn [interpolate_loop]. rewrite Ho, Hc. cbn [fmap list_fmap].
    rewrite !cat_cons, fill_lit, fill_hole, Hi. done.
  - cbn [fmap list_fmap]. rewrite !cat_cons, Hraw. cbn [raw]. rewrite Hs, Ha.
    by rewrite !str_app_assoc.
Qed.

(** Validation and substitution read a template the same way.  Every text
    splits in exactly one way into literal text and placeholders; the references
    that [extract_interpolation_refs] reports are the [env.] placeholders in
    order, and [interpolate] is the text with each such placeholder replaced by
    its value, or kept as it is when it has none. *)
Theorem interpolation_scans_agree s :
  ∃ ps, template s ps ∧ (∀ ps', template s ps' → ps' = ps) ∧
        cat (raw <$> ps) = s ∧
        extract_interpolation_refs s = omap ref_of ps ∧
        ∀ vs, interpolate s vs = cat (fill vs <$> ps).
Proof.
  destruct (scans (String.length s) s) as (ps & Ht & Hr & Hi & Hraw); [done|].
  exists ps. split; [done|]. split; [|done]. intros ps' Ht'. by eapply template_unique.
Qed.

(** ** What substitution depends on *)

Lemma interpolate_refs s vs vs' :
  (∀ r, r ∈ extract_interpolation_refs s → resolved_get vs r = resolved_get vs' r) →
  interpolate s vs = interpolate s vs'.
Proof.
  destruct (scans (String.length s) s) as (ps & _ & Hr & Hi & _); [done|].
  unfold interpolate, extract_interpolation_refs. rewrite Hr, !Hi. clear Hr Hi. intros Heq.
  f_equal. apply list_fmap_ext. intros i p Hp. unfold fill.
  destruct (ref_of p) as [r|] eqn:Hp'; [|done]. cbn. rewrite Heq; [done|].
  apply list_elem_of_omap. exists p. split; [by eapply list_elem_of_lookup_2|done].
Qed.

Lemma resolved_get_snoc vs n v r : r ≠ n → resolved_get (vs ++ [(n, v)]) r = resolved_get vs r.
Proof.
  intros Hne. unfold resolved_get. rewrite rev_unit. cbn. by rewrite lookup_insert_ne.
Qed.

(** ** What validation promises to resolution *)

Record decl_ok (d : EnvVarDecl) : Prop := {
  do_default : interactive d = false → is_Some (default_value d);
  do_prompt t r : prompt d = Some t → r ∈ extract_interpolation_refs t → r ∈ deps_of d;
  do_value t r : default_value d = Some t → r ∈ extract_interpolation_refs t → r ∈ deps_of d
}.

Lemma ensure_at_ok c fmt arg u : ensure_at c fmt arg = Ok u ↔ c = true.
Proof. destruct c, u; cbn; naive_solver. Qed.

Lemma check_refs_ok m name deps refs u :
  check_refs m name deps refs = Ok u → ∀ r, r ∈ refs → r ∈ deps.
Proof.
  revert u. induction refs as [|r0 refs IH]; intros u Hc r Hr; [by apply elem_of_nil in Hr|].
  cbn [check_refs] in Hc. invert_ok. apply ensure_at_ok in H0. unfold str_in in H0. bool_to_prop.
  apply elem_of_cons in Hr as [->|Hr]; [done|]. by eapply IH.
Qed.

Lemma validate_decl_ok m name d ws : validate_decl m name d = Ok ws → decl_ok d.
Proof.
  unfold validate_decl, validate_env_interpolation. intros Hv. invert_ok.
  repeat match goal with H : ensure_at _ _ _ = Ok _ |- _ => apply ensure_at_ok in H end.
  repeat match goal with H : check_refs _ _ _ _ = Ok _ |- _ =>
    pose proof (check_refs_ok _ _ _ _ _ H); clear H end.
  split.
  - intros Hi. rewrite Hi in *. by destruct (default_value d).
  - intros t r Ht Hr. rewrite Ht in *. eauto.
  - intros t r Ht Hr. rewrite Ht in *. eauto.
Qed.

Lemma validate_decls_ok m l ws : validate_decls m l = Ok ws → ∀ n d, (n, d) ∈ l → decl_ok d.
Proof.
  revert ws. induction l as [|[n0 d0] l IH]; intros ws Hv n d Hin; [by apply elem_of_nil in Hin|].
  cbn [validate_decls] in Hv. invert_ok.
  apply elem_of_cons in Hin as [[= -> ->]|Hin]; [by eapply validate_decl_ok|by eapply IH].
Qed.

Lemma validated_decls m ws :
  validate_role_manifest m = Ok ws →
  (∀ n d, env m !! n = Some d → decl_ok d) ∧ ∃ order, topological_env_order (env m) = Ok order.
Proof.
  unfold validate_role_manifest. intros Hv. invert_ok. split; [|by eauto].
  intros n d Hd%elem_of_btree_iter. by eapply validate_decls_ok.
Qed.

(** ** The invariant of the resolution *)

(** The contract of a prompter: it answers, and it lets the operator skip only
    what may be skipped. *)
Definition polite {St} (p : EnvPrompter St) : Prop :=
  (∀ title dflt sk st, ∃ a st', prompt_text p title dflt sk st = (Ok a, st') ∧
     (a = PromptResult.Skipped → sk = true)) ∧
  (∀ title opts dflt sk st, ∃ a st', prompt_select p title opts dflt sk st = (Ok a, st') ∧
     (a = PromptResult.Skipped → sk = true)).

Section resolution.
Context {St : Type} (prompter : EnvPrompter St) (overrides : gmap string string) (decls : Decls).

(** How a name ends up, given the values and the skipped names. *)
Definition settled (vs : list (string * string)) (sk : gset string) (name : string)
    (d : EnvVarDecl) : Prop :=
  match overrides !! name with
  | Some v => (name, v) ∈ vs
  | None =>
      (∃ x, x ∈ deps_of d ∧ x ∈ sk) ∧ name ∈ sk ∨
      (∀ x, x ∈ deps_of d → x ∉ sk) ∧
      (if interactive d then name ∈ vs.*1 ∨ skippable d = true ∧ name ∈ sk
       else ∃ t, default_value d = Some t ∧ (name, interpolate t vs) ∈ vs)
  end.

Record progress (P : list string) (s : Resolving) : Prop := {
  pg_nodup : NoDup (vars s).*1;
  pg_split x : x ∈ P ↔ x ∈ (vars s).*1 ∨ x ∈ skipped s;
  pg_disjoint x : x ∈ (vars s).*1 → x ∉ skipped s;
  pg_settled n d : n ∈ P → decls !! n = Some d → settled (vars s) (skipped s) n d
}.

(** The dependencies of a name are resolved before it. *)
Definition closed (P : list string) : Prop :=
  ∀ n d x, n ∈ P → decls !! n = Some d → x ∈ deps_of d → x ∈ P.

Hypothesis Hdecls : ∀ n d, decls !! n = Some d → decl_ok d.

Lemma settled_push P s n v d m :
  closed P → m ∉ P → n ∈ P → decls !! n = Some d → progress P s →
  settled (vars (push_var m v s)) (skipped s) n d.
Proof.
  intros Hcl Hm Hn Hd Hp. pose proof (pg_settled _ _ Hp _ _ Hn Hd) as Hs.
  unfold settled in *. cbn [push_var vars] in *.
  destruct (overrides !! n); [set_solver|]. destruct Hs as [?|[Hdep Hs]]; [by left|right].
  split; [done|]. destruct (interactive d) eqn:Hi.
  - rewrite fmap_app. set_solver.
  - destruct Hs as (t & Ht & Hin). exists t. split; [done|].
    rewrite (interpolate_refs t _ (vars s)); [set_solver|]. intros r Hr.
    apply resolved_get_snoc. intros ->. apply Hm, (Hcl n d); [done..|].
    by eapply (do_value _ (Hdecls _ _ Hd)).
Qed.

Lemma settled_skip P s n d m :
  closed P → m ∉ P → n ∈ P → decls !! n = Some d → progress P s →
  settled (vars s) (skipped (skip_var m s)) n d.
Proof.
  intros Hcl Hm Hn Hd Hp. pose proof (pg_settled _ _ Hp _ _ Hn Hd) as Hs.
  unfold settled in *. cbn [skip_var skipped] in *.
  destruct (overrides !! n); [done|]. destruct Hs as [(? & ?)|[Hdep Hs]]; [left; set_solver|right].
  split.
  - intros x Hx. assert (x ∈ P) by (by eapply Hcl). assert (x ≠ m) by (by intros ->).
    specialize (Hdep x Hx). set_solver.
  - destruct (interactive d); [set_solver|done].
Qed.

Lemma progress_push P s m v d :
  closed P → m ∉ P → progress P s → decls !! m = Some d →
  settled (vars (push_var m v s)) (skipped s) m d → progress (P ++ [m]) (push_var m v s).
Proof.
  intros Hcl Hm Hp Hd Hs. assert (m ∉ (vars s).*1 ∧ m ∉ skipped s) as [Hmv Hms].
  { rewrite (pg_split _ _ Hp) in Hm. tauto. }
  split; cbn [push_var vars skipped]; rewrite ?fmap_app; cbn.
  - apply NoDup_app. split; [apply Hp|]. split; [set_solver|]. apply NoDup_singleton.
  - intros x. rewrite !elem_of_app, (pg_split _ _ Hp), list_elem_of_singleton. tauto.
  - intros x [Hx|Hx]%elem_of_app; [by apply (pg_disjoint _ _ Hp)|].
    apply list_elem_of_singleton in Hx as ->. done.
  - intros n d' [Hn|Hn]%elem_of_app Hd'.
    + by eapply (settled_push P).
    + apply list_elem_of_singleton in Hn as ->. by simplify_eq.
Qed.

Lemma progress_skip P s m d :
  closed P → m ∉ P → progress P s → decls !! m = Some d →
  settled (vars s) (skipped (skip_var m s)) m d → progress (P ++ [m]) (skip_var m s).
Proof.
  intros Hcl Hm Hp Hd Hs. assert (m ∉ (vars s).*1 ∧ m ∉ skipped s) as [Hmv Hms].
  { rewrite (pg_split _ _ Hp) in Hm. tauto. }
  split; cbn [skip_var vars skipped].
  - apply Hp.
  - intros x. rewrite elem_of_app, (pg_split _ _ Hp), list_elem_of_singleton. set_solver.
  - intros x Hx. pose proof (pg_disjoint _ _ Hp x Hx). set_solver.
  - intros n d' [Hn|Hn]%elem_of_app Hd'.
    + by eapply (settled_skip P).
    + apply list_elem_of_singleton in Hn as ->. by simplify_eq.
Qed.

Hypothesis Hpolite : polite prompter.

Lemma ask_answers name d s st :
  ∃ a st', ask prompter name d s st = (Ok a, st') ∧
           (a = PromptResult.Skipped → skippable d = true).
Proof. unfold ask. destruct Hpolite as [Ht Hsel]. destruct (options d); [apply Ht|apply Hsel]. Qed.

(** The test [dep_skipped] of the code. *)
Lemma dep_skipped_spec d (sk : gset string) :
  existsb (λ dep, match strip_prefix "env." dep with
                  | Some n => bool_decide (n ∈ sk)
                  | None => false
                  end) (depends_on d) = true ↔ ∃ x, x ∈ deps_of d ∧ x ∈ sk.
Proof.
  rewrite existsb_exists. unfold deps_of. split.
  - intros (dep & Hin & Hb). destruct (strip_prefix "env." dep) as [x|] eqn:E; [|done].
    bool_to_prop. exists x. split; [|done]. apply list_elem_of_omap. exists dep.
    split; [by apply list_elem_of_In|done].
  - intros (x & (dep & Hin & E)%list_elem_of_omap & Hx). exists dep.
    split; [by apply list_elem_of_In|]. rewrite E. by apply bool_decide_eq_true.
Qed.

Lemma resolve_one_progress P s st m d :
  closed P → m ∉ P → progress P s → decls !! m = Some d → (∀ x, x ∈ deps_of d → x ∈ P) →
  ∃ s' st', resolve_one prompter overrides decls m s st = (Ok s', st') ∧
            progress (P ++ [m]) s'.
Proof.
  intros Hcl Hm Hp Hd Hdeps. unfold resolve_one. rewrite Hd.
  destruct (overrides !! m) as [v|] eqn:Ho.
  { do 2 eexists. split; [done|]. eapply progress_push; [done..|]. unfold settled. rewrite Ho.
    cbn. set_solver. }
  destruct (existsb _ _) eqn:Hsk.
  { apply dep_skipped_spec in Hsk. do 2 eexists. split; [done|].
    eapply progress_skip; [done..|]. unfold settled. rewrite Ho. left. cbn. set_solver. }
  assert (∀ x, x ∈ deps_of d → x ∉ skipped s) as Hfree.
  { intros x Hx Hxs. apply not_true_iff_false in Hsk. apply Hsk, dep_skipped_spec. eauto. }
  destruct (interactive d) eqn:Hi; cbn [negb].
  - destruct (ask_answers m d s st) as (a & st' & -> & Hskip). destruct a as [v|].
    + do 2 eexists. split; [done|]. eapply progress_push; [done..|]. unfold settled.
      rewrite Ho, Hi. right. split; [done|]. left. cbn. rewrite fmap_app. set_solver.
    + rewrite (Hskip eq_refl). do 2 eexists. split; [done|]. eapply progress_skip; [done..|].
      unfold settled. rewrite Ho, Hi, (Hskip eq_refl). cbn.
      right. split; [|set_solver]. intros x Hx. specialize (Hfree x Hx).
      assert (x ≠ m) by (intros ->; by apply Hm, Hdeps). set_solver.
  - destruct (do_default _ (Hdecls _ _ Hd) Hi) as [t Ht]. rewrite Ht.
    do 2 eexists. split; [done|]. eapply progress_push; [done..|]. unfold settled.
    rewrite Ho, Hi. right. split; [done|]. exists t. split; [done|]. cbn [push_var vars].
    rewrite (interpolate_refs t _ (vars s)); [set_solver|]. intros r Hr.
    apply resolved_get_snoc. intros ->. apply Hm, Hdeps.
    by eapply (do_value _ (Hdecls _ _ Hd)).
Qed.

Lemma resolve_all_progress P rest s st :
  greedy decls (P ++ rest) → progress P s →
  ∃ s' st', resolve_all prompter overrides decls rest s st = (Ok s', st') ∧
            progress (P ++ rest) s'.
Proof.
  revert P s st. induction rest as [|m rest IH]; intros P s st Hg Hp; cbn [resolve_all].
  { rewrite app_nil_r. eauto. }
  destruct (Hg (length P) m) as [(Hdom & Hm & Hav) _]; [by apply list_lookup_middle|].
  rewrite take_app_length in Hm, Hav. apply elem_of_dom in Hdom as [d Hd].
  assert (∀ x, x ∈ deps_of d → x ∈ P) as Hdeps.
  { intros x Hx. apply Hav, elem_of_edges. eauto. }
  assert (closed P) as Hcl.
  { intros n d' x Hn Hd' Hx. apply list_elem_of_lookup in Hn as [i Hi].
    destruct (Hg i n) as [(_ & _ & Ha) _]; [by apply lookup_app_l_Some|].
    rewrite take_app_le in Ha by (apply lookup_lt_Some in Hi; lia).
    assert (x ∈ take i P) as Hx' by (apply Ha, elem_of_edges; eauto).
    apply elem_of_take in Hx' as (j & Hj & _). by eapply list_elem_of_lookup_2. }
  destruct (resolve_one_progress P s st m d) as (s' & st' & -> & Hp'); [done..|].
  destruct (IH (P ++ [m]) s' st') as (s'' & st'' & -> & Hp''); [by rewrite <-app_assoc|done|].
  rewrite <-app_assoc in Hp''. eauto.
Qed.

End resolution.

(** C33: A manifest that passes validation resolves.  Under any prompter that
    answers every question it is asked (the operator does not cancel, which is an error) and
    skips only what may be skipped, and any overrides, resolution succeeds, every name
    gets at most one value, and for each declared variable: an override is its value;
    otherwise it has no value when one of its dependencies has none, and when all
    of them have one, a variable that is not interactive has its default with
    every placeholder bound to the final values, and an interactive one has a
    value unless it may be skipped. *)
Theorem validated_env_resolves {St} (prompter : EnvPrompter St) overrides m ws st :
  validate_role_manifest m = Ok ws → Z.of_nat (length (edges (env m))) ≤ U64_MAX →
  polite prompter →
  ∃ vs st', resolve_env_with_overrides prompter overrides (env m) st = (Ok vs, st') ∧
    NoDup vs.*1 ∧ (∀ n, n ∈ vs.*1 → n ∈ dom (env m)) ∧
    ∀ n d, env m !! n = Some d →
      match overrides !! n with
      | Some v => (n, v) ∈ vs
      | None =>
          (∃ x, x ∈ deps_of d ∧ x ∉ vs.*1) ∧ n ∉ vs.*1 ∨
          (∀ x, x ∈ deps_of d → x ∈ vs.*1) ∧
          (if interactive d then n ∈ vs.*1 ∨ skippable d = true
           else ∃ t, default_value d = Some t ∧ (n, interpolate t vs) ∈ vs ∧
                     ∀ r, r ∈ extract_interpolation_refs t → r ∈ vs.*1)
      end.
Proof.
  intros (Hdecls & order & Horder)%validated_decls Hfit Hpolite.
  destruct (topological_outcome (env m) Hfit) as [[Hcyc _]|(order' & Ho & Hres)];
    [by rewrite Hcyc in Horder|].
  unfold resolve_env_with_overrides. rewrite Ho.
  destruct (resolve_all_progress prompter overrides (env m) Hdecls Hpolite [] order'
              (mk_resolving [] ∅) st) as (s' & st' & -> & Hp).
  { apply Hres. }
  { split; cbn; [constructor|set_solver..]. }
  cbn [app] in Hp. exists (vars s'), st'. split; [done|]. split; [apply Hp|].
  pose proof Hres as [Hg _]. destruct (greedy_NoDup _ _ Hg) as [_ Hsub]. split.
  { intros n Hn. apply elem_of_btree_keys, Hsub, (pg_split _ _ _ _ Hp). by left. }
  intros n d Hd. assert (n ∈ order') as Hn.
  { apply (resolution_order_dom (env m)); [done|]. apply elem_of_dom. eauto. }
  pose proof (pg_settled _ _ _ _ Hp _ _ Hn Hd) as Hs. unfold settled in Hs.
  destruct (overrides !! n); [done|].
  assert (∀ x, x ∈ deps_of d → x ∈ (vars s').*1 ∨ x ∈ skipped s') as Hdeps.
  { intros x Hx. apply (pg_split _ _ _ _ Hp), (greedy_resolved (env m) _ n); [done..|].
    apply elem_of_edges. eauto. }
  pose proof (pg_disjoint _ _ _ _ Hp) as Hdis.
  destruct Hs as [[(x & Hx & Hxs) Hns]|[Hfree Hs]]; [left; naive_solver|right].
  assert (∀ x, x ∈ deps_of d → x ∈ (vars s').*1) as Hin by naive_solver.
  split; [done|]. destruct (interactive d); [naive_solver|].
  destruct Hs as (t & Ht & Hv). exists t. split; [done|]. split; [done|].
  intros r Hr. apply Hin. by eapply (do_value _ (Hdecls _ _ Hd)).
Qed.

(** An operator who accepts every default and skips what has none. *)
Definition accepting : EnvPrompter () :=
  let answer (dflt : option string) (sk : bool) : PromptResult.t :=
    match dflt with
    | Some v => PromptResult.Value v
    | None => if sk then PromptResult.Skipped else PromptResult.Value ""
    end in
  mk_prompter () (λ _ dflt sk st, (Ok (answer dflt sk), st))
                 (λ _ _ dflt sk st, (Ok (answer dflt sk), st)).

Lemma accepting_polite : polite accepting.
Proof.
  split; intros; do 2 eexists; (split; [reflexivity|]); destruct dflt; try done; by destruct sk.
Qed.

Definition demo_manifest : RoleManifest :=
  mk_manifest None (Some None) None None None None None
    {[ "TEAM" := mk_decl (Some "core") true false (Some "Which team?") [] [];
       "BRANCH" := mk_decl (Some "work/${env.TEAM}") false false None [] ["env.TEAM"];
       "TICKET" := mk_decl None true true None [] [];
       "TITLE" := mk_decl (Some "${env.TICKET} on ${env.BRANCH}") false false None []
                    ["env.TICKET"; "env.BRANCH"] ]}.

Lemma validated_env_resolves_witness :
  ∃ vs, resolve_env_with_overrides accepting ∅ (env demo_manifest) () = (Ok vs, ()) ∧
        vs = [("TEAM", "core"); ("BRANCH", "work/core")] ∧ "TITLE" ∉ vs.*1.
Proof.
  destruct (validated_env_resolves accepting ∅ demo_manifest [] ()) as (vs & [] & Hr & _).
  - vm_compute. reflexivity.
  - vm_compute. discriminate.
  - apply accepting_polite.
  - exists vs. split; [exact Hr|].
    assert (vs = [("TEAM", "core"); ("BRANCH", "work/core")]) as ->.
    { assert (resolve_env_with_overrides accepting ∅ (env demo_manifest) ()
              = (Ok [("TEAM", "core"); ("BRANCH", "work/core")], ())) as He
        by (vm_compute; reflexivity). rewrite He in Hr. injection Hr as <-. reflexivity. }
    split; [reflexivity|].
    cbn. rewrite !not_elem_of_cons. repeat split; [discriminate..|apply not_elem_of_nil].
Defined.
