(* ===== verification/Paths.v ===== *)
(** * Paths and the file system

    [std::path] on Unix as the configuration code uses it: the components of a
    path, the path of a list of components, prefix and extension, the two
    lexical normalisations of the source ([container_paths.rs], [paths.rs]),
    and the interface of the file system, which is the operating system's. *)

From stdpp Require Import base list gmap strings.
From Stdlib Require Import ZArith Lia Bool Ascii.
From S2P Require Import Prelude OrderedMap.

(** ** Components *)

Module Component.
Inductive t := RootDir | CurDir | ParentDir | Normal (s : string).
#[global] Instance eq_dec : EqDecision t.
Proof. solve_decision. Defined.
End Component.

Definition is_slash (c : Ascii.ascii) : bool := Ascii.eqb c "/"%char.
Definition has_root (p : string) : bool := starts_with "/" p.

(** Empty parts and dots say nothing, except for a leading dot of a relative
    path, which [components] adds back. *)
Definition component_of (s : string) : option Component.t :=
  if str_in s [""; "."] then None
  else Some (if str_eqb s ".." then Component.ParentDir else Component.Normal s).

Definition components (p : string) : list Component.t :=
  let parts := split_on is_slash p in
  if has_root p then Component.RootDir :: omap component_of parts
  else match parts with
       | "." :: parts => Component.CurDir :: omap component_of parts
       | _ => omap component_of parts
       end.

Fixpoint ends_with_slash (s : string) : bool :=
  match s with
  | "" => false
  | String c "" => is_slash c
  | String _ s => ends_with_slash s
  end.

(** [PathBuf::push] of a relative text, [Path::join], and the path of a list of
    components. *)
Definition push_text (p s : string) : string :=
  if str_eqb p "" || ends_with_slash p then p +:+ s else p +:+ "/" +:+ s.
Definition path_join (p s : string) : string := if has_root s then s else push_text p s.

Definition push_component (p : string) (c : Component.t) : string :=
  match c with
  | Component.RootDir => "/"
  | Component.CurDir => push_text p "."
  | Component.ParentDir => push_text p ".."
  | Component.Normal s => push_text p s
  end.
Definition collect_path (cs : list Component.t) : string := foldl push_component "" cs.

(** [Path::starts_with] and [==] compare components. *)
Definition path_starts_with (p base : string) : bool :=
  bool_decide (components base `prefix_of` components p).
Definition path_eqb (p q : string) : bool := bool_decide (components p = components q).

(** [Path::extension]: what follows the last dot of the file name, if the dot is
    not its first character and the name is not [..]. *)
Definition file_name (p : string) : option string :=
  match last (components p) with
  | Some (Component.Normal s) => Some s
  | _ => None
  end.
Definition extension (p : string) : option string :=
  name ← file_name p;
  match split_once "." (str_rev name) with
  | Some (_, "") | None => None
  | Some (ext, _) => Some (str_rev ext)
  end.

Fixpoint strip_slashes (s : string) : string :=
  match s with
  | "" => ""
  | String c s' => if is_slash c then strip_slashes s' else s
  end.
(** [trim_end_matches('/')] *)
Definition trim_end_slashes (s : string) : string := str_rev (strip_slashes (str_rev s)).

Lemma trim_end_prefix s : ∃ t, s = trim_end_slashes s +:+ t.
Proof.
  unfold trim_end_slashes. rewrite <-(str_rev_involutive s). generalize (str_rev s). clear s.
  intros s. rewrite str_rev_involutive. assert (∃ p, s = p +:+ strip_slashes s) as [p Hp].
  { induction s as [|c s [p IH]]; [by exists ""|]. cbn. destruct (is_slash c); [|by exists ""].
    exists (String c p). exact (f_equal (String c) IH). }
  exists (str_rev p). rewrite <-str_rev_app. by rewrite <-Hp.
Qed.

(** ** Container paths ([container_paths.rs]) *)

Definition JACKIN_ROOT : string := "/jackin".

(** One component of the walk; the walked components are last first. *)
Definition container_step (acc : list Component.t) (c : Component.t) : list Component.t :=
  match c with
  | Component.CurDir => acc
  | Component.ParentDir =>
      match acc with
      | Component.Normal _ :: acc' => acc'
      | Component.RootDir :: _ => acc
      | _ => c :: acc
      end
  | _ => c :: acc
  end.
Definition container_normal (p : string) : list Component.t :=
  rev (foldl container_step [] (components p)).
Definition normalize_path (p : string) : string := collect_path (container_normal p).

Definition path_is_ancestor_or_equal (ancestor p : string) : bool :=
  path_starts_with (normalize_path p) (normalize_path ancestor).
Definition paths_overlap (left right : string) : bool :=
  path_is_ancestor_or_equal left right || path_is_ancestor_or_equal right left.

Definition is_jackin_owned (p : string) : bool :=
  path_is_ancestor_or_equal JACKIN_ROOT (trim p).

(** ** Host paths ([paths.rs]) *)

(** What the process knows of the host: the home directory and the working
    directory, when they can be found, and the cache directories. *)
Record Host := mk_host {
  home_dir : option string;
  current_dir : option string;
  cache_roots : list string
}.

Definition expand_tilde (h : Host) (path : string) : string :=
  match strip_prefix "~" path, home_dir h with
  | Some rest, Some home =>
      if str_eqb rest "" || starts_with "/" rest then home +:+ rest else path
  | _, _ => path
  end.

(** Unlike the normalisation of container paths, a leading [..] disappears. *)
Definition host_step (acc : list Component.t) (c : Component.t) : list Component.t :=
  match c with
  | Component.CurDir => acc
  | Component.ParentDir =>
      match acc with
      | Component.Normal _ :: acc' => acc'
      | _ => acc
      end
  | _ => c :: acc
  end.
Definition normalize_host (p : string) : string :=
  collect_path (rev (foldl host_step [] (components p))).

Definition resolve_path (h : Host) (path : string) : string :=
  let expanded := expand_tilde h path in
  if starts_with "/" expanded then normalize_host expanded
  else match current_dir h with
       | Some cwd => normalize_host (path_join cwd expanded)
       | None => expanded
       end.

(** ** The file system *)

Inductive canon := Canonical (p : string) | NotFound (msg : string) | IoFailed (msg : string).

Class FileSystem (Fs : Type) := {
  fs_exists : Fs → string → bool;
  fs_create_dir_all : Fs → string → bool * Fs;
  fs_canonicalize : Fs → string → canon
}.

(** Creating directories makes the path exist and removes nothing. *)
Class FileSystemLaws (Fs : Type) `{FileSystem Fs} : Prop := {
  created_exists fs p fs' : fs_create_dir_all fs p = (true, fs') → fs_exists fs' p = true;
  create_keeps fs p ok fs' q :
    fs_create_dir_all fs p = (ok, fs') → fs_exists fs q = true → fs_exists fs' q = true
}.

(** A file system that is a set of paths. *)
#[global] Instance set_fs : FileSystem (gset string) := {|
  fs_exists fs p := bool_decide (p ∈ fs);
  fs_create_dir_all fs p := (true, {[p]} ∪ fs);
  fs_canonicalize fs p := if bool_decide (p ∈ fs) then Canonical p else NotFound "no such file"
|}.
#[global] Instance set_fs_laws : FileSystemLaws (gset string).
Proof.
  split; cbn.
  - intros fs p fs' [= <-]. apply bool_decide_eq_true. set_solver.
  - intros fs p ok fs' q [= <- <-] Hq. bool_to_prop. apply bool_decide_eq_true. set_solver.
Qed.

Example components_samples :
  components "/a//b/./c/" = [Component.RootDir; Component.Normal "a"; Component.Normal "b";
                             Component.Normal "c"] ∧
  components "./a/.." = [Component.CurDir; Component.Normal "a"; Component.ParentDir] ∧
  normalize_path "/a/b/../c" = "/a/c" ∧ normalize_path "../x" = "../x" ∧
  normalize_host "/../x/y/.." = "/x" ∧ extension "/c/a.tar.gz" = Some "gz" ∧
  extension "/c/.bashrc" = None ∧ trim_end_slashes "/a/b//" = "/a/b" ∧
  paths_overlap "/jackin/run" JACKIN_ROOT = true ∧ paths_overlap "/jackinx" JACKIN_ROOT = false.
Proof. vm_compute. done. Qed.
