(* ===== verification/Config.v ===== *)
(** * Workspace and mount configuration

    The configuration of jackin-config and the selectors of jackin-core: role
    selectors, mounts and their redundancy planner, the validation of a
    workspace, the workspaces of a configuration with their create and edit
    operations, global mounts and their scopes, and the resolution of what a
    launch mounts.  Records keep the fields these operations read or write; the
    others are carried through unchanged by the source. *)

From stdpp Require Import base list gmap strings sorting.
From Stdlib Require Import ZArith Lia Bool.
From S2P Require Import Prelude OrderedMap Paths EnvModel.

(** ** Errors

    [Message] carries the format string of the call to [ConfigError::msg] and
    the texts it interpolates. *)

Module MountIsolation.
Inductive t := Shared | Worktree | Clone.
#[global] Instance eq_dec : EqDecision t.
Proof. solve_decision. Defined.
Definition is_shared (i : t) : bool := match i with Shared => true | _ => false end.
Definition as_str (i : t) : string :=
  match i with Shared => "shared" | Worktree => "worktree" | Clone => "clone" end.
Definition from_str (s : string) : option t :=
  if str_eqb s "shared" then Some Shared
  else if str_eqb s "worktree" then Some Worktree
  else if str_eqb s "clone" then Some Clone else None.
End MountIsolation.

Record MountConfig := mk_mount {
  src : string;
  dst : string;
  readonly : bool;
  isolation : MountIsolation.t
}.
#[global] Instance mount_eq_dec : EqDecision MountConfig.
Proof. solve_decision. Defined.

Module CollapseError.
Inductive t :=
| ReadonlyMismatch (parent child : MountConfig)
| ChildUnderExistingParent (parent child : MountConfig)
| PlannerInvariant (message : string).
#[global] Instance eq_dec : EqDecision t.
Proof. solve_decision. Defined.
End CollapseError.

Module WorkspaceNameError.
Inductive t := Empty | Reserved (s : string) | PathSeparator (s : string).
#[global] Instance eq_dec : EqDecision t.
Proof. solve_decision. Defined.
End WorkspaceNameError.

Inductive ConfigError :=
| Io (msg : string)
| WorkspaceName_ (e : WorkspaceNameError.t)
| Collapse (e : CollapseError.t)
| Message (fmt : string) (args : list string)
| UnknownWorkspace (name : string)
| WorkdirRequired (name : string)
| WorkdirNotAbsolute (name : string)
| MountsRequired (name : string)
| MountSrcNotAbsolute (s : string)
| MountDstNotAbsolute (s : string)
| DuplicateMountDst (s : string)
| MountSrcMissing (s : string).

(** ** Selectors ([selector.rs]) *)

Definition CONTAINER_PREFIX_DASH : string := "jk-".

Record RoleSelector := mk_selector { namespace : option string; sel_name : string }.
#[global] Instance selector_eq_dec : EqDecision RoleSelector.
Proof. solve_decision. Defined.

Module SelectorError.
Inductive t := Empty | Invalid (s : string).
End SelectorError.

(** [RoleSelector::key], the [Display] of a selector. *)
Definition selector_key (s : RoleSelector) : string :=
  match namespace s with
  | Some ns => ns +:+ "/" +:+ sel_name s
  | None => sel_name s
  end.

Definition lower_or_digit (b : Byte.byte) : bool :=
  between 97 122 (Z_of_byte b) || is_digit b.
Definition is_valid_role_segment (value : string) : bool :=
  negb (str_eqb value "")
  && forallb (λ b, lower_or_digit b || (Z_of_byte b =? 45)) (as_bytes value).
Definition is_reserved_builtin_role_name (value : string) : bool :=
  starts_with CONTAINER_PREFIX_DASH value.
Definition is_valid_container_name (value : string) : bool :=
  match strip_prefix CONTAINER_PREFIX_DASH value with
  | Some suffix =>
      negb (str_eqb suffix "")
      && forallb (λ b, lower_or_digit b || (Z_of_byte b =? 45) || (Z_of_byte b =? 95))
           (as_bytes suffix)
  | None => false
  end.

Definition parse_role (input : string) : SelectorError.t + RoleSelector :=
  if str_eqb input "" then inl SelectorError.Empty
  else
    let input := to_ascii_lowercase input in
    match split_on is_slash input with
    | [name] =>
        if is_valid_role_segment name && negb (is_reserved_builtin_role_name name)
        then inr (mk_selector None name)
        else inl (SelectorError.Invalid input)
    | [ns; name] =>
        if is_valid_role_segment ns && is_valid_role_segment name
        then inr (mk_selector (Some ns) name)
        else inl (SelectorError.Invalid input)
    | _ => inl (SelectorError.Invalid input)
    end.

Definition runtime_slug (s : RoleSelector) : string :=
  match namespace s with
  | Some ns => ns +:+ "_" +:+ sel_name s
  | None => sel_name s
  end.

Module Selector.
Inductive t := Role (r : RoleSelector) | Container (name : string).
End Selector.

Definition parse_selector (input : string) : SelectorError.t + Selector.t :=
  if str_eqb input "" then inl SelectorError.Empty
  else if is_valid_container_name input then inr (Selector.Container input)
  else r ← parse_role input; inr (Selector.Role r).

(** [WorkspaceName::parse] on Unix. *)
Definition parse_workspace_name (input : string) : WorkspaceNameError.t + string :=
  if str_eqb input "" then inl WorkspaceNameError.Empty
  else if str_in input ["."; ".."] then inl (WorkspaceNameError.Reserved input)
  else if str_contains "/" input || str_contains "\" input
  then inl (WorkspaceNameError.PathSeparator input)
  else inr input.

(** ** Mount specifications ([mounts.rs]) *)

Definition parse_mount_spec_inner (h : Host) (spec : string) (resolve : bool) : MountConfig :=
  let '(raw, ro) := match strip_suffix ":ro" spec with
                    | Some value => (value, true)
                    | None => (spec, false)
                    end in
  let '(s, d) := default (raw, raw) (split_once ":" raw) in
  let expanded := if resolve then resolve_path h s else expand_tilde h s in
  mk_mount expanded (if str_eqb s d then expanded else d) ro MountIsolation.Shared.

Definition parse_mount_spec (h : Host) (spec : string) : MountConfig :=
  parse_mount_spec_inner h spec false.
Definition parse_mount_spec_resolved (h : Host) (spec : string) : MountConfig :=
  parse_mount_spec_inner h spec true.

(** ** The redundancy planner ([planner.rs]) *)

Definition covers (parent child : MountConfig) : bool :=
  let parent_src := trim_end_slashes (src parent) in
  let parent_dst := trim_end_slashes (dst parent) in
  let child_src := trim_end_slashes (src child) in
  let child_dst := trim_end_slashes (dst child) in
  if str_eqb parent_src child_src && str_eqb parent_dst child_dst then false
  else match strip_prefix parent_src child_src with
       | None => false
       | Some src_suffix =>
           if negb (starts_with "/" src_suffix) then false
           else match strip_prefix parent_dst child_dst with
                | None => false
                | Some dst_suffix => str_eqb src_suffix dst_suffix
                end
       end.

Record Removal := mk_removal { child : MountConfig; covered_by : MountConfig }.
Record CollapsePlan := mk_plan { kept : list MountConfig; removed : list Removal }.

Definition find_parent (mounts : list MountConfig) (i : nat) (m : MountConfig)
    : option (nat * MountConfig) :=
  list_find (λ jp : nat * MountConfig, jp.1 ≠ i ∧ covers jp.2 m = true) (imap pair mounts)
  ≫= λ r, Some r.2.

Fixpoint collapse_loop (mounts : list MountConfig) (new_indexes : list nat)
    (rest : list (nat * MountConfig)) : CollapseError.t + CollapsePlan :=
  match rest with
  | [] => inr (mk_plan [] [])
  | (i, m) :: rest =>
      match find_parent mounts i m with
      | Some (j, p) =>
          if negb (Bool.eqb (readonly p) (readonly m))
          then inl (CollapseError.ReadonlyMismatch p m)
          else if bool_decide (i ∈ new_indexes) && negb (bool_decide (j ∈ new_indexes))
          then inl (CollapseError.ChildUnderExistingParent p m)
          else plan ← collapse_loop mounts new_indexes rest;
               inr (mk_plan (kept plan) (mk_removal m p :: removed plan))
      | None =>
          plan ← collapse_loop mounts new_indexes rest;
          inr (mk_plan (m :: kept plan) (removed plan))
      end
  end.

Definition plan_collapse (mounts : list MountConfig) (new_indexes : list nat)
    : CollapseError.t + CollapsePlan :=
  collapse_loop mounts new_indexes (imap pair mounts).

Record WorkspaceCreatePlan := mk_create_plan {
  final_mounts : list MountConfig;
  collapsed : list Removal
}.
Record WorkspaceEditPlan := mk_edit_plan {
  effective_removals : list string;
  edit_driven_collapses : list Removal;
  pre_existing_collapses : list Removal
}.

Definition plan_create (mounts : list MountConfig) : CollapseError.t + WorkspaceCreatePlan :=
  plan ← plan_collapse mounts (seq 0 (length mounts));
  inr (mk_create_plan (kept plan) (removed plan)).

(** [position(|m| m.dst == upsert.dst)], then replace in place or append; the
    index of the mount is new. *)
Definition upsert (st : list MountConfig * list nat) (u : MountConfig)
    : list MountConfig * list nat :=
  match list_find (λ m, dst m = dst u) st.1 with
  | Some (pos, _) => (<[pos := u]> st.1, st.2 ++ [pos])
  | None => (st.1 ++ [u], st.2 ++ [length st.1])
  end.

Definition position (m : MountConfig) (l : list MountConfig) : option nat :=
  fst <$> list_find (λ x, x = m) l.

(** The sorting of removals into those that an edit drives and the others. *)
Fixpoint sort_removals (mounts : list MountConfig) (new_indexes : list nat) (l : list Removal)
    : CollapseError.t + (list Removal * list Removal) :=
  match l with
  | [] => inr ([], [])
  | r :: l =>
      child_idx ← opt_err (position (child r) mounts)
                    (CollapseError.PlannerInvariant "child must appear in post_upsert list");
      parent_idx ← opt_err (position (covered_by r) mounts)
                     (CollapseError.PlannerInvariant "parent must appear in post_upsert list");
      rest ← sort_removals mounts new_indexes l;
      inr (if bool_decide (child_idx ∈ new_indexes) || bool_decide (parent_idx ∈ new_indexes)
           then (r :: rest.1, rest.2) else (rest.1, r :: rest.2))
  end.

Definition add_removal (acc : list string) (r : Removal) : list string :=
  if str_in (dst (child r)) acc then acc else acc ++ [dst (child r)].

(** A workspace as far as the planner reads it is its work directory and its
    mounts. *)
Definition post_upsert (workdir : string) (mounts upserts : list MountConfig)
    (remove_destinations : list string) (no_workdir_mount : bool)
    : list MountConfig * list nat :=
  let base := filter (λ m, dst m ∉ remove_destinations) mounts in
  let base := if no_workdir_mount
              then filter (λ m, ¬ (src m = workdir ∧ dst m = workdir)) base else base in
  foldl upsert (base, []) upserts.

Definition plan_edit (workdir : string) (mounts upserts : list MountConfig)
    (remove_destinations : list string) (no_workdir_mount : bool)
    : CollapseError.t + WorkspaceEditPlan :=
  let '(post, new_indexes) :=
    post_upsert workdir mounts upserts remove_destinations no_workdir_mount in
  plan ← plan_collapse post new_indexes;
  sorted ← sort_removals post new_indexes (removed plan);
  inr (mk_edit_plan (foldl add_removal remove_destinations (removed plan)) sorted.1 sorted.2).

Definition apply_isolation_override (mounts : list MountConfig)
    (o : string * MountIsolation.t) : ConfigError + list MountConfig :=
  match list_find (λ m, dst m = o.1) mounts with
  | Some (i, m) => inr (<[i := mk_mount (src m) (dst m) (readonly m) o.2]> mounts)
  | None => inl (Message "--mount-isolation references unknown destination `{dst}`" [o.1])
  end.

Fixpoint apply_isolation_overrides (mounts : list MountConfig)
    (overrides : list (string * MountIsolation.t)) : ConfigError + list MountConfig :=
  match overrides with
  | [] => inr mounts
  | o :: overrides =>
      mounts ← apply_isolation_override mounts o;
      apply_isolation_overrides mounts overrides
  end.

(** ** Validation ([schema.rs], [validation.rs]) *)

Definition has_dot_component (p : string) : bool :=
  existsb (λ c, str_in c ["."; ".."])
    (split_on (λ c, is_slash c || Ascii.eqb c (Ascii.ascii_of_nat 92)) p).

Fixpoint check_mount_specs (seen : gset string) (mounts : list MountConfig) : ConfigError + () :=
  match mounts with
  | [] => inr ()
  | m :: mounts =>
      _ ← check (has_root (src m)) (MountSrcNotAbsolute (src m));
      _ ← check (starts_with "/" (dst m)) (MountDstNotAbsolute (dst m));
      _ ← check (negb (has_dot_component (src m)))
            (Message "mount source must not contain `.` or `..` components: {}" [src m]);
      _ ← check (negb (has_dot_component (dst m)))
            (Message "mount destination must not contain `.` or `..` components: {}" [dst m]);
      _ ← check (negb (bool_decide (dst m ∈ seen))) (DuplicateMountDst (dst m));
      check_mount_specs ({[dst m]} ∪ seen) mounts
  end.
Definition validate_mount_specs (mounts : list MountConfig) : ConfigError + () :=
  check_mount_specs ∅ mounts.

Record KeepAwakeConfig := mk_keep_awake { enabled : bool }.

(** The value types of configured environment variables. *)
Module EnvValue.
Inductive t :=
| OpRef (op path : string) (account : option string) (on_demand : bool)
| Extended (value : string) (on_demand : bool)
| Plain (s : string).
End EnvValue.

Module GithubAuthMode.
Inductive t := Sync | Token | Ignore.
End GithubAuthMode.
Record GithubAuthConfig := mk_github {
  auth_forward : GithubAuthMode.t;
  gh_env : gmap string EnvValue.t
}.

Module DirtyExitPolicy.
Inductive t := Ask | Keep | Discard.
End DirtyExitPolicy.

Record WorkspaceRoleOverride := mk_role_override {
  ro_default_launch : option (list string);
  ro_github : option GithubAuthConfig
}.

Record WorkspaceConfig := mk_workspace {
  workdir : string;
  mounts : list MountConfig;
  allowed_roles : list string;
  default_role : option string;
  default_agent : option Agent.t;
  last_role : option string;
  ws_roles : gmap string WorkspaceRoleOverride;
  keep_awake : KeepAwakeConfig;
  ws_github : option GithubAuthConfig;
  git_pull_on_entry : bool;
  ws_default_launch : option (list string);
  ws_dirty_exit_policy : option DirtyExitPolicy.t
}.

(** [WorkspaceConfig { workdir, mounts, ..Default::default() }] *)
Definition plain_workspace (workdir : string) (mounts : list MountConfig) : WorkspaceConfig :=
  mk_workspace workdir mounts [] None None None ∅ (mk_keep_awake false) None false None None.

Definition resolved_agent (w : WorkspaceConfig) : Agent.t :=
  default Agent.Claude (default_agent w).

Section validation.
Context `{FileSystem Fs} (h : Host).

Definition canonicalize_if_present (fs : Fs) (p : string) : ConfigError + option string :=
  match fs_canonicalize fs p with
  | Canonical q => inr (Some q)
  | NotFound _ => inr None
  | IoFailed msg => inl (Io msg)
  end.

Definition same_host_repo (fs : Fs) (a b : string) : ConfigError + bool :=
  let a := resolve_path h a in
  let b := resolve_path h b in
  x ← canonicalize_if_present fs a;
  y ← canonicalize_if_present fs b;
  inr (match x, y with
       | Some x, Some y => path_eqb x y
       | _, _ => path_eqb a b
       end).

Definition is_strict_ancestor (parent child : string) : bool :=
  let parent := resolve_path h parent in
  let child := resolve_path h child in
  negb (path_eqb parent child) && path_is_ancestor_or_equal parent child.

(** A pair of isolated mounts, the first before the second. *)
Definition isolation_pair (fs : Fs) (ma mb : MountConfig) : ConfigError + () :=
  let a := trim_end_slashes (dst ma) in
  let b := trim_end_slashes (dst mb) in
  if is_strict_ancestor a b || is_strict_ancestor b a then
    let '(outer, inner) := if is_strict_ancestor a b then (a, b) else (b, a) in
    inl (Message "isolated mount `{inner}` cannot be nested inside isolated mount `{outer}`"
           [inner; outer])
  else if bool_decide (isolation ma = MountIsolation.Worktree)
          && bool_decide (isolation mb = MountIsolation.Worktree) then
    same ← same_host_repo fs (src ma) (src mb);
    check (negb same)
      (Message "isolated mounts `{}` and `{}` cannot share the same host repository `{}`"
         [dst ma; dst mb; src ma])
  else inr ().

Fixpoint isolation_against (fs : Fs) (ma : MountConfig) (rest : list MountConfig)
    : ConfigError + () :=
  match rest with
  | [] => inr ()
  | mb :: rest => _ ← isolation_pair fs ma mb; isolation_against fs ma rest
  end.

Fixpoint isolation_all (fs : Fs) (isolated : list MountConfig) : ConfigError + () :=
  match isolated with
  | [] => inr ()
  | ma :: rest => _ ← isolation_against fs ma rest; isolation_all fs rest
  end.

Definition validate_isolation_layout (fs : Fs) (mounts : list MountConfig) : ConfigError + () :=
  isolation_all fs (filter (λ m, MountIsolation.is_shared (isolation m) = false) mounts).

(** The container paths a work directory may not overlap. *)
Definition PROTECTED_ROOTS : list string := ["/home/agent"; JACKIN_ROOT].

Fixpoint check_protected (w : string) (roots : list string) : ConfigError + () :=
  match roots with
  | [] => inr ()
  | r :: roots =>
      _ ← check (negb (paths_overlap w (normalize_path r)))
            (Message "workspace workdir {workdir:?} overlaps capsule-protected path" [w; r]);
      check_protected w roots
  end.

Definition validate_container_workdir_boundary (workdir : string) : ConfigError + string :=
  let w := normalize_path workdir in
  _ ← check (has_root w) (Message "workspace workdir must be absolute" []);
  _ ← check_protected w PROTECTED_ROOTS;
  inr w.

Definition validate_workspace_config (fs : Fs) (name : string) (w : WorkspaceConfig)
    : ConfigError + () :=
  _ ← check (negb (str_eqb (workdir w) "")) (WorkdirRequired name);
  _ ← check (starts_with "/" (workdir w)) (WorkdirNotAbsolute name);
  normalized ← validate_container_workdir_boundary (workdir w);
  _ ← check (negb (bool_decide (mounts w = []))) (MountsRequired name);
  _ ← validate_mount_specs (mounts w);
  _ ← validate_isolation_layout fs (mounts w);
  _ ← check (existsb (λ m, paths_overlap normalized (normalize_path (dst m))) (mounts w))
        (Message "workspace {name:?} workdir must be equal to, inside, or a parent of one of the workspace mount destinations" [name]);
  match default_role w with
  | Some role =>
      check (bool_decide (allowed_roles w = []) || str_in role (allowed_roles w))
        (Message "workspace {name:?} default_role must be a member of allowed_roles when allowed_roles is set" [name])
  | None => inr ()
  end.

Fixpoint validate_mount_paths (fs : Fs) (mounts : list MountConfig) : ConfigError + () :=
  match mounts with
  | [] => inr ()
  | m :: mounts =>
      _ ← check (fs_exists fs (src m)) (MountSrcMissing (src m));
      validate_mount_paths fs mounts
  end.

Definition validate_mounts (fs : Fs) (mounts : list MountConfig) : ConfigError + () :=
  _ ← validate_mount_specs mounts; validate_mount_paths fs mounts.

(** ** Healing of mount sources *)

Record HealedMountSource := mk_healed {
  hs_name : option string;
  hs_src : string;
  hs_dst : string
}.
Record MountHealReport := mk_report {
  recreated : list HealedMountSource;
  healed_skipped : list HealedMountSource
}.
Definition merge_report (a b : MountHealReport) : MountHealReport :=
  mk_report (recreated a ++ recreated b) (healed_skipped a ++ healed_skipped b).

Fixpoint ensure_mount_sources (fs : Fs) (l : list (option string * MountConfig))
    (roots : list string) : (list MountConfig * MountHealReport) * Fs :=
  match l with
  | [] => ([], mk_report [] [], fs)
  | (name, m) :: l =>
      let healed := mk_healed name (src m) (dst m) in
      if fs_exists fs (src m) || negb (existsb (path_starts_with (src m)) roots) then
        let '(kept, report, fs) := ensure_mount_sources fs l roots in
        (m :: kept, report, fs)
      else if bool_decide (default "" (extension (src m)) ≠ "") then
        let '(kept, report, fs) := ensure_mount_sources fs l roots in
        (kept, mk_report (recreated report) (healed :: healed_skipped report), fs)
      else
        let '(ok, fs) := fs_create_dir_all fs (src m) in
        let '(kept, report, fs) := ensure_mount_sources fs l roots in
        (m :: kept,
         if ok then mk_report (healed :: recreated report) (healed_skipped report) else report,
         fs)
  end.

End validation.

(** ** The configuration ([app_config.rs] and its modules) *)

Record GlobalMountConfig := mk_global_mount {
  g_src : string;
  g_dst : string;
  g_readonly : bool
}.
(** [MountConfig::from] *)
Definition of_global (g : GlobalMountConfig) : MountConfig :=
  mk_mount (g_src g) (g_dst g) (g_readonly g) MountIsolation.Shared.

Module MountEntry.
Inductive t := Mount (g : GlobalMountConfig) | Scoped (m : gmap string GlobalMountConfig).
End MountEntry.

Record RoleSource := mk_role_source {
  git : string;
  trusted : bool;
  rs_env : gmap string EnvValue.t
}.

(** Of an agent configuration only the presence of its id is read. *)
Record AppConfig := mk_config {
  agent_configurations : gset string;
  default_launch : option (list string);
  github : option GithubAuthConfig;
  roles : gmap string RoleSource;
  docker_mounts : gmap string MountEntry.t;
  workspaces : gmap string WorkspaceConfig;
  dirty_exit_policy : option DirtyExitPolicy.t
}.

Definition with_workspaces (f : gmap string WorkspaceConfig → gmap string WorkspaceConfig)
    (c : AppConfig) : AppConfig :=
  mk_config (agent_configurations c) (default_launch c) (github c) (roles c) (docker_mounts c)
    (f (workspaces c)) (dirty_exit_policy c).
Definition with_roles (f : gmap string RoleSource → gmap string RoleSource) (c : AppConfig)
    : AppConfig :=
  mk_config (agent_configurations c) (default_launch c) (github c) (f (roles c))
    (docker_mounts c) (workspaces c) (dirty_exit_policy c).
Definition with_docker_mounts (f : gmap string MountEntry.t → gmap string MountEntry.t)
    (c : AppConfig) : AppConfig :=
  mk_config (agent_configurations c) (default_launch c) (github c) (roles c)
    (f (docker_mounts c)) (workspaces c) (dirty_exit_policy c).

Definition resolve_dirty_exit_policy (c : AppConfig) (w : option WorkspaceConfig)
    : DirtyExitPolicy.t :=
  match w ≫= ws_dirty_exit_policy with
  | Some p => p
  | None => default DirtyExitPolicy.Ask (dirty_exit_policy c)
  end.

(** ** Workspaces of a configuration ([workspaces.rs]) *)

Record WorkspaceEdit := mk_edit {
  we_workdir : option string;
  upsert_mounts : list MountConfig;
  remove_destinations : list string;
  no_workdir_mount : bool;
  allowed_roles_to_add : list string;
  allowed_roles_to_remove : list string;
  we_default_role : option (option string);
  we_default_agent : option (option Agent.t);
  mount_isolation_overrides : list (string * MountIsolation.t);
  keep_awake_enabled : option bool;
  git_pull_on_entry_enabled : option bool;
  we_default_launch : option (option (list string))
}.

Definition require_workspace (c : AppConfig) (name : string) : ConfigError + WorkspaceConfig :=
  opt_err (workspaces c !! name) (UnknownWorkspace name).

(** [{} covered by {}] for each removal, in the error about redundant mounts. *)
Definition removal_lines (l : list Removal) : list string :=
  (λ r, src (child r) +:+ " covered by " +:+ src (covered_by r)) <$> l.

(** The check both operations make: nothing is redundant. *)
Definition check_collapse (fmt name : string) (ms : list MountConfig) (new_indexes : list nat)
    : ConfigError + () :=
  plan ← lift_err Collapse (plan_collapse ms new_indexes);
  check (bool_decide (removed plan = []) ) (Message fmt (name :: removal_lines (removed plan))).

#[global] Instance removal_eq_dec : EqDecision Removal.
Proof. solve_decision. Defined.

Section operations.
Context `{FileSystem Fs} (h : Host) (fs : Fs).

Definition create_workspace (c : AppConfig) (name : string) (w : WorkspaceConfig)
    : ConfigError + AppConfig :=
  _ ← check (negb (present (workspaces c !! name)))
        (Message "workspace {name:?} already exists; use `workspace edit`" [name]);
  _ ← validate_workspace_config h fs name w;
  _ ← check_collapse "workspace {name:?} initial mounts contain redundant entries" name
        (mounts w) (seq 0 (length (mounts w)));
  inr (with_workspaces <[name := w]> c).

Fixpoint check_upserts (seen : gset string) (l : list MountConfig) : ConfigError + () :=
  match l with
  | [] => inr ()
  | m :: l =>
      _ ← check (negb (bool_decide (dst m ∈ seen)))
            (Message "duplicate workspace edit mount destination: {}" [dst m]);
      check_upserts ({[dst m]} ∪ seen) l
  end.

Fixpoint remove_mounts (ms : list MountConfig) (l : list string)
    : ConfigError + list MountConfig :=
  match l with
  | [] => inr ms
  | d :: l =>
      let rest := filter (λ m, dst m ≠ d) ms in
      _ ← check (negb (bool_decide (length rest = length ms)))
            (Message "unknown workspace mount destination: {dst}" [d]);
      remove_mounts rest l
  end.

Definition remove_workdir_mount (w : string) (ms : list MountConfig)
    : ConfigError + list MountConfig :=
  let rest := filter (λ m, ¬ (src m = w ∧ dst m = w)) ms in
  _ ← check (negb (bool_decide (length rest = length ms)))
        (Message "no auto-mounted workdir found (mount where src = dst = {workdir})" [w]);
  inr rest.

(** [find(dst)], then replace in place or append. *)
Definition upsert_mount (ms : list MountConfig) (u : MountConfig) : list MountConfig :=
  match list_find (λ m, dst m = dst u) ms with
  | Some (pos, _) => <[pos := u]> ms
  | None => ms ++ [u]
  end.

(** The mounts of a workspace after an edit, before the checks. *)
Definition edited_mounts (w : string) (ms : list MountConfig) (e : WorkspaceEdit)
    : ConfigError + list MountConfig :=
  ms ← remove_mounts ms (remove_destinations e);
  ms ← (if no_workdir_mount e then remove_workdir_mount w ms else inr ms);
  apply_isolation_overrides (foldl upsert_mount ms (upsert_mounts e))
    (mount_isolation_overrides e).

Definition add_role (l : list string) (r : string) : list string :=
  if str_in r l then l else l ++ [r].
Definition edited_roles (l : list string) (e : WorkspaceEdit) : list string :=
  foldl (λ l r, filter (λ x, x ≠ r) l) (foldl add_role l (allowed_roles_to_add e))
    (allowed_roles_to_remove e).

Fixpoint validate_default_launch_ids (c : AppConfig) (name : string) (ids : list string)
    : ConfigError + () :=
  match ids with
  | [] => inr ()
  | id :: ids =>
      _ ← check (bool_decide (id ∈ agent_configurations c))
            (Message "workspace {name} default_launch names unknown agent configuration {id:?}"
               [name; id]);
      validate_default_launch_ids c name ids
  end.

Definition edit_workspace (c : AppConfig) (name : string) (e : WorkspaceEdit)
    : ConfigError + AppConfig :=
  _ ← check_upserts ∅ (upsert_mounts e);
  w ← require_workspace c name;
  let wd := default (workdir w) (we_workdir e) in
  ms ← edited_mounts wd (mounts w) e;
  _ ← match we_default_launch e with
      | Some (Some ids) => validate_default_launch_ids c name ids
      | _ => inr ()
      end;
  let w' := mk_workspace wd ms (edited_roles (allowed_roles w) e)
              (default (default_role w) (we_default_role e))
              (default (default_agent w) (we_default_agent e))
              (last_role w) (ws_roles w)
              (mk_keep_awake (default (enabled (keep_awake w)) (keep_awake_enabled e)))
              (ws_github w)
              (default (git_pull_on_entry w) (git_pull_on_entry_enabled e))
              (default (ws_default_launch w) (we_default_launch e))
              (ws_dirty_exit_policy w) in
  _ ← check_collapse "workspace {name} would contain redundant mounts after this edit" name
        (mounts w') [];
  _ ← validate_workspace_config h fs name w';
  inr (with_workspaces <[name := w']> c).

Definition remove_workspace (c : AppConfig) (name : string) : ConfigError + AppConfig :=
  _ ← opt_err (workspaces c !! name) (UnknownWorkspace name);
  inr (with_workspaces (delete name) c).

Fixpoint validate_workspace_list (l : list (string * WorkspaceConfig)) : ConfigError + () :=
  match l with
  | [] => inr ()
  | (name, w) :: l =>
      name ← lift_err WorkspaceName_ (parse_workspace_name name);
      _ ← validate_workspace_config h fs name w;
      validate_workspace_list l
  end.
Definition validate_workspaces (c : AppConfig) : ConfigError + () :=
  validate_workspace_list (btree_iter (workspaces c)).

End operations.

Definition list_workspaces (c : AppConfig) : list (string * WorkspaceConfig) :=
  btree_iter (workspaces c).

(** ** Roles ([roles.rs]) *)

Definition workspace_key (w : option string) : string := default "" w.

Definition resolve_github_mode (c : AppConfig) (workspace : option string) (role : string)
    : GithubAuthMode.t :=
  let ws := workspaces c !! workspace_key workspace in
  match w ← ws; ro ← ws_roles w !! role; ro_github ro with
  | Some g => auth_forward g
  | None =>
      match w ← ws; ws_github w with
      | Some g => auth_forward g
      | None => default GithubAuthMode.Sync (auth_forward <$> github c)
      end
  end.

(** Later layers win. *)
Definition build_github_env_layers (c : AppConfig) (workspace : option string) (role : string)
    : gmap string EnvValue.t :=
  let ws := workspaces c !! workspace_key workspace in
  let layers := [github c; w ← ws; ws_github w;
                 w ← ws; ro ← ws_roles w !! role; ro_github ro] in
  foldl (λ merged layer, default ∅ (gh_env <$> layer) ∪ merged) ∅ layers.

Definition BUILTIN_ROLES : list (string * string) := [
  ("agent-smith", "https://github.com/jackin-project/jackin-agent-smith.git");
  ("the-architect", "https://github.com/jackin-project/jackin-the-architect.git")
].

Definition resolve_role_source (c : AppConfig) (s : RoleSelector)
    : ConfigError + (RoleSource * bool * AppConfig) :=
  match roles c !! selector_key s with
  | Some source => inr (source, false, c)
  | None =>
      ns ← opt_err (namespace s) (Message "unknown selector {}" [selector_key s]);
      let repo := if starts_with "jackin-" (sel_name s) then sel_name s
                  else "jackin-" +:+ sel_name s in
      let source := mk_role_source
                      ("https://github.com/" +:+ ns +:+ "/" +:+ repo +:+ ".git") false ∅ in
      inr (source, true, with_roles <[selector_key s := source]> c)
  end.

Definition set_trust (t : bool) (c : AppConfig) (key : string) : bool * AppConfig :=
  match roles c !! key with
  | Some r =>
      if Bool.eqb (trusted r) t then (false, c)
      else (true, with_roles <[key := mk_role_source (git r) t (rs_env r)]> c)
  | None => (false, c)
  end.
Definition trust_agent : AppConfig → string → bool * AppConfig := set_trust true.
Definition untrust_agent : AppConfig → string → bool * AppConfig := set_trust false.

Definition is_builtin_agent (key : string) : bool := existsb (λ p, str_eqb p.1 key) BUILTIN_ROLES.

Definition sync_builtin (st : bool * AppConfig) (p : string * string) : bool * AppConfig :=
  match roles st.2 !! p.1 with
  | Some r =>
      if str_eqb (git r) p.2 && trusted r then st
      else (true, with_roles <[p.1 := mk_role_source p.2 true ∅]> st.2)
  | None => (true, with_roles <[p.1 := mk_role_source p.2 true ∅]> st.2)
  end.
Definition sync_builtin_agents (c : AppConfig) : bool * AppConfig :=
  foldl sync_builtin (false, c) BUILTIN_ROLES.

Definition effective_default_launch (c : AppConfig) (workspace : option string) (role : string)
    : option (list string) :=
  match workspace with
  | Some name =>
      w ← workspaces c !! name;
      match ro ← ws_roles w !! role; ro_default_launch ro with
      | Some l => Some l
      | None => match ws_default_launch w with Some l => Some l | None => default_launch c end
      end
  | None => default_launch c
  end.

(** ** Global mounts ([app_config/mounts.rs]) *)

Record GlobalMountRow := mk_row {
  scope : option string;
  row_name : string;
  row_mount : MountConfig
}.

Definition insert_row (sc : option string) (by_name : gmap string GlobalMountRow)
    (p : string * GlobalMountConfig) : gmap string GlobalMountRow :=
  <[p.1 := mk_row sc p.1 (of_global p.2)]> by_name.

(** The mounts of one scope. *)
Definition scope_mounts (c : AppConfig) (sc : option string) : list (string * GlobalMountConfig) :=
  match sc with
  | None =>
      omap (λ p, match p.2 with MountEntry.Mount g => Some (p.1, g) | _ => None end)
        (btree_iter (docker_mounts c))
  | Some key =>
      match docker_mounts c !! key with
      | Some (MountEntry.Scoped m) => btree_iter m
      | _ => []
      end
  end.

Definition selector_scopes (s : RoleSelector) : list (option string) :=
  [None; (λ ns, ns +:+ "/*") <$> namespace s; Some (selector_key s)].

Definition rows_by_name (c : AppConfig) (s : RoleSelector) : gmap string GlobalMountRow :=
  foldl (λ m sc, foldl (insert_row sc) m (scope_mounts c sc)) ∅ (selector_scopes s).

Definition resolve_mount_rows (c : AppConfig) (s : RoleSelector) : list GlobalMountRow :=
  btree_values (rows_by_name c s).

Definition resolve_mounts (c : AppConfig) (s : RoleSelector) : list (string * MountConfig) :=
  (λ r, (row_name r, row_mount r)) <$> resolve_mount_rows c s.

Module WorkspaceGlobalMountRows.
Inductive t :=
| Applicable (role : string) (rows : list GlobalMountRow)
| Ambiguous (candidates : list string).
End WorkspaceGlobalMountRows.

(** [sort] and [dedup] of a list of strings. *)
Fixpoint dedup (l : list string) : list string :=
  match l with
  | [] => []
  | x :: l' =>
      match l' with
      | [] => [x]
      | y :: _ => if str_eqb x y then dedup l' else x :: dedup l'
      end
  end.

Definition workspace_applicable_mount_rows (c : AppConfig) (w : WorkspaceConfig)
    : WorkspaceGlobalMountRows.t :=
  let candidates :=
    foldl add_role (allowed_roles w) (option_list (default_role w) ++ option_list (last_role w)) in
  let candidates := dedup (merge_sort str_le candidates) in
  let resolved :=
    match candidates with
    | [r] => Some r
    | [] => match btree_keys (roles c) with [r] => Some r | _ => None end
    | _ => None
    end in
  match resolved with
  | Some role =>
      match parse_role role with
      | inr s => WorkspaceGlobalMountRows.Applicable (selector_key s) (resolve_mount_rows c s)
      | inl _ => WorkspaceGlobalMountRows.Ambiguous [role]
      end
  | None =>
      WorkspaceGlobalMountRows.Ambiguous
        (match candidates with [] => btree_keys (roles c) | _ => candidates end)
  end.

Definition to_global (m : MountConfig) : GlobalMountConfig :=
  mk_global_mount (src m) (dst m) (readonly m).

(** The [debug_assert!] on the isolation is absent from a release build. *)
Definition add_mount (c : AppConfig) (name : string) (m : MountConfig) (sc : option string)
    : AppConfig :=
  let key := default "" sc in
  if str_eqb key "" then with_docker_mounts <[name := MountEntry.Mount (to_global m)]> c
  else match docker_mounts c !! key with
       | Some (MountEntry.Scoped scoped) =>
           with_docker_mounts
             <[key := MountEntry.Scoped (<[name := to_global m]> scoped)]> c
       | Some (MountEntry.Mount _) => c
       | None => with_docker_mounts <[key := MountEntry.Scoped {[name := to_global m]}]> c
       end.

Definition entry_rows (p : string * MountEntry.t) : list GlobalMountRow :=
  match p.2 with
  | MountEntry.Mount g => [mk_row None p.1 (of_global g)]
  | MountEntry.Scoped m => (λ q, mk_row (Some p.1) q.1 (of_global q.2)) <$> btree_iter m
  end.
Definition list_mount_rows (c : AppConfig) : list GlobalMountRow :=
  btree_iter (docker_mounts c) ≫= entry_rows.

Fixpoint check_workspace_dsts (seen : gset string) (l : list MountConfig)
    : ConfigError + gset string :=
  match l with
  | [] => inr seen
  | m :: l =>
      _ ← check (negb (bool_decide (dst m ∈ seen)))
            (Message "duplicate mount destination: {}" [dst m]);
      check_workspace_dsts ({[dst m]} ∪ seen) l
  end.

Fixpoint check_row_dsts (seen : gset string) (l : list GlobalMountRow) : ConfigError + () :=
  match l with
  | [] => inr ()
  | r :: l =>
      let d := dst (row_mount r) in
      _ ← check (negb (bool_decide (d ∈ seen)))
            (Message "global mount destination conflicts with workspace destination: {} (from global mount {} [{}])"
               [d; row_name r; default "global" (scope r)]);
      check_row_dsts ({[d]} ∪ seen) l
  end.

Definition validate_effective_mount_destinations (w : WorkspaceConfig) (rows : list GlobalMountRow)
    : ConfigError + () :=
  seen ← check_workspace_dsts ∅ (mounts w); check_row_dsts seen rows.

Definition wildcard_scope_matches (wildcard concrete : string) : bool :=
  match strip_suffix "/*" wildcard with
  | None => false
  | Some prefix =>
      match strip_prefix prefix concrete with
      | Some rest => starts_with "/" rest
      | None => false
      end
  end.

Definition scopes_overlap (left right : option string) : bool :=
  match left, right with
  | None, _ | _, None => true
  | Some a, Some b =>
      str_eqb a b || wildcard_scope_matches a b || wildcard_scope_matches b a
  end.

Section global_mounts.
Context `{FileSystem Fs} (h : Host).

Definition expand_mount (m : MountConfig) : MountConfig :=
  mk_mount (expand_tilde h (src m)) (dst m) (readonly m) (isolation m).

Definition expand_and_validate_named_mounts (fs : Fs) (l : list (string * MountConfig))
    : (ConfigError + (list MountConfig * MountHealReport)) * Fs :=
  let expanded := expand_mount ∘ snd <$> l in
  match validate_mount_specs expanded with
  | inl e => (inl e, fs)
  | inr _ =>
      let named := zip (Some ∘ fst <$> l) expanded in
      let '(healed, report, fs) := ensure_mount_sources fs named (cache_roots h) in
      (_ ← validate_mount_paths fs healed; inr (healed, report), fs)
  end.

Fixpoint check_rows (fs : Fs) (seen : list (option string * string)) (l : list GlobalMountRow)
    : ConfigError + () :=
  match l with
  | [] => inr ()
  | r :: l =>
      _ ← check (negb (str_eqb (trim (row_name r)) "")) (Message "global mount name cannot be empty" []);
      _ ← check (negb (bool_decide ((scope r, row_name r) ∈ seen)))
            (Message "duplicate global mount entry: {} [{}]"
               [row_name r; default "global" (scope r)]);
      _ ← check (MountIsolation.is_shared (isolation (row_mount r)))
            (Message "global mount {} cannot use isolation {}; global mounts are always shared"
               [row_name r; MountIsolation.as_str (isolation (row_mount r))]);
      _ ← validate_mounts fs [expand_mount (row_mount r)];
      check_rows fs ((scope r, row_name r) :: seen) l
  end.

Definition rows_clash (l r : GlobalMountRow) : bool :=
  negb (str_eqb (row_name l) (row_name r))
  && str_eqb (dst (row_mount l)) (dst (row_mount r))
  && scopes_overlap (scope l) (scope r).

Fixpoint check_clashes (rows : list GlobalMountRow) : ConfigError + () :=
  match rows with
  | [] => inr ()
  | l :: rest =>
      _ ← check (negb (existsb (rows_clash l) rest))
            (Message "duplicate global mount destination in overlapping scope: {}"
               [dst (row_mount l)]);
      check_clashes rest
  end.

Definition validate_global_mount_rows (fs : Fs) (rows : list GlobalMountRow) : ConfigError + () :=
  _ ← check_rows fs [] rows; check_clashes rows.

(** ** What a launch mounts ([resolve.rs]) *)

Definition current_dir_workspace (fs : Fs) (cwd : string) : ConfigError + WorkspaceConfig :=
  match fs_canonicalize fs cwd with
  | Canonical p => inr (plain_workspace p [mk_mount p p false MountIsolation.Shared])
  | NotFound msg | IoFailed msg => inl (Io msg)
  end.

Inductive LoadWorkspaceInput :=
| CurrentDir
| PathInput (src dst : string)
| Saved (name : string).

Definition path_workspace (fs : Fs) (cwd s d : string) : ConfigError + WorkspaceConfig :=
  let expanded := expand_tilde h s in
  let abs := if has_root expanded then expanded else path_join cwd expanded in
  match fs_canonicalize fs abs with
  | Canonical p =>
      let target := if str_eqb d s || str_eqb d expanded then p else d in
      inr (plain_workspace target [mk_mount p target false MountIsolation.Shared])
  | NotFound msg | IoFailed msg =>
      inl (Message "cannot resolve path {expanded_src}: {e}" [expanded; msg])
  end.

Definition saved_workspace (c : AppConfig) (s : RoleSelector) (name : string)
    : ConfigError + WorkspaceConfig :=
  wn ← lift_err WorkspaceName_ (parse_workspace_name name);
  w ← require_workspace c wn;
  _ ← check (bool_decide (allowed_roles w = []) || str_in (selector_key s) (allowed_roles w))
        (Message "role {} is not allowed by workspace {name}" [selector_key s; name]);
  inr w.

Definition load_workspace (fs : Fs) (c : AppConfig) (s : RoleSelector) (cwd : string)
    (input : LoadWorkspaceInput) : ConfigError + (WorkspaceConfig * string) :=
  match input with
  | CurrentDir => w ← current_dir_workspace fs cwd; inr (w, workdir w)
  | PathInput a b => w ← path_workspace fs cwd a b; inr (w, workdir w)
  | Saved name => w ← saved_workspace c s name; inr (w, name)
  end.

Definition with_mounts (ms : list MountConfig) (w : WorkspaceConfig) : WorkspaceConfig :=
  mk_workspace (workdir w) ms (allowed_roles w) (default_role w) (default_agent w) (last_role w)
    (ws_roles w) (keep_awake w) (ws_github w) (git_pull_on_entry w) (ws_default_launch w)
    (ws_dirty_exit_policy w).

(** The mounts [add] appended to [ms] one by one, none at a taken destination. *)
Fixpoint append_mounts (fmt : string) (ms add : list MountConfig) : ConfigError + list MountConfig :=
  match add with
  | [] => inr ms
  | m :: add =>
      _ ← check (negb (existsb (λ x, str_eqb (dst x) (dst m)) ms)) (Message fmt [dst m]);
      append_mounts fmt (ms ++ [m]) add
  end.

Record ResolvedWorkspace := mk_resolved {
  rw_name : string;
  label : string;
  rw_workdir : string;
  rw_mounts : list MountConfig;
  rw_keep_awake_enabled : bool;
  rw_default_agent : option Agent.t;
  rw_git_pull_on_entry : bool;
  mount_heal : MountHealReport
}.

(** Errors leave the file system as the steps before them did. *)
Definition resolve_load_workspace (fs : Fs) (c : AppConfig) (s : RoleSelector) (cwd : string)
    (input : LoadWorkspaceInput) (ad_hoc : list MountConfig)
    : (ConfigError + ResolvedWorkspace) * Fs :=
  match (wl ← load_workspace fs c s cwd input;
         ms ← append_mounts
                "ad-hoc mount destination conflicts with workspace mount destination: {}"
                (mounts wl.1) ad_hoc;
         let w := with_mounts ms wl.1 in
         _ ← validate_workspace_config h fs "runtime" w;
         inr (w, wl.2)) with
  | inl e => (inl e, fs)
  | inr (w, label) =>
      let '(healed, report, fs) :=
        ensure_mount_sources fs ((λ m, (None, m)) <$> mounts w) (cache_roots h) in
      let w := with_mounts healed w in
      let rows := resolve_mount_rows c s in
      match (_ ← validate_mount_paths fs healed;
             validate_effective_mount_destinations w rows) with
      | inl e => (inl e, fs)
      | inr _ =>
          let '(globals, fs) :=
            expand_and_validate_named_mounts fs ((λ r, (row_name r, row_mount r)) <$> rows) in
          (g ← globals;
           all ← append_mounts
                   "global mount destination conflicts with workspace destination: {}"
                   healed g.1;
           inr (mk_resolved label label (workdir w) all (enabled (keep_awake w))
                  (default_agent w) (git_pull_on_entry w) (merge_report report g.2)), fs)
      end
  end.

(** The number of components of a saved path that contains the directory. *)
Definition host_path_match_depth (fs : Fs) (p canonical_cwd : string) : option nat :=
  match fs_canonicalize fs (expand_tilde h p) with
  | Canonical q =>
      if path_eqb canonical_cwd q || path_starts_with canonical_cwd q
      then Some (length (components q)) else None
  | _ => None
  end.

Definition saved_workspace_match_depth (fs : Fs) (w : WorkspaceConfig) (cwd : string)
    : option nat :=
  match fs_canonicalize fs cwd with
  | Canonical ccwd =>
      let workdir_depth :=
        match fs_canonicalize fs (expand_tilde h (workdir w)) with
        | Canonical q => if path_eqb ccwd q then Some (length (components q)) else None
        | _ => None
        end in
      let depths := omap id
        (workdir_depth :: ((λ m, host_path_match_depth fs (src m) ccwd) <$> mounts w)) in
      match depths with
      | [] => None
      | d :: ds => Some (foldl Nat.max d ds)
      end
  | _ => None
  end.

(** [max_by_key] returns the last of the greatest. *)
Definition deeper (best : option (string * WorkspaceConfig * nat))
    (x : string * WorkspaceConfig * nat) : option (string * WorkspaceConfig * nat) :=
  match best with
  | Some b => if (b.2 <=? x.2)%nat then Some x else Some b
  | None => Some x
  end.

Definition find_saved_workspace_for_cwd (fs : Fs) (c : AppConfig) (cwd : string)
    : option (string * WorkspaceConfig) :=
  let matches := omap (λ p, (λ d, (p, d)) <$> saved_workspace_match_depth fs p.2 cwd)
                   (btree_iter (workspaces c)) in
  fst <$> foldl deeper None matches.

End global_mounts.
