(* ===== verification/MountProofs.v ===== *)
(** * The redundancy planner

    A mount serves a container path when the path lies under its destination: a
    shared mount from the host path that corresponds to it, an isolated one from the
    checkout it was given.  [covers] compares paths only: the one mount's paths extend the
    other's.  The planner removes covered mounts, and what the container sees is
    unchanged as long as both are shared and no third mount lies between the two. *)

From stdpp Require Import base list gmap strings.
From Stdlib Require Import ZArith Lia Bool.
From S2P Require Import Prelude OrderedMap Paths EnvModel EnvProofs Config.

(** ** Covering *)

Definition tsrc (m : MountConfig) : string := trim_end_slashes (src m).
Definition tdst (m : MountConfig) : string := trim_end_slashes (dst m).

(** A suffix of a path that starts a new component. *)
Definition below (s : string) : Prop := s = "" ∨ starts_with "/" s = true.

Lemma starts_slash_app s t : starts_with "/" s = true → starts_with "/" (s +:+ t) = true.
Proof. rewrite !starts_with_iff. intros [r ->]. exists (r +:+ t). by rewrite str_app_assoc. Qed.

Lemma below_app s t : starts_with "/" s = true → below (s +:+ t).
Proof. right. by apply starts_slash_app. Qed.

Lemma str_app_nil_eq (a s : string) : a +:+ s = a → s = "".
Proof.
  intros Heq. assert (String.length s = 0%nat).
  { apply (f_equal String.length) in Heq. rewrite str_length_app in Heq. lia. }
  by destruct s.
Qed.

Lemma covers_spec p m :
  covers p m = true ↔
  ∃ s, starts_with "/" s = true ∧ tsrc m = tsrc p +:+ s ∧ tdst m = tdst p +:+ s.
Proof.
  unfold covers. fold (tsrc p) (tsrc m) (tdst p) (tdst m). cbv zeta. unfold str_eqb. split.
  - destruct (_ && _); [done|]. destruct (strip_prefix (tsrc p) (tsrc m)) as [s|] eqn:Hs; [|done].
    destruct (starts_with "/" s) eqn:Hsl; [|done]. cbn.
    destruct (strip_prefix (tdst p) (tdst m)) as [t|] eqn:Ht; [|done]. intros Heq. bool_to_prop.
    subst t. apply strip_prefix_Some in Hs, Ht. eauto.
  - intros (s & Hsl & Hs & Ht).
    assert (bool_decide (tsrc p = tsrc m) = false) as ->.
    { apply bool_decide_eq_false. intros Heq. rewrite Heq in Hs. symmetry in Hs.
      apply str_app_nil_eq in Hs as ->. done. }
    cbn. apply strip_prefix_Some in Hs, Ht. rewrite Hs, Ht, Hsl. cbn.
    by apply bool_decide_eq_true.
Qed.

Lemma covers_shorter p m :
  covers p m = true → (String.length (tsrc p) < String.length (tsrc m))%nat.
Proof.
  intros (s & Hs & -> & _)%covers_spec. rewrite str_length_app. destruct s; [done|]. cbn. lia.
Qed.

Lemma covers_irrefl m : covers m m = false.
Proof. destruct (covers m m) eqn:E; [|done]. apply covers_shorter in E. lia. Qed.

Lemma covers_trans a b c : covers a b = true → covers b c = true → covers a c = true.
Proof.
  rewrite !covers_spec. intros (s & Hs & Hbs & Hbd) (t & Ht & Hcs & Hcd).
  exists (s +:+ t). split; [by apply starts_slash_app|].
  by rewrite Hcs, Hcd, Hbs, Hbd, !str_app_assoc.
Qed.

(** ** The plan *)

(** No mount of the list covers [m]. *)
Definition uncovered (ms : list MountConfig) (m : MountConfig) : Prop :=
  Forall (λ p, covers p m = false) ms.
#[global] Instance uncovered_dec ms m : Decision (uncovered ms m).
Proof. unfold uncovered. apply _. Defined.

Lemma elem_of_indexed {A} (l : list A) i x : (i, x) ∈ imap pair l ↔ l !! i = Some x.
Proof.
  rewrite list_elem_of_lookup. setoid_rewrite list_lookup_imap. split.
  - intros (j & Hj). destruct (l !! j) eqn:E; [|done]. by injection Hj as <- <-.
  - intros Hi. exists i. by rewrite Hi.
Qed.

Lemma find_parent_None ms i m : ms !! i = Some m → find_parent ms i m = None ↔ uncovered ms m.
Proof.
  intros Hi. unfold find_parent, uncovered. rewrite Forall_forall. split.
  - destruct (list_find _ _) as [[? ?]|] eqn:E; [done|]. intros _ p (j & Hj)%list_elem_of_lookup.
    apply list_find_None in E. rewrite Forall_forall in E.
    destruct (decide (j = i)) as [->|Hne]; [simplify_eq; apply covers_irrefl|].
    destruct (covers p m) eqn:Hc; [|done]. exfalso.
    apply (E (j, p)); [by apply elem_of_indexed|]. done.
  - intros Hall. destruct (list_find _ _) as [[k [j p]]|] eqn:E; [|done]. exfalso.
    apply list_find_Some in E as (Hk & [_ Hc] & _). cbn in Hc. rewrite Hall in Hc; [done|].
    apply list_elem_of_lookup_2, elem_of_indexed, list_elem_of_lookup_2 in Hk. done.
Qed.

Lemma find_parent_Some ms i m j p :
  find_parent ms i m = Some (j, p) → ms !! j = Some p ∧ covers p m = true.
Proof.
  unfold find_parent. destruct (list_find _ _) as [[k jp]|] eqn:E; [|done]. intros [= ->].
  apply list_find_Some in E as (Hk & [_ Hc] & _). split; [|done].
  by apply list_elem_of_lookup_2, elem_of_indexed in Hk.
Qed.

(** How the pair of mounts behind an error relates. *)
Definition refusal_ok (ms : list MountConfig) (new : list nat) (e : CollapseError.t) : Prop :=
  match e with
  | CollapseError.ReadonlyMismatch p m =>
      p ∈ ms ∧ m ∈ ms ∧ covers p m = true ∧ readonly p ≠ readonly m
  | CollapseError.ChildUnderExistingParent p m =>
      ∃ i j, ms !! i = Some m ∧ ms !! j = Some p ∧ covers p m = true ∧ i ∈ new ∧ j ∉ new
  | CollapseError.PlannerInvariant _ => False
  end.

(** A removal of the plan. *)
Definition removal_ok (ms : list MountConfig) (r : Removal) : Prop :=
  covered_by r ∈ ms ∧ covers (covered_by r) (child r) = true ∧
  readonly (covered_by r) = readonly (child r).

Lemma collapse_loop_spec ms new rest :
  (∀ i m, (i, m) ∈ rest → ms !! i = Some m) →
  match collapse_loop ms new rest with
  | inl e => refusal_ok ms new e
  | inr plan =>
      kept plan = filter (uncovered ms) rest.*2 ∧
      child <$> removed plan = filter (λ m, ¬ uncovered ms m) rest.*2 ∧
      Forall (removal_ok ms) (removed plan)
  end.
Proof.
  induction rest as [|[i m] rest IH]; intros Hin; [done|]. cbn [collapse_loop].
  assert (ms !! i = Some m) as Hi by (apply Hin; left).
  specialize (IH ltac:(intros; apply Hin; by right)). cbn [fmap list_fmap snd].
  rewrite !filter_cons. destruct (find_parent ms i m) as [[j p]|] eqn:Hp.
  - destruct (find_parent_Some _ _ _ _ _ Hp) as [Hj Hc].
    assert (¬ uncovered ms m) as Hnu by (rewrite <-(find_parent_None _ _ _ Hi); congruence).
    rewrite (decide_False (P := uncovered ms m)), decide_True by done.
    destruct (Bool.eqb (readonly p) (readonly m)) eqn:Hro; cbn [negb].
    2: { apply Bool.eqb_false_iff in Hro. repeat split; [|by eapply list_elem_of_lookup_2|done..].
         by eapply list_elem_of_lookup_2. }
    apply Bool.eqb_prop in Hro.
    destruct (bool_decide (i ∈ new) && negb (bool_decide (j ∈ new))) eqn:Hnew.
    { bool_to_prop. exists i, j. done. }
    destruct (collapse_loop ms new rest) as [e|plan]; [done|]. cbn.
    destruct IH as (-> & Hrem & Hall). split; [done|]. split; [by rewrite Hrem|].
    constructor; [|done]. repeat split; [by eapply list_elem_of_lookup_2|done..].
  - apply (find_parent_None _ _ _ Hi) in Hp. rewrite decide_True, decide_False by tauto.
    destruct (collapse_loop ms new rest) as [e|plan]; [done|]. cbn.
    destruct IH as (-> & Hrem & Hall). done.
Qed.

Lemma indexed_snd {A} (l : list A) : (imap pair l).*2 = l.
Proof.
  apply list_eq. intros i. rewrite list_lookup_fmap, list_lookup_imap. by destruct (l !! i).
Qed.

Lemma plan_collapse_spec ms new :
  match plan_collapse ms new with
  | inl e => refusal_ok ms new e
  | inr plan =>
      kept plan = filter (uncovered ms) ms ∧
      child <$> removed plan = filter (λ m, ¬ uncovered ms m) ms ∧
      Forall (removal_ok ms) (removed plan)
  end.
Proof.
  pose proof (collapse_loop_spec ms new (imap pair ms)) as H. rewrite indexed_snd in H.
  apply H. intros i m. apply elem_of_indexed.
Qed.

(** Every mount is kept or covered by a kept one with the same mode. *)
Lemma kept_ancestor ms new plan m :
  plan_collapse ms new = inr plan → m ∈ ms →
  m ∈ kept plan ∨ ∃ k, k ∈ kept plan ∧ covers k m = true ∧ readonly k = readonly m.
Proof.
  intros Hplan. pose proof (plan_collapse_spec ms new) as Hs. rewrite Hplan in Hs.
  destruct Hs as (Hk & Hr & Hall).
  remember (String.length (tsrc m)) as n eqn:Hn. revert m Hn.
  induction n as [n IH] using lt_wf_ind. intros m -> Hm.
  destruct (decide (uncovered ms m)) as [Hu|Hu].
  { left. rewrite Hk. by apply list_elem_of_filter. }
  right. assert (m ∈ child <$> removed plan) as Hc by (rewrite Hr; by apply list_elem_of_filter).
  apply list_elem_of_fmap in Hc as (r & -> & Hin).
  rewrite Forall_forall in Hall. destruct (Hall _ Hin) as (Hp & Hcov & Hro).
  destruct (IH _ (covers_shorter _ _ Hcov) _ eq_refl Hp) as [Hkept|(k & Hkk & Hkc & Hkr)].
  - eauto.
  - exists k. split; [done|]. split; [by eapply covers_trans|congruence].
Qed.

(** ** What the container sees *)

(** What is behind a container path: a path of the host, or a path of the work tree
    or clone that was made for an isolated mount. *)
Inductive Origin := HostPath (p : string) | InCheckout (m : MountConfig) (s : string).
Definition origin (m : MountConfig) (s : string) : Origin :=
  if MountIsolation.is_shared (isolation m) then HostPath (tsrc m +:+ s) else InCheckout m s.
Definition serves (m : MountConfig) (x : string) (o : Origin) : Prop :=
  ∃ s, below s ∧ x = tdst m +:+ s ∧ o = origin m s.

(** Of the mounts that serve a path, the deepest hides the others. *)
Definition visible (ms : list MountConfig) (x : string) (m : MountConfig) (host : Origin) : Prop :=
  m ∈ ms ∧ serves m x host ∧
  ∀ q host', q ∈ ms → serves q x host' → (String.length (tdst q) ≤ String.length (tdst m))%nat.

(** A mount that lies between a mount and the one that covers it leads to the
    same host paths. *)
Definition unshadowed (ms : list MountConfig) : Prop :=
  ∀ p q m s t, p ∈ ms → q ∈ ms → m ∈ ms → covers p m = true →
    below s → below t → tdst q = tdst p +:+ s → tdst m = tdst q +:+ t → tsrc m = tsrc q +:+ t.

(** Only shared mounts cover each other. *)
Definition shared_covers (ms : list MountConfig) : Prop :=
  Forall (λ p, Forall (λ m, covers p m = true →
    isolation p = MountIsolation.Shared ∧ isolation m = MountIsolation.Shared) ms) ms.
#[global] Instance shared_covers_dec ms : Decision (shared_covers ms).
Proof. unfold shared_covers. apply _. Defined.
Lemma shared_covers_elim ms p m :
  shared_covers ms → p ∈ ms → m ∈ ms → covers p m = true →
  isolation p = MountIsolation.Shared ∧ isolation m = MountIsolation.Shared.
Proof.
  unfold shared_covers. rewrite Forall_forall. intros Hs Hp Hm. specialize (Hs p Hp).
  rewrite Forall_forall in Hs. by apply Hs.
Qed.

Lemma str_app_eq (a b c d : string) :
  a +:+ b = c +:+ d → (String.length a ≤ String.length c)%nat → ∃ t, c = a +:+ t ∧ b = t +:+ d.
Proof.
  revert c. induction a as [|x a IH]; intros c Heq Hle; [by exists c|].
  destruct c as [|y c]; [cbn in Hle; lia|]. injection Heq as -> Heq.
  destruct (IH c Heq) as (t & -> & ->); [cbn in Hle; lia|]. by exists t.
Qed.

Lemma str_app_cancel_r (a b c : string) : a +:+ c = b +:+ c → a = b.
Proof.
  intros Heq. apply str_app_inj in Heq; [tauto|]. apply (f_equal String.length) in Heq.
  rewrite !str_length_app in Heq. lia.
Qed.

Lemma below_prefix t b : below (t +:+ b) → below t.
Proof.
  destruct t as [|c t]; [by left|]. intros [H|H]; [done|]. right.
  apply starts_with_iff in H as [r Hr]. injection Hr as -> _. apply starts_with_iff. by exists t.
Qed.

Lemma covers_serves p m x host :
  covers p m = true → isolation p = MountIsolation.Shared → isolation m = MountIsolation.Shared →
  serves m x host → serves p x host.
Proof.
  intros (s & Hs & Hsrc & Hdst)%covers_spec Hp Hm (t & _ & -> & ->). exists (s +:+ t).
  unfold origin. rewrite Hp, Hm, Hsrc, Hdst, !str_app_assoc. split; [by apply below_app|done].
Qed.

Lemma serves_nested q m x hq hm :
  serves q x hq → serves m x hm → (String.length (tdst q) ≤ String.length (tdst m))%nat →
  ∃ t, below t ∧ tdst m = tdst q +:+ t.
Proof.
  intros (a & Ha & -> & _) (b & _ & Heq & _) Hle.
  destruct (str_app_eq _ _ _ _ Heq Hle) as (t & Ht & ->). exists t.
  split; [by eapply below_prefix|done].
Qed.

Lemma list_argmax {A} (f : A → nat) (l : list A) :
  l ≠ [] → ∃ m, m ∈ l ∧ ∀ y, y ∈ l → (f y ≤ f m)%nat.
Proof.
  induction l as [|a l IH]; [done|]. intros _. destruct l as [|b l].
  - exists a. split; [by left|]. intros y ->%list_elem_of_singleton. done.
  - destruct IH as (m & Hm & Hmax); [done|]. destruct (decide (f m ≤ f a)%nat).
    + exists a. split; [by left|]. intros y [->|Hy]%elem_of_cons; [done|].
      specialize (Hmax y Hy). lia.
    + exists m. split; [by right|]. intros y [->|Hy]%elem_of_cons; [lia|auto].
Qed.

#[global] Instance below_dec s : Decision (below s).
Proof. unfold below. apply _. Defined.

(** Whether a mount serves a path at all. *)
Definition served (m : MountConfig) (x : string) : Prop :=
  match strip_prefix (tdst m) x with Some s => below s | None => False end.
#[global] Instance served_dec m x : Decision (served m x).
Proof. unfold served. destruct (strip_prefix _ _); apply _. Defined.

Lemma served_iff m x : served m x ↔ ∃ host, serves m x host.
Proof.
  unfold served, serves. destruct (strip_prefix (tdst m) x) as [s|] eqn:Hs.
  - apply strip_prefix_Some in Hs. split; [by eauto 6|]. intros (h & s' & Hb & -> & _).
    apply (str_app_inj (tdst m) s' (tdst m) s) in Hs as [_ <-]; done.
  - split; [done|]. intros (h & s & _ & Hx & _). apply strip_prefix_Some in Hx. congruence.
Qed.

Lemma visible_exists ms x m host : m ∈ ms → serves m x host → ∃ d h, visible ms x d h.
Proof.
  intros Hm Hs. destruct (list_argmax (λ q, String.length (tdst q))
                            (filter (λ q, served q x) ms)) as (d & Hd & Hmax).
  { intros Hnil. apply (not_elem_of_nil m). rewrite <-Hnil. apply list_elem_of_filter.
    split; [|done]. apply served_iff. eauto. }
  apply list_elem_of_filter in Hd as [[h Hh]%served_iff Hd]. exists d, h. split; [done|].
  split; [done|]. intros q h' Hq Hq'. apply Hmax, list_elem_of_filter.
  split; [apply served_iff; eauto|done].
Qed.

Lemma serves_det m x h1 h2 : serves m x h1 → serves m x h2 → h1 = h2.
Proof.
  intros (s & _ & -> & ->) (t & _ & Heq & ->). f_equal.
  by apply (str_app_inj (tdst m) s (tdst m) t).
Qed.

(** The covering mount that is kept is the deepest kept one at the paths where
    the removed mount was the deepest of all. *)
Lemma kept_visible ms new plan x m host k :
  plan_collapse ms new = inr plan → unshadowed ms → shared_covers ms → visible ms x m host →
  k ∈ kept plan → covers k m = true → visible (kept plan) x k host.
Proof.
  intros Hplan Hun Hsh (Hm & Hs & Hdeep) Hk Hcov.
  pose proof (plan_collapse_spec ms new) as Hspec. rewrite Hplan in Hspec.
  destruct Hspec as (Hkept & _ & _). pose proof Hk as Hk'. rewrite Hkept in Hk.
  apply list_elem_of_filter in Hk as [_ Hk].
  destruct (shared_covers_elim ms k m) as [Hki Hmi]; [done..|].
  pose proof (covers_serves _ _ _ _ Hcov Hki Hmi Hs) as Hks. split; [done|]. split; [done|].
  intros q hq Hq Hqs. rewrite Hkept in Hq. apply list_elem_of_filter in Hq as [Hqu Hq].
  destruct (decide (String.length (tdst q) ≤ String.length (tdst k))%nat) as [|Hgt]; [done|].
  exfalso. unfold uncovered in Hqu. rewrite Forall_forall in Hqu. specialize (Hqu k Hk).
  apply not_true_iff_false in Hqu. apply Hqu, covers_spec.
  destruct (serves_nested k q x _ _ Hks Hqs) as (s & Hsb & Hqd); [lia|].
  destruct (serves_nested q m x _ _ Hqs Hs) as (t & Htb & Hmd); [by eapply Hdeep|].
  pose proof (Hun k q m s t Hk Hq Hm Hcov Hsb Htb Hqd Hmd) as Hmsrc.
  apply covers_spec in Hcov as (u & Hu & Hmsrc' & Hmd').
  assert (u = s +:+ t) as ->.
  { rewrite Hmd, Hqd, str_app_assoc in Hmd'. symmetry.
    by apply (str_app_inj (tdst k) _ (tdst k) _) in Hmd' as [_ ?]. }
  exists s. split; [|split; [|done]].
  - destruct Hsb as [->|]; [|done]. rewrite Hqd, str_length_app in Hgt. cbn in Hgt. lia.
  - apply (str_app_cancel_r _ _ t). by rewrite <-Hmsrc, Hmsrc', str_app_assoc.
Qed.

(** C34: Collapsing redundant mounts does not change what the container sees.
    When the plan succeeds, no two mounts share a destination, none lies between a
    mount and the one covering it with another host path, and only shared
    mounts cover each other, then at every container path the deepest mount of the kept
    list leads to the same place (the host path of a shared mount, the place in the
    checkout of an isolated one), with the same read-only flag, as the deepest of the full
    list.  Without the last two conditions it is not so (see the two examples below). *)
Theorem collapse_keeps_view ms new plan :
  plan_collapse ms new = inr plan → NoDup (tdst <$> ms) → unshadowed ms → shared_covers ms →
  ∀ x host ro,
    (∃ m, visible ms x m host ∧ readonly m = ro) ↔
    (∃ m, visible (kept plan) x m host ∧ readonly m = ro).
Proof.
  intros Hplan Hnd Hun Hsh x host ro.
  pose proof (plan_collapse_spec ms new) as Hspec. rewrite Hplan in Hspec.
  destruct Hspec as (Hkept & _ & _).
  assert (∀ m, m ∈ kept plan → m ∈ ms) as Hsub
    by (intros m; rewrite Hkept; intros [_ ?]%list_elem_of_filter; done).
  split; intros (m & Hv & <-).
  - destruct (kept_ancestor _ _ _ m Hplan (proj1 Hv)) as [Hm|(k & Hk & Hcov & Hro)].
    + exists m. destruct Hv as (_ & Hs & Hdeep). split; [|done]. split; [done|].
      split; [done|]. intros q h Hq. apply Hdeep, Hsub, Hq.
    + exists k. split; [by eapply kept_visible|done].
  - destruct Hv as (Hm & Hs & Hdeep).
    destruct (visible_exists ms x m host (Hsub _ Hm) Hs) as (d & h & Hd).
    destruct (kept_ancestor _ _ _ d Hplan (proj1 Hd)) as [Hdk|(k & Hk & Hcov & Hro)].
    + exists m. split; [|done]. split; [by apply Hsub|]. split; [done|].
      intros q hq Hq Hqs. destruct Hd as (_ & Hds & Hdd).
      specialize (Hdd q hq Hq Hqs). specialize (Hdeep d h Hdk Hds). lia.
    + pose proof (kept_visible _ _ _ _ _ _ _ Hplan Hun Hsh Hd Hk Hcov) as (_ & Hks & Hkd).
      assert (k = m) as ->.
      { pose proof (Hkd m host Hm Hs). pose proof (Hdeep k h Hk Hks).
        destruct (serves_nested k m x _ _ Hks Hs) as (t & _ & Ht); [lia|].
        assert (t = "") as -> by (rewrite Ht, str_length_app in *; destruct t; [done|cbn in *; lia]).
        rewrite str_app_nil in Ht. apply Hsub, list_elem_of_lookup in Hk as [i Hi].
        apply Hsub, list_elem_of_lookup in Hm as [j Hj].
        assert (i = j) as ->; [|congruence].
        apply (NoDup_lookup (tdst <$> ms) i j (tdst k)); [done|..];
          rewrite list_lookup_fmap, ?Hi, ?Hj; cbn; congruence. }
      exists d. rewrite (serves_det _ _ _ _ Hs Hks). done.
Qed.

(** ** A decision procedure for the side condition, and a case that fails it *)

Definition between_agrees (p q m : MountConfig) : bool :=
  match strip_prefix (tdst p) (tdst q), strip_prefix (tdst q) (tdst m) with
  | Some s, Some t =>
      if bool_decide (below s ∧ below t) then str_eqb (tsrc m) (tsrc q +:+ t) else true
  | _, _ => true
  end.

#[global] Instance unshadowed_dec ms : Decision (unshadowed ms).
Proof.
  refine (cast_if (decide (Forall (λ p, Forall (λ q, Forall (λ m,
    covers p m = true → between_agrees p q m = true) ms) ms) ms))).
  - rewrite Forall_forall in f. intros p q m s t Hp Hq Hm Hcov Hs Ht Hqd Hmd.
    specialize (f p Hp). rewrite Forall_forall in f. specialize (f q Hq).
    rewrite Forall_forall in f. specialize (f m Hm Hcov). unfold between_agrees in f.
    apply strip_prefix_Some in Hqd, Hmd. rewrite Hqd, Hmd in f.
    rewrite bool_decide_true in f by done. unfold str_eqb in f. by bool_to_prop.
  - intros Hun. apply n. rewrite !Forall_forall. intros p Hp. rewrite Forall_forall. intros q Hq.
    rewrite Forall_forall. intros m Hm Hcov. unfold between_agrees.
    destruct (strip_prefix (tdst p) (tdst q)) as [s|] eqn:Hs; [|done].
    destruct (strip_prefix (tdst q) (tdst m)) as [t|] eqn:Ht; [|done].
    apply strip_prefix_Some in Hs, Ht. case_bool_decide as Hb; [|done].
    apply bool_decide_eq_true. destruct Hb. by eapply (Hun p q m s t).
Defined.

Definition rw_mount (s d : string) : MountConfig := mk_mount s d false MountIsolation.Shared.

Lemma collapse_keeps_view_witness :
  let ms := [rw_mount "/p" "/w"; rw_mount "/p/sub/" "/w/sub"; rw_mount "/cache" "/c"] in
  ∃ plan, plan_collapse ms [] = inr plan ∧
    kept plan = [rw_mount "/p" "/w"; rw_mount "/cache" "/c"] ∧
    ∃ m, visible (kept plan) "/w/sub/file" m (HostPath "/p/sub/file") ∧ readonly m = false.
Proof.
  intros ms. destruct (plan_collapse ms []) as [e|plan] eqn:Hplan; [by vm_compute in Hplan|].
  exists plan. split; [reflexivity|].
  assert (kept plan = [rw_mount "/p" "/w"; rw_mount "/cache" "/c"]) as Hk.
  { vm_compute in Hplan. injection Hplan as <-. reflexivity. }
  split; [exact Hk|].
  apply (collapse_keeps_view ms [] plan Hplan).
  - apply (bool_decide_unpack _). vm_compute. exact I.
  - apply (bool_decide_unpack _). vm_compute. exact I.
  - apply (bool_decide_unpack _). vm_compute. exact I.
  - exists (rw_mount "/p/sub/" "/w/sub"). split; [|reflexivity]. split; [by right; left|].
    split; [by exists "/file"; split; [right|]|].
    intros q h Hq _. unfold ms in Hq. rewrite !elem_of_cons in Hq.
    destruct Hq as [->|[->|[->|Hq]]]; try (vm_compute; lia). by apply elem_of_nil in Hq.
Defined.

(** With a mount in between the plan does change the view: the nested mount is
    dropped as redundant, and its path falls to the mount in the middle. *)
Example collapse_uncovers_shadow :
  let ms := [rw_mount "/a" "/w"; rw_mount "/z" "/w/b"; rw_mount "/a/b/c" "/w/b/c"] in
  ∃ plan, plan_create ms = inr plan ∧
    (∃ m, visible ms "/w/b/c" m (HostPath "/a/b/c")) ∧
    (∃ m, visible (final_mounts plan) "/w/b/c" m (HostPath "/z/c")).
Proof.
  intros ms. eexists. split; [vm_compute; reflexivity|]. split.
  - exists (rw_mount "/a/b/c" "/w/b/c"). split; [by right; right; left|].
    split; [by exists ""; split; [left|]|].
    intros q h Hq _. unfold ms in Hq. rewrite !elem_of_cons in Hq.
    destruct Hq as [->|[->|[->|Hq]]]; try (vm_compute; lia). by apply elem_of_nil in Hq.
  - exists (rw_mount "/z" "/w/b"). split; [by right; left|].
    split; [by exists "/c"; split; [right|]|].
    intros q h Hq _. cbn in Hq. rewrite !elem_of_cons in Hq.
    destruct Hq as [->|[->|Hq]]; try (vm_compute; lia). by apply elem_of_nil in Hq.
Qed.

(** The planner does not look at the isolation, which [workspace create] sets after it: a
    shared directory inside a repository that is to be checked out per container is
    dropped, and the container sees its checkout there instead of the host's directory. *)
Example collapse_hides_shared_child :
  let repo := mk_mount "/p" "/w" false MountIsolation.Worktree in
  let target := rw_mount "/p/target" "/w/target" in
  ∃ plan, plan_create [rw_mount "/p" "/w"; target] = inr plan ∧
    apply_isolation_overrides (final_mounts plan) [("/w", MountIsolation.Worktree)] = inr [repo] ∧
    visible [repo; target] "/w/target/x" target (HostPath "/p/target/x") ∧
    visible [repo] "/w/target/x" repo (InCheckout repo "/target/x").
Proof.
  intros repo target. eexists. split; [vm_compute; reflexivity|]. split; [vm_compute; reflexivity|].
  split; (split; [set_solver|]).
  - split; [by exists "/x"; split; [right|]|].
    intros q h Hq _. rewrite !elem_of_cons in Hq.
    destruct Hq as [->|[->|Hq]]; try (vm_compute; lia). by apply elem_of_nil in Hq.
  - split; [by exists "/target/x"; split; [right|]|].
    intros q h Hq _. apply elem_of_cons in Hq as [->|Hq]; [vm_compute; lia|].
    by apply elem_of_nil in Hq.
Qed.
