(* ===== verification/ConfigProofs.v ===== *)
(** * The workspaces of a configuration

    Every workspace that the create and edit operations store is well formed and
    free of redundant mounts; and the edit that the planner prepares is the edit
    that is carried out. *)

From stdpp Require Import base list gmap strings.
From Stdlib Require Import ZArith Lia Bool.
From S2P Require Import Prelude OrderedMap Paths EnvModel EnvProofs Config MountProofs.

(** ** What validation establishes *)

(** A mount with absolute paths and no dot components. *)
Definition mount_ok (m : MountConfig) : Prop :=
  has_root (src m) = true ∧ starts_with "/" (dst m) = true ∧
  has_dot_component (src m) = false ∧ has_dot_component (dst m) = false.

Lemma check_mount_specs_ok seen ms u :
  check_mount_specs seen ms = inr u →
  Forall mount_ok ms ∧ NoDup (dst <$> ms) ∧ ∀ m, m ∈ ms → dst m ∉ seen.
Proof.
  revert seen u. induction ms as [|m ms IH]; intros seen u Hc; cbn [check_mount_specs] in Hc.
  { repeat split; [constructor|constructor|]. intros m Hm. by apply elem_of_nil in Hm. }
  invert_inr. bool_to_prop. destruct (IH _ _ Hc) as (Hok & Hnd & Hs). repeat split.
  - by constructor.
  - cbn. constructor; [|done]. intros (m' & Heq & Hin)%list_elem_of_fmap.
    apply Hs in Hin. set_solver.
  - intros m' [->|Hin]%elem_of_cons; [done|]. apply Hs in Hin. set_solver.
Qed.

(** Two destinations one of which lies strictly inside the other; they are
    absolute, so neither the home nor the working directory matters. *)
Definition nested (a b : MountConfig) : Prop :=
  let na := normalize_host (tdst a) in
  let nb := normalize_host (tdst b) in
  path_eqb na nb = false ∧ path_is_ancestor_or_equal na nb = true.

Lemma resolve_absolute h p : starts_with "/" p = true → resolve_path h p = normalize_host p.
Proof.
  intros Hp. unfold resolve_path. apply starts_with_iff in Hp as Hp'. destruct Hp' as [r ->].
  assert (expand_tilde h ("/" +:+ r) = "/" +:+ r) as ->; [|by rewrite Hp].
  unfold expand_tilde. by destruct (home_dir h).
Qed.

Lemma tdst_absolute m : starts_with "/" (dst m) = true → tdst m ≠ "" → starts_with "/" (tdst m) = true.
Proof.
  intros Hd Hne. unfold tdst in *. destruct (trim_end_prefix (dst m)) as [t Ht].
  destruct (trim_end_slashes (dst m)) as [|c r]; [done|]. rewrite Ht in Hd.
  apply starts_with_iff in Hd as [r' Hr]. injection Hr as -> _. apply starts_with_iff. by exists r.
Qed.

Record workspace_ok (w : WorkspaceConfig) : Prop := {
  wo_workdir : starts_with "/" (workdir w) = true;
  wo_boundary r : r ∈ PROTECTED_ROOTS →
    paths_overlap (normalize_path (workdir w)) (normalize_path r) = false;
  wo_mounts : mounts w ≠ [] ∧ Forall mount_ok (mounts w);
  wo_dsts : NoDup (dst <$> mounts w);
  wo_isolated i j a b :
    mounts w !! i = Some a → mounts w !! j = Some b → i ≠ j →
    isolation a ≠ MountIsolation.Shared → isolation b ≠ MountIsolation.Shared →
    tdst a ≠ "" → tdst b ≠ "" → ¬ nested a b;
  wo_covered : ∃ m, m ∈ mounts w ∧
    paths_overlap (normalize_path (workdir w)) (normalize_path (dst m)) = true;
  wo_role r : default_role w = Some r → allowed_roles w ≠ [] → r ∈ allowed_roles w;
  wo_lean p m : p ∈ mounts w → m ∈ mounts w → covers p m = false
}.

Section validity.
Context `{FileSystem Fs} (h : Host) (fs : Fs).

Lemma isolation_pair_ok a b u :
  isolation_pair h fs a b = inr u → starts_with "/" (tdst a) = true →
  starts_with "/" (tdst b) = true → ¬ nested a b ∧ ¬ nested b a.
Proof.
  unfold isolation_pair. fold (tdst a) (tdst b). intros Hp Ha Hb. cbv zeta in Hp.
  destruct (is_strict_ancestor h (tdst a) (tdst b) || is_strict_ancestor h (tdst b) (tdst a))
    eqn:Ho; [by destruct (is_strict_ancestor _ _ _)|]. bool_to_prop.
  unfold is_strict_ancestor in *. rewrite !resolve_absolute in * by done. cbv zeta in *.
  unfold nested. split; intros [Hne Hanc]; [rewrite Hne, Hanc in *|rewrite Hne, Hanc in *]; done.
Qed.

Lemma isolation_all_ok l u :
  isolation_all h fs l = inr u →
  ∀ i j a b, l !! i = Some a → l !! j = Some b → (i < j)%nat →
    starts_with "/" (tdst a) = true → starts_with "/" (tdst b) = true → ¬ nested a b ∧ ¬ nested b a.
Proof.
  revert u. induction l as [|m l IH]; intros u Hc i j a b Hi Hj Hlt Ha Hb; [done|].
  cbn [isolation_all] in Hc. invert_inr. destruct j as [|j]; [lia|]. destruct i as [|i].
  - injection Hi as ->. cbn in Hj. apply list_elem_of_lookup_2 in Hj. clear IH Hc Hlt.
    destruct x. revert H0. generalize (() : ()). induction l as [|m' l IH]; intros u' H0;
      [by apply elem_of_nil in Hj|]. cbn [isolation_against] in H0. invert_inr.
    apply elem_of_cons in Hj as [->|Hj]; [by eapply isolation_pair_ok|by eapply IH].
  - apply (IH _ Hc i j); [done|done|lia|done|done].
Qed.

Lemma filter_lookup_lt {A} (P : A → Prop) `{∀ x, Decision (P x)} (l : list A) i j a b :
  l !! i = Some a → l !! j = Some b → (i < j)%nat → P a → P b →
  ∃ i' j', (i' < j')%nat ∧ filter P l !! i' = Some a ∧ filter P l !! j' = Some b.
Proof.
  intros Hi Hj Hlt Ha Hb. rewrite <-(take_drop_middle l i a Hi) in Hj |- *.
  assert (b ∈ drop (S i) l) as Hin.
  { rewrite (take_drop_middle l i a Hi) in Hj. apply list_elem_of_lookup. exists (j - S i)%nat.
    rewrite lookup_drop. by replace (S i + (j - S i))%nat with j by lia. }
  rewrite filter_app, filter_cons, decide_True by done.
  assert (b ∈ filter P (drop (S i) l)) as [k Hk]%list_elem_of_lookup
    by (by apply list_elem_of_filter).
  exists (length (filter P (take i l))), (length (filter P (take i l)) + S k)%nat.
  split; [lia|]. split; [by rewrite list_lookup_middle|].
  rewrite lookup_app_r by lia. by replace (_ + S k - _)%nat with (S k) by lia.
Qed.

Lemma check_collapse_ok fmt name ms new u :
  check_collapse fmt name ms new = inr u → ∀ p m, p ∈ ms → m ∈ ms → covers p m = false.
Proof.
  unfold check_collapse. intros Hc p m Hp Hm. invert_inr. bool_to_prop.
  pose proof (plan_collapse_spec ms new) as Hs.
  destruct (plan_collapse ms new) as [e|plan]; [done|]. cbn in H0. apply (inj inr) in H0 as ->.
  destruct Hs as (_ & Hr & _). rewrite Hc in Hr. cbn in Hr. symmetry in Hr.
  destruct (decide (uncovered ms m)) as [Hu|Hu].
  - unfold uncovered in Hu. rewrite Forall_forall in Hu. by apply Hu.
  - exfalso. apply (not_elem_of_nil m). rewrite <-Hr. by apply list_elem_of_filter.
Qed.

Lemma check_protected_ok w roots u :
  check_protected w roots = inr u →
  ∀ r, r ∈ roots → paths_overlap w (normalize_path r) = false.
Proof.
  revert u. induction roots as [|r0 roots IH]; intros u Hc r Hr; [by apply elem_of_nil in Hr|].
  cbn [check_protected] in Hc. invert_inr. bool_to_prop.
  apply elem_of_cons in Hr as [->|Hr]; [done|by eapply IH].
Qed.

Lemma validated_ok name w u :
  validate_workspace_config h fs name w = inr u →
  (∀ p m, p ∈ mounts w → m ∈ mounts w → covers p m = false) → workspace_ok w.
Proof.
  intros Hv Hlean. unfold validate_workspace_config in Hv. invert_inr.
  unfold validate_container_workdir_boundary in *. invert_inr. subst. bool_to_prop.
  match goal with H : validate_mount_specs _ = _ |- _ =>
    apply check_mount_specs_ok in H as (Hok & Hnd & _) end.
  split; try done.
  - match goal with H : check_protected _ _ = _ |- _ => apply (check_protected_ok _ _ _ H) end.
  - intros i j a b Hi Hj Hne Ha Hb Hsa Hsb.
    match goal with H : validate_isolation_layout _ _ _ = _ |- _ => rename H into Hiso end.
    unfold validate_isolation_layout in Hiso.
    assert (∀ m k, mounts w !! k = Some m → tdst m ≠ "" → starts_with "/" (tdst m) = true) as Habs.
    { intros m k Hk. rewrite Forall_lookup in Hok. apply tdst_absolute. by apply (Hok k m Hk). }
    apply (Habs _ _ Hi) in Hsa. apply (Habs _ _ Hj) in Hsb. clear Habs.
    assert (∀ m, isolation m ≠ MountIsolation.Shared →
                 MountIsolation.is_shared (isolation m) = false) as Hsh
      by (intros m; by destruct (isolation m)).
    destruct (Nat.lt_total i j) as [Hlt|[?|Hlt]]; [|done|].
    + destruct (filter_lookup_lt (λ m, MountIsolation.is_shared (isolation m) = false)
                  (mounts w) i j a b) as (i' & j' & Hlt' & Hi' & Hj'); [auto..|].
      by apply (isolation_all_ok _ _ Hiso i' j' a b).
    + destruct (filter_lookup_lt (λ m, MountIsolation.is_shared (isolation m) = false)
                  (mounts w) j i b a) as (i' & j' & Hlt' & Hi' & Hj'); [auto..|].
      by apply (isolation_all_ok _ _ Hiso i' j' b a).
  - match goal with H : existsb _ _ = true |- _ =>
      apply existsb_exists in H as (m & Hm%list_elem_of_In & Hov) end. eauto.
  - intros r Hr Hne. rewrite Hr in Hv. apply check_inr in Hv. bool_to_prop.
    destruct Hv as [Hv|Hv]; [by bool_to_prop|]. unfold str_in in Hv. by bool_to_prop.
Qed.

(** ** The operations keep every workspace well formed *)

Definition config_ok (c : AppConfig) : Prop :=
  map_Forall (λ _ w, workspace_ok w) (workspaces c).

Lemma create_workspace_ok c name w c' :
  config_ok c → create_workspace h fs c name w = inr c' → config_ok c'.
Proof.
  intros Hc Hcr. unfold create_workspace in Hcr. invert_inr. subst. cbn.
  apply map_Forall_insert_2; [|done]. eapply validated_ok; [done|]. by eapply check_collapse_ok.
Qed.

Lemma edit_workspace_ok c name e c' :
  config_ok c → edit_workspace h fs c name e = inr c' → config_ok c'.
Proof.
  intros Hc Hed. unfold edit_workspace in Hed. invert_inr. subst. cbn.
  apply map_Forall_insert_2; [|done]. eapply validated_ok; [done|]. by eapply check_collapse_ok.
Qed.
End validity.

(** The operations that change a configuration in memory. *)
Inductive config_step `{FileSystem Fs} : AppConfig → AppConfig → Prop :=
| step_create h fs c name w c' :
    create_workspace h fs c name w = inr c' → config_step c c'
| step_edit h fs c name e c' : edit_workspace h fs c name e = inr c' → config_step c c'
| step_remove c name c' : remove_workspace c name = inr c' → config_step c c'
| step_add_mount c name m sc : config_step c (add_mount c name m sc)
| step_role c s source fresh c' :
    resolve_role_source c s = inr (source, fresh, c') → config_step c c'
| step_trust c t key : config_step c (set_trust t c key).2
| step_sync c : config_step c (sync_builtin_agents c).2.

Lemma config_step_ok `{FileSystem Fs} c c' : config_step c c' → config_ok c → config_ok c'.
Proof.
  destruct 1 as [h fs c name w c' Hs|h fs c name e c' Hs|c name c' Hs|c name m sc|c s so fr c' Hs
                |c t key|c]; intros Hc.
  - by eapply create_workspace_ok.
  - by eapply edit_workspace_ok.
  - unfold remove_workspace in Hs. invert_inr. subst. by apply map_Forall_delete.
  - unfold add_mount. cbv zeta. repeat split_match; done.
  - unfold resolve_role_source in Hs. destruct (roles c !! _); [by simplify_eq|].
    invert_inr. by simplify_eq.
  - unfold set_trust. repeat split_match; done.
  - unfold sync_builtin_agents, BUILTIN_ROLES. cbn [foldl]. unfold sync_builtin.
    repeat split_match; done.
Qed.

(** C35: In every configuration reached from one without workspaces, by creating,
    editing and removing workspaces and by changing roles and global mounts, with
    any state of the host in between, each workspace is well formed: an absolute
    work directory outside the protected container paths that meets one of its
    mounts, mounts with absolute sources and distinct destinations, no isolated
    mount inside another, the destination [/] excepted (see [root_mount_not_nested]), a
    default role that is allowed, and no mount that another one covers. *)
Theorem config_invariant `{FileSystem Fs} c c' name w :
  workspaces c = ∅ → rtc config_step c c' → workspaces c' !! name = Some w → workspace_ok w.
Proof.
  intros Hnone Hsteps Hw. assert (config_ok c') as Hc'; [|by eapply Hc'].
  assert (config_ok c) as Hc by (unfold config_ok; rewrite Hnone; apply map_Forall_empty).
  clear Hw Hnone. induction Hsteps as [|c c1 c' Hs _ IH]; [done|].
  apply IH. by eapply config_step_ok.
Qed.

Definition demo_host : Host := mk_host (Some "/home/me") (Some "/tmp") ["/home/me/.cache"].
Definition demo_fs : gset string := {[ "/src/app" ]}.
Definition no_config : AppConfig := mk_config ∅ None None ∅ ∅ ∅ None.
Definition demo_workspace : WorkspaceConfig :=
  plain_workspace "/work/app" [rw_mount "/src/app" "/work/app"].

Lemma config_invariant_witness :
  let c := with_workspaces <["demo" := demo_workspace]> no_config in
  workspaces c !! "demo" = Some demo_workspace ∧ workspace_ok demo_workspace.
Proof.
  intros c. split; [reflexivity|].
  apply (config_invariant (Fs := gset string) no_config c "demo"); [reflexivity| |reflexivity].
  apply rtc_once, (step_create demo_host demo_fs _ "demo" demo_workspace).
  vm_compute. reflexivity.
Defined.

(** The validation cuts the slashes off the end of a destination: [/] becomes the empty
    path, which it takes for the working directory of the process.  So an isolated
    mount inside one at [/] is accepted. *)
Example root_mount_not_nested :
  let w := plain_workspace "/work"
    [mk_mount "/src/a" "/" false MountIsolation.Clone;
     mk_mount "/src/b" "/work" false MountIsolation.Clone] in
  (c ← create_workspace demo_host ({[ "/src/a"; "/src/b" ]} : gset string) no_config "demo" w;
   inr (workspaces c !! "demo")) = inr (Some w)
  ∧ path_eqb "/" "/work" = false ∧ path_is_ancestor_or_equal "/" "/work" = true.
Proof. vm_compute. done. Qed.

(** ** Planned edits *)

Lemma upsert_mount_nil u : upsert_mount [] u = [u].
Proof. done. Qed.
Lemma upsert_mount_cons m ms u :
  upsert_mount (m :: ms) u = if decide (dst m = dst u) then u :: ms else m :: upsert_mount ms u.
Proof.
  unfold upsert_mount. cbn [list_find]. destruct (decide (dst m = dst u)); [done|].
  by destruct (list_find _ ms) as [[i x]|].
Qed.

Lemma post_upsert_mounts wd ms us rs :
  (post_upsert wd ms us rs false).1 = foldl upsert_mount (filter (λ m, dst m ∉ rs) ms) us.
Proof.
  unfold post_upsert. cbv zeta. generalize (filter (λ m, dst m ∉ rs) ms) ([] : list nat).
  induction us as [|u us IH]; intros l idx; [done|]. cbn [foldl]. unfold upsert at 2, upsert_mount at 2.
  cbn [fst snd]. by destruct (list_find _ l) as [[i x]|]; rewrite IH.
Qed.

Lemma upsert_mount_filter (X : list string) ms u :
  dst u ∉ X →
  filter (λ m, dst m ∉ X) (upsert_mount ms u) = upsert_mount (filter (λ m, dst m ∉ X) ms) u.
Proof.
  intros Hu. induction ms as [|m ms IH].
  - rewrite upsert_mount_nil, filter_cons, decide_True by done. done.
  - rewrite upsert_mount_cons, (filter_cons _ m ms).
    destruct (decide (dst m = dst u)) as [Heq|Hne].
    + rewrite filter_cons, decide_True by done.
      rewrite decide_True by (by rewrite Heq). rewrite upsert_mount_cons, decide_True by done. done.
    + rewrite filter_cons. destruct (decide (dst m ∉ X)); [|done].
      rewrite upsert_mount_cons, decide_False by done. by rewrite IH.
Qed.

Lemma upserts_filter (X : list string) ms us :
  (∀ u, u ∈ us → dst u ∉ X) →
  filter (λ m, dst m ∉ X) (foldl upsert_mount ms us)
  = foldl upsert_mount (filter (λ m, dst m ∉ X) ms) us.
Proof.
  revert ms. induction us as [|u us IH]; intros ms Hus; [done|]. cbn [foldl].
  rewrite IH by (intros; apply Hus; by right). by rewrite upsert_mount_filter by (apply Hus; left).
Qed.

Lemma upsert_mount_dsts ms u :
  dst <$> upsert_mount ms u = if decide (dst u ∈ dst <$> ms) then dst <$> ms else (dst <$> ms) ++ [dst u].
Proof.
  induction ms as [|m ms IH]; [done|]. rewrite upsert_mount_cons.
  destruct (decide (dst m = dst u)) as [Heq|Hne]; cbn.
  - rewrite Heq, decide_True by set_solver. done.
  - rewrite IH. destruct (decide (dst u ∈ dst <$> ms)).
    + by rewrite decide_True by set_solver.
    + by rewrite decide_False by set_solver.
Qed.

Lemma upserts_NoDup ms us : NoDup (dst <$> ms) → NoDup (dst <$> foldl upsert_mount ms us).
Proof.
  revert ms. induction us as [|u us IH]; intros ms Hnd; [done|]. cbn [foldl]. apply IH.
  rewrite upsert_mount_dsts. case_decide; [done|]. apply NoDup_app. split; [done|].
  split; [set_solver|]. apply NoDup_singleton.
Qed.

Lemma upserts_elem ms us m : m ∈ foldl upsert_mount ms us → m ∈ ms ∨ m ∈ us.
Proof.
  revert ms. induction us as [|u us IH]; intros ms Hm; [by left|]. cbn [foldl] in Hm.
  apply IH in Hm as [Hm|]; [|set_solver]. assert (m = u ∨ m ∈ ms); [|set_solver].
  clear IH. induction ms as [|x ms IHm].
  - rewrite upsert_mount_nil in Hm. set_solver.
  - rewrite upsert_mount_cons in Hm. case_decide; set_solver.
Qed.

(** Removing known, distinct destinations is a filter. *)
Lemma remove_mounts_filter ms l ms' :
  remove_mounts ms l = inr ms' → ms' = filter (λ m, dst m ∉ l) ms.
Proof.
  revert ms. induction l as [|d l IH]; intros ms Hr; cbn [remove_mounts] in Hr.
  - injection Hr as <-. symmetry. apply filter_all, Forall_true. intros m. apply not_elem_of_nil.
  - cbv zeta in Hr. invert_inr. rewrite (IH _ Hr), list_filter_filter. apply list_filter_iff.
    intros m. set_solver.
Qed.

Lemma remove_mounts_ok ms l :
  NoDup l → (∀ d, d ∈ l → d ∈ dst <$> ms) →
  remove_mounts ms l = inr (filter (λ m, dst m ∉ l) ms).
Proof.
  intros Hnd Hin. enough (∃ ms', remove_mounts ms l = inr ms') as [ms' Hr]
    by (by rewrite <-(remove_mounts_filter _ _ _ Hr)).
  revert ms Hin. induction Hnd as [|d l Hd Hnd IH]; intros ms Hin; cbn [remove_mounts]; [eauto|].
  cbv zeta. rewrite bool_decide_false.
  - cbn. apply IH. intros d' Hd'. assert (d' ∈ dst <$> ms) as (m & -> & Hm)%list_elem_of_fmap
      by (apply Hin; by right).
    apply list_elem_of_fmap. exists m. split; [done|]. apply list_elem_of_filter. set_solver.
  - assert (d ∈ dst <$> ms) as (m & -> & Hm)%list_elem_of_fmap by (apply Hin; left).
    apply list_elem_of_split in Hm as (l1 & l2 & ->).
    rewrite filter_app, filter_cons, decide_False by (by intros ?).
    rewrite !length_app. cbn [length].
    pose proof (length_filter (λ x, dst x ≠ dst m) l1).
    pose proof (length_filter (λ x, dst x ≠ dst m) l2). lia.
Qed.
