(* ===== verification/WorkspaceCommands.v ===== *)
(** * The workspace commands

    The create, edit and prune commands of the host CLI ([workspace_cmd.rs]) as
    compositions of the planner and the operations of the configuration.  The
    operator's answer to a prompt, whether standard input is a terminal, and the
    check for containers that still use the old mounts are arguments of the
    commands. *)

From stdpp Require Import base list gmap strings.
From Stdlib Require Import ZArith Lia Bool.
From S2P Require Import Prelude OrderedMap Paths EnvModel EnvProofs Config MountProofs ConfigProofs.

Record WorkspaceCreateParams := mk_create_params {
  cp_name : string;
  cp_workdir : string;
  cp_mounts : list string;
  cp_allowed_roles : list string;
  cp_default_role : option string;
  cp_default_agent : option Agent.t;
  cp_mount_isolation : list (string * MountIsolation.t);
  cp_keep_awake : bool;
  cp_git_pull : bool
}.

Record WorkspaceEditParams := mk_edit_params {
  ep_name : string;
  ep_workdir : option string;
  ep_mounts : list string;
  ep_remove_destinations : list string;
  ep_no_workdir_mount : bool;
  ep_allowed_roles : list string;
  ep_remove_allowed_roles : list string;
  ep_default_role : option string;
  ep_clear_default_role : bool;
  ep_default_agent : option Agent.t;
  ep_clear_default_agent : bool;
  ep_assume_yes : bool;
  ep_prune : bool;
  ep_mount_isolation : list (string * MountIsolation.t);
  ep_keep_awake : bool;
  ep_no_keep_awake : bool;
  ep_git_pull : bool;
  ep_no_git_pull : bool;
  ep_default_launch : list string;
  ep_clear_default_launch : bool
}.

(** The two switches of an option. *)
Definition switch (on off : bool) : option bool :=
  if on then Some true else if off then Some false else None.

Record Operator := mk_operator { at_terminal : bool; confirms : bool }.

Definition confirm (op : Operator) : ConfigError + () :=
  _ ← check (at_terminal op)
        (Message "refusing to collapse mounts without confirmation; pass --yes to proceed non-interactively" []);
  check (confirms op) (Message "aborted by operator" []).

Definition prospective_mounts_for_edit (w : WorkspaceConfig) (upserts : list MountConfig)
    (removals : list string) (no_workdir : bool) (overrides : list (string * MountIsolation.t))
    : ConfigError + list MountConfig :=
  let base := filter (λ m, dst m ∉ removals) (mounts w) in
  let base := if no_workdir then filter (λ m, ¬ (src m = workdir w ∧ dst m = workdir w)) base
              else base in
  apply_isolation_overrides (foldl upsert_mount base upserts) overrides.

Section commands.
Context `{FileSystem Fs} (h : Host) (fs : Fs).

Definition handle_workspace_create (c : AppConfig) (p : WorkspaceCreateParams)
    : ConfigError + AppConfig :=
  plan ← lift_err Collapse (plan_create (parse_mount_spec_resolved h <$> cp_mounts p));
  final ← apply_isolation_overrides (final_mounts plan) (cp_mount_isolation p);
  name ← lift_err WorkspaceName_ (parse_workspace_name (cp_name p));
  create_workspace h fs c name
    (mk_workspace (resolve_path h (cp_workdir p)) final (cp_allowed_roles p) (cp_default_role p)
       (cp_default_agent p) None ∅ (mk_keep_awake (cp_keep_awake p)) None (cp_git_pull p) None None).

(** The plan of an edit, after the operator's consent. *)
Definition prepare_workspace_edit (c : AppConfig) (op : Operator) (p : WorkspaceEditParams)
    : ConfigError + (WorkspaceConfig * WorkspaceEditPlan) :=
  name ← lift_err WorkspaceName_ (parse_workspace_name (ep_name p));
  w ← require_workspace c name;
  plan ← lift_err Collapse
           (plan_edit (workdir w) (mounts w) (parse_mount_spec_resolved h <$> ep_mounts p)
              (ep_remove_destinations p) (ep_no_workdir_mount p));
  _ ← check (bool_decide (pre_existing_collapses plan = []) || ep_prune p)
        (Message "workspace {name:?} already contains redundant mounts"
           (ep_name p :: removal_lines (pre_existing_collapses plan)));
  _ ← (if bool_decide (edit_driven_collapses plan ++ pre_existing_collapses plan = [])
          || ep_assume_yes p then inr () else confirm op);
  inr (w, plan).

(** The edit that the command sends to the configuration. *)
Definition edit_of (p : WorkspaceEditParams) (plan : WorkspaceEditPlan) : WorkspaceEdit :=
  mk_edit (resolve_path h <$> ep_workdir p) (parse_mount_spec_resolved h <$> ep_mounts p)
    (effective_removals plan) (ep_no_workdir_mount p) (ep_allowed_roles p)
    (ep_remove_allowed_roles p)
    (if ep_clear_default_role p then Some None else Some <$> ep_default_role p)
    (if ep_clear_default_agent p then Some None else Some <$> ep_default_agent p)
    (ep_mount_isolation p)
    (switch (ep_keep_awake p) (ep_no_keep_awake p)) (switch (ep_git_pull p) (ep_no_git_pull p))
    (if ep_clear_default_launch p then Some None
     else match ep_default_launch p with [] => None | l => Some (Some l) end).

(** [drift]: the check of the containers against the mounts to come. *)
Definition handle_workspace_edit (c : AppConfig) (op : Operator)
    (drift : list MountConfig → ConfigError + ()) (p : WorkspaceEditParams)
    : ConfigError + AppConfig :=
  wp ← prepare_workspace_edit c op p;
  prospective ← prospective_mounts_for_edit wp.1 (parse_mount_spec_resolved h <$> ep_mounts p)
                  (effective_removals wp.2) (ep_no_workdir_mount p) (ep_mount_isolation p);
  name ← lift_err WorkspaceName_ (parse_workspace_name (ep_name p));
  _ ← drift prospective;
  edit_workspace h fs c name (edit_of p wp.2).

Definition removal_edit (removals : list string) : WorkspaceEdit :=
  mk_edit None [] removals false [] [] None None [] None None None.

Definition handle_workspace_prune (c : AppConfig) (op : Operator) (assume_yes : bool)
    (name : string) : ConfigError + AppConfig :=
  name ← lift_err WorkspaceName_ (parse_workspace_name name);
  w ← require_workspace c name;
  plan ← lift_err Collapse (plan_collapse (mounts w) []);
  if bool_decide (removed plan = []) then inr c
  else
    _ ← (if assume_yes then inr () else confirm op);
    edit_workspace h fs c name (removal_edit (dst ∘ child <$> removed plan)).

End commands.

(** ** The removals of a plan *)

Lemma effective_elem l rs d :
  d ∈ foldl add_removal rs l ↔ d ∈ rs ∨ d ∈ dst ∘ child <$> l.
Proof.
  revert rs. induction l as [|r l IH]; intros rs; cbn [foldl]; [set_solver|].
  rewrite IH. unfold add_removal, str_in. case_bool_decide; set_solver.
Qed.

Lemma effective_NoDup l rs : NoDup rs → NoDup (foldl add_removal rs l).
Proof.
  revert rs. induction l as [|r l IH]; intros rs Hnd; [done|]. cbn [foldl]. apply IH.
  unfold add_removal, str_in. case_bool_decide; [done|]. apply NoDup_app. split; [done|].
  split; [set_solver|]. apply NoDup_singleton.
Qed.

Lemma sort_removals_elem ms new l out r :
  sort_removals ms new l = inr out → r ∈ out.1 ++ out.2 ↔ r ∈ l.
Proof.
  revert out. induction l as [|r0 l IH]; intros out Hs; cbn [sort_removals] in Hs.
  { by injection Hs as <-. }
  invert_inr. subst. specialize (IH _ H1). rewrite elem_of_app, elem_of_cons, <-IH, elem_of_app.
  destruct (_ || _); cbn; rewrite elem_of_cons; tauto.
Qed.

(** What a successful plan of an edit consists of. *)
Lemma plan_edit_inv wd ms us rs plan :
  plan_edit wd ms us rs false = inr plan →
  let post := foldl upsert_mount (filter (λ m, dst m ∉ rs) ms) us in
  ∃ new cp, plan_collapse post new = inr cp ∧
    effective_removals plan = foldl add_removal rs (removed cp) ∧
    ∀ r, r ∈ edit_driven_collapses plan ++ pre_existing_collapses plan ↔ r ∈ removed cp.
Proof.
  unfold plan_edit. rewrite <-(post_upsert_mounts wd ms us rs).
  destruct (post_upsert wd ms us rs false) as [post new]. intros Hp. invert_inr. subst. cbn [fst].
  exists new, x. split; [done|]. split; [done|]. intros r. by eapply sort_removals_elem.
Qed.

(** With distinct destinations, the kept mounts are those whose destination is
    not a collapsed one. *)
Lemma kept_by_dst ms new cp :
  plan_collapse ms new = inr cp → NoDup (dst <$> ms) →
  kept cp = filter (λ m, dst m ∉ dst ∘ child <$> removed cp) ms.
Proof.
  intros Hcp Hnd. pose proof (plan_collapse_spec ms new) as Hs. rewrite Hcp in Hs.
  destruct Hs as (-> & Hr & _). rewrite list_fmap_compose, Hr. clear Hcp Hr.
  assert (∀ m, m ∈ ms → uncovered ms m ↔ dst m ∉ dst <$> filter (λ m, ¬ uncovered ms m) ms) as Hiff.
  { intros m Hm. split.
    - intros Hu (m' & Heq & [Hnu Hm']%list_elem_of_filter)%list_elem_of_fmap.
      assert (m = m') as <-; [|done].
      apply list_elem_of_lookup in Hm as [i Hi], Hm' as [j Hj].
      assert (i = j) as ->; [|congruence].
      apply (NoDup_lookup (dst <$> ms) i j (dst m)); [done|..];
        rewrite list_lookup_fmap, ?Hi, ?Hj; cbn; congruence.
    - intros Hn. destruct (decide (uncovered ms m)); [done|]. exfalso. apply Hn.
      apply list_elem_of_fmap. exists m. split; [done|]. by apply list_elem_of_filter. }
  revert Hiff. generalize (uncovered ms) (uncovered_dec ms)
    (dst <$> filter (λ m, ¬ uncovered ms m) ms). clear Hnd.
  intros P HP X Hiff. induction ms as [|m ms IH]; [done|]. rewrite !filter_cons.
  assert (P m ↔ dst m ∉ X) as Hm by (apply Hiff; left).
  rewrite IH by (intros; apply Hiff; by right).
  destruct (decide (P m)), (decide (dst m ∉ X)); tauto.
Qed.

(** ** Overrides and checks look at paths only *)

Definition paths_of (m : MountConfig) : string * string := (src m, dst m).

Lemma overrides_paths ms os ms' :
  apply_isolation_overrides ms os = inr ms' → paths_of <$> ms' = paths_of <$> ms.
Proof.
  revert ms. induction os as [|o os IH]; intros ms Ha; cbn [apply_isolation_overrides] in Ha;
    [by injection Ha as <-|]. invert_inr. rewrite (IH _ Ha). unfold apply_isolation_override in *.
  destruct (list_find _ _) as [[i m]|] eqn:Hf; [|done]. apply (inj inr) in H as <-.
  apply list_find_Some in Hf as (Hi & _ & _).
  rewrite list_fmap_insert. apply list_insert_id. by rewrite list_lookup_fmap, Hi.
Qed.

Definition lean (ms : list MountConfig) : Prop := ∀ p m, p ∈ ms → m ∈ ms → covers p m = false.

Lemma covers_paths p p' m m' :
  paths_of p = paths_of p' → paths_of m = paths_of m' → covers p m = covers p' m'.
Proof. intros [= Hs Hd] [= Hs' Hd']. unfold covers. by rewrite Hs, Hd, Hs', Hd'. Qed.

Lemma lean_paths ms ms' : paths_of <$> ms = paths_of <$> ms' → lean ms → lean ms'.
Proof.
  intros Heq Hl p' m' Hp Hm.
  assert (∀ x', x' ∈ ms' → ∃ x, x ∈ ms ∧ paths_of x = paths_of x') as Hex.
  { intros x' Hx. assert (paths_of x' ∈ paths_of <$> ms) as (x & ? & ?)%list_elem_of_fmap;
      [|by eauto]. rewrite Heq. by apply list_elem_of_fmap; eauto. }
  destruct (Hex _ Hp) as (p & Hp' & Ep), (Hex _ Hm) as (m & Hm' & Em).
  by rewrite <-(covers_paths _ _ _ _ Ep Em), Hl.
Qed.

Lemma removed_child ms new cp r :
  plan_collapse ms new = inr cp → r ∈ removed cp → child r ∈ ms ∧ ¬ uncovered ms (child r).
Proof.
  intros Hcp Hr. pose proof (plan_collapse_spec ms new) as Hs. rewrite Hcp in Hs.
  destruct Hs as (_ & Hch & _).
  assert (child r ∈ child <$> removed cp) as Hin by (apply list_elem_of_fmap; eauto).
  rewrite Hch in Hin. by apply list_elem_of_filter in Hin as [? ?].
Qed.

Lemma kept_lean ms new cp : plan_collapse ms new = inr cp → lean (kept cp).
Proof.
  intros Hcp. pose proof (plan_collapse_spec ms new) as Hs. rewrite Hcp in Hs.
  destruct Hs as (-> & _). intros p m [_ Hp]%list_elem_of_filter [Hm _]%list_elem_of_filter.
  unfold uncovered in Hm. rewrite Forall_forall in Hm. by apply Hm.
Qed.

Lemma lean_check fmt name ms new : lean ms → check_collapse fmt name ms new = inr ().
Proof.
  intros Hl. unfold check_collapse. pose proof (plan_collapse_spec ms new) as Hs.
  destruct (plan_collapse ms new) as [[p m|p m|]|plan]; cbn.
  - destruct Hs as (Hp & Hm & Hc & _). by rewrite Hl in Hc.
  - destruct Hs as (i & j & Hi%list_elem_of_lookup_2 & Hj%list_elem_of_lookup_2 & Hc & _).
    by rewrite Hl in Hc.
  - done.
  - destruct Hs as (_ & Hr & _). destruct (removed plan) as [|r l] eqn:E; [done|]. exfalso.
    assert (child r ∈ filter (λ m, ¬ uncovered ms m) ms) as Hin by (rewrite <-Hr; left).
    apply list_elem_of_filter in Hin as [Hnu Hm]. apply Hnu. apply Forall_forall. auto.
Qed.

Lemma prepare_inv h c op p w plan :
  prepare_workspace_edit h c op p = inr (w, plan) →
  workspaces c !! ep_name p = Some w ∧ parse_workspace_name (ep_name p) = inr (ep_name p) ∧
  plan_edit (workdir w) (mounts w) (parse_mount_spec_resolved h <$> ep_mounts p)
    (ep_remove_destinations p) (ep_no_workdir_mount p) = inr plan.
Proof.
  unfold prepare_workspace_edit. intros Hp. invert_inr. simplify_eq.
  assert (x = ep_name p) as ->.
  { destruct (parse_workspace_name (ep_name p)) eqn:E; [done|]. cbn in H. simplify_eq.
    unfold parse_workspace_name in E. repeat split_match_in E; by simplify_eq. }
  unfold require_workspace in *. destruct (workspaces c !! ep_name p); [|done]. cbn in *. simplify_eq.
  destruct (parse_workspace_name (ep_name p)); [done|]. cbn in *. simplify_eq.
  destruct (plan_edit _ _ _ _ _); [done|]. cbn in *. by simplify_eq.
Qed.

(** C36: The edit command carries out its plan.  When the command is not asked to drop the
    mount of the work directory ([--no-workdir-mount]), the destinations of the
    workspace are distinct, the destinations to remove are distinct and known, and no
    collapsed mount is one of those being added, the mounts that the edit computes, whatever
    the new work directory, are the ones the drift check was given, they are the mounts
    the plan keeps, and nothing among them is redundant, so the edit is not refused
    for that reason.  With [--no-workdir-mount] and a new work directory the two differ
    (see [workdir_mount_mistaken]). *)
Theorem planned_edit_applies h c op p w plan :
  prepare_workspace_edit h c op p = inr (w, plan) →
  ep_no_workdir_mount p = false → NoDup (dst <$> mounts w) →
  NoDup (ep_remove_destinations p) →
  (∀ d, d ∈ ep_remove_destinations p → d ∈ dst <$> mounts w) →
  (∀ r, r ∈ edit_driven_collapses plan ++ pre_existing_collapses plan →
        dst (child r) ∉ dst <$> (parse_mount_spec_resolved h <$> ep_mounts p)) →
  ∀ wd,
    edited_mounts wd (mounts w) (edit_of h p plan)
    = prospective_mounts_for_edit w (parse_mount_spec_resolved h <$> ep_mounts p)
        (effective_removals plan) false (ep_mount_isolation p) ∧
    ∀ ms, edited_mounts wd (mounts w) (edit_of h p plan) = inr ms →
      (∃ new cp, plan_collapse (post_upsert (workdir w) (mounts w)
                    (parse_mount_spec_resolved h <$> ep_mounts p)
                    (ep_remove_destinations p) false).1 new = inr cp ∧
                 paths_of <$> ms = paths_of <$> kept cp) ∧
      ∀ fmt name, check_collapse fmt name ms [] = inr ().
Proof.
  intros (_ & _ & Hplan)%prepare_inv Hnw Hnd Hrs Hknown Hfree wd. rewrite Hnw in Hplan.
  set (us := parse_mount_spec_resolved h <$> ep_mounts p) in *.
  set (rs := ep_remove_destinations p) in *. apply plan_edit_inv in Hplan.
  destruct Hplan as (new & cp & Hcp & Heff & Hall).
  set (base := filter (λ m, dst m ∉ rs) (mounts w)) in *.
  assert (NoDup (dst <$> base)) as Hndb.
  { eapply sublist_NoDup; [exact Hnd|]. apply fmap_sublist, sublist_filter. }
  assert (∀ r, r ∈ removed cp → dst (child r) ∉ dst <$> us) as Hfree' by (intros; by apply Hfree, Hall).
  assert (remove_mounts (mounts w) (effective_removals plan)
          = inr (filter (λ m, dst m ∉ effective_removals plan) (mounts w))) as Hrm.
  { apply remove_mounts_ok; rewrite Heff; [by apply effective_NoDup|].
    intros d [Hd|(r & -> & Hr)%list_elem_of_fmap]%effective_elem; [by apply Hknown|].
    destruct (upserts_elem _ _ _ (proj1 (removed_child _ _ _ _ Hcp Hr))) as [Hin|Hin].
    - apply list_elem_of_filter in Hin as [_ Hin]. apply list_elem_of_fmap. eauto.
    - destruct (Hfree' r Hr). apply list_elem_of_fmap. eauto. }
  assert (foldl upsert_mount (filter (λ m, dst m ∉ effective_removals plan) (mounts w)) us
          = kept cp) as Hkept.
  { rewrite (kept_by_dst _ _ _ Hcp) by (by apply upserts_NoDup).
    rewrite upserts_filter.
    - f_equal. unfold base. rewrite list_filter_filter, Heff. apply list_filter_iff.
      intros m. rewrite effective_elem. tauto.
    - intros u Hu (r & Heq & Hr)%list_elem_of_fmap. apply (Hfree' r Hr).
      cbn in Heq. rewrite <-Heq. apply list_elem_of_fmap. eauto. }
  assert (edited_mounts wd (mounts w) (edit_of h p plan)
          = apply_isolation_overrides (kept cp) (ep_mount_isolation p)) as Hed.
  { unfold edited_mounts. cbn [edit_of remove_destinations no_workdir_mount upsert_mounts
      mount_isolation_overrides]. fold us. rewrite Hrm, Hnw. cbn. by rewrite Hkept. }
  split; [by rewrite Hed, <-Hkept|]. intros ms Hms. rewrite Hed in Hms.
  apply overrides_paths in Hms. split.
  - exists new, cp. by rewrite post_upsert_mounts.
  - intros fmt name. apply lean_check. apply (lean_paths (kept cp)); [done|]. by eapply kept_lean.
Qed.

Definition demo_edit (specs removals : list string) : WorkspaceEditParams :=
  mk_edit_params "demo" None specs removals false [] [] None false None false true false []
    false false false false [] false.
Definition sub_workspace : WorkspaceConfig :=
  plain_workspace "/work/app" [rw_mount "/src/app/sub" "/work/app/sub"; rw_mount "/data" "/data"].
Definition sub_config : AppConfig := with_workspaces <["demo" := sub_workspace]> no_config.
Definition at_desk : Operator := mk_operator true true.

Lemma planned_edit_applies_witness :
  ∃ plan, prepare_workspace_edit demo_host sub_config at_desk
            (demo_edit ["/src/app:/work/app"] []) = inr (sub_workspace, plan) ∧
    effective_removals plan = ["/work/app/sub"] ∧
    edited_mounts "/work/app" (mounts sub_workspace)
      (edit_of demo_host (demo_edit ["/src/app:/work/app"] []) plan)
    = prospective_mounts_for_edit sub_workspace [rw_mount "/src/app" "/work/app"]
        (effective_removals plan) false [].
Proof.
  destruct (prepare_workspace_edit demo_host sub_config at_desk
              (demo_edit ["/src/app:/work/app"] [])) as [e|[w plan]] eqn:Hp;
    [by vm_compute in Hp|].
  assert (w = sub_workspace ∧ plan = mk_edit_plan ["/work/app/sub"]
            [mk_removal (rw_mount "/src/app/sub" "/work/app/sub") (rw_mount "/src/app" "/work/app")]
            []) as [-> ->] by (vm_compute in Hp; injection Hp as <- <-; split; reflexivity).
  eexists. split; [reflexivity|]. split; [reflexivity|].
  refine (proj1 (planned_edit_applies demo_host sub_config at_desk
            (demo_edit ["/src/app:/work/app"] []) sub_workspace _ Hp _ _ _ _ _ "/work/app")).
  - reflexivity.
  - apply (bool_decide_unpack _). vm_compute. exact I.
  - constructor.
  - intros d Hd. by apply elem_of_nil in Hd.
  - intros r Hr. apply list_elem_of_singleton in Hr as ->. apply (bool_decide_unpack _).
    vm_compute. exact I.
Defined.

(** The plan and the drift check drop the mount of the old work directory, the edit that of
    the new one: the containers are checked against mounts that the workspace does not get. *)
Definition moved_workspace : WorkspaceConfig :=
  plain_workspace "/a" [rw_mount "/a" "/a"; rw_mount "/b" "/b"; rw_mount "/c" "/b/sub"].
Definition move_edit : WorkspaceEditParams :=
  mk_edit_params "demo" (Some "/b") [] [] true [] [] None false None false true false []
    false false false false [] false.
Example workdir_mount_mistaken :
  let c := with_workspaces <["demo" := moved_workspace]> no_config in
  ∃ plan, prepare_workspace_edit demo_host c at_desk move_edit = inr (moved_workspace, plan) ∧
    prospective_mounts_for_edit moved_workspace [] (effective_removals plan) true []
    = inr [rw_mount "/b" "/b"; rw_mount "/c" "/b/sub"] ∧
    (c' ← edit_workspace demo_host ({[ "/a"; "/b"; "/c" ]} : gset string) c "demo"
            (edit_of demo_host move_edit plan);
     inr (mounts <$> workspaces c' !! "demo"))
    = inr (Some [rw_mount "/a" "/a"; rw_mount "/c" "/b/sub"]).
Proof. eexists. split; [vm_compute; reflexivity|]. split; vm_compute; reflexivity. Qed.

(** ** Adding a mount together with one that covers it *)

Lemma upsert_mount_mem ms u m :
  NoDup (dst <$> ms) → m ∈ upsert_mount ms u ↔ m = u ∨ m ∈ ms ∧ dst m ≠ dst u.
Proof.
  induction ms as [|x ms IH]; intros Hnd; [rewrite upsert_mount_nil; set_solver|].
  cbn in Hnd. apply NoDup_cons in Hnd as [Hx Hnd]. rewrite upsert_mount_cons.
  destruct (decide (dst x = dst u)) as [Heq|Hne].
  - rewrite !elem_of_cons. split; [|naive_solver]. intros [->|Hm]; [by left|right].
    split; [by right|]. intros Hd. apply Hx. rewrite Heq, <-Hd. apply list_elem_of_fmap. eauto.
  - rewrite !elem_of_cons, IH by done. naive_solver.
Qed.

Lemma upserts_mem ms us m :
  NoDup (dst <$> ms) → NoDup (dst <$> us) →
  m ∈ foldl upsert_mount ms us ↔ m ∈ us ∨ m ∈ ms ∧ dst m ∉ dst <$> us.
Proof.
  revert ms. induction us as [|u us IH]; intros ms Hms Hus; cbn [foldl]; [set_solver|].
  cbn in Hus. apply NoDup_cons in Hus as [Hu Hus].
  rewrite IH by (done || by apply (upserts_NoDup ms [u])). rewrite upsert_mount_mem by done.
  cbn. rewrite !not_elem_of_cons, elem_of_cons. split; [|naive_solver].
  intros [?|[[->|[? ?]] Hn]]; naive_solver.
Qed.

Lemma check_upserts_NoDup seen l u : check_upserts seen l = inr u → NoDup (dst <$> l).
Proof.
  assert (∀ seen u, check_upserts seen l = inr u → NoDup (dst <$> l) ∧ ∀ m, m ∈ l → dst m ∉ seen)
    as Hgen; [|by eapply Hgen].
  induction l as [|m l IH]; intros seen' u' Hc; cbn [check_upserts] in Hc.
  { split; [constructor|]. intros m Hm. by apply elem_of_nil in Hm. }
  invert_inr. bool_to_prop. destruct (IH _ _ Hc) as [Hnd Hs]. cbn. split.
  - constructor; [|done]. intros (m' & Heq & Hin)%list_elem_of_fmap. apply Hs in Hin. set_solver.
  - intros m' [->|Hin]%elem_of_cons; [done|]. apply Hs in Hin. set_solver.
Qed.

(** An edit that adds a mount together with a mount that covers it is always
    refused.  The planner collapses the covered mount, and the command then both
    asks for its removal and adds it again: the removal fails when the
    destination is new, and otherwise the added mount is redundant. *)
Theorem collapsed_upsert_refused `{FileSystem Fs} h (fs : Fs) c op p w plan r :
  prepare_workspace_edit h c op p = inr (w, plan) →
  ep_no_workdir_mount p = false → NoDup (dst <$> mounts w) →
  r ∈ edit_driven_collapses plan ++ pre_existing_collapses plan →
  child r ∈ parse_mount_spec_resolved h <$> ep_mounts p →
  ∃ e, edit_workspace h fs c (ep_name p) (edit_of h p plan) = inl e.
Proof.
  intros (Hw & _ & Hplan)%prepare_inv Hnw Hnd Hr Hc. rewrite Hnw in Hplan.
  set (us := parse_mount_spec_resolved h <$> ep_mounts p) in *.
  apply plan_edit_inv in Hplan as (new & cp & Hcp & Heff & Hall). apply Hall in Hr.
  destruct (edit_workspace h fs c (ep_name p) (edit_of h p plan)) as [e|c'] eqn:Hed; [eauto|].
  exfalso. unfold edit_workspace, require_workspace in Hed. rewrite Hw in Hed. cbn [opt_err] in Hed.
  apply sum_bind_inr in Hed as (u0 & Hus%check_upserts_NoDup & Hed).
  apply sum_bind_inr in Hed as (w' & [= <-] & Hed). cbv zeta in Hed.
  apply sum_bind_inr in Hed as (ms & Hms & Hed).
  apply sum_bind_inr in Hed as (u1 & _ & Hed).
  apply sum_bind_inr in Hed as (u2 & Hchk & _).
  unfold edited_mounts in Hms. cbn [edit_of remove_destinations no_workdir_mount upsert_mounts
    mount_isolation_overrides] in Hms, Hus. rewrite Hnw in Hms. fold us in Hms, Hus.
  apply sum_bind_inr in Hms as (ms1 & ->%remove_mounts_filter & Hms).
  apply sum_bind_inr in Hms as (ms2 & [= <-] & Hms%overrides_paths).
  assert (NoDup (dst <$> filter (λ m, dst m ∉ ep_remove_destinations p) (mounts w))) as Hndb
    by (eapply sublist_NoDup; [exact Hnd|]; apply fmap_sublist, sublist_filter).
  destruct (removed_child _ _ _ _ Hcp Hr) as [Hcin Hcu].
  destruct (kept_ancestor _ _ _ _ Hcp Hcin) as [Hk|(k & Hk & Hcov & _)].
  { pose proof (plan_collapse_spec (foldl upsert_mount (filter (λ m, dst m ∉ ep_remove_destinations p)
      (mounts w)) us) new) as Hs. rewrite Hcp in Hs. destruct Hs as (Hkept & _).
    rewrite Hkept in Hk. by apply list_elem_of_filter in Hk as [? _]. }
  assert (lean (foldl upsert_mount (filter (λ m, dst m ∉ effective_removals plan) (mounts w)) us))
    as Hlean.
  { eapply lean_paths; [exact Hms|]. intros p0 m0. by eapply check_collapse_ok. }
  assert (NoDup (dst <$> filter (λ m, dst m ∉ effective_removals plan) (mounts w))) as Hnde
    by (eapply sublist_NoDup; [exact Hnd|]; apply fmap_sublist, sublist_filter).
  rewrite (Hlean k (child r)) in Hcov; [done|..]; apply upserts_mem; try done; [|by left].
  rewrite (kept_by_dst _ _ _ Hcp) in Hk by (by apply upserts_NoDup).
  apply list_elem_of_filter in Hk as [Hkx Hk]. apply upserts_mem in Hk as [Hk|[Hk Hku]]; [by left| |done..].
  right. split; [|done]. apply list_elem_of_filter in Hk as [Hkr Hk]. apply list_elem_of_filter.
  split; [|done]. rewrite Heff, effective_elem. tauto.
Qed.

Lemma collapsed_upsert_refused_witness :
  ∃ plan e,
    prepare_workspace_edit demo_host sub_config at_desk
      (demo_edit ["/src/lib:/work/lib"; "/src/lib/x:/work/lib/x"] []) = inr (sub_workspace, plan) ∧
    edit_workspace demo_host demo_fs sub_config "demo"
      (edit_of demo_host (demo_edit ["/src/lib:/work/lib"; "/src/lib/x:/work/lib/x"] []) plan)
    = inl e.
Proof.
  destruct (prepare_workspace_edit demo_host sub_config at_desk
              (demo_edit ["/src/lib:/work/lib"; "/src/lib/x:/work/lib/x"] [])) as [e|[w plan]] eqn:Hp;
    [by vm_compute in Hp|].
  assert (w = sub_workspace ∧ plan = mk_edit_plan ["/work/lib/x"]
            [mk_removal (rw_mount "/src/lib/x" "/work/lib/x") (rw_mount "/src/lib" "/work/lib")]
            []) as [-> ->] by (vm_compute in Hp; injection Hp as <- <-; split; reflexivity).
  eexists.
  destruct (collapsed_upsert_refused demo_host demo_fs sub_config at_desk
    (demo_edit ["/src/lib:/work/lib"; "/src/lib/x:/work/lib/x"] []) sub_workspace _
    (mk_removal (rw_mount "/src/lib/x" "/work/lib/x") (rw_mount "/src/lib" "/work/lib")) Hp)
    as [e He].
  - reflexivity.
  - apply (bool_decide_unpack _). vm_compute. exact I.
  - by left.
  - by right; left.
  - exists e. split; [reflexivity|exact He].
Defined.
