(* ===== verification/LaunchProofs.v ===== *)
(** * What a launch mounts

    The global mounts that a role selects never share a destination once the
    table of global mounts is validated, and the mounts of a resolved workspace
    exist on the host, have distinct destinations and come from the workspace,
    the command line or the global table.  Role selectors survive printing. *)

From stdpp Require Import base list gmap strings.
From Stdlib Require Import ZArith Lia Bool Ascii.
From S2P Require Import Prelude OrderedMap Paths EnvModel EnvProofs Config MountProofs ConfigProofs.

(** ** The rows that a selector picks *)

Lemma elem_of_btree_values {A} (m : gmap string A) a :
  a ∈ btree_values m ↔ ∃ k, m !! k = Some a.
Proof.
  unfold btree_values. rewrite list_elem_of_fmap. split.
  - intros ([k b] & -> & Hin%elem_of_btree_iter). eauto.
  - intros [k Hk]. exists (k, a). by rewrite elem_of_btree_iter.
Qed.

(** A row of a scope of the selector that the global table lists. *)
Definition selected_row (c : AppConfig) (s : RoleSelector) (r : GlobalMountRow) : Prop :=
  scope r ∈ selector_scopes s ∧ r ∈ list_mount_rows c.

Lemma scope_mounts_listed c sc p :
  p ∈ scope_mounts c sc → mk_row sc p.1 (of_global p.2) ∈ list_mount_rows c.
Proof.
  intros Hp. unfold list_mount_rows. apply list_elem_of_bind. destruct sc as [key|]; cbn in Hp.
  - destruct (docker_mounts c !! key) as [[g|m]|] eqn:Hk; [by apply elem_of_nil in Hp| |by apply elem_of_nil in Hp].
    exists (key, MountEntry.Scoped m). split; [|by apply elem_of_btree_iter].
    apply list_elem_of_fmap. by exists p.
  - apply list_elem_of_omap in Hp as ([k e] & Hin & He). cbn in He.
    destruct e as [g|m]; [|done]. injection He as <-. exists (k, MountEntry.Mount g).
    split; [by apply list_elem_of_singleton|done].
Qed.

Lemma rows_by_name_selected c s k r :
  rows_by_name c s !! k = Some r → row_name r = k ∧ selected_row c s r.
Proof.
  unfold rows_by_name.
  assert (map_Forall (λ k r, row_name r = k ∧ selected_row c s r) (∅ : gmap string GlobalMountRow))
    as H0 by apply map_Forall_empty.
  revert H0. generalize (∅ : gmap string GlobalMountRow).
  assert (∀ sc, sc ∈ selector_scopes s → sc ∈ selector_scopes s) as Hsub by done.
  revert Hsub. generalize (selector_scopes s) at 1 3. intros scs.
  induction scs as [|sc scs IH]; intros Hsub m0 H0; cbn [foldl]; [intros Hk; by apply H0|].
  apply IH; [set_solver|]. clear IH.
  pose proof (λ p, scope_mounts_listed c sc p) as Hl. revert m0 H0 Hl.
  induction (scope_mounts c sc) as [|p l IHl]; intros m0 H0 Hl; cbn [foldl]; [done|].
  apply IHl; [|intros q Hq; apply Hl; by right]. unfold insert_row.
  apply map_Forall_insert_2; [|done]. cbn. split; [done|]. split; [apply Hsub; left|].
  apply Hl. left.
Qed.

Lemma scopes_overlap_refl a : scopes_overlap a a = true.
Proof. destruct a; [|done]. cbn. unfold str_eqb. by rewrite bool_decide_true. Qed.
Lemma scopes_overlap_comm a b : scopes_overlap a b = scopes_overlap b a.
Proof.
  destruct a as [a|], b as [b|]; [|done..]. cbn. unfold str_eqb.
  rewrite (bool_decide_ext (a = b) (b = a)) by naive_solver.
  by rewrite <-!orb_assoc, (orb_comm (wildcard_scope_matches a b)).
Qed.
Lemma namespace_covers_key ns name : wildcard_scope_matches (ns +:+ "/*") (ns +:+ "/" +:+ name) = true.
Proof.
  unfold wildcard_scope_matches.
  rewrite (proj2 (strip_suffix_Some "/*" (ns +:+ "/*") ns) eq_refl).
  rewrite (proj2 (strip_prefix_Some ns (ns +:+ "/" +:+ name) ("/" +:+ name)) eq_refl).
  apply starts_with_iff. by exists name.
Qed.

(** Any two scopes of one selector overlap. *)
Lemma selector_scopes_overlap s a b :
  a ∈ selector_scopes s → b ∈ selector_scopes s → scopes_overlap a b = true.
Proof.
  assert (scopes_overlap ((λ ns, ns +:+ "/*") <$> namespace s) (Some (selector_key s)) = true) as Hw.
  { unfold selector_key. destruct (namespace s) as [ns|]; [|done]. cbn.
    by rewrite namespace_covers_key, orb_true_r. }
  unfold selector_scopes. rewrite !elem_of_cons.
  intros [->|[->|[->|Ha%elem_of_nil]]] [->|[->|[->|Hb%elem_of_nil]]];
    try done; first [apply scopes_overlap_refl|done|by rewrite scopes_overlap_comm|by destruct (_ <$> _)].
Qed.

Lemma rows_clash_comm a b : rows_clash a b = rows_clash b a.
Proof.
  unfold rows_clash, str_eqb. rewrite (scopes_overlap_comm (scope a)).
  rewrite (bool_decide_ext (row_name a = row_name b) (row_name b = row_name a)) by naive_solver.
  by rewrite (bool_decide_ext (dst (row_mount a) = _) (dst (row_mount b) = dst (row_mount a)))
    by naive_solver.
Qed.

Lemma check_clashes_ok rows u :
  check_clashes rows = inr u →
  ∀ a b, a ∈ rows → b ∈ rows → row_name a ≠ row_name b → rows_clash a b = false.
Proof.
  revert u. induction rows as [|x rows IH]; intros u Hc a b Ha Hb Hne; [by apply elem_of_nil in Ha|].
  cbn [check_clashes] in Hc. invert_inr. bool_to_prop.
  assert (∀ y, y ∈ rows → rows_clash x y = false) as Hx.
  { intros y Hy. apply not_true_iff_false. intros Hcl.
    assert (existsb (rows_clash x) rows = true); [|congruence].
    apply existsb_exists. exists y. by rewrite <-list_elem_of_In. }
  apply elem_of_cons in Ha as [->|Ha]; apply elem_of_cons in Hb as [->|Hb]; [done|..].
  - by apply Hx.
  - rewrite rows_clash_comm. by apply Hx.
  - by apply (IH _ Hc).
Qed.

(** Once the global mounts pass validation, the mounts that any role selector
    picks have distinct destinations: whatever of the unscoped, namespace and role
    scopes contributes, and whichever row a more specific scope overrides, a launch
    never finds two global mounts at one container path. *)
Theorem valid_globals_never_clash `{FileSystem Fs} (h : Host) (fs : Fs) c :
  validate_global_mount_rows h fs (list_mount_rows c) = inr () →
  ∀ s, NoDup ((dst ∘ row_mount) <$> resolve_mount_rows c s).
Proof.
  intros Hv s. unfold validate_global_mount_rows in Hv. invert_inr.
  unfold resolve_mount_rows, btree_values. rewrite <-list_fmap_compose.
  apply NoDup_fmap_2_strong; [|apply NoDup_fmap_1 with fst, NoDup_btree_keys].
  intros [k1 r1] [k2 r2] H1%elem_of_btree_iter H2%elem_of_btree_iter Heq. cbn in Heq.
  destruct (rows_by_name_selected _ _ _ _ H1) as (Hn1 & Hs1 & Hl1).
  destruct (rows_by_name_selected _ _ _ _ H2) as (Hn2 & Hs2 & Hl2).
  destruct (decide (k1 = k2)) as [->|Hne]; [by simplify_eq|].
  assert (row_name r1 ≠ row_name r2) as Hnn by congruence.
  pose proof (check_clashes_ok _ _ Hv _ _ Hl1 Hl2 Hnn) as Hc. exfalso. revert Hc.
  unfold rows_clash, str_eqb. rewrite bool_decide_false by done.
  by rewrite bool_decide_true, (selector_scopes_overlap s).
Qed.

Definition cache_mount (d : string) : MountConfig := rw_mount "/src/app" d.
Definition global_config : AppConfig :=
  add_mount (add_mount (add_mount no_config "cache" (cache_mount "/cache") None)
               "tools" (cache_mount "/tools") (Some "team/*"))
    "cache" (cache_mount "/role-cache") (Some "team/dev").
Definition team_dev : RoleSelector := mk_selector (Some "team") "dev".

Lemma valid_globals_never_clash_witness :
  ((dst ∘ row_mount) <$> resolve_mount_rows global_config team_dev) = ["/role-cache"; "/tools"] ∧
  NoDup ((dst ∘ row_mount) <$> resolve_mount_rows global_config team_dev).
Proof.
  split; [vm_compute; reflexivity|].
  apply (valid_globals_never_clash demo_host demo_fs). vm_compute. reflexivity.
Defined.

(** ** Resolution of a launch *)

Lemma append_mounts_ok fmt ms add all :
  append_mounts fmt ms add = inr all →
  all = ms ++ add ∧ (NoDup (dst <$> ms) → NoDup (dst <$> all)).
Proof.
  revert ms. induction add as [|m add IH]; intros ms Ha; cbn [append_mounts] in Ha.
  { injection Ha as <-. by rewrite app_nil_r. }
  invert_inr. bool_to_prop. destruct (IH _ Ha) as [-> Hnd]. split; [by rewrite <-app_assoc|].
  intros Hms. apply Hnd. rewrite fmap_app. apply NoDup_app. split; [done|].
  split; [|apply NoDup_singleton]. intros d (y & -> & Hy)%list_elem_of_fmap Hd.
  apply list_elem_of_singleton in Hd.
  assert (existsb (λ x, str_eqb (dst x) (dst m)) ms = true); [|congruence].
  apply existsb_exists. exists y. split; [by apply list_elem_of_In|].
  unfold str_eqb. by apply bool_decide_eq_true.
Qed.

Section launch.
Context `{FileSystemLaws Fs} (h : Host).

Lemma ensure_mount_sources_ok fs l roots healed report fs' :
  ensure_mount_sources fs l roots = (healed, report, fs') →
  sublist healed l.*2 ∧ ∀ p, fs_exists fs p = true → fs_exists fs' p = true.
Proof.
  revert fs healed report fs'. induction l as [|[n m] l IH]; intros fs healed report fs' He;
    cbn [ensure_mount_sources] in He; [by simplify_eq|]. cbv zeta in He. cbn [fmap list_fmap snd].
  destruct (fs_exists fs (src m) || _); [|destruct (bool_decide _)].
  - destruct (ensure_mount_sources fs l roots) as [[k r] f] eqn:Hl. simplify_eq.
    destruct (IH _ _ _ _ Hl). split; [by constructor|done].
  - destruct (ensure_mount_sources fs l roots) as [[k r] f] eqn:Hl. simplify_eq.
    destruct (IH _ _ _ _ Hl). split; [by constructor|done].
  - destruct (fs_create_dir_all fs (src m)) as [ok fs1] eqn:Hcd.
    destruct (ensure_mount_sources fs1 l roots) as [[k r] f] eqn:Hl. simplify_eq.
    destruct (IH _ _ _ _ Hl) as [Hs Hm]. split; [by constructor|].
    intros p Hp. apply Hm. by eapply create_keeps.
Qed.

Lemma validate_mount_paths_ok fs ms u :
  validate_mount_paths fs ms = inr u → ∀ m, m ∈ ms → fs_exists fs (src m) = true.
Proof.
  revert u. induction ms as [|x ms IH]; intros u Hv m Hm; [by apply elem_of_nil in Hm|].
  cbn [validate_mount_paths] in Hv. invert_inr.
  apply elem_of_cons in Hm as [->|Hm]; [done|by eapply IH].
Qed.

Lemma expand_and_validate_ok fs l g fs' :
  expand_and_validate_named_mounts h fs l = (inr g, fs') →
  sublist g.1 (expand_mount h ∘ snd <$> l) ∧
  (∀ m, m ∈ g.1 → fs_exists fs' (src m) = true) ∧
  ∀ p, fs_exists fs p = true → fs_exists fs' p = true.
Proof.
  unfold expand_and_validate_named_mounts. destruct (validate_mount_specs _); [done|].
  destruct (ensure_mount_sources fs _ _) as [[healed report] f] eqn:He. intros [= Hv <-].
  invert_inr. subst. apply ensure_mount_sources_ok in He as [Hs Hm].
  rewrite snd_zip in Hs by (by rewrite !length_fmap). cbn.
  split; [done|]. split; [|done]. by eapply validate_mount_paths_ok.
Qed.

(** What validation says of the mounts alone. *)
Lemma validated_mounts fs name w u :
  validate_workspace_config h fs name w = inr u →
  NoDup (dst <$> mounts w) ∧
  ∀ r, r ∈ PROTECTED_ROOTS → paths_overlap (normalize_path (workdir w)) (normalize_path r) = false.
Proof.
  intros Hv. unfold validate_workspace_config in Hv. invert_inr.
  unfold validate_container_workdir_boundary in *. invert_inr. subst.
  match goal with H : validate_mount_specs _ = _ |- _ =>
    apply check_mount_specs_ok in H as (_ & Hnd & _) end. split; [done|].
  match goal with H : check_protected _ _ = _ |- _ => apply (check_protected_ok _ _ _ H) end.
Qed.

Lemma parse_workspace_name_id name wn : parse_workspace_name name = inr wn → wn = name.
Proof. unfold parse_workspace_name. repeat split_match; naive_solver. Qed.

Lemma saved_workspace_admits c s name w :
  saved_workspace c s name = inr w →
  workspaces c !! name = Some w ∧ (allowed_roles w = [] ∨ selector_key s ∈ allowed_roles w).
Proof.
  unfold saved_workspace. intros Hs. invert_inr. subst.
  destruct (parse_workspace_name name) as [e|wn] eqn:Hn; [done|].
  apply parse_workspace_name_id in Hn as Heq. simplify_eq/=.
  unfold require_workspace, opt_err in *.
  match goal with Hw : match ?o with _ => _ end = inr _ |- _ => destruct o; simplify_eq/= end.
  split; [done|]. unfold str_in in *. bool_to_prop.
  match goal with Hor : _ ∨ _ |- _ => destruct Hor; bool_to_prop; auto end.
Qed.

(** C37: When the workspace of a launch resolves, every mount it hands to the
    container exists on the host, no two mounts share a destination (as text: [/w] and
    [/w/] count as two), each mount
    comes from the loaded workspace, from the command line or from a global row
    that the role selects (its tilde expanded), the work directory stays out of
    the protected container paths, and a saved workspace is one whose allowed roles
    admit the role.  Creating missing cache directories on the way cannot undo any
    of this. *)
Theorem launch_mounts_sound fs c s cwd input ad_hoc r fs' :
  resolve_load_workspace h fs c s cwd input ad_hoc = (inr r, fs') →
  ∃ w lbl, load_workspace h fs c s cwd input = inr (w, lbl) ∧
    NoDup (dst <$> rw_mounts r) ∧
    (∀ m, m ∈ rw_mounts r →
       fs_exists fs' (src m) = true ∧
       (m ∈ mounts w ∨ m ∈ ad_hoc ∨
        ∃ row, row ∈ resolve_mount_rows c s ∧ m = expand_mount h (row_mount row))) ∧
    rw_workdir r = workdir w ∧
    (∀ p, p ∈ PROTECTED_ROOTS →
       paths_overlap (normalize_path (rw_workdir r)) (normalize_path p) = false) ∧
    (∀ name, input = Saved name →
       workspaces c !! name = Some w ∧ (allowed_roles w = [] ∨ selector_key s ∈ allowed_roles w)).
Proof.
  unfold resolve_load_workspace. intros Hr.
  destruct (load_workspace h fs c s cwd input) as [e|[w lbl]] eqn:Hload; [done|]. cbn in Hr.
  destruct (append_mounts _ (mounts w) ad_hoc) as [e|ms] eqn:Hadd; [done|]. cbn in Hr.
  destruct (validate_workspace_config h fs "runtime" (with_mounts ms w)) as [e|[]] eqn:Hv; [done|].
  cbn in Hr. apply append_mounts_ok in Hadd as [-> _].
  apply validated_mounts in Hv as [Hnd Hprot]. cbn in Hnd, Hprot.
  destruct (ensure_mount_sources fs _ _) as [[healed report] fs1] eqn:He.
  apply ensure_mount_sources_ok in He as [Hsub Hmono]. rewrite <-list_fmap_compose in Hsub.
  cbn in Hsub. unfold compose in Hsub. cbn in Hsub. rewrite list_fmap_id in Hsub.
  destruct (validate_mount_paths fs1 healed) as [e|[]] eqn:Hp; [done|]. cbn in Hr.
  destruct (check_workspace_dsts _ _ ≫= _) as [e|[]]; [done|].
  destruct (expand_and_validate_named_mounts h fs1 _) as [g fs2] eqn:Hg. simplify_eq.
  destruct g as [e|g]; [done|]. cbn in H1. invert_inr. subst. cbn.
  apply expand_and_validate_ok in Hg as (Hgs & Hge & Hmono2).
  match goal with H : append_mounts _ healed g.1 = _ |- _ =>
    apply append_mounts_ok in H as [-> Hnd2] end.
  exists w, lbl. split; [done|]. split; [|split; [|split; [done|split; [done|]]]].
  - apply Hnd2. eapply sublist_NoDup; [exact Hnd|]. by apply fmap_sublist.
  - intros m [Hm|Hm]%elem_of_app.
    + split; [by eapply Hmono2, validate_mount_paths_ok|].
      apply (elem_of_sublist _ _ _ Hm) in Hsub. set_solver.
    + split; [by apply Hge|]. right; right. apply (elem_of_sublist _ _ _ Hm) in Hgs.
      apply list_elem_of_fmap in Hgs as (p & -> & (row & -> & Hrow)%list_elem_of_fmap). by exists row.
  - intros name ->. cbn [load_workspace] in Hload. invert_inr. simplify_eq.
    by apply saved_workspace_admits.
Qed.
End launch.

Definition launch_config : AppConfig := with_workspaces <["demo" := demo_workspace]> global_config.

Lemma launch_mounts_sound_witness :
  ∃ r fs', resolve_load_workspace demo_host demo_fs launch_config team_dev "/" (Saved "demo") []
           = (inr r, fs') ∧
    dst <$> rw_mounts r = ["/work/app"; "/role-cache"; "/tools"] ∧ NoDup (dst <$> rw_mounts r).
Proof.
  destruct (resolve_load_workspace demo_host demo_fs launch_config team_dev "/" (Saved "demo") [])
    as [[e|r] fs'] eqn:Hr; [vm_compute in Hr; discriminate Hr|].
  exists r, fs'. split; [reflexivity|].
  destruct (launch_mounts_sound demo_host _ _ _ _ _ _ _ _ Hr) as (w & lbl & _ & Hnd & _).
  split; [|exact Hnd]. vm_compute in Hr. injection Hr as <- <-. reflexivity.
Defined.

(** ** Role selectors *)

(** The characters of a role segment: lower-case letters, digits and dashes. *)
Definition segment_char (c : Ascii.ascii) : bool :=
  lower_or_digit (Ascii.byte_of_ascii c) || (Z_of_byte (Ascii.byte_of_ascii c) =? 45).

Definition is_underscore (c : ascii) : bool := Ascii.eqb c "_"%char.

Lemma segment_char_plain c :
  segment_char c = true →
  is_slash c = false ∧ is_underscore c = false ∧
  to_ascii_lowercase (String c "") = String c "".
Proof. destruct c as [[] [] [] [] [] [] [] []]; vm_compute; intros H; discriminate H || (repeat split; reflexivity). Qed.

Definition segment (v : string) : Prop := Forall (λ c, segment_char c = true) (String.list_ascii_of_string v).

Lemma valid_segment v : is_valid_role_segment v = true → v ≠ "" ∧ segment v.
Proof.
  unfold is_valid_role_segment, segment. intros Hv. bool_to_prop. split.
  - intros ->. done.
  - apply Forall_forall. intros c Hc. rewrite forallb_forall in *.
    apply (H0 (Ascii.byte_of_ascii c)). unfold as_bytes, String.list_byte_of_string.
    apply in_map. by apply list_elem_of_In.
Qed.

Lemma lower_cons c v :
  to_ascii_lowercase (String c v) = to_ascii_lowercase (String c "") +:+ to_ascii_lowercase v.
Proof. done. Qed.

Lemma segment_facts v :
  segment v →
  forallb (λ c, negb (is_slash c)) (String.list_ascii_of_string v) = true ∧
  forallb (λ c, negb (is_underscore c)) (String.list_ascii_of_string v) = true ∧
  to_ascii_lowercase v = v.
Proof.
  unfold segment. induction v as [|c v IH]; intros Hv; [done|].
  apply Forall_cons in Hv as [Hc Hv]. apply segment_char_plain in Hc as (Hs & Hu & Hl).
  destruct (IH Hv) as (Hf & Hg & Hlv). split; [cbn; by rewrite Hs, Hf|].
  split; [cbn; by rewrite Hu, Hg|]. by rewrite lower_cons, Hl, Hlv.
Qed.

Lemma lower_app a b : to_ascii_lowercase (a +:+ b) = to_ascii_lowercase a +:+ to_ascii_lowercase b.
Proof.
  unfold to_ascii_lowercase. rewrite as_bytes_app, map_app, <-(of_as_bytes (of_bytes _ +:+ _)).
  by rewrite as_bytes_app, !as_of_bytes.
Qed.

(** The selectors that parsing returns. *)
Definition selector_ok (s : RoleSelector) : Prop :=
  match namespace s with
  | Some ns => is_valid_role_segment ns = true ∧ is_valid_role_segment (sel_name s) = true
  | None => is_valid_role_segment (sel_name s) = true ∧
            is_reserved_builtin_role_name (sel_name s) = false
  end.

Lemma parse_role_ok x s : parse_role x = inr s → selector_ok s.
Proof.
  unfold parse_role. destruct (str_eqb x ""); [done|].
  destruct (split_on is_slash (to_ascii_lowercase x)) as [|a [|b [|c l]]]; try done.
  - destruct (_ && _) eqn:Hc; [|done]. intros [= <-]. by bool_to_prop.
  - destruct (_ && _) eqn:Hc; [|done]. intros [= <-]. by bool_to_prop.
Qed.

Lemma parse_role_key s : selector_ok s → parse_role (selector_key s) = inr s.
Proof.
  destruct s as [[ns|] name]; unfold selector_ok, selector_key, parse_role; cbn [namespace sel_name].
  - intros [Hns Hn]. pose proof (valid_segment _ Hns) as [Hne Hs]. 
    pose proof (valid_segment _ Hn) as [_ Hs'].
    destruct (segment_facts _ Hs) as (Hf & _ & Hl), (segment_facts _ Hs') as (Hf' & _ & Hl').
    rewrite !lower_app, Hl, Hl'. replace (to_ascii_lowercase "/") with "/" by done.
    change ("/" +:+ name) with (String "/"%char name).
    rewrite split_on_sep, split_on_none by done. rewrite Hns, Hn.
    by destruct ns.
  - intros [Hn Hr]. pose proof (valid_segment _ Hn) as [Hne Hs].
    destruct (segment_facts _ Hs) as (Hf & _ & Hl). rewrite Hl, split_on_none by done.
    rewrite Hn, Hr. unfold str_eqb. by rewrite bool_decide_false.
Qed.

Lemma forallb_false {A} (f : A → bool) l x : x ∈ l → f x = false → forallb f l = false.
Proof.
  intros Hx Hf. apply not_true_iff_false. rewrite forallb_forall. intros Hall.
  rewrite (Hall x) in Hf; [done|by apply list_elem_of_In].
Qed.

(** A slash keeps a name from being a container name. *)
Lemma slash_no_container a b : is_valid_container_name (a +:+ "/" +:+ b) = false.
Proof.
  unfold is_valid_container_name. destruct (strip_prefix _ _) as [t|] eqn:Hp; [|done].
  apply andb_false_iff. right. apply strip_prefix_Some in Hp.
  assert (Byte.x2f ∈ as_bytes t) as Ht; [|by apply (forallb_false _ _ _ Ht)].
  apply (f_equal as_bytes) in Hp. rewrite !as_bytes_app in Hp.
  assert (Byte.x2f ∈ as_bytes CONTAINER_PREFIX_DASH ++ as_bytes t) as Hin.
  { rewrite <-Hp. apply elem_of_app. right. apply elem_of_app. left. by left. }
  apply elem_of_app in Hin as [Hin|]; [|done].
  exfalso. revert Hin. rewrite list_elem_of_In. vm_compute. naive_solver.
Qed.

(** The slug splits at its underscore into the segments. *)
Lemma split_slug s :
  selector_ok s → split_on is_underscore (runtime_slug s) = option_list (namespace s) ++ [sel_name s].
Proof.
  destruct s as [[ns|] name]; unfold selector_ok, runtime_slug; cbn [namespace sel_name].
  - intros [[_ Hs]%valid_segment [_ Hs']%valid_segment].
    destruct (segment_facts _ Hs) as (_ & Hf & _), (segment_facts _ Hs') as (_ & Hf' & _).
    change ("_" +:+ name) with (String "_"%char name). by rewrite split_on_sep, split_on_none by done.
  - intros [[_ Hs]%valid_segment _]. by rewrite split_on_none by (by apply segment_facts).
Qed.

Lemma slug_inj s s' : selector_ok s → selector_ok s' → runtime_slug s = runtime_slug s' → s = s'.
Proof.
  intros Hs Hs' Heq. pose proof (split_slug s Hs) as H1. pose proof (split_slug s' Hs') as H2.
  rewrite Heq, H2 in H1. destruct s as [[?|] ?], s' as [[?|] ?]; by simplify_eq/=.
Qed.

(** The text of a role selector denotes that selector: what the parser accepts,
    in any case of letters, prints to a key that parses back to the same selector,
    both as a role and on a command line that also takes container names, and no two
    selectors share the slug that names their containers. *)
Theorem selector_roundtrip x s :
  parse_role x = inr s →
  parse_role (selector_key s) = inr s ∧
  parse_selector (selector_key s) = inr (Selector.Role s) ∧
  ∀ y s', parse_role y = inr s' → runtime_slug s = runtime_slug s' → s = s'.
Proof.
  intros Hs%parse_role_ok. pose proof (parse_role_key s Hs) as Hk. split; [done|]. split.
  - unfold parse_selector. rewrite Hk. unfold parse_role in Hk.
    destruct (str_eqb (selector_key s) ""); [done|]. clear Hk.
    replace (is_valid_container_name (selector_key s)) with false; [done|].
    destruct s as [[ns|] name]; cbn in *; [by rewrite slash_no_container|].
    destruct Hs as [_ Hr]. unfold is_reserved_builtin_role_name, is_valid_container_name in *.
    destruct (strip_prefix CONTAINER_PREFIX_DASH name) as [t|] eqn:Hp; [|done].
    apply strip_prefix_Some in Hp as ->. rewrite (proj2 (starts_with_iff _ _)) in Hr; [done|eauto].
  - intros y s' Hs'%parse_role_ok Heq. by apply slug_inj.
Qed.

Lemma selector_roundtrip_witness :
  parse_role "Team/Dev-1" = inr (mk_selector (Some "team") "dev-1") ∧
  parse_selector "team/dev-1" = inr (Selector.Role (mk_selector (Some "team") "dev-1")).
Proof.
  split; [reflexivity|].
  destruct (selector_roundtrip "Team/Dev-1" (mk_selector (Some "team") "dev-1") eq_refl)
    as (_ & H & _). exact H.
Defined.
