(* ===== verification/Isolation.v ===== *)
(** * Isolated mounts: records, holds and the state of a work tree

    The records that tie an isolated copy of a repository to a container
    ([jackin-core/src/isolation_record.rs], [jackin-isolation/src/state.rs]), the
    holds that keep a copy from being removed ([holds.rs]), the names and paths
    of copies ([branch.rs], [materialize.rs]), the assessment of a work tree
    ([jackin-core/src/worktree_dirty.rs]) and the drift between records and an
    edited workspace ([jackin-runtime-drift]).

    A JSON file is the value it parses to, a directory of state that does not
    exist is one without files, and reading a file twice in one transaction gives
    the same text, since [StateDirectory] holds the directory's lock. *)

From stdpp Require Import base list gmap strings pretty.
From Stdlib Require Import ZArith Lia Bool.
From S2P Require Import Prelude OrderedMap Paths Config.

(** ** Records *)

Module CleanupStatus.
Inductive t := Active | PreservedDirty | PreservedUnpushed.
#[global] Instance eq_dec : EqDecision t.
Proof. solve_decision. Defined.
End CleanupStatus.

Record IsolationRecord := mk_record {
  workspace_name : option string;
  mount_dst : string;
  original_src : string;
  rec_isolation : MountIsolation.t;
  worktree_path : string;
  scratch_branch : string;
  base_commit : string;
  rec_selector_key : string;
  container_name : string;
  cleanup_status : CleanupStatus.t
}.
#[global] Instance record_eq_dec : EqDecision IsolationRecord.
Proof. solve_decision. Defined.

Definition with_status (s : CleanupStatus.t) (r : IsolationRecord) : IsolationRecord :=
  mk_record (workspace_name r) (mount_dst r) (original_src r) (rec_isolation r) (worktree_path r)
    (scratch_branch r) (base_commit r) (rec_selector_key r) (container_name r) s.

Record HistoricalIsolationRecord := mk_historical {
  hr_workspace : string;
  hr_mount_dst : string;
  hr_original_src : string;
  hr_isolation : MountIsolation.t;
  hr_worktree_path : string;
  hr_scratch_branch : string;
  hr_base_commit : string;
  hr_selector_key : string;
  hr_container_name : string;
  hr_cleanup_status : CleanupStatus.t
}.

(** [isolation.json]: the two versions with a format, any other version, and a
    file that does not parse. *)
Inductive IsolationFile :=
| Historical (records : list HistoricalIsolationRecord)
| Current (records : list IsolationRecord)
| OtherVersion (version : Z)
| Malformed.

(** [instance.json], as far as identity recovery reads it. *)
Module BackendIdentity.
Inductive t := Docker (role_container : string) | AppleContainer (container_name : string).
End BackendIdentity.
Record HistoricalInstanceManifestV3 := mk_instance {
  im_instance_id : string;
  im_container_base : string;
  im_workspace_name : option string;
  im_workspace_label : string;
  im_role_container : string;
  im_backend : option BackendIdentity.t
}.
Inductive InstanceFile :=
| Manifest3 (m : HistoricalInstanceManifestV3)
| OtherManifest (version : Z)
| MalformedManifest.

Record InstanceIdentityWitness := mk_witness {
  iw_instance_id : string;
  iw_container_base : string;
  iw_workspace_name : option string;
  iw_workspace_label : string;
  iw_resource_name : string
}.

(** The current manifest version is the third, so that the source's branch for a
    current version other than the third is never taken. *)
Definition instance_identity_witness (f : InstanceFile) : res InstanceIdentityWitness :=
  match f with
  | MalformedManifest => bail "parse independent instance-manifest version for isolation identity recovery"
  | OtherManifest _ => bail "unsupported independent instance manifest version for isolation identity recovery"
  | Manifest3 m =>
      resource ← match im_backend m with
                 | Some (BackendIdentity.Docker rc) =>
                     _ ← ensure (str_eqb rc (im_role_container m))
                           "Docker resource identity disagrees within historical instance manifest";
                     Ok rc
                 | Some (BackendIdentity.AppleContainer cn) => Ok cn
                 | None => Ok (im_role_container m)
                 end;
      Ok (mk_witness (im_instance_id m) (im_container_base m) (im_workspace_name m)
            (im_workspace_label m) resource)
  end.

Definition instance_id_from_container_base (container_base : string) : option string :=
  rest ← strip_prefix CONTAINER_PREFIX_DASH container_base;
  fst <$> split_once "-" rest.

(** ** The state of a container *)

(** [.jackin] of a container: [isolation.json] and [instance.json]. *)
Record StateDir := mk_state_dir {
  isolation_json : option IsolationFile;
  instance_json : option InstanceFile
}.

Fixpoint recover_records (dir_name label : string) (workspace : option string)
    (l : list HistoricalIsolationRecord) : res (list IsolationRecord) :=
  match l with
  | [] => Ok []
  | r :: l =>
      _ ← ensure (str_eqb (hr_container_name r) dir_name)
            "isolation record belongs to a different instance";
      _ ← ensure (str_eqb (hr_workspace r) label)
            "isolation label disagrees with independent instance manifest";
      rest ← recover_records dir_name label workspace l;
      Ok (mk_record workspace (hr_mount_dst r) (hr_original_src r) (hr_isolation r)
            (hr_worktree_path r) (hr_scratch_branch r) (hr_base_commit r) (hr_selector_key r)
            (hr_container_name r) (hr_cleanup_status r) :: rest)
  end.

Definition parse_identity (name : option string) : res (option string) :=
  match name with
  | None => Ok None
  | Some n =>
      match parse_workspace_name n with
      | inr n => Ok (Some n)
      | inl _ => bail "invalid workspace name"
      end
  end.

Definition admit_historical_identity (state_dir : string) (sd : StateDir)
    (records : list HistoricalIsolationRecord) : res (list IsolationRecord) :=
  source ← match instance_json sd with
           | Some f => Ok f
           | None => bail "version 1 isolation identity needs its independent instance manifest"
           end;
  m ← instance_identity_witness source;
  _ ← ensure (negb (str_eqb (iw_workspace_label m) "")) "workspace label cannot be empty";
  dir_name ← match file_name state_dir with
             | Some n => Ok n
             | None => bail "instance state directory has no valid container name"
             end;
  _ ← ensure (str_eqb (iw_container_base m) dir_name)
        "instance manifest does not belong to this state directory";
  _ ← ensure (bool_decide (instance_id_from_container_base (iw_container_base m)
                           = Some (iw_instance_id m)))
        "instance manifest ID does not match its container identity";
  _ ← ensure (str_eqb (iw_resource_name m) dir_name)
        "instance resource does not belong to this state directory";
  workspace ← parse_identity (iw_workspace_name m);
  recover_records dir_name (iw_workspace_label m) workspace records.

(** The records, and whether they come from a historical file. *)
Definition admit_records (state_dir : string) (sd : StateDir) (f : IsolationFile)
    : res (list IsolationRecord * bool) :=
  match f with
  | Malformed => bail "parse isolation file"
  | Historical l =>
      match admit_historical_identity state_dir sd l with
      | Ok rs => Ok (rs, true)
      | Err e => bail_at "isolation identity recovery required" (err_fmt e)
      | Panic => Panic
      end
  | OtherVersion _ => bail "unsupported isolation state version"
  | Current rs => Ok (rs, false)
  end.

Definition read_records (state_dir : string) (sd : StateDir) : res (list IsolationRecord) :=
  match isolation_json sd with
  | None => Ok []
  | Some f => a ← admit_records state_dir sd f; Ok a.1
  end.

Definition with_records (rs : list IsolationRecord) (sd : StateDir) : StateDir :=
  mk_state_dir (Some (Current rs)) (instance_json sd).
Definition write_records (rs : list IsolationRecord) (sd : StateDir) : StateDir :=
  with_records rs sd.

Definition migrate_records (state_dir : string) (sd : StateDir)
    : res (list IsolationRecord * StateDir) :=
  match isolation_json sd with
  | None => Ok ([], sd)
  | Some f =>
      '(rs, historical) ← admit_records state_dir sd f;
      Ok (rs, if historical : bool then with_records rs sd else sd)
  end.

(** The mutation says what becomes of the records, if they change. *)
Definition mutate_records (mutate : list IsolationRecord → option (list IsolationRecord))
    (state_dir : string) (sd : StateDir) : res StateDir :=
  rs ← read_records state_dir sd;
  Ok (match mutate rs with Some rs => with_records rs sd | None => sd end).

Definition same_dst (dst : string) (r : IsolationRecord) : bool := str_eqb (mount_dst r) dst.

Fixpoint replace_first (r : IsolationRecord) (l : list IsolationRecord) : list IsolationRecord :=
  match l with
  | [] => [r]
  | x :: l => if same_dst (mount_dst r) x then r :: l else x :: replace_first r l
  end.
Definition upsert_record (r : IsolationRecord) : string → StateDir → res StateDir :=
  mutate_records (λ rs, Some (replace_first r rs)).

Definition remove_record (dst : string) : string → StateDir → res StateDir :=
  mutate_records (λ rs,
    let kept := filter (λ r, mount_dst r ≠ dst) rs in
    if (length kept =? length rs)%nat then None else Some kept).

Definition read_record (state_dir : string) (sd : StateDir) (dst : string)
    : res (option IsolationRecord) :=
  rs ← read_records state_dir sd; Ok (find (same_dst dst) rs).

(** Remove the first record of the mount, if it is the expected one: the result
    is also whether a record was found and whether it matched. *)
Fixpoint remove_matching (expected : IsolationRecord) (l : list IsolationRecord)
    : bool * option (list IsolationRecord) :=
  match l with
  | [] => (false, None)
  | x :: l =>
      if same_dst (mount_dst expected) x then
        (true, if bool_decide (x = expected) then Some l else None)
      else prod_map id (fmap (cons x)) (remove_matching expected l)
  end.

Definition remove_record_if_matches (expected : IsolationRecord) (state_dir : string)
    (sd : StateDir) : res StateDir :=
  rs ← read_records state_dir sd;
  match remove_matching expected rs with
  | (_, Some rs') => Ok (with_records rs' sd)
  | (true, None) => bail "isolation record changed during cleanup; record retained"
  | (false, None) => Ok sd
  end.

(** The containers of the data directory: the entries, whether each is a
    directory, and its state. *)
Fixpoint list_records_for_workspace (data_dir workspace : string)
    (entries : list (string * bool * StateDir)) : res (list IsolationRecord) :=
  match entries with
  | [] => Ok []
  | (name, is_dir, sd) :: entries =>
      if is_dir && starts_with CONTAINER_PREFIX_DASH name then
        rs ← read_records (path_join data_dir name) sd;
        rest ← list_records_for_workspace data_dir workspace entries;
        Ok (filter (λ r, workspace_name r = Some workspace) rs ++ rest)
      else list_records_for_workspace data_dir workspace entries
  end.

Record MountSummary := mk_summary { total : nat; dirty : nat; unpushed : nat }.
Definition from_records (rs : list IsolationRecord) : MountSummary :=
  mk_summary (length rs)
    (length (filter (λ r, cleanup_status r = CleanupStatus.PreservedDirty) rs))
    (length (filter (λ r, cleanup_status r = CleanupStatus.PreservedUnpushed) rs)).
Definition prompt_label (s : MountSummary) : string :=
  if (total s =? 0)%nat then "mounts:none"
  else if (0 <? dirty s)%nat || (0 <? unpushed s)%nat then
    "mounts:" +:+ pretty (total s) +:+ " dirty:" +:+ pretty (dirty s) +:+ " unpushed:"
    +:+ pretty (unpushed s)
  else "mounts:" +:+ pretty (total s).
Definition inspect_label (s : MountSummary) : string :=
  if (total s =? 0)%nat then "none"
  else if (0 <? dirty s)%nat || (0 <? unpushed s)%nat then
    pretty (total s) +:+ " total, " +:+ pretty (dirty s) +:+ " dirty, " +:+ pretty (unpushed s)
    +:+ " unpushed"
  else pretty (total s) +:+ " total".
Definition prompt_label_for_state_dir (state_dir : string) (sd : StateDir) : string :=
  match read_records state_dir sd with
  | Ok rs => prompt_label (from_records rs)
  | _ => "mounts:unknown"
  end.

(** ** Preservation holds ([holds.rs]) *)

Record PreservationHold := mk_hold {
  resource_id : string;
  hold_reason : string;
  operation_id : option string
}.
#[global] Instance hold_eq_dec : EqDecision PreservationHold.
Proof. solve_decision. Defined.

(** [preservation-holds.json], when it exists. *)
Inductive HoldsFile := Holds (version : Z) (l : list PreservationHold) | MalformedHolds.
Definition HOLDS_VERSION : Z := 1.

Definition read_holds_file (f : option HoldsFile) : res (list PreservationHold) :=
  match f with
  | None => Ok []
  | Some MalformedHolds => bail "parse preservation holds"
  | Some (Holds v l) =>
      _ ← ensure (v =? HOLDS_VERSION) "unsupported preservation holds version"; Ok l
  end.
Definition find_hold (id : string) (l : list PreservationHold) : option PreservationHold :=
  find (λ h, str_eqb (resource_id h) id) l.

Definition hold_work (f : option HoldsFile) (id reason : string) (op : option string)
    : res (PreservationHold * option HoldsFile) :=
  _ ← ensure (negb (str_eqb id "")) "preservation hold needs a resource ID";
  _ ← ensure (negb (str_eqb reason "")) "preservation hold needs a reason";
  l ← read_holds_file f;
  match find_hold id l with
  | Some h => Ok (h, f)
  | None =>
      let h := mk_hold id reason op in
      Ok (h, Some (Holds HOLDS_VERSION (l ++ [h])))
  end.

Definition check_removal (f : option HoldsFile) (id : string) : res () :=
  l ← read_holds_file f;
  match find_hold id l with
  | Some h => bail_at "removal is blocked by a preservation hold" (hold_reason h)
  | None => Ok ()
  end.

Definition release_hold (f : option HoldsFile) (id : string) : res (bool * option HoldsFile) :=
  l ← read_holds_file f;
  let kept := filter (λ h, resource_id h ≠ id) l in
  if (length kept =? length l)%nat then Ok (false, f)
  else Ok (true, Some (Holds HOLDS_VERSION kept)).

(** ** Names and paths of copies *)

(** [selector.rsplit_once('/')] *)
Definition rsplit_once (pat s : string) : option (string * string) :=
  match split_once (str_rev pat) (str_rev s) with
  | Some (after, before) => Some (str_rev before, str_rev after)
  | None => None
  end.
Definition branch_name (selector : string) (suffix : option string) : string :=
  match suffix with
  | None => "jackin/scratch/" +:+ selector
  | Some s =>
      match rsplit_once "/" selector with
      | Some (ns, last) => "jackin/scratch/" +:+ ns +:+ "/" +:+ last +:+ "-" +:+ s
      | None => "jackin/scratch/" +:+ selector +:+ "-" +:+ s
      end
  end.

(** [trim_matches('/')] *)
Definition trim_slashes (s : string) : string := strip_slashes (trim_end_slashes s).
Definition copy_path_for (kind state_dir dst container : string) : string :=
  foldl path_join state_dir ["git"; kind; "repo"; trim_slashes dst; container].
Definition worktree_path_for : string → string → string → string := copy_path_for "worktree".
Definition clone_path_for : string → string → string → string := copy_path_for "clone".

(** ** Drift ([drift.rs]) *)

Record DriftDetection := mk_drift {
  running_containers : list string;
  stopped_records : list IsolationRecord
}.

Definition drifted (edited_mounts : list MountConfig) (r : IsolationRecord) : bool :=
  match find (λ m, str_eqb (dst m) (mount_dst r)) edited_mounts with
  | None => true
  | Some m => negb (str_eqb (src m) (original_src r))
              || negb (bool_decide (isolation m = rec_isolation r))
  end.
Definition drift_of (running : list string) (edited_mounts : list MountConfig)
    (rs : list IsolationRecord) : DriftDetection :=
  let affected := filter (λ r, drifted edited_mounts r = true) rs in
  mk_drift (container_name <$> filter (λ r, container_name r ∈ running) affected)
    (filter (λ r, container_name r ∉ running) affected).

(** [running] is what Docker answers. *)
Definition detect_workspace_edit_drift (data_dir workspace : string)
    (entries : list (string * bool * StateDir)) (edited_mounts : list MountConfig)
    (running : res (list string)) : res DriftDetection :=
  rs ← list_records_for_workspace data_dir workspace entries;
  match rs with
  | [] => Ok (mk_drift [] [])
  | _ => names ← running; Ok (drift_of names edited_mounts rs)
  end.

(** ** The state of a work tree ([worktree_dirty.rs]) *)

Module WorktreeState.
Inductive t := Clean | Dirty | Unpushed.
#[global] Instance eq_dec : EqDecision t.
Proof. solve_decision. Defined.
Definition is_dirty_or_unpushed (s : t) : bool :=
  match s with Dirty | Unpushed => true | Clean => false end.
End WorktreeState.

(** [git] on one work tree: what each command prints, or nothing if it fails. *)
Record Git := mk_git {
  git_status : option string;
  git_branches : option string;
  git_remotes_containing : string → option string;
  git_rev_list : string → string → option string;
  git_symbolic_head : option string;
  git_head : option string
}.

(** The line feed and the carriage return. *)
Definition lf : string := of_bytes [byte_of_Z 10].
Definition cr : string := of_bytes [byte_of_Z 13].

Definition is_remote_tracking_ref_row (text : string) : bool :=
  let row := default text (strip_suffix lf text) in
  let row := default row (strip_suffix cr row) in
  match strip_prefix "refs/remotes/" row with
  | None => false
  | Some name =>
      negb (str_eqb name "") && (str_len name <=? 1024)
      && negb (bool_decide (is_Some (find_ws_or (λ _, false) (as_bytes name))))
  end.

Definition gone_upstream_has_remote_witness (g : Git) (tip : string) : bool :=
  match git_remotes_containing g tip with
  | Some refs => is_remote_tracking_ref_row refs
  | None => false
  end.

(** [trim_end_matches(['\r', '\n'])] *)
Fixpoint skip_eols (bs : bytes) : bytes :=
  match bs with
  | b :: r => if byte_is 13 b || byte_is 10 b then skip_eols r else bs
  | [] => []
  end.
Definition trim_eols (s : string) : string := of_bytes (rev (skip_eols (rev (as_bytes s)))).

Definition is_tab (c : Ascii.ascii) : bool := byte_is 9 (Ascii.byte_of_ascii c).

(** One row of the branch list: [true] to go on with the next. *)
Definition row_is_pushed (g : Git) (base_commit line : string) : bool :=
  let line := trim_eols line in
  if str_eqb line "" then true else
  let parts := split_on is_tab line in
  let name := default "" (parts !! 0%nat) in
  let tip := trim (default "" (parts !! 1%nat)) in
  let upstream := trim (default "" (parts !! 2%nat)) in
  let track := trim (default "" (parts !! 3%nat)) in
  if str_eqb name "" || str_eqb tip "" then false
  else if str_eqb tip base_commit then true
  else if str_eqb upstream "" then false
  else if str_in track ["[gone]"; "gone"] then gone_upstream_has_remote_witness g tip
  else match git_rev_list g upstream name with
       | Some ahead => is_blank ahead
       | None => false
       end.

Definition assess_worktree (g : Git) (base_commit : string) : WorktreeState.t :=
  match git_status g with
  | None => WorktreeState.Unpushed
  | Some porcelain =>
      if negb (is_blank porcelain) then WorktreeState.Dirty else
      match git_branches g with
      | None => WorktreeState.Unpushed
      | Some raw =>
          if is_blank raw then WorktreeState.Unpushed
          else if negb (forallb (row_is_pushed g base_commit) (lines raw)) then
            WorktreeState.Unpushed
          else
            match git_symbolic_head g with
            | Some _ => WorktreeState.Clean
            | None =>
                match git_head g with
                | Some head =>
                    if str_eqb (trim head) (trim base_commit) then WorktreeState.Clean
                    else WorktreeState.Unpushed
                | None => WorktreeState.Unpushed
                end
            end
      end
  end.
