(* ===== verification/IsolationProofs.v ===== *)
(** * What the records, the holds and the assessment guarantee

    The state file of a container: migration and mutation against a plain map
    from mounts to records, and the identity a historical file must prove.
    Preservation holds block removal until they are released.  An assessment of
    [Clean] means that no commit would be lost, given what [git] documents. *)

From stdpp Require Import base list gmap strings.
From Stdlib Require Import ZArith Lia Bool.
From S2P Require Import Prelude OrderedMap Paths Config Isolation.

(** ** Records *)

Lemma with_records_read rs n sd : read_records n (with_records rs sd) = Ok rs.
Proof. done. Qed.

Lemma read_records_admit n sd f :
  isolation_json sd = Some f →
  read_records n sd = (a ← admit_records n sd f; Ok a.1).
Proof. unfold read_records. by intros ->. Qed.

Lemma admitted_current n sd f rs b :
  admit_records n sd f = Ok (rs, b) → if b then ∃ l, f = Historical l else f = Current rs.
Proof.
  destruct f; cbn; intros H; invert_ok; try (injection H as <- <-); try done.
  split_match_in H; try discriminate H. injection H as <- <-. by eexists.
Qed.

(** migrating a container's state reads the same records as before, leaves a
    file that reads back as those records, and has nothing more to do the second
    time; the instance manifest is not touched. *)
Theorem migrate_records_stable n sd rs sd' :
  migrate_records n sd = Ok (rs, sd') →
  read_records n sd = Ok rs ∧ read_records n sd' = Ok rs ∧
  migrate_records n sd' = Ok (rs, sd') ∧ instance_json sd' = instance_json sd.
Proof.
  unfold migrate_records. destruct (isolation_json sd) as [f|] eqn:Ef.
  2:{ intros [= <- <-]. unfold read_records. by rewrite Ef. }
  intros H. apply bind_ok in H as ([rs0 b] & Ha & H). injection H as <- <-.
  rewrite (read_records_admit _ _ _ Ef), Ha. split; [done|].
  destruct b; [done|]. rewrite (read_records_admit _ _ _ Ef), Ef, Ha. done.
Qed.

Lemma recover_records_facts dn label ws l rs :
  recover_records dn label ws l = Ok rs →
  Forall (λ r, container_name r = dn ∧ workspace_name r = ws) rs ∧ length rs = length l ∧
  Forall (λ h, hr_container_name h = dn ∧ hr_workspace h = label) l.
Proof.
  revert rs. induction l as [|h l IH]; intros rs H; cbn in H; invert_ok; subst; [done|].
  unfold str_eqb in *. bool_to_prop. destruct (IH _ ltac:(eassumption)) as (? & ? & ?).
  cbn. split_and!; [|lia|]; constructor; done.
Qed.

Lemma parse_identity_id w w' : parse_identity w = Ok w' → w' = w.
Proof.
  destruct w as [w|]; cbn; [|by intros [= <-]]. unfold parse_workspace_name.
  repeat case_match; intros; simplify_eq; done.
Qed.

(** a historical state file is read only when an independent instance
    manifest in the same directory vouches for it: the manifest, its resource and
    every record name the directory, the instance id is the one in the
    container's name, and the recovered records carry the manifest's workspace. *)
Theorem historical_records_vouched n sd l rs :
  isolation_json sd = Some (Historical l) → read_records n sd = Ok rs →
  ∃ m dir, instance_json sd = Some (Manifest3 m) ∧ file_name n = Some dir ∧
    im_container_base m = dir ∧
    instance_id_from_container_base dir = Some (im_instance_id m) ∧
    Forall (λ h, hr_container_name h = dir ∧ hr_workspace h = im_workspace_label m) l ∧
    Forall (λ r, container_name r = dir ∧ workspace_name r = im_workspace_name m) rs.
Proof.
  intros Ef H. rewrite (read_records_admit _ _ _ Ef) in H. apply bind_ok in H as ([rs0 b] & H & Hr).
  injection Hr as <-. cbn in H. split_match_in H; try discriminate H. injection H as <- <-.
  unfold admit_historical_identity in *.
  destruct (instance_json sd) as [[m| |]|]; cbn in *; invert_ok; simplify_eq.
  destruct (file_name n) as [dir|]; invert_ok; simplify_eq.
  unfold str_eqb in *. cbn in *. bool_to_prop.
  match goal with H : recover_records _ _ _ _ = _ |- _ => apply recover_records_facts in H end.
  destruct_and!. eexists m, _. split_and!; try done; [congruence|].
  by match goal with H : parse_identity _ = _ |- _ => apply parse_identity_id in H as <- end.
Qed.

(** The record of a mount: the first with its destination. *)
Definition record_of (rs : list IsolationRecord) (dst : string) : option IsolationRecord :=
  find (same_dst dst) rs.

Lemma same_dst_iff dst r : same_dst dst r = true ↔ mount_dst r = dst.
Proof. unfold same_dst, str_eqb. by rewrite bool_decide_eq_true. Qed.
Lemma same_dst_false dst r : same_dst dst r = false ↔ mount_dst r ≠ dst.
Proof. unfold same_dst, str_eqb. by rewrite bool_decide_eq_false. Qed.

Lemma replace_first_lookup r rs dst :
  record_of (replace_first r rs) dst
  = if bool_decide (dst = mount_dst r) then Some r else record_of rs dst.
Proof.
  unfold record_of. induction rs as [|x rs IH]; cbn.
  { unfold same_dst, str_eqb. repeat case_bool_decide; congruence. }
  destruct (same_dst (mount_dst r) x) eqn:E; cbn.
  - apply same_dst_iff in E. unfold same_dst, str_eqb. repeat case_bool_decide; congruence.
  - rewrite IH. apply same_dst_false in E. unfold same_dst, str_eqb.
    repeat case_bool_decide; congruence.
Qed.

Lemma remove_matching_lookup r rs b rs' dst :
  remove_matching r rs = (b, Some rs') →
  record_of rs (mount_dst r) = Some r ∧
  (dst ≠ mount_dst r → record_of rs' dst = record_of rs dst).
Proof.
  revert b rs'. induction rs as [|x rs IH]; intros b rs'; cbn; [done|]. unfold record_of. cbn.
  destruct (same_dst (mount_dst r) x) eqn:E.
  - case_bool_decide; [|done]. intros [= <- <-]. subst. split; [done|]. intros Hne.
    destruct (same_dst dst r) eqn:E2; [|done]. by apply same_dst_iff in E2.
  - destruct (remove_matching r rs) as [b0 [rs0|]] eqn:Er; [|done]. cbn. intros [= <- <-].
    destruct (IH _ _ eq_refl) as [H1 H2]. split; [done|]. intros Hne. cbn.
    specialize (H2 Hne). unfold record_of in H2. by rewrite H2.
Qed.

Lemma remove_matching_none r rs b :
  remove_matching r rs = (b, None) →
  if b then ∃ r', record_of rs (mount_dst r) = Some r' ∧ r' ≠ r
  else record_of rs (mount_dst r) = None.
Proof.
  revert b. unfold record_of. induction rs as [|x rs IH]; intros b; cbn; [by intros [= <-]|].
  destruct (same_dst (mount_dst r) x) eqn:E.
  - case_bool_decide; [done|]. intros [= <-]. eauto.
  - destruct (remove_matching r rs) as [b0 [rs0|]] eqn:Er; [done|]. cbn. intros [= <-].
    by apply IH.
Qed.

Lemma remove_matching_gone r rs b rs' :
  NoDup (mount_dst <$> rs) → remove_matching r rs = (b, Some rs') → record_of rs' (mount_dst r) = None.
Proof.
  unfold record_of. revert b rs'. induction rs as [|x l IH]; intros b l' Hnd Em; cbn in Em; [done|].
  rewrite fmap_cons in Hnd. apply NoDup_cons in Hnd as [Hx Hnd].
  destruct (same_dst (mount_dst r) x) eqn:E.
  - case_bool_decide; [|done]. injection Em as <- <-. subst x.
    destruct (find _ l) as [r0|] eqn:Ef; [|done]. apply find_some in Ef as [Hin Hs%same_dst_iff].
    exfalso. apply Hx. rewrite <-Hs. apply list_elem_of_fmap. exists r0. split; [done|]. by apply list_elem_of_In.
  - destruct (remove_matching r l) as [b0 [l0|]] eqn:El; [|done]. cbn in Em. injection Em as <- <-.
    cbn. rewrite E. by eapply IH.
Qed.

(** Removing a record that is there. *)
Lemma remove_record_ok n sd r rs :
  read_records n sd = Ok rs → record_of rs (mount_dst r) = Some r → NoDup (mount_dst <$> rs) →
  ∃ sd' rs', remove_record_if_matches r n sd = Ok sd' ∧ read_records n sd' = Ok rs' ∧
    ∀ dst, record_of rs' dst = if bool_decide (dst = mount_dst r) then None else record_of rs dst.
Proof.
  intros Hr Hself Hnd. unfold remove_record_if_matches. rewrite Hr. cbn.
  destruct (remove_matching r rs) as [b [rs'|]] eqn:Em.
  2:{ apply remove_matching_none in Em. destruct b; [|congruence].
      destruct Em as (r' & ? & ?). congruence. }
  exists (with_records rs' sd), rs'. split_and!; [by destruct b|apply with_records_read|]. intros dst.
  case_bool_decide as Hd; [subst dst; by eapply remove_matching_gone|].
  by apply (remove_matching_lookup _ _ _ _ dst Em).
Qed.

(** Removing a record that is not. *)
Lemma remove_record_absent n sd r rs :
  read_records n sd = Ok rs → record_of rs (mount_dst r) = None →
  remove_record_if_matches r n sd = Ok sd.
Proof.
  intros Hr Hn. unfold remove_record_if_matches. rewrite Hr. cbn.
  destruct (remove_matching r rs) as [b [rs'|]] eqn:Em.
  - destruct (remove_matching_lookup _ _ _ _ (mount_dst r) Em) as [? _]. congruence.
  - apply remove_matching_none in Em. destruct b; [|done]. destruct Em as (? & ? & _). congruence.
Qed.

(** the state file behaves as a map from mounts to records: an upsert sets
    the record of its mount and no other, whatever version the file had, and
    removing an expected record removes exactly it. *)
Theorem record_map_semantics n sd r sd' dst :
  upsert_record r n sd = Ok sd' →
  ∃ rs rs', read_records n sd = Ok rs ∧ read_records n sd' = Ok rs' ∧
    record_of rs' dst = (if bool_decide (dst = mount_dst r) then Some r else record_of rs dst) ∧
    (NoDup (mount_dst <$> rs') →
     ∃ sd'' rs'', remove_record_if_matches r n sd' = Ok sd'' ∧ read_records n sd'' = Ok rs'' ∧
       record_of rs'' dst = if bool_decide (dst = mount_dst r) then None else record_of rs dst).
Proof.
  unfold upsert_record, mutate_records. intros H. apply bind_ok in H as (rs & Hr & H).
  injection H as <-. exists rs, (replace_first r rs). rewrite with_records_read.
  split_and!; [done..|apply replace_first_lookup|]. intros Hnd.
  destruct (remove_record_ok n (with_records (replace_first r rs) sd) r (replace_first r rs))
    as (sd' & rs' & H1 & H2 & H3); [apply with_records_read| |done|].
  { rewrite replace_first_lookup. by rewrite bool_decide_eq_true_2. }
  exists sd', rs'. split_and!; [done..|]. rewrite H3, replace_first_lookup. by case_bool_decide.
Qed.

(** ** Holds *)

Lemma find_hold_app id l h :
  find_hold id (l ++ [h])
  = match find_hold id l with Some x => Some x | None => if str_eqb (resource_id h) id then Some h else None end.
Proof. unfold find_hold. induction l as [|x l IH]; cbn; [done|]. by destruct (str_eqb (resource_id x) id). Qed.

Lemma find_hold_kept id l : find_hold id (filter (λ h, resource_id h ≠ id) l) = None.
Proof.
  unfold find_hold. induction l as [|x l IH]; [done|]. rewrite filter_cons.
  destruct (decide _) as [H|H]; [|done]. cbn. unfold str_eqb.
  by rewrite bool_decide_eq_false_2.
Qed.

Lemma find_hold_other id id2 l :
  id2 ≠ id → find_hold id (filter (λ h, resource_id h ≠ id2) l) = find_hold id l.
Proof.
  intros Hne. unfold find_hold. induction l as [|x l IH]; [done|]. rewrite filter_cons.
  unfold str_eqb in *. destruct (decide _) as [H|H]; cbn; [by rewrite IH|].
  apply dec_stable in H. rewrite IH, bool_decide_eq_false_2; congruence.
Qed.

Lemma filter_length_same {A} (P : A → Prop) `{∀ x, Decision (P x)} l :
  length (filter P l) = length l → filter P l = l.
Proof.
  induction l as [|x l IH]; [done|]. rewrite filter_cons. destruct (decide (P x)); cbn.
  - intros [= ?]. by rewrite IH.
  - intros Hl. pose proof (length_filter P l). lia.
Qed.

(** a hold blocks the removal of its copy until it is released: once work
    is held every removal check of it fails with a reason, whatever other copies
    are held or released in between, and releasing it lets the check pass. *)
Theorem hold_blocks_until_released f id reason op h f' :
  hold_work f id reason op = Ok (h, f') →
  check_removal f' id = bail_at "removal is blocked by a preservation hold" (hold_reason h) ∧
  (∀ id2 reason2 op2 h2 f2,
     hold_work f' id2 reason2 op2 = Ok (h2, f2) → check_removal f2 id = check_removal f' id) ∧
  (∀ id2 b f2, id2 ≠ id → release_hold f' id2 = Ok (b, f2) →
     check_removal f2 id = check_removal f' id) ∧
  ∃ f2, release_hold f' id = Ok (true, f2) ∧ check_removal f2 id = Ok ().
Proof.
  intros H. assert (∃ l', read_holds_file f' = Ok l' ∧ find_hold id l' = Some h) as (l' & Hr & Hh).
  { unfold hold_work in H. invert_ok. destruct (find_hold id _) eqn:Ef; invert_ok.
    - injection H as <- <-. eauto.
    - injection H as <- <-. cbn. eexists. split; [done|]. rewrite find_hold_app, Ef. cbn.
      unfold str_eqb. by rewrite bool_decide_eq_true_2. }
  unfold check_removal. rewrite Hr. cbn. rewrite Hh. split; [done|]. split; [|split].
  - intros id2 reason2 op2 h2 f2 H2. unfold hold_work in H2. rewrite Hr in H2. cbn in H2.
    invert_ok. destruct (find_hold id2 l'); invert_ok; injection H2 as <- <-.
    + by rewrite Hr; cbn; rewrite Hh.
    + cbn. by rewrite find_hold_app, Hh.
  - intros id2 b f2 Hne H2. unfold release_hold in H2. rewrite Hr in H2. cbn in H2.
    destruct (_ =? _)%nat; injection H2 as <- <-; [by rewrite Hr; cbn; rewrite Hh|].
    cbn. by rewrite find_hold_other, Hh.
  - unfold release_hold. rewrite Hr. cbn. destruct (Nat.eqb_spec (length (filter (λ h, resource_id h ≠ id) l')) (length l')) as [Hl|_].
    + apply filter_length_same in Hl. pose proof (find_hold_kept id l') as Hn.
      rewrite Hl in Hn. congruence.
    + eexists. split; [done|]. cbn. by rewrite find_hold_kept.
Qed.

Lemma hold_blocks_until_released_witness :
  ∃ h f', hold_work None "/d/wt" "agent work" None = Ok (h, f') ∧
    check_removal f' "/d/wt" = bail_at "removal is blocked by a preservation hold" "agent work".
Proof.
  eexists _, _. split; [reflexivity|].
  exact (proj1 (hold_blocks_until_released None "/d/wt" "agent work" None _ _ eq_refl)).
Defined.

(** ** The assessment of a work tree *)

(** A repository: which commits a commit reaches, its local branches with their
    upstreams, where a name points, and the remote-tracking references. *)
Record Branch := mk_branch {
  b_name : string;
  b_tip : string;
  b_upstream : string;
  b_track : string
}.
Record Repo := mk_repo {
  reaches : string → string → Prop;
  local_branches : list Branch;
  points_to : string → option string;
  remote_tips : list string;
  head_commit : string
}.

(** What the documentation of [git] says of the commands: [for-each-ref] prints a
    row of tab-separated fields per branch, [rev-list a..b] the commits that [b]
    reaches and [a] does not, [for-each-ref --contains] a remote-tracking
    reference that reaches the commit, [symbolic-ref] the branch [HEAD] is on. *)
Class GitAnswers (g : Git) (r : Repo) : Prop := {
  rows_printed raw b :
    git_branches g = Some raw → b ∈ local_branches r →
    ∃ line, line ∈ lines raw ∧ trim_eols line ≠ "" ∧
      split_on is_tab (trim_eols line) = [b_name b; b_tip b; b_upstream b; b_track b] ∧
      trim (b_tip b) = b_tip b ∧ trim (b_upstream b) = b_upstream b;
  rev_list_empty up name out b :
    git_rev_list g up name = Some out → is_blank out = true →
    b ∈ local_branches r → b_name b = name →
    ∃ up_tip, points_to r up = Some up_tip ∧ ∀ c, reaches r (b_tip b) c → reaches r up_tip c;
  contains_row tip out :
    git_remotes_containing g tip = Some out → is_remote_tracking_ref_row out = true →
    ∃ t, t ∈ remote_tips r ∧ ∀ c, reaches r tip c → reaches r t c;
  head_on_branch name :
    git_symbolic_head g = Some name → ∃ b, b ∈ local_branches r ∧ b_tip b = head_commit r;
  head_printed out : git_head g = Some out → trim out = head_commit r
}.

(** A commit that survives the removal of the copy: one the base commit or a
    remote-tracking reference reaches. *)
Definition retained (r : Repo) (base c : string) : Prop :=
  reaches r base c ∨ ∃ t, t ∈ remote_tips r ∧ reaches r t c.

(** Every upstream that is still there is a remote-tracking reference. *)
Definition remote_upstreams (r : Repo) : Prop :=
  ∀ b t, b ∈ local_branches r → b_upstream b ≠ "" → points_to r (b_upstream b) = Some t →
    t ∈ remote_tips r.

Lemma pushed_row g r base raw b c :
  GitAnswers g r → remote_upstreams r → git_branches g = Some raw →
  forallb (row_is_pushed g base) (lines raw) = true →
  b ∈ local_branches r → reaches r (b_tip b) c → retained r base c.
Proof.
  intros Hg Hup Hraw Hrows Hb Hc.
  destruct (rows_printed raw b Hraw Hb) as (line & Hl & Hne & Hs & Ht & Hu).
  rewrite forallb_forall in Hrows. specialize (Hrows line (proj1 (list_elem_of_In _ _) Hl)).
  unfold row_is_pushed in Hrows. unfold str_eqb at 1 in Hrows.
  rewrite bool_decide_eq_false_2, Hs in Hrows by done. cbn [from_option lookup list_lookup id] in Hrows.
  rewrite Ht, Hu in Hrows.
  destruct (str_eqb (b_name b) "" || str_eqb (b_tip b) ""); [done|].
  unfold str_eqb in Hrows. case_bool_decide as Hbase; [left; by rewrite <-Hbase|].
  case_bool_decide as Hnone; [done|].
  destruct (str_in _ _).
  - unfold gone_upstream_has_remote_witness in Hrows.
    destruct (git_remotes_containing g (b_tip b)) as [out|] eqn:Eo; [|done].
    destruct (contains_row _ _ Eo Hrows) as (t & Ht' & Hr). right. eauto.
  - destruct (git_rev_list g _ _) as [out|] eqn:Eo; [|done].
    destruct (rev_list_empty _ _ _ b Eo Hrows Hb eq_refl) as (t & Hp & Hall). right. exists t.
    split; [by eapply Hup|by apply Hall].
Qed.


(** Two local branches that track each other. *)
Module LocalCycle.
Definition tab : string := of_bytes [byte_of_Z 9].
Definition row (a b : string) : string := a +:+ tab +:+ "c1" +:+ tab +:+ b +:+ tab +:+ lf.
Definition git : Git := mk_git (Some "") (Some (row "a" "b" +:+ row "b" "a")) (λ _, None)
  (λ _ _, Some "") (Some "refs/heads/a") (Some "c1").
Definition repo : Repo := mk_repo eq [mk_branch "a" "c1" "b" ""; mk_branch "b" "c1" "a" ""]
  (λ _, Some "c1") [] "c1".
End LocalCycle.

#[global] Instance local_cycle_answers : GitAnswers LocalCycle.git LocalCycle.repo.
Proof.
  split.
  - cbn. intros raw b [= <-] Hb. apply elem_of_cons in Hb as [->|Hb].
    { exists ("a" +:+ LocalCycle.tab +:+ "c1" +:+ LocalCycle.tab +:+ "b" +:+ LocalCycle.tab). vm_compute. split_and!; try done. left. }
    apply list_elem_of_singleton in Hb as ->. exists ("b" +:+ LocalCycle.tab +:+ "c1" +:+ LocalCycle.tab +:+ "a" +:+ LocalCycle.tab). vm_compute.
    split_and!; try done. right. left.
  - cbn. intros up name out b [= <-] _ Hb _. exists "c1". split; [done|].
    apply elem_of_cons in Hb as [->|Hb%list_elem_of_singleton]; [done|by subst].
  - done.
  - intros name _. exists (mk_branch "a" "c1" "b" ""). split; [left|done].
  - cbn. by intros out [= <-].
Qed.

(** an upstream that is itself a local branch is not evidence that commits
    are kept anywhere: two local branches that track each other and point to a
    commit that exists nowhere else are judged clean, and the copy with the only
    reference to the commit is removed. *)
Theorem assess_worktree_local_upstreams :
  assess_worktree LocalCycle.git "c0" = WorktreeState.Clean ∧
  GitAnswers LocalCycle.git LocalCycle.repo ∧
  reaches LocalCycle.repo (head_commit LocalCycle.repo) "c1" ∧
  ¬ retained LocalCycle.repo "c0" "c1".
Proof.
  split; [by vm_compute|]. split; [apply _|]. split; [done|].
  intros [H|(t & Ht & _)]; [done|]. by apply elem_of_nil in Ht.
Qed.

(** A branch pushed to its remote-tracking upstream, and one whose upstream is gone. *)
Module PushedBranch.
Definition row : string :=
  "main" +:+ LocalCycle.tab +:+ "c1" +:+ LocalCycle.tab +:+ "origin/main" +:+ LocalCycle.tab.
Definition gone_row : string :=
  "old" +:+ LocalCycle.tab +:+ "c1" +:+ LocalCycle.tab +:+ "origin/old" +:+ LocalCycle.tab +:+ "[gone]".
Definition git : Git := mk_git (Some "") (Some (row +:+ lf +:+ gone_row +:+ lf))
  (λ tip, if decide (tip = "c1") then Some "refs/remotes/origin/main" else None)
  (λ up _, if decide (up = "origin/main") then Some "" else None)
  (Some "refs/heads/main") (Some "c1").
Definition repo : Repo :=
  mk_repo eq [mk_branch "main" "c1" "origin/main" ""; mk_branch "old" "c1" "origin/old" "[gone]"]
  (λ n, if decide (n = "origin/main") then Some "c1" else None) ["c1"] "c1".
End PushedBranch.

#[global] Instance pushed_branch_answers : GitAnswers PushedBranch.git PushedBranch.repo.
Proof.
  split.
  - cbn. intros raw b [= <-] Hb. apply elem_of_cons in Hb as [->|Hb%list_elem_of_singleton].
    + exists PushedBranch.row. vm_compute. split_and!; try done. left.
    + subst b. exists PushedBranch.gone_row. vm_compute. split_and!; try done. right. left.
  - cbn. intros up name out b Ho _ Hb _. case_decide; [|done]. exists "c1". split; [done|].
    apply elem_of_cons in Hb as [->|Hb%list_elem_of_singleton]; [done|by subst].
  - cbn. intros tip out Ho _. case_decide as Htip; [|done]. exists "c1". split; [left|]. by rewrite Htip.
  - intros name _. exists (mk_branch "main" "c1" "origin/main" ""). split; [left|done].
  - cbn. by intros out [= <-].
Qed.


(** A container's state in the historical format, with its manifest. *)
Module OldState.
Definition manifest : HistoricalInstanceManifestV3 :=
  mk_instance "ab12" "jk-ab12-app" (Some "app") "app" "jk-ab12-app"
    (Some (BackendIdentity.Docker "jk-ab12-app")).
Definition old_record : HistoricalIsolationRecord :=
  mk_historical "app" "/work" "/src/app" MountIsolation.Worktree "/d/wt" "jackin/scratch/x" "c0"
    "dev" "jk-ab12-app" CleanupStatus.Active.
Definition state : StateDir := mk_state_dir (Some (Historical [old_record])) (Some (Manifest3 manifest)).
Definition dir : string := "/data/jk-ab12-app".
Definition new_record : IsolationRecord :=
  mk_record (Some "app") "/work" "/src/app" MountIsolation.Worktree "/d/wt" "jackin/scratch/x" "c0"
    "dev" "jk-ab12-app" CleanupStatus.Active.
End OldState.

Lemma migrate_records_stable_witness :
  migrate_records OldState.dir OldState.state
  = Ok ([OldState.new_record], with_records [OldState.new_record] OldState.state) ∧
  read_records OldState.dir (with_records [OldState.new_record] OldState.state)
  = Ok [OldState.new_record].
Proof.
  assert (migrate_records OldState.dir OldState.state
    = Ok ([OldState.new_record], with_records [OldState.new_record] OldState.state)) as H
    by reflexivity.
  split; [exact H|]. exact (proj1 (proj2 (migrate_records_stable _ _ _ _ H))).
Defined.

Lemma historical_records_vouched_witness :
  ∃ m d, instance_json OldState.state = Some (Manifest3 m) ∧ file_name OldState.dir = Some d ∧
    instance_id_from_container_base d = Some (im_instance_id m).
Proof.
  destruct (historical_records_vouched OldState.dir OldState.state [OldState.old_record]
    [OldState.new_record] eq_refl eq_refl) as (m & d & H1 & H2 & _ & H3 & _).
  exists m, d. split; [exact H1|]. split; [exact H2|exact H3].
Defined.

Lemma record_map_semantics_witness :
  ∃ rs', read_records OldState.dir
           (with_records [with_status CleanupStatus.PreservedDirty OldState.new_record] OldState.state)
         = Ok rs' ∧
    record_of rs' "/work" = Some (with_status CleanupStatus.PreservedDirty OldState.new_record).
Proof.
  destruct (record_map_semantics OldState.dir OldState.state
    (with_status CleanupStatus.PreservedDirty OldState.new_record) _ "/work" eq_refl)
    as (rs & rs' & _ & H1 & H2 & _).
  exists rs'. split; [exact H1|exact H2].
Defined.
