(* ===== verification/RefTransaction.v ===== *)
(** * Deletion of a branch reference

    [jackin-isolation/src/ref_transaction.rs]: a branch is a loose file, a line
    of [packed-refs], or both, with an optional reflog.  The deletion reads all
    three, prepares [packed-refs] without the branch, and then replaces and moves
    the files one by one.  Files are byte strings; the copies kept in the recovery
    directory while this happens are not modelled, and the locks that keep other
    processes away are in [CleanupWorld]. *)

From stdpp Require Import base list gmap strings.
From Stdlib Require Import ZArith Lia Bool Strings.Byte.
From S2P Require Import Prelude OrderedMap.

#[global] Instance byte_countable : Countable byte :=
  inj_countable' Z_of_byte byte_of_Z byte_of_Z_of_byte.

(** ** Object names and reference names *)

Definition ascii_hexdigit (b : byte) : bool :=
  between 48 57 (Z_of_byte b) || between 97 102 (Z_of_byte b) || between 65 70 (Z_of_byte b).
Definition lower_hexdigit (b : byte) : bool :=
  between 48 57 (Z_of_byte b) || between 97 102 (Z_of_byte b).
Definition oid_length (n : nat) : bool := (n =? 40)%nat || (n =? 64)%nat.

Definition valid_oid (oid : bytes) : bool :=
  oid_length (length oid) && forallb lower_hexdigit oid.
Definition all_zero (oid : bytes) : bool := forallb (byte_is 48) oid.

(** [trim_end_matches(['\r', '\n'])] *)
Fixpoint skip_eol (bs : bytes) : bytes :=
  match bs with
  | b :: r => if byte_is 13 b || byte_is 10 b then skip_eol r else bs
  | [] => []
  end.
Definition trim_eol (bs : bytes) : bytes := rev (skip_eol (rev bs)).

Definition loose_oid (content : bytes) : res bytes :=
  let text := trim_eol content in
  _ ← ensure (valid_oid text && negb (all_zero text))
        "symbolic or malformed loose ref; record retained";
  Ok text.

(** The characters git refuses in a reference name: controls, space, DEL and
    [~^:?*\[\\]. *)
Definition bad_ref_byte (b : byte) : bool :=
  (Z_of_byte b <=? 32) || byte_is 127 b ||
  bool_decide (Z_of_byte b ∈ [126; 94; 58; 63; 42; 91; 92]).
Definition ref_part_ok (part : string) : bool :=
  negb (str_eqb part "") && negb (starts_with "." part)
  && negb (bool_decide (is_Some (strip_suffix "." part)))
  && negb (bool_decide (is_Some (strip_suffix ".lock" part))).
Definition slash (c : Ascii.ascii) : bool := byte_is 47 (Ascii.byte_of_ascii c).

Definition validate_ref (name : string) : res () :=
  ensure (starts_with "refs/heads/" name && negb (str_contains ".." name)
          && negb (str_contains "@{" name) && negb (existsb bad_ref_byte (as_bytes name))
          && forallb ref_part_ok (split_on slash name))
    "invalid exact branch ref name".

(** ** [packed-refs] *)

(** [split_inclusive(|byte| byte == b'\n')] *)
Fixpoint lines_inclusive (acc bs : bytes) : list bytes :=
  match bs with
  | [] => match acc with [] => [] | _ => [rev acc] end
  | b :: r => if byte_is 10 b then rev (b :: acc) :: lines_inclusive [] r
              else lines_inclusive (b :: acc) r
  end.

(** The line without its line feed and carriage return. *)
Definition strip_lf (bs : bytes) : bytes :=
  match rev bs with b :: r => if byte_is 10 b then rev r else bs | [] => bs end.
Definition line_content (line : bytes) : bytes := strip_cr (strip_lf line).

Fixpoint split_space (bs : bytes) : option (bytes * bytes) :=
  match bs with
  | [] => None
  | b :: r => if byte_is 32 b then Some ([], r) else prod_map (cons b) id <$> split_space r
  end.

Record Packed := mk_packed {
  names : gset bytes;
  found : option bytes;
  output : bytes;
  previous_removed : bool;
  can_peel : bool
}.

Definition refs_prefix : bytes := as_bytes "refs/".
Definition packed_row_ok (oid_len : nat) (oid name : bytes) (seen : gset bytes) : bool :=
  (length oid =? oid_len)%nat && valid_oid oid && negb (all_zero oid)
  && bytes_prefix refs_prefix name
  && negb (existsb (λ b, (Z_of_byte b <=? 32) || byte_is 127 b) name)
  && negb (bool_decide (name ∈ seen)).

(** An [oid] that is not UTF-8 is not a hexadecimal number either: the source
    reports it with another message, the model with the same. *)
Definition packed_line (target : bytes) (oid_len : nat) (p : Packed) (line : bytes) : res Packed :=
  let content := line_content line in
  match content with
  | b :: rest =>
      if byte_is 35 b then Ok (mk_packed (names p) (found p) (output p ++ line) false false)
      else if byte_is 94 b then
        _ ← ensure (can_peel p && (length rest =? oid_len)%nat && valid_oid rest)
              "malformed packed peeled ref";
        Ok (mk_packed (names p) (found p)
              (if previous_removed p then output p else output p ++ line)
              (previous_removed p) false)
      else
        match split_space content with
        | None => bail "malformed packed ref"
        | Some (oid, name) =>
            _ ← ensure (packed_row_ok oid_len oid name (names p)) "malformed or duplicate packed ref";
            let removed := bool_decide (name = target) in
            Ok (mk_packed ({[name]} ∪ names p) (if removed then Some oid else found p)
                  (if removed then output p else output p ++ line) removed true)
        end
  | [] => bail "malformed packed ref"
  end.

Fixpoint packed_lines (target : bytes) (oid_len : nat) (p : Packed) (ls : list bytes) : res Packed :=
  match ls with
  | [] => Ok p
  | l :: ls => p ← packed_line target oid_len p l; packed_lines target oid_len p ls
  end.

Definition packed_start : Packed := mk_packed ∅ None [] false false.

Definition parse_packed (content : bytes) (target : string) (oid_len : nat)
    : res (option bytes * bytes) :=
  p ← packed_lines (as_bytes target) oid_len packed_start (lines_inclusive [] content);
  Ok (found p, output p).

(** ** The deletion *)

Record Refs := mk_refs {
  loose : gmap string bytes;
  packed_refs : option bytes;
  reflogs : gmap string bytes
}.

(** [read_regular] refuses files above 16 MiB. *)
Definition MAX_METADATA : Z := 16777216.
Definition read_regular (file : option bytes) : res (option bytes) :=
  _ ← ensure (match file with Some bs => blen bs <=? MAX_METADATA | None => true end)
        "ref metadata exceeds supported size";
  Ok file.

Record PreparedRefDeletion := mk_prepared {
  full_ref : string;
  oid_len : nat;
  pr_loose : option bytes;
  pr_packed : option bytes;
  pr_packed_candidate : option bytes;
  pr_reflog : option bytes
}.

Definition check_ref (ref : string) (expected_oid : bytes) : res () :=
  _ ← validate_ref ref; ensure (valid_oid expected_oid) "malformed expected object ID".

Definition loose_value (content : option bytes) : res (option bytes) :=
  match content with Some content => Some <$> loose_oid content | None => Ok None end.
Definition packed_value (content : option bytes) (ref : string) (oid_len : nat)
    : res (option bytes * bytes) :=
  match content with Some content => parse_packed content ref oid_len | None => Ok (None, []) end.

(** The part of [prepare_with_checkout] that runs under the locks: read the
    branch everywhere, and compare. *)
Definition read_prepared (r : Refs) (ref : string) (expected_oid : bytes)
    : res PreparedRefDeletion :=
  let expected := if all_zero expected_oid then None else Some expected_oid in
  lo ← read_regular (loose r !! ref);
  loose_oid ← loose_value lo;
  packed ← read_regular (packed_refs r);
  '(packed_oid, without) ← packed_value packed ref (length expected_oid);
  _ ← ensure (bool_decide ((if loose_oid is Some o then Some o else packed_oid) = expected))
        "scratch ref changed; record retained";
  reflog ← read_regular (reflogs r !! ref);
  Ok (mk_prepared ref (length expected_oid) lo packed
        (if packed_oid is Some _ then Some without else None) reflog).

(** ** The steps of [commit] *)

Definition verify_snapshots (p : PreparedRefDeletion) (r : Refs) : res () :=
  _ ← ensure (bool_decide (loose r !! full_ref p = pr_loose p)) "ref metadata changed";
  _ ← ensure (bool_decide (packed_refs r = pr_packed p)) "ref metadata changed";
  ensure (bool_decide (reflogs r !! full_ref p = pr_reflog p)) "scratch reflog changed; record retained".

Definition nothing_to_delete (p : PreparedRefDeletion) : bool :=
  negb (bool_decide (is_Some (pr_loose p)) || bool_decide (is_Some (pr_packed_candidate p))
        || bool_decide (is_Some (pr_reflog p))).

Definition exchange_packed (p : PreparedRefDeletion) (r : Refs) : Refs :=
  mk_refs (loose r) (match pr_packed_candidate p with Some c => Some c | None => packed_refs r end)
    (reflogs r).
Definition quarantine_loose (p : PreparedRefDeletion) (r : Refs) : Refs :=
  mk_refs (if pr_loose p is Some _ then delete (full_ref p) (loose r) else loose r)
    (packed_refs r) (reflogs r).
Definition quarantine_reflog (p : PreparedRefDeletion) (r : Refs) : Refs :=
  mk_refs (loose r) (packed_refs r)
    (if pr_reflog p is Some _ then delete (full_ref p) (reflogs r) else reflogs r).

(** The check after the three: the branch is nowhere. *)
Definition verify_deleted (p : PreparedRefDeletion) (r : Refs) : res () :=
  _ ← ensure (bool_decide (reflogs r !! full_ref p = None)) "scratch reflog reappeared; record retained";
  packed ← read_regular (packed_refs r);
  '(packed_oid, _) ← packed_value packed (full_ref p) (oid_len p);
  ensure (bool_decide (loose r !! full_ref p = None) && bool_decide (packed_oid = None))
    "scratch ref reappeared; record retained".
