(* ===== verification/RefProofs.v ===== *)
(** * What removing a branch from [packed-refs] keeps

    [parse_packed] reads the file and rewrites it in one pass.  The rewritten file
    is read again by every later [git] command, so it must be a file the same
    parser accepts, in which every other reference resolves as before and in
    which the branch is gone. *)

From stdpp Require Import base list gmap strings.
From Stdlib Require Import ZArith Lia Bool Strings.Byte.
From S2P Require Import Prelude OrderedMap RefTransaction.

(** ** Lines *)

(** Lines as [split_inclusive] gives them: nonempty, a line feed at the end of
    each but the last, and nowhere else. *)
Definition full_line (l : bytes) : Prop :=
  ∃ r b, l = r ++ [b] ∧ byte_is 10 b = true ∧ Forall (λ c, byte_is 10 c = false) r.
Definition last_line (l : bytes) : Prop :=
  l ≠ [] ∧ (full_line l ∨ Forall (λ c, byte_is 10 c = false) l).
Inductive split_lines : list bytes → Prop :=
| split_none : split_lines []
| split_last l : last_line l → split_lines [l]
| split_more l ls : full_line l → split_lines ls → split_lines (l :: ls).

Lemma lines_inclusive_spec acc bs :
  Forall (λ c, byte_is 10 c = false) acc →
  split_lines (lines_inclusive acc bs) ∧ concat (lines_inclusive acc bs) = rev acc ++ bs.
Proof.
  revert acc. induction bs as [|b bs IH]; intros acc Hacc; cbn.
  - destruct acc as [|a acc]; [split; [constructor|done]|]. split; [|done]. constructor. split.
    + intros E%(f_equal length). rewrite length_rev in E. done.
    + right. by apply Forall_rev.
  - destruct (byte_is 10 b) eqn:E.
    + destruct (IH [] (Forall_nil_2 _)) as [H1 H2]. split.
      * apply split_more; [|done]. exists (rev acc), b. cbn. split_and!; [done..|by apply Forall_rev].
      * cbn. rewrite H2. cbn. by rewrite <-app_assoc.
    + destruct (IH (b :: acc)) as [H1 H2]; [by constructor|]. split; [done|]. rewrite H2. cbn.
      by rewrite <-app_assoc.
Qed.

Lemma lines_inclusive_plain acc r bs :
  Forall (λ c, byte_is 10 c = false) r →
  lines_inclusive acc (r ++ bs) = lines_inclusive (rev r ++ acc) bs.
Proof.
  revert acc. induction r as [|c r IH]; intros acc; [done|]. intros [Hc Hr]%Forall_cons. cbn.
  rewrite Hc, IH by done. by rewrite <-app_assoc.
Qed.

Lemma lines_inclusive_full l bs :
  full_line l → lines_inclusive [] (l ++ bs) = l :: lines_inclusive [] bs.
Proof.
  intros (r & b & -> & Hb & Hr). rewrite <-app_assoc, lines_inclusive_plain by done. cbn.
  rewrite Hb, app_nil_r. cbn. by rewrite rev_involutive.
Qed.

Lemma lines_inclusive_join ls : split_lines ls → lines_inclusive [] (concat ls) = ls.
Proof.
  induction 1 as [|l [Hne [Hf|Hp]]|l ls Hf _ IH]; cbn; [done|..].
  - rewrite app_nil_r, <-(app_nil_r l) at 1. by rewrite lines_inclusive_full.
  - rewrite app_nil_r, <-(app_nil_r l) at 1. rewrite lines_inclusive_plain by done. cbn.
    rewrite app_nil_r. destruct (rev l) eqn:E; [|by rewrite <-E, rev_involutive].
    by apply (f_equal (@rev _)) in E; rewrite rev_involutive in E.
  - by rewrite lines_inclusive_full, IH.
Qed.

Lemma full_last l : full_line l → last_line l.
Proof. intros H. split; [|by left]. destruct H as (r & b & -> & _). by destruct r. Qed.

Lemma split_lines_tail l ls : split_lines (l :: ls) → split_lines ls.
Proof. by inversion 1; subst; [constructor|]. Qed.

Lemma split_lines_sublist ls ls' : sublist ls' ls → split_lines ls → split_lines ls'.
Proof.
  induction 1 as [|l k1 k2 Hs IH|l k1 k2 Hs IH]; intros H; [done|..].
  - destruct k1 as [|l2 k1].
    + inversion H; subst; constructor; [done|by apply full_last].
    + inversion H; subst; [by inversion Hs|]. constructor; [done|]. by apply IH.
  - apply IH. by eapply split_lines_tail.
Qed.

(** ** One pass against another *)

(** A pass that removes [target], a pass over the same lines that looks for [t],
    and one that looks for [t] among the lines the first keeps. *)
Record agree (target t : bytes) (a b c : Packed) : Prop := {
  agree_names : names b = names a;
  agree_peel : can_peel b = can_peel a;
  kept_names : names c ⊆ names a ∖ {[target]};
  kept_peel : previous_removed a = false → can_peel c = can_peel a;
  kept_found : found c = if decide (t = target) then None else found b;
  kept_output : t = target → output c = output a;
  kept_removed : t = target → previous_removed c = false
}.

Lemma packed_row_ok_mono n oid name S T :
  T ⊆ S → packed_row_ok n oid name S = true → packed_row_ok n oid name T = true.
Proof.
  unfold packed_row_ok. intros HT. rewrite !andb_true_iff, !negb_true_iff, !bool_decide_eq_false.
  set_solver.
Qed.

Lemma packed_line_agree target t n a a' b c l :
  agree target t a b c → packed_line target n a l = Ok a' →
  ∃ b', packed_line t n b l = Ok b' ∧
    ((output a' = output a ∧ agree target t a' b' c) ∨
     (output a' = output a ++ l ∧ ∃ c', packed_line t n c l = Ok c' ∧ agree target t a' b' c')).
Proof.
  intros [Hn Hp Hcn Hcp Hcf Hco Hcr] H. unfold packed_line in *.
  destruct (line_content l) as [|x rest] eqn:El; [done|].
  destruct (byte_is 35 x).
  { invert_ok. subst a'. eexists. split; [done|]. right. split; [done|]. eexists.
    split; [done|]. split; cbn; try done. intros Ht. by rewrite (Hco Ht). }
  destruct (byte_is 94 x).
  { invert_ok. subst a'. rewrite Hp.
    match goal with H : _ = true |- _ => rename H into Hc end. rewrite Hc. cbn.
    eexists. split; [done|]. destruct (previous_removed a) eqn:Er.
    - left. split; [done|]. split; cbn; try done.
    - right. split; [done|]. rewrite (Hcp eq_refl), Hc. eexists. split; [done|].
      split; cbn; try done. intros Ht. by rewrite (Hcr Ht), (Hco Ht). }
  destruct (split_space (x :: rest)) as [[oid name]|]; [|done]. invert_ok. subst a'. rewrite Hn.
  match goal with H : _ = true |- _ => rename H into Hc end. rewrite Hc. cbn.
  eexists. split; [done|].
  assert (name ∉ names a) as Hfresh.
  { unfold packed_row_ok in Hc. bool_to_prop. done. }
  case_bool_decide as Htar.
  - left. split; [done|]. subst name. split; cbn; try done; [set_solver|].
    rewrite Hcf. destruct (decide (t = target)) as [|Hd]; [done|].
    by rewrite bool_decide_eq_false_2 by congruence.
  - right. split; [done|].
    rewrite (packed_row_ok_mono n oid name (names a) (names c)) by (done || set_solver). cbn.
    eexists. split; [done|]. split; cbn; try done.

    + set_solver.
    + rewrite Hcf. destruct (decide (t = target)) as [->|Hd]; [|done].
      by rewrite bool_decide_eq_false_2.
    + intros ->. by rewrite bool_decide_eq_false_2, Hco.
    + intros ->. by rewrite bool_decide_eq_false_2.
Qed.

Lemma packed_lines_agree target t n ls a a' b c :
  agree target t a b c → packed_lines target n a ls = Ok a' →
  ∃ b' kept c', packed_lines t n b ls = Ok b' ∧ sublist kept ls ∧
    output a' = output a ++ concat kept ∧ packed_lines t n c kept = Ok c' ∧ agree target t a' b' c'.
Proof.
  revert a b c. induction ls as [|l ls IH]; intros a b c Hag H; cbn in H.
  { invert_ok. subst. exists b, [], c. cbn. rewrite app_nil_r. eauto using sublist. }
  apply bind_ok in H as (a1 & Ha & H).
  destruct (packed_line_agree _ _ _ _ _ _ _ _ Hag Ha) as (b1 & Hb & [[Ho Hag1]|(Ho & c1 & Hc & Hag1)]).
  - destruct (IH _ _ _ Hag1 H) as (b' & kept & c' & H1 & H2 & H3 & H4 & H5).
    exists b', kept, c'. cbn. rewrite Hb. cbn. rewrite <-Ho. split_and!; try done. by constructor.
  - destruct (IH _ _ _ Hag1 H) as (b' & kept & c' & H1 & H2 & H3 & H4 & H5).
    exists b', (l :: kept), c'. cbn. rewrite Hb, Hc. cbn.
    rewrite H3, Ho, <-app_assoc. split_and!; try done. by constructor.
Qed.

Lemma agree_start target t : agree target t packed_start packed_start packed_start.
Proof. split; cbn; try done. by destruct (decide _). Qed.

(** the [packed-refs] written when a branch is deleted is one the parser
    accepts again and keeps as it is; the branch is not in it, and every other
    reference resolves to the object it resolved to before. *)
Theorem parse_packed_removes content target n oid out :
  parse_packed content target n = Ok (oid, out) →
  parse_packed out target n = Ok (None, out) ∧
  ∀ t, t ≠ target →
    ∃ found out1 out2, parse_packed content t n = Ok (found, out1) ∧
      parse_packed out t n = Ok (found, out2).
Proof.
  unfold parse_packed. intros H. apply bind_ok in H as (a & Ha & H). injection H as <- <-.
  pose proof (lines_inclusive_spec [] content (Forall_nil_2 _)) as [Hls _].
  assert (∀ t, ∃ b c,
    packed_lines t n packed_start (lines_inclusive [] content) = Ok b ∧
    packed_lines t n packed_start (lines_inclusive [] (output a)) = Ok c ∧
    agree (as_bytes target) t a b c) as Hall.
  { intros t. destruct (packed_lines_agree _ t _ _ _ _ _ _ (agree_start _ t) Ha)
      as (b & kept & c & Hb & Hs & Ho & Hc & Hag).
    exists b, c. split; [done|]. split; [|done]. rewrite Ho. cbn.
    by rewrite lines_inclusive_join by (by eapply split_lines_sublist). }
  split.
  - destruct (Hall (as_bytes target)) as (b & c & _ & Hc & [_ _ _ _ Hf Ho _]). rewrite Hc. cbn.
    rewrite Hf, decide_True, (Ho eq_refl) by done. done.
  - intros t Hne. destruct (Hall (as_bytes t)) as (b & c & Hb & Hc & [_ _ _ _ Hf _ _]).
    exists (found b), (output b), (output c). rewrite Hb, Hc. cbn.
    rewrite Hf, decide_False; [done|]. intros E. apply Hne.
    by rewrite <-(of_as_bytes t), <-(of_as_bytes target), E.
Qed.

(** A file with a header, the branch with its peeled object, and another one. *)
Module PackedSample.
Definition nl : string := of_bytes [byte_of_Z 10].
Definition oid1 : string := "1111111111111111111111111111111111111111".
Definition oid2 : string := "2222222222222222222222222222222222222222".
Definition head_line : string := "# pack-refs with: peeled fully-peeled sorted" +:+ nl.
Definition main_line : string := oid2 +:+ " refs/heads/main" +:+ nl.
Definition content : bytes :=
  as_bytes (head_line +:+ oid1 +:+ " refs/heads/jackin/scratch/x" +:+ nl +:+ "^" +:+ oid2 +:+ nl +:+ main_line).
Definition scratch : string := "refs/heads/jackin/scratch/x".
End PackedSample.

Lemma parse_packed_removes_witness :
  parse_packed PackedSample.content PackedSample.scratch 40
  = Ok (Some (as_bytes PackedSample.oid1),
        as_bytes (PackedSample.head_line +:+ PackedSample.main_line)) ∧
  parse_packed (as_bytes (PackedSample.head_line +:+ PackedSample.main_line)) PackedSample.scratch 40
  = Ok (None, as_bytes (PackedSample.head_line +:+ PackedSample.main_line)).
Proof.
  assert (parse_packed PackedSample.content PackedSample.scratch 40
    = Ok (Some (as_bytes PackedSample.oid1),
          as_bytes (PackedSample.head_line +:+ PackedSample.main_line))) as H by (vm_compute; reflexivity).
  split; [exact H|]. exact (proj1 (parse_packed_removes _ _ _ _ _ H)).
Defined.
