(* ===== verification/CleanupWorld.v ===== *)
(** * The world a cleanup acts on

    The removal of an isolated work tree ([jackin-isolation/src/cleanup.rs]) moves
    and deletes directories of the container and of the host repository, one
    system call at a time, and any call can fail or be the last one the process
    makes.  This file has the world those calls act on, the monad they run in,
    the pinned directories of [safe_remove.rs] and the lock files of
    [ref_transaction.rs].

    A directory has an identity, its device and inode, and the files the program
    reads; files it only removes are files with some content.  Lock files live in
    the directories they lock, and are kept apart here, with the recovery
    directories that tell whether the process that made a lock is alive. *)

From stdpp Require Import base list gmap strings pretty.
From Stdlib Require Import ZArith Lia Bool.
From S2P Require Import Prelude OrderedMap Paths Config Isolation RefTransaction.

(** ** Directories *)

Notation Ident := (Z * Z)%type.

Record DirNode := mk_dir { d_id : Ident; d_files : gmap string string }.
Record Folder := mk_folder { f_id : Ident; f_dirs : gmap string DirNode }.

Module CleanupPhase.
Inductive t :=
| Prepared | RemovingWorktree | WorktreeRemoved | DeletingReference | ReferenceRemoved
| QuarantiningRegistration | RemovingRegistration | RegistrationRemoved.
#[global] Instance eq_dec : EqDecision t.
Proof. solve_decision. Defined.
Definition order (p : t) : Z :=
  match p with
  | Prepared => 0
  | RemovingWorktree => 1
  | WorktreeRemoved => 2
  | DeletingReference => 3
  | ReferenceRemoved => 4
  | QuarantiningRegistration => 5
  | RemovingRegistration => 6
  | RegistrationRemoved => 7
  end.
End CleanupPhase.

Record RegistrationWitness := mk_reg_witness {
  rw_head : string;
  rw_gitdir : string;
  rw_commondir : string;
  rw_marker : option string
}.

Record CleanupJournal := mk_journal {
  j_version : Z;
  j_phase : CleanupPhase.t;
  j_original_src : string;
  j_mount_dst : string;
  j_workspace_name : option string;
  j_selector_key : string;
  j_container_name : string;
  j_worktree_path : string;
  j_canonical_worktree_path : string;
  j_scratch_branch : string;
  j_base_commit : string;
  j_common_git_dir : string;
  j_common_identity : Ident;
  j_registration_name : string;
  j_registration_identity : Ident;
  j_registration_witness : RegistrationWitness;
  j_quarantine_name : string;
  j_quarantine_identity : Ident;
  j_worktree_device : option Z;
  j_worktree_inode : option Z;
  j_expected_tip : string
}.
Definition with_phase (p : CleanupPhase.t) (j : CleanupJournal) : CleanupJournal :=
  mk_journal (j_version j) p (j_original_src j) (j_mount_dst j) (j_workspace_name j)
    (j_selector_key j) (j_container_name j) (j_worktree_path j) (j_canonical_worktree_path j)
    (j_scratch_branch j) (j_base_commit j) (j_common_git_dir j) (j_common_identity j)
    (j_registration_name j) (j_registration_identity j) (j_registration_witness j)
    (j_quarantine_name j) (j_quarantine_identity j) (j_worktree_device j) (j_worktree_inode j)
    (j_expected_tip j).

Inductive JournalFile := Journal (j : CleanupJournal) | MalformedJournal.

(** The host repository's [.git]: the formats are what [git rev-parse] prints. *)
Record GitDir := mk_git_dir {
  g_id : Ident;
  g_commondir : option string;
  g_head : option string;
  g_ref_format : string;
  g_object_format : string;
  g_worktrees : option Folder;
  g_quarantine : option Folder;
  g_refs : Refs
}.
Definition set_worktrees (f : option Folder) (g : GitDir) : GitDir :=
  mk_git_dir (g_id g) (g_commondir g) (g_head g) (g_ref_format g) (g_object_format g) f
    (g_quarantine g) (g_refs g).
Definition set_quarantine (f : option Folder) (g : GitDir) : GitDir :=
  mk_git_dir (g_id g) (g_commondir g) (g_head g) (g_ref_format g) (g_object_format g)
    (g_worktrees g) f (g_refs g).
Definition set_refs (r : Refs) (g : GitDir) : GitDir :=
  mk_git_dir (g_id g) (g_commondir g) (g_head g) (g_ref_format g) (g_object_format g)
    (g_worktrees g) (g_quarantine g) r.

(** The state of one container and the repositories its copies come from.
    [trees] has the directories below the container's by path, and [repos] the
    [.git] directories by path. *)
Record Data := mk_data {
  state : StateDir;
  holds : option HoldsFile;
  journals : gmap string JournalFile;
  trees : gmap string DirNode;
  repos : gmap string GitDir
}.
Definition set_state (s : StateDir) (d : Data) : Data :=
  mk_data s (holds d) (journals d) (trees d) (repos d).
Definition set_journals (js : gmap string JournalFile) (d : Data) : Data :=
  mk_data (state d) (holds d) js (trees d) (repos d).
Definition set_trees (ts : gmap string DirNode) (d : Data) : Data :=
  mk_data (state d) (holds d) (journals d) ts (repos d).
Definition set_repos (rs : gmap string GitDir) (d : Data) : Data :=
  mk_data (state d) (holds d) (journals d) (trees d) rs.

(** ** Lock files *)

Module LockDir.
Inductive t := InGit | InDir (id : Ident) | InRefs (dir : string).
#[global] Instance eq_dec : EqDecision t.
Proof. solve_decision. Defined.
#[global] Instance countable : Countable t.
Proof.
  refine (inj_countable'
    (λ l, match l with InGit => inl () | InDir id => inr (inl id) | InRefs d => inr (inr d) end)
    (λ s, match s with inl _ => InGit | inr (inl id) => InDir id | inr (inr d) => InRefs d end) _).
  by intros [].
Defined.
End LockDir.

(** What [jackin-git-lock-v1] records of a lock: the recovery directory and the
    file of its owner, and the place it is for. *)
Record Marker := mk_marker {
  m_recovery : string;
  m_candidate : string;
  m_place : LockDir.t * string
}.
#[global] Instance marker_eq_dec : EqDecision Marker.
Proof. solve_decision. Defined.

(** A lock file: its inode, and its record if it is one of ours. *)
Record LockFile := mk_lock_file { l_inode : Z; l_marker : option Marker }.
#[global] Instance lock_file_eq_dec : EqDecision LockFile.
Proof. solve_decision. Defined.

(** A recovery directory: whether a process holds its lease, whether it has its
    owner record, and the files locks are links to. *)
Record Recovery := mk_recovery {
  r_lease : bool;
  r_owner : bool;
  r_candidates : gmap string LockFile
}.

Record Lock := mk_lock { k_place : LockDir.t * string; k_file : LockFile; k_candidate : string }.

(** The transaction of the running process: [CheckoutInventory], and the prepared
    and the committed deletion that take over its locks and its directory. *)
Record Txn := mk_txn { t_recovery : string; t_locks : list Lock; t_preserve : bool }.

(** The lock files and recovery directories of one [.git] directory, and the
    process: its number, the counters of its names, a source of inodes. *)
Record Locks := mk_locks {
  pid : N;
  next_transaction : N;
  next_quarantine : N;
  next_inode : Z;
  lock_files : gmap (LockDir.t * string) LockFile;
  recoveries : gmap string Recovery;
  txn : option Txn
}.
Definition set_lock_files (f : gmap (LockDir.t * string) LockFile) (k : Locks) : Locks :=
  mk_locks (pid k) (next_transaction k) (next_quarantine k) (next_inode k) f (recoveries k) (txn k).
Definition set_recoveries (f : gmap string Recovery) (k : Locks) : Locks :=
  mk_locks (pid k) (next_transaction k) (next_quarantine k) (next_inode k) (lock_files k) f (txn k).
Definition set_txn (t : option Txn) (k : Locks) : Locks :=
  mk_locks (pid k) (next_transaction k) (next_quarantine k) (next_inode k) (lock_files k) (recoveries k) t.

Record World := mk_world { data : Data; locks : Locks }.
Definition set_data (d : Data) (w : World) : World := mk_world d (locks w).
Definition set_locks (k : Locks) (w : World) : World := mk_world (data w) k.

(** ** Calls that fail *)

(** A call succeeds, fails or crashes before or after its effect, and the removal
    of a directory also midway, with some of its files gone. *)
Inductive fault :=
| Go
| Before (crash : bool)
| After (crash : bool)
| Midway (gone : list string) (crash : bool).

Inductive outcome (A : Type) := Done (a : A) | Failed (e : error) | Crashed.
#[global] Arguments Done {_} _.
#[global] Arguments Failed {_} _.
#[global] Arguments Crashed {_}.

Definition IO (A : Type) : Type := World → list fault → outcome A * World * list fault.

Definition io_error : error := mk_error "I/O failure" "".
Definition stop {A} (crash : bool) : outcome A := if crash then Crashed else Failed io_error.
Definition next_fault (evs : list fault) : fault * list fault :=
  match evs with [] => (Go, []) | e :: evs => (e, evs) end.

#[global] Instance io_ret : MRet IO := λ A a w evs, (Done a, w, evs).
#[global] Instance io_bind : MBind IO := λ A B f m w evs,
  match m w evs with
  | (Done a, w, evs) => f a w evs
  | (Failed e, w, evs) => (Failed e, w, evs)
  | (Crashed, w, evs) => (Crashed, w, evs)
  end.

(** A check that calls nothing. *)
Definition lift {A} (r : res A) : IO A := λ w evs,
  match r with
  | Ok a => (Done a, w, evs)
  | Err e => (Failed e, w, evs)
  | Panic => (Crashed, w, evs)
  end.

(** A call that also synchronises what it changed, so that it can fail with its
    effect done. *)
Definition call {A} (f : World → res (A * World)) : IO A := λ w evs,
  let '(e, evs) := next_fault evs in
  match e with
  | Before c | Midway _ c => (stop c, w, evs)
  | After c => (stop c, match f w with Ok (_, w') => w' | _ => w end, evs)
  | Go =>
      match f w with
      | Ok (a, w') => (Done a, w', evs)
      | Err e => (Failed e, w, evs)
      | Panic => (Crashed, w, evs)
      end
  end.

(** A call that either fails or has its effect. *)
Definition atomic (e : fault) : fault :=
  match e with After false => Before false | e => e end.
Definition syscall {A} (f : World → res (A * World)) : IO A := λ w evs,
  match evs with
  | e :: evs => call f w (atomic e :: evs)
  | [] => call f w []
  end.

(** Calls that read, and calls that change the data or the locks. *)
Definition look {A} (f : Data → res A) : IO A := call (λ w, a ← f (data w); Ok (a, w)).
Definition look_locks {A} (f : Locks → res A) : IO A := call (λ w, a ← f (locks w); Ok (a, w)).
Definition change (f : Data → res Data) : IO () :=
  call (λ w, d ← f (data w); Ok ((), set_data d w)).
Definition on_locks {A} (f : Locks → res (A * Locks)) (w : World) : res (A * World) :=
  '(a, k) ← f (locks w); Ok (a, set_locks k w).
Definition change_locks {A} (f : Locks → res (A * Locks)) : IO A := call (on_locks f).

(** What the process does in its memory. *)
Definition remember (f : Locks → Locks) : IO () := λ w evs,
  (Done (), set_locks (f (locks w)) w, evs).

(** ** Pinned directories ([safe_remove.rs]) *)

(** Where a directory is: a path below the container's directory, an entry of
    [worktrees], or one of the quarantine, of a repository. *)
Module Place.
Inductive t :=
| Tree (path : string)
| Standard (repo name : string)
| Quarantined (repo name : string).
End Place.

Definition folder_dir (f : option Folder) (name : string) : option DirNode :=
  f ← f; f_dirs f !! name.
Definition set_folder_dir (name : string) (n : option DirNode) (f : option Folder) : option Folder :=
  (λ f, mk_folder (f_id f) (partial_alter (λ _, n) name (f_dirs f))) <$> f.

Definition lookup_dir (p : Place.t) (d : Data) : option DirNode :=
  match p with
  | Place.Tree path => trees d !! path
  | Place.Standard repo name => g ← repos d !! repo; folder_dir (g_worktrees g) name
  | Place.Quarantined repo name => g ← repos d !! repo; folder_dir (g_quarantine g) name
  end.
Definition update_repo (repo : string) (f : GitDir → GitDir) (d : Data) : Data :=
  set_repos (alter f repo (repos d)) d.
Definition set_dir (p : Place.t) (n : option DirNode) (d : Data) : Data :=
  match p with
  | Place.Tree path => set_trees (partial_alter (λ _, n) path (trees d)) d
  | Place.Standard repo name =>
      update_repo repo (λ g, set_worktrees (set_folder_dir name n (g_worktrees g)) g) d
  | Place.Quarantined repo name =>
      update_repo repo (λ g, set_quarantine (set_folder_dir name n (g_quarantine g)) g) d
  end.

Record PinnedDir := mk_pin { p_place : Place.t; p_id : Ident }.

Definition pin (p : Place.t) : IO (option PinnedDir) :=
  look (λ d, Ok (mk_pin p ∘ d_id <$> lookup_dir p d)).

(** The directory of a pin, while its entry is still the pinned directory. *)
Definition pinned_node (p : PinnedDir) (d : Data) : res DirNode :=
  match lookup_dir (p_place p) d with
  | Some n => _ ← ensure (bool_decide (d_id n = p_id p)) "path changed during removal"; Ok n
  | None => bail "path changed during removal"
  end.
Definition verify_entry (p : PinnedDir) : IO () := look (λ d, _ ← pinned_node p d; Ok ()).

(** [read_file] refuses files above 64 KiB. *)
Definition bounded (f : option string) : res (option string) :=
  _ ← ensure (match f with Some s => str_len s <=? 65536 | None => true end)
        "metadata exceeds 64 KiB";
  Ok f.
Definition read_file (p : PinnedDir) (name : string) : IO (option string) :=
  look (λ d, n ← pinned_node p d; bounded (d_files n !! name)).

Definition child_name_ok (name : string) : bool :=
  negb (str_in name [""; "."; ".."]) && negb (str_contains "/" name)
  && negb (str_contains (of_bytes [byte_of_Z 0]) name).

(** [PinnedDir::remove]: the contents, then the directory. *)
Definition remove (p : PinnedDir) : IO () := λ w evs,
  match pinned_node p (data w) with
  | Ok n =>
      let '(e, evs) := next_fault evs in
      let gone := set_data (set_dir (p_place p) None (data w)) w in
      match e with
      | Go => (Done (), gone, evs)
      | Before c => (stop c, w, evs)
      | After c => (stop c, gone, evs)
      | Midway names c =>
          let rest := mk_dir (d_id n) (filter (λ f, f.1 ∉ names) (d_files n)) in
          (stop c, set_data (set_dir (p_place p) (Some rest) (data w)) w, evs)
      end
  | Err e => (Failed e, w, evs)
  | Panic => (Crashed, w, evs)
  end.

(** [rename_into]: an atomic rename that replaces nothing. *)
Definition rename_into (p : PinnedDir) (dest : Place.t) : IO PinnedDir :=
  _ ← change (λ d,
        n ← pinned_node p d;
        _ ← ensure (bool_decide (lookup_dir dest d = None)) "destination already exists";
        Ok (set_dir dest (Some n) (set_dir (p_place p) None d)));
  mret (mk_pin dest (p_id p)).

(** ** Locks ([ref_transaction.rs]) *)

Definition recovery_name (pid n : N) : string :=
  "jackin-ref-recovery-" +:+ pretty pid +:+ "-" +:+ pretty n.

(** [recovery_directory]: 32 names are tried. *)
Fixpoint fresh_recovery (tries : nat) (k : Locks) : res (string * Locks) :=
  match tries with
  | O => bail "cannot allocate private ref recovery directory"
  | S tries =>
      let name := recovery_name (pid k) (next_transaction k) in
      let k' := mk_locks (pid k) (next_transaction k + 1)%N (next_quarantine k) (next_inode k)
                  (lock_files k) (recoveries k) (txn k) in
      if bool_decide (recoveries k !! name = None)
      then Ok (name, set_recoveries (<[name := mk_recovery false false ∅]> (recoveries k)) k')
      else fresh_recovery tries k'
  end.

Definition alter_recovery (name : string) (f : Recovery → Recovery) (k : Locks) : Locks :=
  set_recoveries (alter f name (recoveries k)) k.

(** [RecoveryDir::create]: the directory, then its lease and its owner record. *)
Definition begin : IO () :=
  name ← syscall (on_locks (fresh_recovery 32));
  syscall (on_locks (λ k,
    Ok ((), set_txn (Some (mk_txn name [] false))
              (alter_recovery name (λ r, mk_recovery true true (r_candidates r)) k)))).

Definition current_txn (k : Locks) : res Txn :=
  match txn k with Some t => Ok t | None => bail "no transaction" end.

(** [create_lock_candidate]: a new file in the recovery directory. *)
Definition create_lock_candidate (place : LockDir.t * string) : IO (string * LockFile) :=
  change_locks (λ k,
    t ← current_txn k;
    let candidate := "lock-" +:+ pretty (next_transaction k) in
    let file := mk_lock_file (next_inode k) (Some (mk_marker (t_recovery t) candidate place)) in
    rc ← match recoveries k !! t_recovery t with Some rc => Ok rc | None => bail "no recovery directory" end;
    _ ← ensure (bool_decide (r_candidates rc !! candidate = None)) "file exists";
    Ok ((candidate, file),
        mk_locks (pid k) (next_transaction k + 1)%N (next_quarantine k) (next_inode k + 1)
          (lock_files k)
          (<[t_recovery t := mk_recovery (r_lease rc) (r_owner rc)
                               (<[candidate := file]> (r_candidates rc))]> (recoveries k))
          (txn k))).

(** The tests of [reclaim_abandoned_lock]: [None] when there is no lock of ours. *)
Definition reclaimable (place : LockDir.t * string) (k : Locks) : res (option (LockFile * Marker)) :=
  match lock_files k !! place with
  | None => Ok None
  | Some file =>
      match l_marker file with
      | None => Ok None
      | Some m =>
          _ ← ensure (bool_decide (m_place m = place)) "Jackin lock owner does not match this Git lock path";
          rc ← match recoveries k !! m_recovery m with
               | Some rc => Ok rc
               | None => bail "Jackin lock recovery journal is missing; preserve lock and record"
               end;
          _ ← ensure (r_owner rc) "Jackin lock recovery journal has no owner record";
          _ ← ensure (bool_decide (r_candidates rc !! m_candidate m = Some file))
                "Git lock is not the journaled Jackin lock candidate";
          _ ← ensure (negb (r_lease rc))
                "Git lock is held by a live Jackin cleanup transaction; record retained";
          Ok (Some (file, m))
      end
  end.
Definition drop_candidate (recovery candidate : string) (k : Locks) : Locks :=
  alter_recovery recovery
    (λ r, mk_recovery (r_lease r) (r_owner r) (delete candidate (r_candidates r))) k.
Definition unlink_lock (place : LockDir.t * string) (k : Locks) : Locks :=
  set_lock_files (delete place (lock_files k)) k.

Definition reclaim_abandoned_lock (place : LockDir.t * string) : IO bool :=
  found ← look_locks (reclaimable place);
  match found with
  | None => mret false
  | Some (_, m) =>
      _ ← change_locks (λ k, Ok ((), unlink_lock place k));
      _ ← change_locks (λ k, Ok ((), drop_candidate (m_recovery m) (m_candidate m) k));
      mret true
  end.

Definition link_lock (place : LockDir.t * string) (file : LockFile) : IO () :=
  syscall (on_locks (λ k,
    _ ← ensure (bool_decide (lock_files k !! place = None))
          "cannot exclusively acquire lock; record retained";
    Ok ((), set_lock_files (<[place := file]> (lock_files k)) k))).
Definition sync : IO () := look_locks (λ _, Ok ()).

(** The transaction's list of locks and its [preserve] flag are in memory. *)
Definition alter_txn (f : Txn → Txn) (k : Locks) : Locks := set_txn (f <$> txn k) k.
Definition push_lock (l : Lock) : IO () :=
  remember (alter_txn (λ t, mk_txn (t_recovery t) (t_locks t ++ [l]) (t_preserve t))).
Definition take_lock (l : Lock) : IO () :=
  remember (alter_txn (λ t, mk_txn (t_recovery t)
    (filter (λ l', k_place l' ≠ k_place l) (t_locks t)) (t_preserve t))).
Definition set_preserve (b : bool) : Locks → Locks :=
  alter_txn (λ t, mk_txn (t_recovery t) (t_locks t) b).

Definition preserve_on_failure (m : IO ()) : IO () := λ w evs,
  match m w evs with
  | (Failed e, w, evs) => (Failed e, set_locks (set_preserve true (locks w)) w, evs)
  | r => r
  end.

(** [Lock::acquire]: link the candidate to the lock's name, reclaiming the name
    from a crashed transaction first if it is taken.  When the directory cannot be
    synchronised afterwards the link stays, and the recovery directory with it. *)
Definition acquire (place : LockDir.t * string) : IO () :=
  '(candidate, file) ← create_lock_candidate place;
  taken ← look_locks (λ k, Ok (bool_decide (is_Some (lock_files k !! place))));
  _ ← (if taken : bool then
         reclaimed ← reclaim_abandoned_lock place;
         lift (ensure reclaimed "cannot exclusively acquire lock; record retained")
       else mret ());
  _ ← link_lock place file;
  _ ← preserve_on_failure sync;
  push_lock (mk_lock place file candidate).

Definition lock_head (dir : LockDir.t) : IO () := acquire (dir, "HEAD.lock").
Definition lock_registration (id : Ident) : IO () :=
  let place := (LockDir.InDir id, "locked") in
  existing ← look_locks (λ k, Ok (lock_files k !! place));
  _ ← match existing with
      | None => mret ()
      | Some file =>
          match l_marker file with
          | None => lift (bail "worktree registration already has an external lock; record retained")
          | Some _ =>
              reclaimed ← reclaim_abandoned_lock place;
              lift (ensure reclaimed "worktree registration lock changed; record retained")
          end
      end;
  acquire place.

(** [CheckoutInventory::verify] *)
Definition lock_in_place (k : Locks) (l : Lock) : bool :=
  match lock_files k !! k_place l with
  | Some file => l_inode file =? l_inode (k_file l)
  | None => false
  end.
Definition verify_locks : IO () :=
  look_locks (λ k,
    t ← current_txn k;
    ensure (forallb (lock_in_place k) (t_locks t)) "Git lock replaced; record retained").

(** [Lock::cleanup]: the lock, then the file it is a link to. *)
Definition cleanup_lock (l : Lock) : IO () :=
  recovery ← look_locks (λ k,
    t ← current_txn k;
    _ ← ensure (bool_decide (lock_files k !! k_place l = Some (k_file l)))
          "Git lock replaced or disappeared; record retained";
    Ok (t_recovery t));
  _ ← change_locks (λ k, Ok ((), unlink_lock (k_place l) k));
  change_locks (λ k, Ok ((), drop_candidate recovery (k_candidate l) k)).
Definition release (l : Lock) : IO () :=
  _ ← take_lock l; preserve_on_failure (cleanup_lock l).

Fixpoint release_all (ls : list Lock) : IO () :=
  match ls with
  | [] => mret ()
  | l :: ls => _ ← release l; release_all ls
  end.

(** [release_registration]: the two locks of one registration. *)
Definition locks_registration (id : Ident) (l : Lock) : bool :=
  bool_decide (k_place l = (LockDir.InDir id, "HEAD.lock"))
  || bool_decide (k_place l = (LockDir.InDir id, "locked")).
Definition release_registration (id : Ident) : IO () :=
  t ← look_locks current_txn;
  release_all (filter (λ l, locks_registration id l = true) (t_locks t)).

(** A destructor goes on when a call fails. *)
Definition swallow (m : IO ()) : IO () := λ w evs,
  match m w evs with
  | (Failed _, w, evs) => (Done (), w, evs)
  | r => r
  end.
Fixpoint drop_locks (ls : list Lock) : IO () :=
  match ls with
  | [] => mret ()
  | l :: ls => _ ← swallow (release l); drop_locks ls
  end.

(** The end of the transaction: the recovery directory goes unless it is to be
    preserved, and its lease ends with the process's handle. *)
Definition end_lease (k : Locks) : Locks :=
  match txn k with
  | Some t =>
      set_txn None (alter_recovery (t_recovery t)
        (λ r, mk_recovery false (r_owner r) (r_candidates r)) k)
  | None => k
  end.
Definition drop_recovery : IO () := λ w evs,
  match txn (locks w) with
  | Some t =>
      (if t_preserve t then remember end_lease
       else _ ← swallow (change_locks (λ k,
                  Ok ((), set_recoveries (delete (t_recovery t) (recoveries k)) k)));
            remember end_lease) w evs
  | None => (Done (), w, evs)
  end.
Definition drop_txn : IO () := λ w evs,
  match txn (locks w) with
  | Some t => (_ ← drop_locks (t_locks t); drop_recovery) w evs
  | None => (Done (), w, evs)
  end.

(** [CommittedRefDeletion::finish]: the last lock first. *)
Definition finish : IO () :=
  t ← look_locks current_txn;
  _ ← release_all (reverse (t_locks t));
  _ ← remember (set_preserve false);
  drop_recovery.

(** What a crash leaves to the next process, which has its own number and starts
    its counters anew. *)
Definition reboot (p : N) (w : World) : World :=
  let k := end_lease (locks w) in
  set_locks (mk_locks p 0 0 (next_inode k) (lock_files k) (recoveries k) None) w.
