(* ===== verification/Cleanup.v ===== *)
(** * Removal of an isolated work tree

    [jackin-isolation/src/cleanup.rs]: an isolated work tree is a directory below
    the container's, a registration in the host repository's [worktrees], and a
    scratch branch.  They are removed in this order, with a journal that says how
    far the removal has come, so that a removal that failed or crashed can be
    resumed; the record goes last.

    [canonicalize], the digest in the journal's name and the output of
    [git for-each-ref] are parameters. *)

From stdpp Require Import base list gmap strings pretty.
From Stdlib Require Import ZArith Lia Bool.
From S2P Require Import Prelude OrderedMap Paths Config Isolation RefTransaction CleanupWorld.

Definition CLEANUP_JOURNAL_VERSION : Z := 2.
Definition QUARANTINE_DIRECTORY : string := ".jackin-worktree-cleanup".

(** ** Text checks *)

Definition is_hex_oid (s : string) : bool :=
  oid_length (length (as_bytes s)) && forallb ascii_hexdigit (as_bytes s).

Definition no_whitespace (s : string) : bool :=
  bool_decide (find_ws_or (λ _, false) (as_bytes s) = None).
Definition validate_head (head : string) : res () :=
  let head := trim head in
  ensure (match strip_prefix "ref: refs/heads/" head with
          | Some name => negb (str_eqb name "") && no_whitespace name
          | None => false
          end || is_hex_oid head)
    "malformed checkout HEAD; record retained".

(** [scratch_tip] on the rows that [git for-each-ref] prints. *)
Fixpoint tip_rows (branch_ref : string) (observed : gset string) (tip : string) (ls : list string)
    : res string :=
  match ls with
  | [] => Ok tip
  | line :: ls =>
      match split_on is_tab line with
      | [name; object; symref; end_mark] =>
          _ ← ensure (starts_with "refs/heads/" name && str_eqb end_mark "END") "malformed branch inventory";
          _ ← ensure (bool_decide (name ∉ observed)) "duplicate branch inventory row";
          _ ← ensure (str_eqb symref "")
                "symbolic branch reference prevents proving checkout identity; record retained";
          _ ← ensure (is_hex_oid object) "malformed branch object ID";
          tip_rows branch_ref ({[name]} ∪ observed)
            (if str_eqb name branch_ref then object else tip) ls
      | _ => bail "malformed branch inventory"
      end
  end.
Definition parse_tip (branch_ref output : string) : res string :=
  tip_rows branch_ref ∅ "" (lines output).

Definition alnum_or_dash (b : Byte.byte) : bool :=
  between 48 57 (Z_of_byte b) || between 97 122 (Z_of_byte b) || between 65 90 (Z_of_byte b)
  || byte_is 45 b.

Definition quarantine_name (p n : N) : string := "q-" +:+ pretty p +:+ "-" +:+ pretty n.

(** [wt.strip_prefix(root)] *)
Definition strip_path_prefix (root p : string) : option string :=
  if path_starts_with p root
  then Some (collect_path (drop (length (components root)) (components p))) else None.

(** [contained_root]: an absolute path without dots strictly below the root. *)
Definition contained (root p : string) : bool :=
  has_root p && has_root root && negb (has_dot_component p) && negb (has_dot_component root)
  && path_starts_with p root && negb (path_eqb p root).

Module RegistrationLocation.
Inductive t := Standard (d : PinnedDir) | Quarantine (d : PinnedDir) | Missing.
End RegistrationLocation.

Section cleanup.
Context (canonicalize : string → string) (digest : string → string) (for_each_ref : Refs → string).
Context (state_dir : string).

Definition worktree_cleanup_journal_name (dst : string) : string :=
  "worktree-cleanup-" +:+ digest dst +:+ ".json".

Definition git_path (r : IsolationRecord) : string := path_join (original_src r) ".git".
Definition branch_ref (r : IsolationRecord) : string := "refs/heads/" +:+ scratch_branch r.
Definition scratch_head (r : IsolationRecord) : string := "ref: refs/heads/" +:+ scratch_branch r.

(** The canonical paths of the work tree and of the repository's [.git]. *)
Definition canonical_worktree (r : IsolationRecord) : res string :=
  match strip_path_prefix state_dir (worktree_path r) with
  | Some rest => Ok (path_join (canonicalize state_dir) rest)
  | None => bail "prefix not found"
  end.
Definition pinned_git_path (r : IsolationRecord) : string :=
  path_join (canonicalize (original_src r)) ".git".
Definition common_git_dir (r : IsolationRecord) : string := canonicalize (pinned_git_path r).

Definition repo (r : IsolationRecord) (d : Data) : res GitDir :=
  match repos d !! git_path r with
  | Some g => Ok g
  | None => bail "host Git directory missing; record retained"
  end.
Definition look_repo {A} (r : IsolationRecord) (f : GitDir → res A) : IO A :=
  look (λ d, g ← repo r d; f g).
Definition verify_git (r : IsolationRecord) (id : Ident) : IO () :=
  look_repo r (λ g, ensure (bool_decide (g_id g = id)) "path changed during removal").

(** The folders of the repository: their identity while they exist. *)
Definition open_folder (r : IsolationRecord) (sel : GitDir → option Folder) : IO (option Ident) :=
  look_repo r (λ g, Ok (f_id <$> sel g)).
Definition verify_folder (r : IsolationRecord) (sel : GitDir → option Folder) (id : Ident) : IO () :=
  look_repo r (λ g, ensure (bool_decide (f_id <$> sel g = Some id)) "path changed during removal").
Definition entry_names (r : IsolationRecord) (sel : GitDir → option Folder) : IO (list string) :=
  look_repo r (λ g,
    match sel g with
    | Some f => Ok (btree_keys (f_dirs f))
    | None => bail "path changed during removal"
    end).
Definition open_child (p : Place.t) (name : string) : IO (option PinnedDir) :=
  _ ← lift (ensure (child_name_ok name) "expected one normal path component");
  pin p.

Definition scratch_tip (r : IsolationRecord) : IO string :=
  look_repo r (λ g, parse_tip (branch_ref r) (for_each_ref (g_refs g))).

(** ** The journal *)

Definition journal_name (r : IsolationRecord) : string := worktree_cleanup_journal_name (mount_dst r).

Definition persist_journal (r : IsolationRecord) (j : CleanupJournal) : IO () :=
  change (λ d, Ok (set_journals (<[journal_name r := Journal j]> (journals d)) d)).
Definition create_journal (r : IsolationRecord) (j : CleanupJournal) : IO () :=
  change (λ d,
    _ ← ensure (negb (bool_decide (is_Some (journals d !! journal_name r)))) "state file already exists";
    Ok (set_journals (<[journal_name r := Journal j]> (journals d)) d)).
Definition advance_journal (r : IsolationRecord) (j : CleanupJournal) (next : CleanupPhase.t)
    : IO CleanupJournal :=
  if CleanupPhase.order (j_phase j) <? CleanupPhase.order next then
    let j := with_phase next j in _ ← persist_journal r j; mret j
  else mret j.

Definition backlink_ok (r_path canonical gitdir : string) : bool :=
  let backlink := trim_eols gitdir in
  path_eqb backlink (path_join r_path ".git") || path_eqb backlink (path_join canonical ".git").

Definition marker_ok (j : CleanupJournal) (marker : string) : bool :=
  match strip_prefix "gitdir: " (trim_eols marker) with
  | None => false
  | Some m =>
      path_eqb m (path_join (path_join (j_common_git_dir j) "worktrees") (j_registration_name j))
      || path_eqb m (path_join (path_join (path_join (j_original_src j) ".git") "worktrees")
                       (j_registration_name j))
  end.

Definition validate_journal (j : CleanupJournal) (r : IsolationRecord) (canonical common : string)
    (common_identity : Ident) : res () :=
  _ ← ensure ((j_version j =? CLEANUP_JOURNAL_VERSION)
              && str_eqb (j_original_src j) (original_src r)
              && str_eqb (j_mount_dst j) (mount_dst r)
              && bool_decide (j_workspace_name j = workspace_name r)
              && str_eqb (j_selector_key j) (rec_selector_key r)
              && str_eqb (j_container_name j) (container_name r)
              && str_eqb (j_worktree_path j) (worktree_path r)
              && str_eqb (j_canonical_worktree_path j) canonical
              && str_eqb (j_scratch_branch j) (scratch_branch r)
              && str_eqb (j_base_commit j) (base_commit r)
              && str_eqb (j_common_git_dir j) common
              && bool_decide (j_common_identity j = common_identity))
        "worktree cleanup journal identity does not match isolation record; record retained";
  _ ← ensure (child_name_ok (j_registration_name j))
        "worktree cleanup journal contains an invalid path component; record retained";
  _ ← ensure (starts_with "q-" (j_quarantine_name j)
              && forallb alnum_or_dash (as_bytes (j_quarantine_name j)))
        "worktree cleanup journal has an invalid quarantine name; record retained";
  _ ← ensure (Bool.eqb (bool_decide (is_Some (j_worktree_device j)))
                (bool_decide (is_Some (j_worktree_inode j))))
        "worktree cleanup journal has an incomplete worktree identity; record retained";
  _ ← ensure (str_eqb (j_expected_tip j) "" || is_hex_oid (j_expected_tip j))
        "worktree cleanup journal has an invalid scratch reference identity; record retained";
  _ ← validate_head (rw_head (j_registration_witness j));
  _ ← ensure (backlink_ok (j_worktree_path j) canonical (rw_gitdir (j_registration_witness j)))
        "worktree cleanup journal has an invalid registration backlink; record retained";
  _ ← ensure (str_eqb (trim (rw_commondir (j_registration_witness j))) "../..")
        "worktree cleanup journal has an invalid common-directory marker; record retained";
  _ ← ensure (Bool.eqb (bool_decide (is_Some (j_worktree_device j)))
                (bool_decide (is_Some (rw_marker (j_registration_witness j)))))
        "worktree cleanup journal has an incomplete worktree Git marker; record retained";
  match rw_marker (j_registration_witness j) with
  | Some m => ensure (marker_ok j m) "worktree cleanup journal has a mismatched worktree Git marker; record retained"
  | None => Ok ()
  end.

Definition expected_worktree (j : CleanupJournal) : option Ident :=
  match j_worktree_device j, j_worktree_inode j with
  | Some dev, Some ino => Some (dev, ino)
  | _, _ => None
  end.
Definition validate_worktree_identity (j : CleanupJournal) (wt : option PinnedDir) : res () :=
  _ ← ensure (negb (bool_decide (j_phase j = CleanupPhase.Prepared))
              || bool_decide (expected_worktree j = None) || bool_decide (is_Some wt))
        "worktree disappeared before cleanup recorded a removal phase; record retained";
  _ ← ensure ((CleanupPhase.order (j_phase j) <? CleanupPhase.order CleanupPhase.WorktreeRemoved)
              || negb (bool_decide (is_Some wt)))
        "worktree reappeared after cleanup recorded its removal; record retained";
  match expected_worktree j, wt with
  | Some expected, Some actual =>
      ensure (bool_decide (expected = p_id actual))
        "isolated worktree identity changed during cleanup; record retained"
  | None, Some _ =>
      bail "isolated worktree appeared after cleanup was journaled; record retained"
  | _, None => Ok ()
  end.

(** ** The registration *)

Definition need (fmt : string) (o : option string) : IO string :=
  lift (match o with Some s => Ok s | None => bail fmt end).

Definition validate_registration_witness (reg : PinnedDir) (j : CleanupJournal) (canonical : string)
    (wt : option PinnedDir) (allow_missing : bool) : IO () :=
  head ← read_file reg "HEAD";
  head ← need "journaled registration lost HEAD before removal; record retained" head;
  _ ← lift (ensure (str_eqb head (rw_head (j_registration_witness j)))
              "journaled registration HEAD changed; record retained");
  _ ← lift (validate_head head);
  backlink ← read_file reg "gitdir";
  backlink ← need "journaled registration lost backlink before removal; record retained" backlink;
  _ ← lift (ensure (str_eqb backlink (rw_gitdir (j_registration_witness j)))
              "journaled registration backlink changed; record retained");
  _ ← lift (ensure (backlink_ok (j_worktree_path j) canonical backlink)
              "journaled registration backlink no longer points to the worktree; record retained");
  commondir ← read_file reg "commondir";
  commondir ← need "journaled registration lost common-directory marker before removal; record retained" commondir;
  _ ← lift (ensure (str_eqb commondir (rw_commondir (j_registration_witness j))
                    && str_eqb (trim commondir) "../..")
              "journaled registration common-directory marker changed; record retained");
  match wt with
  | None => mret ()
  | Some wt =>
      marker ← read_file wt ".git";
      lift (match marker with
            | Some m =>
                match rw_marker (j_registration_witness j) with
                | Some m' => ensure (str_eqb m m') "journaled worktree Git marker changed; record retained"
                | None => bail "journaled worktree lacks its original Git marker; record retained"
                end
            | None => ensure allow_missing "journaled worktree lost Git marker before removal; record retained"
            end)
  end.

(** A file that may be gone already, but must not have changed. *)
Definition check_remaining (reg : PinnedDir) (name : string) (ok : string → res ()) : IO () :=
  f ← read_file reg name;
  match f with Some s => lift (ok s) | None => mret () end.
Definition validate_remaining_registration_witness (reg : PinnedDir) (j : CleanupJournal) : IO () :=
  let w := j_registration_witness j in
  _ ← check_remaining reg "HEAD" (λ head,
        _ ← ensure (str_eqb head (rw_head w)) "journaled registration HEAD changed during removal; record retained";
        validate_head head);
  _ ← check_remaining reg "gitdir" (λ backlink,
        ensure (str_eqb backlink (rw_gitdir w)
                && backlink_ok (j_worktree_path j) (j_canonical_worktree_path j) backlink)
          "journaled registration backlink changed during removal; record retained");
  check_remaining reg "commondir" (λ commondir,
    ensure (str_eqb commondir (rw_commondir w) && str_eqb (trim commondir) "../..")
      "journaled registration common-directory marker changed during removal; record retained").

Definition open_exact_child (p : Place.t) (name : string) (id : Ident) : IO (option PinnedDir) :=
  dir ← open_child p name;
  match dir with
  | None => mret None
  | Some dir =>
      _ ← lift (ensure (bool_decide (p_id dir = id))
                  "journaled worktree registration identity changed; record retained");
      _ ← verify_entry dir;
      mret (Some dir)
  end.

Definition validate_standard_target_registration (r : IsolationRecord) (git_id : Ident)
    (j : CleanupJournal) (wt : option PinnedDir) (allow_missing : bool) : IO () :=
  _ ← verify_git r git_id;
  worktrees ← open_folder r g_worktrees;
  match worktrees with
  | None => lift (bail "worktree registration parent disappeared; cleanup journal retained")
  | Some wid =>
      _ ← verify_folder r g_worktrees wid;
      reg ← open_exact_child (Place.Standard (git_path r) (j_registration_name j))
              (j_registration_name j) (j_registration_identity j);
      match reg with
      | None => lift (bail "journaled registration disappeared before its removal phase; journal retained")
      | Some reg =>
          _ ← validate_registration_witness reg j (j_canonical_worktree_path j) wt allow_missing;
          _ ← verify_entry reg;
          _ ← verify_folder r g_worktrees wid;
          verify_git r git_id
      end
  end.

(** ** Inventories of checkouts *)

Definition read_host_head (r : IsolationRecord) : IO string :=
  head ← look_repo r (λ g, bounded (g_head g));
  need "missing host HEAD; record retained" head.
Definition host_head_unchanged (r : IsolationRecord) (head : string) : IO () :=
  look_repo r (λ g,
    h ← bounded (g_head g);
    ensure (bool_decide (trim <$> h = Some (trim head))) "host HEAD changed; record retained").
Definition names_unchanged (r : IsolationRecord) (names : list string) : IO () :=
  now ← entry_names r g_worktrees;
  lift (ensure (bool_decide (now = names)) "worktree registration inventory changed; record retained").

(** The host's [HEAD], which must not be on the scratch branch. *)
Definition admit_host_head (r : IsolationRecord) : IO string :=
  host_head ← read_host_head r;
  _ ← lift (validate_head host_head);
  _ ← lift (ensure (negb (str_eqb (trim host_head) (scratch_head r)))
              "scratch branch is checked out in host repository; record retained");
  mret host_head.

Definition open_registration (r : IsolationRecord) (name : string) : IO PinnedDir :=
  candidate ← open_child (Place.Standard (git_path r) name) name;
  match candidate with
  | Some c => mret c
  | None => lift (bail "worktree registration changed; record retained")
  end.

(** Another registration: not on the scratch branch, not of this work tree. *)
Definition admit_sibling (r : IsolationRecord) (canonical : string) (c : PinnedDir) : IO () :=
  head ← read_file c "HEAD";
  head ← need "missing sibling worktree HEAD; record retained" head;
  _ ← lift (validate_head head);
  _ ← lift (ensure (negb (str_eqb (trim head) (scratch_head r)))
              "scratch branch is checked out in another worktree; record retained");
  backlink ← read_file c "gitdir";
  backlink ← need "incomplete sibling worktree registration; record retained" backlink;
  lift (ensure (negb (backlink_ok (worktree_path r) canonical backlink))
          "duplicate registration points to the journaled worktree; record retained").

Definition lock_candidate (c : PinnedDir) : IO () :=
  _ ← lock_head (LockDir.InDir (p_id c)); lock_registration (p_id c).

Fixpoint lock_recovery_loop (r : IsolationRecord) (j : CleanupJournal) (canonical : string)
    (names : list string) (target : option PinnedDir) : IO (option PinnedDir) :=
  match names with
  | [] => mret target
  | name :: names =>
      c ← open_registration r name;
      _ ← verify_entry c;
      _ ← lock_candidate c;
      if str_eqb name (j_registration_name j) then
        _ ← lift (ensure (bool_decide (p_id c = j_registration_identity j))
                    "journaled worktree registration path was replaced; record retained");
        _ ← lift (ensure (negb (bool_decide (is_Some target)))
                    "duplicate journaled worktree registration; record retained");
        lock_recovery_loop r j canonical names (Some c)
      else
        _ ← admit_sibling r canonical c;
        lock_recovery_loop r j canonical names target
  end.

Definition lock_recovery_inventory (r : IsolationRecord) (j : CleanupJournal) (canonical : string)
    : IO (option PinnedDir) :=
  _ ← lock_head LockDir.InGit;
  host_head ← admit_host_head r;
  worktrees ← open_folder r g_worktrees;
  match worktrees with
  | None => _ ← verify_locks; mret None
  | Some wid =>
      names ← entry_names r g_worktrees;
      target ← lock_recovery_loop r j canonical names None;
      _ ← verify_folder r g_worktrees wid;
      _ ← names_unchanged r names;
      _ ← host_head_unchanged r host_head;
      _ ← verify_locks;
      mret target
  end.

Fixpoint inventory_loop (r : IsolationRecord) (canonical : string) (target : option (string * Ident))
    (names : list string) : IO () :=
  match names with
  | [] => mret ()
  | name :: names =>
      c ← open_registration r name;
      _ ← verify_entry c;
      _ ← match target with
          | Some (target_name, target_id) =>
              if str_eqb name target_name then
                lift (ensure (bool_decide (p_id c = target_id))
                        "journaled registration path was replaced before ref deletion; record retained")
              else
                _ ← lift (ensure (negb (bool_decide (p_id c = target_id)))
                            "journaled registration moved before ref deletion; record retained");
                admit_sibling r canonical c
          | None => admit_sibling r canonical c
          end;
      inventory_loop r canonical target names
  end.

Definition verify_scratch_checkout_inventory (r : IsolationRecord) (canonical : string)
    (target : option (string * Ident)) : IO () :=
  host_head ← admit_host_head r;
  worktrees ← open_folder r g_worktrees;
  match worktrees with
  | None => host_head_unchanged r host_head
  | Some wid =>
      names ← entry_names r g_worktrees;
      _ ← inventory_loop r canonical target names;
      _ ← verify_folder r g_worktrees wid;
      _ ← names_unchanged r names;
      host_head_unchanged r host_head
  end.

Fixpoint lock_all (r : IsolationRecord) (names : list string) : IO (list (string * PinnedDir)) :=
  match names with
  | [] => mret []
  | name :: names =>
      c ← open_registration r name;
      _ ← lock_candidate c;
      _ ← verify_entry c;
      rest ← lock_all r names;
      mret ((name, c) :: rest)
  end.

(** The marker file of the work tree, which must name the registration. *)
Definition found_marker_ok (r : IsolationRecord) (name marker : string) : bool :=
  match strip_prefix "gitdir: " (trim_eols marker) with
  | None => false
  | Some m =>
      path_eqb m (path_join (path_join (pinned_git_path r) "worktrees") name)
      || path_eqb m (path_join (path_join (git_path r) "worktrees") name)
  end.

Fixpoint find_loop (r : IsolationRecord) (canonical : string) (wt : option PinnedDir)
    (regs : list (string * PinnedDir)) (found : option (string * PinnedDir * RegistrationWitness))
    : IO (option (string * PinnedDir * RegistrationWitness)) :=
  match regs with
  | [] => mret found
  | (name, c) :: regs =>
      head ← read_file c "HEAD";
      head ← need "missing worktree HEAD; record retained" head;
      _ ← lift (validate_head head);
      backlink ← read_file c "gitdir";
      backlink ← need "incomplete worktree registration without cleanup journal; record retained" backlink;
      if negb (backlink_ok (worktree_path r) canonical backlink) then
        _ ← lift (ensure (negb (str_eqb (trim head) (scratch_head r)))
                    "scratch branch is checked out in another worktree; record retained");
        find_loop r canonical wt regs found
      else
        commondir ← read_file c "commondir";
        commondir ← need "missing matching worktree common-directory marker; record retained" commondir;
        _ ← lift (ensure (str_eqb (trim commondir) "../..")
                    "invalid matching worktree common-directory marker; record retained");
        marker ← match wt with
                 | None => mret None
                 | Some wt =>
                     m ← read_file wt ".git";
                     m ← need "missing worktree Git marker; record retained" m;
                     _ ← lift (ensure (found_marker_ok r name m)
                                 "worktree Git marker does not match registration; record retained");
                     mret (Some m)
                 end;
        _ ← lift (ensure (negb (bool_decide (is_Some found))) "ambiguous worktree registration; record retained");
        find_loop r canonical wt regs (Some (name, c, mk_reg_witness head backlink commondir marker))
  end.

Fixpoint recheck_heads (regs : list (string * PinnedDir)) : IO () :=
  match regs with
  | [] => mret ()
  | (_, c) :: regs =>
      _ ← verify_entry c;
      head ← read_file c "HEAD";
      _ ← need "missing worktree HEAD; record retained" head;
      recheck_heads regs
  end.

Definition find_registration (r : IsolationRecord) (canonical : string) (wt : option PinnedDir)
    : IO (option (string * PinnedDir * RegistrationWitness)) :=
  _ ← lock_head LockDir.InGit;
  host_head ← admit_host_head r;
  worktrees ← open_folder r g_worktrees;
  match worktrees with
  | None => _ ← verify_locks; mret None
  | Some wid =>
      names ← entry_names r g_worktrees;
      regs ← lock_all r names;
      _ ← verify_folder r g_worktrees wid;
      _ ← names_unchanged r names;
      _ ← host_head_unchanged r host_head;
      found ← find_loop r canonical wt regs None;
      _ ← names_unchanged r names;
      _ ← recheck_heads regs;
      _ ← verify_locks;
      match found with
      | None => mret None
      | Some (name, dir, w) => _ ← verify_entry dir; mret (Some (name, dir, w))
      end
  end.

(** ** The branch *)

Definition zeros (n : nat) : bytes := replicate n (byte_of_Z 48).
Definition ref_dir (ref : string) : string :=
  join "/" (removelast (split_on slash ref)).
Definition ref_leaf (ref : string) : string := List.last (split_on slash ref) "".

(** [prepare_reference_deletion] with [prepare_with_checkout]. *)
Definition prepare_reference_deletion (r : IsolationRecord) (tip : string) : IO PreparedRefDeletion :=
  let ref := branch_ref r in
  fmt ← look_repo r (λ g, Ok (g_ref_format g));
  _ ← lift (ensure (str_eqb (trim fmt) "files") "unsupported repository reference format; record retained");
  expected ← (if str_eqb tip "" then
                fmt ← look_repo r (λ g, Ok (g_object_format g));
                lift (if str_eqb (trim fmt) "sha1" then Ok (zeros 40)
                      else if str_eqb (trim fmt) "sha256" then Ok (zeros 64)
                      else bail "unknown repository object format; record retained")
              else mret (as_bytes tip));
  _ ← lift (check_ref ref expected);
  _ ← acquire (LockDir.InRefs (ref_dir ref), ref_leaf ref +:+ ".lock");
  _ ← acquire (LockDir.InGit, "packed-refs.lock");
  look_repo r (λ g, read_prepared (g_refs g) ref expected).

Definition change_refs (r : IsolationRecord) (f : Refs → Refs) : IO () :=
  change (λ d, _ ← repo r d; Ok (update_repo (git_path r) (λ g, set_refs (f (g_refs g)) g) d)).

(** [PreparedRefDeletion::commit]: from the first change to the last check the
    recovery directory is to be preserved. *)
Definition commit (r : IsolationRecord) (p : PreparedRefDeletion) : IO () :=
  _ ← verify_locks;
  _ ← look_repo r (λ g, verify_snapshots p (g_refs g));
  if nothing_to_delete p then mret () else
  _ ← remember (set_preserve true);
  _ ← (if pr_packed_candidate p is Some _ then change_refs r (exchange_packed p) else mret ());
  _ ← (if pr_loose p is Some _ then change_refs r (quarantine_loose p) else mret ());
  _ ← (if pr_reflog p is Some _ then change_refs r (quarantine_reflog p) else mret ());
  _ ← look_repo r (λ g, verify_deleted p (g_refs g));
  remember (set_preserve false).

(** ** The phases *)

Definition phase_before (j : CleanupJournal) (p : CleanupPhase.t) : bool :=
  CleanupPhase.order (j_phase j) <? CleanupPhase.order p.

(** [pin_dir_contained] on the work tree. *)
Definition pin_worktree (r : IsolationRecord) : IO (option PinnedDir) :=
  _ ← lift (ensure (contained state_dir (worktree_path r)) "path escapes containment root");
  pin (Place.Tree (worktree_path r)).
Definition ensure_worktree_absent (r : IsolationRecord) : IO () :=
  wt ← pin_worktree r;
  lift (ensure (bool_decide (wt = None)) "isolated worktree remains after cleanup; cleanup journal retained").

Definition standard_place (r : IsolationRecord) (j : CleanupJournal) : Place.t :=
  Place.Standard (git_path r) (j_registration_name j).
Definition quarantine_place (r : IsolationRecord) (j : CleanupJournal) : Place.t :=
  Place.Quarantined (git_path r) (j_quarantine_name j).

Definition ensure_registration_absent (r : IsolationRecord) (j : CleanupJournal) : IO () :=
  worktrees ← open_folder r g_worktrees;
  _ ← match worktrees with
      | None => mret ()
      | Some _ =>
          reg ← open_exact_child (standard_place r j) (j_registration_name j) (j_registration_identity j);
          lift (ensure (bool_decide (reg = None))
                  "worktree registration remains in Git metadata; cleanup journal retained")
      end;
  reg ← open_exact_child (quarantine_place r j) (j_quarantine_name j) (j_registration_identity j);
  lift (ensure (bool_decide (reg = None))
          "worktree registration remains in cleanup quarantine; cleanup journal retained").

Definition remove_worktree_phase (r : IsolationRecord) (git_id quarantine_id : Ident)
    (wt : option PinnedDir) (j : CleanupJournal) : IO CleanupJournal :=
  let removal_already_started := bool_decide (j_phase j = CleanupPhase.RemovingWorktree) in
  _ ← lift (validate_worktree_identity j wt);
  _ ← verify_git r git_id;
  _ ← verify_folder r g_quarantine quarantine_id;
  _ ← (if bool_decide (j_phase j = CleanupPhase.Prepared) || removal_already_started
       then validate_standard_target_registration r git_id j wt removal_already_started
       else mret ());
  j ← advance_journal r j CleanupPhase.RemovingWorktree;
  _ ← match wt with
      | Some wt => _ ← verify_git r git_id; remove wt
      | None => mret ()
      end;
  _ ← ensure_worktree_absent r;
  advance_journal r j CleanupPhase.WorktreeRemoved.

(** The branch may be gone already, and is never another one than journaled. *)
Definition tip_admitted (j : CleanupJournal) (tip : string) : bool :=
  str_eqb tip ""
  || (phase_before j CleanupPhase.ReferenceRemoved && str_eqb tip (j_expected_tip j)).

Definition commit_cleanup_reference (r : IsolationRecord) (git_id : Ident) (j : CleanupJournal)
    (deletion : PreparedRefDeletion) : IO CleanupJournal :=
  j ← advance_journal r j CleanupPhase.DeletingReference;
  _ ← verify_git r git_id;
  current_tip ← scratch_tip r;
  _ ← lift (ensure (tip_admitted j current_tip)
              "scratch branch changed before ref deletion; cleanup journal retained");
  _ ← (if phase_before j CleanupPhase.ReferenceRemoved
       then validate_standard_target_registration r git_id j None false else mret ());
  _ ← verify_scratch_checkout_inventory r (j_canonical_worktree_path j)
        (Some (j_registration_name j, j_registration_identity j));
  _ ← commit r deletion;
  tip ← scratch_tip r;
  _ ← lift (ensure (str_eqb tip "") "scratch branch remains; cleanup journal retained");
  advance_journal r j CleanupPhase.ReferenceRemoved.

Definition remove_registration_phase (r : IsolationRecord) (git_id quarantine_id : Ident)
    (j : CleanupJournal) (location : RegistrationLocation.t) : IO CleanupJournal :=
  let removal_started := negb (phase_before j CleanupPhase.RemovingRegistration) in
  '(j, registration) ← match location with
    | RegistrationLocation.Standard dir =>
        j ← advance_journal r j CleanupPhase.QuarantiningRegistration;
        _ ← validate_registration_witness dir j (j_canonical_worktree_path j) None false;
        worktrees ← open_folder r g_worktrees;
        match worktrees with
        | None => lift (bail "worktree registration parent disappeared; cleanup journal retained")
        | Some wid =>
            _ ← verify_folder r g_worktrees wid;
            _ ← verify_git r git_id;
            dir ← rename_into dir (quarantine_place r j);
            _ ← verify_folder r g_worktrees wid;
            _ ← lift (ensure (bool_decide (p_id dir = j_registration_identity j))
                        "quarantined worktree registration identity changed; cleanup journal retained");
            _ ← verify_entry dir;
            _ ← validate_registration_witness dir j (j_canonical_worktree_path j) None false;
            j ← advance_journal r j CleanupPhase.RemovingRegistration;
            mret (j, Some dir)
        end
    | RegistrationLocation.Quarantine dir =>
        _ ← lift (ensure (bool_decide (p_id dir = j_registration_identity j))
                    "quarantined worktree registration identity changed; cleanup journal retained");
        _ ← (if phase_before j CleanupPhase.RemovingRegistration
             then validate_registration_witness dir j (j_canonical_worktree_path j) None false
             else mret ());
        j ← advance_journal r j CleanupPhase.RemovingRegistration;
        mret (j, Some dir)
    | RegistrationLocation.Missing => mret (j, None)
    end;
  _ ← match registration with
      | None => mret ()
      | Some dir =>
          _ ← verify_locks;
          _ ← verify_folder r g_quarantine quarantine_id;
          _ ← release_registration (p_id dir);
          _ ← verify_folder r g_quarantine quarantine_id;
          _ ← (if removal_started then validate_remaining_registration_witness dir j
               else validate_registration_witness dir j (j_canonical_worktree_path j) None false);
          remove dir
      end;
  _ ← ensure_registration_absent r j;
  advance_journal r j CleanupPhase.RegistrationRemoved.

Definition ensure_no_tip (r : IsolationRecord) (fmt : string) : IO () :=
  tip ← scratch_tip r; lift (ensure (str_eqb tip "") fmt).

Definition remove_journal (r : IsolationRecord) : IO () :=
  change (λ d, Ok (set_journals (delete (journal_name r) (journals d)) d)).
Definition remove_own_record (r : IsolationRecord) : IO () :=
  change (λ d, s ← remove_record_if_matches r state_dir (state d); Ok (set_state s d)).

Definition finalize_cleanup (r : IsolationRecord) (git_id quarantine_id : Ident)
    (j : CleanupJournal) : IO () :=
  _ ← verify_git r git_id;
  _ ← verify_folder r g_quarantine quarantine_id;
  _ ← ensure_worktree_absent r;
  _ ← ensure_registration_absent r j;
  _ ← ensure_no_tip r "scratch branch reappeared during cleanup; cleanup journal retained";
  _ ← finish;
  _ ← verify_git r git_id;
  _ ← verify_folder r g_quarantine quarantine_id;
  _ ← ensure_no_tip r "scratch branch reappeared after ref lock release; cleanup journal retained";
  _ ← ensure_worktree_absent r;
  _ ← ensure_registration_absent r j;
  _ ← remove_journal r;
  remove_own_record r.

Definition execute_cleanup (r : IsolationRecord) (git_id quarantine_id : Ident)
    (wt : option PinnedDir) (j : CleanupJournal) (location : RegistrationLocation.t)
    (deletion : PreparedRefDeletion) : IO () :=
  j ← remove_worktree_phase r git_id quarantine_id wt j;
  j ← commit_cleanup_reference r git_id j deletion;
  j ← remove_registration_phase r git_id quarantine_id j location;
  finalize_cleanup r git_id quarantine_id j.

(** ** Starting and resuming *)

(** [next_quarantine_name]: 32 names are tried. *)
Fixpoint next_quarantine_name (tries : nat) (names : list string) (k : Locks) : res (string * Locks) :=
  match tries with
  | O => bail "worktree cleanup quarantine names exhausted; record retained"
  | S tries =>
      let name := quarantine_name (pid k) (next_quarantine k) in
      let k := mk_locks (pid k) (next_transaction k) (next_quarantine k + 1)%N (next_inode k)
                 (lock_files k) (recoveries k) (txn k) in
      if str_in name names then next_quarantine_name tries names k else Ok (name, k)
  end.

(** [create_child_dir(QUARANTINE_DIRECTORY)], a new directory with the inode [ino]
    unless it is there. *)
Definition create_quarantine (r : IsolationRecord) (ino : Z) : IO () :=
  change (λ d,
    g ← repo r d;
    Ok (update_repo (git_path r)
          (λ g, set_quarantine (Some (default (mk_folder ((g_id g).1, ino) ∅) (g_quarantine g))) g) d)).

Definition start_fresh_cleanup (r : IsolationRecord) (git_id : Ident) (canonical : string)
    (wt : option PinnedDir) : IO () :=
  _ ← begin;
  registration ← find_registration r canonical wt;
  tip ← scratch_tip r;
  _ ← lift (ensure (bool_decide (is_Some registration)
                    || (bool_decide (wt = None) && str_eqb tip ""))
              "worktree or scratch branch exists without matching worktree registration; record retained");
  deletion ← prepare_reference_deletion r tip;
  match registration with
  | None =>
      current_tip ← scratch_tip r;
      _ ← lift (ensure (str_eqb current_tip "" || str_eqb current_tip tip)
                  "scratch branch changed before cleanup; record retained");
      _ ← verify_scratch_checkout_inventory r canonical None;
      _ ← commit r deletion;
      _ ← ensure_no_tip r "scratch branch remains; record retained";
      _ ← finish;
      _ ← verify_git r git_id;
      _ ← ensure_no_tip r "scratch branch reappeared after lock release; record retained";
      remove_own_record r
  | Some (name, dir, witness) =>
      ino ← change_locks (λ k,
        Ok (next_inode k, mk_locks (pid k) (next_transaction k) (next_quarantine k) (next_inode k + 1)
                            (lock_files k) (recoveries k) (txn k)));
      _ ← create_quarantine r ino;
      qid ← open_folder r g_quarantine;
      match qid with
      | None => lift (bail "created directory disappeared while pinning")
      | Some quarantine_id =>
          names ← entry_names r g_quarantine;
          qname ← change_locks (next_quarantine_name 32 names);
          let j := mk_journal CLEANUP_JOURNAL_VERSION CleanupPhase.Prepared (original_src r)
            (mount_dst r) (workspace_name r) (rec_selector_key r) (container_name r)
            (worktree_path r) canonical (scratch_branch r) (base_commit r) (common_git_dir r) git_id
            name (p_id dir) witness qname quarantine_id (fst ∘ p_id <$> wt) (snd ∘ p_id <$> wt) tip in
          _ ← create_journal r j;
          execute_cleanup r git_id quarantine_id wt j (RegistrationLocation.Standard dir) deletion
      end
  end.

Definition resume_cleanup (r : IsolationRecord) (git_id : Ident) (canonical : string)
    (wt : option PinnedDir) (j : CleanupJournal) : IO () :=
  _ ← lift (validate_worktree_identity j wt);
  quarantine ← open_folder r g_quarantine;
  match quarantine with
  | None => lift (bail "worktree cleanup quarantine is missing; record retained")
  | Some quarantine_id =>
      _ ← lift (ensure (bool_decide (quarantine_id = j_quarantine_identity j))
                  "worktree cleanup quarantine identity changed; record retained");
      _ ← verify_folder r g_quarantine quarantine_id;
      _ ← begin;
      standard ← lock_recovery_inventory r j canonical;
      quarantined ← open_exact_child (quarantine_place r j) (j_quarantine_name j)
                      (j_registration_identity j);
      _ ← lift (ensure (bool_decide (standard = None) || bool_decide (quarantined = None))
                  "worktree registration exists in both standard and quarantine paths; record retained");
      _ ← match standard, quarantined with
          | None, Some dir => lock_candidate dir
          | _, _ => mret ()
          end;
      let location := match standard, quarantined with
                      | Some dir, _ => RegistrationLocation.Standard dir
                      | None, Some dir => RegistrationLocation.Quarantine dir
                      | None, None => RegistrationLocation.Missing
                      end in
      _ ← (if phase_before j CleanupPhase.RemovingRegistration then
             match location with
             | RegistrationLocation.Standard dir | RegistrationLocation.Quarantine dir =>
                 validate_registration_witness dir j canonical wt
                   (bool_decide (j_phase j = CleanupPhase.RemovingWorktree))
             | RegistrationLocation.Missing =>
                 lift (bail "journaled registration disappeared before removal was recorded; record retained")
             end
           else
             lift (ensure (match location with RegistrationLocation.Standard _ => false | _ => true end)
                     "journaled registration reappeared at its Git path; record retained"));
      _ ← (if bool_decide (j_phase j = CleanupPhase.RegistrationRemoved) then
             lift (ensure (match location with RegistrationLocation.Missing => true | _ => false end)
                     "journaled registration reappeared after removal; record retained")
           else mret ());
      tip ← scratch_tip r;
      _ ← lift (ensure (tip_admitted j tip)
                  "scratch branch changed since cleanup was journaled; record retained");
      deletion ← prepare_reference_deletion r tip;
      execute_cleanup r git_id quarantine_id wt j location deletion
  end.

Definition force_cleanup_clone (r : IsolationRecord) : IO () :=
  _ ← lift (ensure (path_eqb (worktree_path r)
                      (clone_path_for state_dir (mount_dst r) (container_name r)))
              "clone path does not match mount and container identity; record retained");
  dir ← pin_worktree r;
  _ ← match dir with Some dir => remove dir | None => mret () end;
  _ ← look (λ d, ensure (bool_decide (trees d !! worktree_path r = None)) "clone still present");
  remove_own_record r.

(** [lock_worktree_registry] keeps the other processes of the program out of the
    repository until this one is done: here there are none, so the call can only
    fail or succeed. *)
Definition lock_worktree_registry (r : IsolationRecord) : IO () := look_repo r (λ _, Ok ()).

Definition cleanup_body (r : IsolationRecord) : IO () :=
  _ ← look (λ d, check_removal (holds d) (worktree_path r));
  if bool_decide (rec_isolation r = MountIsolation.Clone) then
    _ ← look (λ d, ensure (negb (bool_decide (is_Some (journals d !! journal_name r))))
                     "worktree cleanup journal does not match clone record; record retained");
    force_cleanup_clone r
  else
  _ ← lift (ensure (bool_decide (rec_isolation r = MountIsolation.Worktree))
              "unsupported isolation cleanup record; record retained");
  _ ← lift (ensure (str_eqb (scratch_branch r) (branch_name (container_name r) None))
              "scratch branch does not match container identity; record retained");
  _ ← lift (ensure (path_eqb (worktree_path r)
                      (worktree_path_for state_dir (mount_dst r) (container_name r)))
              "worktree path does not match mount and container identity; record retained");
  wt ← pin_worktree r;
  _ ← match wt with Some wt => verify_entry wt | None => mret () end;
  canonical ← lift (canonical_worktree r);
  git_id ← look_repo r (λ g, Ok (g_id g));
  _ ← verify_git r git_id;
  _ ← look_repo r (λ g,
        c ← bounded (g_commondir g);
        ensure (bool_decide (c = None)) "host Git directory is not the common directory; record retained");
  _ ← verify_git r git_id;
  _ ← lock_worktree_registry r;
  journal ← look (λ d, Ok (journals d !! journal_name r));
  match journal with
  | Some MalformedJournal => lift (bail "cannot parse worktree cleanup journal; record retained")
  | Some (Journal j) =>
      _ ← lift (validate_journal j r canonical (common_git_dir r) git_id);
      resume_cleanup r git_id canonical wt j
  | None => start_fresh_cleanup r git_id canonical wt
  end.

(** When the function returns early the locks it holds are released by their
    destructors. *)
Definition force_cleanup_isolated (r : IsolationRecord) : IO () := λ w evs,
  match cleanup_body r w evs with
  | (Failed e, w, evs) => (_ ← drop_txn; lift (Err e)) w evs
  | result => result
  end.

(** [purge_isolated_for_container]: every record is tried; the failed ones are
    reported. *)
Fixpoint purge_loop (records : list IsolationRecord) (failed : list string) : IO (list string) :=
  match records with
  | [] => mret failed
  | r :: records => λ w evs,
      match force_cleanup_isolated r w evs with
      | (Done _, w, evs) => purge_loop records failed w evs
      | (Failed _, w, evs) => purge_loop records (failed ++ [mount_dst r]) w evs
      | (Crashed, w, evs) => (Crashed, w, evs)
      end
  end.
Definition purge_isolated_for_container : IO () :=
  records ← look (λ d, read_records state_dir (state d));
  failed ← purge_loop records [];
  lift (match failed with
        | [] => Ok ()
        | _ => bail_at "purge partially failed" (join ", " failed)
        end).
End cleanup.
