(* ===== verification/CleanupLogic.v ===== *)
(** * A logic for calls that fail and crash, and the locks in it

    [wp m Q C w]: run from [w] under any faults, [m] either ends in a world and
    with a result of which [Q] holds, or stops in a world of which [C] holds, with
    the flag that tells a crash from an error, and it stops only if some call was
    made to fail.  So one proof shows both what an
    interrupted run leaves behind and that an undisturbed run ends well.

    The locks of a transaction are specified here once: acquiring a lock succeeds
    when the place is free or its lock was left by a dead transaction, and at
    every moment each lock file can be reclaimed once its owner is gone. *)

From stdpp Require Import base list gmap strings pretty.
From Stdlib Require Import ZArith Lia Bool.
From S2P Require Import Prelude OrderedMap Paths Config Isolation RefTransaction CleanupWorld.

(** ** The logic *)

Definition calm (evs : list fault) : Prop := Forall (eq Go) evs.

Definition wp {A} (m : IO A) (Q : A → World → Prop) (C : bool → World → Prop) (w : World) : Prop :=
  ∀ evs,
    match m w evs with
    | (Done a, w', evs') => Q a w' ∧ (calm evs → calm evs')
    | (Failed _, w', _) => C false w' ∧ ¬ calm evs
    | (Crashed, w', _) => C true w' ∧ ¬ calm evs
    end.

Section logic.
Context {A : Type}.
Implicit Types (Q : A → World → Prop) (C : bool → World → Prop).

Lemma wp_ret Q C a w : Q a w → wp (mret a) Q C w.
Proof. by intros HQ evs. Qed.

Lemma wp_mono (m : IO A) Q Q' C w : wp m Q C w → (∀ a w, Q a w → Q' a w) → wp m Q' C w.
Proof.
  intros H HQ evs. specialize (H evs). destruct (m w evs) as [[[a|e|] w'] evs']; naive_solver.
Qed.

Lemma wp_lift Q C (r : res A) a w : r = Ok a → Q a w → wp (lift r) Q C w.
Proof. intros -> HQ evs. done. Qed.

Lemma next_fault_go evs e evs' :
  next_fault evs = (e, evs') → (calm evs → e = Go ∧ calm evs') ∧ (e ≠ Go → ¬ calm evs).
Proof.
  destruct evs as [|e0 evs]; cbn; intros [= <- <-]; [by split; [constructor|]|].
  split; [intros H; inversion H; by subst|]. intros Hne H. inversion H; by subst.
Qed.

Lemma wp_call_weak Q C (f : World → res (A * World)) a w w' evs e evs' :
  f w = Ok (a, w') → (∀ b, C b w) → C true w' → (e = After false → C false w') → Q a w' →
  next_fault evs = (e, evs') →
  match call f w evs with
  | (Done a, w', evs') => Q a w' ∧ (calm evs → calm evs')
  | (Failed _, w', _) => C false w' ∧ ¬ calm evs
  | (Crashed, w', _) => C true w' ∧ ¬ calm evs
  end.
Proof.
  intros Hf HC HC' HC'' HQ E. unfold call. rewrite E. apply next_fault_go in E as [Hc Hn].
  rewrite Hf. destruct e as [|c|c|g c]; [by split; [|apply Hc]|..];
    destruct c; cbn; split; auto; by apply Hn.
Qed.

Lemma wp_call Q C (f : World → res (A * World)) a w w' :
  f w = Ok (a, w') → (∀ b, C b w) → (∀ b, C b w') → Q a w' → wp (call f) Q C w.
Proof.
  intros Hf HC HC' HQ evs. destruct (next_fault evs) as [e evs'] eqn:E.
  by apply (wp_call_weak Q C f a w w' evs e evs').
Qed.

(** A call that does not fail with its effect done. *)
Lemma wp_syscall Q C (f : World → res (A * World)) a w w' :
  f w = Ok (a, w') → (∀ b, C b w) → C true w' → Q a w' → wp (syscall f) Q C w.
Proof.
  intros Hf HC HC' HQ evs. unfold syscall. destruct evs as [|e evs].
  { by apply (wp_call_weak Q C f a w w' [] Go []). }
  assert (calm (e :: evs) ↔ calm (atomic e :: evs)) as Hc.
  { unfold calm. rewrite !Forall_cons. destruct e as [|[]|[]|? []]; naive_solver. }
  pose proof (wp_call_weak Q C f a w w' (atomic e :: evs) (atomic e) evs Hf HC HC') as H.
  assert (atomic e ≠ After false) as Ha by by destruct e as [|[]|[]|? []].
  specialize (H ltac:(done) HQ eq_refl). destruct (call f w (atomic e :: evs)) as [[[]]]; naive_solver.
Qed.

Lemma wp_look Q C (f : Data → res A) a w :
  f (data w) = Ok a → (∀ b, C b w) → Q a w → wp (look f) Q C w.
Proof. intros Hf HC HQ. eapply wp_call; [|done..|done]. by rewrite Hf. Qed.

Lemma wp_look_locks Q C (f : Locks → res A) a w :
  f (locks w) = Ok a → (∀ b, C b w) → Q a w → wp (look_locks f) Q C w.
Proof. intros Hf HC HQ. eapply wp_call; [|done..|done]. by rewrite Hf. Qed.

Lemma wp_change_locks Q C (f : Locks → res (A * Locks)) a w k' :
  f (locks w) = Ok (a, k') → (∀ b, C b w) → (∀ b, C b (set_locks k' w)) → Q a (set_locks k' w) →
  wp (change_locks f) Q C w.
Proof. intros Hf ???. eapply wp_call; [|done..]. unfold on_locks. by rewrite Hf. Qed.

Lemma wp_syscall_locks Q C (f : Locks → res (A * Locks)) a w k' :
  f (locks w) = Ok (a, k') → (∀ b, C b w) → C true (set_locks k' w) → Q a (set_locks k' w) →
  wp (syscall (on_locks f)) Q C w.
Proof. intros Hf ???. eapply wp_syscall; [|done..]. unfold on_locks. by rewrite Hf. Qed.
End logic.

Lemma wp_bind {A B} (m : IO A) (f : A → IO B) Q C w :
  wp m (λ a, wp (f a) Q C) C w → wp (m ≫= f) Q C w.
Proof.
  intros H evs. unfold mbind, io_bind. specialize (H evs).
  destruct (m w evs) as [[[a|e|] w'] evs']; [|done|done]. destruct H as [H Hc].
  specialize (H evs'). destruct (f a w' evs') as [[[b|e|] w''] evs'']; naive_solver.
Qed.

Lemma wp_ensure Q C c fmt w : c = true → Q () w → wp (lift (ensure c fmt)) Q C w.
Proof. intros -> HQ. by apply (wp_lift _ _ _ ()). Qed.

Lemma wp_change Q C f w d' :
  f (data w) = Ok d' → (∀ b, C b w) → (∀ b, C b (set_data d' w)) → Q () (set_data d' w) →
  wp (change f) Q C w.
Proof. intros Hf ???. eapply wp_call; [|done..]. by rewrite Hf. Qed.

Lemma wp_remember Q C f w : Q () (set_locks (f (locks w)) w) → wp (remember f) Q C w.
Proof. by intros HQ evs. Qed.

(** The node left when a removal stops midway. *)
Definition partly_removed (names : list string) (n : DirNode) : DirNode :=
  mk_dir (d_id n) (filter (λ f, f.1 ∉ names) (d_files n)).

Lemma wp_remove Q (C : bool → World → Prop) p w n :
  pinned_node p (data w) = Ok n → (∀ b, C b w) →
  (∀ b, C b (set_data (set_dir (p_place p) None (data w)) w)) →
  (∀ names b, C b (set_data (set_dir (p_place p) (Some (partly_removed names n)) (data w)) w)) →
  Q () (set_data (set_dir (p_place p) None (data w)) w) → wp (remove p) Q C w.
Proof.
  intros Hn HC HC' Hm HQ evs. unfold remove. rewrite Hn.
  destruct (next_fault evs) as [e evs'] eqn:E. apply next_fault_go in E as [Hc Hg].
  destruct e as [|c|c|g c]; [by split; [|apply Hc]|..]; destruct c; cbn; split;
    try done; try (by apply Hg); apply Hm.
Qed.

Lemma wp_preserve_on_failure m Q C C' w :
  wp m Q C' w → (∀ w, C' true w → C true w) →
  (∀ w, C' false w → C false (set_locks (set_preserve true (locks w)) w)) →
  wp (preserve_on_failure m) Q C w.
Proof.
  intros H Ht Hf evs. unfold preserve_on_failure. specialize (H evs).
  destruct (m w evs) as [[[a|e|] w'] evs']; [done|..]; destruct H as [H ?]; auto.
Qed.

(** A call whose failure is ignored. *)
Lemma wp_swallow m Q (C : bool → World → Prop) w :
  wp m Q (λ b w, if b then C true w else Q () w) w → wp (swallow m) Q C w.
Proof.
  intros H evs. unfold swallow. specialize (H evs).
  destruct (m w evs) as [[[[]|e|] w'] evs']; [done|..]; naive_solver.
Qed.

(** ** The locks of a process *)

Definition fresh_names (k : Locks) : Prop :=
  ∀ n, (next_transaction k ≤ n)%N → recoveries k !! recovery_name (pid k) n = None.

(** Every lock is a link to its record in a recovery directory that has its owner
    record, and whose lease is free unless it is the current transaction's. *)
Definition safe (cur : option string) (k : Locks) : Prop :=
  ∀ place lf, lock_files k !! place = Some lf →
    ∃ m rc, l_marker lf = Some m ∧ m_place m = place ∧ recoveries k !! m_recovery m = Some rc ∧
      r_owner rc = true ∧ r_candidates rc !! m_candidate m = Some lf ∧
      (r_lease rc = true → cur = Some (m_recovery m)).

(** The transaction knows every lock that is its own. *)
Definition complete (t : Txn) (k : Locks) : Prop :=
  ∀ place lf m, lock_files k !! place = Some lf → l_marker lf = Some m →
    m_recovery m = t_recovery t → place ∈ k_place <$> t_locks t.

Definition held (t : Txn) (k : Locks) (l : Lock) : Prop :=
  lock_files k !! k_place l = Some (k_file l) ∧
  l_marker (k_file l) = Some (mk_marker (t_recovery t) (k_candidate l) (k_place l)).

(** What an interrupted process leaves, by an error or by a crash: after an error
    its transaction is still there to be ended. *)
Definition endable (t : Txn) (k : Locks) : Prop :=
  (t_preserve t = false → complete t k) ∧ Forall (held t k) (t_locks t) ∧
  NoDup (k_place <$> t_locks t).
Definition K_stop (p : N) (crash : bool) (k : Locks) : Prop :=
  pid k = p ∧ fresh_names k ∧
  match txn k with
  | None => safe None k
  | Some t => safe (Some (t_recovery t)) k ∧ (crash = false → endable t k)
  end.
Definition K_idle (p : N) (k : Locks) : Prop :=
  pid k = p ∧ fresh_names k ∧ txn k = None ∧ safe None k.

(** A running transaction that holds the locks at [ps]. *)
Record K_run (p : N) (ps : list (LockDir.t * string)) (t : Txn) (rc : Recovery) (k : Locks) : Prop := {
  run_pid : pid k = p;
  run_fresh : fresh_names k;
  run_txn : txn k = Some t;
  run_preserve : t_preserve t = false;
  run_places : k_place <$> t_locks t = ps;
  run_nodup : NoDup ps;
  run_recovery : recoveries k !! t_recovery t = Some rc;
  run_lease : r_lease rc = true;
  run_owner : r_owner rc = true;
  run_candidates n : (next_transaction k ≤ n)%N → r_candidates rc !! ("lock-" +:+ pretty n) = None;
  run_safe : safe (Some (t_recovery t)) k;
  run_complete : complete t k;
  run_held : Forall (held t k) (t_locks t)
}.
Definition running (p : N) (ps : list (LockDir.t * string)) (k : Locks) : Prop :=
  ∃ t rc, K_run p ps t rc k.

Lemma running_stop p ps b k : running p ps k → K_stop p b k.
Proof.
  intros (t & rc & [? ? Ht ? <-]). split_and!; [done..|]. rewrite Ht. split; [done|].
  by intros _.
Qed.
Lemma idle_stop p b k : K_idle p k → K_stop p b k.
Proof. intros (? & ? & Ht & ?). split_and!; [done..|]. by rewrite Ht. Qed.

#[global] Instance recovery_name_inj p : Inj (=) (=) (recovery_name p).
Proof.
  intros n1 n2 H. unfold recovery_name in H.
  by apply (inj (String.append "jackin-ref-recovery-")), (inj (String.append (pretty p))),
    (inj (String.append "-")), (inj pretty) in H.
Qed.

(** Compute the fields of an updated lock state. *)
Ltac kred :=
  unfold set_locks, set_data, set_preserve, drop_candidate, alter_recovery, unlink_lock, alter_txn, set_txn, set_recoveries,
    set_lock_files in *;
  cbn [pid next_transaction next_quarantine next_inode lock_files recoveries txn t_recovery t_locks
       t_preserve r_lease r_owner r_candidates k_place k_file k_candidate l_marker l_inode
       m_recovery m_candidate m_place locks data] in *.

Section locks.
Context (p : N) (d : Data) (C : bool → World → Prop).
Hypothesis HC : ∀ b k, K_stop p b k → C b (mk_world d k).

Local Lemma stop_running ps t rc k : K_run p ps t rc k → ∀ b, C b (mk_world d k).
Proof. intros H b. eapply HC, running_stop. by eexists _, _. Qed.

Lemma wp_begin Q k :
  K_idle p k → (∀ k, running p [] k → Q () (mk_world d k)) → wp begin Q C (mk_world d k).
Proof.
  intros Hk HQ. pose proof Hk as (Hp & Hf & Ht & Hs). unfold begin. apply wp_bind.
  set (name := recovery_name (pid k) (next_transaction k)).
  set (k1 := set_recoveries (<[name := mk_recovery false false ∅]> (recoveries k))
    (mk_locks (pid k) (next_transaction k + 1)%N (next_quarantine k) (next_inode k)
       (lock_files k) (recoveries k) (txn k))).
  assert (recoveries k !! name = None) as Hn by (apply Hf; lia).
  assert (fresh_names k1) as Hf1.
  { intros n Hle. subst k1. kred. rewrite lookup_insert_ne; [apply Hf; lia|].
    intros E%(inj (recovery_name _)). lia. }
  assert (K_idle p k1) as Hk1.
  { split_and!; [done..|]. intros place lf Hl. destruct (Hs place lf Hl) as (m & rc & ? & ? & Hr & Ho).
    exists m, rc. subst k1. kred. rewrite lookup_insert_ne by congruence. done. }
  apply (wp_syscall_locks _ _ _ name _ k1).
  - cbn. by rewrite bool_decide_eq_true_2.
  - intros b. by apply HC, idle_stop.
  - by apply HC, idle_stop.
  - set (k2 := set_txn (Some (mk_txn name [] false))
      (alter_recovery name (λ r, mk_recovery true true (r_candidates r)) k1)).
    assert (running p [] k2) as Hk2.
    { exists (mk_txn name [] false), (mk_recovery true true ∅). subst k2.
      split; kred; try done.
      - intros n Hle. specialize (Hf1 n Hle). kred. rewrite lookup_alter_ne; [done|].
        subst k1. kred. intros E%(inj (recovery_name _)). lia.
      - constructor.
      - subst k1. kred. by rewrite lookup_alter_eq, lookup_insert_eq.
      - intros place lf Hl. destruct (Hs place lf Hl) as (m & rc & ? & ? & Hr & ? & ? & ?).
        exists m, rc. subst k1. kred. rewrite lookup_alter_ne, lookup_insert_ne by congruence.
        split_and!; [done..|]. intros E. naive_solver.
      - intros place lf m Hl Hm E. destruct (Hs place lf Hl) as (m' & rc & Hm' & _ & Hr & _).
        kred. rewrite Hm in Hm'. injection Hm' as <-. congruence. }
    apply (wp_syscall_locks _ _ _ () _ k2); [done|intros b; by apply HC, idle_stop| |by apply HQ].
    by eapply HC, running_stop.
Qed.

(** *** Acquiring *)

Lemma safe_unlink cur k place : safe cur k → safe cur (unlink_lock place k).
Proof.
  intros Hs pl lf Hl. kred. apply lookup_delete_Some in Hl as [_ Hl]. by apply Hs.
Qed.

(** Dropping the candidate of a lock that is gone. *)
Lemma safe_drop_candidate cur k place lf rec c :
  safe cur k → lock_files k !! place = None →
  l_marker lf = Some (mk_marker rec c place) →
  (∀ rc, recoveries k !! rec = Some rc → r_candidates rc !! c = Some lf ∨ r_candidates rc !! c = None) →
  safe cur (drop_candidate rec c k).
Proof.
  intros Hs Hn Hlf Hc pl lf' Hl. kred. destruct (Hs pl lf' Hl) as (m & rc & Hm & Hp & Hr & Ho & Hca & Hle).
  destruct (decide (m_recovery m = rec)) as [<-|Hne].
  - exists m. eexists. split; [done|]. split; [done|].
    split; [by rewrite lookup_alter_eq, Hr|]. kred. split; [done|]. split; [|done]. rewrite lookup_delete_ne; [done|].
    intros ->. destruct (Hc _ Hr) as [E|E]; [|congruence].
    rewrite E in Hca. injection Hca as <-. rewrite Hlf in Hm.
    apply (f_equal (fmap m_place)) in Hm. cbn in Hm. congruence.
  - exists m, rc. rewrite lookup_alter_ne by congruence. done.
Qed.

Lemma wp_reclaim Q k place lf ps t rc :
  K_run p ps t rc k → lock_files k !! place = Some lf → place ∉ ps →
  (∀ k', K_run p ps t rc k' → lock_files k' !! place = None → Q true (mk_world d k')) →
  wp (reclaim_abandoned_lock place) Q C (mk_world d k).
Proof.
  intros Hk Hl Hps HQ. pose proof Hk as [Hp Hf Ht Hpr Hpl Hnd Hrec Hle How Hcand Hs Hco Hh].
  destruct (Hs place lf Hl) as (m & rcm & Hm & Hmp & Hr & Hro & Hrc & Hrl).
  assert (m_recovery m ≠ t_recovery t) as Hne.
  { intros E. apply Hps. rewrite <-Hpl. by eapply Hco. }
  assert (r_lease rcm = false) as Hfree.
  { destruct (r_lease rcm); [|done]. specialize (Hrl eq_refl). congruence. }
  unfold reclaim_abandoned_lock. apply wp_bind. eapply (wp_look_locks _ _ _ (Some (lf, m))).
  { kred. unfold reclaimable. rewrite Hl, Hm. rewrite bool_decide_eq_true_2 by done. cbn.
    rewrite Hr. cbn. rewrite Hro, Hrc, Hfree. cbn. by rewrite bool_decide_eq_true_2. }
  { by eapply stop_running. }
  set (k1 := unlink_lock place k).
  assert (K_run p ps t rc k1) as Hk1.
  { subst k1. split; kred; try done; [by apply safe_unlink|..].
    - intros pl lf' m' Hl' Hm' E. kred. apply lookup_delete_Some in Hl' as [_ Hl']. by eapply Hco.
    - apply Forall_forall. intros l Hin. rewrite Forall_forall in Hh. destruct (Hh l Hin) as [H1 H2].
      split; [|done]. kred. rewrite lookup_delete_ne; [done|]. intros ->. apply Hps.
      rewrite <-Hpl. apply list_elem_of_fmap. eauto. }
  set (k2 := drop_candidate (m_recovery m) (m_candidate m) k1).
  assert (K_run p ps t rc k2) as Hk2.
  { pose proof Hk1 as [_ _ _ _ _ _ Hrec1 _ _ _ Hs1 Hco1 Hh1]. subst k2. split; kred; try done.
    - intros n Hn. subst k1. kred. rewrite lookup_alter. destruct (decide _) as [E|]; [|by apply Hf].
      rewrite E. by rewrite Hf.
    - rewrite lookup_alter_ne by congruence. done.
    - apply (safe_drop_candidate _ _ place lf); [done|..].
      + subst k1. kred. by rewrite lookup_delete_eq.
      + rewrite Hm, <-Hmp. by destruct m.
      + intros rc' Hrc'. subst k1. kred. left. congruence. }
  apply wp_bind. eapply (wp_change_locks _ _ _ () _ k1); [done|by eapply stop_running..|].
  apply wp_bind. eapply (wp_change_locks _ _ _ () _ k2); [done|by eapply stop_running..|].
  apply wp_ret. apply HQ; [done|]. subst k2 k1. kred. apply lookup_delete_eq.
Qed.

Lemma lock_name_inj (n1 n2 : N) : "lock-" +:+ pretty n1 = "lock-" +:+ pretty n2 → n1 = n2.
Proof. intros H. by apply (inj (String.append "lock-")), (inj pretty) in H. Qed.

(** The state after [create_lock_candidate]. *)
Definition with_candidate (t : Txn) (rc : Recovery) (place : LockDir.t * string) (k : Locks) : Locks :=
  let candidate := "lock-" +:+ pretty (next_transaction k) in
  let file := mk_lock_file (next_inode k) (Some (mk_marker (t_recovery t) candidate place)) in
  mk_locks (pid k) (next_transaction k + 1)%N (next_quarantine k) (next_inode k + 1) (lock_files k)
    (<[t_recovery t := mk_recovery (r_lease rc) (r_owner rc)
                         (<[candidate := file]> (r_candidates rc))]> (recoveries k)) (txn k).

Lemma with_candidate_run ps t rc place k :
  K_run p ps t rc k →
  K_run p ps t (mk_recovery (r_lease rc) (r_owner rc)
                 (<["lock-" +:+ pretty (next_transaction k) :=
                      mk_lock_file (next_inode k)
                        (Some (mk_marker (t_recovery t) ("lock-" +:+ pretty (next_transaction k)) place))]>
                    (r_candidates rc))) (with_candidate t rc place k).
Proof.
  intros [Hp Hf Ht Hpr Hpl Hnd Hrec Hle How Hcand Hs Hco Hh]. unfold with_candidate.
  split; kred; try done.
  - intros n Hn. kred. rewrite lookup_insert. destruct (decide _) as [E|]; [|apply Hf; lia].
    rewrite E, Hf in Hrec by lia. done.
  - apply lookup_insert_eq.
  - intros n Hn. rewrite lookup_insert_ne; [apply Hcand; lia|]. intros E%lock_name_inj. lia.
  - intros pl lf Hl. kred. destruct (Hs pl lf Hl) as (m & rcm & Hm & Hmp & Hr & Hro & Hrc & Hrl).
    destruct (decide (m_recovery m = t_recovery t)) as [E|E].
    + exists m. eexists. split; [done|]. split; [done|]. rewrite E, lookup_insert_eq. split; [done|].
      kred. assert (rcm = rc) as -> by congruence. split; [done|].
      split; [|by rewrite <-E]. rewrite lookup_insert_ne; [done|]. intros E2.
      rewrite <-E2, Hcand in Hrc by lia. done.
    + exists m, rcm. rewrite lookup_insert_ne by congruence. done.
Qed.

(** A lock is linked into a place that is free, and remembered. *)
Lemma wp_link Q ps t rc place file cand k2 :
  let file := mk_lock_file file (Some (mk_marker (t_recovery t) cand place)) in
  K_run p ps t rc k2 → lock_files k2 !! place = None → place ∉ ps →
  r_candidates rc !! cand = Some file →
  (∀ k, running p (ps ++ [place]) k → Q () (mk_world d k)) →
  wp (_ ← link_lock place file; _ ← preserve_on_failure sync; push_lock (mk_lock place file cand))
    Q C (mk_world d k2).
Proof.
  intros lock Hk Hn Hps Hcf HQ. rename file into ino. rename lock into file. apply wp_bind.
  pose proof Hk as [Hp Hf Ht Hpr Hpl Hnd Hrec Hle How Hcand Hs Hco Hh].
  set (k3 := set_lock_files (<[place := file]> (lock_files k2)) k2).
  assert (safe (Some (t_recovery t)) k3) as Hs3.
  { intros pl lf Hl. subst k3. kred. apply lookup_insert_Some in Hl as [[<- <-]|[_ Hl]].
    - exists (mk_marker (t_recovery t) cand place), rc. kred. done.
    - by apply Hs. }
  assert (K_stop p true k3) as Hstop.
  { split_and!; [done..|]. change (txn k3) with (txn k2). rewrite Ht. done. }
  eapply (wp_syscall_locks _ _ _ () _ k3); [|by eapply stop_running|by apply HC|].
  { kred. by rewrite bool_decide_eq_true_2. }
  apply wp_bind. apply (wp_preserve_on_failure _ _ _
    (λ b w, w = mk_world d k3)).
  - eapply (wp_look_locks _ _ _ ()); [done..|]. apply wp_remember. apply HQ.
    eexists (mk_txn (t_recovery t) (t_locks t ++ [mk_lock place file cand]) (t_preserve t)), rc.
    subst k3. kred. rewrite Ht. split; kred; try done.
    + rewrite fmap_app, Hpl. done.
    + rewrite NoDup_app. split; [done|]. split; [|apply NoDup_singleton]. set_solver.
    + intros pl lf m Hl Hm E. kred. rewrite fmap_app. apply elem_of_app.
      apply lookup_insert_Some in Hl as [[<- <-]|[_ Hl]]; [right; by left|left]. by eapply Hco.
    + apply Forall_app. split; [|apply Forall_singleton; split; kred; [apply lookup_insert_eq|done]].
      eapply Forall_impl; [done|]. intros l [H1 H2]. split; [|done]. kred.
      rewrite lookup_insert_ne; [done|]. intros ->. congruence.
  - intros w ->. by apply HC.
  - intros w ->. apply HC. subst k3. kred. split_and!; [done..|]. kred. rewrite Ht.
    split; [done|]. intros _. split_and!; kred; [done| |by rewrite Hpl].
    eapply Forall_impl; [done|]. intros l [H1 H2]. split; [|done]. kred.
    rewrite lookup_insert_ne; [done|]. intros ->. congruence.
Qed.

Lemma wp_acquire Q ps k place :
  running p ps k → place ∉ ps →
  (∀ k, running p (ps ++ [place]) k → Q () (mk_world d k)) →
  wp (acquire place) Q C (mk_world d k).
Proof.
  intros (t & rc & Hk) Hps HQ. unfold acquire. apply wp_bind.
  pose proof (with_candidate_run _ _ _ place _ Hk) as Hk1.
  set (cand := "lock-" +:+ pretty (next_transaction k)) in *.
  set (file := mk_lock_file (next_inode k) (Some (mk_marker (t_recovery t) cand place))) in *.
  set (rc1 := mk_recovery (r_lease rc) (r_owner rc) (<[cand := file]> (r_candidates rc))) in *.
  eapply (wp_change_locks _ _ _ (cand, file) _ (with_candidate t rc place k)).
  { unfold current_txn. kred. rewrite (run_txn _ _ _ _ _ Hk). cbn.
    rewrite (run_recovery _ _ _ _ _ Hk). cbn.
    rewrite bool_decide_eq_true_2; [unfold with_candidate; by rewrite (run_txn _ _ _ _ _ Hk)|]. apply (run_candidates _ _ _ _ _ Hk). lia. }
  { by eapply stop_running. } { by eapply stop_running. }
  change (set_locks (with_candidate t rc place k) (mk_world d k))
    with (mk_world d (with_candidate t rc place k)).
  assert (r_candidates rc1 !! cand = Some file) as Hcf by apply lookup_insert_eq.
  revert Hcf Hk1. generalize (with_candidate t rc place k) as k1. generalize rc1 as rc'.
  clear Hk rc rc1. intros rc k1 Hcf Hk. apply wp_bind.
  eapply (wp_look_locks _ _ _ (bool_decide (is_Some (lock_files k1 !! place)))); [done|by eapply stop_running|].
  apply wp_bind.
  assert (∀ k2, K_run p ps t rc k2 → lock_files k2 !! place = None →
    wp (_ ← link_lock place file; _ ← preserve_on_failure sync; push_lock (mk_lock place file cand))
      Q C (mk_world d k2)) as Hlink by (intros k2 Hk2 Hn; by eapply wp_link).
  case_bool_decide as Htk.
  - destruct Htk as [lf Hl]. apply wp_bind. eapply wp_reclaim; [done..|]. intros k2 Hk2 Hn.
    apply wp_ensure; [done|]. by apply Hlink.
  - apply wp_ret. apply Hlink; [done|]. by apply eq_None_not_Some.
Qed.

Lemma wp_lock_registration Q ps k id :
  running p ps k → (LockDir.InDir id, "locked") ∉ ps →
  (∀ k, running p (ps ++ [(LockDir.InDir id, "locked")]) k → Q () (mk_world d k)) →
  wp (lock_registration id) Q C (mk_world d k).
Proof.
  intros Hr Hps HQ. pose proof Hr as (t & rc & Hk). unfold lock_registration. apply wp_bind.
  eapply (wp_look_locks _ _ _ (lock_files k !! (LockDir.InDir id, "locked")));
    [done|by eapply stop_running|].
  destruct (lock_files k !! (LockDir.InDir id, "locked")) as [lf|] eqn:El.
  - destruct (run_safe _ _ _ _ _ Hk _ _ El) as (m & _ & -> & _). apply wp_bind, wp_bind.
    eapply wp_reclaim; [done..|]. intros k' Hk' _. apply wp_ensure; [done|].
    eapply wp_acquire; [by eexists _, _|done..].
  - apply wp_bind, wp_ret. by eapply wp_acquire.
Qed.

Lemma wp_verify_locks Q ps k :
  running p ps k → Q () (mk_world d k) → wp verify_locks Q C (mk_world d k).
Proof.
  intros (t & rc & Hk) HQ. unfold verify_locks.
  eapply (wp_look_locks _ _ _ ()); [|by eapply stop_running|done].
  unfold current_txn. kred. rewrite (run_txn _ _ _ _ _ Hk). cbn [mbind res_bind].
  apply ensure_ok. apply forallb_forall. intros l Hl%list_elem_of_In.
  pose proof (run_held _ _ _ _ _ Hk) as Hh. rewrite Forall_forall in Hh.
  destruct (Hh l Hl) as [E _]. unfold lock_in_place. rewrite E. apply Z.eqb_refl.
Qed.

(** *** Releasing *)

Definition without_lock (l : Lock) (t : Txn) : Txn :=
  mk_txn (t_recovery t) (filter (λ l', k_place l' ≠ k_place l) (t_locks t)) (t_preserve t).
Definition taken (l : Lock) (k : Locks) : Locks := alter_txn (without_lock l) k.
Definition unlinked (l : Lock) (k : Locks) : Locks := unlink_lock (k_place l) (taken l k).
Definition released (t : Txn) (l : Lock) (k : Locks) : Locks :=
  drop_candidate (t_recovery t) (k_candidate l) (unlinked l k).

Lemma wp_release Q C' k t l :
  txn k = Some t → lock_files k !! k_place l = Some (k_file l) →
  (∀ k', k' = taken l k ∨ k' = unlinked l k ∨ k' = released t l k →
     C' true (mk_world d k') ∧ C' false (mk_world d (set_preserve true k'))) →
  Q () (mk_world d (released t l k)) → wp (release l) Q C' (mk_world d k).
Proof.
  intros Ht Hl HC' HQ. unfold release. apply wp_bind, wp_remember.
  change (set_locks _ _) with (mk_world d (taken l k)).
  apply (wp_preserve_on_failure _ _ _ (λ b w, ∃ k', w = mk_world d k' ∧
    (k' = taken l k ∨ k' = unlinked l k ∨ k' = released t l k))).
  - unfold cleanup_lock. apply wp_bind. eapply (wp_look_locks _ _ _ (t_recovery t)).
    + unfold current_txn, taken. kred. rewrite Ht. cbn. by rewrite bool_decide_eq_true_2.
    + eauto.
    + apply wp_bind. eapply (wp_change_locks _ _ _ () _ (unlinked l k)); [done|eauto|eauto|].
      eapply (wp_change_locks _ _ _ () _ (released t l k)); [done|..|done]; eauto 6.
  - intros w (k' & -> & Hk'). by apply HC'.
  - intros w (k' & -> & Hk'). by apply (proj2 (HC' k' Hk')).
Qed.
End locks.

Lemma filter_places q (ls : list Lock) :
  k_place <$> filter (λ l, k_place l ≠ q) ls = filter (λ x, x ≠ q) (k_place <$> ls).
Proof.
  induction ls as [|x ls IH]; [done|]. rewrite fmap_cons, !filter_cons.
  repeat case_decide; try done. by rewrite fmap_cons, IH.
Qed.

Lemma filter_iff_in {A} (P P' : A → Prop) `{∀ x, Decision (P x), ∀ x, Decision (P' x)} l :
  Forall (λ x, P x ↔ P' x) l → filter P l = filter P' l.
Proof.
  induction 1 as [|x l Hx _ IH]; [done|]. rewrite !filter_cons. destruct (decide (P x)), (decide (P' x)); first [by rewrite IH|naive_solver].
Qed.

Lemma filter_nothing {A} (P : A → Prop) `{∀ x, Decision (P x)} l :
  Forall (λ x, ¬ P x) l → filter P l = [].
Proof. induction 1; [done|]. rewrite filter_cons, decide_False by done. done. Qed.

Lemma running_eq p ps ps' k : ps = ps' → running p ps k → running p ps' k.
Proof. by intros ->. Qed.

Section release.
Context (p : N).

Lemma released_safe k t l :
  safe (Some (t_recovery t)) k → held t k l → safe (Some (t_recovery t)) (released t l k).
Proof.
  intros Hs [Hl Hm]. apply (safe_drop_candidate _ _ (k_place l) (k_file l)).
  - apply (safe_unlink _ (taken l k)). exact Hs.
  - unfold unlinked, taken. kred. apply lookup_delete_eq.
  - done.
  - intros rc Hr. unfold unlinked, taken in Hr. kred.
    destruct (Hs _ _ Hl) as (m & rc' & Hm' & _ & Hr' & _ & Hc & _). rewrite Hm in Hm'.
    injection Hm' as <-. kred. left. congruence.
Qed.

Lemma held_without k k' t l :
  Forall (held t k) (t_locks t) →
  (∀ place, place ≠ k_place l → lock_files k' !! place = lock_files k !! place) →
  Forall (held (without_lock l t) k') (t_locks (without_lock l t)).
Proof.
  rewrite !Forall_forall. intros Hh He l' Hl'. cbn in Hl'. apply list_elem_of_filter in Hl' as [Hne Hl'].
  destruct (Hh l' Hl') as [H1 H2]. split; [|done]. by rewrite He.
Qed.

Lemma nodup_without t l :
  NoDup (k_place <$> t_locks t) → NoDup (k_place <$> t_locks (without_lock l t)).
Proof.
  intros H. cbn. rewrite filter_places. by apply NoDup_filter.
Qed.

Lemma release_stops k t l k' :
  K_stop p false k → txn k = Some t → l ∈ t_locks t →
  k' = taken l k ∨ k' = unlinked l k ∨ k' = released t l k →
  K_stop p true k' ∧ K_stop p false (set_preserve true k').
Proof.
  intros (Hp & Hf & Hm) Ht Hl Hk'. rewrite Ht in Hm. destruct Hm as [Hs Hm].
  destruct (Hm eq_refl) as (_ & Hh & Hnd). pose proof Hh as Hh'. rewrite Forall_forall in Hh'.
  assert (pid k' = p ∧ fresh_names k' ∧ txn k' = Some (without_lock l t) ∧
    safe (Some (t_recovery t)) k' ∧
    (∀ place, place ≠ k_place l → lock_files k' !! place = lock_files k !! place))
    as (Hp' & Hf' & Ht' & Hs' & Hl').
  { destruct Hk' as [-> | [-> | ->] ].
    - unfold taken. kred. rewrite Ht. split_and!; done.
    - unfold unlinked, taken. kred. rewrite Ht. split_and!; try done; [by apply (safe_unlink _ (taken l k))|].
      intros. by rewrite lookup_delete_ne.
    - split_and!; [done| |unfold released, unlinked, taken; kred; by rewrite Ht|apply released_safe; auto|].
      + intros n Hn. unfold released, unlinked, taken in *. kred. rewrite lookup_alter.
        destruct (decide _) as [E|]; [rewrite E|]; by rewrite Hf.
      + intros. unfold released, unlinked, taken. kred. by rewrite lookup_delete_ne. }
  split; (split_and!; [done..|]); kred; rewrite Ht'; (split; [done|]); [done|].
  intros _. cbn. split_and!; [done| |by apply nodup_without].
  exact (held_without k k' t l Hh Hl').
Qed.

Lemma released_run ps t rc k l :
  K_run p ps t rc k → l ∈ t_locks t →
  ∃ rc', K_run p (filter (λ q, q ≠ k_place l) ps) (without_lock l t) rc' (released t l k).
Proof.
  intros [Hp Hf Ht Hpr Hpl Hnd Hrec Hle How Hcand Hs Hco Hh] Hl.
  pose proof Hh as Hh'. rewrite Forall_forall in Hh'.
  exists (mk_recovery (r_lease rc) (r_owner rc) (delete (k_candidate l) (r_candidates rc))).
  unfold released, unlinked, taken. split; kred; try done.
  - intros n Hn. kred. rewrite lookup_alter. destruct (decide _) as [E|]; [rewrite E|]; by rewrite Hf.
  - by rewrite Ht.
  - subst ps. apply filter_places.
  - by apply NoDup_filter.
  - by rewrite lookup_alter_eq, Hrec.
  - intros n Hn. rewrite lookup_delete. destruct (decide _); [done|]. by apply Hcand.
  - exact (released_safe k t l Hs (Hh' l Hl)).
  - intros pl lf m Hpl' Hm E. kred. apply lookup_delete_Some in Hpl' as [Hne Hpl'].
    specialize (Hco _ _ _ Hpl' Hm E). apply list_elem_of_fmap in Hco as (l' & -> & Hl').
    apply list_elem_of_fmap. exists l'. split; [done|]. apply list_elem_of_filter. auto.
  - apply (held_without k); [done|]. intros place Hne. kred. by rewrite lookup_delete_ne.
Qed.

Context (d : Data) (C : bool → World → Prop).
Hypothesis HC : ∀ b k, K_stop p b k → C b (mk_world d k).

Lemma wp_release_all Q ls ps t rc k :
  K_run p ps t rc k → Forall (λ l, l ∈ t_locks t) ls → NoDup (k_place <$> ls) →
  (∀ k', running p (filter (λ q, q ∉ k_place <$> ls) ps) k' → Q () (mk_world d k')) →
  wp (release_all ls) Q C (mk_world d k).
Proof.
  revert ps t rc k. induction ls as [|l ls IH]; intros ps t rc k Hk Hls Hnd HQ; cbn.
  - apply wp_ret, HQ. rewrite filter_all by (apply Forall_true; set_solver). by eexists _, _.
  - apply Forall_cons in Hls as [Hl Hls]. rewrite fmap_cons in Hnd. apply NoDup_cons in Hnd as [Hx Hnd].
    apply wp_bind. destruct (released_run _ _ _ _ _ Hk Hl) as [rc' Hk'].
    pose proof (run_held _ _ _ _ _ Hk) as Hh. rewrite Forall_forall in Hh.
    apply (wp_release d _ _ k t); [apply (run_txn _ _ _ _ _ Hk)|by apply Hh|..].
    + intros k' Hk''. eapply release_stops in Hk'' as [H1 H2];
        [|by eapply running_stop; eexists _, _|apply (run_txn _ _ _ _ _ Hk)|done].
      split; by apply HC.
    + apply (IH _ _ _ _ Hk'); [|done|].
      * apply Forall_forall. intros l' Hl'. cbn. apply list_elem_of_filter.
        rewrite Forall_forall in Hls. split; [|by apply Hls]. intros E. apply Hx. rewrite <-E.
        apply list_elem_of_fmap. eauto.
      * intros k2 Hk2. apply HQ. eapply running_eq; [|exact Hk2].
        rewrite list_filter_filter. apply list_filter_iff. intros q.
        rewrite fmap_cons, not_elem_of_cons. naive_solver.
Qed.

(** The places of a registration's two locks. *)
Definition registration_places (id : Ident) : list (LockDir.t * string) :=
  [(LockDir.InDir id, "HEAD.lock"); (LockDir.InDir id, "locked")].

Lemma wp_release_registration Q ps k id :
  running p ps k →
  (∀ k', running p (filter (λ q, q ∉ registration_places id) ps) k' → Q () (mk_world d k')) →
  wp (release_registration id) Q C (mk_world d k).
Proof.
  intros (t & rc & Hk) HQ. unfold release_registration. apply wp_bind.
  eapply (wp_look_locks _ _ _ t).
  { unfold current_txn. kred. by rewrite (run_txn _ _ _ _ _ Hk). }
  { intros b. eapply HC, running_stop. by eexists _, _. }
  pose proof (run_places _ _ _ _ _ Hk) as Hpl. pose proof (run_nodup _ _ _ _ _ Hk) as Hnd.
  eapply wp_release_all; [done|..].
  - apply Forall_forall. by intros l [_ Hl]%list_elem_of_filter.
  - rewrite <-Hpl in Hnd. revert Hnd. generalize (t_locks t) as ls. induction ls as [|x ls IH]; [done|].
    rewrite fmap_cons, filter_cons, NoDup_cons. intros [Hx Hnd]. case_decide; [|by apply IH].
    rewrite fmap_cons, NoDup_cons. split; [|by apply IH].
    intros (y & E & [_ Hy]%list_elem_of_filter)%list_elem_of_fmap. apply Hx. rewrite E.
    apply list_elem_of_fmap. eauto.
  - intros k' Hk'. apply HQ. eapply running_eq; [|exact Hk']. rewrite <-Hpl.
    apply filter_iff_in. apply Forall_forall. intros q (l & -> & Hl)%list_elem_of_fmap.
    apply not_iff_compat. rewrite list_elem_of_fmap. split.
    + intros (l' & E & [Hl' _]%list_elem_of_filter). unfold locks_registration in Hl'.
      apply orb_true_iff in Hl' as [H|H]; bool_to_prop; rewrite E, H; unfold registration_places; set_solver.
    + intros Hq. exists l. split; [done|]. apply list_elem_of_filter. split; [|done].
      unfold locks_registration. apply orb_true_iff. rewrite !bool_decide_eq_true.
      unfold registration_places in Hq. set_solver.
Qed.

(** *** The end of the transaction *)

Lemma end_lease_idle b k : K_stop p b k → K_idle p (end_lease k).
Proof.
  intros (Hp & Hf & Hm). unfold end_lease. destruct (txn k) as [t|] eqn:Ht; [|done].
  destruct Hm as [Hs _]. split_and!; kred; [done| |done|].
  - intros n Hn. kred. rewrite lookup_alter. destruct (decide _) as [E|]; [rewrite E|]; by rewrite Hf.
  - intros place lf Hl. kred. destruct (Hs _ _ Hl) as (m & rc & Hm & Hmp & Hr & Ho & Hc & Hle).
    destruct (decide (m_recovery m = t_recovery t)) as [E|E].
    + exists m. eexists. split; [done|]. split; [done|]. rewrite E, lookup_alter_eq, <-E, Hr.
      split; [done|]. by kred.
    + exists m, rc. rewrite lookup_alter_ne by congruence. split_and!; try done.
      intros H. specialize (Hle H). congruence.
Qed.

Lemma wp_drop_recovery Q k t :
  K_stop p false k → txn k = Some t → t_locks t = [] →
  (∀ k', K_idle p k' → Q () (mk_world d k')) → wp drop_recovery Q C (mk_world d k).
Proof.
  intros Hk Ht Hl HQ. pose proof Hk as (Hp & Hf & Hm). rewrite Ht in Hm.
  destruct Hm as [Hs Hm]. destruct (Hm eq_refl) as (Hco & _ & _). intros evs. unfold drop_recovery.
  cbn [locks]. rewrite Ht. revert evs.
  match goal with |- ∀ evs, match ?m _ evs with _ => _ end => change (wp m Q C (mk_world d k)) end.
  assert (∀ k', K_stop p true k' → wp (remember end_lease) Q C (mk_world d k')) as Hend.
  { intros k' Hk'. apply wp_remember, HQ. by eapply end_lease_idle. }
  assert (K_stop p true k) as Hkt.
  { split_and!; [done..|]. rewrite Ht. done. }
  destruct (t_preserve t) eqn:Epr; [by apply Hend|]. apply wp_bind, wp_swallow.
  set (k1 := set_recoveries (delete (t_recovery t) (recoveries k)) k).
  assert (K_stop p true k1) as Hk1.
  { subst k1. split_and!; kred; [done|..].
    - intros n Hn. kred. rewrite lookup_delete. destruct (decide _); [done|]. by apply Hf.
    - rewrite Ht. split; [|done]. intros place lf Hpl. kred.
      destruct (Hs _ _ Hpl) as (m & rc & Hm' & Hmp & Hr & Ho). exists m, rc.
      rewrite lookup_delete_ne; [done|]. intros E. symmetry in E.
      specialize (Hco eq_refl _ _ _ Hpl Hm' E). rewrite Hl in Hco. by apply elem_of_nil in Hco. }
  eapply (wp_change_locks _ _ _ () _ k1); [done|..].
  - intros []; [by apply HC|by apply Hend].
  - intros []; [by apply HC|by apply Hend].
  - by apply Hend.
Qed.

Lemma wp_finish Q ps k :
  running p ps k → (∀ k', K_idle p k' → Q () (mk_world d k')) → wp finish Q C (mk_world d k).
Proof.
  intros (t & rc & Hk) HQ. unfold finish. apply wp_bind. eapply (wp_look_locks _ _ _ t).
  { unfold current_txn. kred. by rewrite (run_txn _ _ _ _ _ Hk). }
  { intros b. eapply HC, running_stop. by eexists _, _. }
  pose proof (run_places _ _ _ _ _ Hk) as Hpl. pose proof (run_nodup _ _ _ _ _ Hk) as Hnd.
  apply wp_bind. eapply wp_release_all; [done|..].
  - apply Forall_reverse, Forall_forall. done.
  - rewrite fmap_reverse, Hpl. by rewrite reverse_Permutation.
  - intros k' (t' & rc' & Hk'). apply wp_bind, wp_remember. kred. rewrite (run_txn _ _ _ _ _ Hk').
    assert (t_locks t' = []) as Hnil.
    { apply (fmap_nil_inv k_place). rewrite (run_places _ _ _ _ _ Hk').
      apply filter_nothing, Forall_forall. intros q Hq. rewrite fmap_reverse, Hpl, elem_of_reverse.
      auto. }
    pose proof Hk' as [Hp Hf Ht Hpr Hpl' Hnd' Hrec Hle How Hcand Hs Hco Hh].
    eapply wp_drop_recovery; [|done|done|done]. split_and!; [done..|]. kred. split; [done|].
    intros _. split_and!; kred; [done| |by rewrite Hpl'].
    by rewrite Hnil.
Qed.

Lemma wp_drop_locks Q ls k t :
  K_stop p false k → txn k = Some t → t_locks t = ls →
  (∀ k' t', K_stop p false k' → txn k' = Some t' → t_locks t' = [] → Q () (mk_world d k')) →
  wp (drop_locks ls) Q C (mk_world d k).
Proof.
  revert k t. induction ls as [|l ls IH]; intros k t Hk Ht Hls HQ; cbn.
  { apply wp_ret. by eapply HQ. }
  pose proof Hk as (_ & _ & Hm). rewrite Ht in Hm. destruct Hm as [_ Hm].
  destruct (Hm eq_refl) as (Hco & Hh & Hnd). rewrite Hls in Hh, Hnd.
  apply Forall_cons in Hh as [Hhl _]. rewrite fmap_cons in Hnd. apply NoDup_cons in Hnd as [Hx _].
  assert (t_locks (without_lock l t) = ls) as Hrest.
  { cbn. rewrite Hls, filter_cons, decide_False by naive_solver. apply filter_all, Forall_forall.
    intros x Hxl E. apply Hx. rewrite <-E. apply list_elem_of_fmap. eauto. }
  assert (∀ k', k' = taken l k ∨ k' = unlinked l k ∨ k' = released t l k →
    txn k' = Some (without_lock l t)) as Htx.
  { intros k' [-> | [-> | ->] ]; unfold released, unlinked, taken; kred; by rewrite Ht. }
  assert (∀ k' t', K_stop p false k' → txn k' = Some t' → t_locks t' = ls →
    wp (drop_locks ls) Q C (mk_world d k')) as Hgo by (intros; by eapply IH).
  apply wp_bind, wp_swallow. apply (wp_release d _ _ k t); [done|apply Hhl|..].
  - intros k' Hk'. pose proof (release_stops _ _ _ _ Hk Ht ltac:(rewrite Hls; left) Hk') as [H1 H2].
    split; [by apply HC|]. eapply Hgo; [done|kred; by rewrite (Htx _ Hk')|done].
  - eapply Hgo; [|apply Htx; auto|done].
    destruct (release_stops _ _ _ (released t l k) Hk Ht ltac:(rewrite Hls; left) ltac:(auto))
      as [(Hp & Hf & H1) (_ & _ & H2)].
    split_and!; [done..|]. rewrite Htx in * by auto. destruct H1 as [H1 _]. split; [done|].
    intros _. kred. rewrite Htx in H2 by auto. destruct H2 as [_ H2].
    destruct (H2 eq_refl) as (_ & H3 & H4). split_and!; [|done|done].
    intros Hpr pl lf m Hpl Hm' E. unfold released, unlinked, taken in Hpl. kred.
    apply lookup_delete_Some in Hpl as [Hne Hpl]. specialize (Hco Hpr _ _ _ Hpl Hm' E).
    rewrite Hls in Hco. rewrite fmap_cons in Hco. apply elem_of_cons in Hco as [->|Hco]; [done|].
    by rewrite Hrest.
Qed.

(** After an error the destructors leave an idle process, whatever fails in them. *)
Lemma wp_drop_txn Q k :
  K_stop p false k → (∀ k', K_idle p k' → Q () (mk_world d k')) →
  wp drop_txn Q C (mk_world d k).
Proof.
  intros Hk HQ. pose proof Hk as (Hp & Hf & Hm). intros evs. unfold drop_txn. cbn [locks].
  destruct (txn k) as [t|] eqn:Ht.
  - revert evs.
    match goal with |- ∀ evs, match ?m _ evs with _ => _ end => change (wp m Q C (mk_world d k)) end.
    apply wp_bind. eapply wp_drop_locks; [done..|]. intros k' t' Hk' Ht' Hl'.
    by eapply wp_drop_recovery.
  - split; [|done]. apply HQ. done.
Qed.
End release.

(** A process that starts after a crash. *)
Lemma reboot_idle p q b w :
  K_stop p b (locks w) →
  (∀ n, recoveries (locks w) !! recovery_name q n = None) → K_idle q (locks (reboot q w)).
Proof.
  intros Hk Hq. apply end_lease_idle in Hk as (_ & _ & _ & Hs). unfold reboot. kred.
  split_and!; [done| |done|exact Hs]. intros n _. kred. unfold end_lease.
  destruct (txn (locks w)) as [t|]; [|done]. kred. rewrite lookup_alter.
  destruct (decide _) as [E|]; [rewrite E|]; by rewrite Hq.
Qed.
