(* ===== verification/GitRefs.v ===== *)
(** * Branches as [git] lists them, and the stages of a deletion

    Where a reference points, what [git for-each-ref] is documented to print, and
    that the program's reading of it finds the branch.  Then the states of the
    repository between the calls that delete the branch: whichever of them a
    deletion starts from, it ends with the branch gone and every other reference
    where it was. *)

From stdpp Require Import base list gmap strings.
From Stdlib Require Import ZArith Lia Bool.
From S2P Require Import Prelude OrderedMap Isolation RefTransaction RefProofs CleanupWorld Cleanup.

(** ** References *)

(** Where a reference points: the loose file hides the packed line. *)
Definition resolve (n : nat) (r : Refs) (ref : string) : option bytes :=
  match loose_value (loose r !! ref) with
  | Ok (Some o) => Some o
  | _ => match packed_value (packed_refs r) ref n with Ok (o, _) => o | _ => None end
  end.

(** A name [git] accepts: no controls, no spaces. *)
Definition plain_name (s : string) : Prop :=
  Forall (λ b, 32 < Z_of_byte b) (as_bytes s).

(** A repository whose object names have [n] digits, with no symbolic branch, and
    files of a size the program reads. *)
Record wf_refs (n : nat) (r : Refs) : Prop := {
  wf_loose name c : loose r !! name = Some c →
    plain_name name ∧ blen c ≤ MAX_METADATA ∧ ∃ o, loose_oid c = Ok o ∧ length o = n;
  wf_packed name : is_ok (packed_value (packed_refs r) name n) = true;
  wf_packed_size c : packed_refs r = Some c → blen c ≤ MAX_METADATA;
  wf_reflog name c : reflogs r !! name = Some c → blen c ≤ MAX_METADATA
}.

(** A row of [git for-each-ref] in the format the program asks for. *)
Definition tab : string := of_bytes [byte_of_Z 9].
Definition ref_row (p : string * bytes) : string :=
  p.1 +:+ tab +:+ of_bytes p.2 +:+ tab +:+ tab +:+ "END" +:+ lf.

(** What [git for-each-ref refs/heads/] is documented to print, in a repository
    whose object names have [n] digits: one row for each branch, with the object it
    points to. *)
Class ForEachRef (n : nat) (for_each_ref : Refs → string) : Prop :=
  for_each_ref_rows r : wf_refs n r →
    ∃ rows, for_each_ref r = String.concat "" (ref_row <$> rows) ∧ NoDup rows.*1 ∧
      ∀ name o, (name, o) ∈ rows ↔ starts_with "refs/heads/" name = true ∧ resolve n r name = Some o.

(** ** Reading the list of branches *)

Definition no_lf (bs : bytes) : Prop := Forall (λ b, byte_is 10 b = false) bs.

Lemma split_lf_plain acc bs rest :
  no_lf bs → split_lf acc (bs ++ rest) = split_lf (rev bs ++ acc) rest.
Proof.
  revert acc. induction bs as [|b bs IH]; intros acc H; [done|]. apply Forall_cons in H as [Hb H].
  cbn. rewrite Hb, IH by done. by rewrite <-app_assoc.
Qed.

Lemma split_lf_rows (rs : list bytes) :
  Forall no_lf rs → split_lf [] (concat ((λ r, r ++ [byte_of_Z 10]) <$> rs)) = rs.
Proof.
  induction 1 as [|r rs Hr _ IH]; [done|]. cbn. rewrite <-app_assoc, split_lf_plain by done. cbn.
  rewrite app_nil_r, rev_involutive. by rewrite IH.
Qed.

(** The text of a row without its line feed. *)
Definition row_line (p : string * bytes) : string :=
  p.1 +:+ tab +:+ of_bytes p.2 +:+ tab +:+ tab +:+ "END".

Definition row_ok (n : nat) (p : string * bytes) : Prop :=
  plain_name p.1 ∧ starts_with "refs/heads/" p.1 = true ∧ valid_oid p.2 = true ∧ length p.2 = n.

Lemma hex_plain o : valid_oid o = true → Forall (λ b, 32 < Z_of_byte b) o.
Proof.
  unfold valid_oid. intros H. bool_to_prop. rewrite forallb_forall in *. apply Forall_forall.
  intros b Hb%list_elem_of_In. specialize (H0 b Hb). unfold lower_hexdigit, between in H0.
  bool_to_prop. destruct H0; bool_to_prop; lia.
Qed.

Lemma plain_no_lf bs : Forall (λ b, 32 < Z_of_byte b) bs → no_lf bs.
Proof.
  intros H. eapply Forall_impl; [done|]. intros b Hb. cbv beta in Hb. unfold byte_is. apply Z.eqb_neq. lia.
Qed.

Lemma row_line_no_lf n p : row_ok n p → no_lf (as_bytes (row_line p)).
Proof.
  intros (H1 & _ & H2 & _). unfold row_line, no_lf. rewrite !as_bytes_app, as_of_bytes.
  apply plain_no_lf in H1. apply hex_plain, plain_no_lf in H2.
  repeat (apply Forall_app; split); try done; repeat constructor.
Qed.

Lemma concat_rows rows :
  as_bytes (String.concat "" (ref_row <$> rows))
  = concat ((λ r, r ++ [byte_of_Z 10]) <$> (as_bytes ∘ row_line <$> rows)).
Proof.
  induction rows as [|p rows IH]; [done|].
  assert (as_bytes (ref_row p) = as_bytes (row_line p) ++ [byte_of_Z 10]) as Hp.
  { unfold ref_row, row_line, lf. rewrite !as_bytes_app, !as_of_bytes, <-!app_assoc. done. }
  rewrite !fmap_cons. destruct rows as [|q rows].
  - cbn -[as_bytes ref_row row_line]. rewrite Hp. cbn. by rewrite app_nil_r.
  - change (String.concat "" (ref_row p :: (ref_row <$> q :: rows)))
      with (ref_row p +:+ String.concat "" (ref_row <$> q :: rows)).
    rewrite as_bytes_app, IH, Hp. done.
Qed.

Lemma strip_crs_id b ls :
  Forall (λ l, strip_cr l = l) ls → strip_crs b ls = ls.
Proof.
  induction 1 as [|l ls Hl Hls IH]; [done|]. cbn. rewrite Hl. destruct ls; [by destruct b|]. by rewrite IH.
Qed.

Lemma row_line_strip p : strip_cr (as_bytes (row_line p)) = as_bytes (row_line p).
Proof.
  unfold row_line. rewrite !as_bytes_app. unfold strip_cr. rewrite !rev_app_distr. done.
Qed.

Lemma lines_rows n rows :
  Forall (row_ok n) rows → lines (String.concat "" (ref_row <$> rows)) = row_line <$> rows.
Proof.
  intros H. unfold lines. rewrite concat_rows, split_lf_rows.
  - rewrite strip_crs_id.
    + rewrite <-list_fmap_compose. apply list_fmap_ext. intros i p _. cbn. apply of_as_bytes.
    + apply Forall_fmap, Forall_forall. intros p _. apply row_line_strip.
  - apply Forall_fmap. eapply Forall_impl; [done|]. intros p Hp. by eapply row_line_no_lf.
Qed.

Lemma plain_no_tab s : plain_name s → forallb (λ c, negb (is_tab c)) (String.list_ascii_of_string s) = true.
Proof.
  unfold plain_name, as_bytes. induction s as [|c s IH]; intros H; [done|].
  apply Forall_cons in H as [Hc H]. cbn. rewrite IH by done. rewrite andb_true_r.
  unfold is_tab, byte_is. apply negb_true_iff, Z.eqb_neq. cbn in Hc. lia.
Qed.

Definition tab_sep (a b : string) : string := a +:+ tab +:+ b.

Lemma split_row_line n p :
  row_ok n p → split_on is_tab (row_line p) = [p.1; of_bytes p.2; ""; "END"].
Proof.
  intros (H1 & _ & H2 & _). unfold row_line.
  assert (plain_name (of_bytes p.2)) as H2'.
  { unfold plain_name. rewrite as_of_bytes. by apply hex_plain. }
  assert (∀ x y, tab_sep x y = x +:+ String (Ascii.ascii_of_byte (byte_of_Z 9)) y) as Hs by done.
  change (split_on is_tab (tab_sep p.1 (tab_sep (of_bytes p.2) (tab_sep "" "END")))
          = [p.1; of_bytes p.2; ""; "END"]).
  rewrite !Hs, !split_on_sep by (done || by apply plain_no_tab). done.
Qed.

Lemma valid_hex_oid o : valid_oid o = true → is_hex_oid (of_bytes o) = true.
Proof.
  unfold valid_oid, is_hex_oid. rewrite as_of_bytes, !andb_true_iff, !forallb_forall.
  intros [Hl Hh]. split; [done|]. intros b Hb. specialize (Hh b Hb). unfold ascii_hexdigit.
  apply orb_true_iff. by left.
Qed.

(** The text of a branch's object, empty when there is no branch. *)
Definition tip_text (o : option bytes) : string := match o with Some o => of_bytes o | None => "" end.

Lemma tip_rows_ok n ref rows observed tip :
  Forall (row_ok n) rows → NoDup rows.*1 → Forall (λ p, p.1 ∉ observed) rows →
  tip_rows ref observed tip (row_line <$> rows)
  = Ok (match list_find (λ p, p.1 = ref) rows with Some (_, p) => of_bytes p.2 | None => tip end).
Proof.
  intros Hr. revert observed tip. induction Hr as [|p rows Hp Hr IH]; intros obs tip Hnd Ho; [done|].
  cbn [fmap list_fmap] in *. apply NoDup_cons in Hnd as [Hx Hnd]. apply Forall_cons in Ho as [Hpo Ho].
  cbn [tip_rows]. rewrite (split_row_line n) by done.
  destruct Hp as (H1 & H2 & H3 & H4). rewrite H2. cbn [andb mbind res_bind ensure str_eqb].
  rewrite !bool_decide_eq_true_2 by done. cbn [mbind res_bind ensure].
  rewrite valid_hex_oid by done. cbn [mbind res_bind ensure]. rewrite IH.
  - cbn. unfold str_eqb. destruct (decide (p.1 = ref)) as [E|E].
    + rewrite bool_decide_eq_true_2 by done.
      destruct (list_find _ rows) as [[i q]|] eqn:Ef; [|done].
      apply list_find_Some in Ef as (Hq & Hqr & _). exfalso. apply Hx. rewrite E, <-Hqr.
      apply list_elem_of_fmap. exists q. split; [done|]. by eapply list_elem_of_lookup_2.
    + rewrite bool_decide_eq_false_2 by done. by destruct (list_find _ rows) as [[]|].
  - done.
  - apply Forall_forall. intros q Hq. rewrite Forall_forall in Ho. specialize (Ho q Hq).
    apply not_elem_of_union. split; [|done]. intros E%elem_of_singleton. apply Hx. rewrite <-E.
    apply list_elem_of_fmap. eauto.
Qed.

Lemma packed_found target n p p' ls o :
  packed_lines target n p ls = Ok p' → found p' = Some o →
  found p = Some o ∨
  (valid_oid o = true ∧ length o = n ∧ all_zero o = false ∧ Forall (λ b, 32 < Z_of_byte b) target).
Proof.
  revert p. induction ls as [|l ls IH]; intros p H Hf; cbn in H; [invert_ok; subst; auto|].
  apply bind_ok in H as (p1 & H1 & H). destruct (IH _ H Hf) as [H2|]; [|auto]. clear IH H Hf.
  unfold packed_line in H1. destruct (line_content l) as [|x rest]; [done|].
  destruct (byte_is 35 x); [invert_ok; subst; auto|].
  destruct (byte_is 94 x); [invert_ok; subst; auto|].
  destruct (split_space _) as [[oid name]|]; [|done]. invert_ok. subst p1. cbn in H2.
  case_bool_decide as Ht; [|auto]. injection H2 as <-. right. unfold packed_row_ok in *. bool_to_prop.
  split_and!; [done|by apply Nat.eqb_eq|done|]. apply Forall_forall. intros b Hb. apply Z.nle_gt. intros Hle.
  match goal with H : existsb _ _ = false |- _ => rename H into He end.
  rewrite <-not_true_iff_false, existsb_exists in He. apply He. exists b. subst name.
  split; [by apply list_elem_of_In|]. apply orb_true_iff. left. by apply Z.leb_le.
Qed.

Lemma resolve_ok n r name o :
  wf_refs n r → resolve n r name = Some o →
  plain_name name ∧ valid_oid o = true ∧ length o = n ∧ all_zero o = false.
Proof.
  intros Hw. unfold resolve. destruct (loose r !! name) as [c|] eqn:El; cbn.
  - destruct (wf_loose _ _ Hw _ _ El) as (Hp & _ & o' & Ho & Hn). rewrite Ho. cbn. intros [= <-].
    split; [done|]. unfold loose_oid in Ho. invert_ok. subst. bool_to_prop. done.
  - pose proof (wf_packed _ _ Hw name) as Hok. unfold packed_value in *.
    destruct (packed_refs r) as [c|]; [|done]. unfold parse_packed.
    destruct (packed_lines _ n packed_start _) as [p'| |] eqn:Ep; [|done..]. cbn. intros Hf.
    destruct (packed_found _ _ _ _ _ _ Ep Hf) as [?|(? & ? & ? & ?)]; done.
Qed.

(** [scratch_tip] finds the branch, or nothing. *)
Lemma parse_tip_ok n for_each_ref `{!ForEachRef n for_each_ref} r ref :
  wf_refs n r → starts_with "refs/heads/" ref = true →
  parse_tip ref (for_each_ref r) = Ok (tip_text (resolve n r ref)).
Proof.
  intros Hw Hs. destruct (for_each_ref_rows r Hw) as (rows & -> & Hnd & Hrows).
  assert (Forall (row_ok n) rows) as Hok.
  { apply Forall_forall. intros [name o] Hin. apply Hrows in Hin as [H1 H2].
    destruct (resolve_ok _ _ _ _ Hw H2) as (? & ? & ? & _). done. }
  unfold parse_tip. rewrite (lines_rows n), (tip_rows_ok n) by (done || apply Forall_true; set_solver).
  f_equal. destruct (list_find _ rows) as [[i [name o]]|] eqn:Ef.
  - apply list_find_Some in Ef as (Hi & E & _). cbn in E. subst name.
    apply list_elem_of_lookup_2, Hrows in Hi as [_ ->]. done.
  - apply list_find_None in Ef. destruct (resolve n r ref) as [o|] eqn:Er; [|done].
    rewrite Forall_forall in Ef. exfalso. apply (Ef (ref, o)); [|done]. by apply Hrows.
Qed.

(** A listing that keeps the promise. *)

Definition packed_row_names (c : bytes) : list string :=
  omap (λ l, of_bytes ∘ snd <$> split_space (line_content l)) (lines_inclusive [] c).
Definition ref_names (r : Refs) : gset string :=
  dom (loose r) ∪ match packed_refs r with Some c => list_to_set (packed_row_names c) | None => ∅ end.
Definition listed_rows (n : nat) (r : Refs) : list (string * bytes) :=
  omap (λ name, (if starts_with "refs/heads/" name then pair name <$> resolve n r name else None))
    (elements (ref_names r)).
Definition listed_refs (n : nat) (r : Refs) : string := String.concat "" (ref_row <$> listed_rows n r).

Lemma packed_found_line target n p p' ls o :
  packed_lines target n p ls = Ok p' → found p' = Some o →
  found p = Some o ∨ ∃ l oid, l ∈ ls ∧ split_space (line_content l) = Some (oid, target).
Proof.
  revert p. induction ls as [|l ls IH]; intros p H Hf; cbn in H; [invert_ok; subst; auto|].
  apply bind_ok in H as (p1 & H1 & H).
  destruct (IH _ H Hf) as [H2|(l' & oid & Hl & Hs)]; [|right; exists l', oid; split; [by right|done]].
  clear IH H Hf. unfold packed_line in H1. destruct (line_content l) as [|x rest] eqn:El; [done|].
  destruct (byte_is 35 x); [invert_ok; subst; auto|].
  destruct (byte_is 94 x); [invert_ok; subst; auto|].
  destruct (split_space _) as [[oid name]|] eqn:Es; [|done]. invert_ok. subst p1. cbn in H2.
  case_bool_decide as Ht; [|auto]. subst name. right. exists l, oid. split; [by left|by rewrite El].
Qed.

Lemma resolve_named n r name o : resolve n r name = Some o → name ∈ ref_names r.
Proof.
  unfold resolve, ref_names. intros H. apply elem_of_union. destruct (loose r !! name) as [c|] eqn:El.
  { left. by apply elem_of_dom. }
  right. cbn in H. unfold packed_value in H. destruct (packed_refs r) as [c|]; [|done]. unfold parse_packed in H.
  destruct (packed_lines _ n packed_start _) as [p'| |] eqn:Ep; [|done..]. cbn in H.
  destruct (packed_found_line _ _ _ _ _ _ Ep H) as [?|(l & oid & Hl & Hs)]; [done|].
  apply elem_of_list_to_set, list_elem_of_omap. exists l. split; [done|]. rewrite Hs. cbn [fmap option_fmap option_map compose snd].
  by rewrite of_as_bytes.
Qed.

Lemma omap_fst_NoDup (f : string → option bytes) l :
  NoDup l → NoDup ((omap (λ x, pair x <$> f x) l).*1).
Proof.
  induction 1 as [|x l Hx _ IH]; cbn; [constructor|]. destruct (f x) as [y|]; [|done]. cbn.
  apply NoDup_cons. split; [|done]. intros ([a b] & -> & Hin)%list_elem_of_fmap.
  apply list_elem_of_omap in Hin as (z & Hz & E). destruct (f z); [|done]. injection E as <- _. done.
Qed.

#[export] Instance listed_refs_ok n : ForEachRef n (listed_refs n).
Proof.
  intros r _. exists (listed_rows n r). split; [done|].
  set (f := λ name, if starts_with "refs/heads/" name then resolve n r name else None).
  assert (listed_rows n r = omap (λ x, pair x <$> f x) (elements (ref_names r))) as ->.
  { unfold listed_rows, f. apply list_omap_ext. apply Forall_Forall2_diag, Forall_true. intros name.
    by destruct (starts_with _ name). }
  split; [apply omap_fst_NoDup, NoDup_elements|]. intros name o. rewrite list_elem_of_omap. unfold f. split.
  - intros (x & _ & E). destruct (starts_with "refs/heads/" x) eqn:Es; [|done].
    destruct (resolve n r x) as [o'|] eqn:Er; [|done]. by injection E as <- <-.
  - intros [Hs Hr]. exists name. rewrite Hs, Hr. split; [|done]. apply elem_of_elements.
    by eapply resolve_named.
Qed.

(** ** The stages of a deletion *)

Lemma length_concat_sublist (ls ls' : list bytes) :
  sublist ls' ls → (length (concat ls') ≤ length (concat ls))%nat.
Proof. induction 1; cbn; rewrite ?length_app; lia. Qed.

Lemma parse_packed_size content target n o out :
  parse_packed content target n = Ok (o, out) → blen out ≤ blen content.
Proof.
  unfold parse_packed. intros H. apply bind_ok in H as (a & Ha & H). injection H as <- <-.
  destruct (packed_lines_agree _ [] _ _ _ _ _ _ (agree_start _ []) Ha)
    as (b & kept & c & _ & Hs & Ho & _ & _).
  rewrite Ho. cbn. apply length_concat_sublist in Hs.
  pose proof (lines_inclusive_spec [] content (Forall_nil_2 _)) as [_ E]. cbn in E.
  rewrite E in Hs. unfold blen. lia.
Qed.

Section deletion.
Context (n : nat) (ref : string) (refs0 : Refs).

Definition expected_oid (o : option bytes) : bytes := match o with Some o => o | None => zeros n end.

Definition candidate (r : Refs) : option bytes :=
  match packed_value (packed_refs r) ref n with Ok (Some _, out) => Some out | _ => None end.
Definition prepared (r : Refs) : PreparedRefDeletion :=
  mk_prepared ref n (loose r !! ref) (packed_refs r) (candidate r) (reflogs r !! ref).

Lemma all_zero_zeros : all_zero (zeros n) = true.
Proof. unfold all_zero, zeros. apply forallb_forall. intros b Hb%list_elem_of_In.
  by apply elem_of_replicate in Hb as [-> _].
Qed.

Lemma read_regular_ok c : (∀ bs, c = Some bs → blen bs ≤ MAX_METADATA) → read_regular c = Ok c.
Proof.
  intros H. unfold read_regular. destruct c as [bs|]; [|done].
  rewrite (proj2 (Z.leb_le _ _) (H _ eq_refl)). done.
Qed.

Lemma read_prepared_ok r :
  wf_refs n r → read_prepared r ref (expected_oid (resolve n r ref)) = Ok (prepared r).
Proof.
  intros Hw. unfold read_prepared.
  assert (length (expected_oid (resolve n r ref)) = n) as Hlen.
  { destruct (resolve n r ref) as [o|] eqn:E; cbn [expected_oid]; [|apply length_replicate].
    by apply (resolve_ok _ _ _ _ Hw) in E as (_ & _ & ? & _). }
  rewrite Hlen.
  assert ((if all_zero (expected_oid (resolve n r ref)) then None
           else Some (expected_oid (resolve n r ref))) = resolve n r ref) as ->.
  { destruct (resolve n r ref) as [o|] eqn:E; cbn [expected_oid]; [|by rewrite all_zero_zeros].
    apply (resolve_ok _ _ _ _ Hw) in E as (_ & _ & _ & ->). done. }
  rewrite (read_regular_ok (loose r !! ref)) by (by intros bs (_ & ? & _)%(wf_loose _ _ Hw)).
  rewrite (read_regular_ok (packed_refs r)) by apply (wf_packed_size _ _ Hw).
  rewrite (read_regular_ok (reflogs r !! ref)) by apply (wf_reflog _ _ Hw).
  cbn [mbind res_bind].
  pose proof (wf_packed _ _ Hw ref) as Hok.
  assert (∃ lo, loose_value (loose r !! ref) = Ok lo) as [lo Hlo].
  { destruct (loose r !! ref) as [c|] eqn:E; cbn; [|eauto].
    destruct (wf_loose _ _ Hw _ _ E) as (_ & _ & o & -> & _). cbn. eauto. }
  unfold prepared, candidate. rewrite Hlo. cbn [mbind res_bind].
  destruct (packed_value (packed_refs r) ref n) as [[po out]| |] eqn:Ep; [|done..].
  cbn [mbind res_bind]. rewrite bool_decide_eq_true_2; [by destruct po|].
  unfold resolve. rewrite Hlo, Ep. by destruct lo.
Qed.

Definition packed_after : option bytes :=
  match candidate refs0 with Some c => Some c | None => packed_refs refs0 end.

(** After [i] of the three steps. *)
Definition erased (i : nat) : Refs :=
  mk_refs (if decide (2 ≤ i)%nat then delete ref (loose refs0) else loose refs0)
    (if decide (1 ≤ i)%nat then packed_after else packed_refs refs0)
    (if decide (3 ≤ i)%nat then delete ref (reflogs refs0) else reflogs refs0).

Lemma erased_0 : erased 0 = refs0.
Proof. unfold erased. rewrite !decide_False by lia. by destruct refs0. Qed.

Hypothesis Hwf : wf_refs n refs0.

Lemma packed_after_value :
  (∃ out, packed_value packed_after ref n = Ok (None, out)) ∧
  (∀ t, t ≠ ref → ∃ o out1 out2, packed_value (packed_refs refs0) t n = Ok (o, out1) ∧
     packed_value packed_after t n = Ok (o, out2)) ∧
  (∀ c, packed_after = Some c → blen c ≤ MAX_METADATA).
Proof.
  pose proof (λ t, wf_packed _ _ Hwf t) as Hok. pose proof (wf_packed_size _ _ Hwf) as Hsz.
  unfold packed_after, candidate, packed_value in *.
  destruct (packed_refs refs0) as [c|]; [|by split_and!; eauto].
  destruct (parse_packed c ref n) as [[o out]| |] eqn:Ep.
  - pose proof (parse_packed_removes _ _ _ _ _ Ep) as [H1 H2].
    destruct o as [o|].
    + split_and!; [eauto|done|]. intros c' [= <-]. apply parse_packed_size in Ep.
      specialize (Hsz _ eq_refl). lia.
    + split_and!; [eauto| |done]. intros t Ht. destruct (H2 t Ht) as (f & o1 & o2 & -> & _). eauto.
  - specialize (Hok ref). by rewrite Ep in Hok.
  - specialize (Hok ref). by rewrite Ep in Hok.
Qed.

Lemma erased_wf i : wf_refs n (erased i).
Proof.
  destruct packed_after_value as ([out Hp] & Ho & Hsz). split; cbn.
  - intros name c H. apply (wf_loose _ _ Hwf name c). destruct (decide _); [|done].
    by apply lookup_delete_Some in H as [_ H].
  - intros name. destruct (decide _); [|apply (wf_packed _ _ Hwf)].
    destruct (decide (name = ref)) as [->|Hne]; [by rewrite Hp|].
    destruct (Ho _ Hne) as (o & o1 & o2 & _ & ->). done.
  - intros c. destruct (decide _); [by apply Hsz|apply (wf_packed_size _ _ Hwf)].
  - intros name c H. apply (wf_reflog _ _ Hwf name c). destruct (decide _); [|done].
    by apply lookup_delete_Some in H as [_ H].
Qed.

Lemma resolve_erased_other i name : name ≠ ref → resolve n (erased i) name = resolve n refs0 name.
Proof.
  intros Hne. destruct packed_after_value as (_ & Ho & _).
  destruct (Ho _ Hne) as (o & o1 & o2 & H1 & H2). unfold resolve. cbn.
  assert ((if decide (2 ≤ i)%nat then delete ref (loose refs0) else loose refs0) !! name
          = loose refs0 !! name) as ->.
  { destruct (decide _); [by rewrite lookup_delete_ne|done]. }
  destruct (decide (1 ≤ i)%nat); [|done]. by rewrite H1, H2.
Qed.

Lemma resolve_erased i :
  resolve n (erased i) ref = resolve n refs0 ref ∨ resolve n (erased i) ref = None.
Proof.
  destruct packed_after_value as ([out Hp] & _ & _). unfold resolve. cbn.
  destruct (decide (1 ≤ i)%nat); [|left; by rewrite decide_False by lia].
  rewrite Hp. destruct (decide (2 ≤ i)%nat); [right; by rewrite lookup_delete_eq|].
  destruct (loose_value _) as [[]| |]; auto.
Qed.
Lemma resolve_erased_gone i : (2 ≤ i)%nat → resolve n (erased i) ref = None.
Proof.
  intros Hi. destruct packed_after_value as ([out Hp] & _ & _). unfold resolve. cbn.
  rewrite !decide_True, Hp, lookup_delete_eq by lia. done.
Qed.

Lemma candidate_erased i : (1 ≤ i)%nat → candidate (erased i) = None.
Proof.
  intros Hi. unfold candidate. cbn. rewrite decide_True by done.
  by destruct packed_after_value as ([out ->] & _).
Qed.

Lemma exchange_erased i : exchange_packed (prepared (erased i)) (erased i) = erased (Nat.max 1 i).
Proof.
  unfold exchange_packed. cbn. destruct (decide (1 ≤ i)%nat) as [Hi|Hi].
  - rewrite candidate_erased, (Nat.max_r 1 i) by done. unfold erased. by rewrite (decide_True (P := (1 ≤ i)%nat)).
  - assert (i = 0)%nat as -> by lia. unfold erased, packed_after. cbn. done.
Qed.

Lemma loose_erased i :
  quarantine_loose (prepared (erased i)) (erased (Nat.max 1 i)) = erased (Nat.max 2 i).
Proof.
  unfold quarantine_loose. cbn.
  assert ((if loose (erased i) !! ref is Some _ then delete ref (loose (erased (Nat.max 1 i)))
           else loose (erased (Nat.max 1 i))) = delete ref (loose refs0)) as E.
  { cbn. destruct (decide (2 ≤ i)%nat) as [Hi|Hi].
    - rewrite (decide_True (P := (2 ≤ Nat.max 1 i)%nat)) by lia. by rewrite lookup_delete_eq.
    - rewrite (decide_False (P := (2 ≤ Nat.max 1 i)%nat)) by lia.
      destruct (loose refs0 !! ref) eqn:El; [done|]. by rewrite delete_id. }
  cbn in E. rewrite E. unfold erased.
  rewrite (decide_True (P := (2 ≤ Nat.max 2 i)%nat)), (decide_True (P := (1 ≤ Nat.max 1 i)%nat)),
    (decide_True (P := (1 ≤ Nat.max 2 i)%nat)) by lia. f_equal.
  destruct (decide (3 ≤ i)%nat);
    [rewrite !decide_True by lia|rewrite !decide_False by lia]; done.
Qed.

Lemma reflog_erased i :
  (i ≤ 3)%nat → quarantine_reflog (prepared (erased i)) (erased (Nat.max 2 i)) = erased 3.
Proof.
  intros Hi3. unfold quarantine_reflog, erased. cbn.
  rewrite (decide_True (P := (2 ≤ Nat.max 2 i)%nat)), (decide_True (P := (1 ≤ Nat.max 2 i)%nat)) by lia.
  f_equal. destruct (decide (3 ≤ i)%nat) as [Hi|Hi].
  - rewrite (decide_True (P := (3 ≤ Nat.max 2 i)%nat)) by lia. by rewrite lookup_delete_eq.
  - rewrite (decide_False (P := (3 ≤ Nat.max 2 i)%nat)) by lia.
    destruct (reflogs refs0 !! ref) eqn:El; [done|]. by rewrite delete_id.
Qed.

Lemma snapshots_ok r : verify_snapshots (prepared r) r = Ok ().
Proof. unfold verify_snapshots. cbn. by rewrite !bool_decide_eq_true_2. Qed.

Lemma deleted_ok i : verify_deleted (prepared (erased i)) (erased 3) = Ok ().
Proof.
  destruct packed_after_value as ([out Hp] & _ & Hsz). unfold verify_deleted.
  cbn [prepared full_ref oid_len erased reflogs loose packed_refs].
  rewrite !decide_True by lia. rewrite !lookup_delete_eq, read_regular_ok by done.
  rewrite bool_decide_eq_true_2 by done. cbn [mbind res_bind ensure]. rewrite Hp. done.
Qed.

(** Each step is skipped when there is nothing to do, with the same result. *)
Lemma skip_exchange i : pr_packed_candidate (prepared (erased i)) = None → erased i = erased (Nat.max 1 i).
Proof. intros H. rewrite <-exchange_erased. unfold exchange_packed. rewrite H. by destruct (erased i). Qed.
Lemma skip_loose i : pr_loose (prepared (erased i)) = None → erased (Nat.max 1 i) = erased (Nat.max 2 i).
Proof. intros H. rewrite <-loose_erased. unfold quarantine_loose. rewrite H. by destruct (erased _). Qed.
Lemma skip_reflog i :
  (i ≤ 3)%nat → pr_reflog (prepared (erased i)) = None → erased (Nat.max 2 i) = erased 3.
Proof.
  intros Hi H. rewrite <-(reflog_erased i Hi). unfold quarantine_reflog. rewrite H. by destruct (erased _).
Qed.
Lemma nothing_left i :
  (i ≤ 3)%nat → nothing_to_delete (prepared (erased i)) = true → erased i = erased 3.
Proof.
  unfold nothing_to_delete. intros Hi H. bool_to_prop.
  rewrite skip_exchange by (by apply eq_None_not_Some).
  rewrite skip_loose by (by apply eq_None_not_Some).
  by apply skip_reflog; [|apply eq_None_not_Some].
Qed.
End deletion.
