(* ===== verification/CleanupInvariant.v ===== *)
(** * The invariant of a journaled removal

    The repository and the container at the start of a removal, and the worlds
    every call of the removal can leave: one for each phase of the journal.
    Everything the removal has no business with is as it was at the start, which
    is why the data of such a world is rebuilt from the first one and a [View] of
    the few places that may differ. *)

From stdpp Require Import base list gmap strings pretty.
From Stdlib Require Import ZArith Lia Bool.
From S2P Require Import Prelude OrderedMap Paths Config Isolation IsolationProofs RefTransaction RefProofs CleanupWorld Cleanup CleanupLogic GitRefs.

(** ** The start *)

Section invariant.
Context (canonicalize digest : string → string) (for_each_ref : Refs → string).
Context (state_dir : string) (r : IsolationRecord).

Notation jname := (journal_name digest r).
Notation ref := (branch_ref r).
Notation gpath := (git_path r).

(** What the removal finds at the start: the repository with its other
    registrations, the registration of the work tree, and the work tree, if it is
    still there. *)
Record Start := mk_start {
  s_data : Data;
  s_git : GitDir;
  s_folder : Ident;
  s_dirs : gmap string DirNode;
  s_name : string;
  s_reg : DirNode;
  s_tree : option DirNode;
  s_canonical : string;
  s_oid_len : nat
}.
Context (s : Start).

Definition short (o : option string) : Prop := ∀ x, o = Some x → str_len x ≤ 65536.

(** A registration of another work tree. *)
Definition sibling_ok (n : DirNode) : Prop :=
  ∃ head backlink, d_files n !! "HEAD" = Some head ∧ d_files n !! "gitdir" = Some backlink ∧
    validate_head head = Ok () ∧ trim head ≠ scratch_head r ∧
    backlink_ok (worktree_path r) (s_canonical s) backlink = false ∧
    short (Some head) ∧ short (Some backlink).

(** The registration of this one. *)
Definition own_registration_ok (n : DirNode) : Prop :=
  ∃ head backlink commondir, d_files n !! "HEAD" = Some head ∧ d_files n !! "gitdir" = Some backlink ∧
    d_files n !! "commondir" = Some commondir ∧
    validate_head head = Ok () ∧ backlink_ok (worktree_path r) (s_canonical s) backlink = true ∧
    trim commondir = "../.." ∧ short (Some head) ∧ short (Some backlink) ∧ short (Some commondir).

Definition quarantine_dirs (g : GitDir) : gmap string DirNode :=
  match g_quarantine g with Some f => f_dirs f | None => ∅ end.

Record ready : Prop := {
  rd_hold : check_removal (holds (s_data s)) (worktree_path r) = Ok ();
  rd_kind : rec_isolation r = MountIsolation.Worktree;
  rd_branch : scratch_branch r = branch_name (container_name r) None;
  rd_ref : validate_ref ref = Ok ();
  rd_path : path_eqb (worktree_path r) (worktree_path_for state_dir (mount_dst r) (container_name r)) = true;
  rd_contained : contained state_dir (worktree_path r) = true;
  rd_canonical : canonical_worktree canonicalize state_dir r = Ok (s_canonical s);
  rd_git_canonical : canonicalize (pinned_git_path canonicalize r) = pinned_git_path canonicalize r;
  rd_repo : repos (s_data s) !! gpath = Some (s_git s);
  rd_common : g_commondir (s_git s) = None;
  rd_head : ∃ head, g_head (s_git s) = Some head ∧ short (Some head) ∧ validate_head head = Ok () ∧
    trim head ≠ scratch_head r;
  rd_files : trim (g_ref_format (s_git s)) = "files";
  rd_objects : (trim (g_object_format (s_git s)) = "sha1" ∧ s_oid_len s = 40%nat) ∨
    (trim (g_object_format (s_git s)) = "sha256" ∧ s_oid_len s = 64%nat);
  rd_refs : wf_refs (s_oid_len s) (g_refs (s_git s));
  rd_worktrees : g_worktrees (s_git s) = Some (mk_folder (s_folder s) (s_dirs s));
  rd_own : s_dirs s !! s_name s = Some (s_reg s);
  rd_own_ok : own_registration_ok (s_reg s);
  rd_names name : is_Some (s_dirs s !! name) → child_name_ok name = true;
  rd_siblings name n : s_dirs s !! name = Some n → name ≠ s_name s → sibling_ok n;
  rd_ids name name' n n' : s_dirs s !! name = Some n → s_dirs s !! name' = Some n' →
    d_id n = d_id n' → name = name';
  rd_tree : trees (s_data s) !! worktree_path r = s_tree s;
  rd_tree_ok : ∀ t, s_tree s = Some t →
    ∃ marker, d_files t !! ".git" = Some marker ∧ short (Some marker) ∧
      found_marker_ok canonicalize r (s_name s) marker = true;
  rd_journal : journals (s_data s) !! jname = None;
  rd_record : ∃ rs, read_records state_dir (state (s_data s)) = Ok rs ∧
    record_of rs (mount_dst r) = Some r ∧ NoDup (mount_dst <$> rs)
}.

(** ** Views *)

Record View := mk_view {
  v_state : StateDir;
  v_journal : option CleanupJournal;
  v_tree : option DirNode;
  v_std : option DirNode;
  v_qid : option Ident;
  v_qname : string;
  v_qdir : option DirNode;
  v_refs : Refs
}.

Definition build_git (v : View) : GitDir :=
  mk_git_dir (g_id (s_git s)) (g_commondir (s_git s)) (g_head (s_git s)) (g_ref_format (s_git s))
    (g_object_format (s_git s))
    (Some (mk_folder (s_folder s) (partial_alter (λ _, v_std v) (s_name s) (s_dirs s))))
    ((λ id, mk_folder id (partial_alter (λ _, v_qdir v) (v_qname v) (quarantine_dirs (s_git s))))
       <$> v_qid v)
    (v_refs v).
Definition build (v : View) : Data :=
  mk_data (v_state v) (holds (s_data s))
    (partial_alter (λ _, Journal <$> v_journal v) jname (journals (s_data s)))
    (partial_alter (λ _, v_tree v) (worktree_path r) (trees (s_data s)))
    (<[gpath := build_git v]> (repos (s_data s))).

Definition with_journal (j : option CleanupJournal) (v : View) : View :=
  mk_view (v_state v) j (v_tree v) (v_std v) (v_qid v) (v_qname v) (v_qdir v) (v_refs v).
Definition with_tree (t : option DirNode) (v : View) : View :=
  mk_view (v_state v) (v_journal v) t (v_std v) (v_qid v) (v_qname v) (v_qdir v) (v_refs v).
Definition with_std (n : option DirNode) (v : View) : View :=
  mk_view (v_state v) (v_journal v) (v_tree v) n (v_qid v) (v_qname v) (v_qdir v) (v_refs v).
Definition with_qid (id : option Ident) (v : View) : View :=
  mk_view (v_state v) (v_journal v) (v_tree v) (v_std v) id (v_qname v) (v_qdir v) (v_refs v).
Definition with_qdir (n : option DirNode) (v : View) : View :=
  mk_view (v_state v) (v_journal v) (v_tree v) (v_std v) (v_qid v) (v_qname v) n (v_refs v).
Definition with_refs (rf : Refs) (v : View) : View :=
  mk_view (v_state v) (v_journal v) (v_tree v) (v_std v) (v_qid v) (v_qname v) (v_qdir v) rf.
Definition with_v_state (st : StateDir) (v : View) : View :=
  mk_view st (v_journal v) (v_tree v) (v_std v) (v_qid v) (v_qname v) (v_qdir v) (v_refs v).

(** The state file without the record. *)
Definition state_without (st : StateDir) : Prop :=
  remove_record_if_matches r state_dir (state (s_data s)) = Ok st.

(** *** The journal *)

Definition file_of (n : DirNode) (name : string) : string := default "" (d_files n !! name).
Definition start_witness : RegistrationWitness :=
  mk_reg_witness (file_of (s_reg s) "HEAD") (file_of (s_reg s) "gitdir") (file_of (s_reg s) "commondir")
    (t ← s_tree s; d_files t !! ".git").
Definition start_tip : string := tip_text (resolve (s_oid_len s) (g_refs (s_git s)) ref).
Definition the_journal (ph : CleanupPhase.t) (qid : Ident) (qname : string) : CleanupJournal :=
  mk_journal CLEANUP_JOURNAL_VERSION ph (original_src r) (mount_dst r) (workspace_name r)
    (rec_selector_key r) (container_name r) (worktree_path r) (s_canonical s) (scratch_branch r)
    (base_commit r) (common_git_dir canonicalize r) (g_id (s_git s)) (s_name s) (d_id (s_reg s))
    start_witness qname qid (fst ∘ d_id <$> s_tree s) (snd ∘ d_id <$> s_tree s) start_tip.

(** *** The stages *)

(** Part of a directory: the same one, with some of its files. *)
Definition part_of (n n0 : DirNode) : Prop := d_id n = d_id n0 ∧ d_files n ⊆ d_files n0.

Definition tree_stage (ph : CleanupPhase.t) (t : option DirNode) : Prop :=
  match ph with
  | CleanupPhase.Prepared => t = s_tree s
  | CleanupPhase.RemovingWorktree =>
      t = None ∨ ∃ n n0, s_tree s = Some n0 ∧ t = Some n ∧ part_of n n0
  | _ => t = None
  end.
Definition ref_stage (ph : CleanupPhase.t) (rf : Refs) : Prop :=
  match ph with
  | CleanupPhase.Prepared | CleanupPhase.RemovingWorktree | CleanupPhase.WorktreeRemoved =>
      rf = g_refs (s_git s)
  | CleanupPhase.DeletingReference =>
      ∃ i, (i ≤ 3)%nat ∧ rf = erased (s_oid_len s) ref (g_refs (s_git s)) i
  | _ => rf = erased (s_oid_len s) ref (g_refs (s_git s)) 3
  end.
Definition reg_stage (ph : CleanupPhase.t) (std q : option DirNode) : Prop :=
  match ph with
  | CleanupPhase.QuarantiningRegistration =>
      (std = Some (s_reg s) ∧ q = None) ∨ (std = None ∧ q = Some (s_reg s))
  | CleanupPhase.RemovingRegistration =>
      std = None ∧ (q = None ∨ ∃ n, q = Some n ∧ part_of n (s_reg s))
  | CleanupPhase.RegistrationRemoved => std = None ∧ q = None
  | _ => std = Some (s_reg s) ∧ q = None
  end.

(** The name of a quarantined directory is free at the start, and one the journal
    accepts. *)
Definition qname_ok (name : string) : Prop :=
  quarantine_dirs (s_git s) !! name = None ∧ starts_with "q-" name = true ∧
  forallb alnum_or_dash (as_bytes name) = true ∧ child_name_ok name = true.

(** The quarantine directory may have been made by an earlier attempt. *)
Definition qid_ok (id : option Ident) : Prop :=
  g_quarantine (s_git s) = None ∨ id = f_id <$> g_quarantine (s_git s).

Record journaled (ph : CleanupPhase.t) (v : View) : Prop := {
  jd_state : v_state v = state (s_data s);
  jd_qid : ∃ qid, v_qid v = Some qid ∧ v_journal v = Some (the_journal ph qid (v_qname v));
  jd_qname : qname_ok (v_qname v);
  jd_qid_ok : qid_ok (v_qid v);
  jd_tree : tree_stage ph (v_tree v);
  jd_refs : ref_stage ph (v_refs v);
  jd_reg : reg_stage ph (v_std v) (v_qdir v)
}.
(** Before the journal exists. *)
Record untouched (v : View) : Prop := {
  un_state : v_state v = state (s_data s);
  un_journal : v_journal v = None;
  un_qname : qname_ok (v_qname v);
  un_qid : qid_ok (v_qid v);
  un_qdir : v_qdir v = None;
  un_tree : v_tree v = s_tree s;
  un_refs : v_refs v = g_refs (s_git s);
  un_std : v_std v = Some (s_reg s)
}.
(** Everything is removed; what is left is the record, in the end not even it. *)
Record emptied (v : View) : Prop := {
  em_journal : v_journal v = None;
  em_qname : qname_ok (v_qname v);
  em_qid : qid_ok (v_qid v);
  em_qdir : v_qdir v = None;
  em_tree : v_tree v = None;
  em_refs : v_refs v = erased (s_oid_len s) ref (g_refs (s_git s)) 3;
  em_std : v_std v = None
}.

Inductive inv (v : View) : Prop :=
| inv_untouched : untouched v → inv v
| inv_journaled ph : journaled ph v → inv v
| inv_emptied : emptied v → v_state v = state (s_data s) → inv v
| inv_final : emptied v → state_without (v_state v) → inv v.

(** ** Reading and changing a rebuilt world *)

Lemma repo_build v : repo r (build v) = Ok (build_git v).
Proof. unfold repo. cbn [build repos]. by rewrite lookup_insert_eq. Qed.

Lemma dir_tree v : lookup_dir (Place.Tree (worktree_path r)) (build v) = v_tree v.
Proof. cbn [lookup_dir build trees]. apply lookup_partial_alter_eq. Qed.

Lemma dir_std v name :
  lookup_dir (Place.Standard gpath name) (build v)
  = if decide (name = s_name s) then v_std v else s_dirs s !! name.
Proof.
  cbn [lookup_dir build repos]. rewrite lookup_insert_eq.
  cbn [mbind option_bind build_git g_worktrees folder_dir f_dirs].
  destruct (decide (name = s_name s)) as [->|Hne]; [apply lookup_partial_alter_eq|].
  by apply lookup_partial_alter_ne.
Qed.

Lemma dir_quarantined v qid :
  v_qid v = Some qid → lookup_dir (Place.Quarantined gpath (v_qname v)) (build v) = v_qdir v.
Proof.
  intros Hq. cbn [lookup_dir build repos]. rewrite lookup_insert_eq.
  cbn [mbind option_bind build_git g_quarantine]. rewrite Hq.
  cbn [fmap option_fmap option_map folder_dir mbind option_bind f_dirs]. apply lookup_partial_alter_eq.
Qed.

Lemma alter_again {A} (m : gmap string A) i (x y : option A) :
  partial_alter (λ _, y) i (partial_alter (λ _, x) i m) = partial_alter (λ _, y) i m.
Proof. by rewrite partial_alter_partial_alter_eq. Qed.

Lemma set_tree n v : set_dir (Place.Tree (worktree_path r)) n (build v) = build (with_tree n v).
Proof. unfold build, set_dir, set_trees. cbn. f_equal. apply alter_again. Qed.

Lemma update_build v f v' :
  f (build_git v) = build_git v' → v_state v' = v_state v → v_journal v' = v_journal v →
  v_tree v' = v_tree v → update_repo gpath f (build v) = build v'.
Proof.
  intros Hf H1 H2 H3. unfold update_repo, build, set_repos.
  cbn [state holds journals trees repos]. rewrite H1, H2, H3. f_equal.
  rewrite <-Hf. by rewrite alter_insert_eq.
Qed.

Lemma set_std n v : set_dir (Place.Standard gpath (s_name s)) n (build v) = build (with_std n v).
Proof.
  apply update_build; try done. unfold build_git, set_worktrees. cbn. do 3 f_equal. apply alter_again.
Qed.
Lemma set_qdir n v :
  set_dir (Place.Quarantined gpath (v_qname v)) n (build v) = build (with_qdir n v).
Proof.
  apply update_build; try done. unfold build_git, set_quarantine. cbn. f_equal.
  destruct (v_qid v); [|done]. cbn. do 2 f_equal. apply alter_again.
Qed.
Lemma change_refs_build f v :
  update_repo gpath (λ g, set_refs (f (g_refs g)) g) (build v) = build (with_refs (f (v_refs v)) v).
Proof. by apply update_build. Qed.

Lemma journal_lookup v : journals (build v) !! jname = Journal <$> v_journal v.
Proof. apply lookup_partial_alter_eq. Qed.
Lemma insert_journal j v :
  set_journals (<[jname := Journal j]> (journals (build v))) (build v) = build (with_journal (Some j) v).
Proof. unfold set_journals, build. cbn. f_equal. apply alter_again. Qed.
Lemma delete_journal v :
  set_journals (delete jname (journals (build v))) (build v) = build (with_journal None v).
Proof. unfold set_journals, build. cbn. f_equal. apply alter_again. Qed.

(** ** What the invariant says *)

Lemma inv_refs v : inv v → ∃ i, (i ≤ 3)%nat ∧ v_refs v = erased (s_oid_len s) ref (g_refs (s_git s)) i.
Proof.
  intros [H|ph H|H _|H _].
  - exists 0%nat. split; [lia|]. by rewrite erased_0, (un_refs _ H).
  - pose proof (jd_refs _ _ H) as Hr. destruct ph; cbn in Hr;
      (eauto || (exists 0%nat; split; [lia|]; by rewrite erased_0) || (exists 3%nat; done)).
  - exists 3%nat. split; [lia|]. apply (em_refs _ H).
  - exists 3%nat. split; [lia|]. apply (em_refs _ H).
Qed.

Lemma inv_qname v : inv v → qname_ok (v_qname v).
Proof. intros [H|ph H|H _|H _]; [apply H..]. Qed.
End invariant.
