(* ===== verification/CleanupSteps.v ===== *)
(** * The parts of a removal against the invariant

    Each read, check and inventory of the removal succeeds in every world of the
    invariant, with the locks of the transaction accounted for. *)

From stdpp Require Import base list gmap strings pretty.
From Stdlib Require Import ZArith Lia Bool.
From S2P Require Import Prelude OrderedMap Paths Config Isolation RefTransaction CleanupWorld Cleanup CleanupLogic GitRefs CleanupInvariant.

Section steps.
Context (canonicalize digest : string → string) (for_each_ref : Refs → string).
Context (state_dir : string) (r : IsolationRecord) (s : Start) (p : N).
Context `{!ForEachRef (s_oid_len s) for_each_ref}.
Hypothesis Hready : ready canonicalize digest state_dir r s.

Notation build := (build digest r s).
Notation inv := (inv canonicalize state_dir r s).
Notation W v k := (mk_world (build v) k).
Notation ref := (branch_ref r).
Notation gpath := (git_path r).

(** What a stopped removal leaves. *)
Definition stopped (b : bool) (w : World) : Prop :=
  ∃ v k, w = W v k ∧ inv v ∧ K_stop p b k.
(** A world of the invariant, in which a call may be made. *)
Definition good (v : View) (k : Locks) : Prop := inv v ∧ ∀ b, K_stop p b k.

Lemma good_stopped v k : good v k → ∀ b, stopped b (W v k).
Proof. intros [Hi Hk] b. by exists v, k. Qed.
Lemma locks_stopped v : inv v → ∀ b k, K_stop p b k → stopped b (W v k).
Proof. intros Hi b k Hk. by exists v, k. Qed.
Lemma good_running v ps k : inv v → running p ps k → good v k.
Proof. intros Hi Hk. split; [done|]. intros b. by eapply running_stop. Qed.
Lemma good_idle v k : inv v → K_idle p k → good v k.
Proof. intros Hi Hk. split; [done|]. intros b. by apply idle_stop. Qed.

Section calls.
Context {A : Type} (Q : A → World → Prop).

Lemma wp_look_v f a v k :
  good v k → f (build v) = Ok a → Q a (W v k) → wp (look f) Q stopped (W v k).
Proof. intros Hg Hf HQ. eapply wp_look; [done|by apply good_stopped|done]. Qed.

Lemma wp_look_repo f a v k :
  good v k → f (build_git s v) = Ok a → Q a (W v k) → wp (look_repo r f) Q stopped (W v k).
Proof. intros Hg Hf HQ. eapply wp_look_v; [done| |done]. by rewrite repo_build. Qed.
End calls.

Lemma wp_change_v Q f v v' k :
  good v k → f (build v) = Ok (build v') → inv v' → Q () (W v' k) → wp (change f) Q stopped (W v k).
Proof.
  intros Hg Hf Hi HQ. eapply wp_change; [done|by apply good_stopped| |done].
  apply good_stopped. by split; [|apply Hg].
Qed.

(** ** Reads of the repository *)

Lemma wp_verify_git Q v k :
  good v k → Q () (W v k) → wp (verify_git r (g_id (s_git s))) Q stopped (W v k).
Proof. intros Hg HQ. eapply wp_look_repo; [done| |done]. by rewrite bool_decide_eq_true_2. Qed.

Lemma wp_open_worktrees Q v k :
  good v k → Q (Some (s_folder s)) (W v k) → wp (open_folder r g_worktrees) Q stopped (W v k).
Proof. intros Hg HQ. by eapply wp_look_repo. Qed.
Lemma wp_verify_worktrees Q v k :
  good v k → Q () (W v k) → wp (verify_folder r g_worktrees (s_folder s)) Q stopped (W v k).
Proof. intros Hg HQ. eapply wp_look_repo; [done| |done]. by rewrite bool_decide_eq_true_2. Qed.

Lemma quarantine_id_build v : f_id <$> g_quarantine (build_git s v) = v_qid v.
Proof. cbn. by destruct (v_qid v). Qed.
Lemma wp_open_quarantine Q v k :
  good v k → Q (v_qid v) (W v k) → wp (open_folder r g_quarantine) Q stopped (W v k).
Proof. intros Hg HQ. eapply wp_look_repo; [done| |done]. by rewrite quarantine_id_build. Qed.
Lemma wp_verify_quarantine Q v k qid :
  good v k → v_qid v = Some qid → Q () (W v k) →
  wp (verify_folder r g_quarantine qid) Q stopped (W v k).
Proof.
  intros Hg Hq HQ. eapply wp_look_repo; [done| |done]. rewrite quarantine_id_build, Hq.
  by rewrite bool_decide_eq_true_2.
Qed.

Lemma ref_is_head : starts_with "refs/heads/" ref = true.
Proof. apply starts_with_iff. by exists (scratch_branch r). Qed.

Lemma inv_wf v : inv v → wf_refs (s_oid_len s) (v_refs v).
Proof.
  intros (i & _ & ->)%inv_refs. apply erased_wf. apply (rd_refs _ _ _ _ _ Hready).
Qed.

Definition view_tip (v : View) : string := tip_text (resolve (s_oid_len s) (v_refs v) ref).

Lemma wp_scratch_tip Q v k :
  good v k → Q (view_tip v) (W v k) → wp (scratch_tip for_each_ref r) Q stopped (W v k).
Proof.
  intros Hg HQ. eapply wp_look_repo; [done| |done].
  apply parse_tip_ok; [done|apply inv_wf, Hg|apply ref_is_head].
Qed.

(** ** The host's HEAD *)

Lemma bounded_ok o : short o → bounded o = Ok o.
Proof.
  intros H. unfold bounded. destruct o as [x|]; [|done].
  by rewrite (proj2 (Z.leb_le _ _) (H x eq_refl)).
Qed.

Lemma wp_admit_host_head Q v k :
  good v k → (∀ head, g_head (s_git s) = Some head → Q head (W v k)) →
  wp (admit_host_head r) Q stopped (W v k).
Proof.
  intros Hg HQ. destruct (rd_head _ _ _ _ _ Hready) as (head & Hh & Hs & Hv & Hne).
  unfold admit_host_head, read_host_head. apply wp_bind, wp_bind.
  eapply wp_look_repo; [done| |].
  { cbn [build_git g_head]. rewrite Hh. by apply bounded_ok. }
  eapply wp_lift; [done|]. apply wp_bind. eapply wp_lift; [done|]. apply wp_bind, wp_ensure.
  { unfold str_eqb. by rewrite bool_decide_eq_false_2. }
  apply wp_ret. by apply HQ.
Qed.

Lemma wp_host_head_unchanged Q v k head :
  good v k → g_head (s_git s) = Some head → Q () (W v k) →
  wp (host_head_unchanged r head) Q stopped (W v k).
Proof.
  intros Hg Hh HQ. destruct (rd_head _ _ _ _ _ Hready) as (head' & Hh' & Hs & _).
  assert (head' = head) as -> by congruence. eapply wp_look_repo; [done| |done].
  cbn [build_git g_head]. rewrite Hh, bounded_ok by done. cbn. by rewrite bool_decide_eq_true_2.
Qed.

(** ** Pinned directories *)

Lemma pinned_ok pl n v :
  lookup_dir pl (build v) = Some n → pinned_node (mk_pin pl (d_id n)) (build v) = Ok n.
Proof. intros H. unfold pinned_node. cbn [p_place p_id]. rewrite H. by rewrite bool_decide_eq_true_2. Qed.

Lemma wp_verify_entry Q v k pl n :
  good v k → lookup_dir pl (build v) = Some n → Q () (W v k) →
  wp (verify_entry (mk_pin pl (d_id n))) Q stopped (W v k).
Proof. intros Hg Hl HQ. eapply wp_look_v; [done| |done]. by rewrite (pinned_ok _ _ _ Hl). Qed.

Lemma wp_read_file Q v k pl n name :
  good v k → lookup_dir pl (build v) = Some n → short (d_files n !! name) →
  Q (d_files n !! name) (W v k) → wp (read_file (mk_pin pl (d_id n)) name) Q stopped (W v k).
Proof.
  intros Hg Hl Hs HQ. eapply wp_look_v; [done| |done]. rewrite (pinned_ok _ _ _ Hl). by apply bounded_ok.
Qed.

Lemma wp_open_child Q v k pl name :
  good v k → child_name_ok name = true →
  Q (mk_pin pl ∘ d_id <$> lookup_dir pl (build v)) (W v k) →
  wp (open_child pl name) Q stopped (W v k).
Proof.
  intros Hg Hn HQ. unfold open_child. apply wp_bind, wp_ensure; [done|]. by eapply wp_look_v.
Qed.

Lemma wp_open_exact_child Q v k pl name id :
  good v k → child_name_ok name = true →
  (∀ n, lookup_dir pl (build v) = Some n → d_id n = id) →
  Q (mk_pin pl ∘ d_id <$> lookup_dir pl (build v)) (W v k) →
  wp (open_exact_child pl name id) Q stopped (W v k).
Proof.
  intros Hg Hn Hid HQ. unfold open_exact_child. apply wp_bind, wp_open_child; [done..|].
  destruct (lookup_dir pl (build v)) as [n|] eqn:El; cbn; [|by apply wp_ret].
  apply wp_bind, wp_ensure.
  { cbn [p_id]. apply bool_decide_eq_true_2. by apply Hid. }
  apply wp_bind. eapply wp_verify_entry; [done..|]. by apply wp_ret.
Qed.

(** ** The registration's files *)

Notation the_journal := (the_journal canonicalize r s).

Definition pin_tree (v : View) : option PinnedDir :=
  mk_pin (Place.Tree (worktree_path r)) ∘ d_id <$> v_tree v.

(** The work tree's marker is the one it started with, or gone where it may be. *)
Definition marker_stays (allow : bool) (wt : option PinnedDir) (v : View) : Prop :=
  wt = None ∨ wt = pin_tree v ∧
  ∀ n, v_tree v = Some n → ∃ n0, s_tree s = Some n0 ∧
    (d_files n !! ".git" = d_files n0 !! ".git" ∨ d_files n !! ".git" = None ∧ allow = true).

Lemma own_files :
  ∃ head backlink commondir,
    d_files (s_reg s) !! "HEAD" = Some head ∧ d_files (s_reg s) !! "gitdir" = Some backlink ∧
    d_files (s_reg s) !! "commondir" = Some commondir ∧
    start_witness s = mk_reg_witness head backlink commondir (t ← s_tree s; d_files t !! ".git") ∧
    validate_head head = Ok () ∧ backlink_ok (worktree_path r) (s_canonical s) backlink = true ∧
    trim commondir = "../.." ∧ short (Some head) ∧ short (Some backlink) ∧ short (Some commondir).
Proof.
  destruct (rd_own_ok _ _ _ _ _ Hready) as (h & b & c & H1 & H2 & H3 & H4).
  exists h, b, c. split_and!; try done; try apply H4. unfold start_witness, file_of.
  by rewrite H1, H2, H3.
Qed.

Lemma wp_validate_witness Q v k pl ph qid qn wt allow :
  good v k → lookup_dir pl (build v) = Some (s_reg s) → marker_stays allow wt v → Q () (W v k) →
  wp (validate_registration_witness (mk_pin pl (d_id (s_reg s))) (the_journal ph qid qn)
        (s_canonical s) wt allow) Q stopped (W v k).
Proof.
  intros Hg Hl Hm HQ.
  destruct own_files as (h & b & c & Eh & Eb & Ec & Ew & Hh & Hb & Hc & Sh & Sb & Sc).
  unfold validate_registration_witness. cbn [the_journal j_registration_witness j_worktree_path].
  rewrite Ew. cbn [rw_head rw_gitdir rw_commondir rw_marker].
  apply wp_bind. eapply wp_read_file; [done|done|by rewrite Eh|]. rewrite Eh.
  apply wp_bind. eapply wp_lift; [done|]. apply wp_bind, wp_ensure; [by apply bool_decide_eq_true_2|].
  apply wp_bind. eapply wp_lift; [done|].
  apply wp_bind. eapply wp_read_file; [done|done|by rewrite Eb|]. rewrite Eb.
  apply wp_bind. eapply wp_lift; [done|]. apply wp_bind, wp_ensure; [by apply bool_decide_eq_true_2|].
  apply wp_bind, wp_ensure; [done|].
  apply wp_bind. eapply wp_read_file; [done|done|by rewrite Ec|]. rewrite Ec.
  apply wp_bind. eapply wp_lift; [done|]. apply wp_bind, wp_ensure.
  { apply andb_true_iff. split; by apply bool_decide_eq_true_2. }
  destruct Hm as [->|[-> Hm]]; [by apply wp_ret|]. unfold pin_tree.
  destruct (v_tree v) as [n|] eqn:Ev; cbn [fmap option_fmap option_map]; [|by apply wp_ret].
  destruct (Hm n eq_refl) as (n0 & En0 & Hd).
  destruct (rd_tree_ok _ _ _ _ _ Hready _ En0) as (m & Em & Sm & _).
  apply wp_bind. eapply wp_read_file; [done|by rewrite dir_tree|..].
  { destruct Hd as [-> | [-> _] ]; [by rewrite Em|done]. }
  rewrite En0. cbn [mbind option_bind]. destruct Hd as [-> | [-> ->] ].
  - rewrite Em. eapply wp_ensure; [by apply bool_decide_eq_true_2|done].
  - by apply wp_ensure.
Qed.

Lemma wp_check_remaining Q v k pl n name ok :
  good v k → lookup_dir pl (build v) = Some n → short (d_files n !! name) →
  (∀ x, d_files n !! name = Some x → ok x = Ok ()) → Q () (W v k) →
  wp (check_remaining (mk_pin pl (d_id n)) name ok) Q stopped (W v k).
Proof.
  intros Hg Hl Hs Hok HQ. unfold check_remaining. apply wp_bind. eapply wp_read_file; [done..|].
  destruct (d_files n !! name) as [x|]; [|by apply wp_ret]. eapply wp_lift; [by apply Hok|done].
Qed.

Lemma part_lookup n n0 name x :
  part_of n n0 → d_files n !! name = Some x → d_files n0 !! name = Some x.
Proof. intros [_ H] Hx. by eapply lookup_weaken. Qed.

Lemma part_short n n0 name : part_of n n0 → short (d_files n0 !! name) → short (d_files n !! name).
Proof. intros Hp Hs x Hx. apply Hs. by eapply part_lookup. Qed.

Lemma wp_validate_remaining Q v k pl n ph qid qn :
  good v k → lookup_dir pl (build v) = Some n → part_of n (s_reg s) → Q () (W v k) →
  wp (validate_remaining_registration_witness (mk_pin pl (d_id n)) (the_journal ph qid qn))
    Q stopped (W v k).
Proof.
  intros Hg Hl Hp HQ.
  destruct own_files as (h & b & c & Eh & Eb & Ec & Ew & Hh & Hb & Hc & Sh & Sb & Sc).
  unfold validate_remaining_registration_witness.
  cbn [the_journal j_registration_witness j_worktree_path j_canonical_worktree_path].
  rewrite Ew. cbn [rw_head rw_gitdir rw_commondir].
  apply wp_bind. eapply wp_check_remaining; [done|done|apply (part_short _ _ _ Hp); by rewrite Eh| |].
  { intros x Hx%(part_lookup _ _ _ _ Hp). assert (x = h) as -> by congruence. unfold str_eqb.
    by rewrite bool_decide_eq_true_2. }
  apply wp_bind. eapply wp_check_remaining; [done|done|apply (part_short _ _ _ Hp); by rewrite Eb| |].
  { intros x Hx%(part_lookup _ _ _ _ Hp). assert (x = b) as -> by congruence. unfold str_eqb.
    rewrite bool_decide_eq_true_2 by done. by rewrite Hb. }
  eapply wp_check_remaining; [done|done|apply (part_short _ _ _ Hp); by rewrite Ec| |done].
  intros x Hx%(part_lookup _ _ _ _ Hp). assert (x = c) as -> by congruence. unfold str_eqb.
  by rewrite !bool_decide_eq_true_2.
Qed.

Lemma own_name : child_name_ok (s_name s) = true.
Proof. eapply rd_names; [done|]. by rewrite (rd_own _ _ _ _ _ Hready). Qed.

(** While the registration is in its place. *)
Lemma wp_validate_standard Q v k ph qid qn wt allow :
  good v k → v_std v = Some (s_reg s) → marker_stays allow wt v → Q () (W v k) →
  wp (validate_standard_target_registration r (g_id (s_git s)) (the_journal ph qid qn) wt allow)
    Q stopped (W v k).
Proof.
  intros Hg Hs Hm HQ. unfold validate_standard_target_registration.
  cbn [the_journal j_registration_name j_registration_identity j_canonical_worktree_path].
  assert (lookup_dir (Place.Standard gpath (s_name s)) (build v) = Some (s_reg s)) as Hl.
  { by rewrite dir_std, decide_True. }
  apply wp_bind, wp_verify_git; [done|]. apply wp_bind, wp_open_worktrees; [done|].
  apply wp_bind, wp_verify_worktrees; [done|].
  apply wp_bind, wp_open_exact_child; [done|apply own_name|by rewrite Hl; intros n [= <-]|].
  rewrite Hl. cbn [fmap option_fmap option_map compose].
  apply wp_bind, wp_validate_witness; [done..|].
  apply wp_bind. eapply wp_verify_entry; [done..|].
  apply wp_bind, wp_verify_worktrees; [done|]. by apply wp_verify_git.
Qed.

(** ** The registrations *)

Definition std_dirs (v : View) : gmap string DirNode :=
  partial_alter (λ _, v_std v) (s_name s) (s_dirs s).
Definition reg_names (v : View) : list string := btree_keys (std_dirs v).
Definition reg_pin (name : string) (n : DirNode) : PinnedDir :=
  mk_pin (Place.Standard gpath name) (d_id n).
Definition pin_std (v : View) : option PinnedDir := reg_pin (s_name s) <$> v_std v.

Lemma inv_std v : inv v → v_std v = Some (s_reg s) ∨ v_std v = None.
Proof.
  intros [H|ph H|H _|H _]; [left; apply H| |right; apply H..].
  pose proof (jd_reg _ _ _ _ _ H) as Hr. destruct ph; cbn in Hr; naive_solver.
Qed.

Lemma std_dir v name : lookup_dir (Place.Standard gpath name) (build v) = std_dirs v !! name.
Proof.
  rewrite dir_std. unfold std_dirs. destruct (decide (name = s_name s)) as [->|Hne].
  - by rewrite lookup_partial_alter_eq.
  - by rewrite lookup_partial_alter_ne.
Qed.

Lemma std_dirs_start v name n : inv v → std_dirs v !! name = Some n → s_dirs s !! name = Some n.
Proof.
  intros Hi. rewrite <-std_dir, dir_std. destruct (decide (name = s_name s)) as [->|]; [|done].
  rewrite (rd_own _ _ _ _ _ Hready). destruct (inv_std _ Hi) as [-> | ->]; naive_solver.
Qed.

Lemma reg_names_dir v name :
  inv v → name ∈ reg_names v →
  ∃ n, std_dirs v !! name = Some n ∧ child_name_ok name = true ∧
    (name ≠ s_name s → sibling_ok r s n) ∧ (name = s_name s → n = s_reg s ∧ v_std v = Some n).
Proof.
  intros Hi [n Hn]%elem_of_btree_keys%elem_of_dom. exists n. pose proof (std_dirs_start _ _ _ Hi Hn) as Hs.
  split_and!; [done|eapply rd_names; [done|by eexists]|by eapply rd_siblings|].
  intros ->. rewrite (rd_own _ _ _ _ _ Hready) in Hs. injection Hs as <-. split; [done|].
  by rewrite <-std_dir, dir_std, decide_True in Hn.
Qed.

Lemma std_dirs_ids v name name' n n' :
  inv v → std_dirs v !! name = Some n → std_dirs v !! name' = Some n' → d_id n = d_id n' → name = name'.
Proof.
  intros Hi H1%std_dirs_start H2%std_dirs_start Hid; [|done..]. by eapply rd_ids.
Qed.

Lemma wp_entry_names Q v k :
  good v k → Q (reg_names v) (W v k) → wp (entry_names r g_worktrees) Q stopped (W v k).
Proof. intros Hg HQ. by eapply wp_look_repo. Qed.
Lemma wp_names_unchanged Q v k :
  good v k → Q () (W v k) → wp (names_unchanged r (reg_names v)) Q stopped (W v k).
Proof.
  intros Hg HQ. unfold names_unchanged. apply wp_bind, wp_entry_names; [done|].
  apply wp_ensure; [by apply bool_decide_eq_true_2|done].
Qed.

Lemma wp_open_registration Q v k name n :
  good v k → child_name_ok name = true → std_dirs v !! name = Some n →
  Q (reg_pin name n) (W v k) → wp (open_registration r name) Q stopped (W v k).
Proof.
  intros Hg Hc Hn HQ. unfold open_registration. apply wp_bind, wp_open_child; [done..|].
  rewrite std_dir, Hn. by apply wp_ret.
Qed.

Lemma wp_admit_sibling Q v k name n :
  good v k → std_dirs v !! name = Some n → sibling_ok r s n → Q () (W v k) →
  wp (admit_sibling r (s_canonical s) (reg_pin name n)) Q stopped (W v k).
Proof.
  intros Hg Hn (h & b & Eh & Eb & Hh & Hne & Hb & Sh & Sb) HQ. rewrite <-std_dir in Hn.
  unfold admit_sibling. apply wp_bind. eapply wp_read_file; [done|done|by rewrite Eh|]. rewrite Eh.
  apply wp_bind. eapply wp_lift; [done|]. apply wp_bind. eapply wp_lift; [done|].
  apply wp_bind, wp_ensure; [unfold str_eqb; by rewrite bool_decide_eq_false_2|].
  apply wp_bind. eapply wp_read_file; [done|done|by rewrite Eb|]. rewrite Eb.
  apply wp_bind. eapply wp_lift; [done|]. apply wp_ensure; [by rewrite Hb|done].
Qed.

(** ** The inventory before the branch goes *)

Definition own_target : option (string * Ident) := Some (s_name s, d_id (s_reg s)).

Lemma wp_inventory_loop Q v k target names :
  good v k → target = own_target ∨ target = None ∧ v_std v = None →
  Forall (λ name, name ∈ reg_names v) names → Q () (W v k) →
  wp (inventory_loop r (s_canonical s) target names) Q stopped (W v k).
Proof.
  intros Hg Ht Hn HQ. induction Hn as [|name names Hname _ IH]; [by apply wp_ret|]. cbn.
  destruct (reg_names_dir v name (proj1 Hg) Hname) as (n & Hl & Hc & Hsib & Hown).
  apply wp_bind. eapply wp_open_registration; [done..|].
  apply wp_bind. eapply wp_verify_entry; [done|by rewrite std_dir|]. apply wp_bind.
  destruct Ht as [-> | [-> Hnone] ].
  - cbn [own_target]. destruct (decide (name = s_name s)) as [->|Hne].
    + unfold str_eqb. rewrite bool_decide_eq_true_2 by done. destruct (Hown eq_refl) as [-> _].
      apply wp_ensure; [by apply bool_decide_eq_true_2|done].
    + unfold str_eqb. rewrite bool_decide_eq_false_2 by done. apply wp_bind, wp_ensure.
      * apply negb_true_iff, bool_decide_eq_false_2. cbn [reg_pin p_id]. intros E. apply Hne.
        eapply (rd_ids _ _ _ _ _ Hready); [by eapply std_dirs_start, Hl; apply Hg| |exact E].
        apply (rd_own _ _ _ _ _ Hready).
      * eapply wp_admit_sibling; [done|done|by apply Hsib|done].
  - eapply wp_admit_sibling; [done|done| |done]. apply Hsib. intros ->.
    destruct (Hown eq_refl) as [_ ?]. congruence.
Qed.

Lemma all_names v : Forall (λ name, name ∈ reg_names v) (reg_names v).
Proof. by apply Forall_forall. Qed.

Lemma wp_inventory Q v k target :
  good v k → target = own_target ∨ target = None ∧ v_std v = None → Q () (W v k) →
  wp (verify_scratch_checkout_inventory r (s_canonical s) target) Q stopped (W v k).
Proof.
  intros Hg Ht HQ. unfold verify_scratch_checkout_inventory.
  apply wp_bind, wp_admit_host_head; [done|]. intros head Hh.
  apply wp_bind, wp_open_worktrees; [done|]. apply wp_bind, wp_entry_names; [done|].
  apply wp_bind, wp_inventory_loop; [done..|apply all_names|].
  apply wp_bind, wp_verify_worktrees; [done|]. apply wp_bind, wp_names_unchanged; [done|].
  by apply wp_host_head_unchanged.
Qed.

(** ** Locking every checkout *)

(** The places of the locks taken so far are free of those still to come. *)
Definition places_free (v : View) (names : list string) (ps : list (LockDir.t * string)) : Prop :=
  ∀ name n q, name ∈ names → std_dirs v !! name = Some n → q ∈ registration_places (d_id n) → q ∉ ps.
Definition places_of (v : View) (names : list string) (q : LockDir.t * string) : Prop :=
  ∃ name n, name ∈ names ∧ std_dirs v !! name = Some n ∧ q ∈ registration_places (d_id n).

Lemma places_inj id id' q :
  q ∈ registration_places id → q ∈ registration_places id' → id = id'.
Proof. unfold registration_places. set_solver. Qed.

Lemma wp_lock_candidate Q v k ps pl id :
  inv v → running p ps k → (∀ q, q ∈ registration_places id → q ∉ ps) →
  (∀ k, running p (ps ++ registration_places id) k → Q () (W v k)) →
  wp (lock_candidate (mk_pin pl id)) Q stopped (W v k).
Proof.
  intros Hi Hk Hf HQ. unfold lock_candidate, lock_head. cbn [p_id]. apply wp_bind.
  eapply wp_acquire; [by apply locks_stopped|done|apply Hf; left|]. intros k1 Hk1.
  eapply wp_lock_registration; [by apply locks_stopped|done|..].
  { rewrite not_elem_of_app. split; [apply Hf; right; left|]. set_solver. }
  intros k2 Hk2. apply HQ. by rewrite <-app_assoc in Hk2.
Qed.

Lemma places_free_next v name names n ps :
  inv v → NoDup (name :: names) → std_dirs v !! name = Some n →
  places_free v (name :: names) ps → places_free v names (ps ++ registration_places (d_id n)).
Proof.
  intros Hi Hnd Hn Hf name' n' q Hin Hn' Hq. apply NoDup_cons in Hnd as [Hnin _].
  rewrite not_elem_of_app. split; [eapply Hf; [by right|done..]|]. intros Hq'. apply Hnin.
  assert (name = name') as ->; [|done]. eapply std_dirs_ids; [done..|]. by eapply places_inj.
Qed.

(** The registrations with their pins, in the order of their names. *)
Definition pins_of (v : View) (names : list string) (regs : list (string * PinnedDir)) : Prop :=
  Forall2 (λ name reg, ∃ n, reg = (name, reg_pin name n) ∧ std_dirs v !! name = Some n) names regs.

Lemma wp_lock_all Q v k ps names :
  inv v → running p ps k → NoDup names → Forall (λ name, name ∈ reg_names v) names →
  places_free v names ps →
  (∀ k ps' regs, running p ps' k → pins_of v names regs →
     (∀ q, q ∈ ps' → q ∈ ps ∨ places_of v names q) → Q regs (W v k)) →
  wp (lock_all r names) Q stopped (W v k).
Proof.
  intros Hi. revert Q k ps. induction names as [|name names IH]; intros Q k ps Hk Hnd Hn Hf HQ; cbn.
  { apply wp_ret. eapply HQ; [done|constructor|auto]. }
  apply Forall_cons in Hn as [Hname Hn].
  destruct (reg_names_dir v name Hi Hname) as (n & Hl & Hc & _ & _).
  apply wp_bind. eapply wp_open_registration; [by eapply good_running|done..|].
  apply wp_bind, (wp_lock_candidate _ _ _ ps); [done|done| |].
  { intros q Hq. eapply Hf; [by left|done..]. }
  intros k1 Hk1. apply wp_bind.
  eapply wp_verify_entry; [by eapply good_running|by rewrite std_dir|]. apply wp_bind.
  eapply IH; [done|by apply NoDup_cons in Hnd as []|done|by eapply places_free_next|].
  intros k2 ps2 regs Hk2 Hregs Hps2. apply wp_ret. eapply HQ; [done|by constructor; eauto|].
  intros q Hq. destruct (Hps2 q Hq) as [[Hin|Hin]%elem_of_app|(name' & n' & ? & ? & ?)]; [by left|..];
    right; [exists name, n|exists name', n']; split_and!; try done; set_solver.
Qed.

Lemma wp_lock_recovery_loop Q v k ps ph qid qn names target :
  inv v → running p ps k → NoDup names → Forall (λ name, name ∈ reg_names v) names →
  places_free v names ps → target = None ∨ s_name s ∉ names →
  (∀ k ps', running p ps' k → (∀ q, q ∈ ps' → q ∈ ps ∨ places_of v names q) →
     Q (if bool_decide (s_name s ∈ names) then pin_std v else target) (W v k)) →
  wp (lock_recovery_loop r (the_journal ph qid qn) (s_canonical s) names target) Q stopped (W v k).
Proof.
  intros Hi. revert Q k ps target.
  induction names as [|name names IH]; intros Q k ps target Hk Hnd Hn Hf Ht HQ; cbn.
  { apply wp_ret. eapply (HQ _ ps); [done|auto]. }
  apply Forall_cons in Hn as [Hname Hn]. pose proof Hnd as [Hnin Hnd']%NoDup_cons.
  destruct (reg_names_dir v name Hi Hname) as (n & Hl & Hc & Hsib & Hown).
  apply wp_bind. eapply wp_open_registration; [by eapply good_running|done..|].
  apply wp_bind. eapply wp_verify_entry; [by eapply good_running|by rewrite std_dir|].
  apply wp_bind, (wp_lock_candidate _ _ _ ps); [done|done| |].
  { intros q Hq. eapply Hf; [by left|done..]. }
  intros k1 Hk1.
  assert (∀ q, q ∈ ps ++ registration_places (d_id n) ∨ places_of v names q →
    q ∈ ps ∨ places_of v (name :: names) q) as Hps.
  { intros q [[Hin|Hin]%elem_of_app|(name' & n' & ? & ? & ?)]; [by left|..];
      right; [exists name, n|exists name', n']; split_and!; try done; set_solver. }
  cbn [the_journal j_registration_name j_registration_identity].
  destruct (decide (name = s_name s)) as [->|Hne].
  - unfold str_eqb. rewrite bool_decide_eq_true_2 by done. destruct (Hown eq_refl) as [-> Hstd].
    apply wp_bind, wp_ensure; [by apply bool_decide_eq_true_2|].
    destruct Ht as [->|Ht]; [|exfalso; apply Ht; left].
    apply wp_bind, wp_ensure; [done|].
    eapply (IH _ _ (ps ++ registration_places (d_id (s_reg s))));
      [done|done|done|by eapply places_free_next|by right|].
    intros k2 ps2 Hk2 Hps2. rewrite bool_decide_eq_false_2 by done.
    specialize (HQ k2 ps2 Hk2 ltac:(auto)).
    rewrite bool_decide_eq_true_2 in HQ by left. unfold pin_std in HQ. by rewrite Hstd in HQ.
  - unfold str_eqb. rewrite bool_decide_eq_false_2 by done.
    apply wp_bind. eapply wp_admit_sibling; [by eapply good_running|done|by apply Hsib|].
    eapply (IH _ _ (ps ++ registration_places (d_id n)));
      [done|done|done|by eapply places_free_next|set_solver|].
    intros k2 ps2 Hk2 Hps2. specialize (HQ k2 ps2 Hk2 ltac:(auto)).
    assert (bool_decide (s_name s ∈ name :: names) = bool_decide (s_name s ∈ names)) as <-; [|done].
    apply bool_decide_ext. set_solver.
Qed.

(** The places of the locks of the inventory. *)
Definition head_lock : LockDir.t * string := (LockDir.InGit, "HEAD.lock").
Definition inventory_places (v : View) (q : LockDir.t * string) : Prop :=
  q = head_lock ∨ places_of v (reg_names v) q.

Lemma std_in_names v : bool_decide (s_name s ∈ reg_names v) = bool_decide (is_Some (v_std v)).
Proof.
  apply bool_decide_ext. unfold reg_names. rewrite elem_of_btree_keys, elem_of_dom.
  unfold std_dirs. by rewrite lookup_partial_alter_eq.
Qed.

Lemma head_lock_free v names : places_free v names [head_lock].
Proof. intros name n q _ _ Hq. unfold registration_places, head_lock in *. set_solver. Qed.

Lemma wp_lock_recovery_inventory Q v k ph qid qn :
  inv v → running p [] k →
  (∀ k ps, running p ps k → (∀ q, q ∈ ps → inventory_places v q) → Q (pin_std v) (W v k)) →
  wp (lock_recovery_inventory r (the_journal ph qid qn) (s_canonical s)) Q stopped (W v k).
Proof.
  intros Hi Hk HQ. unfold lock_recovery_inventory, lock_head. apply wp_bind.
  eapply wp_acquire; [by apply locks_stopped|done|set_solver|]. cbn [app]. intros k1 Hk1.
  apply wp_bind, wp_admit_host_head; [by eapply good_running|]. intros head Hh.
  apply wp_bind, wp_open_worktrees; [by eapply good_running|].
  apply wp_bind, wp_entry_names; [by eapply good_running|]. apply wp_bind.
  eapply wp_lock_recovery_loop; [done|done|apply NoDup_btree_keys|apply all_names|
    apply head_lock_free|by left|].
  intros k2 ps Hk2 Hps. rewrite std_in_names.
  apply wp_bind, wp_verify_worktrees; [by eapply good_running|].
  apply wp_bind, wp_names_unchanged; [by eapply good_running|].
  apply wp_bind, wp_host_head_unchanged; [by eapply good_running|done|].
  apply wp_bind. eapply wp_verify_locks; [by apply locks_stopped|done|]. apply wp_ret.
  assert ((if bool_decide (is_Some (v_std v)) then pin_std v else None) = pin_std v) as ->.
  { unfold pin_std. by destruct (v_std v). }
  eapply HQ; [done|]. intros q Hq. destruct (Hps q Hq) as [Hq'|Hq']; [left|by right]. set_solver.
Qed.

(** ** Finding the registration *)

Definition found_own (v : View) : option (string * PinnedDir * RegistrationWitness) :=
  (λ n, (s_name s, reg_pin (s_name s) n, start_witness s)) <$> v_std v.

Lemma wp_find_loop Q v k names regs found :
  good v k → (is_Some (v_std v) → v_tree v = s_tree s) →
  Forall (λ name, name ∈ reg_names v) names → NoDup names → pins_of v names regs →
  found = None ∨ s_name s ∉ names →
  Q (if bool_decide (s_name s ∈ names) then found_own v else found) (W v k) →
  wp (find_loop canonicalize r (s_canonical s) (pin_tree v) regs found) Q stopped (W v k).
Proof.
  intros Hg Htree Hn Hnd Hp. revert Q found Hn Hnd.
  induction Hp as [|name reg names regs (n & -> & Hl) _ IH]; intros Q found Hn Hnd Hf HQ; cbn.
  { by apply wp_ret. }
  apply Forall_cons in Hn as [Hname Hn]. apply NoDup_cons in Hnd as [Hnin Hnd].
  destruct (reg_names_dir v name (proj1 Hg) Hname) as (n' & Hl' & Hc & Hsib & Hown).
  assert (n' = n) as -> by congruence.
  assert (lookup_dir (Place.Standard gpath name) (build v) = Some n) as Hd by by rewrite std_dir.
  destruct (decide (name = s_name s)) as [->|Hne].
  - destruct (Hown eq_refl) as [-> Hstd].
    destruct own_files as (h & b & c & Eh & Eb & Ec & Ew & Hh & Hb & Hcd & Sh & Sb & Sc).
    apply wp_bind. eapply wp_read_file; [done|done|by rewrite Eh|]. rewrite Eh.
    apply wp_bind. eapply wp_lift; [done|]. apply wp_bind. eapply wp_lift; [done|].
    apply wp_bind. eapply wp_read_file; [done|done|by rewrite Eb|]. rewrite Eb.
    apply wp_bind. eapply wp_lift; [done|]. rewrite Hb. cbn [negb].
    apply wp_bind. eapply wp_read_file; [done|done|by rewrite Ec|]. rewrite Ec.
    apply wp_bind. eapply wp_lift; [done|].
    apply wp_bind, wp_ensure; [by apply bool_decide_eq_true_2|]. apply wp_bind.
    eapply (wp_mono _ (λ m w, m = (t ← s_tree s; d_files t !! ".git") ∧ w = W v k)).
    + unfold pin_tree. rewrite Htree by (rewrite Hstd; eauto).
      destruct (s_tree s) as [t|] eqn:Et; cbn [fmap option_fmap option_map mbind option_bind]; [|by apply wp_ret].
      destruct (rd_tree_ok _ _ _ _ _ Hready _ Et) as (m & Em & Sm & Hm).
      apply wp_bind. eapply wp_read_file; [done|by rewrite dir_tree, Htree by (rewrite Hstd; eauto)|by rewrite Em|].
      rewrite Em. apply wp_bind. eapply wp_lift; [done|]. apply wp_bind, wp_ensure; [done|]. by apply wp_ret.
    + intros m w [-> ->]. destruct Hf as [->|Hf]; [|exfalso; apply Hf; left].
      apply wp_bind, wp_ensure; [done|]. rewrite <-Ew. apply IH; [done|done|by right|].
      rewrite bool_decide_eq_false_2 by done. rewrite bool_decide_eq_true_2 in HQ by left.
      unfold found_own in HQ. by rewrite Hstd in HQ.
  - destruct (Hsib Hne) as (h & b & Eh & Eb & Hh & Hnh & Hb & Sh & Sb).
    apply wp_bind. eapply wp_read_file; [done|done|by rewrite Eh|]. rewrite Eh.
    apply wp_bind. eapply wp_lift; [done|]. apply wp_bind. eapply wp_lift; [done|].
    apply wp_bind. eapply wp_read_file; [done|done|by rewrite Eb|]. rewrite Eb.
    apply wp_bind. eapply wp_lift; [done|]. rewrite Hb. cbn [negb].
    apply wp_bind, wp_ensure; [unfold str_eqb; by rewrite bool_decide_eq_false_2|].
    apply IH; [done|done|set_solver|].
    assert (bool_decide (s_name s ∈ name :: names) = bool_decide (s_name s ∈ names)) as <-; [|done].
    apply bool_decide_ext. set_solver.
Qed.

Lemma wp_recheck_heads Q v k names regs :
  good v k → Forall (λ name, name ∈ reg_names v) names → pins_of v names regs → Q () (W v k) →
  wp (recheck_heads regs) Q stopped (W v k).
Proof.
  intros Hg Hn Hp HQ. induction Hp as [|name reg names regs (n & -> & Hl) _ IH]; cbn; [by apply wp_ret|].
  apply Forall_cons in Hn as [Hname Hn].
  destruct (reg_names_dir v name (proj1 Hg) Hname) as (n' & Hl' & Hc & Hsib & Hown).
  assert (n' = n) as -> by congruence.
  assert (lookup_dir (Place.Standard gpath name) (build v) = Some n) as Hd by by rewrite std_dir.
  assert (∃ h, d_files n !! "HEAD" = Some h ∧ short (Some h)) as (h & Eh & Sh).
  { destruct (decide (name = s_name s)) as [E|E].
    - destruct (Hown E) as [-> _]. destruct own_files as (h & b & c & ? & _ & _ & _ & _ & _ & _ & ? & _). eauto.
    - destruct (Hsib E) as (h & b & ? & _ & _ & _ & _ & ? & _). eauto. }
  apply wp_bind. eapply wp_verify_entry; [done..|].
  apply wp_bind. eapply wp_read_file; [done|done|by rewrite Eh|]. rewrite Eh.
  apply wp_bind. eapply wp_lift; [done|]. by apply IH.
Qed.

Lemma wp_find_registration Q v k :
  inv v → running p [] k → (is_Some (v_std v) → v_tree v = s_tree s) →
  (∀ k ps, running p ps k → (∀ q, q ∈ ps → inventory_places v q) → Q (found_own v) (W v k)) →
  wp (find_registration canonicalize r (s_canonical s) (pin_tree v)) Q stopped (W v k).
Proof.
  intros Hi Hk Htree HQ. unfold find_registration, lock_head. apply wp_bind.
  eapply wp_acquire; [by apply locks_stopped|done|set_solver|]. cbn [app]. intros k1 Hk1.
  apply wp_bind, wp_admit_host_head; [by eapply good_running|]. intros head Hh.
  apply wp_bind, wp_open_worktrees; [by eapply good_running|].
  apply wp_bind, wp_entry_names; [by eapply good_running|]. apply wp_bind.
  eapply wp_lock_all; [done|done|apply NoDup_btree_keys|apply all_names|apply head_lock_free|].
  intros k2 ps regs Hk2 Hregs Hps. assert (good v k2) as Hg by by eapply good_running.
  apply wp_bind, wp_verify_worktrees; [done|]. apply wp_bind, wp_names_unchanged; [done|].
  apply wp_bind, wp_host_head_unchanged; [done|done|]. apply wp_bind.
  eapply wp_find_loop; [done|done|apply all_names|apply NoDup_btree_keys|done|by left|].
  rewrite std_in_names.
  assert ((if bool_decide (is_Some (v_std v)) then found_own v else None) = found_own v) as ->.
  { unfold found_own. by destruct (v_std v). }
  apply wp_bind, wp_names_unchanged; [done|].
  apply wp_bind. eapply wp_recheck_heads; [done|apply all_names|done|].
  apply wp_bind. eapply wp_verify_locks; [by apply locks_stopped|done|].
  assert (∀ q, q ∈ ps → inventory_places v q) as Hps'.
  { intros q Hq. destruct (Hps q Hq) as [Hq'|Hq']; [left|by right]. set_solver. }
  destruct (v_std v) as [n|] eqn:Es.
  - specialize (HQ k2 ps Hk2 Hps'). unfold found_own in *. rewrite Es in *. cbn [fmap option_fmap option_map] in *.
    apply wp_bind. eapply wp_verify_entry; [done| |by apply wp_ret].
    by rewrite dir_std, decide_True.
  - specialize (HQ k2 ps Hk2 Hps'). unfold found_own in *. rewrite Es in *. by apply wp_ret.
Qed.

(** ** The branch *)

Lemma valid_zeros : valid_oid (zeros (s_oid_len s)) = true.
Proof. destruct (rd_objects _ _ _ _ _ Hready) as [[_ ->]|[_ ->]]; by vm_compute. Qed.

(** The two locks of the deletion. *)
Definition ref_places : list (LockDir.t * string) :=
  [(LockDir.InRefs (ref_dir ref), ref_leaf ref +:+ ".lock"); (LockDir.InGit, "packed-refs.lock")].

Lemma inventory_not_ref v q : inventory_places v q → q ∉ ref_places.
Proof.
  unfold inventory_places, places_of, ref_places, registration_places, head_lock.
  intros [->|(name & n & _ & _ & Hq)]; set_solver.
Qed.

Notation prepared := (prepared (s_oid_len s) ref).

Lemma wp_prepare Q v k ps :
  inv v → running p ps k → (∀ q, q ∈ ps → q ∉ ref_places) →
  (∀ k, running p (ps ++ ref_places) k → Q (prepared (v_refs v)) (W v k)) →
  wp (prepare_reference_deletion r (view_tip v)) Q stopped (W v k).
Proof.
  intros Hi Hk Hps HQ. unfold prepare_reference_deletion.
  assert (good v k) as Hg by by eapply good_running. pose proof (inv_wf v Hi) as Hw.
  apply wp_bind. eapply wp_look_repo; [done..|].
  apply wp_bind, wp_ensure; [apply bool_decide_eq_true_2, (rd_files _ _ _ _ _ Hready)|]. apply wp_bind.
  eapply (wp_mono _ (λ e w, e = expected_oid (s_oid_len s) (resolve (s_oid_len s) (v_refs v) ref) ∧
    w = W v k ∧ valid_oid e = true)).
  { unfold view_tip. destruct (resolve _ (v_refs v) ref) as [o|] eqn:Er; cbn [tip_text expected_oid].
    - destruct (resolve_ok _ _ _ _ Hw Er) as (_ & Hv & Hlen & _).
      assert (str_eqb (of_bytes o) "" = false) as ->.
      { unfold str_eqb. apply bool_decide_eq_false_2. intros E%(f_equal as_bytes).
        rewrite as_of_bytes in E. subst o. done. }
      apply wp_ret. by rewrite as_of_bytes.
    - cbn. apply wp_bind. eapply wp_look_repo; [done..|]. cbn [build_git g_object_format]. unfold str_eqb.
      pose proof valid_zeros as Hv.
      destruct (rd_objects _ _ _ _ _ Hready) as [[-> E]|[-> E]]; rewrite E in *.
      + by eapply wp_lift.
      + by eapply wp_lift. }
  intros e w (-> & -> & Hv). apply wp_bind. eapply wp_lift.
  { unfold check_ref. rewrite (rd_ref _ _ _ _ _ Hready). cbn. by rewrite Hv. }
  apply wp_bind. eapply wp_acquire; [by apply locks_stopped|done| |].
  { intros Hq%Hps. apply Hq. left. }
  intros k1 Hk1. apply wp_bind. eapply wp_acquire; [by apply locks_stopped|done| |].
  { rewrite not_elem_of_app. split; [|set_solver]. intros Hq%Hps. apply Hq. right. left. }
  intros k2 Hk2. rewrite <-app_assoc in Hk2.
  eapply wp_look_repo; [by eapply good_running| |by apply HQ]. by apply read_prepared_ok.
Qed.
End steps.
