(* ===== verification/CleanupProofs.v ===== *)
(** * A removal that is interrupted can always be finished

    The phases of the removal against the invariant, from the inventories and
    checks of [CleanupSteps], and what follows for a removal that fails or crashes
    any number of times: nothing it has no business with changes, the record stays
    until everything else is gone, and the next undisturbed attempt finishes. *)

From stdpp Require Import base list gmap strings pretty.
From Stdlib Require Import ZArith Lia Bool.
From S2P Require Import Prelude OrderedMap Paths Config Isolation IsolationProofs RefTransaction CleanupWorld Cleanup CleanupLogic GitRefs CleanupInvariant CleanupSteps.

(** ** The names of quarantined directories *)

Lemma pretty_go_alnum x acc :
  forallb alnum_or_dash (as_bytes acc) = true → forallb alnum_or_dash (as_bytes (pretty_N_go x acc)) = true.
Proof.
  revert acc. induction (N.lt_wf_0 x) as [x _ IH]; intros acc Hacc.
  destruct (decide (x = 0)%N) as [->|Hne]; [done|]. rewrite pretty_N_go_step by lia.
  apply IH; [by apply N.div_lt; lia|].
  change (as_bytes (String ?c acc)) with (Ascii.byte_of_ascii c :: as_bytes acc). cbn [forallb].
  rewrite Hacc, andb_true_r. assert (x `mod` 10 < 10)%N as Hm by by apply N.mod_lt.
  generalize dependent (x `mod` 10)%N. intros d Hd.
  assert (d = 0 ∨ d = 1 ∨ d = 2 ∨ d = 3 ∨ d = 4 ∨ d = 5 ∨ d = 6 ∨ d = 7 ∨ d = 8 ∨ d = 9)%N as H by lia.
  by repeat destruct H as [->|H]; subst.
Qed.
Lemma pretty_alnum (n : N) : forallb alnum_or_dash (as_bytes (pretty n)) = true.
Proof.
  unfold pretty, pretty_N. destruct (decide _); [done|]. by apply pretty_go_alnum.
Qed.

Lemma alnum_no_byte c bs :
  forallb alnum_or_dash bs = true → alnum_or_dash c = false → bytes_contains [c] bs = false.
Proof.
  intros H Hc. induction bs as [|b bs IH]; [done|]. cbn in H |- *. apply andb_true_iff in H as [Hb H].
  rewrite IH, orb_false_r, andb_true_r by done. apply not_true_iff_false. intros E%Byte.byte_dec_bl.
  congruence.
Qed.

Lemma quarantine_name_ok q n :
  starts_with "q-" (quarantine_name q n) = true ∧
  forallb alnum_or_dash (as_bytes (quarantine_name q n)) = true ∧
  child_name_ok (quarantine_name q n) = true.
Proof.
  assert (forallb alnum_or_dash (as_bytes (quarantine_name q n)) = true) as Ha.
  { unfold quarantine_name. rewrite !as_bytes_app, !forallb_app, !pretty_alnum. done. }
  split_and!; [apply starts_with_iff; by eexists|done|]. unfold child_name_ok, str_contains.
  rewrite !andb_true_iff, !negb_true_iff. split_and!; [by apply bool_decide_eq_false_2; set_solver|..].
  - by apply alnum_no_byte.
  - rewrite as_of_bytes. by apply alnum_no_byte.
Qed.

Section removal.
Context (canonicalize digest : string → string) (for_each_ref : Refs → string).
Context (state_dir : string) (r : IsolationRecord) (s : Start) (p : N).
Context `{!ForEachRef (s_oid_len s) for_each_ref}.
Hypothesis Hready : ready canonicalize digest state_dir r s.

Notation build := (build digest r s).
Notation inv := (inv canonicalize state_dir r s).
Notation journaled := (journaled canonicalize r s).
Notation the_journal := (the_journal canonicalize r s).
Notation stopped := (stopped canonicalize digest state_dir r s p).
Notation good := (good canonicalize state_dir r s p).
Notation W v k := (mk_world (build v) k).
Notation ref := (branch_ref r).
Notation gpath := (git_path r).
Notation erased := (erased (s_oid_len s) ref (g_refs (s_git s))).
Notation prepared := (prepared (s_oid_len s) ref).

Lemma with_refs_id v : with_refs (v_refs v) v = v.
Proof. by destruct v. Qed.

(** ** Deleting the branch *)

Lemma preserving_stop ps b k : running p ps k → K_stop p b (set_preserve true k).
Proof.
  intros (t & rc & Hk). pose proof Hk as [Hp Hf Ht Hpr Hpl Hnd Hrec Hle How Hcand Hs Hco Hh].
  split_and!; [done..|]. kred. rewrite Ht. cbn. split; [done|]. intros _. subst ps. split_and!; [done| |done].
  done.
Qed.
Lemma preserving_done ps k :
  running p ps k → running p ps (set_preserve false (set_preserve true k)).
Proof.
  intros (t & rc & Hk). assert (set_preserve false (set_preserve true k) = k) as ->; [|by eexists _, _].
  destruct Hk as [_ _ Ht Hpr]. kred. destruct k as [? ? ? ? ? ? tx]. cbn in *. subst tx. cbn.
  destruct t. cbn in *. by subst.
Qed.

Lemma wp_change_refs Q f v k :
  good v k → inv (with_refs (f (v_refs v)) v) → Q () (W (with_refs (f (v_refs v)) v) k) →
  wp (change_refs r f) Q stopped (W v k).
Proof.
  intros Hg Hi HQ. eapply wp_change_v; [done| |done|done]. rewrite repo_build. cbn [mbind res_bind].
  by rewrite change_refs_build.
Qed.

Lemma wp_commit Q v k ps i :
  (i ≤ 3)%nat → v_refs v = erased i → running p ps k →
  (∀ j, (i ≤ j ≤ 3)%nat → inv (with_refs (erased j) v)) →
  (∀ k, running p ps k → Q () (W (with_refs (erased 3) v) k)) →
  wp (commit r (prepared (v_refs v))) Q stopped (W v k).
Proof.
  intros Hi Hv Hk Hj HQ. pose proof (rd_refs _ _ _ _ _ Hready) as Hw. unfold commit.
  assert (inv v) as Hinv by (rewrite <-(with_refs_id v), Hv; apply Hj; lia).
  apply wp_bind. eapply wp_verify_locks; [by apply locks_stopped|done|].
  apply wp_bind. eapply wp_look_repo; [by eapply good_running|apply snapshots_ok|].
  rewrite Hv. destruct (nothing_to_delete _) eqn:En.
  { apply wp_ret. apply nothing_left in En; [|done..]. specialize (HQ k Hk).
    by rewrite <-En, <-Hv, with_refs_id in HQ. }
  apply wp_bind, wp_remember. change (set_locks _ _) with (W v (set_preserve true k)).
  assert (∀ v, inv v → good v (set_preserve true k)) as Hg.
  { intros v' Hv'. split; [done|]. intros b. by eapply preserving_stop. }
  (* each step is either done or has nothing to do *)
  assert (∀ (o : option bytes) f j j' (K : IO ()),
    (i ≤ j ≤ 3)%nat → (i ≤ j' ≤ 3)%nat →
    f (erased j) = erased j' → (o = None → erased j = erased j') →
    wp K Q stopped (W (with_refs (erased j') v) (set_preserve true k)) →
    wp (_ ← (if o is Some _ then change_refs r f else mret ()); K) Q stopped
      (W (with_refs (erased j) v) (set_preserve true k))) as Hstep.
  { intros o f j j' K Hj1 Hj2 Hf Hn HK. apply wp_bind. destruct o as [x|].
    - apply wp_change_refs; [by apply Hg, Hj|..]; cbn [v_refs with_refs]; rewrite Hf; [by apply Hj|done].
    - apply wp_ret. by rewrite (Hn eq_refl). }
  rewrite <-(with_refs_id v), Hv.
  apply (Hstep _ _ i (Nat.max 1 i)); [lia|lia|by apply exchange_erased|by apply skip_exchange|].
  apply (Hstep _ _ (Nat.max 1 i) (Nat.max 2 i)); [lia|lia|by apply loose_erased|by apply skip_loose|].
  apply (Hstep _ _ (Nat.max 2 i) 3%nat); [lia|lia|by apply reflog_erased|by apply skip_reflog|].
  apply wp_bind. eapply wp_look_repo; [apply Hg, Hj; lia|cbn; by apply deleted_ok|].
  apply wp_remember. apply HQ. by apply preserving_done.
Qed.

(** ** The journal *)

Lemma wp_advance Q v k ph next qid qn :
  good v k →
  (if CleanupPhase.order ph <? CleanupPhase.order next
   then inv (with_journal (Some (the_journal next qid qn)) v) ∧
        Q (the_journal next qid qn) (W (with_journal (Some (the_journal next qid qn)) v) k)
   else Q (the_journal ph qid qn) (W v k)) →
  wp (advance_journal digest r (the_journal ph qid qn) next) Q stopped (W v k).
Proof.
  intros Hg H. unfold advance_journal. cbn [the_journal j_phase].
  destruct (_ <? _); [|by apply wp_ret]. destruct H as [Hi HQ]. apply wp_bind.
  eapply wp_change_v; [done|by rewrite insert_journal|exact Hi|]. by apply wp_ret.
Qed.

(** The journal of a view, at another phase. *)
Definition at_phase (ph : CleanupPhase.t) (qid : Ident) (v : View) : View :=
  with_journal (Some (the_journal ph qid (v_qname v))) v.

Lemma journaled_at ph ph' qid v :
  journaled ph v → v_qid v = Some qid → tree_stage s ph' (v_tree v) → ref_stage r s ph' (v_refs v) →
  reg_stage s ph' (v_std v) (v_qdir v) → journaled ph' (at_phase ph' qid v).
Proof. intros [] Hq ???. split; try done. by exists qid. Qed.

Lemma journaled_journal ph v qid :
  journaled ph v → v_qid v = Some qid → v_journal v = Some (the_journal ph qid (v_qname v)).
Proof. intros [_ (qid' & Hq & Hj)] Hq'. congruence. Qed.

Lemma part_refl n : part_of n n.
Proof. done. Qed.
Lemma part_partly names n n0 : part_of n n0 → part_of (partly_removed names n) n0.
Proof.
  intros [H1 H2]. split; [done|]. etransitivity; [|exact H2]. cbn. apply map_filter_subseteq.
Qed.

(** ** The work tree *)

Lemma identity_ok ph qid v :
  journaled ph v → v_qid v = Some qid →
  validate_worktree_identity (the_journal ph qid (v_qname v)) (pin_tree r v) = Ok ().
Proof.
  intros Hj Hq. pose proof (jd_tree _ _ _ _ _ Hj) as Ht.
  unfold validate_worktree_identity, pin_tree, expected_worktree.
  cbn [the_journal j_phase j_worktree_device j_worktree_inode].
  assert (∀ n0 : DirNode, bool_decide (((d_id n0).1, (d_id n0).2) = d_id n0) = true) as Hid.
  { intros n0. apply bool_decide_eq_true_2. by destruct (d_id n0). }
  destruct ph; cbn in Ht; try (rewrite Ht; by destruct (s_tree s)).
  - rewrite Ht. destruct (s_tree s) as [n0|]; [|done]. cbn. apply ensure_ok, Hid.
  - destruct Ht as [->|(n & n0 & -> & -> & [E _])]; [by destruct (s_tree s)|]. cbn. rewrite E.
    apply ensure_ok, Hid.
Qed.

Lemma wp_pin_worktree Q v k :
  good v k → Q (pin_tree r v) (W v k) → wp (pin_worktree state_dir r) Q stopped (W v k).
Proof.
  intros Hg HQ. unfold pin_worktree. apply wp_bind, wp_ensure; [apply (rd_contained _ _ _ _ _ Hready)|].
  eapply wp_look_v; [done|done|]. by rewrite dir_tree.
Qed.
Lemma wp_ensure_worktree_absent Q v k :
  good v k → v_tree v = None → Q () (W v k) →
  wp (ensure_worktree_absent state_dir r) Q stopped (W v k).
Proof.
  intros Hg Ht HQ. unfold ensure_worktree_absent. apply wp_bind, wp_pin_worktree; [done|].
  apply wp_ensure; [|done]. unfold pin_tree. rewrite Ht. done.
Qed.

(** From the moment the journal says that the work tree is being removed. *)
Lemma wp_remove_tree Q v k qid :
  journaled CleanupPhase.RemovingWorktree v → v_qid v = Some qid → (∀ b, K_stop p b k) →
  (let v' := at_phase CleanupPhase.WorktreeRemoved qid (with_tree None v) in
   journaled CleanupPhase.WorktreeRemoved v' →
   Q (the_journal CleanupPhase.WorktreeRemoved qid (v_qname v)) (W v' k)) →
  wp (_ ← match pin_tree r v with
          | Some wt => _ ← verify_git r (g_id (s_git s)); remove wt
          | None => mret ()
          end;
      _ ← ensure_worktree_absent state_dir r;
      advance_journal digest r (the_journal CleanupPhase.RemovingWorktree qid (v_qname v))
        CleanupPhase.WorktreeRemoved) Q stopped (W v k).
Proof.
  intros Hj Hq Hk HQ. pose proof Hj as [Hst Hqj Hqn Hqi Ht Hr Hg].
  assert (∀ t, tree_stage s CleanupPhase.RemovingWorktree t → good (with_tree t v) k) as Hgt.
  { intros t Ht'. split; [|done]. eapply inv_journaled. by split. }
  assert (wp (_ ← ensure_worktree_absent state_dir r;
      advance_journal digest r (the_journal CleanupPhase.RemovingWorktree qid (v_qname v))
        CleanupPhase.WorktreeRemoved) Q stopped (W (with_tree None v) k)) as Hrest.
  { apply wp_bind, wp_ensure_worktree_absent; [apply Hgt; by left|done|].
    assert (journaled CleanupPhase.WorktreeRemoved
      (at_phase CleanupPhase.WorktreeRemoved qid (with_tree None v))) as Hj'.
    { split; try done. by exists qid. }
    apply wp_advance; [apply Hgt; by left|]. cbn. split; [by eapply inv_journaled|by apply HQ]. }
  unfold pin_tree. destruct (v_tree v) as [n|] eqn:Ev; cbn [fmap option_fmap option_map].
  - assert (good v k) as Hgood by (split; [by eapply inv_journaled|done]).
    destruct Ht as [?|(n' & n0 & E0 & E1 & Hp)]; [done|]. assert (n' = n) as -> by congruence.
    apply wp_bind, wp_bind, wp_verify_git; [done|].
    eapply (wp_remove _ _ _ _ n).
    + cbn [data compose]. apply pinned_ok. by rewrite dir_tree.
    + by apply good_stopped.
    + cbn [data p_place compose]. rewrite set_tree. apply good_stopped, Hgt. by left.
    + intros names. cbn [data p_place compose]. rewrite set_tree. apply good_stopped, Hgt. right.
      exists (partly_removed names n), n0. split_and!; [done..|]. by apply part_partly.
    + cbn [data p_place compose]. rewrite set_tree. exact Hrest.
  - apply wp_bind, wp_ret. assert (with_tree None v = v) as E; [|by rewrite E in Hrest].
    destruct v; cbn in *; by subst.
Qed.

(** The work tree's marker at each phase. *)
Lemma marker_of_stage ph v :
  journaled ph v → marker_stays r s (bool_decide (ph = CleanupPhase.RemovingWorktree)) (pin_tree r v) v.
Proof.
  intros Hj. pose proof (jd_tree _ _ _ _ _ Hj) as Ht. unfold marker_stays, pin_tree.
  destruct ph; cbn in Ht; try (left; by rewrite Ht); right; (split; [done|]); intros n Hn.
  - exists n. rewrite <-Ht. auto.
  - destruct Ht as [?|(n' & n0 & E0 & E1 & [_ Hp])]; [congruence|]. exists n0. split; [done|].
    assert (n' = n) as -> by congruence. destruct (d_files n !! ".git") as [m|] eqn:Em; [|auto].
    left. symmetry. by eapply lookup_weaken.
Qed.

Lemma wp_remove_worktree_phase Q v k ph qid :
  journaled ph v → v_qid v = Some qid → (∀ b, K_stop p b k) →
  (∀ v' ph', journaled ph' v' → 2 ≤ CleanupPhase.order ph' → v_qid v' = Some qid →
     v_qname v' = v_qname v → v_std v' = v_std v → v_qdir v' = v_qdir v → v_refs v' = v_refs v →
     (2 ≤ CleanupPhase.order ph → ph' = ph) →
     Q (the_journal ph' qid (v_qname v)) (W v' k)) →
  wp (remove_worktree_phase digest state_dir r (g_id (s_git s)) qid (pin_tree r v)
        (the_journal ph qid (v_qname v))) Q stopped (W v k).
Proof.
  intros Hj Hq Hk HQ. assert (good v k) as Hg by (split; [by eapply inv_journaled|done]).
  unfold remove_worktree_phase. cbn [the_journal j_phase].
  apply wp_bind. eapply wp_lift; [by apply identity_ok|].
  apply wp_bind, wp_verify_git; [done|]. apply wp_bind, wp_verify_quarantine; [done..|]. apply wp_bind.
  pose proof Hj as [Hst Hqj Hqn Hqi Ht Hr Hreg].
  destruct (decide (ph = CleanupPhase.Prepared ∨ ph = CleanupPhase.RemovingWorktree)) as [Hph|Hph].
  - assert (v_std v = Some (s_reg s)) as Hstd by (destruct Hph; subst ph; apply Hreg).
    pose proof (marker_of_stage _ _ Hj) as Hm.
    assert ((bool_decide (ph = CleanupPhase.Prepared) || bool_decide (ph = CleanupPhase.RemovingWorktree)) = true)
      as -> by (destruct Hph as [-> | ->]; done).
    apply wp_validate_standard; [done|done|done|done|]. apply wp_bind.
    set (v1 := at_phase CleanupPhase.RemovingWorktree qid v).
    assert (journaled CleanupPhase.RemovingWorktree v1) as Hj1.
    { eapply journaled_at; [done|done|..].
      - destruct Hph as [-> | ->]; [|done]. cbn in Ht |- *. rewrite Ht.
        destruct (s_tree s) as [n0|]; [right|by left]. exists n0, n0. auto using part_refl.
      - destruct Hph as [-> | ->]; done.
      - destruct Hph as [-> | ->]; done. }
    eapply (wp_mono _ (λ j w, j = the_journal CleanupPhase.RemovingWorktree qid (v_qname v) ∧ w = W v1 k)).
    { apply wp_advance; [done|]. destruct Hph as [-> | ->]; cbn.
      - split; [by eapply inv_journaled|done].
      - split; [done|]. do 2 f_equal. unfold v1, at_phase. rewrite <-(journaled_journal _ _ _ Hj Hq).
        by destruct v. }
    intros j w [-> ->]. change (pin_tree r v) with (pin_tree r v1). change (v_qname v) with (v_qname v1).
    eapply wp_remove_tree; [done|done|done|]. intros v2 Hj2. eapply HQ; try done.
    destruct Hph as [-> | ->]; cbn; lia.
  - assert (2 ≤ CleanupPhase.order ph) as Ho by (destruct ph; cbn; naive_solver lia).
    assert (v_tree v = None) as Hn by (destruct ph; cbn in Ht, Ho; lia || done).
    assert (pin_tree r v = None) as -> by (unfold pin_tree; by rewrite Hn).
    assert ((bool_decide (ph = CleanupPhase.Prepared) || bool_decide (ph = CleanupPhase.RemovingWorktree)) = false)
      as ->.
    { apply orb_false_iff. split; apply bool_decide_eq_false_2; naive_solver. }
    apply wp_ret. apply wp_bind, wp_advance; [done|].
    rewrite (proj2 (Z.ltb_ge _ _)) by (cbn; lia). apply wp_bind, wp_ret.
    apply wp_bind, wp_ensure_worktree_absent; [done|done|]. apply wp_advance; [done|].
    rewrite (proj2 (Z.ltb_ge _ _)) by (cbn; lia). by eapply HQ.
Qed.

(** ** The branch *)

Lemma tip_ok ph qid qn v : journaled ph v → tip_admitted (the_journal ph qid qn) (view_tip r s v) = true.
Proof.
  intros Hj. pose proof (rd_refs _ _ _ _ _ Hready) as Hw.
  destruct (inv_refs _ _ _ _ _ (inv_journaled _ state_dir _ _ _ _ Hj)) as (i & Hi & Hv).
  unfold tip_admitted, view_tip. rewrite Hv.
  destruct (resolve_erased _ ref _ Hw i) as [E|E]; rewrite E; [|done].
  destruct (resolve _ (g_refs (s_git s)) ref) as [o|] eqn:Er; [|done]. apply orb_true_iff. right.
  apply andb_true_iff. split; [|by apply bool_decide_eq_true_2; cbn; unfold start_tip; rewrite Er].
  unfold phase_before. cbn [the_journal j_phase]. apply Z.ltb_lt.
  pose proof (jd_refs _ _ _ _ _ Hj) as Hr. pose proof (resolve_erased_gone _ ref _ Hw 3 ltac:(lia)) as H3.
  destruct ph; cbn in Hr |- *; try lia; rewrite Hv in Hr; rewrite Hr in E; congruence.
Qed.

Lemma no_tip v : v_refs v = erased 3 → view_tip r s v = "".
Proof.
  intros E. unfold view_tip. rewrite E, resolve_erased_gone; [done|apply (rd_refs _ _ _ _ _ Hready)|lia].
Qed.

(** The journal says that the branch is being deleted, or more. *)
Lemma wp_advance_deleting v k ph qid :
  journaled ph v → 2 ≤ CleanupPhase.order ph → v_qid v = Some qid → good v k →
  ∃ ph1 v1, journaled ph1 v1 ∧ 3 ≤ CleanupPhase.order ph1 ∧ v_qid v1 = Some qid ∧
    v_qname v1 = v_qname v ∧ v_std v1 = v_std v ∧ v_qdir v1 = v_qdir v ∧ v_refs v1 = v_refs v ∧
    (3 ≤ CleanupPhase.order ph → ph1 = ph) ∧
    ∀ Q, Q (the_journal ph1 qid (v_qname v)) (W v1 k) →
      wp (advance_journal digest r (the_journal ph qid (v_qname v)) CleanupPhase.DeletingReference)
        Q stopped (W v k).
Proof.
  intros Hj Ho Hq Hg. destruct (decide (ph = CleanupPhase.WorktreeRemoved)) as [->|Hne].
  - exists CleanupPhase.DeletingReference, (at_phase CleanupPhase.DeletingReference qid v).
    assert (journaled CleanupPhase.DeletingReference (at_phase CleanupPhase.DeletingReference qid v)) as Hj1.
    { pose proof Hj as [_ _ _ _ Ht Hr Hreg]. eapply journaled_at; [done|done|done| |done].
      exists 0%nat. split; [lia|]. by rewrite erased_0. }
    split_and!; try done. intros Q' HQ'. apply wp_advance; [done|]. cbn.
    split; [by eapply inv_journaled|done].
  - exists ph, v. assert (3 ≤ CleanupPhase.order ph) by (destruct ph; cbn in *; naive_solver lia).
    split_and!; try done. intros Q' HQ'. apply wp_advance; [done|].
    rewrite (proj2 (Z.ltb_ge _ _)) by (cbn; lia). done.
Qed.

(** How much of the branch is left, and that the rest may go. *)
Lemma refs_left v ph :
  journaled ph v → 3 ≤ CleanupPhase.order ph →
  ∃ i, (i ≤ 3)%nat ∧ v_refs v = erased i ∧ (∀ j, (i ≤ j ≤ 3)%nat → inv (with_refs (erased j) v)) ∧
    (ph ≠ CleanupPhase.DeletingReference → i = 3%nat).
Proof.
  intros Hj Ho. pose proof Hj as [? ? ? ? Ht Hr Hreg].
  destruct (decide (ph = CleanupPhase.DeletingReference)) as [->|Hne].
  - destruct Hr as (i & Hi & Hr). exists i. split_and!; [done..| |done]. intros j Hij.
    eapply inv_journaled. split; try done. exists j. split; [lia|done].
  - assert (v_refs v = erased 3) as E3 by (destruct ph; cbn in Hr, Ho; done || lia).
    exists 3%nat. split_and!; [lia|done| |done]. intros j Hij. assert (j = 3%nat) as -> by lia.
    rewrite <-E3, with_refs_id. by eapply inv_journaled.
Qed.

Lemma wp_commit_reference Q v k ph qid ps :
  journaled ph v → 2 ≤ CleanupPhase.order ph → v_qid v = Some qid → running p ps k →
  (∀ v' ph' k, journaled ph' v' → 4 ≤ CleanupPhase.order ph' → v_qid v' = Some qid →
     v_qname v' = v_qname v → v_std v' = v_std v → v_qdir v' = v_qdir v →
     (4 ≤ CleanupPhase.order ph → ph' = ph) → running p ps k →
     Q (the_journal ph' qid (v_qname v)) (W v' k)) →
  wp (commit_cleanup_reference digest for_each_ref r (g_id (s_git s)) (the_journal ph qid (v_qname v))
        (prepared (v_refs v))) Q stopped (W v k).
Proof.
  intros Hj Ho Hq Hk HQ. unfold commit_cleanup_reference.
  assert (∀ v, inv v → good v k) as Hgood by (intros v' Hv'; by eapply good_running).
  assert (good v k) as Hg by (apply Hgood; by eapply inv_journaled).
  destruct (wp_advance_deleting v k ph qid) as (ph1 & v1 & Hj1 & Ho1 & Hq1 & Hqn1 & Hs1 & Hd1 & Hr1 & Hph1 & Hadv);
    [done..|].
  apply wp_bind, Hadv. clear Hadv. rewrite <-Hqn1 in HQ |- *. rewrite <-Hr1.
  assert (good v1 k) as Hg1 by (apply Hgood; by eapply inv_journaled).
  apply wp_bind, wp_verify_git; [done|]. apply wp_bind, wp_scratch_tip; [done|done|done|].
  apply wp_bind, wp_ensure; [by apply tip_ok|]. apply wp_bind.
  eapply (wp_mono _ (λ _ w, w = W v1 k)).
  { unfold phase_before. cbn [the_journal j_phase].
    destruct (Z.ltb_spec (CleanupPhase.order ph1) (CleanupPhase.order CleanupPhase.ReferenceRemoved)) as [Hlt|Hlt];
      [|by apply wp_ret].
    apply wp_validate_standard; [done|done| |by left|done].
    pose proof (jd_reg _ _ _ _ _ Hj1) as Hreg. destruct ph1; cbn in Hlt, Ho1, Hreg; try lia. by apply Hreg. }
  intros _ w ->. cbn [the_journal j_canonical_worktree_path j_registration_name j_registration_identity].
  apply wp_bind, wp_inventory; [done|done|by left|]. apply wp_bind.
  destruct (refs_left v1 ph1) as (i & Hi & Hv1 & Hinv & Hi3); [done..|].
  eapply wp_commit; [done..|]. intros k2 Hk2. set (v2 := with_refs (erased 3) v1).
  assert (good v2 k2) as Hg2 by (eapply good_running; [apply Hinv; lia|done]).
  apply wp_bind, wp_scratch_tip; [done|done|done|]. rewrite no_tip by done.
  apply wp_bind, wp_ensure; [done|]. apply wp_advance; [done|].
  pose proof Hj1 as [? ? ? ? Ht Hr Hreg].
  destruct (decide (ph1 = CleanupPhase.DeletingReference)) as [->|Hne].
  - cbn. assert (journaled CleanupPhase.ReferenceRemoved (at_phase CleanupPhase.ReferenceRemoved qid v2)) as Hj2.
    { split; try done. by exists qid. }
    split; [by eapply inv_journaled|].
    eapply HQ; try done.
    intros Ho4. assert (CleanupPhase.DeletingReference = ph) as <- by (apply Hph1; lia).
    cbn in Ho4. lia.
  - assert (4 ≤ CleanupPhase.order ph1) as Ho4 by (destruct ph1; cbn in *; naive_solver lia).
    rewrite (proj2 (Z.ltb_ge _ _)) by (cbn; lia).
    assert (v2 = v1) as ->.
    { unfold v2. rewrite (Hi3 Hne) in Hv1. rewrite <-Hv1. apply with_refs_id. }
    eapply HQ; try done. intros ?. apply Hph1. lia.
Qed.

(** ** The registration *)

Definition quarantine_pin (v : View) (n : DirNode) : PinnedDir :=
  mk_pin (Place.Quarantined gpath (v_qname v)) (d_id n).
Definition location_of (v : View) : RegistrationLocation.t :=
  match v_std v, v_qdir v with
  | Some n, _ => RegistrationLocation.Standard (reg_pin r (s_name s) n)
  | None, Some n => RegistrationLocation.Quarantine (quarantine_pin v n)
  | None, None => RegistrationLocation.Missing
  end.

Lemma wp_ensure_registration_absent Q v k qid ph :
  good v k → v_qid v = Some qid → v_std v = None → v_qdir v = None → Q () (W v k) →
  wp (ensure_registration_absent r (the_journal ph qid (v_qname v))) Q stopped (W v k).
Proof.
  intros Hg Hq Hs Hd HQ. unfold ensure_registration_absent, standard_place, quarantine_place.
  cbn [the_journal j_registration_name j_registration_identity j_quarantine_name].
  apply wp_bind, wp_open_worktrees; [done|]. apply wp_bind.
  assert (lookup_dir (Place.Standard gpath (s_name s)) (build v) = None) as E1.
  { by rewrite dir_std, decide_True. }
  assert (lookup_dir (Place.Quarantined gpath (v_qname v)) (build v) = None) as E2.
  { by rewrite (dir_quarantined _ _ _ _ qid). }
  apply wp_bind, wp_open_exact_child; [done|by eapply own_name|by rewrite E1|]. rewrite E1.
  apply wp_ensure; [done|].
  apply wp_bind, wp_open_exact_child; [done|apply (inv_qname _ _ _ _ _ (proj1 Hg))|by rewrite E2|].
  rewrite E2. by apply wp_ensure.
Qed.

(** From the moment the journal says that the registration is being removed. *)
Lemma wp_remove_quarantined Q v k qid ps n started :
  journaled CleanupPhase.RemovingRegistration v → v_qid v = Some qid → running p ps k →
  v_qdir v = Some n → (started = false → n = s_reg s) →
  (let v' := at_phase CleanupPhase.RegistrationRemoved qid (with_qdir None v) in
   ∀ k ps, journaled CleanupPhase.RegistrationRemoved v' → running p ps k →
   Q (the_journal CleanupPhase.RegistrationRemoved qid (v_qname v)) (W v' k)) →
  wp (_ ← (_ ← verify_locks;
           _ ← verify_folder r g_quarantine qid;
           _ ← release_registration (p_id (quarantine_pin v n));
           _ ← verify_folder r g_quarantine qid;
           _ ← (if started : bool
                then validate_remaining_registration_witness (quarantine_pin v n)
                       (the_journal CleanupPhase.RemovingRegistration qid (v_qname v))
                else validate_registration_witness (quarantine_pin v n)
                       (the_journal CleanupPhase.RemovingRegistration qid (v_qname v))
                       (s_canonical s) None false);
           remove (quarantine_pin v n));
      _ ← ensure_registration_absent r (the_journal CleanupPhase.RemovingRegistration qid (v_qname v));
      advance_journal digest r (the_journal CleanupPhase.RemovingRegistration qid (v_qname v))
        CleanupPhase.RegistrationRemoved) Q stopped (W v k).
Proof.
  intros Hj Hq Hk Hn Hst HQ. pose proof Hj as [Hs Hqj Hqn Hqi Ht Hr Hreg].
  destruct Hreg as [Hstd Hd]. rewrite Hn in Hd. destruct Hd as [?|(n' & E & Hp)]; [done|].
  injection E as <-.
  assert (inv v) as Hi by by eapply inv_journaled.
  assert (lookup_dir (Place.Quarantined gpath (v_qname v)) (build v) = Some n) as Hl.
  { by rewrite (dir_quarantined _ _ _ _ qid). }
  apply wp_bind, wp_bind. eapply wp_verify_locks; [by apply locks_stopped|done|].
  apply wp_bind, wp_verify_quarantine; [by eapply good_running|done|]. apply wp_bind.
  eapply wp_release_registration; [by apply locks_stopped|done|]. intros k1 Hk1.
  assert (good v k1) as Hg by by eapply good_running.
  apply wp_bind, wp_verify_quarantine; [done|done|]. apply wp_bind.
  eapply (wp_mono _ (λ _ w, w = W v k1)).
  { destruct started.
    - by eapply wp_validate_remaining.
    - rewrite (Hst eq_refl). apply wp_validate_witness; [done|done| |by left|done].
      rewrite <-(Hst eq_refl). done. }
  intros _ w ->.
  assert (∀ d, d = None ∨ (∃ n, d = Some n ∧ part_of n (s_reg s)) → good (with_qdir d v) k1) as Hgd.
  { intros d Hd. split; [|apply Hg]. eapply inv_journaled. by split. }
  eapply (wp_remove _ _ _ _ n).
  - by apply pinned_ok.
  - by apply good_stopped.
  - cbn [data p_place quarantine_pin]. rewrite set_qdir. apply good_stopped, Hgd. by left.
  - intros names. cbn [data p_place quarantine_pin]. rewrite set_qdir. apply good_stopped, Hgd. right.
    eexists. split; [done|]. by apply part_partly.
  - cbn [data p_place quarantine_pin]. rewrite set_qdir. set (v1 := with_qdir None v).
    apply wp_bind. change (v_qname v) with (v_qname v1).
    apply wp_ensure_registration_absent; [apply Hgd; by left|done|done|done|].
    assert (journaled CleanupPhase.RegistrationRemoved (at_phase CleanupPhase.RegistrationRemoved qid v1)) as Hj'.
    { split; try done. by exists qid. }
    apply wp_advance; [apply Hgd; by left|]. cbn. split; [by eapply inv_journaled|]. by eapply HQ.
Qed.

(** The rename into the quarantine. *)
Lemma wp_quarantine_registration Q v k qid :
  journaled CleanupPhase.QuarantiningRegistration v → v_qid v = Some qid → (∀ b, K_stop p b k) →
  v_std v = Some (s_reg s) →
  (let v' := with_qdir (Some (s_reg s)) (with_std None v) in
   journaled CleanupPhase.QuarantiningRegistration v' → Q (quarantine_pin v (s_reg s)) (W v' k)) →
  wp (rename_into (reg_pin r (s_name s) (s_reg s)) (Place.Quarantined gpath (v_qname v)))
    Q stopped (W v k).
Proof.
  intros Hj Hq Hk Hstd HQ. pose proof Hj as [Hs Hqj Hqn Hqi Ht Hr Hreg].
  assert (v_qdir v = None) as Hd by (destruct Hreg as [[_ ?]|[? _]]; congruence).
  unfold rename_into. apply wp_bind.
  set (v' := with_qdir (Some (s_reg s)) (with_std None v)).
  assert (journaled CleanupPhase.QuarantiningRegistration v') as Hj'.
  { split; try done. by right. }
  eapply (wp_change_v _ _ _ _ _ _ _ _ _ v').
  - split; [by eapply inv_journaled|done].
  - unfold reg_pin. rewrite (pinned_ok _ _ _ _ (s_reg s)) by (by rewrite dir_std, decide_True). cbn [mbind res_bind].
    rewrite (dir_quarantined _ _ _ _ qid), Hd by done. cbn [mbind res_bind ensure].
    rewrite bool_decide_eq_true_2 by done. cbn [mbind res_bind ensure p_place reg_pin].
    rewrite set_std. change (v_qname v) with (v_qname (with_std None v)). by rewrite set_qdir.
  - by eapply inv_journaled.
  - apply wp_ret. by apply HQ.
Qed.

Lemma location_same v v' :
  v_std v' = v_std v → v_qdir v' = v_qdir v → v_qname v' = v_qname v → location_of v' = location_of v.
Proof. intros H1 H2 H3. unfold location_of, quarantine_pin. by rewrite H1, H2, H3. Qed.

(** The directory is in the quarantine and not touched yet. *)
Lemma wp_in_quarantine Q v k qid ps :
  journaled CleanupPhase.QuarantiningRegistration v → v_qid v = Some qid → running p ps k →
  v_std v = None → v_qdir v = Some (s_reg s) →
  (∀ v' k ps, journaled CleanupPhase.RegistrationRemoved v' → v_qid v' = Some qid →
     v_qname v' = v_qname v → running p ps k →
     Q (the_journal CleanupPhase.RegistrationRemoved qid (v_qname v)) (W v' k)) →
  wp (j ← advance_journal digest r
            (the_journal CleanupPhase.QuarantiningRegistration qid (v_qname v))
            CleanupPhase.RemovingRegistration;
      mret (j, Some (quarantine_pin v (s_reg s))))
    (λ '(j, registration),
      wp (_ ← match registration with
              | None => mret ()
              | Some dir =>
                  _ ← verify_locks;
                  _ ← verify_folder r g_quarantine qid;
                  _ ← release_registration (p_id dir);
                  _ ← verify_folder r g_quarantine qid;
                  _ ← validate_registration_witness dir j (j_canonical_worktree_path j) None false;
                  remove dir
              end;
          _ ← ensure_registration_absent r j;
          advance_journal digest r j CleanupPhase.RegistrationRemoved) Q stopped) stopped (W v k).
Proof.
  intros Hj Hq Hk Hs Hd HQ. pose proof Hj as [? ? ? ? ? ? ?].
  set (v1 := at_phase CleanupPhase.RemovingRegistration qid v).
  assert (journaled CleanupPhase.RemovingRegistration v1) as Hj1.
  { eapply journaled_at; [done|done|done|done|]. split; [done|]. right. eauto using part_refl. }
  apply wp_bind, wp_advance; [by eapply good_running; [eapply inv_journaled|]|]. cbn.
  split; [by eapply inv_journaled|]. apply wp_ret. change (v_qname v) with (v_qname v1).
  eapply (wp_remove_quarantined _ v1 k qid ps (s_reg s) false); [done..|].
  intros v2 k2 ps2 Hj2 Hk2. by eapply HQ.
Qed.

(** The registration is in its place. *)
Lemma wp_standard_registration Q v k ph qid ps :
  journaled ph v → 4 ≤ CleanupPhase.order ph → v_qid v = Some qid → running p ps k → is_Some (v_std v) →
  (∀ v' k ps, journaled CleanupPhase.RegistrationRemoved v' → v_qid v' = Some qid →
     v_qname v' = v_qname v → running p ps k →
     Q (the_journal CleanupPhase.RegistrationRemoved qid (v_qname v)) (W v' k)) →
  wp (remove_registration_phase digest r (g_id (s_git s)) qid (the_journal ph qid (v_qname v))
        (location_of v)) Q stopped (W v k).
Proof.
  intros Hj Ho Hq Hk [n Hs] HQ. pose proof Hj as [? ? ? ? Ht Hr Hreg].
  assert (good v k) as Hg by (eapply good_running; [by eapply inv_journaled|done]).
  unfold remove_registration_phase, phase_before. cbn [the_journal j_phase]. rewrite Hs in Hreg.
  assert (n = s_reg s ∧ v_qdir v = None ∧
    (ph = CleanupPhase.ReferenceRemoved ∨ ph = CleanupPhase.QuarantiningRegistration)) as (-> & Hd & Hph).
  { destruct ph; cbn in Ho, Hreg; try lia; naive_solver. }
  assert (negb (CleanupPhase.order ph <? CleanupPhase.order CleanupPhase.RemovingRegistration) = false) as ->.
  { by destruct Hph as [-> | ->]. }
  unfold location_of. rewrite Hs. apply wp_bind, wp_bind.
  set (v1 := at_phase CleanupPhase.QuarantiningRegistration qid v).
  assert (journaled CleanupPhase.QuarantiningRegistration v1) as Hj1.
  { destruct Hph as [-> | ->]; (eapply journaled_at; [done|done|done|done|by left]). }
  assert (good v1 k) as Hg1 by (eapply good_running; [by eapply inv_journaled|done]).
  eapply (wp_mono _ (λ j w, j = the_journal CleanupPhase.QuarantiningRegistration qid (v_qname v) ∧ w = W v1 k)).
  { apply wp_advance; [done|]. destruct Hph as [-> | ->]; cbn.
    - split; [apply Hg1|done].
    - split; [done|]. do 2 f_equal. unfold v1, at_phase. rewrite <-(journaled_journal _ _ _ Hj Hq).
      by destruct v. }
  intros j w [-> ->]. cbn [the_journal j_canonical_worktree_path].
  assert (lookup_dir (Place.Standard gpath (s_name s)) (build v1) = Some (s_reg s)) as Hl1.
  { by rewrite dir_std, decide_True. }
  apply wp_bind, wp_validate_witness; [done|done|done|by left|].
  apply wp_bind, wp_open_worktrees; [done|]. apply wp_bind, wp_verify_worktrees; [done|].
  apply wp_bind, wp_verify_git; [done|]. apply wp_bind.
  apply (wp_quarantine_registration _ v1 k qid); [done|done|apply Hg1|done|]. intros v2 Hj2.
  assert (good v2 k) as Hg2 by (eapply good_running; [by eapply inv_journaled|done]).
  assert (lookup_dir (Place.Quarantined gpath (v_qname v)) (build v2) = Some (s_reg s)) as Hl2.
  { change (v_qname v) with (v_qname v2). by rewrite (dir_quarantined _ _ _ _ qid). }
  apply wp_bind, wp_verify_worktrees; [done|]. apply wp_bind, wp_ensure; [by apply bool_decide_eq_true_2|].
  apply wp_bind. eapply wp_verify_entry; [done|done|].
  apply wp_bind, wp_validate_witness; [done|done|done|by left|].
  eapply wp_mono; [apply (wp_in_quarantine Q v2 k qid ps Hj2 Hq Hk eq_refl eq_refl HQ)|].
  by intros [j registration] w Hw.
Qed.

Lemma wp_remove_registration_phase Q v k ph qid ps :
  journaled ph v → 4 ≤ CleanupPhase.order ph → v_qid v = Some qid → running p ps k →
  (∀ v' k ps, journaled CleanupPhase.RegistrationRemoved v' → v_qid v' = Some qid →
     v_qname v' = v_qname v → running p ps k →
     Q (the_journal CleanupPhase.RegistrationRemoved qid (v_qname v)) (W v' k)) →
  wp (remove_registration_phase digest r (g_id (s_git s)) qid (the_journal ph qid (v_qname v))
        (location_of v)) Q stopped (W v k).
Proof.
  intros Hj Ho Hq Hk HQ. pose proof Hj as [? ? ? ? Ht Hr Hreg].
  assert (good v k) as Hg by (eapply good_running; [by eapply inv_journaled|done]).
  destruct (v_std v) as [n|] eqn:Hs;
    [by eapply wp_standard_registration; [done|done|done|done|rewrite Hs|done]|].
  unfold remove_registration_phase, phase_before. cbn [the_journal j_phase].
  destruct (v_qdir v) as [n|] eqn:Hd.
  - (* in the quarantine *)
    assert (lookup_dir (Place.Quarantined gpath (v_qname v)) (build v) = Some n) as Hl.
    { by rewrite (dir_quarantined _ _ _ _ qid). }
    assert (location_of v = RegistrationLocation.Quarantine (quarantine_pin v n)) as ->.
    { unfold location_of. by rewrite Hs, Hd. }
    destruct (decide (ph = CleanupPhase.QuarantiningRegistration)) as [->|Hne].
    + assert (n = s_reg s) as -> by (cbn in Hreg; naive_solver). cbn [CleanupPhase.order Z.ltb].
      apply wp_bind, wp_bind, wp_ensure; [by apply bool_decide_eq_true_2|].
      apply wp_bind, wp_validate_witness; [done|done|done|by left|].
      eapply wp_mono; [by apply (wp_in_quarantine Q v k qid ps Hj Hq Hk)|].
      by intros [j registration] w Hw.
    + assert (ph = CleanupPhase.RemovingRegistration ∧ part_of n (s_reg s)) as [-> Hp].
      { destruct ph; cbn in Ho, Hreg; try lia; naive_solver. }
      apply wp_bind, wp_bind, wp_ensure; [by apply bool_decide_eq_true_2, Hp|].
      apply wp_bind, wp_ret. apply wp_bind, wp_advance; [done|]. apply wp_ret.
      eapply (wp_remove_quarantined _ v k qid ps n true); [done..|].
      intros v2 k2 ps2 Hj2 Hk2. by eapply HQ.
  - (* gone *)
    assert (location_of v = RegistrationLocation.Missing) as ->.
    { unfold location_of. by rewrite Hs, Hd. }
    assert (ph = CleanupPhase.RemovingRegistration ∨ ph = CleanupPhase.RegistrationRemoved) as Hph.
    { destruct ph; cbn in Ho, Hreg; try lia; naive_solver. }
    apply wp_bind, wp_ret. apply wp_bind, wp_ret.
    apply wp_bind, wp_ensure_registration_absent; [done..|]. apply wp_advance; [done|].
    destruct Hph as [-> | ->]; cbn; [|by eapply HQ].
    assert (journaled CleanupPhase.RegistrationRemoved (at_phase CleanupPhase.RegistrationRemoved qid v)) as Hj1.
    { by eapply journaled_at. }
    split; [by eapply inv_journaled|]. by eapply HQ.
Qed.

(** ** The end *)

(** The state file, with the record and without. *)
Lemma state_removed :
  ∃ st rs rs', read_records state_dir (state (s_data s)) = Ok rs ∧
    state_without state_dir r s st ∧ read_records state_dir st = Ok rs' ∧
    remove_record_if_matches r state_dir st = Ok st ∧
    ∀ dst, record_of rs' dst = if bool_decide (dst = mount_dst r) then None else record_of rs dst.
Proof.
  destruct (rd_record _ _ _ _ _ Hready) as (rs & Hrs & Hown & Hnd).
  destruct (remove_record_ok _ _ _ _ Hrs Hown Hnd) as (st & rs' & Hst & Hrs' & Hl).
  exists st, rs, rs'. split_and!; [done..| |done]. eapply remove_record_absent; [done|].
  by rewrite Hl, bool_decide_eq_true_2.
Qed.

Notation emptied := (emptied r s).

Lemma wp_remove_own_record Q v k :
  good v k → emptied v → v_state v = state (s_data s) ∨ state_without state_dir r s (v_state v) →
  (∀ v', emptied v' → state_without state_dir r s (v_state v') → Q () (W v' k)) →
  wp (remove_own_record state_dir r) Q stopped (W v k).
Proof.
  intros Hg He Hst HQ. destruct state_removed as (st & rs & rs' & Hrs & Hw & Hrs' & Hst' & Hl).
  set (v' := with_v_state st v). assert (emptied v') as He' by by destruct He.
  eapply (wp_change_v _ _ _ _ _ _ _ _ _ v').
  - done.
  - destruct Hst as [Hst|Hst].
    + cbn [CleanupInvariant.build state]. rewrite Hst. unfold state_without in Hw. by rewrite Hw.
    + assert (v_state v = st) as E by (unfold state_without in *; congruence).
      cbn [CleanupInvariant.build state]. rewrite E, Hst'. cbn. done.
  - by apply inv_final.
  - by apply HQ.
Qed.

Lemma wp_ensure_no_tip Q v k fmt :
  good v k → v_refs v = erased 3 → Q () (W v k) →
  wp (ensure_no_tip for_each_ref r fmt) Q stopped (W v k).
Proof.
  intros Hg Hr HQ. unfold ensure_no_tip. apply wp_bind, wp_scratch_tip; [done..|].
  rewrite no_tip by done. by apply wp_ensure.
Qed.

Lemma wp_finalize_cleanup Q v k qid ps :
  journaled CleanupPhase.RegistrationRemoved v → v_qid v = Some qid → running p ps k →
  (∀ v' k, emptied v' → state_without state_dir r s (v_state v') → K_idle p k → Q () (W v' k)) →
  wp (finalize_cleanup digest for_each_ref state_dir r (g_id (s_git s)) qid
        (the_journal CleanupPhase.RegistrationRemoved qid (v_qname v))) Q stopped (W v k).
Proof.
  intros Hj Hq Hk HQ. pose proof Hj as [Hst Hqj Hqn Hqi Ht Hr [Hs Hd]]. cbn in Ht, Hr.
  assert (inv v) as Hi by by eapply inv_journaled.
  assert (good v k) as Hg by by eapply good_running. unfold finalize_cleanup.
  apply wp_bind, wp_verify_git; [done|]. apply wp_bind, wp_verify_quarantine; [done..|].
  apply wp_bind, wp_ensure_worktree_absent; [done..|].
  apply wp_bind, wp_ensure_registration_absent; [done..|].
  apply wp_bind, wp_ensure_no_tip; [done..|].
  apply wp_bind. eapply wp_finish; [by apply locks_stopped|done|]. intros k1 Hk1.
  assert (good v k1) as Hg1 by by eapply good_idle.
  apply wp_bind, wp_verify_git; [done|]. apply wp_bind, wp_verify_quarantine; [done..|].
  apply wp_bind, wp_ensure_no_tip; [done..|].
  apply wp_bind, wp_ensure_worktree_absent; [done..|].
  apply wp_bind, wp_ensure_registration_absent; [done..|].
  set (v1 := with_journal None v). assert (emptied v1) as He by done.
  assert (inv v1) as Hi1 by by apply inv_emptied.
  apply wp_bind. eapply (wp_change_v _ _ _ _ _ _ _ _ _ v1);
    [done|by rewrite delete_journal|done|].
  apply wp_remove_own_record; [by apply good_idle|done|by left|]. intros v' He' Hst'. by apply HQ.
Qed.

Lemma wp_execute_cleanup Q v k ph qid ps :
  journaled ph v → v_qid v = Some qid → running p ps k →
  (∀ v' k, emptied v' → state_without state_dir r s (v_state v') → K_idle p k → Q () (W v' k)) →
  wp (execute_cleanup digest for_each_ref state_dir r (g_id (s_git s)) qid (pin_tree r v)
        (the_journal ph qid (v_qname v)) (location_of v) (prepared (v_refs v))) Q stopped (W v k).
Proof.
  intros Hj Hq Hk HQ. unfold execute_cleanup. apply wp_bind.
  apply wp_remove_worktree_phase; [done|done|by intros b; eapply running_stop|].
  intros v1 ph1 Hj1 Ho1 Hq1 Hn1 Hs1 Hd1 Hr1 _. rewrite <-Hn1, <-Hr1. apply wp_bind.
  eapply wp_commit_reference; [done..|]. intros v2 ph2 k2 Hj2 Ho2 Hq2 Hn2 Hs2 Hd2 _ Hk2.
  rewrite <-(location_same v v2) by congruence. rewrite <-Hn2. apply wp_bind.
  eapply wp_remove_registration_phase; [done..|]. intros v3 k3 ps3 Hj3 Hq3 Hn3 Hk3. rewrite <-Hn3.
  by eapply wp_finalize_cleanup.
Qed.

(** ** Resuming *)

Lemma str_eqb_refl x : str_eqb x x = true.
Proof. by apply bool_decide_eq_true_2. Qed.

Lemma tip_wellformed : str_eqb (start_tip r s) "" || is_hex_oid (start_tip r s) = true.
Proof.
  unfold start_tip. destruct (resolve _ _ ref) as [o|] eqn:E; [|done].
  destruct (resolve_ok _ _ _ _ (rd_refs _ _ _ _ _ Hready) E) as (_ & Hv & _). cbn [tip_text].
  rewrite valid_hex_oid by done. apply orb_true_r.
Qed.

Lemma marker_wellformed ph qid qn t :
  s_tree s = Some t →
  ∃ m, d_files t !! ".git" = Some m ∧ marker_ok (the_journal ph qid qn) m = true.
Proof.
  intros Ht. destruct (rd_tree_ok _ _ _ _ _ Hready _ Ht) as (m & Hm & _ & Hok).
  exists m. split; [done|]. unfold found_marker_ok in Hok. unfold marker_ok.
  cbn [the_journal j_common_git_dir j_original_src j_registration_name]. unfold common_git_dir.
  by rewrite (rd_git_canonical _ _ _ _ _ Hready).
Qed.

Lemma journal_valid ph qid v :
  journaled ph v →
  validate_journal (the_journal ph qid (v_qname v)) r (s_canonical s) (common_git_dir canonicalize r)
    (g_id (s_git s)) = Ok ().
Proof.
  intros Hj. destruct (jd_qname _ _ _ _ _ Hj) as (_ & Hq & Ha & _).
  destruct (own_files _ _ _ _ _ Hready)
    as (h & b & c & _ & _ & _ & Ew & Hh & Hb & Hc & _).
  unfold validate_journal.
  cbn [the_journal j_version j_original_src j_mount_dst j_workspace_name j_selector_key j_container_name
    j_worktree_path j_canonical_worktree_path j_scratch_branch j_base_commit j_common_git_dir
    j_common_identity j_registration_name j_quarantine_name j_worktree_device j_worktree_inode
    j_expected_tip j_registration_witness].
  rewrite !str_eqb_refl, (bool_decide_eq_true_2 (workspace_name r = _)),
    (bool_decide_eq_true_2 (g_id (s_git s) = _)) by done.
  cbn [andb mbind res_bind ensure Z.eqb CLEANUP_JOURNAL_VERSION Pos.eqb].
  rewrite (own_name _ _ _ _ _ Hready), Hq, Ha, tip_wellformed, Ew.
  cbn [rw_head rw_gitdir rw_commondir rw_marker andb mbind res_bind ensure]. rewrite Hh, Hb, Hc.
  destruct (s_tree s) as [t|] eqn:Et; [|done].
  destruct (marker_wellformed ph qid (v_qname v) t Et) as (m & Hm & Hok).
  cbn [fmap option_fmap option_map mbind option_bind]. rewrite Hm. cbn. by rewrite Hok.
Qed.

Definition pin_quarantined (v : View) : option PinnedDir := quarantine_pin v <$> v_qdir v.

Lemma stage_exclusive ph v : journaled ph v → v_std v = None ∨ v_qdir v = None.
Proof. intros Hj. pose proof (jd_reg _ _ _ _ _ Hj) as Hr. destruct ph; cbn in Hr; tauto. Qed.

Lemma stage_qdir ph v n : journaled ph v → v_qdir v = Some n → d_id n = d_id (s_reg s).
Proof.
  intros Hj Hn. pose proof (jd_reg _ _ _ _ _ Hj) as Hr. rewrite Hn in Hr.
  destruct ph; cbn in Hr; try (by destruct Hr); [by destruct Hr as [[]|[_ [= ->]]]|].
  by destruct Hr as [_ [?|(n' & [= ->] & [? _])]].
Qed.

(** The places of the registration's locks are free once it is not among the
    inventory any more. *)
Lemma quarantined_places_free v q :
  inv v → v_std v = None → q ∈ registration_places (d_id (s_reg s)) → ¬ inventory_places s v q.
Proof.
  intros Hi Hs Hq [->|(name & n & Hname & Hn & Hq')].
  - unfold registration_places, head_lock in Hq. set_solver.
  - assert (d_id n = d_id (s_reg s)) as Hid by by eapply places_inj.
    pose proof (std_dirs_start _ _ _ _ _ Hready _ _ _ Hi Hn) as Hn0.
    assert (name = s_name s) as ->.
    { eapply (rd_ids _ _ _ _ _ Hready); [done|apply (rd_own _ _ _ _ _ Hready)|done]. }
    unfold std_dirs in Hn. rewrite lookup_partial_alter_eq in Hn. congruence.
Qed.

Lemma wp_lock_quarantined Q v k ph ps :
  journaled ph v → running p ps k → (∀ q, q ∈ ps → inventory_places s v q) →
  (∀ k ps, running p ps k → (∀ q, q ∈ ps → q ∉ ref_places r) → Q () (W v k)) →
  wp (match pin_std r s v, pin_quarantined v with
      | None, Some dir => lock_candidate dir
      | _, _ => mret ()
      end) Q stopped (W v k).
Proof.
  intros Hj Hk Hps HQ. assert (inv v) as Hi by by eapply inv_journaled.
  assert (∀ q, q ∈ ps → q ∉ ref_places r) as Hfree.
  { intros q Hq. by eapply inventory_not_ref, Hps. }
  unfold pin_std, pin_quarantined.
  destruct (v_std v) as [n|] eqn:Hs; [by eapply wp_ret, HQ|].
  destruct (v_qdir v) as [n|] eqn:Hd; [|by eapply wp_ret, HQ]. cbn [fmap option_fmap option_map].
  unfold quarantine_pin. rewrite (stage_qdir _ _ _ Hj Hd).
  eapply wp_lock_candidate; [done|done|done|done|..].
  - intros q Hq Hq'. by eapply quarantined_places_free, Hps.
  - intros k1 Hk1. eapply HQ; [done|]. intros q [Hq|Hq]%elem_of_app; [by apply Hfree|].
    unfold registration_places, ref_places in *. set_solver.
Qed.

(** What a resumed removal requires of the place the registration was found at. *)
Lemma wp_resumed_location Q v k ph qid :
  journaled ph v → v_qid v = Some qid → good v k → Q () (W v k) →
  wp (if phase_before (the_journal ph qid (v_qname v)) CleanupPhase.RemovingRegistration then
        match location_of v with
        | RegistrationLocation.Standard dir | RegistrationLocation.Quarantine dir =>
            validate_registration_witness dir (the_journal ph qid (v_qname v)) (s_canonical s)
              (pin_tree r v)
              (bool_decide (j_phase (the_journal ph qid (v_qname v)) = CleanupPhase.RemovingWorktree))
        | RegistrationLocation.Missing =>
            lift (bail "journaled registration disappeared before removal was recorded; record retained")
        end
      else
        lift (ensure (match location_of v with RegistrationLocation.Standard _ => false | _ => true end)
                "journaled registration reappeared at its Git path; record retained")) Q stopped (W v k).
Proof.
  intros Hj Hq Hg HQ. pose proof (jd_reg _ _ _ _ _ Hj) as Hr. pose proof (marker_of_stage _ _ Hj) as Hm.
  assert (lookup_dir (Place.Quarantined gpath (v_qname v)) (build v) = v_qdir v) as Hl.
  { by rewrite (dir_quarantined _ _ _ _ qid). }
  unfold phase_before, location_of. cbn [the_journal j_phase].
  destruct (Z.ltb_spec (CleanupPhase.order ph) (CleanupPhase.order CleanupPhase.RemovingRegistration)) as [Hlt|Hlt].
  - assert ((v_std v = Some (s_reg s)) ∨ v_std v = None ∧ v_qdir v = Some (s_reg s)) as Hloc.
    { destruct ph; cbn in Hr, Hlt; try lia; tauto. }
    destruct Hloc as [Hs | [Hs Hd]]; rewrite Hs; [|rewrite Hd].
    + apply wp_validate_witness; [done|done|by rewrite dir_std, decide_True|done|done].
    + apply wp_validate_witness; [done|done|by rewrite Hl|done|done].
  - apply wp_ensure; [|done]. assert (v_std v = None) as ->.
    { destruct ph; cbn in Hr, Hlt; try lia; tauto. }
    by destruct (v_qdir v).
Qed.

Lemma wp_resumed_removed Q v k ph qid :
  journaled ph v → good v k → Q () (W v k) →
  wp (if bool_decide (j_phase (the_journal ph qid (v_qname v)) = CleanupPhase.RegistrationRemoved) then
        lift (ensure (match location_of v with RegistrationLocation.Missing => true | _ => false end)
                "journaled registration reappeared after removal; record retained")
      else mret ()) Q stopped (W v k).
Proof.
  intros Hj Hg HQ. pose proof (jd_reg _ _ _ _ _ Hj) as Hr. cbn [the_journal j_phase].
  case_bool_decide as E; [|by apply wp_ret]. subst ph. destruct Hr as [Hs Hd]. apply wp_ensure; [|done].
  unfold location_of. by rewrite Hs, Hd.
Qed.

Lemma wp_resume_cleanup Q v k ph qid :
  journaled ph v → v_qid v = Some qid → K_idle p k →
  (∀ v' k, emptied v' → state_without state_dir r s (v_state v') → K_idle p k → Q () (W v' k)) →
  wp (resume_cleanup digest for_each_ref state_dir r (g_id (s_git s)) (s_canonical s) (pin_tree r v)
        (the_journal ph qid (v_qname v))) Q stopped (W v k).
Proof.
  intros Hj Hq Hk HQ. assert (inv v) as Hi by by eapply inv_journaled.
  assert (good v k) as Hg by by apply good_idle. unfold resume_cleanup.
  apply wp_bind. eapply wp_lift; [by apply identity_ok|].
  apply wp_bind, wp_open_quarantine; [done|]. rewrite Hq.
  apply wp_bind, wp_ensure; [by apply bool_decide_eq_true_2|].
  apply wp_bind, wp_verify_quarantine; [done..|].
  apply wp_bind. eapply wp_begin; [by apply locks_stopped|done|]. intros k1 Hk1.
  apply wp_bind. eapply wp_lock_recovery_inventory; [done|done|done|done|]. intros k2 ps2 Hk2 Hps2.
  assert (good v k2) as Hg2 by by eapply good_running. unfold quarantine_place.
  cbn [the_journal j_quarantine_name j_registration_identity].
  assert (lookup_dir (Place.Quarantined gpath (v_qname v)) (build v) = v_qdir v) as Hl.
  { by rewrite (dir_quarantined _ _ _ _ qid). }
  apply wp_bind, wp_open_exact_child; [done|apply (inv_qname _ _ _ _ _ Hi)| |].
  { rewrite Hl. intros n Hn. by eapply stage_qdir. }
  rewrite Hl. change (mk_pin _ ∘ d_id <$> v_qdir v) with (pin_quarantined v).
  apply wp_bind, wp_ensure.
  { unfold pin_std, pin_quarantined. destruct (stage_exclusive _ _ Hj) as [-> | ->]; cbn; [done|].
    apply orb_true_r. }
  apply wp_bind. eapply wp_lock_quarantined; [done..|]. intros k3 ps3 Hk3 Hps3.
  assert (good v k3) as Hg3 by by eapply good_running.
  assert (match pin_std r s v, pin_quarantined v with
          | Some dir, _ => RegistrationLocation.Standard dir
          | None, Some dir => RegistrationLocation.Quarantine dir
          | None, None => RegistrationLocation.Missing
          end = location_of v) as ->.
  { unfold pin_std, pin_quarantined, location_of. by destruct (v_std v), (v_qdir v). }
  apply wp_bind, (wp_mono _ (λ _ w, w = W v k3)); [by eapply wp_resumed_location|]. intros _ w ->.
  apply wp_bind, (wp_mono _ (λ _ w, w = W v k3)); [by eapply wp_resumed_removed|]. intros _ w ->.
  apply wp_bind, wp_scratch_tip; [done..|]. apply wp_bind, wp_ensure; [by apply tip_ok|].
  apply wp_bind. eapply wp_prepare; [done..|]. intros k4 Hk4. by eapply wp_execute_cleanup.
Qed.

(** ** Starting *)

(** The quarantine's names of this process are not taken. *)
Hypothesis Hfree : ∀ n, quarantine_dirs (s_git s) !! quarantine_name p n = None.

Lemma own_qname_ok n : qname_ok s (quarantine_name p n).
Proof. split; [apply Hfree|apply quarantine_name_ok]. Qed.

(** The name a view has for the quarantined directory does not matter before
    there is one. *)
Definition with_qname (qn : string) (v : View) : View :=
  mk_view (v_state v) (v_journal v) (v_tree v) (v_std v) (v_qid v) qn (v_qdir v) (v_refs v).

Lemma build_qname qn v :
  v_qdir v = None → qname_ok s (v_qname v) → qname_ok s qn → build (with_qname qn v) = build v.
Proof.
  intros Hd [H1 _] [H2 _]. assert (build_git s (with_qname qn v) = build_git s v) as E.
  { unfold build_git. cbn. f_equal. destruct (v_qid v); [|done]. cbn. do 2 f_equal. rewrite Hd.
    change (partial_alter (λ _, None)) with (delete (M := gmap string DirNode)). by rewrite !delete_id. }
  unfold CleanupInvariant.build. by rewrite E.
Qed.

Lemma running_counters ps k nq ni :
  running p ps k →
  running p ps (mk_locks (pid k) (next_transaction k) nq ni (lock_files k) (recoveries k) (txn k)).
Proof. intros (t & rc & []). exists t, rc. by split. Qed.

Lemma wp_counters {A} Q (f : Locks → res (A * Locks)) a v k k' ps :
  inv v → running p ps k → f k = Ok (a, k') → running p ps k' → Q a (W v k') →
  wp (change_locks f) Q stopped (W v k).
Proof.
  intros Hi Hk Hf Hk' HQ. eapply wp_change_locks; [done|..|done].
  - by eapply good_stopped, good_running.
  - by eapply good_stopped, good_running.
Qed.

Notation untouched := (untouched s).

Lemma qid_none v : qid_ok s (v_qid v) → v_qid v = None → g_quarantine (s_git s) = None.
Proof.
  intros [H|H] E; [done|]. rewrite E in H. by destruct (g_quarantine (s_git s)).
Qed.

Lemma wp_create_quarantine Q v k ino :
  untouched v → (∀ b, K_stop p b k) →
  (∀ v' qid, untouched v' → v_qid v' = Some qid → Q () (W v' k)) →
  wp (create_quarantine r ino) Q stopped (W v k).
Proof.
  intros Hu Hk HQ. destruct Hu as [Hst Hjn Hqn Hqi Hqd Ht Hr Hs].
  set (qid := default ((g_id (s_git s)).1, ino) (v_qid v)). set (v' := with_qid (Some qid) v).
  assert (untouched v') as Hu'.
  { split; try done. cbn. unfold qid. destruct (v_qid v) as [q|] eqn:Eq; [done|].
    left. eapply (qid_none v); [by rewrite Eq|done]. }
  eapply (wp_change_v _ _ _ _ _ _ _ _ _ v').
  - split; [by apply inv_untouched|done].
  - rewrite repo_build. cbn [mbind res_bind]. f_equal. apply update_build; try done.
    unfold build_git, set_quarantine. cbn. f_equal. unfold qid.
    destruct (v_qid v) as [q|] eqn:Eq; [done|]. cbn. do 2 f_equal.
    rewrite Hqd. change (partial_alter (λ _, None)) with (delete (M := gmap string DirNode)).
    unfold quarantine_dirs. rewrite (qid_none v); [|by rewrite Eq|done]. by rewrite delete_empty.
  - by apply inv_untouched.
  - by eapply HQ.
Qed.

Lemma next_name_ok v k qid tries :
  v_qid v = Some qid → v_qdir v = None → pid k = p →
  next_quarantine_name (S tries) (default [] ((btree_keys ∘ f_dirs) <$> g_quarantine (build_git s v))) k
  = Ok (quarantine_name p (next_quarantine k),
        mk_locks (pid k) (next_transaction k) (next_quarantine k + 1)%N (next_inode k)
          (lock_files k) (recoveries k) (txn k)).
Proof.
  intros Hq Hd Hp. cbn [build_git g_quarantine]. rewrite Hq, Hd.
  cbn [fmap option_fmap option_map compose f_dirs from_option id]. cbn [next_quarantine_name]. rewrite Hp.
  unfold str_in. rewrite bool_decide_eq_false_2; [done|].
  rewrite elem_of_btree_keys, elem_of_dom, lookup_partial_alter.
  destruct (decide _); [by intros []|]. rewrite Hfree. by intros [].
Qed.

Lemma wp_quarantine_names Q v k qid :
  good v k → v_qid v = Some qid →
  Q (default [] ((btree_keys ∘ f_dirs) <$> g_quarantine (build_git s v))) (W v k) →
  wp (entry_names r g_quarantine) Q stopped (W v k).
Proof.
  intros Hg Hq HQ. eapply wp_look_repo; [done| |done]. cbn [build_git g_quarantine]. by rewrite Hq.
Qed.

Notation prepared_journal := (the_journal CleanupPhase.Prepared).

(** From the journal on. *)
Lemma wp_start_journaled Q v k qid ps :
  untouched v → v_qid v = Some qid → running p ps k →
  (∀ v' k, emptied v' → state_without state_dir r s (v_state v') → K_idle p k → Q () (W v' k)) →
  wp (_ ← create_journal digest r (prepared_journal qid (v_qname v));
      execute_cleanup digest for_each_ref state_dir r (g_id (s_git s)) qid (pin_tree r v)
        (prepared_journal qid (v_qname v))
        (RegistrationLocation.Standard (reg_pin r (s_name s) (s_reg s)))
        (prepared (v_refs v))) Q stopped (W v k).
Proof.
  intros Hu Hq Hk HQ. assert (inv v) as Hi by by apply inv_untouched.
  destruct Hu as [Hst Hjn Hqn Hqi Hqd Ht Hr Hs].
  set (v' := at_phase CleanupPhase.Prepared qid v).
  assert (journaled CleanupPhase.Prepared v') as Hj.
  { split; try done. by exists qid. }
  apply wp_bind. eapply (wp_change_v _ _ _ _ _ _ _ _ _ v').
  - by eapply good_running.
  - rewrite journal_lookup, Hjn. cbn [fmap option_fmap option_map].
    rewrite bool_decide_eq_false_2 by by intros []. cbn [negb ensure mbind res_bind].
    by rewrite insert_journal.
  - by eapply inv_journaled.
  - assert (RegistrationLocation.Standard (reg_pin r (s_name s) (s_reg s)) = location_of v') as ->.
    { unfold location_of. cbn. by rewrite Hs. }
    change (pin_tree r v) with (pin_tree r v'). change (v_refs v) with (v_refs v').
    change (v_qname v) with (v_qname v'). by eapply wp_execute_cleanup.
Qed.

Lemma wp_start_fresh Q v k :
  untouched v → K_idle p k →
  (∀ v' k, emptied v' → state_without state_dir r s (v_state v') → K_idle p k → Q () (W v' k)) →
  wp (start_fresh_cleanup canonicalize digest for_each_ref state_dir r (g_id (s_git s)) (s_canonical s)
        (pin_tree r v)) Q stopped (W v k).
Proof.
  intros Hu Hk HQ. assert (inv v) as Hi by by apply inv_untouched. unfold start_fresh_cleanup.
  apply wp_bind. eapply wp_begin; [by apply locks_stopped|done|]. intros k1 Hk1.
  apply wp_bind. eapply wp_find_registration; [done|done|done|done|intros _; apply Hu|].
  intros k2 ps2 Hk2 Hps2. unfold found_own. rewrite (un_std _ _ Hu). cbn [fmap option_fmap option_map].
  apply wp_bind, wp_scratch_tip; [done|done|by eapply good_running|].
  apply wp_bind, wp_ensure; [done|].
  apply wp_bind. eapply wp_prepare; [done|done|done|done|by intros q Hq; eapply inventory_not_ref, Hps2|].
  intros k3 Hk3. apply wp_bind. eapply wp_counters; [done|done|done|by apply running_counters|].
  set (k4 := mk_locks _ _ _ _ _ _ _). assert (running p (ps2 ++ ref_places r) k4) as Hk4 by by apply running_counters.
  apply wp_bind, wp_create_quarantine; [done|by intros b; eapply running_stop|].
  intros v1 qid Hu1 Hq1. assert (inv v1) as Hi1 by by apply inv_untouched.
  apply wp_bind, wp_open_quarantine; [by eapply good_running|]. rewrite Hq1.
  apply wp_bind. eapply wp_quarantine_names; [by eapply good_running|done|].
  assert (pid k4 = p) as Hp by by destruct Hk4 as (t & rc & []).
  apply wp_bind. eapply wp_counters;
    [done|done|by eapply next_name_ok; [|apply Hu1|]|by apply running_counters|].
  set (qn := quarantine_name p _). set (k5 := mk_locks _ _ _ _ _ _ _).
  assert (running p (ps2 ++ ref_places r) k5) as Hk5 by by apply running_counters.
  set (v2 := with_qname qn v1).
  assert (untouched v2) as Hu2.
  { destruct Hu1. split; try done. apply own_qname_ok. }
  rewrite <-(build_qname qn v1) by (apply Hu1 || apply own_qname_ok).
  pose proof (wp_start_journaled Q v2 k5 qid _ Hu2 Hq1 Hk5 HQ) as H.
  assert (pin_tree r v2 = pin_tree r v) as E1.
  { unfold pin_tree. by rewrite (un_tree _ _ Hu), (un_tree _ _ Hu2). }
  assert (v_refs v2 = v_refs v) as E2 by by rewrite (un_refs _ _ Hu), (un_refs _ _ Hu2).
  rewrite E1, E2 in H. unfold CleanupInvariant.the_journal, start_tip in H.
  rewrite <-(un_tree _ _ Hu), <-(un_refs _ _ Hu) in H. unfold pin_tree, view_tip in *.
  destruct (v_tree v); exact H.
Qed.

(** Only the record is left. *)
Lemma wp_start_emptied Q v k :
  emptied v → v_state v = state (s_data s) ∨ state_without state_dir r s (v_state v) → K_idle p k →
  (∀ v' k, emptied v' → state_without state_dir r s (v_state v') → K_idle p k → Q () (W v' k)) →
  wp (start_fresh_cleanup canonicalize digest for_each_ref state_dir r (g_id (s_git s)) (s_canonical s)
        (pin_tree r v)) Q stopped (W v k).
Proof.
  intros He Hst Hk HQ.
  assert (inv v) as Hi by (destruct Hst; [by apply inv_emptied|by apply inv_final]).
  pose proof He as [Hjn Hqn Hqi Hqd Ht Hr Hs]. unfold start_fresh_cleanup.
  apply wp_bind. eapply wp_begin; [by apply locks_stopped|done|]. intros k1 Hk1.
  apply wp_bind. eapply wp_find_registration; [done|done|done|done|by rewrite Hs; intros []|].
  intros k2 ps2 Hk2 Hps2. unfold found_own, pin_tree. rewrite Hs, Ht. cbn [fmap option_fmap option_map].
  apply wp_bind, wp_scratch_tip; [done|done|by eapply good_running|].
  apply wp_bind, wp_ensure; [by rewrite no_tip|].
  apply wp_bind. eapply wp_prepare; [done|done|done|done|by intros q Hq; eapply inventory_not_ref, Hps2|].
  intros k3 Hk3. assert (good v k3) as Hg3 by by eapply good_running.
  apply wp_bind, wp_scratch_tip; [done..|]. rewrite no_tip by done. apply wp_bind, wp_ensure; [done|].
  apply wp_bind, wp_inventory; [done|done|by right|]. apply wp_bind.
  eapply (wp_commit _ _ _ _ 3); [lia|done|done| |].
  { intros j Hj. assert (j = 3%nat) as -> by lia. by rewrite <-Hr, with_refs_id. }
  rewrite <-Hr, with_refs_id. intros k4 Hk4. assert (good v k4) as Hg4 by by eapply good_running.
  apply wp_bind, wp_ensure_no_tip; [done..|].
  apply wp_bind. eapply wp_finish; [by apply locks_stopped|done|]. intros k5 Hk5.
  assert (good v k5) as Hg5 by by apply good_idle.
  apply wp_bind, wp_verify_git; [done|]. apply wp_bind, wp_ensure_no_tip; [done..|].
  apply wp_remove_own_record; [done..|]. intros v' He' Hst'. by apply HQ.
Qed.

(** ** The whole removal *)

Lemma journal_of v : inv v →
  match v_journal v with
  | Some j => ∃ ph qid, journaled ph v ∧ v_qid v = Some qid ∧ j = the_journal ph qid (v_qname v)
  | None => untouched v ∨ emptied v ∧ (v_state v = state (s_data s) ∨ state_without state_dir r s (v_state v))
  end.
Proof.
  intros [H|ph H|H Hst|H Hst].
  - rewrite (un_journal _ _ H). auto.
  - destruct (jd_qid _ _ _ _ _ H) as (qid & Hq & ->). eauto.
  - rewrite (em_journal _ _ _ H). auto.
  - rewrite (em_journal _ _ _ H). auto.
Qed.

Lemma wp_cleanup_body Q v k :
  inv v → K_idle p k →
  (∀ v' k, emptied v' → state_without state_dir r s (v_state v') → K_idle p k → Q () (W v' k)) →
  wp (cleanup_body canonicalize digest for_each_ref state_dir r) Q stopped (W v k).
Proof.
  intros Hi Hk HQ. assert (good v k) as Hg by by apply good_idle. unfold cleanup_body.
  apply wp_bind. eapply wp_look_v; [done|apply (rd_hold _ _ _ _ _ Hready)|].
  rewrite bool_decide_eq_false_2 by (by rewrite (rd_kind _ _ _ _ _ Hready)).
  apply wp_bind, wp_ensure; [apply bool_decide_eq_true_2, (rd_kind _ _ _ _ _ Hready)|].
  apply wp_bind, wp_ensure; [apply bool_decide_eq_true_2, (rd_branch _ _ _ _ _ Hready)|].
  apply wp_bind, wp_ensure; [apply (rd_path _ _ _ _ _ Hready)|].
  apply wp_bind, wp_pin_worktree; [done|]. apply wp_bind, (wp_mono _ (λ _ w, w = W v k)).
  { unfold pin_tree. destruct (v_tree v) as [n|] eqn:Et; cbn [fmap option_fmap option_map]; [|by apply wp_ret].
    eapply wp_verify_entry; [done|by rewrite dir_tree|done]. }
  intros _ w ->. apply wp_bind. eapply wp_lift; [apply (rd_canonical _ _ _ _ _ Hready)|].
  apply wp_bind. eapply wp_look_repo; [done..|]. apply wp_bind, wp_verify_git; [done|].
  apply wp_bind. eapply wp_look_repo; [done| |].
  { cbn [build_git g_commondir]. by rewrite (rd_common _ _ _ _ _ Hready). }
  apply wp_bind, wp_verify_git; [done|]. apply wp_bind. eapply wp_look_repo; [done..|].
  apply wp_bind. eapply wp_look_v; [done|done|]. rewrite journal_lookup. pose proof (journal_of v Hi) as Hj.
  destruct (v_journal v) as [j|]; cbn [fmap option_fmap option_map].
  - destruct Hj as (ph & qid & Hj & Hq & ->).
    apply wp_bind. eapply wp_lift; [by apply journal_valid|]. by eapply wp_resume_cleanup.
  - destruct Hj as [Hu|[He Hst]]; [by apply wp_start_fresh|by apply wp_start_emptied].
Qed.

(** What an attempt leaves: an idle process after an error or a success, a
    transaction nobody has the lease of after a crash. *)
Definition left_over (b : bool) (w : World) : Prop :=
  ∃ v k, w = W v k ∧ inv v ∧ if b then K_stop p true k else K_idle p k.

(** Destructors do not report errors. *)
Lemma drop_locks_total ls w evs e w' evs' : drop_locks ls w evs ≠ (Failed e, w', evs').
Proof.
  revert w evs. induction ls as [|l ls IH]; intros w evs; [done|]. cbn [drop_locks].
  unfold mbind, io_bind, swallow. by destruct (release l w evs) as [[[[]|e0|] w1] evs1].
Qed.
Lemma drop_txn_total w evs e w' evs' : drop_txn w evs ≠ (Failed e, w', evs').
Proof.
  unfold drop_txn. destruct (txn (locks w)) as [t|]; [|done]. unfold mbind, io_bind at 1.
  pose proof (drop_locks_total (t_locks t) w evs) as Hd.
  destruct (drop_locks (t_locks t) w evs) as [[[[]|e0|] w1] evs1]; [|by specialize (Hd e0 w1 evs1)|done].
  unfold drop_recovery. destruct (txn (locks w1)) as [t1|]; [|done].
  destruct (t_preserve t1); [done|]. unfold mbind, io_bind, swallow.
  by destruct (change_locks _ w1 evs1) as [[[[]|e1|] w2] evs2].
Qed.

Lemma wp_force_cleanup Q v k :
  inv v → K_idle p k →
  (∀ v' k, emptied v' → state_without state_dir r s (v_state v') → K_idle p k → Q () (W v' k)) →
  wp (force_cleanup_isolated canonicalize digest for_each_ref state_dir r) Q left_over (W v k).
Proof.
  intros Hi Hk HQ evs. unfold force_cleanup_isolated.
  pose proof (wp_cleanup_body Q v k Hi Hk HQ evs) as H.
  destruct (cleanup_body _ _ _ _ _ _ _) as [[[[]|e|] w'] evs']; [done| |].
  - destruct H as [(v' & k' & -> & Hi' & Hk') Hc].
    pose proof (wp_drop_txn p (build v')
      (λ b w, ∃ k, w = W v' k ∧ K_stop p b k) ltac:(intros; eexists; done)
      (λ _ w, ∃ k, w = W v' k ∧ K_idle p k) k' Hk' ltac:(intros; eexists; done) evs') as Hd.
    unfold mbind, io_bind. pose proof (drop_txn_total (W v' k') evs') as Hf.
    destruct (drop_txn _ _) as [[[[]|e'|] w''] evs'']; cbn.
    + destruct Hd as [(k'' & -> & ?) _]. split; [|done]. by exists v', k''.
    + by specialize (Hf e' w'' evs'').
    + destruct Hd as [(k'' & -> & ?) _]. split; [|done]. by exists v', k''.
  - destruct H as [(v' & k' & -> & Hi' & Hk') Hc]. split; [|done]. by exists v', k'.
Qed.
End removal.
