(* ===== verification/CleanupRecovery.v ===== *)
(** * Interrupted removals

    What the proofs of [CleanupProofs] say of the program, in terms of the world
    and not of the invariant: a removal that is interrupted any number of times, by
    errors and by crashes, touches nothing but its own work tree, registration,
    branch, journal and record, keeps the record until everything else is gone, and
    is finished by the next attempt that is not disturbed.  And work that is held is
    not removed at all. *)

From stdpp Require Import base list gmap strings pretty.
From Stdlib Require Import ZArith Lia Bool.
From S2P Require Import Prelude OrderedMap Paths Config Isolation IsolationProofs RefTransaction RefProofs CleanupWorld Cleanup CleanupLogic GitRefs CleanupInvariant CleanupSteps CleanupProofs.

Section recovery.
Context (canonicalize digest : string → string) (for_each_ref : Refs → string).
Context (state_dir : string) (r : IsolationRecord).

Notation attempt := (force_cleanup_isolated canonicalize digest for_each_ref state_dir r).
Notation ref := (branch_ref r).
Notation gpath := (git_path r).

(** A process whose number no recovery directory and no quarantined directory has. *)
Definition fresh_process (q : N) (w : World) : Prop :=
  (∀ n, recoveries (locks w) !! recovery_name q n = None) ∧
  (∀ n, lookup_dir (Place.Quarantined gpath (quarantine_name q n)) (data w) = None).

(** Attempts, one after the other: each ends well, with an error, or with the
    process, and then a new process makes the next one. *)
Inductive attempts (w : World) : World → Prop :=
| attempts_none : attempts w w
| attempts_done w1 evs w2 evs' :
    attempts w w1 → attempt w1 evs = (Done (), w2, evs') → attempts w w2
| attempts_failed w1 evs e w2 evs' :
    attempts w w1 → attempt w1 evs = (Failed e, w2, evs') → attempts w w2
| attempts_crashed w1 evs w2 evs' q :
    attempts w w1 → attempt w1 evs = (Crashed, w2, evs') → fresh_process q w2 →
    attempts w (reboot q w2).

(** ** What must not change *)

Record confined (s : Start) (d : Data) : Prop := {
  cf_holds : holds d = holds (s_data s);
  cf_trees path : path ≠ worktree_path r → trees d !! path = trees (s_data s) !! path;
  cf_journals name : name ≠ journal_name digest r → journals d !! name = journals (s_data s) !! name;
  cf_repos path : path ≠ gpath → repos d !! path = repos (s_data s) !! path;
  cf_records : ∃ rs rs', read_records state_dir (state (s_data s)) = Ok rs ∧
    read_records state_dir (state d) = Ok rs' ∧
    ∀ dst, dst ≠ mount_dst r → record_of rs' dst = record_of rs dst;
  cf_registrations name : name ≠ s_name s →
    lookup_dir (Place.Standard gpath name) d = lookup_dir (Place.Standard gpath name) (s_data s);
  cf_head : ∃ g, repos d !! gpath = Some g ∧ g_head g = g_head (s_git s) ∧
    ∀ name, name ≠ ref →
      resolve (s_oid_len s) (g_refs g) name = resolve (s_oid_len s) (g_refs (s_git s)) name
}.

(** ** What must go *)

Record gone (s : Start) (d : Data) : Prop := {
  gn_tree : trees d !! worktree_path r = None;
  gn_registration : lookup_dir (Place.Standard gpath (s_name s)) d = None;
  gn_quarantine name : lookup_dir (Place.Quarantined gpath name) d
    = lookup_dir (Place.Quarantined gpath name) (s_data s);
  gn_branch : ∀ g, repos d !! gpath = Some g →
    resolve (s_oid_len s) (g_refs g) ref = None ∧ loose (g_refs g) !! ref = None ∧
    reflogs (g_refs g) !! ref = None;
  gn_journal : journals d !! journal_name digest r = None
}.
Definition has_record (d : Data) : Prop := read_record state_dir (state d) (mount_dst r) = Ok (Some r).
Definition no_record (d : Data) : Prop := read_record state_dir (state d) (mount_dst r) = Ok None.

(** ** From the invariant *)

Section facts.
Context (s : Start).
Context `{!ForEachRef (s_oid_len s) for_each_ref}.
Hypothesis Hready : ready canonicalize digest state_dir r s.

Notation build := (build digest r s).
Notation inv := (inv canonicalize state_dir r s).

Lemma start_is_built p :
  (∀ n, quarantine_dirs (s_git s) !! quarantine_name p n = None) →
  ∃ v, build v = s_data s ∧ inv v.
Proof.
  intros Hfree.
  set (v := mk_view (state (s_data s)) None (s_tree s) (Some (s_reg s)) (f_id <$> g_quarantine (s_git s))
    (quarantine_name p 0) None (g_refs (s_git s))).
  exists v. split.
  - assert (build_git s v = s_git s) as Hg.
    { unfold build_git. cbn. pose proof (rd_worktrees _ _ _ _ _ Hready) as Hw.
      pose proof (Hfree 0%N) as Hq. unfold quarantine_dirs in *.
      destruct (s_git s) as [id cd h rf ofm wt q rfs]. cbn in *. subst wt. f_equal.
      - do 2 f_equal. apply partial_alter_id. by rewrite (rd_own _ _ _ _ _ Hready).
      - destruct q as [[fid dirs]|]; [|done]. cbn in *. do 2 f_equal. by apply partial_alter_id. }
    unfold CleanupInvariant.build. rewrite Hg. cbn.
    pose proof (rd_tree _ _ _ _ _ Hready) as Ht. pose proof (rd_journal _ _ _ _ _ Hready) as Hj.
    pose proof (rd_repo _ _ _ _ _ Hready) as Hr. destruct (s_data s) as [st hs js ts rs]. cbn in *. f_equal.
    + by apply partial_alter_id.
    + by apply partial_alter_id.
    + by apply insert_id.
  - apply inv_untouched. split; try done; cbn; [|by right]. split; [apply Hfree|apply quarantine_name_ok].
Qed.

Lemma inv_confined v : inv v → confined s (build v).
Proof.
  intros Hi. destruct (state_removed _ _ _ _ _ Hready) as (st & rs & rs' & Hrs & Hw & Hrs' & _ & Hl).
  destruct (inv_refs _ _ _ _ _ Hi) as (i & _ & Hrefs). split.
  - done.
  - intros path Hne. by apply lookup_partial_alter_ne.
  - intros name Hne. by apply lookup_partial_alter_ne.
  - intros path Hne. by apply lookup_insert_ne.
  - exists rs. cbn. assert (v_state v = state (s_data s) ∨ state_without state_dir r s (v_state v)) as [E|E].
    { destruct Hi as [H|ph H|H Hst|H Hst]; auto; left; apply H. }
    + exists rs. by rewrite E.
    + exists rs'. assert (v_state v = st) as -> by (unfold state_without in *; congruence).
      split_and!; [done..|]. intros dst Hne. by rewrite Hl, bool_decide_eq_false_2.
  - intros name Hne. rewrite dir_std, decide_False by done. cbn. rewrite (rd_repo _ _ _ _ _ Hready). cbn.
    by rewrite (rd_worktrees _ _ _ _ _ Hready).
  - exists (build_git s v). cbn. rewrite lookup_insert_eq. split_and!; [done..|]. intros name Hne.
    rewrite Hrefs. apply resolve_erased_other; [apply (rd_refs _ _ _ _ _ Hready)|done].
Qed.

Lemma emptied_gone v : emptied r s v → gone s (build v).
Proof.
  intros [Hj [Hq _] Hqi Hqd Ht Hr Hs]. split.
  - by rewrite <-Ht, <-(dir_tree digest r s v).
  - by rewrite dir_std, decide_True.
  - intros name. cbn. rewrite lookup_insert_eq, (rd_repo _ _ _ _ _ Hready). cbn. rewrite Hqd.
    unfold quarantine_dirs in *. destruct Hqi as [Hn|Hn].
    + rewrite Hn in *. cbn. destruct (v_qid v); [|done]. cbn. rewrite lookup_partial_alter.
      by destruct (decide _).
    + rewrite Hn. destruct (g_quarantine (s_git s)) as [f|]; [|done]. cbn. rewrite lookup_partial_alter.
      destruct (decide _) as [<-|]; [by rewrite Hq|done].
  - intros g. cbn. rewrite lookup_insert_eq. intros [= <-]. cbn. rewrite Hr.
    pose proof (rd_refs _ _ _ _ _ Hready) as Hw. split_and!.
    + apply resolve_erased_gone; [done|lia].
    + cbn. apply lookup_delete_eq.
    + cbn. apply lookup_delete_eq.
  - by rewrite journal_lookup, Hj.
Qed.

Lemma inv_keeps_record v : inv v → has_record (build v) ∨ no_record (build v) ∧ gone s (build v).
Proof.
  intros Hi. destruct (state_removed _ _ _ _ _ Hready) as (st & rs & rs' & Hrs & Hw & Hrs' & _ & Hl).
  unfold has_record, no_record, read_record.
  assert (v_state v = state (s_data s) ∨ emptied r s v ∧ state_without state_dir r s (v_state v)) as [E|[He E]].
  { destruct Hi as [H|ph H|H Hst|H Hst]; auto; left; apply H. }
  - left. cbn. rewrite E, Hrs. cbn. destruct (rd_record _ _ _ _ _ Hready) as (rs0 & Hrs0 & Hown & _).
    assert (rs0 = rs) as -> by congruence. f_equal. exact Hown.
  - right. split; [|by apply emptied_gone]. cbn.
    assert (v_state v = st) as -> by (unfold state_without in *; congruence). rewrite Hrs'. cbn. f_equal.
    specialize (Hl (mount_dst r)). by rewrite bool_decide_eq_true_2 in Hl.
Qed.

Lemma inv_qid v : inv v → qid_ok s (v_qid v).
Proof. intros [H|ph H|H _|H _]; apply H. Qed.

Lemma free_names v q :
  inv v → (∀ n, lookup_dir (Place.Quarantined gpath (quarantine_name q n)) (build v) = None) →
  ∀ n, quarantine_dirs (s_git s) !! quarantine_name q n = None.
Proof.
  intros Hi Hf n. specialize (Hf n). cbn in Hf. rewrite lookup_insert_eq in Hf. cbn in Hf.
  destruct (v_qid v) as [qid|] eqn:Eq.
  - cbn in Hf. rewrite lookup_partial_alter in Hf. destruct (decide _) as [E|]; [|done].
    rewrite <-E. apply (inv_qname _ _ _ _ _ Hi).
  - unfold quarantine_dirs. by rewrite (qid_none s v (inv_qid _ Hi) Eq).
Qed.

(** Where an attempt starts: the data of the invariant, and an idle process. *)
Definition between (w : World) : Prop :=
  ∃ v p, data w = build v ∧ inv v ∧ K_idle p (locks w) ∧
    ∀ n, quarantine_dirs (s_git s) !! quarantine_name p n = None.

Lemma attempt_from w evs :
  between w →
  match attempt w evs with
  | (Done _, w', evs') => between w' ∧ confined s (data w') ∧ gone s (data w') ∧ no_record (data w')
  | (Failed _, w', _) => between w' ∧ ¬ calm evs
  | (Crashed, w', _) => ¬ calm evs ∧ ∀ q, fresh_process q w' → between (reboot q w')
  end.
Proof.
  intros (v & p & Hd & Hi & Hk & Hf). destruct w as [d k]. cbn in *. subst d.
  pose proof (wp_force_cleanup canonicalize digest for_each_ref state_dir r s p Hready Hf
    (λ _ w, ∃ v k, w = mk_world (build v) k ∧ emptied r s v ∧ state_without state_dir r s (v_state v) ∧
      K_idle p k) v k Hi Hk ltac:(by intros v1 k1 ???; exists v1, k1) evs) as H.
  destruct (attempt _ _) as [[[a|e|] w'] evs'].
  - destruct H as [(v' & k' & -> & He & Hst & Hk') _]. cbn.
    assert (inv v') as Hi' by by apply inv_final. split_and!; [by exists v', p|by apply inv_confined|
      by apply emptied_gone|].
    destruct (state_removed _ _ _ _ _ Hready) as (st & rs & rs' & Hrs & Hw & Hrs' & _ & Hl).
    assert (v_state v' = st) as E by (unfold state_without in *; congruence).
    unfold no_record, read_record. cbn. rewrite E, Hrs'. cbn. f_equal. specialize (Hl (mount_dst r)).
    by rewrite bool_decide_eq_true_2 in Hl.
  - destruct H as [(v' & k' & -> & Hi' & Hk') Hc]. split; [by exists v', p|done].
  - destruct H as [(v' & k' & -> & Hi' & Hk') Hc]. split; [done|]. intros q [Hq1 Hq2]. exists v', q.
    split_and!; [done|done|by eapply (reboot_idle p q true)|by eapply free_names].
Qed.

Lemma attempts_between w w' : between w → attempts w w' → between w'.
Proof.
  intros Hb Ha. induction Ha as [|w1 evs w2 evs' _ IH E|w1 evs e w2 evs' _ IH E|w1 evs w2 evs' q _ IH E Hq];
    [done|..]; pose proof (attempt_from w1 evs IH) as H; rewrite E in H; try apply H; done.
Qed.

(** A world in which the removal of the record is due: no other process is at
    work, and the repository is as [s] says. *)
Definition due (p : N) (w : World) : Prop :=
  data w = s_data s ∧ K_idle p (locks w) ∧
  ∀ n, lookup_dir (Place.Quarantined gpath (quarantine_name p n)) (data w) = None.

Lemma due_between p w : due p w → between w.
Proof.
  intros (Hd & Hk & Hn). rewrite Hd in Hn. cbn in Hn. rewrite (rd_repo _ _ _ _ _ Hready) in Hn. cbn in Hn.
  assert (∀ n, quarantine_dirs (s_git s) !! quarantine_name p n = None) as Hf.
  { intros n. specialize (Hn n). unfold quarantine_dirs. by destruct (g_quarantine (s_git s)). }
  destruct (start_is_built p Hf) as (v & Hv & Hi). exists v, p. by rewrite Hv.
Qed.

(** C3: a removal that failed or crashed any number of times, at any calls, is
    finished by the next attempt that nothing disturbs: that attempt succeeds, the
    work tree, its registration, the quarantined copy, the scratch branch with its
    reflog, the journal and at last the record are gone, and nothing else has
    changed.  The first attempt starts from a repository in order ([ready]): the record is
    that of a work tree, is not on hold and is the only one of its mount, its path and
    branch are those of its container; the repository keeps its refs in files,
    well-formed ones, has another branch checked out, and its registrations are
    distinct and whole, this one naming the work tree and the others something else; no
    journal and no other process is there. *)
Theorem removal_recovers p w w' :
  due p w → attempts w w' →
  ∃ w'' evs, attempt w' [] = (Done (), w'', evs) ∧
    gone s (data w'') ∧ no_record (data w'') ∧ confined s (data w'').
Proof.
  intros Hdue Ha. pose proof (attempts_between _ _ (due_between _ _ Hdue) Ha) as Hb.
  pose proof (attempt_from w' [] Hb) as H. assert (calm []) as Hc by constructor.
  destruct (attempt w' []) as [[[[]|e|] w''] evs]; [|tauto|tauto]. exists w'', evs. tauto.
Qed.

(** C4: whatever calls of however many attempts fail or are the last of their
    process, the other work trees, journals, repositories, registrations, branches
    and records are as before, and the record of the removal stays until everything
    else it names is gone.  The first attempt starts from a repository in order, as in
    [removal_recovers]. *)
Theorem removal_is_confined p w w' :
  due p w → attempts w w' →
  confined s (data w') ∧ (has_record (data w') ∨ no_record (data w') ∧ gone s (data w')).
Proof.
  intros Hdue Ha. destruct (attempts_between _ _ (due_between _ _ Hdue) Ha) as (v & q & -> & Hi & _).
  split; [by apply inv_confined|by apply inv_keeps_record].
Qed.
End facts.

(** work under a preservation hold is not removed: the attempt does not
    succeed and changes nothing, whatever fails. *)
Theorem held_work_stays w evs e :
  check_removal (holds (data w)) (worktree_path r) = Err e → txn (locks w) = None →
  ∃ out evs', attempt w evs = (out, w, evs') ∧ out ≠ Done ().
Proof.
  intros He Ht. unfold force_cleanup_isolated, cleanup_body, look, call, mbind, io_bind at 1.
  destruct (next_fault evs) as [f evs'].
  destruct f as [|[]|[]|g []]; cbn; rewrite ?He; cbn; unfold drop_txn, io_bind; rewrite ?Ht; cbn; eauto.
Qed.
End recovery.
