(* ===== verification/CleanupDemo.v ===== *)
(** * An interrupted removal, run

    A repository with a branch of its own, two work trees, and a container whose
    isolated work tree is one of them.  The removal crashes in the middle of
    deleting the registration, and the next process finishes it. *)

From stdpp Require Import base list gmap strings pretty.
From Stdlib Require Import ZArith Lia Bool.
From S2P Require Import Prelude OrderedMap Paths Config Isolation IsolationProofs RefTransaction CleanupWorld Cleanup CleanupLogic GitRefs CleanupInvariant CleanupRecovery.

Module CleanupDemo.
Definition oid_a : string := "aaaaaaaaaaaaaaaaaaaaaaaaaaaaaaaaaaaaaaaa".
Definition oid_b : string := "bbbbbbbbbbbbbbbbbbbbbbbbbbbbbbbbbbbbbbbb".

Definition dir : string := "/data/jk-ab12-app".
Definition tree_path : string := "/data/jk-ab12-app/git/worktree/repo/work/jk-ab12-app".
Definition scratch : string := "jackin/scratch/jk-ab12-app".
Definition record : IsolationRecord :=
  mk_record (Some "app") "/work" "/src/app" MountIsolation.Worktree tree_path scratch oid_a "dev"
    "jk-ab12-app" CleanupStatus.Active.
Definition other_record : IsolationRecord :=
  mk_record (Some "app") "/other" "/src/app" MountIsolation.Clone "/data/jk-ab12-app/c" scratch oid_a "dev"
    "jk-ab12-app" CleanupStatus.Active.

(** The scratch branch is packed and has moved since. *)
Definition refs : Refs :=
  mk_refs {[ "refs/heads/main" := as_bytes (oid_a +:+ lf); "refs/heads/" +:+ scratch := as_bytes (oid_b +:+ lf) ]}
    (Some (as_bytes (oid_a +:+ " refs/heads/" +:+ scratch +:+ lf +:+ oid_a +:+ " refs/heads/old" +:+ lf)))
    {[ "refs/heads/" +:+ scratch := as_bytes oid_b ]}.

Definition registration : DirNode :=
  mk_dir (1, 20) {[ "HEAD" := "ref: refs/heads/" +:+ scratch +:+ lf;
                    "gitdir" := tree_path +:+ "/.git" +:+ lf; "commondir" := "../.." +:+ lf ]}.
Definition sibling : DirNode :=
  mk_dir (1, 21) {[ "HEAD" := "ref: refs/heads/old" +:+ lf; "gitdir" := "/home/me/old/.git" +:+ lf ]}.
Definition tree : DirNode :=
  mk_dir (1, 30) {[ ".git" := "gitdir: /src/app/.git/worktrees/app" +:+ lf; "main.rs" := "fn main() {}" ]}.
Definition dirs : gmap string DirNode := {[ "app" := registration; "old" := sibling ]}.
Definition git : GitDir :=
  mk_git_dir (1, 10) None (Some ("ref: refs/heads/main" +:+ lf)) ("files" +:+ lf) ("sha1" +:+ lf)
    (Some (mk_folder (1, 11) dirs)) None refs.
Definition start_data : Data :=
  mk_data (mk_state_dir (Some (Current [other_record; record])) None) None ∅ {[ tree_path := tree ]}
    {[ "/src/app/.git" := git ]}.
Definition world : World := mk_world start_data (mk_locks 7 0 0 100 ∅ ∅ None).

Definition start : Start :=
  mk_start start_data git (1, 11) dirs "app" registration (Some tree) tree_path 40.

Lemma refs_wf : wf_refs 40 refs.
Proof.
  split.
  - apply (map_Forall_insert_2 (λ name c, plain_name name ∧ blen c ≤ MAX_METADATA ∧ ∃ o, loose_oid c = Ok o ∧ length o = 40%nat));
      [|apply map_Forall_singleton].
    + split_and!; [by repeat constructor|by vm_compute|]. by eexists.
    + split_and!; [by repeat constructor|by vm_compute|]. by eexists.
  - intros name. by vm_compute.
  - intros c [= <-]. by vm_compute.
  - apply (map_Forall_singleton (λ _ c, blen c ≤ MAX_METADATA)). by vm_compute.
Qed.

Lemma short_le (x : string) : str_len x ≤ 65536 → short (Some x).
Proof. by intros H y [= <-]. Qed.

Lemma dirs_cases name n :
  dirs !! name = Some n → name = "app" ∧ n = registration ∨ name = "old" ∧ n = sibling.
Proof.
  unfold dirs. intros [[<- <-]|[_ [<- <-]%lookup_singleton_Some]]%lookup_insert_Some; auto.
Qed.

Lemma start_ready : ready id id dir record start.
Proof.
  split.
  23, 21, 16, 15, 12, 10, 9, 8, 7, 6, 5, 4, 3, 2, 1: by vm_compute.
  - eexists. split_and!; [done|by apply short_le|done|done].
  - by left.
  - exact refs_wf.
  - eexists _, _, _. split_and!; try done; by apply short_le.
  - intros name [n [[-> _]|[-> _]]%dirs_cases]; done.
  - intros name n [[-> _]|[_ ->]]%dirs_cases Hne; [done|]. eexists _, _. split_and!; try done; by apply short_le.
  - intros name name' n n' [[-> ->]|[-> ->]]%dirs_cases [[-> ->]|[-> ->]]%dirs_cases E; done.
  - intros t [= <-]. eexists. split_and!; [done|by apply short_le|done].
  - eexists. split_and!; [done|done|]. by repeat constructor; set_solver.
Qed.

Notation attempt := (force_cleanup_isolated id id (listed_refs 40) dir record).

Lemma world_due : due record start 7 world.
Proof. split_and!; try done. Qed.

(** The process dies with one file of the quarantined registration removed. *)
Definition faults : list fault := replicate 153 Go ++ [Midway ["HEAD"] true].
Definition crashed : World := (attempt world faults).1.2.
Definition phase_at (w : World) : option CleanupPhase.t :=
  match journals (data w) !! journal_name id record with
  | Some (Journal j) => Some (j_phase j)
  | _ => None
  end.
Definition quarantined (w : World) : gmap string DirNode :=
  match repos (data w) !! git_path record with Some g => quarantine_dirs g | None => ∅ end.

Lemma quarantined_dir w name :
  lookup_dir (Place.Quarantined (git_path record) name) (data w) = quarantined w !! name.
Proof.
  unfold quarantined, quarantine_dirs. cbn. destruct (repos (data w) !! _) as [g|]; [|done]. cbn.
  by destruct (g_quarantine g).
Qed.

Lemma no_key {A} (m : gmap string A) pre x :
  forallb (λ kv, negb (starts_with pre kv.1)) (map_to_list m) = true →
  m !! (pre +:+ x) = None.
Proof.
  intros H. destruct (m !! (pre +:+ x)) as [y|] eqn:E; [|done]. apply elem_of_map_to_list, list_elem_of_In in E.
  rewrite forallb_forall in H. specialize (H _ E). cbn [fst] in H.
  rewrite (proj2 (starts_with_iff _ _)) in H; [done|eauto].
Qed.

Lemma crashed_fresh : fresh_process record 8 crashed.
Proof.
  split; intros n.
  - apply (no_key _ "jackin-ref-recovery-8-" (pretty n)). by vm_compute.
  - rewrite quarantined_dir. apply (no_key _ "q-8-" (pretty n)). by vm_compute.
Qed.

Lemma world_crashes : attempts id id (listed_refs 40) dir record world (reboot 8 crashed).
Proof.
  assert ((attempt world faults).1.1 = Crashed) as E by by vm_compute.
  eapply (attempts_crashed _ _ _ _ _ _ _ faults _ (attempt world faults).2); [apply attempts_none| |apply crashed_fresh].
  unfold crashed. rewrite <-E. by destruct (attempt world faults) as [[] ].
Qed.
End CleanupDemo.

Import CleanupDemo.

Lemma removal_recovers_witness :
  due record start 7 world ∧ attempts id id (listed_refs 40) dir record world (reboot 8 crashed) ∧
  phase_at crashed = Some CleanupPhase.RemovingRegistration ∧
  (λ n, length (map_to_list (d_files n))) <$> quarantined crashed !! "q-7-0" = Some 2%nat ∧
  ∃ w evs, attempt (reboot 8 crashed) [] = (Done (), w, evs) ∧
    gone id record start (data w) ∧ no_record dir record (data w) ∧ confined id dir record start (data w).
Proof.
  pose proof world_crashes as Ha.
  split_and!; [exact world_due|exact Ha|by vm_compute|by vm_compute|].
  exact (removal_recovers id id (listed_refs 40) dir record start start_ready 7 _ _ world_due Ha).
Defined.

Lemma removal_is_confined_witness :
  attempts id id (listed_refs 40) dir record world (reboot 8 crashed) ∧
  trees (data (reboot 8 crashed)) !! tree_path = None ∧
  confined id dir record start (data (reboot 8 crashed)) ∧
  (has_record dir record (data (reboot 8 crashed)) ∨
   no_record dir record (data (reboot 8 crashed)) ∧ gone id record start (data (reboot 8 crashed))).
Proof.
  pose proof world_crashes as Ha.
  split_and!; [exact Ha|by vm_compute|..];
    apply (removal_is_confined id id (listed_refs 40) dir record start start_ready 7 _ _ world_due Ha).
Defined.

Lemma held_work_stays_witness :
  let w := mk_world (mk_data (state start_data) (Some (Holds HOLDS_VERSION [mk_hold tree_path "review" None]))
                       ∅ (trees start_data) (repos start_data)) (locks world) in
  ∃ out evs', attempt w [] = (out, w, evs') ∧ out ≠ Done ().
Proof. intros w. eapply (held_work_stays id id (listed_refs 40) dir record w []); reflexivity. Defined.
