(* ===== verification/CleanupFrame.v ===== *)
(** * What a removal can touch at all

    Without any assumption on the repository: whatever it finds and whatever fails,
    a removal changes no directory of the container but the work tree of its own
    record, never makes one appear, and when it reports success that work tree is
    gone. *)

From stdpp Require Import base list gmap strings pretty.
From Stdlib Require Import ZArith Lia Bool.
From S2P Require Import Prelude OrderedMap Paths Config Isolation RefTransaction CleanupWorld Cleanup CleanupLogic.

(** ** Properties of the data that hold through a program *)

Section framed.
Context (F : Data → Prop).

Definition framed {A} (m : IO A) (Φ : A → Prop) : Prop :=
  ∀ w evs, F (data w) →
    match m w evs with
    | (Done a, w', _) => F (data w') ∧ Φ a
    | (_, w', _) => F (data w')
    end.
Notation any := (λ _, True).

Lemma framed_weak {A} (m : IO A) Φ : framed m Φ → framed m any.
Proof. intros H w evs HF. specialize (H w evs HF). destruct (m w evs) as [[[]]]; naive_solver. Qed.
Lemma framed_any {A} (m : IO A) : framed m any → framed m any.
Proof. done. Qed.
Lemma framed_ret {A} (a : A) (Φ : A → Prop) : Φ a → framed (mret a) Φ.
Proof. by intros HΦ w evs HF. Qed.
Lemma framed_bind {A B} (m : IO A) (f : A → IO B) Φ Ψ :
  framed m Φ → (∀ a, Φ a → framed (f a) Ψ) → framed (m ≫= f) Ψ.
Proof.
  intros Hm Hf w evs HF. unfold mbind, io_bind. specialize (Hm w evs HF).
  destruct (m w evs) as [[[a|e|] w'] evs']; [|done..]. destruct Hm as [HF' Ha]. by apply Hf.
Qed.
Lemma framed_lift {A} (r : res A) : framed (lift r) (λ a, r = Ok a).
Proof. intros w evs HF. by destruct r. Qed.
Lemma framed_bail {A} fmt (Φ : A → Prop) : framed (lift (bail fmt)) Φ.
Proof. by intros w evs HF. Qed.

Lemma framed_call {A} (f : World → res (A * World)) (Φ : A → Prop) :
  (∀ w a w', F (data w) → f w = Ok (a, w') → F (data w') ∧ Φ a) → framed (call f) Φ.
Proof.
  intros H w evs HF. unfold call. destruct (next_fault evs) as [e evs'].
  destruct e as [|[]|[]|g []]; cbn; try done; destruct (f w) as [[a w']| |] eqn:E; try done;
    by apply (H _ _ _ HF) in E as [].
Qed.
Lemma framed_syscall {A} (f : World → res (A * World)) (Φ : A → Prop) :
  (∀ w a w', F (data w) → f w = Ok (a, w') → F (data w') ∧ Φ a) → framed (syscall f) Φ.
Proof.
  intros H w evs HF. unfold syscall. destruct evs as [|e evs]; by apply framed_call.
Qed.
Lemma framed_look {A} (f : Data → res A) (Φ : A → Prop) :
  (∀ d a, F d → f d = Ok a → Φ a) → framed (look f) Φ.
Proof.
  intros H. apply framed_call. intros w a w' HF E. destruct (f (data w)) as [a'| |] eqn:Ea; [|done..].
  cbn in E. injection E as <- <-. split; [done|]. by eapply H.
Qed.
Lemma framed_look_any {A} (f : Data → res A) : framed (look f) any.
Proof. by apply framed_look. Qed.
Lemma framed_change (f : Data → res Data) :
  (∀ d d', F d → f d = Ok d' → F d') → framed (change f) any.
Proof.
  intros H. apply framed_call. intros w a w' HF E. destruct (f (data w)) as [d'| |] eqn:Ed; [|done..].
  cbn in E. injection E as <- <-. split; [|done]. by eapply H.
Qed.

(** Calls on the lock files. *)
Lemma framed_on_locks {A} (f : Locks → res (A * Locks)) w a w' :
  F (data w) → on_locks f w = Ok (a, w') → F (data w') ∧ True.
Proof.
  intros HF E. unfold on_locks in E. destruct (f (locks w)) as [[a' k]| |]; [|done..].
  by injection E as <- <-.
Qed.
Lemma framed_look_locks {A} (f : Locks → res A) : framed (look_locks f) any.
Proof.
  apply framed_call. intros w a w' HF E. destruct (f (locks w)); [|done..]. by injection E as <- <-.
Qed.
Lemma framed_change_locks {A} (f : Locks → res (A * Locks)) : framed (change_locks f) any.
Proof. apply framed_call. intros w a w'. apply framed_on_locks. Qed.
Lemma framed_syscall_locks {A} (f : Locks → res (A * Locks)) : framed (syscall (on_locks f)) any.
Proof. apply framed_syscall. intros w a w'. apply framed_on_locks. Qed.
Lemma framed_remember f : framed (remember f) any.
Proof. by intros w evs HF. Qed.
Lemma framed_preserve m : framed m any → framed (preserve_on_failure m) any.
Proof.
  intros H w evs HF. unfold preserve_on_failure. specialize (H w evs HF). by destruct (m w evs) as [[[]]].
Qed.
Lemma framed_swallow m : framed m any → framed (swallow m) any.
Proof.
  intros H w evs HF. unfold swallow. specialize (H w evs HF). destruct (m w evs) as [[[]]]; naive_solver.
Qed.
End framed.
Notation any := (λ _, True).

Create HintDb framed.
#[export] Hint Resolve framed_lift framed_bail framed_look_any framed_look_locks framed_change_locks
  framed_syscall_locks framed_remember : framed.

(** Take a program apart; what is left is what the database does not know. *)
Ltac frame :=
  lazymatch goal with
  | |- framed _ (mbind _ _) _ => eapply framed_bind; [solve [frame]|intros ? ?; frame]
  | |- framed _ (let _ := _ in _) _ => cbv zeta; frame
  | |- framed _ (match ?x with _ => _ end) ?Φ => try (is_evar Φ; apply framed_any); destruct x; frame
  | |- framed _ (mret _) ?Φ => first [is_evar Φ; apply (framed_ret _ _ (λ _, True)); exact I
                                    | apply framed_ret; cbn; eauto with framed]
  | |- framed _ (preserve_on_failure _) _ => apply framed_preserve; frame
  | |- framed _ (swallow _) _ => apply framed_swallow; frame
  | |- framed _ _ _ =>
      first [solve [eauto 3 with framed]
            |solve [eapply framed_weak; eauto 3 with framed]]
  end.

Section locks_framed.
Context (F : Data → Prop).

Lemma framed_begin : framed F begin any.
Proof. unfold begin. frame. Qed.
Lemma framed_acquire place : framed F (acquire place) any.
Proof.
  unfold acquire, create_lock_candidate, reclaim_abandoned_lock, link_lock, sync, push_lock. frame.
Qed.
Lemma framed_lock_registration id : framed F (lock_registration id) any.
Proof. unfold lock_registration, reclaim_abandoned_lock. pose proof framed_acquire. frame. Qed.
Lemma framed_release l : framed F (release l) any.
Proof. unfold release, take_lock, cleanup_lock. frame. Qed.
Lemma framed_release_all ls : framed F (release_all ls) any.
Proof. pose proof framed_release. induction ls as [|l ls IH]; cbn [release_all]; frame. Qed.
Lemma framed_release_registration id : framed F (release_registration id) any.
Proof. unfold release_registration. pose proof framed_release_all. frame. Qed.
Lemma framed_drop_recovery : framed F drop_recovery any.
Proof.
  intros w evs. unfold drop_recovery. destruct (txn (locks w)) as [t|]; [|done].
  revert evs. enough (framed F (if t_preserve t then remember end_lease
     else _ ← swallow (change_locks (λ k, Ok ((), set_recoveries (delete (t_recovery t) (recoveries k)) k)));
          remember end_lease) any) as H by exact (H w).
  frame.
Qed.
Lemma framed_finish : framed F finish any.
Proof. unfold finish. pose proof framed_release_all. pose proof framed_drop_recovery. frame. Qed.
Lemma framed_drop_txn : framed F drop_txn any.
Proof.
  intros w evs. unfold drop_txn. destruct (txn (locks w)) as [t|]; [|done]. revert evs.
  enough (framed F (_ ← drop_locks (t_locks t); drop_recovery) any) as H by exact (H w).
  pose proof framed_release. pose proof framed_drop_recovery.
  assert (framed F (drop_locks (t_locks t)) any); [|frame].
  generalize (t_locks t) as ls. induction ls as [|l ls IH]; cbn [drop_locks]; frame.
Qed.
End locks_framed.
#[export] Hint Resolve framed_begin framed_acquire framed_lock_registration framed_release_registration
  framed_finish framed_drop_txn : framed.

(** ** The removal *)

Section cleanup_framed.
Context (canonicalize digest : string → string) (for_each_ref : Refs → string) (state_dir : string).
Context (r : IsolationRecord) (F : Data → Prop).

(** The changes a removal makes. *)
Record stable : Prop := {
  st_state st d : F d → F (set_state st d);
  st_journals js d : F d → F (set_journals js d);
  st_repos rs d : F d → F (set_repos rs d);
  st_tree n d : F d → is_Some (trees d !! worktree_path r) →
    F (set_trees (partial_alter (λ _, n) (worktree_path r) (trees d)) d)
}.
Hypothesis Hst : stable.

(** A directory of the repository, or the work tree of the record. *)
Definition own_place (pl : Place.t) : Prop :=
  match pl with Place.Tree path => path = worktree_path r | _ => True end.
Definition own_opt (o : option PinnedDir) : Prop := ∀ q, o = Some q → own_place (p_place q).

Lemma own_set_dir pl n d : F d → own_place pl → is_Some (lookup_dir pl d) → F (set_dir pl n d).
Proof.
  intros HF Hp Hl. destruct pl as [path|repo name|repo name]; cbn in *.
  - subst path. by apply (st_tree Hst).
  - by apply (st_repos Hst).
  - by apply (st_repos Hst).
Qed.

Lemma pinned_some q d n : pinned_node q d = Ok n → is_Some (lookup_dir (p_place q) d).
Proof. unfold pinned_node. destruct (lookup_dir _ d); [eauto|done]. Qed.

Lemma framed_remove q : own_place (p_place q) → framed F (remove q) any.
Proof.
  intros Hq w evs HF. unfold remove. destruct (pinned_node q (data w)) as [n| |] eqn:En; [|done..].
  apply pinned_some in En. destruct (next_fault evs) as [e evs'].
  destruct e as [|[]|[]|g []]; cbn; try done; (split; [|done]) || idtac; by apply own_set_dir.
Qed.

Lemma framed_rename q dest :
  own_place (p_place q) → (match dest with Place.Tree _ => False | _ => True end) →
  framed F (rename_into q dest) (λ q', own_place (p_place q')).
Proof.
  intros Hq Hd. unfold rename_into. eapply framed_bind.
  - apply framed_change. intros d d' HF E. destruct (pinned_node q d) as [n| |] eqn:En; [|done..].
    cbn in E. destruct (bool_decide _); [|done]. injection E as <-. apply pinned_some in En.
    assert (F (set_dir (p_place q) None d)) by by apply own_set_dir.
    destruct dest; [done|by apply (st_repos Hst)..].
  - intros [] _. apply framed_ret. by destruct dest.
Qed.

Lemma framed_pin pl : own_place pl → framed F (pin pl) own_opt.
Proof.
  intros Hp. apply framed_look. intros d a _ [= <-] q. by destruct (lookup_dir pl d); intros [= <-].
Qed.
Lemma framed_open_child pl name : own_place pl → framed F (open_child pl name) own_opt.
Proof. intros Hp. unfold open_child. pose proof (framed_pin _ Hp). frame. Qed.
Lemma own_opt_none : own_opt None.
Proof. by intros q. Qed.
Lemma own_opt_some q : own_place (p_place q) → own_opt (Some q).
Proof. by intros H q' [= <-]. Qed.
Hint Resolve own_opt_none own_opt_some : framed.

Lemma framed_open_exact_child pl name id : own_place pl → framed F (open_exact_child pl name id) own_opt.
Proof.
  intros Hp. unfold open_exact_child, verify_entry. eapply framed_bind; [by apply framed_open_child|].
  intros [dir|] Ho; frame.
Qed.
Lemma framed_pin_worktree : framed F (pin_worktree state_dir r) own_opt.
Proof. unfold pin_worktree. pose proof (framed_pin (Place.Tree (worktree_path r)) eq_refl). frame. Qed.
Hint Resolve framed_open_exact_child framed_pin_worktree framed_remove : framed.

Lemma framed_persist j : framed F (persist_journal digest r j) any.
Proof. apply framed_change. intros d d' HF [= <-]. by apply (st_journals Hst). Qed.
Lemma framed_create_journal j : framed F (create_journal digest r j) any.
Proof.
  apply framed_change. intros d d' HF E. destruct (negb _); [|done]. injection E as <-.
  by apply (st_journals Hst).
Qed.
Lemma framed_remove_journal : framed F (remove_journal digest r) any.
Proof. apply framed_change. intros d d' HF [= <-]. by apply (st_journals Hst). Qed.
Lemma framed_remove_record : framed F (remove_own_record state_dir r) any.
Proof.
  apply framed_change. intros d d' HF E. destruct (remove_record_if_matches _ _ _); [|done..].
  injection E as <-. by apply (st_state Hst).
Qed.
Lemma framed_change_refs f : framed F (change_refs r f) any.
Proof.
  apply framed_change. intros d d' HF E. destruct (repo r d); [|done..]. injection E as <-.
  by apply (st_repos Hst).
Qed.
Lemma framed_create_quarantine ino : framed F (create_quarantine r ino) any.
Proof.
  apply framed_change. intros d d' HF E. destruct (repo r d); [|done..]. injection E as <-.
  by apply (st_repos Hst).
Qed.
Hint Resolve framed_persist framed_create_journal framed_remove_journal framed_remove_record
  framed_change_refs framed_create_quarantine : framed.

(** Reads. *)
Lemma framed_look_repo {A} (f : GitDir → res A) : framed F (look_repo r f) any.
Proof. apply framed_look_any. Qed.
Lemma framed_read_file q name : framed F (read_file q name) any.
Proof. apply framed_look_any. Qed.
Lemma framed_verify_entry q : framed F (verify_entry q) any.
Proof. apply framed_look_any. Qed.
Lemma framed_need fmt o : framed F (need fmt o) any.
Proof. eapply framed_weak, framed_lift. Qed.
Hint Resolve framed_look_repo framed_read_file framed_verify_entry framed_need : framed.
Hint Unfold verify_git open_folder verify_folder entry_names scratch_tip : framed.

Lemma framed_advance j ph : framed F (advance_journal digest r j ph) any.
Proof. unfold advance_journal. frame. Qed.
Lemma framed_validate_witness q j canonical wt allow :
  framed F (validate_registration_witness q j canonical wt allow) any.
Proof. unfold validate_registration_witness. frame. Qed.
Lemma framed_validate_remaining q j : framed F (validate_remaining_registration_witness q j) any.
Proof. unfold validate_remaining_registration_witness, check_remaining. frame. Qed.
Hint Resolve framed_advance framed_validate_witness framed_validate_remaining : framed.
Lemma framed_validate_standard git_id j wt allow :
  framed F (validate_standard_target_registration r git_id j wt allow) any.
Proof.
  unfold validate_standard_target_registration, verify_git, open_folder, verify_folder.
  assert (∀ name, framed F (open_exact_child (Place.Standard (git_path r) name) name (j_registration_identity j)) own_opt).
  { intros name. by apply framed_open_exact_child. }
  frame.
Qed.
Hint Resolve framed_validate_standard : framed.

(** *** Inventories *)

Lemma framed_open_registration name :
  framed F (open_registration r name) (λ q, own_place (p_place q)).
Proof.
  unfold open_registration. eapply framed_bind; [by apply framed_open_child|].
  intros [c|] Hc; [apply framed_ret; by apply Hc|]. intros w evs HF. done.
Qed.
Lemma framed_lock_candidate q : framed F (lock_candidate q) any.
Proof. unfold lock_candidate, lock_head. frame. Qed.
Lemma framed_admit_host_head : framed F (admit_host_head r) any.
Proof. unfold admit_host_head, read_host_head. frame. Qed.
Lemma framed_admit_sibling canonical q : framed F (admit_sibling r canonical q) any.
Proof. unfold admit_sibling. frame. Qed.
Lemma framed_host_head_unchanged head : framed F (host_head_unchanged r head) any.
Proof. apply framed_look_any. Qed.
Lemma framed_names_unchanged ns : framed F (names_unchanged r ns) any.
Proof. unfold names_unchanged, entry_names. frame. Qed.
Hint Resolve framed_open_registration framed_lock_candidate framed_admit_host_head framed_admit_sibling
  framed_host_head_unchanged framed_names_unchanged : framed.

Lemma framed_lock_recovery_loop j canonical ns target :
  own_opt target → framed F (lock_recovery_loop r j canonical ns target) own_opt.
Proof.
  revert target. induction ns as [|name ns IH]; intros target Ht; cbn [lock_recovery_loop];
    [by apply framed_ret|].
  eapply framed_bind; [apply framed_open_registration|]. intros c Hc. pose proof (own_opt_some _ Hc).
  frame.
Qed.
Lemma framed_lock_recovery_inventory j canonical :
  framed F (lock_recovery_inventory r j canonical) own_opt.
Proof.
  unfold lock_recovery_inventory, lock_head, open_folder, entry_names, verify_folder, verify_locks.
  assert (∀ ns, framed F (lock_recovery_loop r j canonical ns None) own_opt).
  { intros ns. apply framed_lock_recovery_loop, own_opt_none. }
  frame.
Qed.
Lemma framed_inventory canonical target : framed F (verify_scratch_checkout_inventory r canonical target) any.
Proof.
  unfold verify_scratch_checkout_inventory, open_folder, entry_names, verify_folder.
  assert (∀ ns, framed F (inventory_loop r canonical target ns) any).
  { induction ns as [|name ns IH]; cbn [inventory_loop]; frame. }
  frame.
Qed.

(** The registration that was found. *)
Definition own_found (o : option (string * PinnedDir * RegistrationWitness)) : Prop :=
  ∀ name q w, o = Some (name, q, w) → own_place (p_place q).
Definition own_regs (regs : list (string * PinnedDir)) : Prop := Forall (λ x, own_place (p_place x.2)) regs.

Lemma framed_lock_all ns : framed F (lock_all r ns) own_regs.
Proof.
  induction ns as [|name ns IH]; cbn [lock_all]; [apply framed_ret; constructor|].
  eapply framed_bind; [apply framed_open_registration|]. intros c Hc.
  eapply framed_bind; [apply framed_lock_candidate|]. intros _ _.
  eapply framed_bind; [apply framed_verify_entry|]. intros _ _.
  eapply framed_bind; [exact IH|]. intros rest Hrest. apply framed_ret. by constructor.
Qed.
Lemma framed_find_loop canonical wt regs found :
  own_regs regs → own_found found → framed F (find_loop canonicalize r canonical wt regs found) own_found.
Proof.
  intros Hregs. revert found. induction Hregs as [|[name c] regs Hc _ IH]; intros found Hf;
    cbn [find_loop]; [by apply framed_ret|].
  assert (∀ w, own_found (Some (name, c, w))) by by intros w ??? [= <- <- <-].
  frame.
Qed.
Lemma framed_recheck_heads regs : framed F (recheck_heads regs) any.
Proof. induction regs as [|[name c] regs IH]; cbn [recheck_heads]; frame. Qed.
Hint Resolve framed_recheck_heads : framed.
Lemma framed_find_registration canonical wt :
  framed F (find_registration canonicalize r canonical wt) own_found.
Proof.
  assert (own_found None) as Hn by by intros ???.
  unfold find_registration, lock_head, open_folder, entry_names, verify_folder, verify_locks.
  eapply framed_bind; [frame|]. intros _ _. eapply framed_bind; [frame|]. intros head _.
  eapply framed_bind; [frame|]. intros [wid|] _; [|frame].
  eapply framed_bind; [frame|]. intros ns _. eapply framed_bind; [apply framed_lock_all|]. intros regs Hregs.
  eapply framed_bind; [frame|]. intros _ _. eapply framed_bind; [frame|]. intros _ _.
  eapply framed_bind; [frame|]. intros _ _.
  eapply framed_bind; [by apply framed_find_loop|]. intros [[[name c] w]|] Hf; [|frame].
  frame.
Qed.

(** *** The phases *)

Hint Resolve framed_lock_recovery_inventory framed_inventory framed_find_registration : framed.

Lemma framed_prepare tip : framed F (prepare_reference_deletion r tip) any.
Proof. unfold prepare_reference_deletion. frame. Qed.
Lemma framed_commit pr : framed F (commit r pr) any.
Proof. unfold commit, verify_locks. frame. Qed.
Lemma framed_ensure_registration_absent j : framed F (ensure_registration_absent r j) any.
Proof.
  unfold ensure_registration_absent, open_folder.
  assert (∀ pl name id, own_place pl → framed F (open_exact_child pl name id) own_opt) as H.
  { intros. by apply framed_open_exact_child. }
  pose proof (H (standard_place r j) (j_registration_name j) (j_registration_identity j) I).
  pose proof (H (quarantine_place r j) (j_quarantine_name j) (j_registration_identity j) I).
  frame.
Qed.
Lemma framed_ensure_worktree_absent : framed F (ensure_worktree_absent state_dir r) any.
Proof. unfold ensure_worktree_absent. frame. Qed.
Hint Resolve framed_prepare framed_commit framed_ensure_registration_absent
  framed_ensure_worktree_absent : framed.

Lemma framed_remove_opt wt (m : IO ()) :
  own_opt wt → framed F m any →
  framed F (match wt with Some q => _ ← m; remove q | None => mret () end) any.
Proof.
  intros Ho Hm. destruct wt as [q|]; [|frame]. pose proof (framed_remove q (Ho q eq_refl)). frame.
Qed.

Lemma framed_remove_worktree_phase git_id qid wt j :
  own_opt wt → framed F (remove_worktree_phase digest state_dir r git_id qid wt j) any.
Proof.
  intros Ho. unfold remove_worktree_phase, verify_git, verify_folder.
  pose proof (framed_remove_opt wt (look_repo r (λ g, ensure (bool_decide (g_id g = git_id)) "path changed during removal"))
    Ho ltac:(frame)).
  frame.
Qed.
Lemma framed_commit_reference git_id j deletion :
  framed F (commit_cleanup_reference digest for_each_ref r git_id j deletion) any.
Proof. unfold commit_cleanup_reference, verify_git, scratch_tip. frame. Qed.

Definition own_location (l : RegistrationLocation.t) : Prop :=
  match l with
  | RegistrationLocation.Standard q | RegistrationLocation.Quarantine q => own_place (p_place q)
  | RegistrationLocation.Missing => True
  end.

Lemma framed_remove_registration_phase git_id qid j loc :
  own_location loc → framed F (remove_registration_phase digest r git_id qid j loc) any.
Proof.
  intros Ho. unfold remove_registration_phase, verify_folder, verify_git, open_folder, verify_locks.
  eapply (framed_bind _ _ _ (λ x, own_opt x.2)).
  - destruct loc as [q|q|].
    + assert (∀ j, framed F (rename_into q (quarantine_place r j)) (λ q', own_place (p_place q'))).
      { intros j'. by apply framed_rename. }
      frame.
    + pose proof (own_opt_some _ Ho). frame.
    + apply framed_ret, own_opt_none.
  - intros [j' [q|]] Hq; cbn in Hq; [|frame]. pose proof (framed_remove q (Hq q eq_refl)). frame.
Qed.
Lemma framed_finalize git_id qid j :
  framed F (finalize_cleanup digest for_each_ref state_dir r git_id qid j) any.
Proof. unfold finalize_cleanup, ensure_no_tip, verify_git, verify_folder, scratch_tip. frame. Qed.
Lemma framed_execute git_id qid wt j loc deletion :
  own_opt wt → own_location loc →
  framed F (execute_cleanup digest for_each_ref state_dir r git_id qid wt j loc deletion) any.
Proof.
  intros Hwt Hloc. unfold execute_cleanup.
  pose proof (framed_remove_worktree_phase git_id qid wt j Hwt). pose proof framed_commit_reference.
  pose proof framed_finalize.
  assert (∀ j, framed F (remove_registration_phase digest r git_id qid j loc) any).
  { intros j'. by apply framed_remove_registration_phase. }
  frame.
Qed.

Lemma framed_start git_id canonical wt :
  own_opt wt →
  framed F (start_fresh_cleanup canonicalize digest for_each_ref state_dir r git_id canonical wt) any.
Proof.
  intros Hwt. unfold start_fresh_cleanup, verify_git, scratch_tip, ensure_no_tip, open_folder, entry_names.
  eapply framed_bind; [frame|]. intros _ _.
  eapply framed_bind; [apply framed_find_registration|]. intros [[[name c] w]|] Hf; [|frame].
  assert (∀ qid j deletion, framed F
    (execute_cleanup digest for_each_ref state_dir r git_id qid wt j (RegistrationLocation.Standard c) deletion) any).
  { intros qid j deletion. apply framed_execute; [done|]. by eapply Hf. }
  frame.
Qed.

Lemma framed_resume git_id canonical wt j :
  own_opt wt → framed F (resume_cleanup digest for_each_ref state_dir r git_id canonical wt j) any.
Proof.
  intros Hwt. unfold resume_cleanup, open_folder, verify_folder, scratch_tip.
  eapply framed_bind; [frame|]. intros _ _. eapply framed_bind; [frame|]. intros [qid|] _; [|frame].
  eapply framed_bind; [frame|]. intros _ _. eapply framed_bind; [frame|]. intros _ _.
  eapply framed_bind; [frame|]. intros _ _.
  eapply framed_bind; [apply framed_lock_recovery_inventory|]. intros standard Hs.
  eapply framed_bind; [by apply framed_open_exact_child|]. intros quarantined Hq.
  set (loc := match standard, quarantined with
              | Some dir, _ => RegistrationLocation.Standard dir
              | None, Some dir => RegistrationLocation.Quarantine dir
              | None, None => RegistrationLocation.Missing
              end).
  assert (own_location loc) as Hloc.
  { subst loc. destruct standard as [q|]; [by apply Hs|]. destruct quarantined as [q|]; [by apply Hq|done]. }
  assert (∀ deletion, framed F (execute_cleanup digest for_each_ref state_dir r git_id qid wt j loc deletion) any).
  { intros deletion. by apply framed_execute. }
  eapply framed_bind; [frame|]. intros _ _. eapply framed_bind; [destruct standard, quarantined; frame|].
  intros _ _. eapply framed_bind; [frame|]. intros _ _. frame.
Qed.

Lemma framed_clone : framed F (force_cleanup_clone state_dir r) any.
Proof.
  unfold force_cleanup_clone. eapply framed_bind; [frame|]. intros _ _.
  eapply framed_bind; [apply framed_pin_worktree|]. intros [q|] Hq; [|frame].
  pose proof (framed_remove q (Hq q eq_refl)). frame.
Qed.

Lemma framed_body : framed F (cleanup_body canonicalize digest for_each_ref state_dir r) any.
Proof.
  unfold cleanup_body, verify_git, lock_worktree_registry. pose proof framed_clone. eapply framed_bind; [frame|]. intros _ _.
  destruct (bool_decide _); [frame|].
  eapply framed_bind; [frame|]. intros _ _. eapply framed_bind; [frame|]. intros _ _.
  eapply framed_bind; [frame|]. intros _ _.
  eapply framed_bind; [apply framed_pin_worktree|]. intros wt Hwt.
  assert (∀ git_id canonical, framed F
    (start_fresh_cleanup canonicalize digest for_each_ref state_dir r git_id canonical wt) any).
  { intros. by apply framed_start. }
  assert (∀ git_id canonical j, framed F
    (resume_cleanup digest for_each_ref state_dir r git_id canonical wt j) any).
  { intros. by apply framed_resume. }
  frame.
Qed.

(** Whatever holds of the data and is not disturbed by the changes a removal makes
    holds after it, and after each of its calls. *)
Lemma framed_cleanup : framed F (force_cleanup_isolated canonicalize digest for_each_ref state_dir r) any.
Proof.
  intros w evs HF. unfold force_cleanup_isolated. pose proof (framed_body w evs HF) as H.
  destruct (cleanup_body _ _ _ _ _ _ _) as [[[[]|e|] w'] evs']; [done| |done].
  unfold mbind, io_bind. pose proof (framed_drop_txn F w' evs' H) as Hd.
  destruct (drop_txn _ _) as [[[]]]; cbn; naive_solver.
Qed.
End cleanup_framed.

(** ** A removal that reports success *)

Section removed.
Context (canonicalize digest : string → string) (for_each_ref : Refs → string) (state_dir : string).
Context (r : IsolationRecord).

Definition absent (d : Data) : Prop := trees d !! worktree_path r = None.
Lemma absent_stable : stable r absent.
Proof. split; unfold absent; try done. intros n d Ha [x Hx]. congruence. Qed.
Hint Resolve absent_stable : framed.

Definition done_absent {A} (m : IO A) : Prop :=
  ∀ w evs a w' evs', m w evs = (Done a, w', evs') → absent (data w').

Lemma done_last {A B} (m : IO A) (f : A → IO B) : (∀ a, done_absent (f a)) → done_absent (m ≫= f).
Proof.
  intros Hf w evs b w' evs'. unfold mbind, io_bind. destruct (m w evs) as [[[a|e|] w1] evs1]; [|done..].
  apply Hf.
Qed.
Lemma done_then {A B} (m : IO A) (f : A → IO B) :
  done_absent m → (∀ a, framed absent (f a) any) → done_absent (m ≫= f).
Proof.
  intros Hm Hf w evs b w' evs'. unfold mbind, io_bind. destruct (m w evs) as [[[a|e|] w1] evs1] eqn:E; [|done..].
  intros E2. apply Hm in E. specialize (Hf a w1 evs1 E). rewrite E2 in Hf. apply Hf.
Qed.
Lemma done_lift {A B} (x : res A) (f : A → IO B) :
  (∀ a, x = Ok a → done_absent (f a)) → done_absent (lift x ≫= f).
Proof. intros Hf w evs b w' evs'. unfold mbind, io_bind. destruct x; cbn; [by apply Hf|done..]. Qed.
Lemma done_bail {A} fmt : done_absent (lift (bail fmt : res A)).
Proof. by intros w evs a w' evs'. Qed.

Lemma look_done {A} (f : Data → res A) w evs a w' evs' :
  look f w evs = (Done a, w', evs') → w' = w ∧ f (data w) = Ok a.
Proof.
  unfold look, call. destruct (next_fault evs) as [e evs1].
  destruct e as [|[]|[]|g []]; cbn; try done; destruct (f (data w)) eqn:E; cbn; try done.
  by intros [= -> <- _].
Qed.

Lemma pin_worktree_done w evs wt w' evs' :
  pin_worktree state_dir r w evs = (Done wt, w', evs') →
  w' = w ∧ wt = mk_pin (Place.Tree (worktree_path r)) ∘ d_id <$> trees (data w) !! worktree_path r.
Proof.
  unfold pin_worktree, mbind, io_bind. destruct (ensure _ _); cbn; [|done..].
  intros [-> [= <-]]%look_done. done.
Qed.

Lemma done_ensure_absent : done_absent (ensure_worktree_absent state_dir r).
Proof.
  intros w evs a w' evs'. unfold ensure_worktree_absent, mbind, io_bind.
  destruct (pin_worktree _ _ _ _) as [[[wt|e|] w1] evs1] eqn:E; [|done..].
  apply pin_worktree_done in E as [-> ->]. unfold absent.
  case_bool_decide as Hn; cbn; [|done]. intros [= <- <- _]. by destruct (trees (data w) !! _).
Qed.

Lemma done_finalize git_id qid j :
  done_absent (finalize_cleanup digest for_each_ref state_dir r git_id qid j).
Proof.
  unfold finalize_cleanup. do 9 (apply done_last; intros ?). apply done_then; [apply done_ensure_absent|].
  intros _. pose proof (framed_ensure_registration_absent r absent).
  pose proof (framed_remove_journal digest r absent absent_stable).
  pose proof (framed_remove_record state_dir r absent absent_stable). frame.
Qed.
Lemma done_execute git_id qid wt j loc deletion :
  done_absent (execute_cleanup digest for_each_ref state_dir r git_id qid wt j loc deletion).
Proof. unfold execute_cleanup. do 3 (apply done_last; intros ?). apply done_finalize. Qed.

Lemma done_start git_id canonical q :
  done_absent (start_fresh_cleanup canonicalize digest for_each_ref state_dir r git_id canonical (Some q)).
Proof.
  unfold start_fresh_cleanup. apply done_last. intros _. apply done_last. intros [[[name c] w]|].
  - do 5 (apply done_last; intros ?). apply done_last. intros [qid|]; [|apply done_bail].
    do 3 (apply done_last; intros ?). apply done_execute.
  - apply done_last. intros tip. apply done_lift. intros [] E. done.
Qed.
Lemma done_resume git_id canonical wt j :
  done_absent (resume_cleanup digest for_each_ref state_dir r git_id canonical wt j).
Proof.
  unfold resume_cleanup. apply done_last. intros _. apply done_last. intros [qid|]; [|apply done_bail].
  do 12 (apply done_last; intros ?). apply done_execute.
Qed.
Lemma done_clone : done_absent (force_cleanup_clone state_dir r).
Proof.
  unfold force_cleanup_clone. do 3 (apply done_last; intros ?). apply done_then.
  - intros w evs b w' evs' [-> E]%look_done. unfold absent. by case_bool_decide.
  - intros _. by apply framed_remove_record, absent_stable.
Qed.

Lemma done_body : done_absent (cleanup_body canonicalize digest for_each_ref state_dir r).
Proof.
  unfold cleanup_body. apply done_last. intros _.
  destruct (bool_decide _); [apply done_last; intros _; apply done_clone|].
  do 3 (apply done_last; intros _). intros w evs a w' evs'. unfold mbind at 1, io_bind at 1.
  destruct (pin_worktree _ _ _ _) as [[[wt|e|] w1] evs1] eqn:E; [|done..].
  apply pin_worktree_done in E as [-> ->]. destruct (trees (data w) !! worktree_path r) as [n|] eqn:Et; cbn [fmap option_fmap option_map compose].
  - match goal with |- ?m w evs1 = _ → _ => enough (done_absent m) as H by apply H end.
    do 7 (apply done_last; intros ?). apply done_last. intros [[j|]|].
    + apply done_last. intros _. apply done_resume.
    + apply done_bail.
    + apply done_start.
  - match goal with |- ?m w evs1 = _ → _ => enough (framed absent m any) as H end.
    { intros E. specialize (H w evs1 Et). rewrite E in H. apply H. }
    pose proof (framed_start canonicalize digest for_each_ref state_dir r absent absent_stable).
    pose proof (framed_resume digest for_each_ref state_dir r absent absent_stable).
    pose proof (own_opt_none r). unfold verify_git, lock_worktree_registry, look_repo. frame.
Qed.

(** A removal that reports success has removed the work tree. *)
Lemma cleanup_removes : done_absent (force_cleanup_isolated canonicalize digest for_each_ref state_dir r).
Proof.
  intros w evs a w' evs'. unfold force_cleanup_isolated.
  destruct (cleanup_body _ _ _ _ _ _ _) as [[[[]|e|] w1] evs1] eqn:E; [..|done].
  - intros [= _ <- _]. by eapply done_body.
  - unfold mbind, io_bind. by destruct (drop_txn _ _) as [[[]]].
Qed.
End removed.
