(* ===== verification/Finalize.v ===== *)
(** * The end of a foreground session

    [jackin-isolation/src/finalize.rs]: when an agent's session ends, each isolated
    copy of its container is assessed; a clean one is removed, the others are kept,
    discarded or shown to the operator, as the policy says.  What [git] prints, what
    the container's status command prints and what the operator chooses are
    parameters. *)

From stdpp Require Import base list gmap strings pretty.
From Stdlib Require Import ZArith Lia Bool.
From S2P Require Import Prelude OrderedMap Paths Config Isolation RefTransaction CleanupWorld Cleanup.

Module AttachOutcome.
Inductive t := StillRunning | Stopped (code : Z) | OomKilled.
Definition as_label (o : t) : string :=
  match o with
  | StillRunning => "still_running"
  | Stopped code => "stopped_" +:+ pretty code
  | OomKilled => "oom_killed"
  end.
End AttachOutcome.

Module FinalizeDecision.
Inductive t := Preserved | Cleaned | ReturnToAgent.
Definition as_str (d : t) : string :=
  match d with
  | Preserved => "preserved"
  | Cleaned => "cleaned"
  | ReturnToAgent => "return_to_agent"
  end.
End FinalizeDecision.

Module PreservedReason.
Inductive t := Dirty | Unpushed | Held.
#[global] Instance eq_dec : EqDecision t.
Proof. solve_decision. Defined.
Definition describe (r : t) : string :=
  match r with
  | Dirty => "uncommitted changes"
  | Unpushed => "unpushed commits on a local branch"
  | Held => "durable preservation hold"
  end.
Definition describe_terse (r : t) : string :=
  match r with
  | Dirty => "uncommitted changes"
  | Unpushed => "unpushed commits"
  | Held => "preservation hold"
  end.
End PreservedReason.

Module ExitDialogChoice.
Inductive t := ReturnToRole | KeepAll | DiscardAll.
End ExitDialogChoice.

Module ExitAction.
Inductive t := Keep | Discard.
End ExitAction.

(** [ExitActionPrompt]: what the capsule wrote to [exit-action.json], if that can
    be read. *)
Definition exit_action_choice (written : option ExitAction.t) : ExitDialogChoice.t :=
  match written with
  | Some ExitAction.Discard => ExitDialogChoice.DiscardAll
  | Some ExitAction.Keep | None => ExitDialogChoice.KeepAll
  end.
(** [rich_exit_dialog]: the option the operator picked, or an error. *)
Definition rich_exit_choice (picked : option Z) : ExitDialogChoice.t :=
  match picked with
  | Some 0 => ExitDialogChoice.ReturnToRole
  | Some 2 => ExitDialogChoice.DiscardAll
  | Some _ | None => ExitDialogChoice.KeepAll
  end.

(** ** The sessions of the container *)

Fixpoint find_map {A B} (f : A → option B) (l : list A) : option B :=
  match l with
  | [] => None
  | x :: l => match f x with Some y => Some y | None => find_map f l end
  end.
Definition parse_session_count (output : string) : option Z :=
  find_map (λ line,
    value ← strip_prefix "Sessions:" (trim line);
    match parse_u64 (trim value) with inr n => Some n | inl _ => None end) (lines output).

(** What the status command printed, unless it failed: in doubt there are
    sessions. *)
Definition has_jackin_sessions_by_id (printed : option string) : bool :=
  match printed with
  | Some output => match parse_session_count output with Some 0 => false | _ => true end
  | None => true
  end.

Module CleanupAssessment.
Inductive t := SafeToDelete | PreservedDirty | PreservedUnpushed.
End CleanupAssessment.

Notation Preserved_list := (list (IsolationRecord * PreservedReason.t)).

Section finalize.
Context (canonicalize digest : string → string) (for_each_ref : Refs → string) (state_dir : string).
(** [git] on a work tree, given the state of everything. *)
Context (git : Data → string → Git).

Notation force_cleanup_isolated := (force_cleanup_isolated canonicalize digest for_each_ref state_dir).

(** The error of a step that may fail. *)
Definition try {A} (m : IO A) : IO (error + A) := λ w evs,
  match m w evs with
  | (Done a, w, evs) => (Done (inr a), w, evs)
  | (Failed e, w, evs) => (Done (inl e), w, evs)
  | (Crashed, w, evs) => (Crashed, w, evs)
  end.

Definition hold_message (r : IsolationRecord) : IO (option error) :=
  checked ← try (look (λ d, check_removal (holds d) (worktree_path r)));
  mret (match checked with inl e => Some e | inr _ => None end).

Definition assess_cleanup (r : IsolationRecord) : IO CleanupAssessment.t :=
  look (λ d, Ok (match assess_worktree (git d (worktree_path r)) (base_commit r) with
                 | WorktreeState.Clean => CleanupAssessment.SafeToDelete
                 | WorktreeState.Dirty => CleanupAssessment.PreservedDirty
                 | WorktreeState.Unpushed => CleanupAssessment.PreservedUnpushed
                 end)).

Definition mark_preserved (r : IsolationRecord) (status : CleanupStatus.t) : IO IsolationRecord :=
  let updated := with_status status r in
  _ ← change (λ d, s ← upsert_record updated state_dir (state d); Ok (set_state s d));
  mret updated.

Fixpoint assess_records (records : list IsolationRecord) (preserved : Preserved_list) : IO Preserved_list :=
  match records with
  | [] => mret preserved
  | record :: records =>
      hold ← hold_message record;
      match hold with
      | Some _ => assess_records records (preserved ++ [(record, PreservedReason.Held)])
      | None =>
          assessment ← assess_cleanup record;
          match assessment with
          | CleanupAssessment.SafeToDelete =>
              _ ← force_cleanup_isolated record;
              assess_records records preserved
          | CleanupAssessment.PreservedDirty =>
              record ← mark_preserved record CleanupStatus.PreservedDirty;
              assess_records records (preserved ++ [(record, PreservedReason.Dirty)])
          | CleanupAssessment.PreservedUnpushed =>
              record ← mark_preserved record CleanupStatus.PreservedUnpushed;
              assess_records records (preserved ++ [(record, PreservedReason.Unpushed)])
          end
      end
  end.

(** Both loops that discard: held work stays, and a failure is remembered. *)
Fixpoint discard_records (preserved : Preserved_list) (any_failed : bool) : IO bool :=
  match preserved with
  | [] => mret any_failed
  | (record, reason) :: preserved =>
      if bool_decide (reason = PreservedReason.Held) then discard_records preserved true
      else
        done ← try (force_cleanup_isolated record);
        discard_records preserved (match done with inl _ => true | inr _ => any_failed end)
  end.
Definition discard_all (preserved : Preserved_list) : IO FinalizeDecision.t :=
  any_failed ← discard_records preserved false;
  mret (if any_failed : bool then FinalizeDecision.Preserved else FinalizeDecision.Cleaned).

(** The operator's choice, and a prompt that fails. *)
Context (prompt : Preserved_list → res ExitDialogChoice.t).

Definition finalize_clean_exit (is_interactive : bool) (policy : DirtyExitPolicy.t)
    : IO FinalizeDecision.t :=
  records ← look (λ d, read_records state_dir (state d));
  preserved ← assess_records records [];
  match preserved with
  | [] => mret FinalizeDecision.Cleaned
  | _ =>
      match policy with
      | DirtyExitPolicy.Discard => discard_all preserved
      | DirtyExitPolicy.Keep => mret FinalizeDecision.Preserved
      | DirtyExitPolicy.Ask =>
          if negb is_interactive then mret FinalizeDecision.Preserved
          else
            choice ← lift (prompt preserved);
            match choice with
            | ExitDialogChoice.ReturnToRole => mret FinalizeDecision.ReturnToAgent
            | ExitDialogChoice.KeepAll => mret FinalizeDecision.Preserved
            | ExitDialogChoice.DiscardAll => discard_all preserved
            end
      end
  end.

Definition finalize_foreground_session (outcome : AttachOutcome.t) (status : option string)
    (is_interactive : bool) (policy : DirtyExitPolicy.t) : IO FinalizeDecision.t :=
  match outcome with
  | AttachOutcome.Stopped 0 => finalize_clean_exit is_interactive policy
  | _ =>
      let no_sessions := negb (has_jackin_sessions_by_id status) in
      match outcome with
      | AttachOutcome.StillRunning =>
          if no_sessions then finalize_clean_exit is_interactive policy
          else mret FinalizeDecision.Preserved
      | _ => mret FinalizeDecision.Preserved
      end
  end.
End finalize.
