(* ===== verification/FinalizeProofs.v ===== *)
(** * What the end of a session keeps

    Held work is kept under every policy, unsaved work under every policy but a
    decision to discard, and a session reported as cleaned has left no copy. *)

From stdpp Require Import base list gmap strings pretty.
From Stdlib Require Import ZArith Lia Bool.
From S2P Require Import Prelude OrderedMap Paths Config Isolation RefTransaction CleanupWorld Cleanup GitRefs CleanupDemo CleanupFrame Finalize.

Section finalize_proofs.
Context (canonicalize digest : string → string) (for_each_ref : Refs → string) (state_dir : string).
Context (git : Data → string → Git) (prompt : Preserved_list → res ExitDialogChoice.t).

Notation force_cleanup_isolated := (force_cleanup_isolated canonicalize digest for_each_ref state_dir).
Notation assess_records := (assess_records canonicalize digest for_each_ref state_dir git).
Notation discard_records := (discard_records canonicalize digest for_each_ref state_dir).
Notation finalize_clean_exit := (finalize_clean_exit canonicalize digest for_each_ref state_dir git prompt).
Notation finalize_foreground_session :=
  (finalize_foreground_session canonicalize digest for_each_ref state_dir git prompt).

(** ** Keeping *)

Section keeping.
Context (path : string) (tree : option DirNode) (held : option HoldsFile).

(** The copy at the path and the holds are as they were. *)
Definition kept (d : Data) : Prop := trees d !! path = tree ∧ holds d = held.

Lemma kept_stable r : worktree_path r ≠ path → stable r kept.
Proof.
  intros Hne. split; unfold kept; try done. intros n d [<- <-] _. cbn. split; [|done].
  by apply lookup_partial_alter_ne.
Qed.
Lemma kept_cleanup r : worktree_path r ≠ path → framed kept (force_cleanup_isolated r) any.
Proof. intros Hne. by apply framed_cleanup, kept_stable. Qed.

Lemma kept_try {A} (m : IO A) : framed kept m any → framed kept (try m) any.
Proof.
  intros H w evs HF. unfold try. specialize (H w evs HF). destruct (m w evs) as [[[]]]; naive_solver.
Qed.
Lemma kept_hold_message r : framed kept (hold_message r) any.
Proof. unfold hold_message. pose proof (kept_try _ (framed_look_any kept (λ d, check_removal (holds d) (worktree_path r)))). frame. Qed.
Lemma kept_mark r st : framed kept (mark_preserved state_dir r st) (λ r', worktree_path r' = worktree_path r).
Proof.
  unfold mark_preserved. eapply framed_bind; [|intros [] _; by apply framed_ret].
  apply framed_change. intros d d' HF E. destruct (upsert_record _ _ _); [|done..]. by injection E as <-.
Qed.

(** A held path is found held, whatever fails. *)
Lemma kept_hold_found r e :
  worktree_path r = path → check_removal held path = Err e → framed kept (hold_message r) is_Some.
Proof.
  intros Hp He w evs [HF Hh]. unfold hold_message, try, look, call, mbind, io_bind. rewrite Hh, Hp, He.
  destruct (next_fault evs) as [f evs']. destruct f as [|[]|[]|g []]; cbn; try done;
    (split; [by split|by eexists]).
Qed.

(** What may happen to the records of the session: each is of another copy, or its
    copy is held, or it is never judged clean. *)
Definition not_lost (discarding : bool) (r : IsolationRecord) : Prop :=
  worktree_path r = path →
  (∃ e, check_removal held path = Err e) ∨
  discarding = false ∧ ∀ d, assess_worktree (git d path) (base_commit r) ≠ WorktreeState.Clean.
Definition not_discarded (discarding : bool) (l : Preserved_list) : Prop :=
  discarding = true → Forall (λ x, worktree_path x.1 = path → x.2 = PreservedReason.Held) l.

Lemma not_discarded_app b l r reason :
  not_discarded b l → (b = true → worktree_path r = path → reason = PreservedReason.Held) →
  not_discarded b (l ++ [(r, reason)]).
Proof. intros Hl Hr Hb. apply Forall_app. split; [by apply Hl|]. constructor; [|done]. by apply Hr. Qed.

Lemma kept_assess b records l :
  Forall (not_lost b) records → not_discarded b l →
  framed kept (assess_records records l) (not_discarded b).
Proof.
  intros Hr. revert l. induction Hr as [|r records Hr _ IH]; intros l Hl; cbn [Finalize.assess_records];
    [by apply framed_ret|].
  destruct (decide (worktree_path r = path)) as [Hp|Hp].
  - destruct (Hr Hp) as [[e He]|[-> Hd]].
    + eapply framed_bind; [by eapply kept_hold_found|]. intros [h|] Hh; [|by destruct Hh].
      apply IH. by apply not_discarded_app.
    + eapply framed_bind; [apply kept_hold_message|]. intros [h|] _; [by apply IH|].
      eapply (framed_bind _ _ _ (λ a, a ≠ CleanupAssessment.SafeToDelete)).
      { apply framed_look. intros d a _ [= <-]. specialize (Hd d). rewrite Hp. by destruct (assess_worktree _ _). }
      intros [] Ha; [done|..]; (eapply framed_bind; [apply kept_mark|]; intros r' Hr'; by apply IH).
  - eapply framed_bind; [apply kept_hold_message|]. intros [h|] _; [by apply IH, not_discarded_app|].
    eapply framed_bind; [apply framed_look_any|]. intros [] _.
    + eapply framed_bind; [by apply kept_cleanup|]. intros _ _. by apply IH.
    + eapply framed_bind; [apply kept_mark|]. intros r' Hr'. apply IH, not_discarded_app; [done|congruence].
    + eapply framed_bind; [apply kept_mark|]. intros r' Hr'. apply IH, not_discarded_app; [done|congruence].
Qed.

Lemma kept_discard l failed :
  Forall (λ x, worktree_path x.1 = path → x.2 = PreservedReason.Held) l →
  framed kept (discard_records l failed) any.
Proof.
  intros Hl. revert failed. induction Hl as [|[r reason] l Hx _ IH]; intros failed;
    cbn [Finalize.discard_records]; [by apply framed_ret|].
  case_bool_decide as E; [by apply IH|]. assert (worktree_path r ≠ path) as Hne by naive_solver.
  eapply framed_bind; [by apply kept_try, kept_cleanup|]. intros x _. apply IH.
Qed.
End keeping.

(** Whether the end of the session may discard: by policy, or by the operator. *)
Definition may_discard (is_interactive : bool) (policy : DirtyExitPolicy.t) (b : bool) : Prop :=
  b = true ∨
  b = false ∧
    (policy = DirtyExitPolicy.Keep ∨
     policy = DirtyExitPolicy.Ask ∧
       (is_interactive = false ∨ ∀ l, prompt l ≠ Ok ExitDialogChoice.DiscardAll)).

Lemma framed_world {A} F (m : IO A) Φ w evs : framed F m Φ → F (data w) → F (data (m w evs).1.2).
Proof. intros H HF. specialize (H w evs HF). destruct (m w evs) as [[[]]]; cbn; naive_solver. Qed.

Lemma kept_discard_all path tree held b l :
  not_discarded path b l → b = true →
  framed (kept path tree held) (discard_all canonicalize digest for_each_ref state_dir l) any.
Proof.
  intros Hl Hb. unfold discard_all. eapply framed_bind; [by apply kept_discard, Hl|].
  intros x _. by apply framed_ret.
Qed.

Lemma kept_exit path tree held b is_interactive policy w evs records :
  kept path tree held (data w) → read_records state_dir (state (data w)) = Ok records →
  Forall (not_lost path held b) records → may_discard is_interactive policy b →
  kept path tree held (data (finalize_clean_exit is_interactive policy w evs).1.2).
Proof.
  intros HF Hr Hl Hb.
  assert (framed (λ d, kept path tree held d ∧ state d = state (data w))
    (look (λ d, read_records state_dir (state d))) (λ rs, rs = records)) as Hlook.
  { apply framed_look. intros d a [_ Hst]. rewrite Hst, Hr. by intros [= <-]. }
  specialize (Hlook w evs (conj HF eq_refl)). unfold Finalize.finalize_clean_exit, mbind at 1, io_bind at 1.
  destruct (look _ w evs) as [[[rs|e|] w1] evs1]; [|apply Hlook..]. destruct Hlook as [[HF1 _] ->].
  eapply (framed_world _ _ any); [|exact HF1].
  eapply framed_bind; [apply (kept_assess path tree held b); [done|by intros _]|]. intros [|x l] Hx; [frame|].
  destruct policy; [|by apply framed_ret|].
  - destruct is_interactive; cbn [negb]; [|by apply framed_ret].
    eapply framed_bind; [apply framed_lift|]. intros [] Hc; [by apply framed_ret..|].
    eapply kept_discard_all; [done|]. destruct Hb as [|[_ [|[_ [|Hp]]]]]; [done..|]. by apply Hp in Hc.
  - eapply kept_discard_all; [done|]. by destruct Hb as [|[_ [|[]]]].
Qed.

(** C5: the end of a session loses no work: whatever calls fail, and whenever the
    process dies, the copy of a record is untouched if it is under a preservation
    hold, under every policy and every choice of the operator, and if [git] never
    reports it clean, unless the policy is to discard or the operator chooses to.  No other
    record of the session names the same path. *)
Theorem session_end_keeps_work outcome status is_interactive policy w evs records r :
  read_records state_dir (state (data w)) = Ok records → r ∈ records →
  (∀ r', r' ∈ records → worktree_path r' = worktree_path r → r' = r) →
  (∃ e, check_removal (holds (data w)) (worktree_path r) = Err e) ∨
  (∀ d, assess_worktree (git d (worktree_path r)) (base_commit r) ≠ WorktreeState.Clean) ∧
  (policy = DirtyExitPolicy.Keep ∨
   policy = DirtyExitPolicy.Ask ∧ (is_interactive = false ∨ ∀ l, prompt l ≠ Ok ExitDialogChoice.DiscardAll)) →
  let w' := (finalize_foreground_session outcome status is_interactive policy w evs).1.2 in
  trees (data w') !! worktree_path r = trees (data w) !! worktree_path r ∧ holds (data w') = holds (data w).
Proof.
  intros Hr Hin Huniq Hkeep.
  assert (∃ b, may_discard is_interactive policy b ∧
    Forall (not_lost (worktree_path r) (holds (data w)) b) records) as (b & Hb & Hl).
  { destruct Hkeep as [He|[Hd Hp]]; [exists true|exists false].
    - split; [by left|]. apply Forall_forall. intros r' _ _. by left.
    - split; [by right|]. apply Forall_forall. intros r' Hr' E. right. by rewrite (Huniq r' Hr' E). }
  pose proof (kept_exit (worktree_path r) _ (holds (data w)) b is_interactive policy w evs records
    (conj eq_refl eq_refl) Hr Hl Hb) as H.
  unfold Finalize.finalize_foreground_session.
  destruct outcome as [|[|z|z]|]; try (by split); try exact H. by destruct (negb _).
Qed.

(** ** Cleaning *)

Lemma bind_done {A B} (m : IO A) (f : A → IO B) w evs b w' evs' :
  (m ≫= f) w evs = (Done b, w', evs') →
  ∃ a w1 evs1, m w evs = (Done a, w1, evs1) ∧ f a w1 evs1 = (Done b, w', evs').
Proof.
  unfold mbind, io_bind. destruct (m w evs) as [[[a|e|] w1] evs1]; [|done..]. eauto 6.
Qed.

(** A copy that is gone stays so. *)
Definition no_tree (path : string) (d : Data) : Prop := trees d !! path = None.
Lemma no_tree_cleanup path r : framed (no_tree path) (force_cleanup_isolated r) any.
Proof.
  apply framed_cleanup. split; unfold no_tree; try done. intros n d Hn [x Hx]. cbn.
  rewrite lookup_partial_alter_ne; [done|]. intros E. congruence.
Qed.
Lemma framed_done {A} F (m : IO A) Φ w evs a w' evs' :
  framed F m Φ → m w evs = (Done a, w', evs') → F (data w) → F (data w').
Proof. intros H E HF. specialize (H w evs HF). rewrite E in H. apply H. Qed.

Definition covered (r : IsolationRecord) (l : Preserved_list) (d : Data) : Prop :=
  no_tree (worktree_path r) d ∨ ∃ x, x ∈ l ∧ worktree_path x.1 = worktree_path r.

Lemma no_tree_assess path records l : framed (no_tree path) (assess_records records l) any.
Proof.
  revert l. induction records as [|r records IH]; intros l; cbn [Finalize.assess_records]; [by apply framed_ret|].
  assert (framed (no_tree path) (hold_message r) any).
  { unfold hold_message. eapply (framed_bind _ _ _ any); [|intros ? _; by apply framed_ret].
    intros w evs HF. unfold try. pose proof (framed_look_any (no_tree path)
      (λ d, check_removal (holds d) (worktree_path r)) w evs HF) as H.
    destruct (look _ w evs) as [[[]]]; naive_solver. }
  assert (∀ st, framed (no_tree path) (mark_preserved state_dir r st) any).
  { intros st. unfold mark_preserved. eapply framed_bind; [|intros [] _; by apply framed_ret].
    apply framed_change. intros d d' HF E. destruct (upsert_record _ _ _); [|done..]. by injection E as <-. }
  pose proof (no_tree_cleanup path r). unfold assess_cleanup. frame.
Qed.

(** After the assessment each copy is gone or listed. *)
Lemma assess_covers records l w evs l' w' evs' :
  assess_records records l w evs = (Done l', w', evs') →
  (∀ x, x ∈ l → x ∈ l') ∧ Forall (λ r, covered r l' (data w')) records.
Proof.
  revert l w evs. induction records as [|r records IH]; intros l w evs; cbn [Finalize.assess_records];
    [by intros [= <- _ _]|].
  assert (∀ l1 w1 evs1, assess_records records l1 w1 evs1 = (Done l', w', evs') →
    (∀ x, x ∈ l → x ∈ l1) → no_tree (worktree_path r) (data w1) ∨
      (∃ x, x ∈ l1 ∧ worktree_path x.1 = worktree_path r) →
    (∀ x, x ∈ l → x ∈ l') ∧ Forall (λ r, covered r l' (data w')) (r :: records)) as Hgo.
  { intros l1 w1 evs1 E Hl Hr. destruct (IH _ _ _ E) as [H1 H2]. split; [auto|]. constructor; [|done].
    destruct Hr as [Hr|(x & Hx & Hp)]; [left|right; eauto].
    eapply framed_done; [apply (no_tree_assess (worktree_path r) records l1)|done|done]. }
  assert (∀ (r' : IsolationRecord) reason, worktree_path r' = worktree_path r →
    (∀ x, x ∈ l → x ∈ l ++ [(r', reason)]) ∧
    ∃ x, x ∈ l ++ [(r', reason)] ∧ worktree_path x.1 = worktree_path r) as Happ.
  { intros r' reason E. split; [intros x Hx; apply elem_of_app; by left|].
    exists (r', reason). split; [apply elem_of_app; right; by left|done]. }
  intros ([h|] & w1 & evs1 & _ & H)%bind_done.
  - eapply Hgo; [exact H|..]; [by apply Happ|right; by apply Happ].
  - apply bind_done in H as (a & w2 & evs2 & _ & H). destruct a.
    + apply bind_done in H as ([] & w3 & evs3 & Hc & H). eapply Hgo; [exact H|done|]. left.
      by eapply cleanup_removes.
    + apply bind_done in H as (r' & w3 & evs3 & Hm & H).
      apply bind_done in Hm as (? & ? & ? & _ & [= <- _ _]).
      eapply Hgo; [exact H|..]; [by apply Happ|right; by apply Happ].
    + apply bind_done in H as (r' & w3 & evs3 & Hm & H).
      apply bind_done in Hm as (? & ? & ? & _ & [= <- _ _]).
      eapply Hgo; [exact H|..]; [by apply Happ|right; by apply Happ].
Qed.

Lemma try_done {A} (m : IO A) w evs x w' evs' :
  try m w evs = (Done x, w', evs') →
  (∃ a, x = inr a ∧ m w evs = (Done a, w', evs')) ∨ ∃ e, x = inl e ∧ m w evs = (Failed e, w', evs').
Proof.
  unfold try. destruct (m w evs) as [[[a|e|] w1] evs1]; [..|done]; intros [= <- <- <-]; eauto.
Qed.

Lemma no_tree_discard path l failed : framed (no_tree path) (discard_records l failed) any.
Proof.
  revert failed. induction l as [|[r reason] l IH]; intros failed; cbn [Finalize.discard_records]; [by apply framed_ret|].
  assert (framed (no_tree path) (try (force_cleanup_isolated r)) any).
  { intros w evs HF. unfold try. pose proof (no_tree_cleanup path r w evs HF) as H.
    destruct (Cleanup.force_cleanup_isolated _ _ _ _ _ w evs) as [[[]]]; naive_solver. }
  frame.
Qed.

(** Discarding without a failure leaves nothing. *)
Lemma discard_clears l failed w evs w' evs' :
  discard_records l failed w evs = (Done false, w', evs') →
  failed = false ∧ Forall (λ x, no_tree (worktree_path x.1) (data w')) l.
Proof.
  revert failed w evs. induction l as [|[r reason] l IH]; intros failed w evs; cbn [Finalize.discard_records];
    [by intros [= -> _ _]|].
  case_bool_decide; [by intros [? _]%IH|].
  intros (x & w1 & evs1 & [(a & -> & Hm)|(e & -> & _)]%try_done & E)%bind_done; [|by apply IH in E as [? _]].
  pose proof (IH _ _ _ E) as [Hf Hl]. split; [done|]. constructor; [|done].
  eapply framed_done; [apply (no_tree_discard (worktree_path r) l failed)|exact E|].
  by eapply cleanup_removes.
Qed.

(** C6: a session that is reported as cleaned has left no isolated copy: every
    directory its records named is gone. *)
Theorem cleaned_session_leaves_nothing outcome status is_interactive policy w evs w' evs' :
  finalize_foreground_session outcome status is_interactive policy w evs
    = (Done FinalizeDecision.Cleaned, w', evs') →
  ∃ records, read_records state_dir (state (data w)) = Ok records ∧
    ∀ r, r ∈ records → trees (data w') !! worktree_path r = None.
Proof.
  intros H. assert (finalize_clean_exit is_interactive policy w evs = (Done FinalizeDecision.Cleaned, w', evs')) as E.
  { unfold Finalize.finalize_foreground_session in H.
    destruct outcome as [|[|z|z]|]; try done. by destruct (negb _). }
  clear H. unfold Finalize.finalize_clean_exit in E.
  apply bind_done in E as (records & w1 & evs1 & [-> Hr]%look_done & E). exists records. split; [done|].
  apply bind_done in E as (l & w2 & evs2 & [_ Ha]%assess_covers & E). rewrite Forall_forall in Ha.
  assert (Forall (λ x, no_tree (worktree_path x.1) (data w')) l ∧
    ∀ path, no_tree path (data w2) → no_tree path (data w')) as [Hl Hst].
  { assert (∀ w3 evs3 w4 evs4, discard_all canonicalize digest for_each_ref state_dir l w3 evs3
        = (Done FinalizeDecision.Cleaned, w4, evs4) →
      Forall (λ x, no_tree (worktree_path x.1) (data w4)) l ∧
      ∀ path, no_tree path (data w3) → no_tree path (data w4)) as Hd.
    { intros w3 evs3 w4 evs4 H. apply bind_done in H as ([] & w5 & evs5 & H & [= <- <-]). split.
      - by eapply discard_clears.
      - intros path. eapply framed_done; [apply (no_tree_discard path l false)|done]. }
    destruct l as [|x l]; [injection E as <- <-; by split|]. destruct policy; [|done|by eapply Hd].
    destruct (negb is_interactive); [done|]. apply bind_done in E as (c & w3 & evs3 & Hp & E).
    assert (w3 = w2) as -> by (revert Hp; unfold lift; destruct (prompt _); congruence).
    destruct c; [done..|]. by eapply Hd. }
  intros r Hin. destruct (Ha r Hin) as [Hn|(x & Hx & Hp)]; [by apply Hst|].
  rewrite Forall_forall in Hl. rewrite <-Hp. by apply Hl.
Qed.
End finalize_proofs.

(** ** A session that ends *)

Module SessionDemo.
Definition row (name tip : string) : string := name +:+ tab +:+ tip +:+ tab +:+ tab +:+ lf.
(** [git] in a clean work tree, and in one with a change. *)
Definition git_on (status : string) : Git :=
  mk_git (Some status) (Some (row "main" CleanupDemo.oid_a)) (λ _, None) (λ _ _, None)
    (Some "main") (Some CleanupDemo.oid_a).
Definition world : World :=
  mk_world (mk_data (mk_state_dir (Some (Current [CleanupDemo.record])) None) None ∅
              (trees CleanupDemo.start_data) (repos CleanupDemo.start_data)) (locks CleanupDemo.world).
Definition session (status : string) (policy : DirtyExitPolicy.t) : IO FinalizeDecision.t :=
  finalize_foreground_session id id (listed_refs 40) CleanupDemo.dir (λ _ _, git_on status)
    (λ _, Ok ExitDialogChoice.KeepAll) (AttachOutcome.Stopped 0) None true policy.
End SessionDemo.

Lemma session_end_keeps_work_witness :
  trees (data (SessionDemo.session " M main.rs" DirtyExitPolicy.Ask SessionDemo.world [Go; Go; After true]).1.2)
    !! CleanupDemo.tree_path = Some CleanupDemo.tree ∧
  holds (data (SessionDemo.session " M main.rs" DirtyExitPolicy.Ask SessionDemo.world [Go; Go; After true]).1.2)
    = None.
Proof.
  apply (session_end_keeps_work id id (listed_refs 40) CleanupDemo.dir (λ _ _, SessionDemo.git_on " M main.rs")
    (λ _, Ok ExitDialogChoice.KeepAll) (AttachOutcome.Stopped 0) None true DirtyExitPolicy.Ask
    SessionDemo.world [Go; Go; After true] [CleanupDemo.record] CleanupDemo.record).
  - reflexivity.
  - left.
  - intros r' Hr' _. by apply list_elem_of_singleton in Hr'.
  - right. split; [intros d; by vm_compute|]. right. split; [done|]. by right.
Defined.

Lemma cleaned_session_leaves_nothing_witness :
  trees (data (SessionDemo.session "" DirtyExitPolicy.Ask SessionDemo.world []).1.2) !! CleanupDemo.tree_path = None.
Proof.
  assert ((SessionDemo.session "" DirtyExitPolicy.Ask SessionDemo.world []).1.1 = Done FinalizeDecision.Cleaned)
    as E by by vm_compute.
  destruct (SessionDemo.session "" DirtyExitPolicy.Ask SessionDemo.world []) as [[o w] evs] eqn:Es.
  cbn in E |- *. subst o.
  destruct (cleaned_session_leaves_nothing _ _ _ _ _ _ _ _ _ _ _ _ _ _ Es) as (records & Hr & Hgone).
  injection Hr as <-. apply (Hgone CleanupDemo.record). left.
Defined.
