(* ===== verification/Money.v ===== *)
(** * Amounts of money

    [Money] of [jackin-protocol/src/control.rs] is an [i64] of minor units, a
    currency and a decimal exponent; [control/money_numeric.rs] compares and
    subtracts amounts of different exponents exactly on digit lists.  The spend of a
    quota is judged with them ([jackin-usage-broker-publish]). *)

From stdpp Require Import base list strings pretty.
From Stdlib Require Import ZArith Lia Bool Strings.Byte.
From S2P Require Import Prelude Digits.

(** ** Checked machine arithmetic *)

Definition I64_MAX : Z := 9223372036854775807.
Definition I64_MIN : Z := -9223372036854775808.
Definition I32_MAX : Z := 2147483647.
Definition I32_MIN : Z := -2147483648.
Definition U128_MAX : Z := 340282366920938463463374607431768211455.

(** [checked_add] and the like, and [try_from(..).ok()], by the range of the
    result type. *)
Definition checked (lo hi z : Z) : option Z := if (lo <=? z) && (z <=? hi) then Some z else None.
Abbreviation checked_i64 := (checked I64_MIN I64_MAX).
Abbreviation checked_i32 := (checked I32_MIN I32_MAX).
Abbreviation checked_u64 := (checked 0 U64_MAX).
Abbreviation checked_u128 := (checked 0 U128_MAX).

Record Money := mk_money { amount_minor : Z; currency : string; exponent : Z }.

#[global] Instance money_eq_dec : EqDecision Money.
Proof. solve_decision. Defined.

(** The ranges of the fields. *)
Definition money_ok (m : Money) : Prop :=
  I64_MIN ≤ amount_minor m ≤ I64_MAX ∧ is_u8 (exponent m).

(** [unsigned_abs().to_string()] *)
Definition magnitude_text (m : Money) : bytes := as_bytes (pretty (Z.to_N (Z.abs (amount_minor m)))).

(** ** Rounding and text *)

Definition major_amount (m : Money) : Z :=
  if exponent m =? 0 then amount_minor m
  else if 20 <=? exponent m then 0
  else
    let divisor := 10 ^ exponent m in
    let magnitude := Z.abs (amount_minor m) in
    let rounded := magnitude / divisor in
    let rounded := if divisor / 2 <=? magnitude mod divisor then rounded + 1 else rounded in
    let rounded := default I64_MAX (checked_i64 rounded) in
    if amount_minor m <? 0 then - rounded else rounded.

Definition zero_char : byte := digit_byte 0.

(** The carry of a rounded number, from its last digit on: the digits, last first,
    and whether a carry is left. *)
Fixpoint carry_digits (last_first : bytes) : bytes * bool :=
  match last_first with
  | [] => ([], true)
  | b :: rest =>
      if byte_is 57 b then let '(rest, carry) := carry_digits rest in (zero_char :: rest, carry)
      else (byte_of_Z (Z_of_byte b + 1) :: rest, false)
  end.
Definition increment (whole : bytes) : bytes :=
  let '(digits, carry) := carry_digits (rev whole) in
  if carry : bool then digit_byte 1 :: rev digits else rev digits.

Definition round_up (precision : nat) (digits whole : bytes) : bool :=
  if Nat.eqb precision 0 || Nat.ltb (length digits) precision then false
  else
    match drop (length digits - precision) digits with
    | first :: fractional =>
        if 53 <? Z_of_byte first then true
        else if byte_is 53 first then
          existsb (λ b, negb (byte_is 48 b)) fractional
          || match rev whole with b :: _ => (Z_of_byte b - 48) mod 2 =? 1 | [] => false end
        else false
    | [] => false
    end.

Definition rounded_major (m : Money) : string :=
  let digits := magnitude_text m in
  let precision := Z.to_nat (exponent m) in
  let whole := take (length digits - precision) digits in
  let whole := match whole with [] => [zero_char] | _ => whole end in
  let whole := if round_up precision digits whole then increment whole else whole in
  if amount_minor m <? 0 then "-" +:+ of_bytes whole else of_bytes whole.

Definition is_upper (b : byte) : bool := between 65 90 (Z_of_byte b).

Definition format_amount (m : Money) (value : string) : string :=
  let code := currency m in
  if str_eqb code "USD" then "$" +:+ value
  else if (str_len code =? 3) && forallb is_upper (as_bytes code) then code +:+ " " +:+ value
  else value +:+ " " +:+ code.

Definition format_compact (m : Money) : string := format_amount m (rounded_major m).

Definition zeros_text (n : nat) : bytes := replicate n zero_char.

Definition format_with_precision (m : Money) (prec : nat) : string :=
  let digits := magnitude_text m in
  let sign := if amount_minor m <? 0 then "-" else "" in
  let value :=
    if Nat.eqb prec 0 then sign +:+ of_bytes digits
    else if Nat.ltb prec (length digits) then
      let split := (length digits - prec)%nat in
      sign +:+ of_bytes (take split digits) +:+ "." +:+ of_bytes (drop split digits)
    else sign +:+ "0." +:+ of_bytes (zeros_text (prec - length digits)) +:+ of_bytes digits in
  format_amount m value.

(** [Display] *)
Definition display (m : Money) : string := format_with_precision m (Z.to_nat (exponent m)).

(** ** Exact arithmetic: [money_numeric] *)

(** [for _ in 0..exponent_delta]: an early return or the scaled numerator. *)
Fixpoint scale_numerator (delta : nat) (threshold saturated numerator : Z) : option Z + Z :=
  match delta with
  | O => inr numerator
  | S delta =>
      if threshold <=? numerator then inl (Some saturated)
      else match checked_u128 (numerator * 10) with
           | Some numerator => scale_numerator delta threshold saturated numerator
           | None => inl None
           end
  end.
Fixpoint scale_denominator (delta : nat) (numerator denominator : Z) : option Z + Z :=
  match delta with
  | O => inr denominator
  | S delta =>
      if numerator <? denominator then inl (Some 0)
      else match checked_u128 (denominator * 10) with
           | Some denominator => scale_denominator delta numerator denominator
           | None => inl None
           end
  end.

Definition percent_limit (negative : bool) : Z := if negative then - I32_MIN else I32_MAX.

Definition percent_result (negative : bool) (quotient : Z) : option Z :=
  if percent_limit negative <? quotient then Some (if negative then I32_MIN else I32_MAX)
  else if negative then
    if quotient =? - I32_MIN then Some I32_MIN
    else q ← checked_i32 quotient; Some (- q)
  else checked_i32 quotient.

Definition raw_percent_of (used cap : Money) : option Z :=
  if negb (str_eqb (currency used) (currency cap)) || (amount_minor cap <=? 0) then None
  else if amount_minor used =? 0 then Some 0
  else
    let negative := amount_minor used <? 0 in
    let numerator := Z.abs (amount_minor used) * 100 in
    denominator ← checked_u128 (amount_minor cap);
    let exponent_delta := exponent cap - exponent used in
    if 0 <=? exponent_delta then
      threshold ← checked_u128 (denominator * (percent_limit negative + 1));
      match scale_numerator (Z.to_nat exponent_delta) threshold
              (if negative then I32_MIN else I32_MAX) numerator with
      | inl r => r
      | inr numerator => percent_result negative (numerator / denominator)
      end
    else
      match scale_denominator (Z.to_nat (- exponent_delta)) numerator denominator with
      | inl r => r
      | inr denominator => percent_result negative (numerator / denominator)
      end.

(** The digits of an amount, least significant first. *)
Definition scaled_digits (amount shift : Z) : list Z :=
  normalize_digits
    (replicate (Z.to_nat shift) 0
     ++ map (λ b, Z_of_byte b - 48) (rev (as_bytes (pretty (Z.to_N (Z.abs amount)))))).

Definition compare_signed (left right left_shift right_shift : Z) : comparison :=
  let left_sign := Z.sgn left in
  let right_sign := Z.sgn right in
  if negb (left_sign =? right_sign) then left_sign ?= right_sign
  else if left_sign =? 0 then Eq
  else
    let order := compare_digits (scaled_digits left left_shift) (scaled_digits right right_shift) in
    if left_sign <? 0 then CompOpp order else order.

Definition checked_cmp (left right : Money) : option comparison :=
  if negb (str_eqb (currency left) (currency right)) then None
  else
    let exp := Z.max (exponent left) (exponent right) in
    Some (compare_signed (amount_minor left) (amount_minor right)
            (exp - exponent left) (exp - exponent right)).

(** [left.get(index).unwrap_or(&0)] for the indices from the front on. *)
Fixpoint add_from (n : nat) (left right : list Z) (carry : Z) : list Z :=
  match n with
  | O => if 0 <? carry then [carry] else []
  | S n =>
      let sum := hd 0 left + hd 0 right + carry in
      sum mod 10 :: add_from n (tl left) (tl right) (sum / 10)
  end.
Definition add_digits (left right : list Z) : list Z :=
  normalize_digits (add_from (Nat.max (length left) (length right)) left right 0).

Fixpoint subtract_from (larger smaller : list Z) (borrow : Z) : option (list Z) :=
  match larger with
  | [] => if borrow =? 0 then Some [] else None
  | minuend :: larger =>
      let subtrahend := hd 0 smaller + borrow in
      if minuend <? subtrahend then
        d ← checked 0 U8_MAX (10 + minuend - subtrahend);
        cons d <$> subtract_from larger (tl smaller) 1
      else
        d ← checked 0 U8_MAX (minuend - subtrahend);
        cons d <$> subtract_from larger (tl smaller) 0
  end.
Definition subtract_digits (larger smaller : list Z) : option (list Z) :=
  normalize_digits <$> subtract_from larger smaller 0.

Definition signed_sum (left_sign : Z) (left_digits : list Z) (right_sign : Z)
    (right_digits : list Z) : option (Z * list Z) :=
  if left_sign =? 0 then Some (right_sign, right_digits)
  else if right_sign =? 0 then Some (left_sign, left_digits)
  else if left_sign =? right_sign then Some (left_sign, add_digits left_digits right_digits)
  else
    match compare_digits left_digits right_digits with
    | Gt => d ← subtract_digits left_digits right_digits; Some (left_sign, d)
    | Lt => d ← subtract_digits right_digits left_digits; Some (right_sign, d)
    | Eq => Some (0, [0])
    end.

Definition signed_magnitude (sign magnitude : Z) : option Z :=
  if sign =? -1 then
    if magnitude =? I64_MAX + 1 then Some I64_MIN
    else m ← checked_i64 magnitude; checked_i64 (- m)
  else if (sign =? 0) && (magnitude =? 0) then Some 0
  else if sign =? 1 then checked_i64 magnitude
  else None.

Definition digits_to_u64 (digits : list Z) : option Z :=
  match parse_u64 (of_bytes (spell digits)) with inr z => Some z | inl _ => None end.

(** The loop of [digits_to_money]: trailing zeros are dropped until the number
    fits. *)
Fixpoint fit_digits (exponent : nat) (sign maximum : Z) (digits : list Z) (currency : string)
    : option Money :=
  let drop_one :=
    match exponent, digits with
    | S exponent, d :: rest =>
        if d =? 0 then fit_digits exponent sign maximum (normalize_digits rest) currency else None
    | _, _ => None
    end in
  match digits_to_u64 digits with
  | Some magnitude =>
      if magnitude <=? maximum then
        amount ← signed_magnitude sign magnitude;
        Some (mk_money amount currency (Z.of_nat exponent))
      else drop_one
  | None => drop_one
  end.

Definition digits_to_money (sign : Z) (digits : list Z) (exponent : Z) (currency : string)
    : option Money :=
  let digits := normalize_digits digits in
  if bool_decide (digits = [0]) then Some (mk_money 0 currency exponent)
  else fit_digits (Z.to_nat exponent) sign (if sign <? 0 then I64_MAX + 1 else I64_MAX) digits currency.

Definition checked_difference (left right : Money) : option Money :=
  if negb (str_eqb (currency left) (currency right)) then None
  else
    let exp := Z.max (exponent left) (exponent right) in
    let left_digits := scaled_digits (amount_minor left) (exp - exponent left) in
    let right_digits := scaled_digits (amount_minor right) (exp - exponent right) in
    '(sign, digits) ← signed_sum (Z.sgn (amount_minor left)) left_digits
                        (- Z.sgn (amount_minor right)) right_digits;
    digits_to_money sign digits exp (currency left).

Definition checked_nonnegative_difference (left right : Money) : option Money :=
  let exp := Z.max (exponent left) (exponent right) in
  order ← checked_cmp left right;
  match order with
  | Lt => Some (mk_money 0 (currency left) exp)
  | _ => checked_difference left right
  end.

(** ** The state of a spend quota: [groups.rs] *)

Module UsageQuotaStateV1.
Inductive t :=
| Available | NotStarted | Warning | Exhausted | Unsupported | Unavailable | NoPermission
| Unknown | NotApplicable | Error.
End UsageQuotaStateV1.

Module UsageSnapshotStatus.
Inductive t := Fresh | Stale | NeedsLogin | NeedsSecret | Unsupported | Unavailable | Error.
End UsageSnapshotStatus.

Module ProviderQuotaState.
Inductive t := Exhausted | Unlimited.
End ProviderQuotaState.

Record QuotaBucketView := mk_bucket {
  status : UsageSnapshotStatus.t;
  provider_quota_state : option ProviderQuotaState.t;
  used_money : option Money;
  limit_money : option Money
}.

Definition spend_ratio_state (used limit : Money) : UsageQuotaStateV1.t :=
  if amount_minor limit <=? 0 then UsageQuotaStateV1.Unknown
  else
    match checked_cmp used limit with
    | None => UsageQuotaStateV1.Unknown
    | Some (Gt | Eq) => UsageQuotaStateV1.Exhausted
    | Some Lt =>
        match raw_percent_of used limit with
        | Some percent =>
            if 80 <=? percent then UsageQuotaStateV1.Warning else UsageQuotaStateV1.Available
        | None => UsageQuotaStateV1.Available
        end
    end.

Definition spend_quota_state (bucket : QuotaBucketView) : UsageQuotaStateV1.t :=
  match status bucket with
  | UsageSnapshotStatus.NeedsLogin | UsageSnapshotStatus.NeedsSecret => UsageQuotaStateV1.NoPermission
  | UsageSnapshotStatus.Unsupported => UsageQuotaStateV1.Unsupported
  | UsageSnapshotStatus.Unavailable => UsageQuotaStateV1.Unavailable
  | UsageSnapshotStatus.Error => UsageQuotaStateV1.Error
  | UsageSnapshotStatus.Fresh | UsageSnapshotStatus.Stale =>
      match provider_quota_state bucket with
      | Some ProviderQuotaState.Exhausted => UsageQuotaStateV1.Exhausted
      | Some ProviderQuotaState.Unlimited => UsageQuotaStateV1.NotApplicable
      | None =>
          match used_money bucket, limit_money bucket with
          | Some used, Some limit => spend_ratio_state used limit
          | Some _, None => UsageQuotaStateV1.NotApplicable
          | None, _ => UsageQuotaStateV1.Unknown
          end
      end
  end.

Definition money_is_exhausted (bucket : QuotaBucketView) : bool :=
  match used_money bucket, limit_money bucket with
  | Some used, Some limit =>
      (0 <? amount_minor limit)
      && match checked_cmp used limit with Some (Eq | Gt) => true | _ => false end
  | _, _ => false
  end.

(** The spend line of the status bar, the end of [spend_headline_label]. *)
Definition spend_headline (used : Money) (limit : option Money) : option string :=
  if amount_minor used =? 0 then None
  else Some (match limit with
             | Some limit => format_compact used +:+ " of " +:+ pretty (major_amount limit)
             | None => format_compact used +:+ " spent"
             end).

(** The line rounds its two amounts in different ways. *)
Example headline_rounds_two_ways :
  spend_headline (mk_money 50 "USD" 2) (Some (mk_money 50 "USD" 2)) = Some "$0 of 1".
Proof. vm_compute. done. Qed.
