(* ===== verification/MoneyProofs.v ===== *)
(** * Money is exact

    The arithmetic on [Money] agrees with the rational number that an amount
    denotes: comparisons, differences, percentages and the two roundings. *)

From stdpp Require Import base list strings pretty.
From Stdlib Require Import ZArith Lia Bool Strings.Byte QArith.
From S2P Require Import Prelude Digits Money.

#[local] Open Scope Z_scope.

(** ** The value of an amount *)

Definition money_value (m : Money) : Q := Qmake (amount_minor m) (Z.to_pos (10 ^ exponent m)).

Lemma pow10_gt0 e : 0 ≤ e → 0 < 10 ^ e.
Proof. intros H. by apply Z.pow_pos_nonneg. Qed.

Lemma QDen_pow10 e : 0 ≤ e → Zpos (Z.to_pos (10 ^ e)) = 10 ^ e.
Proof. intros H. by apply Z2Pos.id, pow10_gt0. Qed.

Lemma checked_Some lo hi z z' : checked lo hi z = Some z' ↔ z' = z ∧ lo ≤ z ≤ hi.
Proof. unfold checked. destruct (_ && _) eqn:E; bool_to_prop; [naive_solver|]. split; [done|lia]. Qed.
Lemma checked_in lo hi z : lo ≤ z ≤ hi → checked lo hi z = Some z.
Proof. intros H. by apply checked_Some. Qed.
Lemma checked_None lo hi z : checked lo hi z = None ↔ ¬ lo ≤ z ≤ hi.
Proof. unfold checked. destruct (_ && _) eqn:E; bool_to_prop; [split; [done|lia]|]. split; [lia|done]. Qed.

(** ** Digit lists of amounts *)

Lemma spell_digits ds : all_digits ds → map (λ b, Z_of_byte b - 48) (rev (spell ds)) = ds.
Proof.
  intros H. unfold spell. rewrite <-map_rev, map_map, rev_alt. change (rev_append ?l []) with (reverse l).
  rewrite reverse_involutive. induction H as [|d ds Hd _ IH]; [done|]. cbn [map].
  rewrite IH, digit_byte_Z by done. f_equal. lia.
Qed.

Lemma scaled_digits_spec a shift :
  0 ≤ shift → canonical (scaled_digits a shift) ∧ dval (scaled_digits a shift) = Z.abs a * 10 ^ shift.
Proof.
  intros Hs. unfold scaled_digits.
  destruct (pretty_spell (Z.to_N (Z.abs a))) as (ds & -> & (Hds & Hne & _) & Hv).
  rewrite spell_digits by done.
  destruct (normalize_digits_spec (replicate (Z.to_nat shift) 0 ++ ds)) as (Hc & -> & _).
  - apply Forall_app. split; [|done]. apply Forall_replicate. unfold is_digit. lia.
  - by destruct (replicate _ _), ds.
  - split; [done|]. rewrite dval_app, dval_zeros, length_replicate, Hv, Z2Nat.id, Z2N.id by lia. lia.
Qed.

Lemma add_from_spec n l r c :
  all_digits l → all_digits r → 0 ≤ c ≤ 1 → (length l ≤ n)%nat → (length r ≤ n)%nat →
  all_digits (add_from n l r c) ∧ dval (add_from n l r c) = dval l + dval r + c ∧
  (n ≠ 0%nat → add_from n l r c ≠ []).
Proof.
  revert l r c. induction n as [|n IH]; intros l r c Hl Hr Hc Hln Hrn.
  { destruct l, r; cbn in *; try lia. destruct (0 <? c) eqn:E; bool_to_prop; cbn [dval].
    - split_and!; [|lia|done]. constructor; [unfold is_digit; lia|done].
    - split_and!; [done|lia|done]. }
  cbn [add_from]. set (sum := hd 0 l + hd 0 r + c).
  assert (∀ k, all_digits k → (length k ≤ S n)%nat →
    is_digit (hd 0 k) ∧ all_digits (tl k) ∧ (length (tl k) ≤ n)%nat ∧ dval k = hd 0 k + 10 * dval (tl k))
    as Hk.
  { intros [|d k] Hd Hlen; cbn in *; [|apply Forall_cons in Hd as [??]; split_and!; [done..|lia|done]].
    split_and!; [unfold is_digit; lia|done|lia|done]. }
  destruct (Hk l Hl Hln) as (Hdl & Hl' & Hln' & El), (Hk r Hr Hrn) as (Hdr & Hr' & Hrn' & Er).
  unfold is_digit in Hdl, Hdr.
  assert (0 ≤ sum / 10 ≤ 1) as Hc' by (split; [apply Z.div_pos|apply Z.lt_succ_r, Z.div_lt_upper_bound]; lia).
  pose proof (Z.mod_pos_bound sum 10). pose proof (Z.div_mod sum 10).
  destruct (IH (tl l) (tl r) (sum / 10) Hl' Hr' Hc' Hln' Hrn') as (Ha & Hv & _).
  split_and!; [|cbn [dval]; lia|done]. constructor; [unfold is_digit; lia|done].
Qed.

Lemma add_digits_spec l r :
  canonical l → canonical r → canonical (add_digits l r) ∧ dval (add_digits l r) = dval l + dval r.
Proof.
  intros (Hl & Hne & _) (Hr & _ & _). unfold add_digits.
  set (n := Nat.max (length l) (length r)).
  destruct (add_from_spec n l r 0) as (Ha & Hv & Hn); [done..|lia|lia|lia|].
  destruct (normalize_digits_spec (add_from n l r 0)) as (Hc & -> & _).
  - done.
  - apply Hn. destruct l; [done|]. cbn in n. lia.
  - split; [done|lia].
Qed.

Lemma subtract_from_spec l r b :
  all_digits l → all_digits r → 0 ≤ b ≤ 1 → dval r + b ≤ dval l →
  (length r ≤ length l)%nat →
  ∃ ds, subtract_from l r b = Some ds ∧ all_digits ds ∧ dval ds = dval l - dval r - b ∧
    length ds = length l.
Proof.
  revert r b. induction l as [|d l IH]; intros r b Hl Hr Hb Hle Hlen.
  { destruct r; [|cbn in Hlen; lia]. cbn in *. assert (b = 0) as -> by lia. by exists []. }
  apply Forall_cons in Hl as [Hd Hl]. cbn [subtract_from].
  assert (is_digit (hd 0 r) ∧ all_digits (tl r) ∧ dval r = hd 0 r + 10 * dval (tl r) ∧
    (length (tl r) ≤ length l)%nat) as (He & Hr' & Er & Hlen').
  { destruct r as [|e r]; cbn in *; [split_and!; [unfold is_digit; lia|done|done|lia]|].
    apply Forall_cons in Hr as [??]. split_and!; [done..|lia]. }
  unfold is_digit in Hd, He. cbn [dval] in Hle. pose proof (dval_nonneg (tl r) Hr').
  destruct (d <? hd 0 r + b) eqn:E; bool_to_prop.
  - rewrite checked_in by range_lia. cbn [mbind option_bind].
    destruct (IH (tl r) 1 Hl Hr') as (ds & -> & Hds & Hv & Hn); [lia|lia|done|].
    eexists (_ :: ds). split; [done|]. split_and!; [constructor; [unfold is_digit; lia|done]|cbn [dval]; rewrite Er; lia|cbn; lia].
  - rewrite checked_in by range_lia. cbn [mbind option_bind].
    destruct (IH (tl r) 0 Hl Hr') as (ds & -> & Hds & Hv & Hn); [lia|lia|done|].
    eexists (_ :: ds). split; [done|]. split_and!; [constructor; [unfold is_digit; lia|done]|cbn [dval]; rewrite Er; lia|cbn; lia].
Qed.

Lemma canonical_length_mono l r : canonical l → canonical r → dval r ≤ dval l → (length r ≤ length l)%nat.
Proof.
  intros Hl Hr Hle. destruct (decide (length r ≤ length l)%nat) as [|Hn]; [done|]. exfalso.
  pose proof (compare_digits_spec l r Hl Hr) as H. unfold compare_digits in H.
  rewrite (proj2 (Nat.compare_lt_iff _ _)) in H by lia. symmetry in H. rewrite Z.compare_lt_iff in H. lia.
Qed.

Lemma subtract_digits_spec l r :
  canonical l → canonical r → dval r ≤ dval l →
  ∃ ds, subtract_digits l r = Some ds ∧ canonical ds ∧ dval ds = dval l - dval r.
Proof.
  intros Hl Hr Hle. unfold subtract_digits.
  destruct (subtract_from_spec l r 0) as (ds & -> & Hds & Hv & Hn);
    [apply Hl|apply Hr|lia|lia|by apply canonical_length_mono|].
  destruct (normalize_digits_spec ds) as (Hc & Hnv & _); [done| |].
  { destruct Hl as (_ & Hne & _). by destruct ds, l. }
  eexists. split; [done|]. split; [done|lia].
Qed.

(** ** Comparison *)

Lemma abs_compare_signed a b p q :
  0 < p → 0 < q → Z.sgn a = Z.sgn b → a ≠ 0 →
  (if Z.sgn a <? 0 then CompOpp (Z.abs a * p ?= Z.abs b * q) else (Z.abs a * p ?= Z.abs b * q))
  = (a * p ?= b * q).
Proof.
  intros Hp Hq Hs Ha. destruct a as [|a|a]; [done| |]; destruct b as [|b|b]; try done.
  cbn [Z.sgn Z.abs]. change (-1 <? 0) with true. cbn iota.
  rewrite <-Z.compare_antisym, <-(Z.compare_opp (Z.neg b * q)), <-!Pos2Z.opp_pos.
  cbn [Z.abs Z.opp]. f_equal; lia.
Qed.

Lemma compare_signed_spec a b s t :
  0 ≤ s → 0 ≤ t → compare_signed a b s t = (a * 10 ^ s ?= b * 10 ^ t).
Proof.
  intros Hs Ht. pose proof (pow10_gt0 s Hs). pose proof (pow10_gt0 t Ht). unfold compare_signed.
  destruct (Z.sgn a =? Z.sgn b) eqn:E; bool_to_prop; cbn [negb].
  - destruct (Z.sgn a =? 0) eqn:E0; bool_to_prop.
    + assert (a = 0) as -> by lia. assert (b = 0) as -> by lia. done.
    + destruct (scaled_digits_spec a s Hs) as [Ca Va], (scaled_digits_spec b t Ht) as [Cb Vb].
      rewrite compare_digits_spec, Va, Vb by done. apply abs_compare_signed; [done..|]. lia.
  - symmetry. destruct (Z.compare_spec (Z.sgn a) (Z.sgn b)) as [|Hl|Hl]; [done| |].
    + apply Z.compare_lt_iff. destruct a, b; cbn in *; lia.
    + apply Z.compare_gt_iff. destruct a, b; cbn in *; lia.
Qed.

Lemma compare_scale c a b : 0 < c → (c * a ?= c * b) = (a ?= b).
Proof. intros Hc. destruct c; try lia. by rewrite <-Zmult_compare_compat_l by done. Qed.

Lemma checked_cmp_spec l r :
  money_ok l → money_ok r → currency l = currency r →
  checked_cmp l r = Some (money_value l ?= money_value r)%Q.
Proof.
  intros [_ [Hl _]] [_ [Hr _]] Hc. unfold checked_cmp, str_eqb. rewrite bool_decide_true by done.
  cbn [negb]. f_equal. rewrite compare_signed_spec by lia. unfold Qcompare, money_value. cbn [Qnum Qden].
  rewrite !QDen_pow10 by done. set (m := Z.min (exponent l) (exponent r)).
  rewrite <-(compare_scale (10 ^ m)) by (apply pow10_gt0; lia).
  rewrite (Z.mul_comm (amount_minor l)), (Z.mul_comm (amount_minor r)), !Z.mul_assoc, <-!Z.pow_add_r by lia.
  rewrite !(Z.mul_comm _ (amount_minor _)). f_equal; do 2 f_equal; lia.
Qed.

(** ** Differences *)

Definition is_i64 (a : Z) : Prop := I64_MIN ≤ a ≤ I64_MAX.

Lemma digits_to_u64_spec ds :
  canonical ds → digits_to_u64 ds = if dval ds <=? U64_MAX then Some (dval ds) else None.
Proof.
  intros (Hd & Hne & _). unfold digits_to_u64. rewrite parse_u64_spell by done. by destruct (_ <=? _).
Qed.

Definition max_magnitude (sign : Z) : Z := if sign <? 0 then I64_MAX + 1 else I64_MAX.

Lemma signed_magnitude_spec sign v :
  sign = 1 ∨ sign = -1 → 0 < v → v ≤ max_magnitude sign →
  signed_magnitude sign v = Some (sign * v) ∧ is_i64 (sign * v).
Proof.
  intros [->| ->] Hv Hm; unfold signed_magnitude, max_magnitude, is_i64, I64_MIN, I64_MAX in *; cbn in Hm |- *.
  - rewrite checked_in by lia. split; [f_equal; lia|lia].
  - destruct (_ =? _) eqn:E; bool_to_prop; [split; [f_equal; lia|lia]|].
    rewrite checked_in by lia. cbn [mbind option_bind]. rewrite checked_in by lia. split; [f_equal; lia|lia].
Qed.

(** What a loop that drops trailing zeros promises for the number [v] at the
    exponent [n]: an amount equal to it, or that no amount is. *)
Definition fit_result (n v : Z) (cur : string) (r : option Money) : Prop :=
  match r with
  | Some m => is_i64 (amount_minor m) ∧ currency m = cur ∧ 0 ≤ exponent m ≤ n ∧
      amount_minor m * 10 ^ (n - exponent m) = v
  | None => ∀ a e, is_i64 a → 0 ≤ e ≤ n → a * 10 ^ (n - e) ≠ v
  end.

Lemma fit_here n v cur : 0 ≤ n → is_i64 v → fit_result n v cur (Some (mk_money v cur n)).
Proof.
  intros Hn Hv. cbn. split_and!; [done..|lia|]. rewrite Z.sub_diag. lia.
Qed.
Lemma fit_drop n v cur r :
  0 ≤ n → ¬ is_i64 (10 * v) → fit_result n v cur r → fit_result (Z.succ n) (10 * v) cur r.
Proof.
  intros Hn Hv. destruct r as [m|]; cbn.
  - intros (Hi & Hc & He & E). split_and!; [done..|lia|lia|].
    rewrite <-E, Z.sub_succ_l, Z.pow_succ_r by lia. lia.
  - intros H a e Ha He E. destruct (decide (e = Z.succ n)) as [->|Hne].
    + rewrite Z.sub_diag, Z.mul_1_r in E. congruence.
    + apply (H a e Ha ltac:(lia)). rewrite Z.sub_succ_l, Z.pow_succ_r in E by lia. lia.
Qed.
Lemma fit_none n v cur :
  ¬ is_i64 v → (n = 0 ∨ v mod 10 ≠ 0) → fit_result n v cur None.
Proof.
  intros Hv Hn a e Ha He E. destruct (decide (e = n)) as [->|Hne].
  - rewrite Z.sub_diag, Z.mul_1_r in E. congruence.
  - destruct Hn as [->|Hm]; [lia|]. apply Hm. rewrite <-E.
    replace (n - e) with (Z.succ (n - e - 1)) by lia. rewrite Z.pow_succ_r by lia.
    replace (a * (10 * 10 ^ (n - e - 1))) with (a * 10 ^ (n - e - 1) * 10) by lia. apply Z_mod_mult.
Qed.

Lemma canonical_normalize_tail d rest :
  canonical (d :: rest) → 10 ≤ dval (d :: rest) →
  canonical (normalize_digits rest) ∧ dval (normalize_digits rest) = dval rest.
Proof.
  intros (Hd & _) Hv. apply Forall_cons in Hd as [Hd Hr].
  destruct (normalize_digits_spec rest Hr) as (Hc & E & _); [|done].
  intros ->. cbn in Hv. unfold is_digit in Hd. lia.
Qed.

Lemma fit_digits_spec n sign ds cur :
  sign = 1 ∨ sign = -1 → canonical ds → 0 < dval ds →
  fit_result (Z.of_nat n) (sign * dval ds) cur (fit_digits n sign (max_magnitude sign) ds cur).
Proof.
  intros Hs. revert ds. induction n as [|n IH]; intros ds Hc Hv;
    cbn [fit_digits]; rewrite digits_to_u64_spec by done.
  all: assert (10 ≤ max_magnitude sign ≤ U64_MAX) as HU
    by (unfold max_magnitude, I64_MAX, U64_MAX; destruct (sign <? 0); lia).
  all: destruct (decide (dval ds ≤ max_magnitude sign)) as [Hfit|Hfit].
  1,3: rewrite (proj2 (Z.leb_le (dval ds) U64_MAX)), (proj2 (Z.leb_le _ _)) by lia;
    destruct (signed_magnitude_spec sign (dval ds)) as [-> Hi]; [done..|]; by apply fit_here; [lia|].
  all: assert (¬ is_i64 (sign * dval ds)) as Hout
    by (unfold max_magnitude, is_i64, I64_MIN, I64_MAX in *; destruct Hs as [->| ->]; cbn in Hfit; lia).
  - destruct (dval ds <=? U64_MAX); [rewrite (proj2 (Z.leb_gt _ _)) by lia|]; (apply fit_none; [done|by left]).
  - destruct ds as [|d rest]; [by destruct Hc as (_ & ? & _)|].
    set (r := if d =? 0 then _ else _).
    assert (fit_result (Z.of_nat (S n)) (sign * dval (d :: rest)) cur r) as Hdrop.
    2: { destruct (dval (d :: rest) <=? U64_MAX); [rewrite (proj2 (Z.leb_gt _ _)) by lia|]; exact Hdrop. }
    destruct (canonical_normalize_tail d rest Hc ltac:(lia)) as [Hc' Hv']. subst r. cbn [dval] in *.
    destruct (d =? 0) eqn:E; bool_to_prop.
    + subst d. rewrite Nat2Z.inj_succ. replace (sign * (0 + 10 * dval rest)) with (10 * (sign * dval rest)) in * by lia.
      apply fit_drop; [lia|done|]. rewrite <-Hv'. apply IH; [done|lia].
    + apply fit_none; [done|]. right. pose proof (Forall_inv (proj1 Hc)) as Hd. unfold is_digit in Hd.
      destruct Hs as [->| ->].
      * rewrite Z.mul_1_l, Z.mul_comm, Z_mod_plus_full, Z.mod_small; lia.
      * intros H0. apply E. apply Z.mod_divide in H0 as [k Hk]; lia.
Qed.

(** A number as a sign and the digits of its magnitude. *)
Definition signed_digits (s : Z) (ds : list Z) (v : Z) : Prop :=
  canonical ds ∧ dval ds = Z.abs v ∧ s = Z.sgn v.

Lemma canonical_0 : canonical [0].
Proof.
  split_and!; [|done|].
  - constructor; [unfold is_digit; lia|done].
  - intros [|? [|]]; done.
Qed.

Lemma signed_sum_spec sl dl vl sr dr vr :
  signed_digits sl dl vl → signed_digits sr dr vr →
  ∃ s ds, signed_sum sl dl sr dr = Some (s, ds) ∧ signed_digits s ds (vl + vr).
Proof.
  intros (Cl & Vl & ->) (Cr & Vr & ->). unfold signed_sum.
  destruct (Z.sgn vl =? 0) eqn:E1; bool_to_prop.
  { exists (Z.sgn vr), dr. assert (vl = 0) as -> by lia. done. }
  destruct (Z.sgn vr =? 0) eqn:E2; bool_to_prop.
  { exists (Z.sgn vl), dl. assert (vr = 0) as -> by lia. by rewrite Z.add_0_r. }
  destruct (Z.sgn vl =? Z.sgn vr) eqn:E3; bool_to_prop.
  { destruct (add_digits_spec dl dr Cl Cr) as [Ca Va]. do 2 eexists. split; [done|].
    split_and!; [done|lia|lia]. }
  rewrite compare_digits_spec by done. destruct (Z.compare_spec (dval dl) (dval dr)) as [E|E|E].
  - do 2 eexists. split; [done|]. split_and!; [apply canonical_0|cbn; lia|lia].
  - destruct (subtract_digits_spec dr dl Cr Cl ltac:(lia)) as (ds & -> & Cd & Vd). cbn [mbind option_bind].
    do 2 eexists. split; [done|]. split_and!; [done|lia|lia].
  - destruct (subtract_digits_spec dl dr Cl Cr ltac:(lia)) as (ds & -> & Cd & Vd). cbn [mbind option_bind].
    do 2 eexists. split; [done|]. split_and!; [done|lia|lia].
Qed.

Lemma digits_to_money_spec s ds v e cur :
  signed_digits s ds v → 0 ≤ e → fit_result e v cur (digits_to_money s ds e cur).
Proof.
  intros (Cd & Vd & ->) He. unfold digits_to_money.
  destruct (normalize_digits_spec ds (proj1 Cd) ltac:(apply Cd)) as (Cn & Vn & _).
  case_bool_decide as E.
  - assert (v = 0) as ->. { rewrite E in Vn. cbn in Vn. lia. }
    apply fit_here; [done|]. unfold is_i64, I64_MIN, I64_MAX. lia.
  - assert (0 < dval (normalize_digits ds)) as Hpos.
    { pose proof (dval_nonneg _ (proj1 Cn)). pose proof (proj1 (canonical_zero _ Cn)).
      destruct (decide (dval (normalize_digits ds) = 0)); [tauto|lia]. }
    pose proof (fit_digits_spec (Z.to_nat e) (Z.sgn v) (normalize_digits ds) cur ltac:(lia) Cn Hpos) as H.
    rewrite Z2Nat.id in H by done. replace (Z.sgn v * dval (normalize_digits ds)) with v in H by lia.
    exact H.
Qed.

(** The numerator of a difference over the larger exponent. *)
Definition difference_at (l r : Money) : Z :=
  let e := Z.max (exponent l) (exponent r) in
  amount_minor l * 10 ^ (e - exponent l) - amount_minor r * 10 ^ (e - exponent r).

Lemma scaled_signed a shift :
  0 ≤ shift → signed_digits (Z.sgn a) (scaled_digits a shift) (a * 10 ^ shift).
Proof.
  intros Hs. destruct (scaled_digits_spec a shift Hs) as [Hc Hv]. pose proof (pow10_gt0 _ Hs).
  split_and!; [done| |].
  - rewrite Hv, Z.abs_mul. lia.
  - rewrite Z.sgn_mul. lia.
Qed.

Lemma checked_difference_fits l r :
  money_ok l → money_ok r → currency l = currency r →
  fit_result (Z.max (exponent l) (exponent r)) (difference_at l r) (currency l) (checked_difference l r).
Proof.
  intros [_ [Hl _]] [_ [Hr _]] Hc. unfold checked_difference, str_eqb. rewrite bool_decide_true by done.
  cbn [negb]. set (e := Z.max _ _).
  assert (signed_digits (- Z.sgn (amount_minor r)) (scaled_digits (amount_minor r) (e - exponent r))
    (- (amount_minor r * 10 ^ (e - exponent r)))) as Hsr.
  { destruct (scaled_signed (amount_minor r) (e - exponent r) ltac:(lia)) as (C & V & S).
    split_and!; [done|lia|lia]. }
  destruct (signed_sum_spec _ _ _ _ _ _ (scaled_signed (amount_minor l) (e - exponent l) ltac:(lia)) Hsr)
    as (s & ds & -> & Hsum).
  cbn [mbind option_bind]. unfold difference_at. fold e. rewrite <-Z.add_opp_r.
  apply digits_to_money_spec; [done|lia].
Qed.

(** Values over a common denominator. *)
Lemma money_value_at m e :
  0 ≤ exponent m ≤ e → (money_value m == Qmake (amount_minor m * 10 ^ (e - exponent m)) (Z.to_pos (10 ^ e)))%Q.
Proof.
  intros He. unfold money_value, Qeq. cbn [Qnum Qden]. rewrite !QDen_pow10 by lia.
  rewrite <-Z.mul_assoc, <-Z.pow_add_r by lia. f_equal. f_equal. lia.
Qed.

Lemma difference_value l r :
  0 ≤ exponent l → 0 ≤ exponent r →
  (money_value l - money_value r ==
     Qmake (difference_at l r) (Z.to_pos (10 ^ Z.max (exponent l) (exponent r))))%Q.
Proof.
  intros Hl Hr. rewrite (money_value_at l (Z.max (exponent l) (exponent r))) by lia.
  rewrite (money_value_at r (Z.max (exponent l) (exponent r))) by lia.
  unfold difference_at. set (e := Z.max _ _). unfold Qminus, Qplus, Qopp, Qeq. cbn [Qnum Qden].
  rewrite Pos2Z.inj_mul. lia.
Qed.

(** No amount of any exponent has a value whose numerator at [n] fits nowhere. *)
Lemma fit_none_value n v cur m :
  0 ≤ n → fit_result n v cur None → money_ok m → ¬ (money_value m == Qmake v (Z.to_pos (10 ^ n)))%Q.
Proof.
  intros Hn H [Ha [He _]] E. unfold money_value, Qeq in E. cbn [Qnum Qden] in E.
  rewrite !QDen_pow10 in E by lia. destruct (decide (exponent m ≤ n)) as [Hle|Hgt].
  - apply (H (amount_minor m) (exponent m) Ha ltac:(lia)).
    replace n with ((n - exponent m) + exponent m) in E at 1 by lia.
    rewrite Z.pow_add_r, Z.mul_assoc in E by lia. apply Z.mul_cancel_r in E; [done|].
    pose proof (pow10_gt0 _ He). lia.
  - replace (exponent m) with ((exponent m - n) + n) in E by lia.
    rewrite Z.pow_add_r, Z.mul_assoc in E by lia.
    apply Z.mul_cancel_r in E; [|pose proof (pow10_gt0 _ Hn); lia].
    apply (H v n); [|lia|by rewrite Z.sub_diag, Z.mul_1_r].
    pose proof (pow10_gt0 (exponent m - n) ltac:(lia)). unfold is_i64, I64_MIN, I64_MAX in *.
    split; nia.
Qed.

(** the difference of two amounts of one currency is exact, whatever their
    exponents, and is refused only when no amount of money equals it; amounts of
    different currencies have no difference. *)
Theorem difference_exact l r :
  money_ok l → money_ok r →
  match checked_difference l r with
  | Some m => currency l = currency r ∧ currency m = currency l ∧ money_ok m ∧
      (money_value m == money_value l - money_value r)%Q
  | None => currency l ≠ currency r ∨
      ∀ m, money_ok m → ¬ (money_value m == money_value l - money_value r)%Q
  end.
Proof.
  intros Hl Hr. destruct (decide (currency l = currency r)) as [Hc|Hc].
  2: { unfold checked_difference, str_eqb. rewrite bool_decide_false by done. by left. }
  pose proof (checked_difference_fits l r Hl Hr Hc) as H. destruct Hl as [_ [Hl Hl']], Hr as [_ [Hr Hr']].
  destruct (checked_difference l r) as [m|].
  - destruct H as (Hi & Hm & He & E). split_and!; [done..| |].
    + split; [done|]. range_lia.
    + rewrite difference_value, <-E, <-money_value_at by lia. done.
  - right. intros m Hm E. rewrite difference_value in E by done. revert E. eapply fit_none_value; [lia|done|done].
Qed.

(** ** Percentages *)

Lemma scale_numerator_spec k t sat n :
  0 < n → 0 < t → 10 * t ≤ U128_MAX →
  match scale_numerator k t sat n with
  | inl r => r = Some sat ∧ t ≤ n * 10 ^ Z.of_nat k
  | inr n' => n' = n * 10 ^ Z.of_nat k
  end.
Proof.
  intros Hn Ht Hmax. revert n Hn. induction k as [|k IH]; intros n Hn; cbn [scale_numerator].
  { change (10 ^ Z.of_nat 0) with 1. lia. }
  rewrite pow10_S. pose proof (pow10_pos k). destruct (t <=? n) eqn:E; bool_to_prop; [split; [done|nia]|].
  rewrite checked_in by lia. specialize (IH (n * 10) ltac:(lia)).
  destruct (scale_numerator _ _ _ _); [destruct IH as [-> ?]; split; [done|]|rewrite IH]; lia.
Qed.

Lemma scale_denominator_spec k n d :
  0 < d → 10 * n ≤ U128_MAX →
  match scale_denominator k n d with
  | inl r => r = Some 0 ∧ n < d * 10 ^ Z.of_nat k
  | inr d' => d' = d * 10 ^ Z.of_nat k
  end.
Proof.
  intros Hd Hmax. revert d Hd. induction k as [|k IH]; intros d Hd; cbn [scale_denominator].
  { change (10 ^ Z.of_nat 0) with 1. lia. }
  rewrite pow10_S. pose proof (pow10_pos k). destruct (n <? d) eqn:E; bool_to_prop; [split; [done|nia]|].
  rewrite checked_in by lia. specialize (IH (d * 10) ltac:(lia)).
  destruct (scale_denominator _ _ _); [destruct IH as [-> ?]; split; [done|]|rewrite IH]; lia.
Qed.

(** The percentage as an [i32]: rounded towards zero and saturated. *)
Definition clamp_i32 (z : Z) : Z := Z.max I32_MIN (Z.min I32_MAX z).

Lemma percent_result_spec (negative : bool) q :
  0 ≤ q → percent_result negative q = Some (clamp_i32 (if negative then - q else q)).
Proof.
  intros Hq. unfold percent_result, percent_limit, clamp_i32, I32_MIN, I32_MAX in *.
  destruct negative; split_match; bool_to_prop.
  - f_equal. lia.
  - split_match; bool_to_prop; [f_equal; lia|]. rewrite checked_in by lia. cbn. f_equal. lia.
  - f_equal. lia.
  - rewrite checked_in by lia. f_equal. lia.
Qed.

Lemma clamp_saturates (negative : bool) q :
  percent_limit negative < q →
  clamp_i32 (if negative then - q else q) = if negative then I32_MIN else I32_MAX.
Proof. unfold clamp_i32, percent_limit, I32_MIN, I32_MAX. destruct negative; lia. Qed.

Lemma quot_sign a b : 0 < b → Z.quot a b = if a <? 0 then - (Z.abs a / b) else Z.abs a / b.
Proof.
  intros Hb. destruct (a <? 0) eqn:E; bool_to_prop.
  - rewrite <-(Z.opp_involutive a) at 1. rewrite Z.quot_opp_l, Z.quot_div_nonneg by lia.
    by rewrite Z.abs_neq by lia.
  - rewrite Z.quot_div_nonneg, Z.abs_eq by lia. done.
Qed.

(** The quotient over the smaller of the two scalings. *)
Lemma percent_quotient up uq n d :
  0 ≤ up → 0 ≤ uq → 0 < d → 0 ≤ n →
  n * 10 ^ up / (d * 10 ^ uq) =
  if uq <=? up then n * 10 ^ (up - uq) / d else n / (d * 10 ^ (uq - up)).
Proof.
  intros Hup Huq Hd Hn. pose proof (pow10_gt0 up Hup). pose proof (pow10_gt0 uq Huq).
  destruct (uq <=? up) eqn:E; bool_to_prop.
  - replace up with ((up - uq) + uq) at 1 by lia. rewrite Z.pow_add_r, Z.mul_assoc by lia.
    rewrite Z.div_mul_cancel_r by lia. done.
  - replace uq with ((uq - up) + up) at 1 by lia. rewrite Z.pow_add_r, (Z.mul_assoc d) by lia.
    pose proof (pow10_gt0 (uq - up) ltac:(lia)). rewrite Z.div_mul_cancel_r by nia. done.
Qed.

Lemma raw_percent_of_spec u c :
  money_ok u → money_ok c → currency u = currency c → 0 < amount_minor c →
  raw_percent_of u c =
    Some (clamp_i32 (Z.quot (100 * amount_minor u * 10 ^ exponent c) (amount_minor c * 10 ^ exponent u))).
Proof.
  intros [Hu [Heu _]] [Hc [Hec _]] Hcur Hpos. unfold raw_percent_of, str_eqb.
  rewrite bool_decide_true, (proj2 (Z.leb_gt _ _)) by done. cbn [negb orb].
  pose proof (pow10_gt0 _ Heu) as Pu. pose proof (pow10_gt0 _ Hec) as Pc.
  destruct (amount_minor u =? 0) eqn:E0; bool_to_prop.
  { rewrite E0. rewrite Z.mul_0_r, Z.mul_0_l, Z.quot_0_l by nia. done. }
  rewrite checked_in by (unfold I64_MAX, U128_MAX in *; lia). cbn [mbind option_bind].
  set (a := amount_minor u) in *. set (d := amount_minor c) in *. set (neg := a <? 0).
  rewrite quot_sign by nia.
  replace (100 * a * 10 ^ exponent c <? 0) with neg
    by (subst neg; destruct (Z.ltb_spec a 0); symmetry; [apply Z.ltb_lt|apply Z.ltb_ge]; nia).
  replace (Z.abs (100 * a * 10 ^ exponent c)) with (Z.abs a * 100 * 10 ^ exponent c)
    by (rewrite !Z.abs_mul, (Z.abs_eq (10 ^ _)) by lia; lia).
  rewrite percent_quotient by lia. replace (0 <=? exponent c - exponent u) with (exponent u <=? exponent c)
    by (destruct (Z.leb_spec (exponent u) (exponent c)); symmetry; [apply Z.leb_le|apply Z.leb_gt]; lia).
  set (n := Z.abs a * 100). assert (0 < n ≤ 922337203685477580800) as Hn
    by (unfold n, I64_MIN, I64_MAX in *; lia).
  destruct (exponent u <=? exponent c) eqn:E; bool_to_prop.
  - assert (0 < percent_limit neg + 1 ≤ 2147483649) as Hlim
      by (unfold percent_limit, I32_MIN, I32_MAX; destruct neg; lia).
    rewrite checked_in by (unfold I64_MAX, U128_MAX in *; nia). cbn [mbind option_bind].
    pose proof (scale_numerator_spec (Z.to_nat (exponent c - exponent u)) (d * (percent_limit neg + 1))
      (if neg then I32_MIN else I32_MAX) n ltac:(lia) ltac:(nia)
      ltac:(unfold I64_MAX, U128_MAX in *; nia)) as H.
    rewrite Z2Nat.id in H by lia. destruct (scale_numerator _ _ _ _) as [r|n'].
    + destruct H as [-> H]. f_equal. rewrite clamp_saturates; [done|].
      apply Z.lt_le_trans with (percent_limit neg + 1); [lia|]. apply Z.div_le_lower_bound; lia.
    + rewrite H. apply percent_result_spec, Z.div_pos; [|lia].
      pose proof (pow10_gt0 (exponent c - exponent u) ltac:(lia)). lia.
  - pose proof (scale_denominator_spec (Z.to_nat (- (exponent c - exponent u))) n d ltac:(lia)
      ltac:(unfold U128_MAX; lia)) as H.
    rewrite Z2Nat.id in H by lia. replace (- (exponent c - exponent u)) with (exponent u - exponent c) in * by lia.
    destruct (scale_denominator _ _ _) as [r|d'].
    + destruct H as [-> H]. f_equal. rewrite Z.div_small by lia. by destruct neg.
    + rewrite H. apply percent_result_spec, Z.div_pos; [lia|].
      pose proof (pow10_gt0 (exponent u - exponent c) ltac:(lia)). nia.
Qed.

(** ** The state of a spend quota *)

Lemma quot_ge a b k : 0 < b → 0 < k → k ≤ Z.quot a b ↔ k * b ≤ a.
Proof.
  intros Hb Hk. rewrite quot_sign by done. destruct (a <? 0) eqn:E; bool_to_prop.
  - pose proof (Z.div_pos (Z.abs a) b ltac:(lia) Hb). split; nia.
  - rewrite Z.abs_eq by done. split; intros H.
    + pose proof (Z.mul_div_le a b Hb). nia.
    + apply Z.div_le_lower_bound; lia.
Qed.

(** a spend quota with a limit in the currency of the spend is exhausted exactly
    when the spend has reached the limit, in the warning state exactly from four
    fifths of the limit on, and available below; the decision is exact for every
    combination of exponents, with no rounding and no overflow. *)
Theorem spend_state_exact used limit :
  money_ok used → money_ok limit → currency used = currency limit → 0 < amount_minor limit →
  spend_ratio_state used limit =
    if Qle_bool (money_value limit) (money_value used) then UsageQuotaStateV1.Exhausted
    else if Qle_bool ((4 # 5) * money_value limit) (money_value used) then UsageQuotaStateV1.Warning
    else UsageQuotaStateV1.Available.
Proof.
  intros Hu Hl Hcur Hpos. unfold spend_ratio_state. rewrite (proj2 (Z.leb_gt _ _)) by done.
  rewrite checked_cmp_spec, raw_percent_of_spec by done.
  destruct (Qcompare_spec (money_value used) (money_value limit)) as [E|E|E].
  - by rewrite (proj2 (Qle_bool_iff _ _)) by (rewrite E; apply Qle_refl).
  - destruct (Qle_bool (money_value limit) _) eqn:Eb.
    { apply Qle_bool_iff, Qle_not_lt in Eb. done. }
    set (q := Z.quot _ _).
    assert (80 ≤ clamp_i32 q ↔ 80 ≤ q) as Hq by (unfold clamp_i32, I32_MIN, I32_MAX; lia).
    destruct Hu as [_ [Hu _]], Hl as [_ [Hl _]]. pose proof (pow10_gt0 _ Hu). pose proof (pow10_gt0 _ Hl).
    assert (80 ≤ q ↔ (4 # 5) * money_value limit <= money_value used)%Q as Hw.
    { unfold q. rewrite quot_ge by nia. unfold money_value, Qmult, Qle. cbn [Qnum Qden].
      rewrite Pos2Z.inj_mul, !QDen_pow10 by done. split; nia. }
    destruct (Qle_bool ((4 # 5) * _) _) eqn:Ew.
    + apply Qle_bool_iff, Hw, Hq in Ew. by rewrite (proj2 (Z.leb_le _ _)).
    + rewrite (proj2 (Z.leb_gt _ _)); [done|]. apply Z.nle_gt. intros H80.
      apply Hq, Hw, Qle_bool_iff in H80. congruence.
  - by rewrite (proj2 (Qle_bool_iff _ _)) by (by apply Qlt_le_weak).
Qed.

Lemma spend_state_exact_witness :
  spend_ratio_state (mk_money 800 "USD" 3) (mk_money 1 "USD" 0) = UsageQuotaStateV1.Warning.
Proof.
  rewrite (spend_state_exact (mk_money 800 "USD" 3) (mk_money 1 "USD" 0)); [done| | |done|done];
    (split; [cbn; unfold I64_MIN, I64_MAX; lia|cbn; range_lia]).
Defined.

Lemma difference_exact_witness :
  ∃ m, checked_difference (mk_money 1 "USD" 0) (mk_money 25 "USD" 2) = Some m ∧
    (money_value m == money_value (mk_money 1 "USD" 0) - money_value (mk_money 25 "USD" 2))%Q.
Proof.
  assert (checked_difference (mk_money 1 "USD" 0) (mk_money 25 "USD" 2) = Some (mk_money 75 "USD" 2)) as E
    by (by vm_compute).
  eexists. split; [exact E|].
  pose proof (difference_exact (mk_money 1 "USD" 0) (mk_money 25 "USD" 2)) as H. rewrite E in H.
  apply H; (split; [cbn; unfold I64_MIN, I64_MAX; lia|cbn; range_lia]).
Defined.
