(* ===== verification/MoneyText.v ===== *)
(** * The roundings of an amount

    [format_compact] prints an amount rounded half to even, [major_amount] rounds
    half away from zero: both against a definition on integers. *)

From stdpp Require Import base list strings pretty.
From Stdlib Require Import ZArith Lia Bool Strings.Byte.
From S2P Require Import Prelude Digits Money MoneyProofs.

(** ** Canonical digits are unique *)

Lemma lex_compare_eq l r : lex_compare l r = Eq → l = r.
Proof.
  revert r. induction l as [|a l IH]; intros [|b r]; cbn; try done.
  destruct (Z.compare_spec a b) as [->| |]; try done. intros H. f_equal. by apply IH.
Qed.

Lemma canonical_inj l r : canonical l → canonical r → dval l = dval r → l = r.
Proof.
  intros Hl Hr E. pose proof (compare_digits_spec l r Hl Hr) as H. rewrite E, Z.compare_refl in H.
  unfold compare_digits in H. destruct (Nat.compare _ _) eqn:C; try done.
  apply lex_compare_eq in H. by apply (inj reverse).
Qed.

Lemma pretty_canonical ds : canonical ds → of_bytes (spell ds) = pretty (Z.to_N (dval ds)).
Proof.
  intros Hc. destruct (pretty_spell (Z.to_N (dval ds))) as (ks & E & Hk & Hv).
  rewrite Z2N.id in Hv by (apply dval_nonneg, Hc).
  pose proof (canonical_inj ks ds Hk Hc Hv) as ->. by rewrite <-E, of_as_bytes.
Qed.

(** ** Adding one *)

Lemma carry_digits_spec ds :
  all_digits ds →
  ∃ ks c, carry_digits (map digit_byte ds) = (map digit_byte ks, c) ∧ all_digits ks ∧
    length ks = length ds ∧ dval ks + (if c : bool then 10 ^ Z.of_nat (length ds) else 0) = dval ds + 1.
Proof.
  induction 1 as [|d ds Hd Hds IH]; [by exists [], true|]. cbn [map carry_digits].
  unfold byte_is. rewrite digit_byte_Z by done. unfold is_digit in Hd.
  destruct (48 + d =? 57) eqn:E; bool_to_prop.
  - destruct IH as (ks & c & -> & Hk & Hlen & Hv). exists (0 :: ks), c. split_and!; [done| |cbn; lia|].
    + constructor; [unfold is_digit; lia|done].
    + cbn [dval length]. rewrite pow10_S. destruct c; lia.
  - exists (d + 1 :: ds), false. split_and!.
    + f_equal. cbn [map]. f_equal. unfold digit_byte. f_equal. lia.
    + constructor; [unfold is_digit; lia|done].
    + done.
    + cbn [dval]. lia.
Qed.

Lemma rev_spell ds : rev (spell ds) = map digit_byte ds.
Proof.
  unfold spell. rewrite <-map_rev, rev_alt. change (rev_append ?l []) with (reverse l).
  by rewrite reverse_involutive.
Qed.
Lemma rev_map_digits ds : rev (map digit_byte ds) = spell ds.
Proof. by rewrite <-rev_spell, rev_involutive. Qed.

Lemma increment_spec ds :
  canonical ds → ∃ ks, increment (spell ds) = spell ks ∧ canonical ks ∧ dval ks = dval ds + 1.
Proof.
  intros Hc. unfold increment. rewrite rev_spell.
  destruct (carry_digits_spec ds (proj1 Hc)) as (ks & c & -> & Hk & Hlen & Hv). destruct c.
  - exists (ks ++ [1]). split_and!.
    + rewrite rev_map_digits. unfold spell. by rewrite reverse_app.
    + split_and!.
      * apply Forall_app. split; [done|]. constructor; [unfold is_digit; lia|done].
      * by destruct ks.
      * intros k E. by apply app_inj_tail in E as [_ E].
    + rewrite dval_snoc. rewrite Hlen. lia.
  - exists ks. rewrite rev_map_digits. split_and!; [done| |lia]. split_and!; [done| |].
    + intros ->. destruct Hc as (_ & Hne & _). by destruct ds.
    + intros k ->. rewrite length_app in Hlen. cbn in Hlen. destruct k as [|d k]; [done|]. exfalso.
      pose proof (canonical_lower ds Hc ltac:(cbn in Hlen; lia)) as Hlow.
      apply Forall_app in Hk as [Hk _]. pose proof (dval_bound _ Hk) as Hb. rewrite dval_snoc in Hv.
      replace (pred (length ds)) with (length (d :: k)) in Hlow by lia. lia.
Qed.

(** ** Half to even *)

Definition past_half (v d : Z) : bool :=
  (d <? 2 * (v mod d)) || ((2 * (v mod d) =? d) && Z.odd (v / d)).
Definition half_even (v d : Z) : Z := if past_half v d then v / d + 1 else v / d.
Definition half_up (v d : Z) : Z :=
  let q := v / d in if d <=? 2 * (v mod d) then q + 1 else q.

Lemma spell_take p ds : drop (length ds - p) (spell ds) = spell (take p ds).
Proof.
  unfold spell. rewrite skipn_map. f_equal.
  rewrite <-(take_drop p ds) at 2. rewrite reverse_app. apply drop_app_length'.
  by rewrite length_reverse, length_drop.
Qed.
Lemma spell_drop p ds : take (length ds - p) (spell ds) = spell (drop p ds).
Proof.
  unfold spell. rewrite firstn_map. f_equal.
  rewrite <-(take_drop p ds) at 2. rewrite reverse_app. apply take_app_length'.
  by rewrite length_reverse, length_drop.
Qed.
Lemma length_spell ds : length (spell ds) = length ds.
Proof. unfold spell. by rewrite length_map, length_reverse. Qed.

Lemma existsb_nonzero ds :
  all_digits ds → existsb (λ b, negb (byte_is 48 b)) (spell ds) = negb (dval ds =? 0).
Proof.
  intros H. unfold spell. induction H as [|d ds Hd Hds IH]; [done|].
  rewrite reverse_cons, map_app, existsb_app, IH. cbn [map existsb dval].
  unfold byte_is. rewrite digit_byte_Z by done. pose proof (dval_nonneg ds Hds). unfold is_digit in Hd.
  destruct (Z.eqb_spec (dval ds) 0), (Z.eqb_spec (48 + d) 48), (Z.eqb_spec (d + 10 * dval ds) 0); cbn; lia || done.
Qed.

Lemma odd_first d ds : is_digit d → (d mod 2 =? 1) = Z.odd (dval (d :: ds)).
Proof.
  intros Hd. cbn [dval]. rewrite Z.odd_add, Z.odd_mul. change (Z.odd 10) with false. cbn [andb].
  rewrite xorb_false_r. rewrite Zmod_odd. by destruct (Z.odd d).
Qed.

Lemma take_digits p ds : all_digits ds → all_digits (take p ds).
Proof. apply Forall_take. Qed.

Lemma round_up_spec p ds hs :
  all_digits ds → all_digits hs → hs ≠ [] → (1 ≤ p ≤ length ds)%nat →
  let f := dval (take p ds) in
  round_up p (spell ds) (spell hs) =
    (10 ^ Z.of_nat p <? 2 * f) || ((2 * f =? 10 ^ Z.of_nat p) && Z.odd (dval hs)).
Proof.
  intros Hds Hhs Hne Hp. cbn zeta. unfold round_up. rewrite length_spell.
  rewrite (proj2 (Nat.eqb_neq _ _)), (proj2 (Nat.ltb_ge _ _)) by lia. cbn [orb]. rewrite spell_take.
  assert (length (take p ds) = p) as Hlen by (rewrite length_take; lia).
  pose proof (take_digits p _ Hds) as Hfs. revert Hlen Hfs. generalize (take p ds) as fs. intros fs Hlen Hfs.
  destruct fs as [|t fs _] using rev_ind; [cbn in Hlen; lia|]. rewrite length_app, Nat.add_1_r in Hlen.
  apply Forall_app in Hfs as [Hfs Ht]. rewrite Forall_singleton in Ht. unfold spell at 1.
  rewrite reverse_app. cbn [reverse rev_append app map]. fold (spell fs). unfold byte_is at 1.
  rewrite digit_byte_Z, existsb_nonzero, rev_spell by done.
  destruct hs as [|h hs]; [done|]. cbn [map]. apply Forall_cons in Hhs as [Hh _].
  rewrite digit_byte_Z by done. replace (48 + h - 48) with h by lia. rewrite (odd_first h hs) by done.
  rewrite dval_snoc, <-Hlen, pow10_S. pose proof (dval_bound fs Hfs) as Hb. unfold is_digit in Ht.
  set (P := 10 ^ Z.of_nat (length fs)) in *. set (f := dval fs) in *. set (o := Z.odd _).
  destruct (Z.ltb_spec 53 (48 + t)).
  { rewrite (proj2 (Z.ltb_lt _ _)) by nia. done. }
  destruct (Z.eqb_spec (48 + t) 53) as [E|E].
  - replace t with 5 in * by lia. destruct (Z.eqb_spec f 0) as [E0|E0]; cbn [negb orb].
    + rewrite (proj2 (Z.ltb_ge _ _)), (proj2 (Z.eqb_eq _ _)) by lia. done.
    + rewrite (proj2 (Z.ltb_lt _ _)) by lia. done.
  - rewrite (proj2 (Z.ltb_ge _ _)), (proj2 (Z.eqb_neq _ _)) by nia. done.
Qed.

(** The digits of the whole part, a zero when there are none. *)
Definition whole_digits (p : nat) (ds : list Z) : list Z :=
  match drop p ds with [] => [0] | hs => hs end.

Lemma whole_digits_spec p ds :
  canonical ds →
  canonical (whole_digits p ds) ∧ dval (whole_digits p ds) = dval ds / 10 ^ Z.of_nat p ∧
  dval (take p ds) = dval ds mod 10 ^ Z.of_nat p.
Proof.
  intros (Hd & Hne & Hz). pose proof (dval_bound _ (take_digits p _ Hd)) as Hb.
  assert (10 ^ Z.of_nat (length (take p ds)) ≤ 10 ^ Z.of_nat p) as Hpp
    by (apply Z.pow_le_mono_r; [lia|]; rewrite length_take; lia).
  assert (dval ds = 10 ^ Z.of_nat p * dval (drop p ds) + dval (take p ds)) as Hv.
  { rewrite <-(take_drop p ds) at 1. rewrite dval_app. destruct (decide (p ≤ length ds)%nat).
    - rewrite length_take_le by done. lia.
    - rewrite drop_ge by lia. cbn. lia. }
  split; [|split].
  - unfold whole_digits. destruct (drop p ds) as [|h hs] eqn:E; [apply canonical_0|]. rewrite <-E.
    split_and!; [by apply Forall_drop|congruence|]. intros k Ek.
    assert (ds = (take p ds ++ k) ++ [0]) as E' by (by rewrite <-app_assoc, <-Ek, take_drop).
    apply Hz in E'. by apply app_eq_nil in E' as [_ ->].
  - assert (dval (whole_digits p ds) = dval (drop p ds)) as -> by (unfold whole_digits; by destruct (drop p ds)).
    apply Z.div_unique with (dval (take p ds)); lia.
  - apply Z.mod_unique with (dval (drop p ds)); lia.
Qed.

Lemma round_up_whole p ds :
  canonical ds → round_up p (spell ds) (spell (whole_digits p ds)) = past_half (dval ds) (10 ^ Z.of_nat p).
Proof.
  intros Hc. destruct (whole_digits_spec p ds Hc) as (Hw & Hq & Hr). unfold past_half. rewrite <-Hq, <-Hr.
  destruct (decide (1 ≤ p ≤ length ds)%nat) as [Hp|Hp].
  { apply round_up_spec; [apply Hc|apply Hw|apply Hw|done]. }
  unfold round_up. rewrite length_spell. pose proof (dval_bound _ (take_digits p _ (proj1 Hc))) as Hb.
  destruct (Nat.eqb_spec p 0) as [->|Hp0]; [done|]. rewrite (proj2 (Nat.ltb_lt _ _)) by lia. cbn [orb].
  rewrite length_take_ge in Hb by lia.
  assert (10 * 10 ^ Z.of_nat (length ds) ≤ 10 ^ Z.of_nat p)
    by (rewrite <-pow10_S; apply Z.pow_le_mono_r; lia).
  rewrite (proj2 (Z.ltb_ge _ _)), (proj2 (Z.eqb_neq _ _)) by lia. done.
Qed.

Lemma whole_text p ds :
  match spell (drop p ds) with [] => [zero_char] | _ => spell (drop p ds) end = spell (whole_digits p ds).
Proof.
  unfold whole_digits. destruct (drop p ds) as [|h hs]; [done|].
  destruct (spell (h :: hs)) eqn:E; [|done]. apply (f_equal length) in E. by rewrite length_spell in E.
Qed.

Definition sign_text (m : Money) : string := if amount_minor m <? 0 then "-" else "".

Lemma rounded_major_spec m :
  money_ok m →
  rounded_major m =
    sign_text m +:+ pretty (Z.to_N (half_even (Z.abs (amount_minor m)) (10 ^ exponent m))).
Proof.
  intros [_ [He _]]. unfold rounded_major, magnitude_text.
  destruct (pretty_spell (Z.to_N (Z.abs (amount_minor m)))) as (ds & -> & Hc & Hv).
  rewrite Z2N.id in Hv by lia. rewrite <-Hv. set (p := Z.to_nat (exponent m)).
  replace (exponent m) with (Z.of_nat p) by lia. rewrite length_spell, spell_drop, whole_text, round_up_whole by done.
  destruct (whole_digits_spec p ds Hc) as (Hw & Hq & _).
  set (text := if past_half _ _ then _ else _).
  assert (of_bytes text = pretty (Z.to_N (half_even (dval ds) (10 ^ Z.of_nat p)))) as ->.
  { subst text. unfold half_even. rewrite <-Hq. destruct (past_half _ _); [|by apply pretty_canonical].
    destruct (increment_spec _ Hw) as (ks & -> & Hk & <-). by apply pretty_canonical. }
  unfold sign_text. by destruct (amount_minor m <? 0).
Qed.

Lemma major_amount_spec m :
  money_ok m →
  major_amount m = Z.sgn (amount_minor m) * half_up (Z.abs (amount_minor m)) (10 ^ exponent m).
Proof.
  intros [Ha [He _]]. unfold major_amount, half_up, I64_MIN, I64_MAX in *.
  destruct (exponent m =? 0) eqn:E0; bool_to_prop.
  { rewrite E0, Z.div_1_r, Z.mod_1_r, Z.mul_comm. symmetry. apply Z.abs_sgn. }
  destruct (20 <=? exponent m) eqn:E20; bool_to_prop.
  { assert (10 ^ 20 ≤ 10 ^ exponent m) by (apply Z.pow_le_mono_r; lia).
    rewrite Z.div_small, Z.mod_small by lia. rewrite (proj2 (Z.leb_gt _ _)) by lia. lia. }
  pose proof (pow10_gt0 _ He) as Hd.
  assert (10 ^ exponent m = 2 * (10 ^ exponent m / 2)) as Heven.
  { replace (exponent m) with (Z.succ (exponent m - 1)) by lia. rewrite Z.pow_succ_r by lia.
    replace (10 * 10 ^ (exponent m - 1)) with (5 * 10 ^ (exponent m - 1) * 2) by lia.
    rewrite Z.div_mul by done. lia. }
  set (d := 10 ^ exponent m) in *. set (v := Z.abs (amount_minor m)).
  replace (d / 2 <=? v mod d) with (d <=? 2 * (v mod d))
    by (destruct (Z.leb_spec d (2 * (v mod d))); symmetry; [apply Z.leb_le|apply Z.leb_gt]; lia).
  assert (10 ≤ d). { change 10 with (10 ^ 1). apply Z.pow_le_mono_r; lia. }
  assert (0 ≤ v / d ≤ 1000000000000000000) as Hq.
  { split; [apply Z.div_pos; lia|]. apply Z.div_le_upper_bound; lia. }
  set (q := if d <=? 2 * (v mod d) then _ else _). assert (0 ≤ q ≤ 1000000000000000001) as Hq'
    by (subst q; destruct (d <=? _); lia).
  rewrite checked_in by lia. cbn [default]. unfold id. destruct (amount_minor m <? 0) eqn:Es; bool_to_prop.
  - rewrite Z.sgn_neg by done. lia.
  - destruct (decide (amount_minor m = 0)) as [E|E].
    + subst q v. rewrite E. cbn [Z.abs Z.sgn]. rewrite Z.mod_0_l, Z.div_0_l by lia.
      by rewrite (proj2 (Z.leb_gt _ _)) by lia.
    + rewrite Z.sgn_pos by lia. lia.
Qed.

(** the two roundings of an amount, the text of [format_compact] (half to even)
    and the number of [major_amount] (half away from zero), show the same number
    exactly when the amount is not half way above an even number of major units. *)
Theorem roundings_agree m :
  money_ok m → 0 ≤ amount_minor m →
  let d := 10 ^ exponent m in
  rounded_major m = pretty (Z.to_N (major_amount m)) ↔
  ¬ (2 * (amount_minor m mod d) = d ∧ Z.even (amount_minor m / d) = true).
Proof.
  intros Hok Hnn. cbn zeta. rewrite rounded_major_spec, major_amount_spec by done. unfold sign_text.
  rewrite (proj2 (Z.ltb_ge _ _)), Z.abs_eq by done. set (a := amount_minor m) in *.
  pose proof (pow10_gt0 (exponent m) ltac:(apply Hok)) as Hd. set (d := 10 ^ exponent m) in *.
  assert (Z.sgn a * half_up a d = half_up a d) as ->.
  { destruct (decide (a = 0)) as [->|]; [|rewrite Z.sgn_pos by lia; lia].
    unfold half_up. rewrite Z.mod_0_l, Z.div_0_l by lia. by rewrite (proj2 (Z.leb_gt _ _)) by lia. }
  pose proof (Z.div_pos a d Hnn Hd). pose proof (Z.mod_pos_bound a d Hd).
  assert (0 ≤ half_even a d ∧ 0 ≤ half_up a d) as [He Hu]
    by (unfold half_even, half_up; split; split_match; lia).
  change ("" +:+ ?s) with s. transitivity (half_even a d = half_up a d).
  { split; [|by intros ->]. intros E. apply (inj pretty) in E. lia. }
  unfold half_even, past_half, half_up. rewrite <-Z.negb_odd.
  destruct (Z.ltb_spec d (2 * (a mod d))), (Z.eqb_spec (2 * (a mod d)) d), (Z.leb_spec d (2 * (a mod d))), (Z.odd (a / d));
    cbn; try lia; naive_solver lia.
Qed.

Lemma roundings_agree_witness :
  rounded_major (mk_money 50 "USD" 2) ≠ pretty (Z.to_N (major_amount (mk_money 50 "USD" 2))).
Proof.
  intros E. apply (roundings_agree (mk_money 50 "USD" 2)) in E.
  - apply E. done.
  - split; [cbn; unfold I64_MIN, I64_MAX; lia|cbn; range_lia].
  - done.
Defined.
