(* ===== verification/OpenRouter.v ===== *)
(** * Spend reported as decimal text

    [jackin-usage-provider-openrouter/src/money.rs] reads the JSON numbers of a
    provider into a fixed array of decimal digits, adds and subtracts them without
    rounding and turns the result into [Money]; [parse.rs] picks the numbers that
    make up a spend.  A JSON value is its text, as [RawValue::get] gives it. *)

From stdpp Require Import base list gmap strings pretty.
From Stdlib Require Import ZArith Lia Bool Strings.Byte.
From S2P Require Import Prelude OrderedMap Digits Money.

Definition MAX_DIGITS : nat := 288.
Definition MAX_SCALE : Z := 255.
Definition USIZE_MAX : Z := U64_MAX.
Abbreviation checked_usize := (checked 0 USIZE_MAX).

(** An array of [MAX_DIGITS] digits, least significant first, of which [len] are in
    use. *)
Record Decimal := mk_decimal { negative : bool; digits : list Z; len : nat; scale : Z }.

Definition no_digits : list Z := replicate MAX_DIGITS 0.
Definition zero (scale : Z) : Decimal := mk_decimal false no_digits 1 scale.

Definition digit_at (ds : list Z) (i : nat) : Z := default 0 (ds !! i).

(** ** Reading a number *)

Definition push_digit (ds : list Z) (len : nat) (digit : Z) : option (list Z * nat) :=
  if Nat.eqb len MAX_DIGITS then None else Some (<[len:=digit]> ds, S len).

(** [n] zeros, as [flush_pending_zeros] and [adjust_mantissa_scale] push them. *)
Fixpoint push_zeros (n : nat) (ds : list Z) (len : nat) : option (list Z * nat) :=
  match n with
  | O => Some (ds, len)
  | S n => '(ds, len) ← push_digit ds len 0; push_zeros n ds len
  end.

Record ParsedMantissa := mk_mantissa {
  big_endian : list Z;
  m_len : nat;
  pending_zeros : Z;
  fractional_digits : Z;
  m_index : nat;
  saw_digit : bool
}.

Definition parse_sign (bs : bytes) : option (bool * nat) :=
  match bs with
  | [] => None
  | b :: _ =>
      if byte_is 45 b then Some (true, 1%nat)
      else if byte_is 43 b then None
      else Some (false, 0%nat)
  end.

Definition is_e (b : byte) : bool := byte_is 101 b || byte_is 69 b.

(** The loop over the bytes that are left. *)
Fixpoint mantissa_loop (rest : bytes) (after_decimal : bool) (m : ParsedMantissa)
    : option ParsedMantissa :=
  match rest with
  | [] => Some m
  | b :: rest =>
      if between 48 57 (Z_of_byte b) then
        fractional ← (if after_decimal then checked_i64 (fractional_digits m + 1)
                      else Some (fractional_digits m));
        let digit := Z_of_byte b - 48 in
        if Nat.eqb (m_len m) 0 && (digit =? 0) then
          mantissa_loop rest after_decimal
            (mk_mantissa (big_endian m) (m_len m) (pending_zeros m) fractional (S (m_index m)) true)
        else if digit =? 0 then
          pending ← checked_usize (pending_zeros m + 1);
          mantissa_loop rest after_decimal
            (mk_mantissa (big_endian m) (m_len m) pending fractional (S (m_index m)) true)
        else
          '(ds, len) ← push_zeros (Z.to_nat (pending_zeros m)) (big_endian m) (m_len m);
          '(ds, len) ← push_digit ds len digit;
          mantissa_loop rest after_decimal
            (mk_mantissa ds len 0 fractional (S (m_index m)) true)
      else if byte_is 46 b && negb after_decimal then
        mantissa_loop rest true
          (mk_mantissa (big_endian m) (m_len m) (pending_zeros m) (fractional_digits m)
             (S (m_index m)) (saw_digit m))
      else if is_e b then Some m
      else None
  end.
Definition parse_mantissa (bs : bytes) (index : nat) : option ParsedMantissa :=
  mantissa_loop (drop index bs) false (mk_mantissa no_digits 0 0 0 index false).

Fixpoint exponent_loop (rest : bytes) (exponent : Z) (found : bool) : option (Z * bool) :=
  match rest with
  | [] => Some (exponent, found)
  | b :: rest =>
      if negb (between 48 57 (Z_of_byte b)) then None
      else
        exponent ← checked_i64 (exponent * 10);
        exponent ← checked_i64 (exponent + (Z_of_byte b - 48));
        exponent_loop rest exponent true
  end.
Definition parse_exponent (bs : bytes) (index : nat) : option Z :=
  b ← bs !! index;
  let '(negative, index) :=
    if byte_is 45 b then (true, S index) else if byte_is 43 b then (false, S index) else (false, index) in
  '(exponent, found) ← exponent_loop (drop index bs) 0 false;
  if negb found then None
  else if negative : bool then checked_i64 (- exponent) else Some exponent.

Definition parse_exponent_or_zero (bs : bytes) (index : nat) : option Z :=
  match bs !! index with
  | Some b => if is_e b then parse_exponent bs (S index) else None
  | None => if Nat.eqb index (length bs) then Some 0 else None
  end.

(** The scale of the mantissa; zeros are appended for a negative one.  The loop
    fails once the array is full, so it runs at most one step more than the array
    has places. *)
Definition adjust_mantissa_scale (fractional_digits exponent pending_zeros : Z) (ds : list Z) (len : nat)
    : option (Z * list Z * nat) :=
  pending_zeros ← checked_i64 pending_zeros;
  scale ← checked_i64 (fractional_digits - exponent);
  scale ← checked_i64 (scale - pending_zeros);
  '(scale, ds, len) ←
    (if scale <? 0 then
       append ← checked_i64 (- scale);
       append ← checked_usize append;
       '(ds, len) ← push_zeros (Z.to_nat (Z.min append (Z.of_nat (S MAX_DIGITS)))) ds len;
       Some (0, ds, len)
     else Some (scale, ds, len));
  scale ← checked_usize scale;
  if MAX_SCALE <? scale then None
  else scale ← checked 0 U8_MAX scale; Some (scale, ds, len).

Definition decimal_parse (raw : string) : option Decimal :=
  let bs := as_bytes raw in
  '(negative, index) ← parse_sign bs;
  m ← parse_mantissa bs index;
  if negb (saw_digit m) then None
  else if Nat.eqb (m_len m) 0 then Some (zero 0)
  else
    exponent ← parse_exponent_or_zero bs (m_index m);
    '(scale, be, len) ←
      adjust_mantissa_scale (fractional_digits m) exponent (pending_zeros m) (big_endian m) (m_len m);
    Some (mk_decimal negative (reverse (take len be) ++ replicate (MAX_DIGITS - len) 0) len scale).

Definition is_json_number (raw : string) : bool :=
  match as_bytes raw with
  | b :: _ => byte_is 45 b || between 48 57 (Z_of_byte b)
  | [] => false
  end.

Definition from_raw (raw : string) : option Decimal :=
  if is_json_number raw then decimal_parse raw else None.

(** ** Arithmetic *)

Fixpoint coefficient_loop (big_endian : list Z) (coefficient : Z) : option Z :=
  match big_endian with
  | [] => Some coefficient
  | d :: rest =>
      coefficient ← checked_u128 (coefficient * 10);
      coefficient ← checked_u128 (coefficient + d);
      coefficient_loop rest coefficient
  end.
Fixpoint shift_loop (shift : nat) (coefficient : Z) : option Z :=
  match shift with
  | O => Some coefficient
  | S shift => coefficient ← checked_u128 (coefficient * 10); shift_loop shift coefficient
  end.

Definition money_at_scale (d : Decimal) (to : Z) : option Money :=
  if to <? scale d then None
  else
    let shift := Z.to_nat (to - scale d) in
    if Nat.ltb MAX_DIGITS (len d + shift) then None
    else
      coefficient ← coefficient_loop (reverse (take (len d) (digits d))) 0;
      coefficient ← shift_loop shift coefficient;
      let limit := if negative d then I64_MAX + 1 else I64_MAX in
      if limit <? coefficient then None
      else
        amount ←
          (if negative d then
             if coefficient =? I64_MAX + 1 then Some I64_MIN
             else c ← checked_i64 coefficient; Some (- c)
           else checked_i64 coefficient);
        Some (mk_money amount "USD" to).

Definition or_else {A} (o : option A) (p : option A) : option A :=
  match o with Some a => Some a | None => p end.

Definition to_money (d : Decimal) : option Money :=
  or_else (money_at_scale d (Z.max (scale d) 2)) (money_at_scale d (scale d)).

Definition aligned (d : Decimal) (to : Z) : option Decimal :=
  if to <? scale d then None
  else if forallb (λ x, x =? 0) (take (len d) (digits d)) then Some (zero to)
  else
    let shift := Z.to_nat (to - scale d) in
    let n := (len d + shift)%nat in
    if Nat.ltb MAX_DIGITS n then None
    else Some (mk_decimal (negative d)
                 (replicate shift 0 ++ take (len d) (digits d) ++ replicate (MAX_DIGITS - n) 0) n to).

(** [copy_within(1..len, 0)] *)
Definition shift_down (ds : list Z) (len : nat) : list Z :=
  take (len - 1) (drop 1 ds) ++ drop (len - 1) ds.

Fixpoint normalized_loop (len : nat) (ds : list Z) (scale : Z) : list Z * nat * Z :=
  match len with
  | S (S n as len') =>
      if (0 <? scale) && (digit_at ds 0 =? 0)
      then normalized_loop len' (shift_down ds len) (scale - 1)
      else (ds, len, scale)
  | _ => (ds, len, scale)
  end.
Definition normalized (d : Decimal) : Decimal :=
  let '(ds, len, scale) := normalized_loop (len d) (digits d) (scale d) in
  mk_decimal (negative d) ds len scale.

(** [while len > 1 && digits[len - 1] == 0] *)
Fixpoint trim_len (ds : list Z) (len : nat) : nat :=
  match len with
  | S (S n as len') => if digit_at ds (S n) =? 0 then trim_len ds len' else len
  | _ => len
  end.

(** [compare_magnitude]: the lengths, then the digits from the most significant. *)
Definition compare_magnitude (left right : Decimal) : comparison :=
  compare_digits (take (len left) (digits left)) (take (len right) (digits right)).

(** [for index in 0..left.len] on the array of the minuend. *)
Fixpoint sub_loop (n index : nat) (left right : list Z) (borrow : Z) : option (list Z) :=
  match n with
  | O => Some left
  | S n =>
      let digit := digit_at left index - digit_at right index - borrow in
      let '(digit, borrow) := if digit <? 0 then (digit + 10, 1) else (digit, 0) in
      digit ← checked 0 U8_MAX digit;
      sub_loop n (S index) (<[index:=digit]> left) right borrow
  end.

Definition saturating_sub (d other : Decimal) : option Decimal :=
  if negative d || negative other then None
  else
    let to := Z.max (scale d) (scale other) in
    left ← aligned d to;
    right ← aligned other to;
    match compare_magnitude left right with
    | Lt => Some (zero to)
    | _ =>
        ds ← sub_loop (len left) 0 (digits left) (digits right) 0;
        Some (normalized (mk_decimal false ds (trim_len ds (len left)) to))
    end.

(** ** Sums *)

Record DecimalAccumulator := mk_acc { a_digits : list Z; a_len : nat; a_scale : Z; a_found : bool }.
Definition acc_default : DecimalAccumulator := mk_acc no_digits 0 0 false.

(** [copy_within(0..len, shift)] and [fill(0)] *)
Definition shift_up (ds : list Z) (len shift : nat) : list Z :=
  replicate shift 0 ++ take len ds ++ drop (shift + len) ds.

Fixpoint sum_loop (n index : nat) (ds value : list Z) (value_shift : nat) (carry : Z) : list Z * Z :=
  match n with
  | O => (ds, carry)
  | S n =>
      let right := if Nat.leb value_shift index then digit_at value (index - value_shift) else 0 in
      let sum := digit_at ds index + right + carry in
      sum_loop n (S index) (<[index:=sum mod 10]> ds) value value_shift (sum / 10)
  end.

Definition acc_add (a : DecimalAccumulator) (value : Decimal) : option DecimalAccumulator :=
  if negative value then None
  else if negb (a_found a) then
    Some (mk_acc (take (len value) (digits value) ++ drop (len value) (a_digits a)) (len value)
            (scale value) true)
  else
    let to := Z.max (a_scale a) (scale value) in
    let shift := Z.to_nat (to - a_scale a) in
    let value_shift := Z.to_nat (to - scale value) in
    if Nat.ltb MAX_DIGITS (a_len a + shift) || Nat.ltb MAX_DIGITS (len value + value_shift) then None
    else
      let '(ds, n) :=
        if Nat.ltb 0 shift then (shift_up (a_digits a) (a_len a) shift, (a_len a + shift)%nat)
        else (a_digits a, a_len a) in
      let value_len := (len value + value_shift)%nat in
      let max_len := Nat.max n value_len in
      let '(ds, carry) := sum_loop max_len 0 ds (digits value) value_shift 0 in
      '(ds, n) ←
        (if 0 <? carry then
           if Nat.eqb max_len MAX_DIGITS then None else Some (<[max_len:=carry]> ds, S max_len)
         else Some (ds, max_len));
      Some (mk_acc ds (trim_len ds n) to true).

Definition into_money (a : DecimalAccumulator) : option Money :=
  let '(ds, len, scale) := normalized_loop (a_len a) (a_digits a) (a_scale a) in
  to_money (normalized (mk_decimal false ds len scale)).

(** [is_negative_nonzero_number]: a digit other than zero before the exponent. *)
Fixpoint mantissa_nonzero (bs : bytes) : bool :=
  match bs with
  | [] => false
  | b :: rest =>
      if is_e b then false
      else if between 49 57 (Z_of_byte b) then true
      else mantissa_nonzero rest
  end.
Definition is_negative_nonzero_number (raw : string) : bool :=
  match strip_prefix "-" raw with
  | None => false
  | Some mantissa => mantissa_nonzero (as_bytes mantissa)
  end.

Fixpoint sum_values (values : list string) (a : DecimalAccumulator) (found : bool)
    : option (DecimalAccumulator * bool) :=
  match values with
  | [] => Some (a, found)
  | raw :: values =>
      if negb (is_json_number raw) then sum_values values a found
      else if is_negative_nonzero_number raw then sum_values values a found
      else
        decimal ← decimal_parse raw;
        a ← acc_add a decimal;
        sum_values values a true
  end.
Definition sum_nonnegative (values : list string) : option Money :=
  '(a, found) ← sum_values values acc_default false;
  if found : bool then into_money a else None.

(** ** Text *)

Fixpoint drop_zero_chars (last_first : bytes) : bytes :=
  match last_first with
  | b :: rest => if byte_is 48 b then drop_zero_chars rest else last_first
  | [] => []
  end.

Definition format_money (m : Money) : string :=
  let sign := if amount_minor m <? 0 then "-" else "" in
  let digits := magnitude_text m in
  let scale := Z.to_nat (exponent m) in
  if Nat.eqb scale 0 then "$" +:+ sign +:+ of_bytes digits
  else
    let padded :=
      if Nat.leb (length digits) scale then zeros_text (scale - length digits + 1) ++ digits else digits in
    let split := (length padded - scale)%nat in
    let integer := take split padded in
    let fractional := rev (drop_zero_chars (rev (drop split padded))) in
    match fractional with
    | [] => "$" +:+ sign +:+ of_bytes integer
    | _ =>
        let fractional := fractional ++ zeros_text (2 - length fractional) in
        "$" +:+ sign +:+ of_bytes integer +:+ "." +:+ of_bytes fractional
    end.

(** ** The fields of a key: [parse.rs] *)

Abbreviation RawObject := (gmap string string).

Definition field_decimal (data : RawObject) (field : string) : option Decimal :=
  data !! field ≫= from_raw.

Definition nonnegative_money (d : Decimal) : option Money :=
  if negative d then None
  else
    m ← to_money d;
    if 0 <=? amount_minor m then Some m else None.

Definition openrouter_money_field (data : RawObject) (field : string) : option Money :=
  field_decimal data field ≫= nonnegative_money.

Fixpoint first_money (data : RawObject) (keys : list string) : option Money :=
  match keys with
  | [] => None
  | k :: keys => or_else (openrouter_money_field data k) (first_money data keys)
  end.

Definition is_byok_spend (key : string) : bool :=
  let lower := to_ascii_lowercase key in
  str_contains "byok" lower
  && (str_contains "usage" lower || str_contains "spend" lower || str_contains "cost" lower).

Definition openrouter_byok_spend (data : RawObject) : option Money :=
  or_else
    (first_money data ["byok_usage_monthly"; "byok_usage_weekly"; "byok_usage_daily"; "byok_usage"])
    (sum_nonnegative (filter (λ kv, is_byok_spend kv.1 = true) (btree_iter data)).*2).

Definition openrouter_cap_and_used (cap : Decimal) (cap_default : Money) (remaining : option Decimal)
    : Money * option Money :=
  match remaining with
  | None => (cap_default, None)
  | Some remaining =>
      match saturating_sub cap remaining with
      | None => (cap_default, None)
      | Some used =>
          let to := Z.max (Z.max (scale cap) (scale remaining)) 2 in
          match money_at_scale cap to, money_at_scale used to with
          | Some cap, Some used => (cap, Some used)
          | _, _ => (cap_default, to_money used)
          end
      end
  end.
