(* ===== verification/DecimalProofs.v ===== *)
(** * Decimal text is read exactly

    The numbers of the JSON grammar, the rational each denotes, and the proof that
    [decimal_parse] returns that rational or that it does not fit the array. *)

From stdpp Require Import base list strings pretty.
From Stdlib Require Import ZArith Lia Bool Strings.Byte QArith.
From S2P Require Import Prelude Digits Money MoneyProofs OpenRouter.

#[local] Open Scope Z_scope.

(** ** JSON numbers *)

(** Digits are written most significant first. *)
Definition bval (l : list Z) : Z := dval (reverse l).

Record JsonExponent := mk_jexp { e_upper : bool; e_sign : option bool; e_digits : list Z }.
Record JsonNumber := mk_jnum {
  j_negative : bool;
  j_integer : list Z;
  j_fraction : list Z;
  j_exponent : option JsonExponent
}.

Definition exponent_ok (e : JsonExponent) : Prop := all_digits (e_digits e) ∧ e_digits e ≠ [].
Definition number_ok (n : JsonNumber) : Prop :=
  all_digits (j_integer n) ∧ j_integer n ≠ [] ∧ all_digits (j_fraction n) ∧
  match j_exponent n with Some e => exponent_ok e | None => True end.

Definition exponent_text (e : JsonExponent) : bytes :=
  byte_of_Z (if e_upper e then 69 else 101)
  :: match e_sign e with Some true => [byte_of_Z 45] | Some false => [byte_of_Z 43] | None => [] end
     ++ map digit_byte (e_digits e).
Definition render_tail (n : JsonNumber) : bytes :=
  match j_exponent n with Some e => exponent_text e | None => [] end.
Definition fraction_text (n : JsonNumber) : bytes :=
  match j_fraction n with [] => [] | ds => byte_of_Z 46 :: map digit_byte ds end.
Definition render_bytes (n : JsonNumber) : bytes :=
  (if j_negative n then [byte_of_Z 45] else []) ++
  map digit_byte (j_integer n) ++ fraction_text n ++ render_tail n.
Definition render (n : JsonNumber) : string := of_bytes (render_bytes n).

(** The value: a coefficient and a power of ten. *)
Definition j_coefficient (n : JsonNumber) : Z := bval (j_integer n ++ j_fraction n).
Definition exponent_value (e : JsonExponent) : Z :=
  match e_sign e with Some true => - bval (e_digits e) | _ => bval (e_digits e) end.
Definition j_power (n : JsonNumber) : Z :=
  match j_exponent n with Some e => exponent_value e | None => 0 end - Z.of_nat (length (j_fraction n)).

Definition q10 (c e : Z) : Q :=
  if 0 <=? e then Qmake (c * 10 ^ e) 1 else Qmake c (Z.to_pos (10 ^ (- e))).
Definition signed (negative : bool) (z : Z) : Z := if negative then - z else z.
Definition json_value (n : JsonNumber) : Q := q10 (signed (j_negative n) (j_coefficient n)) (j_power n).

(** A value that some array of digits and some scale hold. *)
Definition representable (q : Q) : Prop :=
  ∃ c s, Z.abs c < 10 ^ Z.of_nat MAX_DIGITS ∧ 0 ≤ s ≤ MAX_SCALE ∧ (q == Qmake c (Z.to_pos (10 ^ s)))%Q.

(** ** Decimals *)

Definition coefficient (d : Decimal) : Z := dval (take (len d) (digits d)).
Definition dec_value (d : Decimal) : Q :=
  Qmake (signed (negative d) (coefficient d)) (Z.to_pos (10 ^ scale d)).

(** The unused places of the array are zero, which the loops over two arrays of
    different lengths rely on. *)
Definition dec_ok (d : Decimal) : Prop :=
  canonical (take (len d) (digits d)) ∧ (len d ≤ MAX_DIGITS)%nat ∧ length (digits d) = MAX_DIGITS ∧
  digits d = take (len d) (digits d) ++ replicate (MAX_DIGITS - len d) 0 ∧ is_u8 (scale d).

(** ** Big-endian values *)

Lemma bval_nil : bval [] = 0.
Proof. done. Qed.
Lemma bval_snoc l d : bval (l ++ [d]) = bval l * 10 + d.
Proof. unfold bval. rewrite reverse_app. cbn [reverse rev_append app dval]. lia. Qed.
Lemma bval_app l k : bval (l ++ k) = bval l * 10 ^ Z.of_nat (length k) + bval k.
Proof. unfold bval. rewrite reverse_app, dval_app, length_reverse. lia. Qed.
Lemma bval_bound l : all_digits l → 0 ≤ bval l < 10 ^ Z.of_nat (length l).
Proof. intros H. unfold bval. rewrite <-(length_reverse l). by apply dval_bound, Forall_reverse. Qed.
Lemma bval_cons d l : bval (d :: l) = d * 10 ^ Z.of_nat (length l) + bval l.
Proof. change (d :: l) with ([d] ++ l). rewrite bval_app. f_equal. f_equal. unfold bval. cbn [reverse rev_append dval]. lia. Qed.

(** ** What does not fit *)

(** Every coefficient of the number is too long, however many zeros it drops. *)
Definition too_long (v : Z) : Prop :=
  0 < v ∧ ∀ w j, 0 ≤ j → v = w * 10 ^ j → 10 ^ Z.of_nat MAX_DIGITS ≤ w.

Lemma too_long_extend c n r :
  c mod 10 ≠ 0 → 10 ^ Z.of_nat MAX_DIGITS ≤ c → 0 ≤ n → 0 ≤ r < 10 ^ n → too_long (c * 10 ^ n + r).
Proof.
  intros Hc Hlong Hn Hr. assert (0 < 10 ^ Z.of_nat MAX_DIGITS) by (apply pow10_pos).
  split; [nia|]. intros w j Hj E.
  destruct (decide (j ≤ n)) as [Hjn|Hjn].
  - replace n with ((n - j) + j) in E by lia. rewrite Z.pow_add_r in E by lia.
    pose proof (pow10_gt0 j Hj). pose proof (pow10_gt0 (n - j) ltac:(lia)).
    assert (c * 10 ^ (n - j) ≤ w) by (apply Z.mul_le_mono_pos_r with (10 ^ j); lia). nia.
  - exfalso. replace j with ((j - n - 1) + 1 + n) in E by lia. rewrite !Z.pow_add_r in E by lia.
    change (10 ^ 1) with 10 in E. pose proof (pow10_gt0 n Hn). set (k := w * 10 ^ (j - n - 1)) in *.
    assert (r = (k * 10 - c) * 10 ^ n) as Er by (subst k; lia).
    assert (k * 10 - c = 0) as E0 by nia. apply Hc. replace c with (k * 10) by lia. apply Z_mod_mult.
Qed.

Lemma q10_eq c e c' s :
  0 ≤ s → (q10 c e == Qmake c' (Z.to_pos (10 ^ s)))%Q →
  ∃ j, 0 ≤ j ∧ ((j = e + s ∧ c' = c * 10 ^ j) ∨ (j = - (e + s) ∧ c = c' * 10 ^ j)).
Proof.
  intros Hs. unfold q10, Qeq. destruct (0 <=? e) eqn:E; bool_to_prop; cbn [Qnum Qden].
  - rewrite QDen_pow10, Z.mul_1_r, <-Z.mul_assoc, <-Z.pow_add_r by lia. intros <-.
    exists (e + s). split; [lia|]. by left.
  - rewrite !QDen_pow10 by lia. intros H. destruct (decide (0 ≤ e + s)) as [Hes|Hes].
    + exists (e + s). split; [done|]. left. split; [done|].
      replace s with ((e + s) + - e) in H by lia. rewrite Z.pow_add_r, Z.mul_assoc in H by lia.
      apply Z.mul_cancel_r in H; [done|]. pose proof (pow10_gt0 (- e) ltac:(lia)). lia.
    + exists (- (e + s)). split; [lia|]. right. split; [done|].
      replace (- e) with (- (e + s) + s) in H by lia. rewrite Z.pow_add_r, Z.mul_assoc in H by lia.
      apply Z.mul_cancel_r in H; [done|]. pose proof (pow10_gt0 s ltac:(lia)). lia.
Qed.

Lemma signed_mul b x y : signed b (x * y) = signed b x * y.
Proof. destruct b; cbn; lia. Qed.
Lemma abs_signed b x : 0 ≤ x → Z.abs (signed b x) = x.
Proof. destruct b; cbn; lia. Qed.

Lemma too_long_unrepresentable b v e : too_long v → ¬ representable (q10 (signed b v) e).
Proof.
  intros [Hv Hl] (c & s & Hc & Hs & E). apply q10_eq in E as (j & Hj & [[_ E]|[_ E]]); [| |lia].
  - pose proof (Hl v 0 ltac:(lia) ltac:(cbn; lia)). pose proof (pow10_gt0 j Hj).
    apply (f_equal Z.abs) in E. rewrite Z.abs_mul, abs_signed in E by lia. nia.
  - apply (f_equal Z.abs) in E. rewrite Z.abs_mul, abs_signed in E by lia.
    rewrite (Z.abs_eq (10 ^ j)) in E by (pose proof (pow10_gt0 j Hj); lia). pose proof (Hl _ _ Hj E). lia.
Qed.

(** A coefficient without trailing zeros has one scale. *)
Lemma unrepresentable b w t :
  w mod 10 ≠ 0 → 0 < w → representable (q10 (signed b w) t) →
  - MAX_SCALE ≤ t ∧ (0 ≤ t → w * 10 ^ t < 10 ^ Z.of_nat MAX_DIGITS).
Proof.
  intros Hw Hpos (c & s & Hc & Hs & E). unfold MAX_SCALE in *.
  apply q10_eq in E as (j & Hj & [[Ej E]|[Ej E]]); [| |lia];
    apply (f_equal Z.abs) in E; rewrite Z.abs_mul, abs_signed in E by lia;
    rewrite (Z.abs_eq (10 ^ j)) in E by (pose proof (pow10_gt0 j Hj); lia).
  - split; [lia|]. intros Ht. rewrite Ej, Z.pow_add_r in E by lia.
    pose proof (pow10_gt0 s ltac:(lia)). pose proof (pow10_gt0 t Ht). nia.
  - destruct (decide (j = 0)) as [->|Hj0].
    + split; [lia|]. intros Ht. replace t with 0 by lia. rewrite E. cbn. lia.
    + exfalso. apply Hw. rewrite E. replace j with (Z.succ (j - 1)) by lia. rewrite Z.pow_succ_r by lia.
      replace (Z.abs c * (10 * 10 ^ (j - 1))) with (Z.abs c * 10 ^ (j - 1) * 10) by lia. apply Z_mod_mult.
Qed.

(** ** The mantissa *)

(** The array after the digits of coefficient [c], [f] of them fractional, of [k]
    bytes: the significant digits without the zeros at either end. *)
Record mantissa_inv (c f k : Z) (m : ParsedMantissa) : Prop := {
  mi_length : length (big_endian m) = MAX_DIGITS;
  mi_len : (m_len m ≤ MAX_DIGITS)%nat;
  mi_digits : all_digits (take (m_len m) (big_endian m));
  mi_value : bval (take (m_len m) (big_endian m)) * 10 ^ pending_zeros m = c;
  mi_pending : 0 ≤ pending_zeros m ≤ k;
  mi_fraction : fractional_digits m = f ∧ 0 ≤ f ≤ k;
  mi_empty : m_len m = 0%nat → pending_zeros m = 0;
  mi_first : m_len m ≠ 0%nat → 10 ^ Z.of_nat (pred (m_len m)) ≤ bval (take (m_len m) (big_endian m));
  mi_last : m_len m ≠ 0%nat → bval (take (m_len m) (big_endian m)) mod 10 ≠ 0
}.

Lemma take_push (be : list Z) len d :
  (len < length be)%nat → take (S len) (<[len:=d]> be) = take len be ++ [d].
Proof.
  intros H. rewrite (take_S_r _ _ d) by (by apply list_lookup_insert_eq). by rewrite take_insert_ge.
Qed.

Lemma push_zeros_spec n be len :
  length be = MAX_DIGITS → (len ≤ MAX_DIGITS)%nat →
  match push_zeros n be len with
  | Some (be', len') => len' = (len + n)%nat ∧ (len' ≤ MAX_DIGITS)%nat ∧ length be' = MAX_DIGITS ∧
      take len' be' = take len be ++ replicate n 0
  | None => (MAX_DIGITS < len + n)%nat
  end.
Proof.
  intros Hbe. revert be len Hbe. induction n as [|n IH]; intros be len Hbe Hlen; cbn [push_zeros].
  { rewrite app_nil_r. split_and!; [lia|done..]. }
  unfold push_digit. destruct (Nat.eqb_spec len MAX_DIGITS) as [E|E]; cbn [mbind option_bind]; [lia|].
  specialize (IH (<[len:=0]> be) (S len) ltac:(by rewrite length_insert) ltac:(lia)).
  destruct (push_zeros n _ _) as [[be' len']|]; [|lia]. destruct IH as (-> & Hle & Hl & Ht).
  split_and!; [lia|done|done|]. rewrite Ht, take_push by lia. by rewrite <-app_assoc.
Qed.

Lemma bval_zeros n : bval (replicate n 0) = 0.
Proof. unfold bval. rewrite reverse_replicate. apply dval_zeros. Qed.

(** A significant digit that still fits. *)
Lemma mantissa_push c f k m be len d f' :
  mantissa_inv c f k m → 0 < d ≤ 9 → 0 ≤ f' ≤ k + 1 →
  push_zeros (Z.to_nat (pending_zeros m)) (big_endian m) (m_len m) = Some (be, len) →
  len ≠ MAX_DIGITS →
  mantissa_inv (c * 10 + d) f' (k + 1)
    (mk_mantissa (<[len:=d]> be) (S len) 0 f' (S (m_index m)) true).
Proof.
  intros [Hlen Hle Hdig Hval Hp _ Hemp Hfst Hlst] Hd Hf Hz Hne.
  pose proof (push_zeros_spec (Z.to_nat (pending_zeros m)) (big_endian m) (m_len m) Hlen Hle) as H.
  rewrite Hz in H. destruct H as (El & Hle' & Hlen' & Ht).
  assert (take (S len) (<[len:=d]> be) = take (m_len m) (big_endian m) ++ replicate (Z.to_nat (pending_zeros m)) 0 ++ [d]) as Et
    by (rewrite take_push by lia; rewrite Ht, <-app_assoc; done).
  assert (bval (take (S len) (<[len:=d]> be)) = c * 10 + d) as Ev.
  { rewrite Et, app_assoc, bval_snoc, bval_app, bval_zeros, length_replicate, Z2Nat.id, Hval by lia. lia. }
  constructor; cbn [big_endian m_len pending_zeros fractional_digits].
  - by rewrite length_insert.
  - lia.
  - rewrite Et. apply Forall_app. split; [done|]. apply Forall_app. split.
    + apply Forall_replicate. unfold is_digit. lia.
    + constructor; [unfold is_digit; lia|done].
  - rewrite Ev. cbn. lia.
  - lia.
  - done.
  - done.
  - intros _. rewrite Ev. cbn [pred]. destruct (decide (m_len m = 0%nat)) as [E0|E0].
    + assert (len = 0%nat) as -> by (rewrite (Hemp E0) in El; cbn in El; lia). cbn.
      pose proof (bval_bound _ Hdig). pose proof (pow10_gt0 (pending_zeros m) ltac:(lia)). nia.
    + specialize (Hfst E0). replace len with (S (pred (m_len m)) + Z.to_nat (pending_zeros m))%nat by lia.
      rewrite Nat2Z.inj_add, Z.pow_add_r, Z2Nat.id, pow10_S by lia.
      pose proof (pow10_gt0 (pending_zeros m) ltac:(lia)). nia.
  - intros _. rewrite Ev. rewrite Z.add_comm, Z.mod_add, Z.mod_small by lia. lia.
Qed.

(** A significant digit that does not fit any more. *)
Lemma mantissa_full c f k m d :
  mantissa_inv c f k m → 0 < d ≤ 9 →
  match push_zeros (Z.to_nat (pending_zeros m)) (big_endian m) (m_len m) with
  | Some (_, len) => len = MAX_DIGITS
  | None => True
  end → 10 ^ Z.of_nat MAX_DIGITS ≤ c * 10 + d.
Proof.
  intros [Hlen Hle Hdig Hval Hp _ Hemp Hfst Hlst] Hd Hfull.
  pose proof (push_zeros_spec (Z.to_nat (pending_zeros m)) (big_endian m) (m_len m) Hlen Hle) as H.
  assert (MAX_DIGITS ≤ m_len m + Z.to_nat (pending_zeros m))%nat as Hmax.
  { destruct (push_zeros _ _ _) as [[be len]|]; [|lia]. destruct H as (-> & _). lia. }
  assert (m_len m ≠ 0%nat) as E0.
  { intros E0. rewrite (Hemp E0) in Hmax. cbn in Hmax. unfold MAX_DIGITS in Hmax. lia. }
  specialize (Hfst E0). pose proof (pow10_gt0 (pending_zeros m) ltac:(lia)).
  assert (10 ^ Z.of_nat MAX_DIGITS ≤ 10 * 10 ^ Z.of_nat (pred (m_len m)) * 10 ^ pending_zeros m) as Hpow.
  { rewrite <-pow10_S, <-Z.pow_add_r by lia. apply Z.pow_le_mono_r; lia. }
  nia.
Qed.

Definition count_fraction (after : bool) (n : nat) : Z := if after then Z.of_nat n else 0.

Lemma mantissa_step after m c f k d :
  is_digit d → mantissa_inv c f k m → k < 4611686018427387904 →
  (∃ m', (∀ rest, mantissa_loop (digit_byte d :: rest) after m = mantissa_loop rest after m') ∧
     mantissa_inv (c * 10 + d) (f + count_fraction after 1) (k + 1) m' ∧
     m_index m' = S (m_index m) ∧ saw_digit m' = true) ∨
  ((∀ rest, mantissa_loop (digit_byte d :: rest) after m = None) ∧
     (c * 10 + d) mod 10 ≠ 0 ∧ 10 ^ Z.of_nat MAX_DIGITS ≤ c * 10 + d).
Proof.
  intros Hd Hinv Hk. pose proof Hinv as [Hlen Hle Hdig Hval Hp [Hf Hfk] Hemp Hfst Hlst].
  set (f' := f + count_fraction after 1). assert (0 ≤ f' ≤ k + 1) as Hf' by (unfold f', count_fraction; destruct after; lia).
  assert (∀ rest, mantissa_loop (digit_byte d :: rest) after m =
    if Nat.eqb (m_len m) 0 && (d =? 0) then
      mantissa_loop rest after (mk_mantissa (big_endian m) (m_len m) (pending_zeros m) f' (S (m_index m)) true)
    else if d =? 0 then
      mantissa_loop rest after (mk_mantissa (big_endian m) (m_len m) (pending_zeros m + 1) f' (S (m_index m)) true)
    else
      '(ds, len) ← push_zeros (Z.to_nat (pending_zeros m)) (big_endian m) (m_len m);
      '(ds, len) ← push_digit ds len d;
      mantissa_loop rest after (mk_mantissa ds len 0 f' (S (m_index m)) true)) as Hloop.
  { intros rest. cbn [mantissa_loop]. rewrite digit_byte_Z by done. unfold between, is_digit in *.
    rewrite (proj2 (Z.leb_le 48 _)), (proj2 (Z.leb_le _ 57)) by lia. cbn [andb].
    replace (if after then checked_i64 (fractional_digits m + 1) else Some (fractional_digits m)) with (Some f').
    2: { unfold f', count_fraction. destruct after; [rewrite checked_in|]; rewrite Hf; [done| |f_equal; lia].
         unfold I64_MIN, I64_MAX. lia. }
    cbn [mbind option_bind]. replace (48 + d - 48) with d by lia.
    rewrite checked_in by (unfold USIZE_MAX, U64_MAX; lia). done. }
  destruct (decide (d = 0)) as [->|Hd0].
  - left. change (0 =? 0) with true in Hloop. rewrite andb_true_r in Hloop.
    destruct (Nat.eqb_spec (m_len m) 0) as [E0|E0].
    + eexists. split; [exact Hloop|]. split; [|done].
      constructor; cbn [big_endian m_len pending_zeros fractional_digits]; try done; [|lia].
      rewrite Z.add_0_r, <-Hval, E0, take_0, bval_nil. lia.
    + eexists. split; [exact Hloop|]. split; [|done].
      constructor; cbn [big_endian m_len pending_zeros fractional_digits]; try done; [|lia].
      rewrite Z.pow_add_r, Z.add_0_r by lia. cbn. lia.
  - unfold is_digit in Hd. rewrite (proj2 (Z.eqb_neq d 0)), andb_false_r in Hloop by done.
    pose proof (mantissa_full c f k m d Hinv ltac:(lia)) as Hfull.
    pose proof (λ be len, mantissa_push c f k m be len d f' Hinv ltac:(lia) Hf') as Hpush.
    assert ((c * 10 + d) mod 10 ≠ 0) as Hm by (rewrite Z.add_comm, Z.mod_add, Z.mod_small by lia; lia).
    destruct (push_zeros _ _ _) as [[be len]|]; [|right; cbn in Hloop; auto].
    cbn [mbind option_bind] in Hloop. unfold push_digit in Hloop.
    destruct (Nat.eqb_spec len MAX_DIGITS) as [E|E]; [right; cbn in Hloop; auto|].
    left. cbn [mbind option_bind] in Hloop. eexists. split; [exact Hloop|]. split; [by apply Hpush|done].
Qed.

Lemma mantissa_digits ds tail after m c f k :
  all_digits ds → mantissa_inv c f k m → k + Z.of_nat (length ds) ≤ 4611686018427387904 →
  let v := c * 10 ^ Z.of_nat (length ds) + bval ds in
  (∃ m', mantissa_loop (map digit_byte ds ++ tail) after m = mantissa_loop tail after m' ∧
     mantissa_inv v (f + count_fraction after (length ds)) (k + Z.of_nat (length ds)) m' ∧
     m_index m' = (m_index m + length ds)%nat ∧
     saw_digit m' = saw_digit m || negb (Nat.eqb (length ds) 0)) ∨
  (mantissa_loop (map digit_byte ds ++ tail) after m = None ∧ too_long v).
Proof.
  intros Hds. cbn zeta. revert m c f k. induction Hds as [|d ds Hd Hds IH]; intros m c f k Hinv Hk.
  { left. exists m. split; [done|]. cbn [length]. rewrite Nat.add_0_r, orb_false_r. split_and!; [|done..].
    unfold count_fraction. destruct after; rewrite bval_nil, ?Z.add_0_r, Z.mul_1_r; exact Hinv. }
  cbn [length] in *. pose proof (pow10_pos (length ds)).
  replace (c * 10 ^ Z.of_nat (S (length ds)) + bval (d :: ds))
    with ((c * 10 + d) * 10 ^ Z.of_nat (length ds) + bval ds) by (rewrite bval_cons, pow10_S; lia).
  destruct (mantissa_step after m c f k d Hd Hinv ltac:(lia)) as [(m' & E & Hinv' & Hi & Hs)|(E & Hm & Hlong)].
  - cbn [map app]. rewrite E. destruct (IH m' _ _ _ Hinv' ltac:(lia)) as [(m'' & E' & Hinv'' & Hi' & Hs')|Hno]; [|by right].
    left. exists m''. split; [done|]. split_and!.
    + replace (f + count_fraction after (S (length ds))) with (f + count_fraction after 1 + count_fraction after (length ds))
        by (unfold count_fraction; destruct after; lia).
      replace (k + Z.of_nat (S (length ds))) with (k + 1 + Z.of_nat (length ds)) by lia. done.
    + rewrite Hi', Hi. lia.
    + rewrite Hs', Hs. cbn. by rewrite orb_true_r.
  - right. cbn [map app]. rewrite E. split; [done|]. apply too_long_extend; [done|done|lia|by apply bval_bound].
Qed.

Lemma too_long_app v n r : too_long v → 0 ≤ n → 0 ≤ r < 10 ^ n → too_long (v * 10 ^ n + r).
Proof.
  intros [Hv Hl] Hn Hr. pose proof (pow10_gt0 n Hn) as Hpn. split; [nia|]. intros w j Hj E.
  pose proof (Hl v 0 ltac:(lia) ltac:(cbn; lia)) as Hlong. destruct (decide (j ≤ n)) as [Hjn|Hjn].
  - replace n with ((n - j) + j) in E by lia. rewrite Z.pow_add_r in E by lia.
    pose proof (pow10_gt0 j Hj). pose proof (pow10_gt0 (n - j) ltac:(lia)).
    assert (v * 10 ^ (n - j) ≤ w) by (apply Z.mul_le_mono_pos_r with (10 ^ j); lia). nia.
  - apply (Hl w (j - n) ltac:(lia)). replace j with ((j - n) + n) in E by lia.
    rewrite Z.pow_add_r in E by lia. set (k := w * 10 ^ (j - n)) in *.
    assert (r = (k - v) * 10 ^ n) by (subst k; lia). assert (k - v = 0) by nia. lia.
Qed.

Lemma mantissa_start index : mantissa_inv 0 0 0 (mk_mantissa no_digits 0 0 0 index false).
Proof. constructor; cbn; try lia; done. Qed.

Lemma tail_stops n after m : mantissa_loop (render_tail n) after m = Some m.
Proof. unfold render_tail, exponent_text. destruct (j_exponent n) as [[[] s ds]|]; [done..|]. by destruct after. Qed.

Lemma dot_step rest m :
  mantissa_loop (byte_of_Z 46 :: rest) false m =
  mantissa_loop rest true
    (mk_mantissa (big_endian m) (m_len m) (pending_zeros m) (fractional_digits m) (S (m_index m)) (saw_digit m)).
Proof. done. Qed.

Definition text_fits (n : JsonNumber) : Prop := Z.of_nat (length (render_bytes n)) ≤ 4611686018427387904.

Lemma length_fraction_text n : (length (j_fraction n) ≤ length (fraction_text n))%nat.
Proof. unfold fraction_text. destruct (j_fraction n); cbn [length]; [done|]. rewrite length_map. cbn. lia. Qed.

Lemma text_lengths n :
  text_fits n → Z.of_nat (length (j_integer n)) + Z.of_nat (length (j_fraction n)) ≤ 4611686018427387904.
Proof.
  unfold text_fits, render_bytes. rewrite !length_app, length_map. pose proof (length_fraction_text n). lia.
Qed.

Lemma parse_mantissa_spec n pre :
  number_ok n → text_fits n →
  let bs := pre ++ map digit_byte (j_integer n) ++ fraction_text n ++ render_tail n in
  let k := Z.of_nat (length (j_integer n) + length (j_fraction n)) in
  (∃ m, parse_mantissa bs (length pre) = Some m ∧
     mantissa_inv (j_coefficient n) (Z.of_nat (length (j_fraction n))) k m ∧
     drop (m_index m) bs = render_tail n ∧ (m_index m ≤ length bs)%nat ∧ saw_digit m = true) ∨
  (parse_mantissa bs (length pre) = None ∧ too_long (j_coefficient n)).
Proof.
  intros (Hint & Hne & Hfrac & _) Hfit. pose proof (text_lengths n Hfit) as Hlen. cbn zeta. unfold parse_mantissa.
  set (bs := pre ++ _). assert (drop (length pre) bs = map digit_byte (j_integer n) ++ fraction_text n ++ render_tail n) as ->
    by (subst bs; by rewrite drop_app_length).
  assert (j_coefficient n = bval (j_integer n) * 10 ^ Z.of_nat (length (j_fraction n)) + bval (j_fraction n)) as Hc
    by (apply bval_app).
  destruct (mantissa_digits (j_integer n) (fraction_text n ++ render_tail n) false _ _ _ _ Hint
    (mantissa_start (length pre)) ltac:(lia)) as [(m & -> & Hinv & Hi & Hs)|[-> Hlong]].
  2: { right. split; [done|]. rewrite Hc. apply too_long_app; [|lia|by apply bval_bound].
       replace (bval (j_integer n)) with (0 * 10 ^ Z.of_nat (length (j_integer n)) + bval (j_integer n)) by lia. done. }
  assert (saw_digit m = true) as Hsaw by (rewrite Hs; destruct (j_integer n); done).
  rewrite !Z.add_0_l in Hinv. cbn [m_index] in Hi.
  unfold fraction_text in *. destruct (j_fraction n) as [|d ds] eqn:Ef.
  - cbn [app length]. rewrite tail_stops. left. exists m. split; [done|]. cbn [length] in Hc. split_and!; [| | |done].
    + rewrite Hc. cbn [length bval] in *. rewrite Z.mul_1_r, bval_nil, Z.add_0_r, Nat.add_0_r. exact Hinv.
    + rewrite Hi. subst bs. rewrite app_nil_l, app_assoc. rewrite drop_app_length'; [done|]. by rewrite length_app, length_map.
    + rewrite Hi. subst bs. rewrite !length_app, length_map. lia.
  - rewrite <-app_comm_cons, dot_step.
    assert (mantissa_inv (bval (j_integer n)) 0 (Z.of_nat (length (j_integer n)))
      (mk_mantissa (big_endian m) (m_len m) (pending_zeros m) (fractional_digits m) (S (m_index m)) (saw_digit m))) as Hinv'
      by (destruct Hinv; by constructor).
    destruct (mantissa_digits (d :: ds) (render_tail n) true _ _ _ _ Hfrac Hinv' ltac:(lia))
      as [(m' & -> & Hinv'' & Hi' & Hs')|[-> Hlong]].
    + rewrite tail_stops. left. exists m'. split; [done|]. cbn [m_index saw_digit] in Hi', Hs'. split_and!.
      * rewrite Hc, Nat2Z.inj_add. exact Hinv''.
      * rewrite Hi', Hi. subst bs. rewrite <-app_comm_cons, cons_middle, !app_assoc. rewrite drop_app_length'; [done|].
        rewrite !length_app, !length_map. cbn [length]. lia.
      * rewrite Hi', Hi. subst bs. rewrite !length_app. cbn [length]. rewrite !length_map. cbn [length]. lia.
      * by rewrite Hs', Hsaw.
    + right. split; [done|]. by rewrite Hc.
Qed.

(** ** The exponent *)

Lemma exponent_loop_spec ds acc found :
  all_digits ds → 0 ≤ acc ≤ I64_MAX →
  let v := acc * 10 ^ Z.of_nat (length ds) + bval ds in
  exponent_loop (map digit_byte ds) acc found =
    if v <=? I64_MAX then Some (v, found || negb (Nat.eqb (length ds) 0)) else None.
Proof.
  intros Hds. cbn zeta. revert acc found. induction Hds as [|d ds Hd Hds IH]; intros acc found Ha.
  { cbn [map exponent_loop length Z.of_nat]. rewrite bval_nil, Z.mul_1_r, Z.add_0_r, orb_false_r.
    by rewrite (proj2 (Z.leb_le _ _)) by lia. }
  cbn [map exponent_loop length]. rewrite digit_byte_Z by done. unfold between, is_digit in *.
  rewrite (proj2 (Z.leb_le 48 _)), (proj2 (Z.leb_le _ 57)) by lia. cbn [andb negb].
  replace (48 + d - 48) with d by lia.
  replace (acc * 10 ^ Z.of_nat (S (length ds)) + bval (d :: ds))
    with ((acc * 10 + d) * 10 ^ Z.of_nat (length ds) + bval ds) by (rewrite bval_cons, pow10_S; lia).
  pose proof (pow10_pos (length ds)). pose proof (bval_bound ds Hds).
  destruct (decide (acc * 10 + d ≤ I64_MAX)) as [Hfit|Hfit].
  - rewrite checked_in by (unfold I64_MIN in *; lia). cbn [mbind option_bind].
    rewrite checked_in by (unfold I64_MIN in *; lia). cbn [mbind option_bind]. rewrite IH by lia.
    cbn [orb Nat.eqb negb]. by rewrite orb_true_r.
  - rewrite (proj2 (Z.leb_gt _ _)) by nia.
    destruct (checked_i64 (acc * 10)) as [z|] eqn:E; [|done]. apply checked_Some in E as [-> _].
    cbn [mbind option_bind]. by rewrite (proj2 (checked_None _ _ _)) by lia.
Qed.

Lemma drop_cons_lookup {A} (l : list A) i x k : drop i l = x :: k → l !! i = Some x ∧ drop (S i) l = k.
Proof.
  intros E. split.
  - rewrite <-(Nat.add_0_r i), <-lookup_drop, E. done.
  - replace (S i) with (i + 1)%nat by lia. rewrite <-drop_drop, E. done.
Qed.

Lemma digit_not_sign d : is_digit d → byte_is 45 (digit_byte d) = false ∧ byte_is 43 (digit_byte d) = false.
Proof.
  intros Hd. unfold byte_is. rewrite digit_byte_Z by done. unfold is_digit in Hd.
  split; apply Z.eqb_neq; lia.
Qed.

Lemma parse_exponent_spec e bs i :
  exponent_ok e → drop i bs = exponent_text e →
  parse_exponent bs (S i) = if bval (e_digits e) <=? I64_MAX then Some (exponent_value e) else None.
Proof.
  intros [Hd Hne] E. unfold exponent_text in E. apply drop_cons_lookup in E as [_ E]. unfold parse_exponent, exponent_value.
  pose proof (bval_bound _ Hd) as Hb.
  pose proof (exponent_loop_spec (e_digits e) 0 false Hd ltac:(unfold I64_MAX; lia)) as Hloop. cbn zeta in Hloop.
  rewrite Z.mul_0_l, Z.add_0_l in Hloop.
  replace (false || negb (Nat.eqb (length (e_digits e)) 0)) with true in Hloop by (by destruct (e_digits e)).
  destruct (e_sign e) as [[]|]; cbn [app] in E.
  - apply drop_cons_lookup in E as [-> E]. cbn [mbind option_bind]. change (byte_is 45 (byte_of_Z 45)) with true.
    cbn iota beta. rewrite E, Hloop. destruct (_ <=? _) eqn:El; [|done]. bool_to_prop.
    cbn. rewrite checked_in; [done|]. unfold I64_MIN, I64_MAX in *. lia.
  - apply drop_cons_lookup in E as [-> E]. cbn [mbind option_bind].
    change (byte_is 45 (byte_of_Z 43)) with false. change (byte_is 43 (byte_of_Z 43)) with true.
    cbn iota beta. rewrite E, Hloop. by destruct (_ <=? _).
  - destruct (e_digits e) as [|d ds] eqn:Ee; [done|]. apply Forall_cons in Hd as [Hd _].
    destruct (digit_not_sign d Hd) as [H45 H43]. pose proof (drop_cons_lookup _ _ _ _ E) as [-> _].
    cbn [mbind option_bind]. rewrite H45, H43. cbn iota beta. rewrite E, Hloop. by destruct (_ <=? _).
Qed.

Definition exponent_of (n : JsonNumber) : Z := match j_exponent n with Some e => exponent_value e | None => 0 end.
Definition exponent_fits (n : JsonNumber) : bool :=
  match j_exponent n with Some e => bval (e_digits e) <=? I64_MAX | None => true end.

Lemma parse_exponent_or_zero_spec n bs i :
  number_ok n → drop i bs = render_tail n → (i ≤ length bs)%nat →
  parse_exponent_or_zero bs i = if exponent_fits n then Some (exponent_of n) else None.
Proof.
  intros (_ & _ & _ & He) E Hi. unfold parse_exponent_or_zero, render_tail, exponent_fits, exponent_of in *.
  destruct (j_exponent n) as [e|].
  - assert (bs !! i = Some (byte_of_Z (if e_upper e then 69 else 101))) as ->
      by (unfold exponent_text in E; by apply drop_cons_lookup in E as [-> _]).
    assert (is_e (byte_of_Z (if e_upper e then 69 else 101)) = true) as -> by (by destruct (e_upper e)).
    by apply parse_exponent_spec.
  - assert (length bs ≤ i)%nat as Hge by (apply (f_equal length) in E; rewrite length_drop in E; cbn in E; lia).
    rewrite lookup_ge_None_2 by done. by rewrite (proj2 (Nat.eqb_eq _ _)) by lia.
Qed.

(** ** Scale and assembly *)

(** The digits of the array that are in use. *)
Record filled (be : list Z) (len : nat) (v : Z) : Prop := {
  fi_length : length be = MAX_DIGITS;
  fi_len : (0 < len ≤ MAX_DIGITS)%nat;
  fi_digits : all_digits (take len be);
  fi_value : bval (take len be) = v;
  fi_first : 10 ^ Z.of_nat (pred len) ≤ v
}.

Lemma filled_zeros be len v n :
  filled be len v →
  match push_zeros n be len with
  | Some (be', len') => filled be' len' (v * 10 ^ Z.of_nat n)
  | None => 10 ^ Z.of_nat MAX_DIGITS ≤ v * 10 ^ Z.of_nat n
  end.
Proof.
  intros [Hl Hn Hd Hv Hf]. pose proof (push_zeros_spec n be len Hl ltac:(lia)) as H. pose proof (pow10_pos n).
  destruct (push_zeros n be len) as [[be' len']|].
  - destruct H as (-> & Hle & Hl' & Ht). constructor; [done|lia|..].
    + rewrite Ht. apply Forall_app. split; [done|]. apply Forall_replicate. unfold is_digit. lia.
    + rewrite Ht, bval_app, bval_zeros, length_replicate, Hv. lia.
    + replace (pred (len + n)) with (pred len + n)%nat by lia. rewrite Nat2Z.inj_add, Z.pow_add_r by lia. nia.
  - transitivity (10 ^ Z.of_nat (pred len) * 10 ^ Z.of_nat n); [|nia].
    rewrite <-Z.pow_add_r by lia. apply Z.pow_le_mono_r; lia.
Qed.

Lemma too_high w t :
  0 < w → 300 ≤ t → ¬ (- MAX_SCALE ≤ t ∧ (0 ≤ t → w * 10 ^ t < 10 ^ Z.of_nat MAX_DIGITS)).
Proof.
  intros Hw Ht [_ H]. specialize (H ltac:(lia)).
  assert (10 ^ Z.of_nat MAX_DIGITS ≤ 10 ^ t) by (apply Z.pow_le_mono_r; unfold MAX_DIGITS; lia). nia.
Qed.

Lemma adjust_spec f ex p be len w :
  0 ≤ f ≤ 4611686018427387904 → 0 ≤ p ≤ 4611686018427387904 → - I64_MAX ≤ ex ≤ I64_MAX →
  filled be len w →
  let t := ex + p - f in
  match adjust_mantissa_scale f ex p be len with
  | Some (scale, be', len') =>
      filled be' len' (w * 10 ^ Z.max 0 t) ∧ scale = Z.max 0 (- t) ∧ is_u8 scale
  | None => ¬ (- MAX_SCALE ≤ t ∧ (0 ≤ t → w * 10 ^ t < 10 ^ Z.of_nat MAX_DIGITS))
  end.
Proof.
  intros Hf Hp Hex Hfill. cbn zeta. set (t := ex + p - f). unfold adjust_mantissa_scale.
  assert (0 < w) as Hw by (destruct Hfill as [_ _ _ _ H]; pose proof (pow10_pos (pred len)); lia).
  pose proof (too_high w t Hw) as Hbig.
  rewrite (checked_in _ _ p) by (unfold I64_MIN, I64_MAX in *; lia). cbn [mbind option_bind].
  destruct (checked_i64 (f - ex)) as [s1|] eqn:E1; cbn [mbind option_bind].
  2: { apply checked_None in E1. unfold MAX_SCALE, I64_MIN, I64_MAX in *. lia. }
  apply checked_Some in E1 as [-> E1].
  destruct (checked_i64 (f - ex - p)) as [s2|] eqn:E2; cbn [mbind option_bind].
  2: { apply checked_None in E2. apply Hbig. unfold I64_MIN, I64_MAX in *. lia. }
  apply checked_Some in E2 as [-> E2]. replace (f - ex - p) with (- t) in * by lia.
  destruct (- t <? 0) eqn:Et; bool_to_prop.
  - rewrite Z.opp_involutive. destruct (checked_i64 t) as [a|] eqn:E3; cbn [mbind option_bind].
    2: { apply checked_None in E3. apply Hbig. unfold I64_MIN, I64_MAX in *. lia. }
    apply checked_Some in E3 as [-> E3]. rewrite checked_in by (unfold USIZE_MAX, U64_MAX, I64_MAX in *; lia).
    cbn [mbind option_bind]. set (n := Z.to_nat _). pose proof (filled_zeros be len w n Hfill) as H.
    destruct (push_zeros n be len) as [[be' len']|] eqn:Ep; cbn [mbind option_bind].
    + assert (Z.of_nat n = t) as En.
      { destruct (decide (t ≤ Z.of_nat (S MAX_DIGITS))); [subst n; lia|]. exfalso.
        pose proof (push_zeros_spec n be len (fi_length _ _ _ Hfill) ltac:(apply Hfill)) as Hs. rewrite Ep in Hs.
        destruct Hs as (-> & Hle & _). pose proof (fi_len _ _ _ Hfill). subst n. unfold MAX_DIGITS in *. lia. }
      cbn. split_and!; [|lia|range_lia]. rewrite Z.max_r by lia. by rewrite <-En.
    + intros [_ Hno]. specialize (Hno ltac:(lia)).
      assert (10 ^ Z.of_nat n ≤ 10 ^ t) by (apply Z.pow_le_mono_r; lia). nia.
  - cbn [mbind option_bind]. rewrite checked_in by (unfold USIZE_MAX, U64_MAX, I64_MAX in *; lia). cbn [mbind option_bind].
    destruct (MAX_SCALE <? - t) eqn:Es; bool_to_prop; [lia|]. unfold MAX_SCALE in *.
    rewrite checked_in by (unfold U8_MAX; lia). cbn [mbind option_bind].
    split_and!; [|lia|range_lia]. rewrite Z.max_l, Z.mul_1_r by lia. done.
Qed.

#[global] Instance representable_proper : Proper (Qeq ==> iff) representable.
Proof.
  intros p q E. split; intros (c & s & Hc & Hs & H); exists c, s; (split; [done|split; [done|]]).
  - by rewrite <-E.
  - by rewrite E.
Qed.

Lemma q10_shift c p e : 0 ≤ p → (q10 (c * 10 ^ p) e == q10 c (e + p))%Q.
Proof.
  intros Hp. unfold q10, Qeq. destruct (0 <=? e) eqn:E; bool_to_prop.
  - rewrite (proj2 (Z.leb_le _ _)) by lia. cbn [Qnum Qden]. rewrite (Z.add_comm e), Z.pow_add_r by lia. lia.
  - destruct (0 <=? e + p) eqn:E'; bool_to_prop; cbn [Qnum Qden]; rewrite !QDen_pow10 by lia.
    + rewrite Z.mul_1_r. replace p with ((e + p) + - e) at 1 by lia. rewrite Z.pow_add_r by lia. lia.
    + replace (- e) with (p + - (e + p)) by lia. rewrite Z.pow_add_r by lia. lia.
Qed.

Lemma q10_split c t :
  (Qmake (c * 10 ^ Z.max 0 t) (Z.to_pos (10 ^ Z.max 0 (- t))) == q10 c t)%Q.
Proof.
  unfold q10, Qeq. destruct (0 <=? t) eqn:E; bool_to_prop; cbn [Qnum Qden]; rewrite !QDen_pow10 by lia.
  - rewrite (Z.max_r 0 t), (Z.max_l 0 (- t)) by lia. cbn. lia.
  - rewrite (Z.max_l 0 t), (Z.max_r 0 (- t)) by lia. cbn. lia.
Qed.

Lemma filled_canonical be len v : filled be len v → canonical (reverse (take len be)).
Proof.
  intros [Hl Hn Hd Hv Hf]. split_and!; [by apply Forall_reverse| |].
  - intros E. apply (f_equal length) in E. rewrite length_reverse, length_take in E. cbn in E. lia.
  - intros k E. assert (take len be = 0 :: reverse k) as E'
      by (by rewrite <-(reverse_involutive (take len be)), E, reverse_app).
    destruct k as [|d k]; [done|]. exfalso.
    rewrite E' in Hd, Hv. apply Forall_cons in Hd as [_ Hd]. rewrite bval_cons in Hv.
    pose proof (bval_bound _ Hd) as Hb. assert (length (reverse (d :: k)) = pred len) as Hk.
    { apply (f_equal length) in E'. rewrite length_take in E'. cbn [length] in E'. lia. }
    rewrite Hk in Hb. lia.
Qed.

Lemma assembled_ok negative be len v scale :
  filled be len v → is_u8 scale →
  let d := mk_decimal negative (reverse (take len be) ++ replicate (MAX_DIGITS - len) 0) len scale in
  dec_ok d ∧ coefficient d = v.
Proof.
  intros Hfill Hs. cbn zeta. pose proof Hfill as [Hl Hn Hd Hv Hf].
  assert (take len (reverse (take len be) ++ replicate (MAX_DIGITS - len) 0) = reverse (take len be)) as Et.
  { apply take_app_length'. rewrite length_reverse, length_take. lia. }
  unfold dec_ok, coefficient. cbn [OpenRouter.len digits OpenRouter.scale]. rewrite Et.
  split_and!; [by apply (filled_canonical _ _ _ Hfill)|lia| |done|done|done].
  rewrite length_app, length_reverse, length_take, length_replicate. lia.
Qed.

Lemma zero_ok s : is_u8 s → dec_ok (zero s) ∧ coefficient (zero s) = 0.
Proof.
  intros Hs. split; [|done]. split_and!; [apply canonical_0|cbn; unfold MAX_DIGITS; lia|done|done|done].
Qed.

Lemma parse_sign_render n :
  number_ok n → ∃ pre, render_bytes n = pre ++ map digit_byte (j_integer n) ++ fraction_text n ++ render_tail n ∧
    parse_sign (render_bytes n) = Some (j_negative n, length pre).
Proof.
  intros (Hint & Hne & _). exists (if j_negative n then [byte_of_Z 45] else []). split; [done|].
  unfold render_bytes. destruct (j_negative n); [done|]. cbn [app].
  destruct (j_integer n) as [|d ds]; [done|]. apply Forall_cons in Hint as [Hd _].
  cbn [map app parse_sign]. by destruct (digit_not_sign d Hd) as [-> ->].
Qed.

Lemma exponent_range n :
  number_ok n →
  if exponent_fits n then - I64_MAX ≤ exponent_of n ≤ I64_MAX
  else I64_MAX < exponent_of n ∨ exponent_of n < - I64_MAX.
Proof.
  intros (_ & _ & _ & He). unfold exponent_fits, exponent_of. destruct (j_exponent n) as [e|]; [|unfold I64_MAX; lia].
  pose proof (bval_bound _ (proj1 He)). unfold exponent_value.
  destruct (_ <=? _) eqn:E; bool_to_prop; destruct (e_sign e) as [[]|]; lia.
Qed.

Lemma decimal_parse_spec n :
  number_ok n → text_fits n →
  match decimal_parse (render n) with
  | Some d => dec_ok d ∧ (negative d = true → 0 < coefficient d) ∧ (dec_value d == json_value n)%Q
  | None => ¬ representable (json_value n)
  end.
Proof.
  intros Hok Hfit. unfold decimal_parse, render. rewrite as_of_bytes.
  destruct (parse_sign_render n Hok) as (pre & Hbs & ->). cbn [mbind option_bind]. rewrite Hbs.
  destruct (parse_mantissa_spec n pre Hok Hfit) as [(m & -> & Hinv & Hdrop & Hi & Hsaw)|[-> Hlong]].
  2: { cbn. by apply too_long_unrepresentable. }
  cbn [mbind option_bind]. rewrite Hsaw. cbn [negb]. pose proof (text_lengths n Hfit) as Hlen.
  destruct Hinv as [Hl Hle Hd Hv Hp [Hf Hfk] Hemp Hfst Hlst].
  destruct (Nat.eqb_spec (m_len m) 0) as [E0|E0].
  { destruct (zero_ok 0 ltac:(range_lia)) as [Hz Hc]. split; [done|]. split; [done|]. rewrite E0, take_0, bval_nil, Z.mul_0_l in Hv.
    unfold dec_value, json_value. rewrite Hc, <-Hv. unfold q10. destruct (j_negative n), (0 <=? _); done. }
  specialize (Hfst E0). specialize (Hlst E0). set (w := bval (take (m_len m) (big_endian m))) in *.
  assert (filled (big_endian m) (m_len m) w) as Hfill by (constructor; [done|lia|done..]).
  assert (0 < w) as Hw by (pose proof (pow10_pos (pred (m_len m))); lia).
  set (t := exponent_of n + pending_zeros m - Z.of_nat (length (j_fraction n))).
  assert (json_value n == q10 (signed (j_negative n) w) t)%Q as Hval.
  { unfold json_value. rewrite <-Hv, signed_mul, q10_shift by lia. unfold j_power, t, exponent_of.
    by replace (_ - _ + _) with (match j_exponent n with Some e => exponent_value e | None => 0 end
      + pending_zeros m - Z.of_nat (length (j_fraction n))) by lia. }
  rewrite (parse_exponent_or_zero_spec n) by done. pose proof (exponent_range n Hok) as Hex.
  destruct (exponent_fits n); cbn [mbind option_bind].
  2: { rewrite Hval. intros Hrep%unrepresentable; [|done..]. destruct (Hex) as [Hhigh|Hlow].
       - by apply (too_high w t Hw); [unfold t, I64_MAX in *; lia|].
       - unfold MAX_SCALE, t, I64_MAX in *. lia. }
  rewrite Hf. pose proof (adjust_spec (Z.of_nat (length (j_fraction n))) (exponent_of n) (pending_zeros m)
    (big_endian m) (m_len m) w ltac:(lia) ltac:(lia) Hex Hfill) as H. cbn zeta in H. fold t in H.
  destruct (adjust_mantissa_scale _ _ _ _ _) as [[[s be'] len']|]; cbn [mbind option_bind].
  - destruct H as (Hfill' & -> & Hs).
    destruct (assembled_ok (j_negative n) _ _ _ _ Hfill' Hs) as [Hok' Hc]. split; [done|]. split.
    { intros _. rewrite Hc. pose proof (pow10_gt0 (Z.max 0 t) ltac:(lia)). nia. }
    unfold dec_value. rewrite Hc. cbn [negative OpenRouter.scale]. by rewrite Hval, signed_mul, q10_split.
  - rewrite Hval. intros Hrep. apply H. by apply (unrepresentable (j_negative n)).
Qed.

(** C39: a JSON number is read exactly: the decimal that comes back has the value of
    the text, and when none comes back no coefficient of 288 digits with at most 255
    decimal places has that value. *)
Theorem decimal_parse_exact n :
  number_ok n → text_fits n →
  match decimal_parse (render n) with
  | Some d => dec_ok d ∧ (dec_value d == json_value n)%Q
  | None => ¬ representable (json_value n)
  end.
Proof.
  intros Hok Hfit. pose proof (decimal_parse_spec n Hok Hfit) as H.
  destruct (decimal_parse _); [|done]. split; apply H.
Qed.
