(* ===== verification/SpendProofs.v ===== *)
(** * Sums and differences of decimals are exact

    The loops over digit arrays against the values they denote, the conversion to
    [Money], and the theorems on what a spend shows. *)

From stdpp Require Import base list gmap strings pretty.
From Stdlib Require Import ZArith Lia Bool Strings.Byte QArith.
From S2P Require Import Prelude OrderedMap Digits Money MoneyProofs OpenRouter DecimalProofs.

#[local] Open Scope Z_scope.

(** ** Conversion to money *)

Lemma coefficient_loop_spec ds acc :
  all_digits ds → 0 ≤ acc ≤ U128_MAX →
  let v := acc * 10 ^ Z.of_nat (length ds) + bval ds in
  coefficient_loop ds acc = if v <=? U128_MAX then Some v else None.
Proof.
  intros Hds. cbn zeta. revert acc. induction Hds as [|d ds Hd Hds IH]; intros acc Ha.
  { cbn [coefficient_loop length Z.of_nat]. rewrite bval_nil, Z.mul_1_r, Z.add_0_r.
    by rewrite (proj2 (Z.leb_le _ _)) by lia. }
  cbn [coefficient_loop length]. unfold is_digit in Hd.
  replace (acc * 10 ^ Z.of_nat (S (length ds)) + bval (d :: ds))
    with ((acc * 10 + d) * 10 ^ Z.of_nat (length ds) + bval ds) by (rewrite bval_cons, pow10_S; lia).
  pose proof (pow10_pos (length ds)). pose proof (bval_bound ds Hds).
  destruct (decide (acc * 10 + d ≤ U128_MAX)) as [Hfit|Hfit].
  - rewrite checked_in by lia. cbn [mbind option_bind]. rewrite checked_in by lia. cbn [mbind option_bind].
    by apply IH; lia.
  - rewrite (proj2 (Z.leb_gt _ _)) by nia.
    destruct (checked_u128 (acc * 10)) as [z|] eqn:E; [|done]. apply checked_Some in E as [-> _].
    cbn [mbind option_bind]. by rewrite (proj2 (checked_None _ _ _)) by lia.
Qed.

Lemma shift_loop_spec n c :
  0 ≤ c ≤ U128_MAX →
  shift_loop n c = if c * 10 ^ Z.of_nat n <=? U128_MAX then Some (c * 10 ^ Z.of_nat n) else None.
Proof.
  revert c. induction n as [|n IH]; intros c Hc.
  { cbn [shift_loop Z.of_nat]. rewrite Z.mul_1_r. by rewrite (proj2 (Z.leb_le _ _)) by lia. }
  cbn [shift_loop]. rewrite pow10_S. pose proof (pow10_pos n).
  replace (c * (10 * 10 ^ Z.of_nat n)) with (c * 10 * 10 ^ Z.of_nat n) by lia.
  destruct (decide (c * 10 ≤ U128_MAX)) as [Hfit|Hfit].
  - rewrite checked_in by lia. cbn [mbind option_bind]. apply IH. lia.
  - rewrite (proj2 (checked_None _ _ _)) by lia. by rewrite (proj2 (Z.leb_gt _ _)) by nia.
Qed.

(** The part of [dec_ok] that the digits in use satisfy. *)
Definition dec_used (d : Decimal) : Prop :=
  canonical (take (len d) (digits d)) ∧ (len d ≤ MAX_DIGITS)%nat ∧ length (digits d) = MAX_DIGITS ∧
  is_u8 (scale d).
Lemma dec_ok_used d : dec_ok d → dec_used d.
Proof. intros (? & ? & ? & ? & ?). done. Qed.

Lemma dec_used_coefficient d : dec_used d → 0 ≤ coefficient d.
Proof. intros (Hc & _). apply dval_nonneg, Hc. Qed.

Lemma dec_used_len d :
  dec_used d → (0 < len d ≤ MAX_DIGITS)%nat ∧ length (take (len d) (digits d)) = len d.
Proof.
  intros ((_ & Hne & _) & Hle & E & _).
  split_and!; [destruct (len d); [done|lia]|lia|rewrite length_take; lia].
Qed.

(** A long coefficient is large. *)
Lemma coefficient_lower d : dec_used d → len d ≠ 1%nat → 10 ^ Z.of_nat (pred (len d)) ≤ coefficient d.
Proof.
  intros H Hn. destruct (dec_used_len d H) as [_ El]. unfold coefficient. rewrite <-El at 1.
  apply canonical_lower; [apply H|by rewrite El].
Qed.

Lemma i64_pow : I64_MAX + 1 < 10 ^ 19.
Proof. done. Qed.

Lemma money_at_scale_spec d to :
  dec_used d → is_u8 to →
  let v := signed (negative d) (coefficient d * 10 ^ (to - scale d)) in
  match money_at_scale d to with
  | Some m => m = mk_money v "USD" to ∧ scale d ≤ to ∧ is_i64 v
  | None => to < scale d ∨ ¬ is_i64 v
  end.
Proof.
  intros Hd Hto. cbn zeta. unfold money_at_scale. destruct (to <? scale d) eqn:Es; bool_to_prop; [by left|].
  pose proof (dec_used_coefficient d Hd) as Hc. destruct (dec_used_len d Hd) as [Hlen El].
  pose proof (pow10_gt0 (to - scale d) ltac:(lia)) as Hp. set (c := coefficient d) in *.
  set (v := c * 10 ^ (to - scale d)).
  assert (I64_MAX + 1 < v → ¬ is_i64 (signed (negative d) v)) as Hbig
    by (unfold is_i64, I64_MIN, I64_MAX; destruct (negative d); cbn; lia).
  destruct (Nat.ltb_spec MAX_DIGITS (len d + Z.to_nat (to - scale d))) as [Hl|Hl].
  { right. apply Hbig. assert (len d ≠ 1%nat) by (unfold MAX_DIGITS in Hl; destruct Hd as (_ & _ & _ & Hs); range_lia).
    pose proof (coefficient_lower d Hd ltac:(done)) as Hlow. fold c in Hlow.
    pose proof i64_pow. assert (10 ^ 19 ≤ 10 ^ Z.of_nat (pred (len d)) * 10 ^ (to - scale d)); [|nia].
    rewrite <-Z.pow_add_r by lia. apply Z.pow_le_mono_r; [lia|]. unfold MAX_DIGITS in Hl. lia. }
  rewrite coefficient_loop_spec by (try (apply Forall_reverse, Hd); unfold U128_MAX; lia).
  replace (bval (reverse (take (len d) (digits d)))) with c by (unfold bval; by rewrite reverse_involutive).
  rewrite Z.mul_0_l, Z.add_0_l. destruct (c <=? U128_MAX) eqn:Eu; bool_to_prop; cbn [mbind option_bind].
  2: { right. apply Hbig. unfold U128_MAX, I64_MAX in *. nia. }
  rewrite shift_loop_spec by lia. rewrite Z2Nat.id by lia. fold v.
  destruct (v <=? U128_MAX) eqn:Ev; bool_to_prop; cbn [mbind option_bind].
  2: { right. apply Hbig. unfold U128_MAX, I64_MAX in *. lia. }
  assert (0 ≤ v) by (subst v; nia). unfold is_i64, I64_MIN, I64_MAX in *.
  destruct (negative d); cbn [signed] in *.
  - destruct (_ <? v) eqn:Ex; bool_to_prop; [right; lia|]. destruct (v =? _) eqn:Ey; bool_to_prop; cbn [mbind option_bind].
    + split_and!; [f_equal; lia|lia..].
    + rewrite checked_in by lia. cbn [mbind option_bind]. split_and!; [done|lia..].
  - destruct (_ <? v) eqn:Ex; bool_to_prop; [right; lia|]. rewrite checked_in by lia. cbn [mbind option_bind].
    split_and!; [done|lia..].
Qed.

Lemma scaled_value d to :
  0 ≤ scale d ≤ to →
  (money_value (mk_money (signed (negative d) (coefficient d * 10 ^ (to - scale d))) "USD" to) == dec_value d)%Q.
Proof.
  intros H. unfold money_value, dec_value, Qeq. cbn [Qnum Qden amount_minor exponent]. rewrite !QDen_pow10 by lia.
  rewrite signed_mul, <-Z.mul_assoc, <-Z.pow_add_r by lia. do 2 f_equal. lia.
Qed.

(** No zeros at the end of the decimal places. *)
Definition minimal (d : Decimal) : Prop := scale d = 0 ∨ coefficient d mod 10 ≠ 0.

Lemma to_money_spec d :
  dec_used d →
  match to_money d with
  | Some m => money_ok m ∧ currency m = "USD" ∧ (money_value m == dec_value d)%Q ∧
      (0 ≤ amount_minor m ↔ 0 ≤ signed (negative d) (coefficient d))
  | None => minimal d ∨ coefficient d = 0 → ∀ m, money_ok m → ¬ (money_value m == dec_value d)%Q
  end.
Proof.
  intros Hd. pose proof Hd as (_ & _ & _ & Hs). unfold to_money.
  assert (∀ to m, is_u8 to → money_at_scale d to = Some m → money_ok m ∧ currency m = "USD" ∧
    (money_value m == dec_value d)%Q ∧ (0 ≤ amount_minor m ↔ 0 ≤ signed (negative d) (coefficient d))) as Hsome.
  { intros to m Hto E. pose proof (money_at_scale_spec d to Hd Hto) as H. rewrite E in H.
    destruct H as (-> & Hle & Hi). split; [by split|]. split; [done|]. split; [apply scaled_value; range_lia|].
    pose proof (pow10_gt0 (to - scale d) ltac:(lia)). cbn [amount_minor]. rewrite signed_mul. split; nia. }
  destruct (money_at_scale d (Z.max (scale d) 2)) as [m|] eqn:E1; cbn [or_else].
  { apply (Hsome (Z.max (scale d) 2) m); [range_lia|done]. }
  destruct (money_at_scale d (scale d)) as [m|] eqn:E2; [by apply (Hsome (scale d) m)|].
  intros Hmin m Hm. pose proof (money_at_scale_spec d (scale d) Hd Hs) as H. rewrite E2 in H. destruct H as [H|H]; [lia|].
  rewrite Z.sub_diag, Z.mul_1_r in H. destruct Hmin as [Hmin|H0].
  2: { exfalso. apply H. rewrite H0. unfold is_i64, I64_MIN, I64_MAX. destruct (negative d); cbn; lia. }
  unfold dec_value. apply (fit_none_value _ _ ""); [range_lia| |done]. apply fit_none; [done|].
  destruct Hmin as [->|Hmin]; [by left|right].
  destruct (negative d); cbn [signed]; [|done]. intros H0. apply Hmin.
  apply Z.mod_divide in H0 as [k Hk]; [|done]. apply Z.mod_divide; [done|]. exists (- k). lia.
Qed.

Lemma dec_ok_coefficient d : dec_ok d → 0 ≤ coefficient d.
Proof. intros H. by apply dec_used_coefficient, dec_ok_used. Qed.
Lemma dec_ok_len d :
  dec_ok d → (0 < len d ≤ MAX_DIGITS)%nat ∧ length (take (len d) (digits d)) = len d.
Proof. intros H. by apply dec_used_len, dec_ok_used. Qed.

(** ** Dropping the zeros at the end *)

Lemma digit_at_hd (ds : list Z) i : digit_at ds i = hd 0 (drop i ds).
Proof. revert ds. induction i as [|i IH]; intros [|d ds]; cbn; try done. apply IH. Qed.

Lemma shift_down_take ds n :
  (S n ≤ length ds)%nat → take n (shift_down ds (S n)) = tl (take (S n) ds) ∧ length (shift_down ds (S n)) = length ds.
Proof.
  intros Hn. unfold shift_down. cbn [Nat.sub]. rewrite Nat.sub_0_r. destruct ds as [|d ds]; [cbn in Hn; lia|].
  cbn in Hn. cbn [drop take tl]. change (drop 0 ds) with ds. assert (length (take n ds) = n) as Hl by (rewrite length_take; lia). split.
  - rewrite take_app_length' by done. done.
  - rewrite length_app, Hl, length_drop. cbn [length]. lia.
Qed.

Lemma canonical_tail d l : canonical (d :: l) → l ≠ [] → canonical l.
Proof.
  intros (Hd & _ & Hz) Hne. apply Forall_cons in Hd as [_ Hl]. split_and!; [done..|].
  intros k E. specialize (Hz (d :: k)). rewrite E in Hz. specialize (Hz eq_refl). done.
Qed.

Lemma normalized_loop_SS n ds s :
  normalized_loop (S (S n)) ds s =
  if (0 <? s) && (digit_at ds 0 =? 0) then normalized_loop (S n) (shift_down ds (S (S n))) (s - 1)
  else (ds, S (S n), s).
Proof. done. Qed.

Lemma normalized_loop_spec n ds s :
  (0 < n ≤ length ds)%nat → canonical (take n ds) → 0 ≤ s →
  let '(ds', n', s') := normalized_loop n ds s in
  (0 < n' ≤ n)%nat ∧ length ds' = length ds ∧ canonical (take n' ds') ∧ 0 ≤ s' ≤ s ∧
  dval (take n ds) = dval (take n' ds') * 10 ^ (s - s') ∧ (s' = 0 ∨ dval (take n' ds') mod 10 ≠ 0 ∨ take n' ds' = [0]).
Proof.
  revert ds s. induction n as [|[|n] IH]; intros ds s Hn Hc Hs; [lia| |].
  { cbn [normalized_loop]. split_and!; [lia|lia|done|done|lia|lia|rewrite Z.sub_diag; lia|]. right.
    destruct ds as [|d ds]; [cbn in Hn; lia|]. cbn [take] in *. destruct (decide (d = 0)) as [->|Hd]; [by right|left].
    destruct Hc as (Hd' & _). apply Forall_cons in Hd' as [Hd' _]. unfold is_digit in Hd'. rewrite take_0. cbn [dval].
    rewrite Z.mod_small; lia. }
  rewrite normalized_loop_SS. destruct ((0 <? s) && (digit_at ds 0 =? 0)) eqn:E.
  - bool_to_prop. destruct (shift_down_take ds (S n) ltac:(lia)) as [Ht Hl].
    destruct ds as [|d ds]; [cbn in Hn; lia|]. cbn [digit_at lookup list_lookup default] in *.
    assert (d = 0) as -> by done. cbn [take tl] in Ht, Hc.
    assert (canonical (take (S n) (shift_down (0 :: ds) (S (S n))))) as Hc'.
    { rewrite Ht. apply (canonical_tail 0); [done|]. destruct ds; [cbn in Hn; lia|done]. }
    specialize (IH (shift_down (0 :: ds) (S (S n))) (s - 1) ltac:(rewrite Hl; lia) Hc' ltac:(lia)).
    destruct (normalized_loop (S n) _ _) as [[ds' n'] s']. destruct IH as (Hn' & Hl' & Hcan & Hs' & Hv & Hm).
    split_and!; [lia|lia|congruence|done|lia|lia| |done].
    cbn [take dval]. rewrite Ht in Hv. rewrite Hv. replace (s - s') with (Z.succ (s - 1 - s')) by lia.
    rewrite Z.pow_succ_r by lia. lia.
  - split_and!; [lia|lia|done|done|lia|lia|rewrite Z.sub_diag; lia|].
    destruct ds as [|d ds]; [cbn in Hn; lia|]. cbn [digit_at lookup list_lookup default] in E.
    apply andb_false_iff in E as [E|E]; bool_to_prop; [left; lia|right; left].
    destruct Hc as (Hd' & _). cbn [take] in *. apply Forall_cons in Hd' as [Hd' _]. unfold is_digit in Hd'.
    cbn [dval]. rewrite (Z.mul_comm 10), Z.mod_add, Z.mod_small by lia. intros ->. apply E. done.
Qed.

(** A decimal from an array whose unused places are zero. *)
Lemma dec_ok_intro negative ks n s :
  canonical ks → length ks = n → (n ≤ MAX_DIGITS)%nat → is_u8 s →
  let d := mk_decimal negative (ks ++ replicate (MAX_DIGITS - n) 0) n s in
  dec_ok d ∧ coefficient d = dval ks.
Proof.
  intros Hc <- Hn Hs. cbn zeta. unfold dec_ok, coefficient. cbn [len digits scale].
  rewrite take_app_length. split; [|done]. split; [done|]. split; [done|]. split; [|done].
  rewrite length_app, length_replicate. lia.
Qed.

Lemma normalized_value d :
  dec_used d →
  let d' := normalized d in
  dec_used d' ∧ (dec_value d' == dec_value d)%Q ∧ (minimal d' ∨ coefficient d' = 0) ∧
  negative d' = negative d.
Proof.
  intros Hd. destruct (dec_used_len d Hd) as [Hn _]. destruct Hd as (Hc & Hle & Hl & Hs). cbn zeta. unfold normalized.
  pose proof (normalized_loop_spec (len d) (digits d) (scale d) ltac:(rewrite Hl; lia) Hc ltac:(range_lia)) as H.
  destruct (normalized_loop _ _ _) as [[ds n] s]. destruct H as (Hn' & Hl' & Hc' & Hs' & Hv & Hm).
  split; [|split; [|split; [|done]]].
  - unfold dec_used. cbn [len digits scale]. split; [done|]. split; [lia|]. split; [congruence|range_lia].
  - unfold dec_value, coefficient, Qeq. cbn [len digits scale negative Qnum Qden]. rewrite !QDen_pow10 by range_lia.
    rewrite Hv, signed_mul, <-Z.mul_assoc, <-Z.pow_add_r by lia. f_equal. f_equal. lia.
  - unfold minimal, coefficient. cbn [len digits scale]. destruct Hm as [?|[?|E]]; [by left; left|by left; right|].
    right. by rewrite E.
Qed.

(** ** Trimming *)

Lemma take_snoc_digit (ds : list Z) n : (n < length ds)%nat → take (S n) ds = take n ds ++ [digit_at ds n].
Proof.
  intros H. apply lookup_lt_is_Some_2 in H as [x E]. rewrite (take_S_r _ _ x) by done.
  unfold digit_at. by rewrite E.
Qed.

Lemma trim_len_SS ds n : trim_len ds (S (S n)) = if digit_at ds (S n) =? 0 then trim_len ds (S n) else S (S n).
Proof. done. Qed.

Lemma trim_len_spec ds n :
  (0 < n ≤ length ds)%nat → all_digits (take n ds) →
  (0 < trim_len ds n ≤ n)%nat ∧ canonical (take (trim_len ds n) ds) ∧
  take n ds = take (trim_len ds n) ds ++ replicate (n - trim_len ds n) 0.
Proof.
  induction n as [|[|n] IH]; intros Hn Hd; [lia| |].
  { cbn [trim_len]. rewrite Nat.sub_diag, app_nil_r. split_and!; [lia|lia| |done]. split_and!; [done| |].
    - intros E. apply (f_equal length) in E. rewrite length_take in E. cbn [length] in E. lia.
    - intros k E. apply (f_equal length) in E. rewrite length_take, length_app in E.
      destruct k; [done|]. cbn [length] in E. lia. }
  rewrite trim_len_SS. pose proof (take_snoc_digit ds (S n) ltac:(lia)) as Ht.
  destruct (Z.eqb_spec (digit_at ds (S n)) 0) as [E|E].
  - rewrite Ht in Hd. apply Forall_app in Hd as [Hd _]. destruct (IH ltac:(lia) Hd) as (H1 & H2 & H3).
    split_and!; [lia|lia|done|]. rewrite Ht, E, H3, <-app_assoc.
    replace (S (S n) - trim_len ds (S n))%nat with (S n - trim_len ds (S n) + 1)%nat by lia.
    by rewrite replicate_add.
  - rewrite Nat.sub_diag, app_nil_r. split_and!; [lia|lia| |done]. split_and!; [done| |].
    + rewrite Ht. by destruct (take (S n) ds).
    + intros k Ek. rewrite Ht in Ek. apply app_inj_tail in Ek as [_ Ek]. done.
Qed.

(** ** Alignment *)

Lemma all_zero_dval l : all_digits l → forallb (λ x, x =? 0) l = true ↔ dval l = 0.
Proof.
  induction 1 as [|d l Hd Hl IH]; [done|]. cbn [forallb dval]. pose proof (dval_nonneg l Hl). unfold is_digit in Hd.
  rewrite andb_true_iff, Z.eqb_eq, IH. lia.
Qed.

Lemma canonical_shift n l : canonical l → 0 < dval l → canonical (replicate n 0 ++ l).
Proof.
  intros (Hd & Hne & Hz) Hpos. split_and!.
  - apply Forall_app. split; [|done]. apply Forall_replicate. unfold is_digit. lia.
  - by destruct (replicate n 0), l.
  - intros k E. destruct l as [|x l _] using rev_ind; [done|]. rewrite app_assoc in E.
    apply app_inj_tail in E as [<- ->]. rewrite (Hz l eq_refl) in Hpos. cbn in Hpos. lia.
Qed.

Lemma aligned_spec d to :
  dec_ok d → negative d = false → is_u8 to → scale d ≤ to →
  match aligned d to with
  | Some d' => dec_ok d' ∧ negative d' = false ∧ scale d' = to ∧
      coefficient d' = coefficient d * 10 ^ (to - scale d)
  | None => (MAX_DIGITS < len d + Z.to_nat (to - scale d))%nat
  end.
Proof.
  intros Hd Hn Hto Hle. unfold aligned. rewrite (proj2 (Z.ltb_ge _ _)) by done.
  pose proof (all_zero_dval _ (proj1 (proj1 Hd))) as Hz. pose proof (dec_ok_coefficient d Hd) as Hc.
  destruct (dec_ok_len d Hd) as [Hlen El]. fold (coefficient d) in Hz.
  destruct (forallb _ _).
  { destruct (zero_ok to Hto) as [Hok Hv]. rewrite Hv, (proj1 Hz eq_refl). split_and!; done. }
  destruct (Nat.ltb_spec MAX_DIGITS (len d + Z.to_nat (to - scale d))) as [Hbig|Hsmall]; [done|].
  assert (0 < coefficient d) as Hpos by (destruct (decide (coefficient d = 0)) as [E|]; [apply Hz in E; done|lia]).
  rewrite app_assoc. destruct (dec_ok_intro (negative d) (replicate (Z.to_nat (to - scale d)) 0 ++ take (len d) (digits d))
    (len d + Z.to_nat (to - scale d)) to) as [Hok Hv]; [|rewrite length_app, length_replicate, El; lia|done|done|].
  { apply canonical_shift; [apply Hd|done]. }
  split; [done|]. split; [done|]. split; [done|]. rewrite Hv, dval_app, dval_zeros, length_replicate, Z2Nat.id by lia.
  unfold coefficient. lia.
Qed.

(** ** Loops over arrays *)

Lemma drop_digit (ds : list Z) i : (i < length ds)%nat → drop i ds = digit_at ds i :: drop (S i) ds.
Proof.
  intros H. apply lookup_lt_is_Some_2 in H as [x E]. unfold digit_at. rewrite E. by apply drop_S.
Qed.
Lemma tl_window n i (ds : list Z) : tl (take (S n) (drop i ds)) = take n (drop (S i) ds).
Proof.
  replace (S i) with (i + 1)%nat by lia. rewrite <-drop_drop. destruct (drop i ds); [by destruct n|done].
Qed.
Lemma hd_window n i (ds : list Z) : hd 0 (take (S n) (drop i ds)) = digit_at ds i.
Proof. rewrite digit_at_hd. by destruct (drop i ds). Qed.

(** Writing place [i] and going on from there. *)
Lemma write_window (ds : list Z) i n x ws :
  (i < length ds)%nat →
  take (S i) (<[i:=x]> ds) ++ ws ++ drop (S i + n) (<[i:=x]> ds) = take i ds ++ (x :: ws) ++ drop (i + S n) ds.
Proof.
  intros Hi. rewrite take_push, <-app_assoc by done. rewrite drop_insert_lt by lia.
  by replace (S i + n)%nat with (i + S n)%nat by lia.
Qed.

Lemma sub_loop_spec n i left right b ws :
  (i + n ≤ length left)%nat →
  subtract_from (take n (drop i left)) (take n (drop i right)) b = Some ws →
  sub_loop n i left right b = Some (take i left ++ ws ++ drop (i + n) left).
Proof.
  revert i left b ws. induction n as [|n IH]; intros i left b ws Hn Hs.
  { rewrite !take_0 in Hs. cbn [subtract_from sub_loop] in *. destruct (b =? 0); [|done]. injection Hs as <-.
    rewrite Nat.add_0_r, app_nil_l. by rewrite take_drop. }
  rewrite (drop_digit left) in Hs by lia. cbn [take subtract_from] in Hs. cbn [sub_loop].
  rewrite hd_window, tl_window in Hs. set (l := digit_at left i) in *. set (r := digit_at right i) in *.
  assert (∀ x b', match subtract_from (take n (drop (S i) left)) (take n (drop (S i) right)) b' with
      | Some ws' => sub_loop n (S i) (<[i:=x]> left) right b' = Some (take i left ++ (x :: ws') ++ drop (i + S n) left)
      | None => True end) as Hrec.
  { intros x b'. destruct (subtract_from _ _ b') as [ws'|] eqn:E; [|done].
    rewrite (IH (S i) (<[i:=x]> left) b' ws').
    - by rewrite write_window by lia.
    - rewrite length_insert. lia.
    - by rewrite drop_insert_lt by lia. }
  destruct (Z.ltb_spec l (r + b)) as [Hlt|Hge].
  - rewrite (proj2 (Z.ltb_lt (l - r - b) 0)) by lia. replace (l - r - b + 10) with (10 + l - (r + b)) by lia.
    destruct (checked 0 U8_MAX _) as [x|]; cbn [mbind option_bind] in *; [|done].
    specialize (Hrec x 1). destruct (subtract_from _ _ 1) as [ws'|]; cbn in Hs; [|done]. injection Hs as <-. done.
  - rewrite (proj2 (Z.ltb_ge (l - r - b) 0)) by lia. replace (l - r - b) with (l - (r + b)) by lia.
    destruct (checked 0 U8_MAX _) as [x|]; cbn [mbind option_bind] in *; [|done].
    specialize (Hrec x 0). destruct (subtract_from _ _ 0) as [ws'|]; cbn in Hs; [|done]. injection Hs as <-. done.
Qed.

Lemma zeros_window n m : dval (take n (replicate m 0)) = 0.
Proof. rewrite take_replicate. apply dval_zeros. Qed.

Lemma dec_ok_digits d : dec_ok d → all_digits (digits d).
Proof.
  intros (Hc & _ & _ & -> & _). apply Forall_app. split; [apply Hc|]. apply Forall_replicate. unfold is_digit. lia.
Qed.

(** The first [n] places hold the coefficient once [n] covers it. *)
Lemma dec_ok_window d n : dec_ok d → (len d ≤ n)%nat → dval (take n (digits d)) = coefficient d.
Proof.
  intros Hd Hn. destruct (dec_ok_len d Hd) as [_ El]. destruct Hd as (_ & _ & _ & E & _). rewrite E at 1.
  rewrite take_app_ge by lia. rewrite dval_app, zeros_window. unfold coefficient. lia.
Qed.

Lemma compare_magnitude_spec l r :
  dec_ok l → dec_ok r → compare_magnitude l r = (coefficient l ?= coefficient r).
Proof. intros Hl Hr. apply compare_digits_spec; [apply Hl|apply Hr]. Qed.

Lemma sub_digits_value l r :
  dec_ok l → dec_ok r → coefficient r ≤ coefficient l →
  ∃ ws, sub_loop (len l) 0 (digits l) (digits r) 0 = Some (ws ++ replicate (MAX_DIGITS - len l) 0) ∧
    all_digits ws ∧ length ws = len l ∧ dval ws = coefficient l - coefficient r.
Proof.
  intros Hl Hr Hle. destruct (dec_ok_len l Hl) as [Hn El], (dec_ok_len r Hr) as [_ Er].
  assert (len r ≤ len l)%nat as Hlen.
  { rewrite <-El, <-Er. apply canonical_length_mono; [apply Hl|apply Hr|done]. }
  pose proof Hl as (_ & _ & HL & E & _). pose proof Hr as (_ & _ & HR & _ & _).
  destruct (subtract_from_spec (take (len l) (digits l)) (take (len l) (digits r)) 0) as (ws & Hs & Hd & Hv & Hw).
  - apply Hl.
  - apply Forall_take, dec_ok_digits, Hr.
  - lia.
  - rewrite (dec_ok_window r) by done. fold (coefficient l). lia.
  - rewrite !length_take. lia.
  - exists ws. split_and!; [|done|lia|].
    + rewrite (sub_loop_spec _ _ _ _ _ ws) by (try done; lia). rewrite take_0, app_nil_l. do 2 f_equal.
      rewrite E at 1. by apply drop_app_length'.
    + rewrite Hv, (dec_ok_window r) by done. fold (coefficient l). lia.
Qed.

(** An array of [n] digits with the leading zeros given up. *)
Lemma trimmed_ok ws n to :
  all_digits ws → length ws = n → (0 < n ≤ MAX_DIGITS)%nat → is_u8 to →
  let ds := ws ++ replicate (MAX_DIGITS - n) 0 in
  let d := mk_decimal false ds (trim_len ds n) to in
  dec_ok d ∧ coefficient d = dval ws.
Proof.
  intros Hd <- Hn Hto. cbn zeta. set (n := length ws) in *. set (ds := ws ++ _).
  assert (take n ds = ws) as Ht by (apply take_app_length).
  assert (length ds = MAX_DIGITS) as Hl by (subst ds; rewrite length_app, length_replicate; lia).
  destruct (trim_len_spec ds n ltac:(lia) ltac:(by rewrite Ht)) as (H1 & H2 & H3).
  set (k := trim_len ds n) in *. unfold dec_ok, coefficient. cbn [len digits scale].
  split; [split; [done|split; [lia|split; [done|split; [|done]]]]|].
  - rewrite <-(take_drop n ds) at 1. rewrite H3. rewrite <-app_assoc. f_equal.
    unfold ds. rewrite drop_app_length' by done. rewrite <-replicate_add. f_equal. lia.
  - rewrite <-Ht at 1. rewrite H3, dval_app, dval_zeros. lia.
Qed.

(** ** Differences *)

Definition max_q (a b : Q) : Q := if Qle_bool a b then b else a.
#[global] Instance max_q_proper : Proper (Qeq ==> Qeq ==> Qeq) max_q.
Proof.
  intros a a' Ea b b' Eb. unfold max_q. assert (Qle_bool a b = Qle_bool a' b') as ->.
  { apply eq_true_iff_eq. by rewrite !Qle_bool_iff, Ea, Eb. }
  by destruct (Qle_bool a' b').
Qed.

Lemma aligned_value d d' to :
  scale d' = to → negative d = false → negative d' = false → 0 ≤ scale d ≤ to →
  coefficient d' = coefficient d * 10 ^ (to - scale d) → (dec_value d' == dec_value d)%Q.
Proof.
  intros Hs Hn Hn' Hto Hc. unfold dec_value, Qeq. cbn [Qnum Qden]. rewrite Hs, Hn, Hn', Hc, !QDen_pow10 by lia.
  cbn [signed]. rewrite <-Z.mul_assoc, <-Z.pow_add_r by lia. do 2 f_equal. lia.
Qed.

Definition alignable (d : Decimal) (to : Z) : Prop := (len d + Z.to_nat (to - scale d) ≤ MAX_DIGITS)%nat.

Lemma common_value (a b c to : Z) :
  0 ≤ to → c = a - b →
  (Qmake c (Z.to_pos (10 ^ to)) == Qmake a (Z.to_pos (10 ^ to)) - Qmake b (Z.to_pos (10 ^ to)))%Q.
Proof.
  intros Hto ->. unfold Qminus, Qplus, Qopp, Qeq. cbn [Qnum Qden]. rewrite Pos2Z.inj_mul. lia.
Qed.

Lemma saturating_sub_spec a b :
  dec_ok a → dec_ok b → negative a = false → negative b = false →
  let to := Z.max (scale a) (scale b) in
  match saturating_sub a b with
  | Some d => dec_used d ∧ negative d = false ∧ (minimal d ∨ coefficient d = 0) ∧
      (dec_value d == max_q 0 (dec_value a - dec_value b))%Q
  | None => ¬ alignable a to ∨ ¬ alignable b to
  end.
Proof.
  intros Ha Hb Na Nb. cbn zeta. unfold saturating_sub. rewrite Na, Nb. cbn [orb].
  set (to := Z.max (scale a) (scale b)).
  assert (is_u8 (scale a)) as Sa by apply Ha. assert (is_u8 (scale b)) as Sb by apply Hb.
  pose proof (aligned_spec a to Ha Na ltac:(range_lia) ltac:(lia)) as Hl.
  destruct (aligned a to) as [l|]; cbn [mbind option_bind]; [|left; unfold alignable; lia].
  pose proof (aligned_spec b to Hb Nb ltac:(range_lia) ltac:(lia)) as Hr.
  destruct (aligned b to) as [r|]; cbn [mbind option_bind]; [|right; unfold alignable; lia].
  destruct Hl as (Ol & Nl & Sl & Cl), Hr as (Or & Nr & Sr & Cr).
  assert (dec_value a - dec_value b == Qmake (coefficient l - coefficient r) (Z.to_pos (10 ^ to)))%Q as Hv.
  { rewrite <-(aligned_value a l to), <-(aligned_value b r to) by (done || range_lia).
    unfold dec_value. rewrite Sl, Sr, Nl, Nr. cbn [signed]. symmetry. apply common_value; [range_lia|done]. }
  pose proof (pow10_gt0 to ltac:(range_lia)) as Hp.
  rewrite compare_magnitude_spec by done.
  destruct (Z.compare_spec (coefficient l) (coefficient r)) as [E|E|E].
  2: { destruct (zero_ok to ltac:(range_lia)) as [Hz Hz0]. split; [by apply dec_ok_used|]. split; [done|]. split; [by right|].
       unfold max_q. destruct (Qle_bool 0 _) eqn:Eq; [|unfold dec_value; rewrite Hz0; done].
       apply Qle_bool_iff in Eq. rewrite Hv in Eq. unfold Qle in Eq. cbn [Qnum Qden] in Eq. lia. }
  all: destruct (sub_digits_value l r Ol Or ltac:(lia)) as (ws & -> & Hd & Hlen & Hw); cbn [mbind option_bind].
  all: destruct (dec_ok_len l Ol) as [Hn _].
  all: destruct (trimmed_ok ws (len l) to Hd Hlen Hn ltac:(range_lia)) as [Ht Hc]; cbn zeta in Ht, Hc.
  all: destruct (normalized_value _ (dec_ok_used _ Ht)) as (Hu & Hval & Hmin & Hneg).
  all: split; [done|]; split; [done|]; split; [done|]; rewrite Hval; unfold dec_value; rewrite Hc, Hw; cbn [negative scale signed].
  all: rewrite <-Hv; unfold max_q; destruct (Qle_bool 0 _) eqn:Eq; [done|].
  all: exfalso; apply not_true_iff_false in Eq; apply Eq, Qle_bool_iff; rewrite Hv; unfold Qle; cbn [Qnum Qden]; lia.
Qed.

(** ** Sums *)

(** The digits and the carry of a column addition of [n] places. *)
Fixpoint add_window (n : nat) (l r : list Z) (c : Z) : list Z * Z :=
  match n with
  | O => ([], c)
  | S n =>
      let s := hd 0 l + hd 0 r + c in
      let '(ws, c') := add_window n (tl l) (tl r) (s / 10) in (s mod 10 :: ws, c')
  end.

Lemma hd_tl_digits l : all_digits l → is_digit (hd 0 l) ∧ all_digits (tl l).
Proof.
  intros [|d k Hd Hk]; cbn; [|done]. split; [unfold is_digit; lia|done].
Qed.
Lemma dval_window n l : dval (take (S n) l) = hd 0 l + 10 * dval (take n (tl l)).
Proof. destruct l as [|d l]; cbn [take hd tl dval]; [by rewrite take_nil|done]. Qed.

Lemma add_window_spec n l r c :
  all_digits l → all_digits r → 0 ≤ c ≤ 1 →
  let '(ws, c') := add_window n l r c in
  all_digits ws ∧ length ws = n ∧ 0 ≤ c' ≤ 1 ∧
  dval ws + 10 ^ Z.of_nat n * c' = dval (take n l) + dval (take n r) + c.
Proof.
  revert l r c. induction n as [|n IH]; intros l r c Hl Hr Hc.
  { cbn [add_window]. rewrite !take_0. cbn [dval Z.of_nat]. split_and!; [done..|lia|lia|lia]. }
  cbn [add_window]. destruct (hd_tl_digits l Hl) as [Hdl Hl'], (hd_tl_digits r Hr) as [Hdr Hr'].
  unfold is_digit in Hdl, Hdr. set (s := hd 0 l + hd 0 r + c).
  assert (0 ≤ s / 10 ≤ 1) as Hc' by (split; [apply Z.div_pos|apply Z.lt_succ_r, Z.div_lt_upper_bound]; lia).
  pose proof (Z.mod_pos_bound s 10). pose proof (Z.div_mod s 10).
  specialize (IH (tl l) (tl r) (s / 10) Hl' Hr' Hc'). destruct (add_window n _ _ _) as [ws c'].
  destruct IH as (Hws & Hlen & Hcc & Hv). rewrite !dval_window, pow10_S. cbn [dval length].
  split_and!; [constructor; [unfold is_digit; lia|done]|lia|lia|lia|lia].
Qed.

Lemma digit_at_shifted (v : list Z) k i :
  (if Nat.leb k i then digit_at v (i - k) else 0) = digit_at (replicate k 0 ++ v) i.
Proof.
  unfold digit_at. destruct (Nat.leb_spec k i) as [H|H].
  - rewrite lookup_app_r by (by rewrite length_replicate). by rewrite length_replicate.
  - rewrite lookup_app_l by (by rewrite length_replicate). by rewrite lookup_replicate_2.
Qed.

Lemma tl_drop (l : list Z) i : tl (drop i l) = drop (S i) l.
Proof. replace (S i) with (i + 1)%nat by lia. rewrite <-drop_drop. by destruct (drop i l). Qed.

Lemma sum_loop_spec n i ds v k c :
  (i + n ≤ length ds)%nat →
  let '(ws, c') := add_window n (drop i ds) (drop i (replicate k 0 ++ v)) c in
  sum_loop n i ds v k c = (take i ds ++ ws ++ drop (i + n) ds, c').
Proof.
  revert i ds c. induction n as [|n IH]; intros i ds c Hn.
  { cbn [add_window sum_loop]. by rewrite Nat.add_0_r, app_nil_l, take_drop. }
  cbn [add_window sum_loop]. rewrite <-!digit_at_hd, !tl_drop, digit_at_shifted.
  set (s := _ + _ + c). specialize (IH (S i) (<[i:=s mod 10]> ds) (s / 10) ltac:(rewrite length_insert; lia)).
  rewrite drop_insert_lt in IH by lia. destruct (add_window n _ _ _) as [ws c']. rewrite IH.
  by rewrite write_window by lia.
Qed.

Definition acc_dec (a : DecimalAccumulator) : Decimal := mk_decimal false (a_digits a) (a_len a) (a_scale a).

Lemma shift_up_ok d shift :
  dec_ok d → (len d + shift ≤ MAX_DIGITS)%nat →
  shift_up (digits d) (len d) shift =
    (replicate shift 0 ++ take (len d) (digits d)) ++ replicate (MAX_DIGITS - (len d + shift)) 0.
Proof.
  intros Hd Hn. destruct (dec_ok_len d Hd) as [_ El]. destruct Hd as (_ & _ & _ & E & _). unfold shift_up.
  rewrite <-app_assoc. do 2 f_equal. rewrite E at 1.
  rewrite drop_app_ge by lia. rewrite El, drop_replicate. f_equal. lia.
Qed.

(** The array of the accumulator at the common scale. *)
Lemma shifted_digits a to :
  dec_ok a → scale a ≤ to → alignable a to →
  let shift := Z.to_nat (to - scale a) in
  let ds := if Nat.ltb 0 shift then shift_up (digits a) (len a) shift else digits a in
  length ds = MAX_DIGITS ∧ all_digits ds ∧
  ∀ n, (len a + shift ≤ n)%nat → dval (take n ds) = coefficient a * 10 ^ (to - scale a) ∧
    drop n ds = replicate (MAX_DIGITS - n) 0.
Proof.
  intros Ha Hto Hal. cbn zeta. unfold alignable in Hal. set (shift := Z.to_nat (to - scale a)) in *.
  destruct (dec_ok_len a Ha) as [Hn El].
  assert ((if Nat.ltb 0 shift then shift_up (digits a) (len a) shift else digits a) =
    (replicate shift 0 ++ take (len a) (digits a)) ++ replicate (MAX_DIGITS - (len a + shift)) 0) as ->.
  { destruct (Nat.ltb_spec 0 shift) as [H|H]; [by apply shift_up_ok|]. replace shift with 0%nat by lia.
    rewrite Nat.add_0_r. apply Ha. }
  assert (length (replicate shift 0 ++ take (len a) (digits a)) = (len a + shift)%nat) as Hlen
    by (rewrite length_app, length_replicate, El; lia).
  split_and!.
  - rewrite length_app, Hlen, length_replicate. lia.
  - apply Forall_app. split; [apply Forall_app; split|].
    + apply Forall_replicate. unfold is_digit. lia.
    + apply Ha.
    + apply Forall_replicate. unfold is_digit. lia.
  - intros n Hge. split.
    + rewrite take_app_ge by lia. rewrite dval_app, zeros_window, dval_app, dval_zeros, length_replicate.
      fold (coefficient a). subst shift. rewrite Z2Nat.id by lia. lia.
    + rewrite drop_app_ge by lia. rewrite Hlen, drop_replicate. f_equal. lia.
Qed.

Lemma shifted_value v k n :
  dec_ok v → (len v + k ≤ n)%nat →
  all_digits (replicate k 0 ++ digits v) ∧
  dval (take n (replicate k 0 ++ digits v)) = coefficient v * 10 ^ Z.of_nat k.
Proof.
  intros Hv Hn. split.
  - apply Forall_app. split; [apply Forall_replicate; unfold is_digit; lia|by apply dec_ok_digits].
  - rewrite take_app_ge by (rewrite length_replicate; lia). rewrite dval_app, dval_zeros, length_replicate.
    rewrite dec_ok_window by (done || lia). lia.
Qed.

Definition sum_at (a v : Decimal) (to : Z) : Z :=
  coefficient a * 10 ^ (to - scale a) + coefficient v * 10 ^ (to - scale v).

Lemma write_carry ws n c rest :
  length ws = n → rest = replicate (MAX_DIGITS - n) 0 → (n < MAX_DIGITS)%nat →
  <[n:=c]> (ws ++ rest) = (ws ++ [c]) ++ replicate (MAX_DIGITS - S n) 0.
Proof.
  intros <- -> Hn. rewrite insert_app_r_alt by lia. rewrite Nat.sub_diag, <-app_assoc.
  replace (MAX_DIGITS - length ws)%nat with (S (MAX_DIGITS - S (length ws))) by lia. done.
Qed.

(** The columns of a sum: what is written, and what is left over. *)
Lemma sum_columns a v to n ds :
  dec_ok a → dec_ok v → 0 ≤ scale a ≤ to → 0 ≤ scale v ≤ to → alignable a to →
  ds = (if Nat.ltb 0 (Z.to_nat (to - scale a)) then shift_up (digits a) (len a) (Z.to_nat (to - scale a)) else digits a) →
  (len a + Z.to_nat (to - scale a) ≤ n)%nat → (len v + Z.to_nat (to - scale v) ≤ n)%nat → (n ≤ MAX_DIGITS)%nat →
  ∃ ws c, sum_loop n 0 ds (digits v) (Z.to_nat (to - scale v)) 0 = (ws ++ replicate (MAX_DIGITS - n) 0, c) ∧
    all_digits ws ∧ length ws = n ∧ 0 ≤ c ≤ 1 ∧ dval ws + 10 ^ Z.of_nat n * c = sum_at a v to.
Proof.
  intros Ha Hv Hsa Hsv Hal -> Hna Hnv Hn.
  destruct (shifted_digits a to Ha ltac:(lia) Hal) as (Hl & Hd & Hw). cbn zeta in Hw, Hl, Hd.
  set (ds := if Nat.ltb 0 _ then _ else _) in *. destruct (Hw n Hna) as [Hwa Hda].
  destruct (shifted_value v (Z.to_nat (to - scale v)) n Hv Hnv) as [HVd HVv]. rewrite Z2Nat.id in HVv by lia.
  pose proof (sum_loop_spec n 0 ds (digits v) (Z.to_nat (to - scale v)) 0 ltac:(lia)) as Hloop. rewrite !drop_0 in Hloop.
  pose proof (add_window_spec n ds _ 0 Hd HVd ltac:(lia)) as Hadd.
  destruct (add_window n _ _ 0) as [ws c]. destruct Hadd as (Hws & Hlen & Hc & Hval).
  exists ws, c. rewrite Hloop, take_0, app_nil_l. cbn [Nat.add]. rewrite Hda. split_and!; [done..|lia|lia|].
  unfold sum_at. lia.
Qed.

Lemma sum_value a v d to :
  negative a = false → negative v = false → negative d = false → scale d = to →
  0 ≤ scale a ≤ to → 0 ≤ scale v ≤ to → coefficient d = sum_at a v to →
  (dec_value d == dec_value a + dec_value v)%Q.
Proof.
  intros Na Nv Nd Sd Ha Hv Hc. unfold dec_value, Qplus, Qeq. cbn [Qnum Qden]. rewrite Na, Nv, Nd, Sd, Hc. cbn [signed].
  rewrite Pos2Z.inj_mul, !QDen_pow10 by lia. unfold sum_at.
  assert (10 ^ to = 10 ^ (to - scale a) * 10 ^ scale a) as Ea by (rewrite <-Z.pow_add_r by lia; f_equal; lia).
  assert (10 ^ to = 10 ^ (to - scale v) * 10 ^ scale v) as Ev by (rewrite <-Z.pow_add_r by lia; f_equal; lia).
  rewrite !Z.mul_add_distr_r. f_equal.
  - rewrite Ea. lia.
  - rewrite Ev. lia.
Qed.

Lemma acc_add_spec a v :
  a_found a = true → dec_ok (acc_dec a) → dec_ok v → negative v = false →
  let to := Z.max (a_scale a) (scale v) in
  match acc_add a v with
  | Some a' => a_found a' = true ∧ dec_ok (acc_dec a') ∧
      (dec_value (acc_dec a') == dec_value (acc_dec a) + dec_value v)%Q
  | None => ¬ alignable (acc_dec a) to ∨ ¬ alignable v to ∨
      10 ^ Z.of_nat MAX_DIGITS ≤ sum_at (acc_dec a) v to
  end.
Proof.
  intros Hf Ha Hv Nv. cbn zeta. unfold acc_add. rewrite Nv, Hf. cbn [negb].
  set (to := Z.max (a_scale a) (scale v)). set (d := acc_dec a) in *.
  change (a_digits a) with (digits d). change (a_len a) with (len d). change (a_scale a) with (scale d).
  assert (is_u8 (scale d)) as Sa by apply Ha. assert (is_u8 (scale v)) as Sv by apply Hv.
  assert (scale d ≤ to ∧ scale v ≤ to ∧ is_u8 to) as (Hsa & Hsv & Hto)
    by (subst to; change (a_scale a) with (scale d); split_and!; range_lia).
  destruct (Nat.ltb_spec MAX_DIGITS (len d + Z.to_nat (to - scale d))) as [H1|H1]; [left; unfold alignable; lia|].
  destruct (Nat.ltb_spec MAX_DIGITS (len v + Z.to_nat (to - scale v))) as [H2|H2]; [right; left; unfold alignable; lia|].
  cbn [orb].
  set (ds := if Nat.ltb 0 (Z.to_nat (to - scale d)) then shift_up (digits d) (len d) (Z.to_nat (to - scale d)) else digits d).
  assert ((if Nat.ltb 0 (Z.to_nat (to - scale d)) then (shift_up (digits d) (len d) (Z.to_nat (to - scale d)), (len d + Z.to_nat (to - scale d))%nat)
    else (digits d, len d)) = (ds, (len d + Z.to_nat (to - scale d))%nat)) as ->.
  { subst ds. destruct (Nat.ltb_spec 0 (Z.to_nat (to - scale d))); [done|]. f_equal. lia. }
  set (n := Nat.max _ _). destruct (dec_ok_len d Ha) as [Hpos _].
  destruct (sum_columns d v to n ds Ha Hv ltac:(range_lia) ltac:(range_lia) H1 eq_refl ltac:(lia) ltac:(lia) ltac:(lia))
    as (ws & c & -> & Hws & Hlen & Hc & Hval).
  assert (∀ ks m, all_digits ks → length ks = m → (0 < m ≤ MAX_DIGITS)%nat → dval ks = sum_at d v to →
    let zs := ks ++ replicate (MAX_DIGITS - m) 0 in
    let a' := mk_acc zs (trim_len zs m) to true in
    a_found a' = true ∧ dec_ok (acc_dec a') ∧ (dec_value (acc_dec a') == dec_value d + dec_value v)%Q) as Hdone.
  { intros ks m Hk Hkl Hm Hkv. cbn zeta. destruct (trimmed_ok ks m to Hk Hkl Hm Hto) as [Hok Hcoef].
    split; [done|]. split; [done|]. apply (sum_value d v _ to); [done..|range_lia|range_lia|]. by rewrite <-Hkv, <-Hcoef. }
  destruct (0 <? c) eqn:Ec; bool_to_prop; cbn [mbind option_bind].
  - destruct (Nat.eqb_spec n MAX_DIGITS) as [E|E]; cbn [mbind option_bind].
    + right. right. pose proof (dval_nonneg ws Hws). rewrite E in Hval. pose proof (pow10_pos MAX_DIGITS). nia.
    + rewrite (write_carry ws n c _ Hlen eq_refl) by lia. apply Hdone; [|rewrite length_app; cbn [length]; lia|lia|].
      * apply Forall_app. split; [done|]. constructor; [unfold is_digit; lia|done].
      * rewrite dval_snoc, Hlen. lia.
  - apply Hdone; [done|done|lia|]. rewrite <-Hval. replace c with 0 by lia. lia.
Qed.

(** ** Sums that fit *)

(** Thirty-three digits before the point leave room for every scale. *)
Definition spend_bound : Q := inject_Z (10 ^ 33).

Lemma value_bound d :
  negative d = false → 0 ≤ scale d → (dec_value d < spend_bound)%Q → coefficient d < 10 ^ (33 + scale d).
Proof.
  intros Nd Hs H. unfold dec_value, spend_bound, Qlt in H. cbn [Qnum Qden inject_Z] in H.
  rewrite QDen_pow10, Nd in H by done. cbn [signed] in H. rewrite Z.pow_add_r by lia. lia.
Qed.

Lemma small_alignable d to :
  dec_ok d → negative d = false → is_u8 to → scale d ≤ to → (dec_value d < spend_bound)%Q → alignable d to.
Proof.
  intros Hd Nd Hto Hle Hb. assert (is_u8 (scale d)) as Hs by apply Hd. unfold alignable, MAX_DIGITS.
  apply value_bound in Hb; [|done|range_lia]. destruct (decide (len d = 1%nat)) as [E|E]; [range_lia|].
  pose proof (coefficient_lower d (dec_ok_used _ Hd) E) as Hlow.
  assert (Z.of_nat (pred (len d)) < 33 + scale d) by (apply (Z.pow_lt_mono_r_iff 10); range_lia). range_lia.
Qed.

Lemma small_sum a v to :
  negative a = false → negative v = false → 0 ≤ scale a ≤ to → 0 ≤ scale v ≤ to → is_u8 to →
  (dec_value a + dec_value v < spend_bound)%Q → sum_at a v to < 10 ^ Z.of_nat MAX_DIGITS.
Proof.
  intros Na Nv Ha Hv Hto H. set (d := mk_decimal false [sum_at a v to] 1 to).
  rewrite <-(sum_value a v d to) in H; [|done..|cbn; lia].
  apply value_bound in H; [|done|unfold d; cbn [scale]; range_lia]. unfold d, coefficient in H. cbn [take len digits dval scale] in H.
  assert (10 ^ (33 + to) ≤ 10 ^ Z.of_nat MAX_DIGITS) by (apply Z.pow_le_mono_r; unfold MAX_DIGITS; range_lia). lia.
Qed.

Lemma dec_value_nonneg d : dec_ok d → negative d = false → (0 <= dec_value d)%Q.
Proof.
  intros Hd Nd. unfold dec_value, Qle. cbn [Qnum Qden]. rewrite Nd. pose proof (dec_ok_coefficient d Hd). cbn [signed]. lia.
Qed.

Definition acc_value (a : DecimalAccumulator) : Q := if a_found a then dec_value (acc_dec a) else 0.
Definition acc_ok (a : DecimalAccumulator) : Prop :=
  if a_found a then dec_ok (acc_dec a) else a = acc_default.

Lemma acc_value_nonneg a : acc_ok a → (0 <= acc_value a)%Q.
Proof.
  unfold acc_ok, acc_value. destruct (a_found a); [|intros _; apply Qle_refl]. intros H. by apply dec_value_nonneg.
Qed.

Lemma acc_add_ok a v :
  acc_ok a → dec_ok v → negative v = false →
  match acc_add a v with
  | Some a' => acc_ok a' ∧ a_found a' = true ∧ (acc_value a' == acc_value a + dec_value v)%Q
  | None => (spend_bound <= acc_value a + dec_value v)%Q
  end.
Proof.
  intros Ha Hv Nv. unfold acc_ok, acc_value in *. destruct (a_found a) eqn:Hf.
  - pose proof (acc_add_spec a v Hf Ha Hv Nv) as H. cbn zeta in H. destruct (acc_add a v) as [a'|].
    + destruct H as (Hf' & Hok & Hval). by rewrite Hf'.
    + destruct (Qlt_le_dec (dec_value (acc_dec a) + dec_value v) spend_bound) as [Hlt|]; [exfalso|done].
      assert (is_u8 (a_scale a)) as Sa by apply Ha. assert (is_u8 (scale v)) as Sv by apply Hv.
      pose proof (dec_value_nonneg _ Ha eq_refl) as Pa. pose proof (dec_value_nonneg _ Hv Nv) as Pv.
      destruct H as [H|[H|H]].
      * apply H. apply small_alignable; [done|done|range_lia|cbn; lia|].
        eapply Qle_lt_trans; [|exact Hlt]. rewrite <-Qplus_0_r at 1. by apply Qplus_le_r.
      * apply H. apply small_alignable; [done|done|range_lia|lia|].
        eapply Qle_lt_trans; [|exact Hlt]. rewrite <-Qplus_0_l at 1. by apply Qplus_le_l.
      * apply small_sum with (to := Z.max (a_scale a) (scale v)) in Hlt; [lia|done|done|cbn; range_lia|range_lia|range_lia].
  - subst a. unfold acc_add. rewrite Nv. cbn [a_found acc_default negb a_digits a_len].
    assert (take (len v) (digits v) ++ drop (len v) no_digits = digits v) as E.
    { destruct Hv as (_ & _ & _ & E & _). rewrite E at 2. f_equal. unfold no_digits. by rewrite drop_replicate. }
    rewrite E. cbn [a_found]. unfold acc_dec. cbn [a_digits a_len a_scale].
    assert (mk_decimal false (digits v) (len v) (scale v) = v) as -> by (destruct v; cbn in *; by subst).
    split; [done|]. split; [done|]. by rewrite Qplus_0_l.
Qed.

(** ** The sum of the numbers of a reply *)

(** A number counts unless it is below zero. *)
Definition counted (n : JsonNumber) : bool := negb (j_negative n && negb (j_coefficient n =? 0)).
Fixpoint total (ns : list JsonNumber) : Q :=
  match ns with
  | [] => 0
  | n :: ns => if counted n then json_value n + total ns else total ns
  end.

Lemma mantissa_nonzero_digits ds rest :
  all_digits ds → mantissa_nonzero (map digit_byte ds ++ rest) = negb (bval ds =? 0) || mantissa_nonzero rest.
Proof.
  induction 1 as [|d ds Hd Hds IH]; [done|]. cbn [map app mantissa_nonzero].
  pose proof (bval_bound ds Hds) as Hb. pose proof (pow10_pos (length ds)) as Hp. rewrite bval_cons.
  unfold is_e, byte_is, between. rewrite digit_byte_Z by done. unfold is_digit in Hd.
  rewrite !(proj2 (Z.eqb_neq (48 + d) _)) by lia. cbn [orb].
  destruct (Z.leb_spec 49 (48 + d)) as [H|H]; cbn [andb].
  - rewrite (proj2 (Z.leb_le _ _)) by lia. by rewrite (proj2 (Z.eqb_neq _ 0)) by nia.
  - rewrite IH. replace d with 0 by lia. by rewrite Z.mul_0_l, Z.add_0_l.
Qed.

Lemma tail_zero n : mantissa_nonzero (render_tail n) = false.
Proof. unfold render_tail, exponent_text. destruct (j_exponent n) as [[[] s ds]|]; done. Qed.

Lemma mantissa_nonzero_render n :
  number_ok n →
  mantissa_nonzero (map digit_byte (j_integer n) ++ fraction_text n ++ render_tail n) = negb (j_coefficient n =? 0).
Proof.
  intros (Hi & _ & Hf & _). rewrite mantissa_nonzero_digits by done.
  assert (mantissa_nonzero (fraction_text n ++ render_tail n) = negb (bval (j_fraction n) =? 0)) as ->.
  { unfold fraction_text. destruct (j_fraction n) as [|d ds]; [apply tail_zero|].
    rewrite <-app_comm_cons. change (mantissa_nonzero (byte_of_Z 46 :: ?r)) with (mantissa_nonzero r).
    by rewrite mantissa_nonzero_digits, tail_zero, orb_false_r by done. }
  unfold j_coefficient. rewrite bval_app. pose proof (bval_bound _ Hi) as Bi. pose proof (bval_bound _ Hf) as Bf.
  pose proof (pow10_pos (length (j_fraction n))) as Hp.
  destruct (Z.eqb_spec (bval (j_integer n)) 0) as [->|Ei]; cbn [negb orb]; [by rewrite Z.mul_0_l, Z.add_0_l|].
  by rewrite (proj2 (Z.eqb_neq _ 0)) by nia.
Qed.

Lemma of_bytes_cons b bs : of_bytes (b :: bs) = of_bytes [b] +:+ of_bytes bs.
Proof. done. Qed.

Lemma first_digit n : number_ok n → ∃ d ds, j_integer n = d :: ds ∧ is_digit d.
Proof. intros (Hi & Hne & _). destruct (j_integer n) as [|d ds]; [done|]. apply Forall_cons in Hi as [Hd _]. eauto. Qed.

Lemma is_negative_nonzero_render n :
  number_ok n → is_negative_nonzero_number (render n) = negb (counted n).
Proof.
  intros Hok. unfold is_negative_nonzero_number, counted, render, render_bytes. rewrite negb_involutive.
  destruct (j_negative n) eqn:En; cbn [app andb].
  - rewrite of_bytes_cons. rewrite (proj2 (strip_prefix_Some "-" _ _) eq_refl), as_of_bytes.
    by apply mantissa_nonzero_render.
  - destruct (first_digit n Hok) as (d & ds & -> & Hd). destruct (strip_prefix _ _) as [r|] eqn:E; [exfalso|done].
    apply strip_prefix_Some in E. apply (f_equal as_bytes) in E. rewrite as_of_bytes in E. cbn [map app] in E.
    apply (f_equal (λ l, byte_is 45 (hd (byte_of_Z 0) l))) in E. cbn [hd] in E.
    destruct (digit_not_sign d Hd) as [H45 _]. rewrite H45 in E. done.
Qed.

Lemma is_json_number_render n : number_ok n → is_json_number (render n) = true.
Proof.
  intros Hok. unfold is_json_number, render, render_bytes. rewrite as_of_bytes.
  destruct (j_negative n); [done|]. cbn [app]. destruct (first_digit n Hok) as (d & ds & -> & Hd). cbn [map app].
  unfold between. rewrite digit_byte_Z by done. unfold is_digit in Hd.
  rewrite (proj2 (Z.leb_le 48 _)), (proj2 (Z.leb_le _ 57)) by lia. by rewrite orb_true_r.
Qed.

Lemma counted_nonneg n : number_ok n → counted n = true → 0 ≤ signed (j_negative n) (j_coefficient n).
Proof.
  intros (Hi & _ & Hf & _) H. unfold counted in H.
  assert (0 ≤ j_coefficient n) by (apply bval_bound, Forall_app; done).
  destruct (j_negative n); cbn [signed andb] in *; [|done]. rewrite negb_involutive in H. bool_to_prop. lia.
Qed.

Lemma q10_nonneg c e : (0 <= q10 c e)%Q ↔ 0 ≤ c.
Proof.
  unfold q10, Qle. destruct (0 <=? e) eqn:E; bool_to_prop; cbn [Qnum Qden]; [|lia].
  pose proof (pow10_gt0 e E). split; nia.
Qed.

Lemma json_nonneg n : number_ok n → counted n = true → (0 <= json_value n)%Q.
Proof. intros Hok H. by apply q10_nonneg, counted_nonneg. Qed.

Lemma total_nonneg ns : Forall number_ok ns → (0 <= total ns)%Q.
Proof.
  induction 1 as [|n ns Hn _ IH]; [done|]. cbn [total]. destruct (counted n) eqn:E; [|done].
  rewrite <-(Qplus_0_r 0). apply Qplus_le_compat; [by apply json_nonneg|done].
Qed.

(** A decimal of a number that counts is not negative. *)
Lemma parsed_counted n :
  number_ok n → text_fits n → counted n = true →
  match decimal_parse (render n) with
  | Some d => dec_ok d ∧ negative d = false ∧ (dec_value d == json_value n)%Q
  | None => ¬ representable (json_value n)
  end.
Proof.
  intros Hok Hfit Hc. pose proof (decimal_parse_spec n Hok Hfit) as H.
  destruct (decimal_parse _) as [d|]; [|done]. destruct H as (Hd & Hn & Hv). split_and!; [done| |done].
  destruct (negative d) eqn:E; [exfalso|done]. specialize (Hn eq_refl).
  pose proof (json_nonneg n Hok Hc) as Hp. rewrite <-Hv in Hp. unfold dec_value, Qle in Hp. cbn [Qnum Qden] in Hp.
  rewrite E in Hp. cbn [signed] in Hp. lia.
Qed.

Definition unreadable (ns : list JsonNumber) : Prop :=
  ∃ n, n ∈ ns ∧ counted n = true ∧ ¬ representable (json_value n).

Lemma sum_values_spec ns a :
  Forall number_ok ns → Forall text_fits ns → acc_ok a →
  match sum_values (map render ns) a (a_found a) with
  | Some (a', found) => acc_ok a' ∧ found = a_found a' ∧ (acc_value a' == acc_value a + total ns)%Q ∧
      found = a_found a || existsb counted ns
  | None => unreadable ns ∨ (spend_bound <= acc_value a + total ns)%Q
  end.
Proof.
  intros Hok Hfit. revert a. induction Hok as [|n ns Hn Hns IH]; intros a Ha.
  { cbn. split; [done|]. split; [done|]. split; [by rewrite Qplus_0_r|by rewrite orb_false_r]. }
  apply Forall_cons in Hfit as [Hf Hfs]. cbn [map sum_values total existsb].
  rewrite is_json_number_render, is_negative_nonzero_render by done. cbn [negb].
  destruct (counted n) eqn:Hc; cbn [negb].
  2: { specialize (IH Hfs a Ha). destruct (sum_values _ _ _) as [[a' found]|]; [done|].
       destruct IH as [(k & Hk & H)|]; [left; exists k|by right]. split; [by right|done]. }
  pose proof (parsed_counted n Hn Hf Hc) as Hp. destruct (decimal_parse (render n)) as [d|]; cbn [mbind option_bind].
  2: { left. exists n. split; [left|done]. }
  destruct Hp as (Hd & Nd & Hv). pose proof (acc_add_ok a d Ha Hd Nd) as Hadd.
  pose proof (total_nonneg ns Hns) as Ht. destruct (acc_add a d) as [a1|]; cbn [mbind option_bind].
  2: { right. eapply Qle_trans; [exact Hadd|]. rewrite Hv, Qplus_assoc. rewrite <-Qplus_0_r at 1. by apply Qplus_le_r. }
  destruct Hadd as (Ha1 & Hf1 & Hv1). specialize (IH Hfs a1 Ha1). rewrite Hf1 in IH.
  assert (acc_value a1 + total ns == acc_value a + (json_value n + total ns))%Q as Hsum
    by (rewrite Hv1, Hv; ring).
  destruct (sum_values _ _ true) as [[a' found]|].
  - destruct IH as (H1 & H2 & H3 & H4). split; [done|]. split; [done|]. split; [by rewrite H3|].
    rewrite H4. cbn [orb]. by rewrite orb_true_r.
  - rewrite Hsum in IH. destruct IH as [(k & Hk & H)|]; [left; exists k|by right]. split; [by right|done].
Qed.

Lemma money_below_bound m : money_ok m → (money_value m < spend_bound)%Q.
Proof.
  intros [Ha [He _]]. unfold money_value, spend_bound, Qlt. cbn [Qnum Qden inject_Z]. rewrite QDen_pow10 by done.
  pose proof (pow10_gt0 _ He). assert (I64_MAX < 10 ^ 33) by done. nia.
Qed.

Lemma into_money_spec a :
  a_found a = true → acc_ok a →
  match into_money a with
  | Some m => money_ok m ∧ currency m = "USD" ∧ (money_value m == acc_value a)%Q
  | None => ∀ m, money_ok m → ¬ (money_value m == acc_value a)%Q
  end.
Proof.
  intros Hf Ha. unfold acc_ok, acc_value in *. rewrite Hf in *. unfold into_money.
  destruct (normalized_value (acc_dec a) (dec_ok_used _ Ha)) as (Hu & Hv & _ & Hn).
  unfold normalized in Hu, Hv, Hn. cbn [len digits scale acc_dec negative] in Hu, Hv, Hn.
  destruct (normalized_loop _ _ _) as [[ds n] s]. cbn [negative] in Hn.
  destruct (normalized_value _ Hu) as (Hu' & Hv' & Hm' & _).
  pose proof (to_money_spec _ Hu') as H. destruct (to_money _) as [m|].
  - destruct H as (H1 & H2 & H3 & _). split; [done|]. split; [done|]. by rewrite H3, Hv', Hv.
  - intros m Hm E. apply (H Hm' m Hm). by rewrite E, Hv', Hv.
Qed.

(** C38: the spend summed from the numbers of a reply is exact: the amount has
    exactly the value of the sum of the numbers that are not negative; and it is
    missing only if there are none, if one of them does not fit 288 digits with 255
    decimal places, or if no amount of money has the value of the sum. *)
Theorem spend_sum_exact ns :
  Forall number_ok ns → Forall text_fits ns →
  match sum_nonnegative (map render ns) with
  | Some m => money_ok m ∧ currency m = "USD" ∧ (money_value m == total ns)%Q
  | None => existsb counted ns = false ∨ unreadable ns ∨
      ∀ m, money_ok m → ¬ (money_value m == total ns)%Q
  end.
Proof.
  intros Hok Hfit. unfold sum_nonnegative. pose proof (sum_values_spec ns acc_default Hok Hfit eq_refl) as H.
  cbn [a_found acc_default] in H. change (acc_value (mk_acc no_digits 0 0 false)) with 0%Q in H.
  destruct (sum_values _ _ _) as [[a found]|]; cbn [mbind option_bind].
  - destruct H as (Ha & -> & Hv & Hc). destruct (a_found a) eqn:Hf; [|by left].
    pose proof (into_money_spec a Hf Ha) as Hm. destruct (into_money a) as [m|].
    + destruct Hm as (H1 & H2 & H3). split; [done|]. split; [done|]. by rewrite H3, Hv, Qplus_0_l.
    + right. right. intros m Hm' E. apply (Hm m Hm'). by rewrite E, Hv, Qplus_0_l.
  - right. destruct H as [H|H]; [by left|right]. intros m Hm E. apply money_below_bound in Hm. rewrite E in Hm.
    rewrite Qplus_0_l in H. by apply Qle_not_lt in H.
Qed.

(** ** Limit and spend of a key *)

Lemma to_money_len d m : dec_ok d → to_money d = Some m → (len d ≤ 19)%nat.
Proof.
  intros Hd E. pose proof (to_money_spec d (dec_ok_used d Hd)) as H. rewrite E in H. destruct H as ([Hm [He _]] & _ & Hv & _).
  assert (is_u8 (scale d)) as Hs by apply Hd. destruct (decide (len d = 1%nat)) as [->|Hn]; [lia|].
  pose proof (coefficient_lower d (dec_ok_used d Hd) Hn) as Hlow. pose proof i64_pow as H19.
  assert (coefficient d ≤ I64_MAX + 1) as Hc.
  { unfold to_money in E. assert (∀ to, is_u8 to → money_at_scale d to = Some m → coefficient d ≤ I64_MAX + 1) as Hat.
    { intros to Hto Eq. pose proof (money_at_scale_spec d to (dec_ok_used d Hd) Hto) as H. rewrite Eq in H.
      destruct H as (_ & Hle & Hi). pose proof (pow10_gt0 (to - scale d) ltac:(lia)).
      pose proof (dec_ok_coefficient d Hd). unfold is_i64, I64_MIN, I64_MAX in *. destruct (negative d); cbn [signed] in Hi; nia. }
    destruct (money_at_scale d (Z.max (scale d) 2)) as [x|] eqn:E1; cbn [or_else] in E.
    - injection E as ->. apply (Hat (Z.max (scale d) 2)); [range_lia|done].
    - by apply (Hat (scale d)). }
  assert (Z.of_nat (pred (len d)) < 19) by (apply (Z.pow_lt_mono_r_iff 10); lia). lia.
Qed.

Lemma cap_and_used_spec cap remaining m r :
  dec_ok cap → dec_ok remaining → negative cap = false → negative remaining = false →
  to_money cap = Some m → to_money remaining = Some r →
  let '(limit, used) := openrouter_cap_and_used cap m (Some remaining) in
  money_ok limit ∧ (money_value limit == dec_value cap)%Q ∧
  match used with
  | Some u => money_ok u ∧ (money_value u == max_q 0 (dec_value cap - dec_value remaining))%Q
  | None => ∀ u, money_ok u → ¬ (money_value u == max_q 0 (dec_value cap - dec_value remaining))%Q
  end.
Proof.
  intros Hc Hr Nc Nr Em Er. unfold openrouter_cap_and_used.
  pose proof (to_money_len _ _ Hc Em). pose proof (to_money_len _ _ Hr Er).
  assert (is_u8 (scale cap)) as Sc by apply Hc. assert (is_u8 (scale remaining)) as Sr by apply Hr.
  pose proof (to_money_spec cap (dec_ok_used cap Hc)) as Hm. rewrite Em in Hm. destruct Hm as (Hm & _ & Hmv & _).
  pose proof (saturating_sub_spec cap remaining Hc Hr Nc Nr) as Hs. cbn zeta in Hs.
  destruct (saturating_sub cap remaining) as [used|].
  2: { exfalso. unfold alignable, MAX_DIGITS in Hs. unfold in_range, U8_MAX in *. lia. }
  destruct Hs as (Hu & Nu & Hmin & Hv). set (to := Z.max _ 2).
  assert (is_u8 to) as Hto by range_lia.
  pose proof (money_at_scale_spec cap to (dec_ok_used cap Hc) Hto) as Hca.
  pose proof (money_at_scale_spec used to Hu Hto) as Hus.
  destruct (money_at_scale cap to) as [l|], (money_at_scale used to) as [u|].
  { destruct Hca as (-> & Hle & Hi), Hus as (-> & Hle' & Hi').
    split; [by split|]. split; [apply scaled_value; range_lia|]. split; [by split|].
    rewrite <-Hv. apply scaled_value. destruct Hu as (_ & _ & _ & Hsu). range_lia. }
  all: split; [done|]; split; [done|]; pose proof (to_money_spec used Hu) as Ht; destruct (to_money used) as [u'|].
  all: try (destruct Ht as (H1 & _ & H2 & _); split; [done|by rewrite H2]).
  all: intros u' Hu' E; apply (Ht Hmin u' Hu'); by rewrite E, Hv.
Qed.

(** the limit and the spend shown for a key are exact: with a limit and a
    remainder that are not negative and fit an amount of money, the limit shown has
    the value of the text, the spend shown is the limit less the remainder and zero
    when the remainder is larger, and the spend is missing only if no amount of
    money has that value. *)
Theorem key_limit_exact nc nr cap remaining m r :
  number_ok nc → text_fits nc → counted nc = true → decimal_parse (render nc) = Some cap →
  number_ok nr → text_fits nr → counted nr = true → decimal_parse (render nr) = Some remaining →
  to_money cap = Some m → to_money remaining = Some r →
  let '(limit, used) := openrouter_cap_and_used cap m (Some remaining) in
  (money_value limit == json_value nc)%Q ∧
  match used with
  | Some u => money_ok u ∧ (money_value u == max_q 0 (json_value nc - json_value nr))%Q
  | None => ∀ u, money_ok u → ¬ (money_value u == max_q 0 (json_value nc - json_value nr))%Q
  end.
Proof.
  intros Hc Fc Cc Pc Hr Fr Cr Pr Em Er.
  pose proof (parsed_counted nc Hc Fc Cc) as H1. rewrite Pc in H1. destruct H1 as (Oc & Nc & Vc).
  pose proof (parsed_counted nr Hr Fr Cr) as H2. rewrite Pr in H2. destruct H2 as (Or & Nr & Vr).
  assert (max_q 0 (dec_value cap - dec_value remaining) == max_q 0 (json_value nc - json_value nr))%Q as Hmax
    by (rewrite Vc, Vr; done).
  pose proof (cap_and_used_spec cap remaining m r Oc Or Nc Nr Em Er) as H.
  destruct (openrouter_cap_and_used _ _ _) as [limit used]. destruct H as (_ & Hl & Hu).
  split; [by rewrite Hl|]. destruct used as [u|].
  - split; [apply Hu|]. by rewrite (proj2 Hu).
  - intros u Hok E. apply (Hu u Hok). by rewrite E.
Qed.
