(* ===== verification/SpendText.v ===== *)
(** * The text of an amount

    What [format_money] prints is a dollar sign and a JSON number with the value of
    the amount; witnesses of the theorems on decimals. *)

From stdpp Require Import base list gmap strings pretty.
From Stdlib Require Import ZArith Lia Bool Strings.Byte QArith.
From S2P Require Import Prelude OrderedMap Digits Money MoneyProofs MoneyText OpenRouter DecimalProofs SpendProofs.

#[local] Open Scope Z_scope.

(** ** Zeros at the end of a text *)

Fixpoint drop_front (ds : list Z) : list Z :=
  match ds with
  | d :: rest => if d =? 0 then drop_front rest else ds
  | [] => []
  end.

Lemma drop_zero_chars_map ds :
  all_digits ds → drop_zero_chars (map digit_byte ds) = map digit_byte (drop_front ds).
Proof.
  induction 1 as [|d ds Hd _ IH]; [done|]. cbn [map drop_zero_chars drop_front]. unfold byte_is.
  rewrite digit_byte_Z by done. unfold is_digit in Hd.
  destruct (Z.eqb_spec (48 + d) 48), (Z.eqb_spec d 0); try lia; done.
Qed.

Lemma drop_front_spec ds :
  ∃ k, ds = replicate k 0 ++ drop_front ds ∧ (all_digits ds → all_digits (drop_front ds)).
Proof.
  induction ds as [|d ds (k & E & H)]; [by exists 0%nat|]. cbn [drop_front].
  destruct (Z.eqb_spec d 0) as [->|]; [|by exists 0%nat].
  exists (S k). split; [cbn; by rewrite <-E|]. intros Hd. apply Forall_cons in Hd as [_ Hd]. by apply H.
Qed.

Lemma spell_app l k : spell (l ++ k) = spell k ++ spell l.
Proof. unfold spell. by rewrite reverse_app, map_app. Qed.
Lemma zeros_text_spell n : zeros_text n = spell (replicate n 0).
Proof. unfold spell, zeros_text. rewrite reverse_replicate. change (map digit_byte) with (fmap (M:=list) digit_byte). by rewrite fmap_replicate. Qed.

(** The digits with enough leading zeros for [p] decimal places and one before. *)
Definition padded_digits (p : nat) (ds : list Z) : list Z :=
  if Nat.leb (length ds) p then ds ++ replicate (p - length ds + 1) 0 else ds.

Lemma padded_digits_spec p ds :
  all_digits ds →
  (if Nat.leb (length (spell ds)) p then zeros_text (p - length (spell ds) + 1) ++ spell ds else spell ds)
    = spell (padded_digits p ds) ∧
  all_digits (padded_digits p ds) ∧ (p < length (padded_digits p ds))%nat ∧ dval (padded_digits p ds) = dval ds.
Proof.
  intros Hd. rewrite length_spell. unfold padded_digits. destruct (Nat.leb_spec (length ds) p); [|done].
  rewrite zeros_text_spell, <-spell_app. split_and!; [done| | |].
  - apply Forall_app. split; [done|]. apply Forall_replicate. unfold is_digit. lia.
  - rewrite length_app, length_replicate. lia.
  - rewrite dval_app, dval_zeros. lia.
Qed.

(** ** The number that is printed *)

Definition amount_number (neg : bool) (p : nat) (ds : list Z) : JsonNumber :=
  let fs := drop_front (take p ds) in
  mk_jnum neg (reverse (drop p ds))
    (match fs with [] => [] | _ => reverse fs ++ replicate (2 - length fs) 0 end) None.

Lemma amount_number_ok neg p ds :
  all_digits ds → (p < length ds)%nat → number_ok (amount_number neg p ds).
Proof.
  intros Hd Hp. destruct (drop_front_spec (take p ds)) as (k & _ & Hf). specialize (Hf ltac:(by apply Forall_take)).
  unfold number_ok, amount_number. cbn [j_integer j_fraction j_exponent]. split_and!; [..|done].
  - by apply Forall_reverse, Forall_drop.
  - intros E. apply (f_equal length) in E. rewrite length_reverse, length_drop in E. cbn in E. lia.
  - destruct (drop_front (take p ds)) as [|d fs]; [done|]. apply Forall_app. split; [by apply Forall_reverse|].
    apply Forall_replicate. unfold is_digit. lia.
Qed.

Lemma amount_number_value neg p ds :
  all_digits ds → (p < length ds)%nat →
  (json_value (amount_number neg p ds) == Qmake (signed neg (dval ds)) (Z.to_pos (10 ^ Z.of_nat p)))%Q.
Proof.
  intros Hd Hp. destruct (drop_front_spec (take p ds)) as (k & Ek & _).
  assert (length (take p ds) = p) as Hlen by (rewrite length_take; lia).
  unfold json_value, j_coefficient, j_power, amount_number. cbn [j_integer j_fraction j_exponent j_negative].
  set (fs := drop_front (take p ds)) in *.
  assert (dval ds = 10 ^ Z.of_nat k * dval fs + 10 ^ Z.of_nat p * dval (drop p ds)) as Hv.
  { rewrite <-(take_drop p ds) at 1. rewrite dval_app, Hlen, Ek, dval_app, dval_zeros, length_replicate. lia. }
  assert (p = (k + length fs)%nat) as Hk by (rewrite <-Hlen, Ek, length_app, length_replicate; done).
  set (frac := match fs with [] => [] | _ => _ end).
  assert (∃ z, length frac = (length fs + z)%nat ∧ bval frac = dval fs * 10 ^ Z.of_nat z) as (z & Hz & Hb).
  { subst frac. destruct fs as [|d fs]; [by exists 0%nat|]. exists (2 - length (d :: fs))%nat.
    rewrite length_app, length_reverse, length_replicate. split; [done|].
    rewrite bval_app, bval_zeros, length_replicate. unfold bval. rewrite reverse_involutive. lia. }
  rewrite bval_app, Hb. unfold bval. rewrite reverse_involutive.
  assert (q10 (signed neg (dval (drop p ds) * 10 ^ Z.of_nat (length frac) + dval fs * 10 ^ Z.of_nat z)) (0 - Z.of_nat (length frac))
    == q10 (signed neg (dval ds) * 10 ^ Z.of_nat z) (- Z.of_nat p - Z.of_nat z))%Q as ->.
  2: { rewrite q10_shift by lia. replace (- Z.of_nat p - Z.of_nat z + Z.of_nat z) with (- Z.of_nat p) by lia.
       rewrite <-(q10_split _ (- Z.of_nat p)). rewrite Z.max_l, Z.max_r, Z.opp_involutive, Z.mul_1_r by lia. done. }
  replace (signed neg (dval ds) * 10 ^ Z.of_nat z)
    with (signed neg (dval (drop p ds) * 10 ^ Z.of_nat (length frac) + dval fs * 10 ^ Z.of_nat z) * 10 ^ Z.of_nat k).
  - rewrite q10_shift by lia. by replace (- Z.of_nat p - Z.of_nat z + Z.of_nat k) with (0 - Z.of_nat (length frac)) by lia.
  - rewrite <-!signed_mul. f_equal. rewrite Hv, Hz, Hk, !Nat2Z.inj_add, !Z.pow_add_r by lia. lia.
Qed.

Lemma of_bytes_app a b : of_bytes (a ++ b) = of_bytes a +:+ of_bytes b.
Proof. by rewrite <-(as_of_bytes a), <-(as_of_bytes b), <-as_bytes_app, !of_as_bytes. Qed.

Definition minus_text (neg : bool) : string := if neg then "-" else "".

Lemma map_padded fs k : map digit_byte (reverse fs ++ replicate k 0) = spell fs ++ zeros_text k.
Proof.
  rewrite map_app. unfold spell, zeros_text. f_equal. change (map digit_byte) with (fmap (M:=list) digit_byte).
  by rewrite fmap_replicate.
Qed.
Lemma render_amount neg p ds :
  let fs := drop_front (take p ds) in
  render (amount_number neg p ds) =
    minus_text neg +:+ of_bytes (spell (drop p ds)) +:+
    match fs with [] => "" | _ => "." +:+ of_bytes (spell fs ++ zeros_text (2 - length fs)) end.
Proof.
  cbn zeta. unfold render, render_bytes, amount_number, fraction_text, render_tail.
  cbn [j_negative j_integer j_fraction j_exponent]. rewrite app_nil_r, !of_bytes_app.
  f_equal; [by destruct neg|]. f_equal. destruct (drop_front (take p ds)) as [|d fs]; [done|].
  rewrite <-(of_bytes_app (spell _)), <-map_padded. set (l := reverse (d :: fs) ++ _).
  destruct l as [|x xs] eqn:E; [|by rewrite of_bytes_cons].
  subst l. apply (f_equal length) in E. rewrite length_app, length_reverse in E. cbn [length] in E. lia.
Qed.

Lemma format_money_number m :
  money_ok m →
  ∃ ds, format_money m = "$" +:+ render (amount_number (amount_minor m <? 0) (Z.to_nat (exponent m)) ds) ∧
    all_digits ds ∧ (Z.to_nat (exponent m) < length ds)%nat ∧ dval ds = Z.abs (amount_minor m).
Proof.
  intros [_ [He _]]. unfold format_money, magnitude_text. set (p := Z.to_nat (exponent m)).
  destruct (pretty_spell (Z.to_N (Z.abs (amount_minor m)))) as (ds & -> & (Hd & Hne & _) & Hv).
  rewrite Z2N.id in Hv by lia. destruct (padded_digits_spec p ds Hd) as (Hpad & Hd' & Hp & Hv').
  exists (padded_digits p ds). split; [|split; [done|split; [done|lia]]]. rewrite render_amount.
  fold (minus_text (amount_minor m <? 0)). destruct (Nat.eqb_spec p 0) as [E0|E0].
  { unfold padded_digits. destruct (Nat.leb_spec (length ds) p) as [Hle|_]; [destruct ds; [done|cbn in Hle; lia]|].
    rewrite E0, drop_0, take_0. cbn [drop_front]. by rewrite str_app_nil. }
  rewrite Hpad. set (ps := padded_digits p ds) in *. rewrite length_spell, spell_drop, spell_take, rev_spell.
  rewrite drop_zero_chars_map, rev_map_digits by (by apply Forall_take). rewrite length_spell.
  destruct (drop_front (take p ps)) as [|d fs]; [by rewrite str_app_nil|].
  destruct (spell (d :: fs)) as [|b bs] eqn:E; [|done].
  apply (f_equal length) in E. by rewrite length_spell in E.
Qed.

(** the text of an amount is a dollar sign and a JSON number with exactly the
    value of the amount, with no decimal places or at least two: reading the text
    back gives the amount. *)
Theorem format_money_roundtrip m :
  money_ok m →
  ∃ n, format_money m = "$" +:+ render n ∧ number_ok n ∧ (json_value n == money_value m)%Q ∧
    (j_fraction n = [] ∨ (2 ≤ length (j_fraction n))%nat).
Proof.
  intros Hm. destruct (format_money_number m Hm) as (ds & E & Hd & Hp & Hv).
  destruct Hm as [_ [He _]]. eexists. split; [exact E|]. split; [by apply amount_number_ok|]. split.
  - rewrite amount_number_value by done. rewrite Hv, Z2Nat.id by done. unfold money_value.
    replace (signed (amount_minor m <? 0) (Z.abs (amount_minor m))) with (amount_minor m); [done|].
    destruct (amount_minor m <? 0) eqn:Es; bool_to_prop; cbn [signed]; lia.
  - unfold amount_number. cbn [j_fraction]. destruct (drop_front _) as [|d fs]; [by left|right].
    rewrite length_app, length_reverse, length_replicate. lia.
Qed.

(** ** Witnesses *)

Definition demo_number (i f : list Z) : JsonNumber := mk_jnum false i f None.

Lemma demo_digits (l : list Z) : forallb (λ d, (0 <=? d) && (d <=? 9)) l = true → all_digits l.
Proof.
  intros H. apply Forall_forall. intros d Hd. rewrite forallb_forall in H.
  apply list_elem_of_In, H, andb_true_iff in Hd as [H1 H2]. apply Z.leb_le in H1. apply Z.leb_le in H2. by split.
Qed.
Ltac demo_ok := split_and!; [by apply demo_digits|done|by apply demo_digits|done].

Lemma decimal_parse_exact_witness :
  ∃ d, decimal_parse (render (demo_number [1] [5; 0])) = Some d ∧ (dec_value d == 3 # 2)%Q.
Proof.
  pose proof (decimal_parse_exact (demo_number [1] [5; 0]) ltac:(demo_ok) ltac:(by vm_compute)) as H.
  destruct (decimal_parse _) as [d|] eqn:E; [|exfalso; by vm_compute in E].
  exists d. split; [done|]. by rewrite (proj2 H).
Defined.

Lemma spend_sum_exact_witness :
  ∃ m, sum_nonnegative (map render [demo_number [1] [5]; demo_number [0] [2; 5]]) = Some m ∧
    (money_value m == 7 # 4)%Q.
Proof.
  pose proof (spend_sum_exact [demo_number [1] [5]; demo_number [0] [2; 5]]) as H.
  destruct (sum_nonnegative _) as [m|] eqn:E; [|exfalso; by vm_compute in E].
  exists m. split; [done|]. destruct H as (_ & _ & Hv).
  - repeat constructor; by (apply demo_digits || done).
  - repeat constructor; by vm_compute.
  - by rewrite Hv.
Defined.

Lemma key_limit_exact_witness :
  ∃ cap remaining m r limit u,
    decimal_parse "10.0" = Some cap ∧ decimal_parse "2.5" = Some remaining ∧
    to_money cap = Some m ∧ to_money remaining = Some r ∧
    openrouter_cap_and_used cap m (Some remaining) = (limit, Some u) ∧
    (money_value limit == 10)%Q ∧ (money_value u == 15 # 2)%Q.
Proof.
  destruct (decimal_parse "10.0") as [cap|] eqn:Ec; [|exfalso; by vm_compute in Ec].
  destruct (decimal_parse "2.5") as [remaining|] eqn:Er; [|exfalso; by vm_compute in Er].
  assert (to_money cap = Some (mk_money 1000 "USD" 2)) as Em by (vm_compute in Ec; injection Ec as <-; by vm_compute).
  assert (to_money remaining = Some (mk_money 250 "USD" 2)) as En by (vm_compute in Er; injection Er as <-; by vm_compute).
  assert (openrouter_cap_and_used cap (mk_money 1000 "USD" 2) (Some remaining) =
    (mk_money 1000 "USD" 2, Some (mk_money 750 "USD" 2))) as E
    by (vm_compute in Ec, Er; injection Ec as <-; injection Er as <-; by vm_compute).
  pose proof (key_limit_exact (demo_number [1; 0] [0]) (demo_number [2] [5]) cap remaining _ _
    ltac:(demo_ok) ltac:(by vm_compute) eq_refl Ec ltac:(demo_ok) ltac:(by vm_compute) eq_refl Er Em En) as H.
  rewrite E in H. destruct H as (Hl & _ & Hu).
  exists cap, remaining. do 4 eexists. split_and!; [done|done|exact Em|exact En|exact E| |].
  - by rewrite Hl.
  - by rewrite Hu.
Defined.

Lemma format_money_roundtrip_witness :
  ∃ n, format_money (mk_money (-5) "USD" 2) = "$" +:+ render n ∧ (json_value n == (-5) # 100)%Q.
Proof.
  destruct (format_money_roundtrip (mk_money (-5) "USD" 2)) as (n & E & _ & Hv & _).
  - split; [cbn; unfold I64_MIN, I64_MAX; lia|cbn; range_lia].
  - exists n. split; [done|]. by rewrite Hv.
Defined.
