(* ===== verification/WorkflowSpec.v ===== *)
(** * Workflow definitions and plans

    [jackin-workflow-spec]: a definition arrives as a JSON value, [rules.rs] checks
    it field by field, [resolve.rs] freezes the files it names and [compile_plan]
    turns both into an execution plan that is identified by the hash of its
    canonical text ([digest.rs]).

    An error carries its diagnostics with their text.  The text of a JSON value is a
    parameter ([ValueText]); a path is its text. *)

From stdpp Require Import base list gmap strings pretty sorting.
From Stdlib Require Import ZArith Lia Bool Strings.Byte Floats.SpecFloat.
From S2P Require Import Prelude OrderedMap Clipboard WorkflowVerify WorkflowStore WorkflowService Paths.

#[local] Open Scope Z_scope.

(** ** Diagnostics ([error.rs]) *)

Module ErrorCode.
Inductive t :=
| InvalidDefinition | MissingInput | UnsupportedCapability | AuthorizationDenied
| EvaluationLimit | PlanDigestMismatch.
#[global] Instance eq_dec : EqDecision t.
Proof. solve_decision. Defined.
End ErrorCode.

Record Diagnostic := mk_diagnostic {
  dg_file : string;
  dg_field : string;
  dg_code : ErrorCode.t;
  dg_message : string;
  dg_action : string;
}.
#[global] Instance diagnostic_eq_dec : EqDecision Diagnostic.
Proof. solve_decision. Defined.

(** [WorkflowError] of this crate; the service has an error type of that name. *)
Record SpecError := mk_spec_error { diagnostics : list Diagnostic }.

Definition single (file field : string) (code : ErrorCode.t) (message action : string) : SpecError :=
  mk_spec_error [mk_diagnostic file field code message action].
Definition primary_code (e : SpecError) : ErrorCode.t :=
  match diagnostics e with d :: _ => dg_code d | [] => ErrorCode.InvalidDefinition end.

Definition bad (file field message action : string) : SpecError :=
  single file field ErrorCode.InvalidDefinition message action.
Definition missing (file field message action : string) : SpecError :=
  single file field ErrorCode.MissingInput message action.
Definition quoted (s : string) : string := "`" +:+ s +:+ "`".

(** ** JSON values ([serde_json::Value])

    A number is an integer or a float; an object is the list of its entries in the
    order of the map, whose keys are distinct. *)

Module Json.
Inductive number := Int (n : Z) | Float (f : spec_float).
Inductive t :=
| Null
| Bool (b : bool)
| Number (n : number)
| String (s : string)
| Array (l : list t)
| Object (m : list (string * t)).
End Json.

Fixpoint assoc {A} (key : string) (m : list (string * A)) : option A :=
  match m with
  | [] => None
  | (k, v) :: m => if str_eqb k key then Some v else assoc key m
  end.

Definition value_get (v : Json.t) (key : string) : option Json.t :=
  match v with Json.Object m => assoc key m | _ => None end.

(** ** The plan ([model.rs]) *)

Definition SCHEMA_VERSION : Z := 1.
Definition TEMPLATE_REPAIR_V1 : string := "repair-v1".
Definition REPAIR_STAGES : list string :=
  ["prepare"; "implement"; "capture"; "test"; "review"; "decide"].

Record AgentSelection := mk_selection {
  as_runtime : string;
  as_agent_slug : string;
  as_role_id : string;
  as_role_revision : string;
  as_account_id : string;
  as_auth_mode : string;
  as_requested_model : string;
  as_actual_model : option string;
  as_binary_digest : string;
  as_image_digest : string;
}.
Record InputFile := mk_input_file {
  if_logical_path : string;
  if_content_digest : string;
  if_byte_length : Z;
  if_mount_path : string;
}.
Record RepositoryInput := mk_repository {
  ri_repository_id : string;
  ri_base_commit : string;
  ri_manifest_digest : string;
}.
Record ResourceLimits := mk_limits {
  rl_cpu_millicores : Z;
  rl_memory_bytes : Z;
  rl_max_pids : Z;
  rl_max_run_seconds : Z;
  rl_disk_monitor_bytes : Z;
}.
Record VerificationPolicy := mk_verification {
  vp_test_bundle : string;
  vp_test_bundle_digest : string;
  vp_test_bundle_files : list TestBundleFile;
  vp_check_argv : list string;
  vp_check_image_digest : string;
  vp_timeout_seconds : Z;
  vp_review_schema_version : Z;
}.
Record BackupPolicy := mk_backup {
  bp_mode : string;
  bp_remote_id : option string;
  bp_credential_ref : option string;
  bp_ref_prefix : option string;
}.
Record PlanNode := mk_node { pn_id : string; pn_stage : string; pn_round : Z }.
Record CapabilityFacts := mk_facts {
  cf_sandbox_backend : string;
  cf_sandbox_profile : string;
  cf_authorized_remote_ids : list string;
  cf_evaluator : string;
  cf_schema_version : Z;
}.
Record ExecutionPlan := mk_plan {
  ep_schema_version : Z;
  ep_template : string;
  ep_nodes : list PlanNode;
  ep_implementer : AgentSelection;
  ep_reviewer : AgentSelection;
  ep_task : InputFile;
  ep_references : list InputFile;
  ep_repository : RepositoryInput;
  ep_resources : ResourceLimits;
  ep_verification : VerificationPolicy;
  ep_backup : BackupPolicy;
  ep_max_repair_turns : Z;
  ep_input_digests : gmap string string;
  ep_capability_facts : CapabilityFacts;
  ep_plan_hash : string;
}.

Definition set_plan_hash (h : string) (p : ExecutionPlan) : ExecutionPlan :=
  mk_plan (ep_schema_version p) (ep_template p) (ep_nodes p) (ep_implementer p) (ep_reviewer p)
    (ep_task p) (ep_references p) (ep_repository p) (ep_resources p) (ep_verification p)
    (ep_backup p) (ep_max_repair_turns p) (ep_input_digests p) (ep_capability_facts p) h.

(** ** The value of a plan, as the derived [Serialize] builds it *)

Definition number_value (n : Z) : Json.t := Json.Number (Json.Int n).
Definition option_value (o : option string) : Json.t :=
  match o with Some s => Json.String s | None => Json.Null end.
Definition strings_value (l : list string) : Json.t := Json.Array (Json.String <$> l).

Definition selection_value (s : AgentSelection) : Json.t :=
  Json.Object
    [("runtime", Json.String (as_runtime s)); ("agent_slug", Json.String (as_agent_slug s));
     ("role_id", Json.String (as_role_id s));
     ("role_revision", Json.String (as_role_revision s));
     ("account_id", Json.String (as_account_id s)); ("auth_mode", Json.String (as_auth_mode s));
     ("requested_model", Json.String (as_requested_model s));
     ("actual_model", option_value (as_actual_model s));
     ("binary_digest", Json.String (as_binary_digest s));
     ("image_digest", Json.String (as_image_digest s))].
Definition input_file_value (f : InputFile) : Json.t :=
  Json.Object
    [("logical_path", Json.String (if_logical_path f));
     ("content_digest", Json.String (if_content_digest f));
     ("byte_length", number_value (if_byte_length f));
     ("mount_path", Json.String (if_mount_path f))].
Definition repository_value (r : RepositoryInput) : Json.t :=
  Json.Object
    [("repository_id", Json.String (ri_repository_id r));
     ("base_commit", Json.String (ri_base_commit r));
     ("manifest_digest", Json.String (ri_manifest_digest r))].
Definition limits_value (r : ResourceLimits) : Json.t :=
  Json.Object
    [("cpu_millicores", number_value (rl_cpu_millicores r));
     ("memory_bytes", number_value (rl_memory_bytes r));
     ("max_pids", number_value (rl_max_pids r));
     ("max_run_seconds", number_value (rl_max_run_seconds r));
     ("disk_monitor_bytes", number_value (rl_disk_monitor_bytes r))].
Definition bundle_file_value (f : TestBundleFile) : Json.t :=
  Json.Object [("logical_path", Json.String (logical_path f)); ("digest", Json.String (bf_digest f))].
Definition verification_value (v : VerificationPolicy) : Json.t :=
  Json.Object
    [("test_bundle", Json.String (vp_test_bundle v));
     ("test_bundle_digest", Json.String (vp_test_bundle_digest v));
     ("test_bundle_files", Json.Array (bundle_file_value <$> vp_test_bundle_files v));
     ("check_argv", strings_value (vp_check_argv v));
     ("check_image_digest", Json.String (vp_check_image_digest v));
     ("timeout_seconds", number_value (vp_timeout_seconds v));
     ("review_schema_version", number_value (vp_review_schema_version v))].
Definition backup_value (b : BackupPolicy) : Json.t :=
  Json.Object
    [("mode", Json.String (bp_mode b)); ("remote_id", option_value (bp_remote_id b));
     ("credential_ref", option_value (bp_credential_ref b));
     ("ref_prefix", option_value (bp_ref_prefix b))].
Definition node_value (n : PlanNode) : Json.t :=
  Json.Object
    [("id", Json.String (pn_id n)); ("stage", Json.String (pn_stage n));
     ("round", number_value (pn_round n))].
Definition facts_value (f : CapabilityFacts) : Json.t :=
  Json.Object
    [("sandbox_backend", Json.String (cf_sandbox_backend f));
     ("sandbox_profile", Json.String (cf_sandbox_profile f));
     ("authorized_remote_ids", strings_value (cf_authorized_remote_ids f));
     ("evaluator", Json.String (cf_evaluator f));
     ("schema_version", number_value (cf_schema_version f))].
Definition digests_value (m : gmap string string) : Json.t :=
  Json.Object (prod_map id Json.String <$> btree_iter m).
Definition plan_value (p : ExecutionPlan) : list (string * Json.t) :=
  [("schema_version", number_value (ep_schema_version p));
   ("template", Json.String (ep_template p));
   ("nodes", Json.Array (node_value <$> ep_nodes p));
   ("implementer", selection_value (ep_implementer p));
   ("reviewer", selection_value (ep_reviewer p));
   ("task", input_file_value (ep_task p));
   ("references", Json.Array (input_file_value <$> ep_references p));
   ("repository", repository_value (ep_repository p));
   ("resources", limits_value (ep_resources p));
   ("verification", verification_value (ep_verification p));
   ("backup", backup_value (ep_backup p));
   ("max_repair_turns", number_value (ep_max_repair_turns p));
   ("input_digests", digests_value (ep_input_digests p));
   ("capability_facts", facts_value (ep_capability_facts p));
   ("plan_hash", Json.String (ep_plan_hash p))].

(** ** Digests ([digest.rs]) *)

(** [entries.sort_by(|l, r| l.0.cmp(&r.0))] moves whole entries, so sorting the
    values below first changes nothing. *)
Fixpoint sort_json_keys (v : Json.t) : Json.t :=
  match v with
  | Json.Object m =>
      Json.Object (merge_sort key_le ((fix go m :=
        match m with [] => [] | (k, v) :: m => (k, sort_json_keys v) :: go m end) m))
  | Json.Array l => Json.Array (map sort_json_keys l)
  | scalar => scalar
  end.

(** [Map::remove] *)
Definition remove_key (key : string) (m : list (string * Json.t)) : list (string * Json.t) :=
  filter (λ e, str_eqb e.1 key = false) m.

(** [serde_json::to_vec] of a value. *)
Class ValueText := { value_to_vec : Json.t → string + bytes }.

Fixpoint floatless (v : Json.t) : Prop :=
  match v with
  | Json.Number (Json.Float _) => False
  | Json.Array l => (fix go l := match l with [] => True | v :: l => floatless v ∧ go l end) l
  | Json.Object m =>
      (fix go m := match m with [] => True | (_, v) :: m => floatless v ∧ go m end) m
  | _ => True
  end.

(** Writing a value does not fail, and a text has one value: [from_slice] reads it
    back (floats may be rounded). *)
Class ValueTextLaws `{ValueText} : Prop := {
  value_to_vec_total : ∀ v, ∃ bs, value_to_vec v = inr bs;
  value_to_vec_inj : ∀ v w bs,
    floatless v → floatless w → value_to_vec v = inr bs → value_to_vec w = inr bs → v = w;
}.

Definition PLAN_HASH_PREFIX : bytes := as_bytes "jackin-workflow-plan/v1" ++ [byte_of_Z 10].

Section Digest.
Context `{Sha256, ValueText}.

Definition canonical_plan_value (p : ExecutionPlan) : Json.t :=
  sort_json_keys (Json.Object (remove_key "plan_hash" (plan_value p))).

Definition canonical_plan_bytes (p : ExecutionPlan) : SpecError + bytes :=
  lift_err (λ error, bad "" "plan" ("cannot encode the plan: " +:+ error) "recompile the workflow")
    (value_to_vec (canonical_plan_value p)).

Definition spec_plan_hash (p : ExecutionPlan) : SpecError + string :=
  canonical ← canonical_plan_bytes p;
  mret (hex_encode (hasher_finalize
    (hasher_update (hasher_update hasher_new PLAN_HASH_PREFIX) canonical))).

Definition finalize_plan (p : ExecutionPlan) : SpecError + ExecutionPlan :=
  hash ← spec_plan_hash p; mret (set_plan_hash hash p).
End Digest.

(** ** Reading fields ([rules.rs]) *)

Definition field_name (parent key : string) : string :=
  if str_eqb parent "" then key else parent +:+ "." +:+ key.

Definition get (v : Json.t) (file parent key : string) : SpecError + Json.t :=
  let field := field_name parent key in
  opt_err (value_get v key)
    (bad file field ("missing required field " +:+ quoted field)
       ("add " +:+ quoted field +:+ " to the workflow definition")).

Definition shape (file field what : string) : SpecError :=
  bad file field ("field " +:+ quoted field +:+ " must be " +:+ what) "fix the field shape".

Definition as_object (v : Json.t) (file field : string) : SpecError + list (string * Json.t) :=
  match v with Json.Object m => inr m | _ => inl (shape file field "an object") end.
Definition as_string (v : Json.t) (file field : string) : SpecError + string :=
  match v with Json.String s => inr s | _ => inl (shape file field "a string") end.
Definition as_bool (v : Json.t) (file field : string) : SpecError + bool :=
  match v with Json.Bool b => inr b | _ => inl (shape file field "a boolean") end.

(** [Number::as_u64]; an integer of a value is at most [u64::MAX]. *)
Definition as_u64 (v : Json.t) (file field : string) : SpecError + Z :=
  match v with
  | Json.Number (Json.Int n) =>
      if 0 <=? n then inr n else inl (shape file field "a non-negative integer")
  | _ => inl (shape file field "a non-negative integer")
  end.

Definition ranged_u64 (v : Json.t) (file field : string) (min max : Z) (action : string)
    : SpecError + Z :=
  found ← as_u64 v file field;
  _ ← check (negb ((found <? min) || (max <? found)))
        (bad file field ("field " +:+ quoted field +:+ " value " +:+ pretty found +:+ " is outside "
                         +:+ pretty min +:+ "..=" +:+ pretty max) action);
  mret found.

(** [iter().map(f).collect::<Result<Vec<_>, _>>()] *)
Fixpoint collect_results {E A B} (f : A → E + B) (l : list A) : E + list B :=
  match l with
  | [] => inr []
  | a :: l => b ← f a; bs ← collect_results f l; mret (b :: bs)
  end.

Definition as_string_list (v : Json.t) (file field : string) : SpecError + list string :=
  items ← match v with
          | Json.Array l => inr l
          | _ => inl (shape file field "a list of strings")
          end;
  collect_results (λ item, as_string item file field) items.

Definition agent_runtime (agent : Json.t) (file field want : string) : SpecError + string :=
  v ← get agent file field "runtime";
  runtime ← as_string v file (field +:+ ".runtime");
  _ ← check (str_eqb runtime want)
        (bad file (field +:+ ".runtime") (field +:+ " runtime must be " +:+ want
           +:+ " in this release") ("set " +:+ field +:+ " runtime to " +:+ want));
  mret runtime.

Definition agent_selection_name (agent : Json.t) (file field : string) : SpecError + string :=
  v ← get agent file field "selection";
  selection ← as_string v file (field +:+ ".selection");
  _ ← check (str_eqb selection "workspace-default")
        (bad file (field +:+ ".selection") (field
           +:+ " selection must be workspace-default in this release")
           "resolve the selection from the existing workspace configuration");
  mret selection.

Definition agent_vendor_mode (agent : Json.t) (file field : string) : SpecError + string :=
  v ← get agent file field "vendorSubagents";
  mode ← as_string v file (field +:+ ".vendorSubagents");
  _ ← check (str_in mode ["within_worker"; "forbid"])
        (bad file (field +:+ ".vendorSubagents") ("unknown delegation mode " +:+ quoted mode)
           "use within_worker or forbid");
  mret mode.

(** ** Checking a definition *)

Definition MAX_CPU_MILLICORES : Z := 16000.
Definition MIN_MEMORY_BYTES : Z := 268435456.
Definition MAX_MEMORY_BYTES : Z := 68719476736.
Definition MAX_PIDS : Z := 4096.
Definition MAX_RUN_SECONDS : Z := 86400.
Definition MAX_DISK_MONITOR_BYTES : Z := 1099511627776.
Definition MAX_CHECK_TIMEOUT_SECONDS : Z := 3600.
Definition MAX_REPAIR_TURNS : Z := 2.

Definition KNOWN_TOP_LEVEL : list string :=
  ["schemaVersion"; "template"; "workspace"; "repository"; "task"; "references"; "implementer";
   "reviewer"; "checks"; "sandbox"; "backup"; "maxRepairTurns"].

Record CheckedDefinition := mk_checked {
  cd_task : string;
  cd_references : list string;
  cd_implementer_runtime : string;
  cd_implementer_selection : string;
  cd_implementer_vendor_subagents : string;
  cd_reviewer_runtime : string;
  cd_reviewer_selection : string;
  cd_reviewer_vendor_subagents : string;
  cd_checks_bundle : string;
  cd_checks_argv : list string;
  cd_checks_timeout : Z;
  cd_sandbox_backend : string;
  cd_sandbox_profile : string;
  cd_resources : ResourceLimits;
  cd_require_hard_disk_limit : bool;
  cd_backup_mode : string;
  cd_backup_remote : option string;
  cd_max_repair_turns : Z;
}.

Definition reject_extra_fields (json : Json.t) (file : string) : SpecError + () :=
  root ← as_object json file "";
  (fix go m :=
     match m with
     | [] => inr ()
     | (key, _) :: m =>
         if str_in key KNOWN_TOP_LEVEL then go m
         else inl (bad file key ("unknown field " +:+ quoted key)
                     "remove the field or use the repair-v1 template fields only")
     end) root.

Definition validate_head (json : Json.t) (file : string) : SpecError + (string * list string) :=
  v ← get json file "" "schemaVersion";
  schema_version ← as_u64 v file "schemaVersion";
  _ ← check (schema_version =? SCHEMA_VERSION)
        (bad file "schemaVersion" ("unsupported schema version " +:+ pretty schema_version)
           "use schemaVersion 1");
  v ← get json file "" "template";
  template ← as_string v file "template";
  _ ← check (str_eqb template TEMPLATE_REPAIR_V1)
        (bad file "template" ("unknown template " +:+ quoted template)
           "use the repair-v1 template; it is the only template in this release");
  v ← get json file "" "workspace";
  workspace ← as_string v file "workspace";
  _ ← check (str_eqb workspace "current")
        (bad file "workspace" ("unsupported workspace selector " +:+ quoted workspace)
           "select the current workspace");
  repository ← get json file "" "repository";
  v ← get repository file "repository" "source";
  repo_source ← as_string v file "repository.source";
  _ ← check (str_eqb repo_source "workspace")
        (bad file "repository.source" ("unsupported repository source " +:+ quoted repo_source)
           "use the workspace repository source");
  v ← get json file "" "task";
  task ← as_string v file "task";
  _ ← check (negb (str_eqb task ""))
        (bad file "task" "task path is empty" "point task at the frozen task file");
  v ← get json file "" "references";
  references ← as_string_list v file "references";
  mret (task, references).

Record AgentParts := mk_agent_parts {
  implementer_runtime : string;
  implementer_selection : string;
  implementer_vendor_subagents : string;
  reviewer_runtime : string;
  reviewer_selection : string;
  reviewer_vendor_subagents : string;
}.

Definition validate_agents (json : Json.t) (file : string) : SpecError + AgentParts :=
  implementer ← get json file "" "implementer";
  reviewer ← get json file "" "reviewer";
  ir ← agent_runtime implementer file "implementer" "claude";
  isel ← agent_selection_name implementer file "implementer";
  iv ← agent_vendor_mode implementer file "implementer";
  rr ← agent_runtime reviewer file "reviewer" "codex";
  rsel ← agent_selection_name reviewer file "reviewer";
  rv ← agent_vendor_mode reviewer file "reviewer";
  mret (mk_agent_parts ir isel iv rr rsel rv).

Definition validate_checks (json : Json.t) (file : string)
    : SpecError + (string * list string * Z) :=
  checks ← get json file "" "checks";
  v ← get checks file "checks" "bundle";
  bundle ← as_string v file "checks.bundle";
  _ ← check (negb (str_eqb bundle ""))
        (bad file "checks.bundle" "check bundle name is empty" "name the frozen trusted test bundle");
  v ← get checks file "checks" "argv";
  argv ← as_string_list v file "checks.argv";
  _ ← check (negb (bool_decide (argv = [])))
        (bad file "checks.argv" "check argv is empty" "provide the exact check command argv");
  v ← get checks file "checks" "timeoutSeconds";
  timeout ← ranged_u64 v file "checks.timeoutSeconds" 1 MAX_CHECK_TIMEOUT_SECONDS
              "set checks.timeoutSeconds between 1 and 3600";
  mret (bundle, argv, timeout).

Record SandboxParts := mk_sandbox_parts {
  sb_backend : string;
  sb_profile : string;
  sb_resources : ResourceLimits;
  sb_require_hard_disk_limit : bool;
}.

Definition validate_sandbox (json : Json.t) (file : string) : SpecError + SandboxParts :=
  sandbox ← get json file "" "sandbox";
  v ← get sandbox file "sandbox" "backend";
  backend ← as_string v file "sandbox.backend";
  _ ← check (str_eqb backend "docker")
        (bad file "sandbox.backend" ("unsupported sandbox backend " +:+ quoted backend)
           "use the docker backend");
  v ← get sandbox file "sandbox" "profile";
  profile ← as_string v file "sandbox.profile";
  v ← get sandbox file "sandbox" "cpuMillicores";
  cpu ← ranged_u64 v file "sandbox.cpuMillicores" 1 MAX_CPU_MILLICORES
          "set sandbox.cpuMillicores between 1 and 16000";
  v ← get sandbox file "sandbox" "memoryBytes";
  memory ← ranged_u64 v file "sandbox.memoryBytes" MIN_MEMORY_BYTES MAX_MEMORY_BYTES
             "set sandbox.memoryBytes between 256MiB and 64GiB";
  v ← get sandbox file "sandbox" "maxPids";
  pids ← ranged_u64 v file "sandbox.maxPids" 1 MAX_PIDS "set sandbox.maxPids between 1 and 4096";
  v ← get sandbox file "sandbox" "maxRunSeconds";
  seconds ← ranged_u64 v file "sandbox.maxRunSeconds" 1 MAX_RUN_SECONDS
              "set sandbox.maxRunSeconds between 1 and 86400";
  v ← get sandbox file "sandbox" "diskMonitorBytes";
  disk ← ranged_u64 v file "sandbox.diskMonitorBytes" 1 MAX_DISK_MONITOR_BYTES
           "set sandbox.diskMonitorBytes between 1 and 1TiB";
  v ← get sandbox file "sandbox" "requireHardDiskLimit";
  hard ← as_bool v file "sandbox.requireHardDiskLimit";
  mret (mk_sandbox_parts backend profile
          (mk_limits cpu memory (pids mod 4294967296) seconds disk) hard).

Definition validate_backup (json : Json.t) (file : string)
    : SpecError + (string * option string) :=
  backup ← get json file "" "backup";
  v ← get backup file "backup" "mode";
  mode ← as_string v file "backup.mode";
  _ ← check (str_in mode ["off"; "best_effort"; "required"])
        (bad file "backup.mode" ("unsupported backup mode " +:+ quoted mode)
           "use off, best_effort, or required");
  v ← get backup file "backup" "remote";
  remote ← match v with
           | Json.Null => inr None
           | Json.String remote => inr (Some remote)
           | _ => inl (bad file "backup.remote" "backup.remote must be a string or null"
                         "set an authorized remote ID or null")
           end;
  mret (mode, remote).

Definition validate_definition (json : Json.t) (file : string) : SpecError + CheckedDefinition :=
  _ ← reject_extra_fields json file;
  '(task, references) ← validate_head json file;
  agents ← validate_agents json file;
  '(bundle, argv, timeout) ← validate_checks json file;
  sandbox ← validate_sandbox json file;
  '(mode, remote) ← validate_backup json file;
  v ← get json file "" "maxRepairTurns";
  turns ← ranged_u64 v file "maxRepairTurns" 0 MAX_REPAIR_TURNS
            "set maxRepairTurns between 0 and 2";
  mret (mk_checked task references
          (implementer_runtime agents) (implementer_selection agents)
          (implementer_vendor_subagents agents)
          (reviewer_runtime agents) (reviewer_selection agents) (reviewer_vendor_subagents agents)
          bundle argv timeout (sb_backend sandbox) (sb_profile sandbox) (sb_resources sandbox)
          (sb_require_hard_disk_limit sandbox) mode remote (turns mod 4294967296)).

(** ** Frozen inputs ([resolve.rs]) *)

Definition MAX_BUNDLE_BYTES : Z := 16 * 1024 * 1024.

Record FrozenInput := mk_frozen { fi_logical_path : string; fi_bytes : bytes; fi_digest : string }.
Record Selections := mk_selections { sel_implementer : AgentSelection; sel_reviewer : AgentSelection }.

Record ResolvedInputs := mk_resolved {
  rs_task : FrozenInput;
  rs_references : list FrozenInput;
  rs_test_bundle_name : string;
  rs_test_bundle : list FrozenInput;
  rs_test_bundle_digest : string;
  rs_check_image_digest : string;
  rs_repository : RepositoryInput;
  rs_module_digests : gmap string string;
  rs_selections : Selections;
}.

Record FileResolution := mk_resolution {
  fr_workflow_file : string;
  fr_file_label : string;
  fr_check_bundle_dir : string;
  fr_check_image_digest : string;
  fr_module_digests : gmap string string;
  fr_repository : RepositoryInput;
  fr_selections : Selections;
}.

(** What planning sees of the files: [fs::read], and for [fs::read_dir] the names of
    the entries that could be listed, each with the answer of [is_file]. *)
Record PlanFiles := mk_plan_files {
  fs_read : string → option bytes;
  fs_read_dir : string → option (list (string * bool));
}.

(** [Path::parent] *)
Definition path_parent (p : string) : option string :=
  match rev (components p) with
  | [] | Component.RootDir :: _ => None
  | _ :: rest => Some (collect_path (rev rest))
  end.

Section Resolve.
Context `{Sha256} (fs : PlanFiles).

Definition freeze_file (dir file logical : string) : SpecError + FrozenInput :=
  let path := path_join dir logical in
  bs ← opt_err (fs_read fs path)
         (missing file logical ("cannot read input file " +:+ quoted logical)
            ("create " +:+ path +:+ " relative to the workflow file"));
  mret (mk_frozen logical bs (sha256_hex bs)).

(** Entries of one directory are ordered by their names. *)
Definition bundle_names (entries : list (string * bool)) : list string :=
  merge_sort str_le (omap (λ e : string * bool, if e.2 then Some e.1 else None) entries).

Fixpoint freeze_bundle (dir file : string) (names : list string) (size : Z)
    (acc : list FrozenInput) : SpecError + list FrozenInput :=
  match names with
  | [] => inr acc
  | name :: names =>
      bs ← opt_err (fs_read fs (path_join dir name))
             (missing file "checks.bundle" ("cannot read test bundle file " +:+ quoted name)
                "repair the bundle directory permissions and retry");
      let size := size + blen bs in
      _ ← check (negb (MAX_BUNDLE_BYTES <? size))
            (bad file "checks.bundle" "test bundle exceeds 16MiB" "shrink the frozen test bundle");
      freeze_bundle dir file names size (acc ++ [mk_frozen name bs (sha256_hex bs)])
  end.

Definition resolve_workflow_files (r : FileResolution) (c : CheckedDefinition)
    : SpecError + ResolvedInputs :=
  let file := fr_file_label r in
  let dir := default "." (path_parent (fr_workflow_file r)) in
  task ← freeze_file dir file (cd_task c);
  references ← collect_results (freeze_file dir file) (cd_references c);
  entries ← opt_err (fs_read_dir fs (fr_check_bundle_dir r))
    (missing file "checks.bundle" ("cannot read test bundle " +:+ quoted (cd_checks_bundle c))
       ("provide the frozen bundle directory at " +:+ fr_check_bundle_dir r));
  files ← freeze_bundle (fr_check_bundle_dir r) file (bundle_names entries) 0 [];
  _ ← check (negb (Nat.eqb (length files) 0))
        (missing file "checks.bundle" ("test bundle " +:+ quoted (cd_checks_bundle c) +:+ " is empty")
           ("place the frozen test files in " +:+ fr_check_bundle_dir r));
  mret (mk_resolved task references (cd_checks_bundle c) files
          (bundle_manifest_digest ((λ f, (fi_logical_path f, fi_digest f)) <$> files))
          (fr_check_image_digest r) (fr_repository r) (fr_module_digests r) (fr_selections r)).

(** A [git] command that ran gives its success and its standard output. *)
Context (git : string → list string → string + (bool * bytes)).

Definition resolve_repository (dir file repository_id : string) : SpecError + RepositoryInput :=
  let missing detail :=
    missing file "repository.revision" ("cannot resolve repository HEAD: " +:+ detail)
      "run inside a git checkout with at least one commit" in
  '(ok, out) ← lift_err missing (git dir ["rev-parse"; "HEAD"]);
  _ ← check ok (missing "not a git checkout with a HEAD commit");
  let commit := trim (of_bytes (lossy out)) in
  '(ok, manifest) ← lift_err missing (git dir ["ls-files"; "-s"; "--"; "."]);
  _ ← check ok (missing "cannot list tracked files");
  mret (mk_repository repository_id commit (sha256_hex manifest)).

Definition head_commit (dir : string) : option string :=
  match git dir ["rev-parse"; "HEAD"] with
  | inr (true, out) =>
      let commit := trim (of_bytes (lossy out)) in
      if str_eqb commit "" then None else Some commit
  | _ => None
  end.

Fixpoint resolve_workspace_repository (candidates : list string)
    (file repository_id workspace_name : string) : SpecError + RepositoryInput :=
  match candidates with
  | [] => inl (missing file "repository.revision"
                 ("workspace " +:+ quoted workspace_name +:+ " has no git checkout with a HEAD commit")
                 "point the workspace workdir or a mount source at a git checkout and retry")
  | candidate :: candidates =>
      match head_commit candidate with
      | Some _ => resolve_repository candidate file repository_id
      | None => resolve_workspace_repository candidates file repository_id workspace_name
      end
  end.
End Resolve.

Record LiveAgentFacts := mk_live_facts {
  la_runtime : string;
  la_agent_slug : string;
  la_account_id : string;
  la_auth_mode : string;
  la_requested_model : option string;
  la_actual_model : option string;
  la_binary_digest : string;
  la_image_digest : string;
}.
Record LiveSelectionEnv := mk_live_env {
  le_workspace_name : string;
  le_role_id : string;
  le_role_revision : string;
  le_implementer : LiveAgentFacts;
  le_reviewer : LiveAgentFacts;
}.

Definition require_fact (file side name value action : string) : SpecError + () :=
  check (negb (str_eqb value ""))
    (missing file (side +:+ "." +:+ name) (side +:+ " selection is missing " +:+ quoted name) action).

Definition resolve_live_agent (file side expected role_id role_revision : string)
    (f : LiveAgentFacts) : SpecError + AgentSelection :=
  _ ← check (str_eqb (la_runtime f) expected)
        (bad file (side +:+ ".runtime")
           (side +:+ " selection uses runtime " +:+ quoted (la_runtime f) +:+ ", expected "
            +:+ quoted expected)
           ("resolve the " +:+ side +:+ " selection for the definition runtime"));
  let require := require_fact file side in
  _ ← require "agent" (la_agent_slug f) "repair the workspace agent selection";
  _ ← require "account" (la_account_id f) "assign an account to the workspace";
  _ ← require "auth_mode" (la_auth_mode f) "repair the workspace account configuration";
  _ ← require "binary" (la_binary_digest f) "install the agent binary on PATH";
  _ ← require "image" (la_image_digest f) "build or pull the role image";
  model ← opt_err (m ← la_requested_model f; if str_eqb m "" then None else Some m)
    (missing file (side +:+ ".model") (side +:+ " selection has no requested model")
       "set a model on the agent configuration or account");
  mret (mk_selection (la_runtime f) (la_agent_slug f) role_id role_revision (la_account_id f)
          (la_auth_mode f) model (la_actual_model f) (la_binary_digest f) (la_image_digest f)).

Definition resolve_live_selections (file : string) (e : LiveSelectionEnv) : SpecError + Selections :=
  _ ← check (negb (str_eqb (le_workspace_name e) ""))
        (missing file "workspace" "no workspace selection was provided"
           "select the existing workspace before planning");
  _ ← check (negb (str_eqb (le_role_id e) ""))
        (missing file "role" ("workspace " +:+ quoted (le_workspace_name e) +:+ " has no role selected")
           "run `jackin load <role>` to select a role for the workspace");
  _ ← check (negb (str_eqb (le_role_revision e) ""))
        (missing file "role.revision" ("role " +:+ quoted (le_role_id e)
           +:+ " has no resolvable revision") "refresh the cached role checkout and retry");
  implementer ← resolve_live_agent file "implementer" "claude" (le_role_id e) (le_role_revision e)
                  (le_implementer e);
  reviewer ← resolve_live_agent file "reviewer" "codex" (le_role_id e) (le_role_revision e)
               (le_reviewer e);
  mret (mk_selections implementer reviewer).

(** ** Compiling a plan ([rules.rs]) *)

Definition PKLR_VERSION : string := "5.1.1".

Record HostGrant := mk_grant {
  hg_profile : string;
  hg_backend : string;
  hg_max_cpu_millicores : Z;
  hg_max_memory_bytes : Z;
  hg_max_pids : Z;
  hg_max_run_seconds : Z;
  hg_max_disk_monitor_bytes : Z;
  hg_authorized_repository_ids : list string;
  hg_authorized_remote_ids : list string;
}.

Definition grant_table (c : CheckedDefinition) (g : HostGrant) : list (string * Z * Z) :=
  let r := cd_resources c in
  [("sandbox.cpuMillicores", rl_cpu_millicores r, hg_max_cpu_millicores g);
   ("sandbox.memoryBytes", rl_memory_bytes r, hg_max_memory_bytes g);
   ("sandbox.maxPids", rl_max_pids r, hg_max_pids g);
   ("sandbox.maxRunSeconds", rl_max_run_seconds r, hg_max_run_seconds g);
   ("sandbox.diskMonitorBytes", rl_disk_monitor_bytes r, hg_max_disk_monitor_bytes g)].

Definition check_grant_maxima (c : CheckedDefinition) (g : HostGrant) (file : string)
    : SpecError + () :=
  match find (λ '(_, want, have), have <? want) (grant_table c g) with
  | Some (field, want, have) =>
      inl (bad file field ("requested " +:+ pretty want +:+ " exceeds the host grant maximum "
                           +:+ pretty have)
             "lower the request or broaden the host grant and recompile")
  | None => inr ()
  end.

Definition backup_policy (c : CheckedDefinition) (g : HostGrant) (file : string)
    : SpecError + BackupPolicy :=
  match str_eqb (cd_backup_mode c) "off", cd_backup_remote c with
  | true, None => inr (mk_backup "off" None None None)
  | true, Some _ =>
      inl (bad file "backup.remote" "backup is off but a remote is set"
             "remove the remote or set a non-off backup mode")
  | false, Some remote =>
      if str_in remote (hg_authorized_remote_ids g)
      then inr (mk_backup (cd_backup_mode c) (Some remote) None None)
      else inl (single file "backup.remote" ErrorCode.AuthorizationDenied
                  ("backup remote " +:+ quoted remote +:+ " is not authorized")
                  "authorize the remote or pick an authorized one")
  | false, None =>
      inl (bad file "backup.remote" "non-off backup mode needs a remote"
             "set an authorized backup remote ID")
  end.

Definition insert_reference (m : gmap string string) (f : FrozenInput) : gmap string string :=
  <["references/" +:+ fi_logical_path f := fi_digest f]> m.
Definition insert_module (m : gmap string string) (e : string * string) : gmap string string :=
  <["pkl/" +:+ e.1 := e.2]> m.

Definition plan_input_digests (i : ResolvedInputs) : gmap string string :=
  let m := <["task/" +:+ fi_logical_path (rs_task i) := fi_digest (rs_task i)]> ∅ in
  let m := foldl insert_reference m (rs_references i) in
  let m := <["checks/" +:+ rs_test_bundle_name i := rs_test_bundle_digest i]> m in
  let m := <["repository/manifest" := ri_manifest_digest (rs_repository i)]> m in
  foldl insert_module m (btree_iter (rs_module_digests i)).

Definition stage_node (round : nat) (stage : string) : PlanNode :=
  mk_node (stage +:+ "@r" +:+ pretty round) stage (Z.of_nat round).

(** [for round in 0..=max_repair_turns] *)
Definition repair_nodes (max_repair_turns : Z) : list PlanNode :=
  mk_node "prepare@r0" "prepare" 0
  :: concat ((λ round, stage_node round <$> drop 1 REPAIR_STAGES)
               <$> List.seq 0 (S (Z.to_nat max_repair_turns))).

Definition input_file (root : string) (f : FrozenInput) : InputFile :=
  mk_input_file (fi_logical_path f) (fi_digest f) (blen (fi_bytes f)) (root +:+ fi_logical_path f).

(** The loop over the two delegation modes. *)
Definition refuse_forbid (file field mode : string) : SpecError + () :=
  check (negb (str_eqb mode "forbid"))
    (single file field ErrorCode.UnsupportedCapability
       "forbidding delegation has no adapter enforcement in this release"
       "use within_worker delegation").

Definition plan_of (c : CheckedDefinition) (i : ResolvedInputs) (g : HostGrant) (b : BackupPolicy)
    : ExecutionPlan :=
  mk_plan SCHEMA_VERSION TEMPLATE_REPAIR_V1 (repair_nodes (cd_max_repair_turns c))
    (sel_implementer (rs_selections i)) (sel_reviewer (rs_selections i))
    (input_file "/work/task/" (rs_task i)) (input_file "/work/references/" <$> rs_references i)
    (rs_repository i) (cd_resources c)
    (mk_verification (rs_test_bundle_name i) (rs_test_bundle_digest i)
       ((λ f, mk_bundle_file (fi_logical_path f) (fi_digest f)) <$> rs_test_bundle i)
       (cd_checks_argv c) (rs_check_image_digest i) (cd_checks_timeout c) 1)
    b (cd_max_repair_turns c) (plan_input_digests i)
    (mk_facts (cd_sandbox_backend c) (cd_sandbox_profile c)
       (merge_sort str_le (hg_authorized_remote_ids g)) ("pklr " +:+ PKLR_VERSION) SCHEMA_VERSION)
    "".

Section Compile.
Context `{Sha256, ValueText}.

Definition compile_plan (c : CheckedDefinition) (i : ResolvedInputs) (g : HostGrant)
    (file : string) : SpecError + ExecutionPlan :=
  _ ← check (str_eqb (as_runtime (sel_implementer (rs_selections i))) (cd_implementer_runtime c))
        (bad file "implementer" "implementer selection does not match the definition runtime"
           "resolve the implementer selection for the definition runtime");
  _ ← check (str_eqb (as_runtime (sel_reviewer (rs_selections i))) (cd_reviewer_runtime c))
        (bad file "reviewer" "reviewer selection does not match the definition runtime"
           "resolve the reviewer selection for the definition runtime");
  _ ← refuse_forbid file "implementer.vendorSubagents" (cd_implementer_vendor_subagents c);
  _ ← refuse_forbid file "reviewer.vendorSubagents" (cd_reviewer_vendor_subagents c);
  _ ← check (negb (cd_require_hard_disk_limit c))
        (single file "sandbox.requireHardDiskLimit" ErrorCode.UnsupportedCapability
           "hard disk quotas are not enforced by the selected runtime"
           "leave requireHardDiskLimit false and rely on disk monitoring");
  _ ← check_grant_maxima c g file;
  _ ← check (str_in (ri_repository_id (rs_repository i)) (hg_authorized_repository_ids g))
        (single file "repository" ErrorCode.AuthorizationDenied
           ("repository " +:+ quoted (ri_repository_id (rs_repository i)) +:+ " is not authorized")
           "authorize the repository or pick an authorized one");
  backup ← backup_policy c g file;
  finalize_plan (plan_of c i g backup).
End Compile.
