(* ===== verification/WorkflowPlan.v ===== *)
(** * Planning a workflow

    From a workflow file to a stored plan, and back when a test is recorded:
    [jackin-workflow-spec/src/eval.rs] and [store.rs], the planning part of
    [app/workflow_cmd.rs], and [check_test_binding] of the host daemon.

    The store is a set of files.  Every change to it may be refused, and a write may
    stop after some of its bytes, as when the disk is full or the process is killed. *)

From stdpp Require Import base list gmap strings pretty.
From Stdlib Require Import ZArith Lia Bool Strings.Byte.
From S2P Require Import Prelude OrderedMap AttachCodec Clipboard WorkflowVerify WorkflowStore WorkflowService Paths WorkflowSpec.

#[local] Open Scope Z_scope.

(** ** Evaluating the definition ([eval.rs]) *)

Record FrozenModule := mk_module { fm_name : string; fm_bytes : bytes }.
Record FrozenBundle := mk_bundle { fb_entry : string; fb_modules : list FrozenModule }.

Definition from_texts (entry : string) (modules : list (string * string))
    : SpecError + FrozenBundle :=
  let collected := (λ m, mk_module m.1 (as_bytes m.2)) <$> modules in
  _ ← check (existsb (λ m, str_eqb (fm_name m) entry) collected)
        (missing entry "" "entry module is not in the frozen bundle"
           "include the workflow file in the frozen bundle");
  mret (mk_bundle entry collected).

Record HelperRequest := mk_helper_request { hq_entry : string; hq_modules : gmap string string }.
Record HelperResponse := mk_helper_response {
  hr_ok : bool;
  hr_value : option Json.t;
  hr_env_reads : option (gmap string (option string));
  hr_error : option string;
}.
Record EvaluatedDefinition := mk_evaluated {
  ev_json : Json.t;
  ev_module_digests : gmap string string;
  ev_env_reads : gmap string (option string);
}.

(** What [jackin_process::exec_sync] reports of the helper: its outcome, a failure to
    deliver the request, or a failure to run it. *)
Record ExecOutcome := mk_outcome {
  eo_timed_out : bool;
  eo_success : bool;
  eo_code : option Z;
  eo_stdout : bytes;
  eo_stderr : bytes;
}.
Inductive ExecResult :=
| ExecOutcomeOf (o : ExecOutcome)
| ExecDelivery (writing : bool) (child : ExecOutcome)
| ExecFailed (not_found : bool) (error : string).

Definition stderr_excerpt (bs : bytes) : string := take_chars 400 (of_bytes (lossy bs)).
Definition debug_code (code : option Z) : string :=
  match code with Some c => "Some(" +:+ pretty c +:+ ")" | None => "None" end.

Definition helper_death_error (file : string) (code : option Z) (stderr : bytes)
    (detail : option string) (child_success : bool) : SpecError :=
  let stderr := stderr_excerpt stderr in
  let delivery := match detail with
                  | Some d => "; stdin delivery failed while " +:+ d
                  | None => ""
                  end in
  let message :=
    if child_success
    then "evaluation helper exited successfully before request delivery completed (code="
         +:+ debug_code code +:+ delivery +:+ "): " +:+ stderr
    else "evaluation helper died (code=" +:+ debug_code code +:+ delivery +:+ "): " +:+ stderr in
  let action :=
    if str_contains "cannot set the memory cap" stderr
    then "check the configured evaluation memory cap and retry"
    else "inspect the helper's reported cause; resource limits may cause helper failure" in
  single file "" ErrorCode.EvaluationLimit message action.

Section Eval.
Context `{Sha256, SerdeJson HelperRequest, SerdeJson HelperResponse}.

Definition module_digests (b : FrozenBundle) : gmap string string :=
  foldl (λ m e, <[fm_name e := sha256_hex (fm_bytes e)]> m) ∅ (fb_modules b).

Definition module_texts (b : FrozenBundle) (file : string) : SpecError + gmap string string :=
  texts ← collect_results
    (λ m, opt_err ((fm_name m,.) <$> from_utf8 (fm_bytes m))
            (bad file "" "frozen module bytes are not UTF-8"
               "save the workflow and schema files as UTF-8 and retry")) (fb_modules b);
  mret (foldl (λ m e, <[e.1 := e.2]> m) ∅ texts).

(** [deadline]: the seconds of [limits.deadline]; the other limits are enforced by
    the helper and by [exec]. *)
Definition evaluate_bounded (exec : bytes → ExecResult) (b : FrozenBundle) (file : string)
    (deadline : Z) : SpecError + EvaluatedDefinition :=
  modules ← module_texts b file;
  stdin ← match to_vec (mk_helper_request (fb_entry b) modules) with
          | Ok bs => inr bs
          | _ => inl (single file "" ErrorCode.EvaluationLimit
                        "cannot encode the frozen bundle: {error}" "retry with smaller workflow files")
          end;
  outcome ← match exec stdin with
            | ExecOutcomeOf o => inr o
            | ExecDelivery writing child =>
                inl (helper_death_error file (eo_code child) (eo_stderr child)
                       (Some (if writing then "writing the request" else "closing request stdin"))
                       (eo_success child))
            | ExecFailed not_found error =>
                inl (single file "" ErrorCode.EvaluationLimit
                       ("cannot run the evaluation helper: " +:+ error)
                       (if not_found
                        then "reinstall jackin so jackin-workflow-eval sits next to the CLI"
                        else "inspect the helper transport error and verify the helper can run"))
            end;
  _ ← check (negb (eo_timed_out outcome))
        (single file "" ErrorCode.EvaluationLimit
           ("evaluation exceeded its deadline of " +:+ pretty deadline +:+ "s")
           "simplify the workflow definition and retry");
  _ ← check (eo_success outcome)
        (helper_death_error file (eo_code outcome) (eo_stderr outcome) None false);
  response ← opt_err (from_slice (eo_stdout outcome))
    (single file "" ErrorCode.EvaluationLimit
       "evaluation helper returned malformed output: {error}" "reinstall jackin and retry");
  _ ← check (hr_ok response)
        (bad file "" ("workflow definition failed to evaluate: "
                      +:+ default "unknown error" (hr_error response))
           "fix the reported Pkl error and retry");
  mret (mk_evaluated (default Json.Null (hr_value response)) (module_digests b)
          (default ∅ (hr_env_reads response))).
End Eval.

(** ** Loading the definition ([workflow_cmd.rs]) *)

Definition CHECKS_PREFIX : string := "/jackin/checks/".

Definition is_normal (c : Component.t) : bool :=
  match c with Component.Normal _ => true | _ => false end.

Definition validate_check_argv (argv : list string) (file : string) : SpecError + () :=
  let script := arg ← argv !! 1%nat; strip_prefix CHECKS_PREFIX arg in
  let supported :=
    match script with
    | Some path => negb (str_eqb path "") && forallb is_normal (components path)
    | None => false
    end in
  check (negb (negb (Nat.eqb (length argv) 3) || bool_decide (argv !! 0%nat = Some "")
               || negb supported || negb (bool_decide (argv !! 2%nat = Some "/work/repo"))))
    (bad file "checks.argv"
       "the test sandbox requires [program, /jackin/checks/<bundle member>, /work/repo]"
       "select one frozen bundle script and the fixed candidate mount; extra arguments are unsupported").

Record LoadedDefinition := mk_loaded {
  ld_checked : CheckedDefinition;
  ld_file_label : string;
  ld_workspace_field : string;
  ld_module_digests : gmap string string;
}.

Section Load.
Context `{Sha256, SerdeJson HelperRequest, SerdeJson HelperResponse}.

(** [fs::read_to_string] *)
Definition read_text (fs : PlanFiles) (path : string) : option string :=
  bs ← fs_read fs path; from_utf8 bs.

(** [helper]: the helper binary next to this one, as a function from its standard
    input to what running it reports. *)
Definition load_definition (fs : PlanFiles) (helper : option (bytes → ExecResult)) (file : string)
    : SpecError + LoadedDefinition :=
  let dir := default "." (path_parent file) in
  let schema_path := path_join dir "Workflow.pkl" in
  schema ← opt_err (read_text fs schema_path)
    (missing file "schema" ("cannot read schema " +:+ quoted schema_path)
       "keep Workflow.pkl next to the workflow file");
  workflow ← opt_err (read_text fs file)
    (missing file "definition" ("cannot read workflow file " +:+ quoted file)
       "pass the repair-workflow definition file");
  bundle ← from_texts "/bundle/repair.pkl"
             [("/bundle/Workflow.pkl", schema); ("/bundle/repair.pkl", workflow)];
  exec ← opt_err helper
    (missing file "evaluator" "evaluation helper not installed next to this jackin binary"
       "reinstall jackin so jackin-workflow-eval sits next to it");
  evaluated ← evaluate_bounded exec bundle file 30;
  checked ← validate_definition (ev_json evaluated) file;
  _ ← validate_check_argv (cd_checks_argv checked) file;
  let workspace := match value_get (ev_json evaluated) "workspace" with
                   | Some (Json.String s) => s
                   | _ => "current"
                   end in
  mret (mk_loaded checked file workspace (ev_module_digests evaluated)).
End Load.

(** ** The input store ([store.rs]) *)

Record StoredFile := mk_stored { sf_bytes : bytes; sf_read_only : bool }.

(** The operating system answers a change with success, a refusal, or an error after
    [n] bytes were written. *)
Inductive Answer := Done | Refused | Torn (n : nat).
Record PlanStore := mk_plan_store { ps_files : gmap string StoredFile; ps_answers : list Answer }.

Definition SM (A : Type) : Type := PlanStore → (SpecError + A) * PlanStore.
#[global] Instance sm_ret : MRet SM := λ A a s, (inr a, s).
#[global] Instance sm_bind : MBind SM := λ A B f m s,
  match m s with
  | (inr a, s) => f a s
  | (inl e, s) => (inl e, s)
  end.
Definition sm_fail {A} (e : SpecError) : SM A := λ s, (inl e, s).
Definition sm_sum {A} (r : SpecError + A) : SM A := λ s, (r, s).
Definition sm_map_err {A} (f : SpecError → SpecError) (m : SM A) : SM A := λ s,
  let '(r, s) := m s in (lift_err f r, s).
Definition sm_check (c : bool) (e : SpecError) : SM () := if c then mret () else sm_fail e.

(** Once the script of answers is used up every change succeeds. *)
Definition next_answer : SM Answer := λ s,
  match ps_answers s with
  | [] => (inr Done, s)
  | a :: l => (inr a, mk_plan_store (ps_files s) l)
  end.

Definition put_file (path : string) (f : StoredFile) : SM () := λ s,
  (inr (), mk_plan_store (<[path := f]> (ps_files s)) (ps_answers s)).
Definition read_stored (path : string) : SM (option bytes) := λ s,
  (inr (sf_bytes <$> ps_files s !! path), s).
Definition is_file (path : string) : SM bool := λ s,
  (inr (bool_decide (is_Some (ps_files s !! path))), s).
Definition writable (path : string) : SM bool := λ s,
  (inr (match ps_files s !! path with Some f => negb (sf_read_only f) | None => true end), s).

(** [fs::write]: whether it succeeded.  A file of mode 0444 cannot be opened for
    writing. *)
Definition write_file (path : string) (bs : bytes) : SM bool :=
  ok ← writable path;
  answer ← next_answer;
  if ok : bool then
    match answer with
    | Done => _ ← put_file path (mk_stored bs false); mret true
    | Refused => mret false
    | Torn n => _ ← put_file path (mk_stored (take n bs) false); mret false
    end
  else mret false.

Definition make_read_only (path : string) : SM () := λ s,
  (inr (), match ps_files s !! path with
           | Some f => mk_plan_store (<[path := mk_stored (sf_bytes f) true]> (ps_files s))
                         (ps_answers s)
           | None => s
           end).

(** [set_permissions] to 0444, whose result is dropped. *)
Definition protect (path : string) : SM () :=
  answer ← next_answer;
  match answer with Done => make_read_only path | _ => mret () end.

Definition PLANS_DIR : string := "plans".
Definition INPUTS_DIR : string := "inputs".
Definition plan_path (root hash : string) : string :=
  path_join (path_join root PLANS_DIR) (hash +:+ ".plan.json").
Definition input_path (root digest : string) : string :=
  path_join (path_join root INPUTS_DIR) digest.

Definition mismatch (file field message action : string) : SpecError :=
  single file field ErrorCode.PlanDigestMismatch message action.

Definition create_dir (root : string) : SM () :=
  answer ← next_answer;
  sm_check (match answer with Done => true | _ => false end)
    (missing root "store" "cannot create the input store directory"
       "point the store at a writable directory").
Definition open_store (root : string) : SM () := _ ← create_dir root; create_dir root.

Definition write_input (root digest : string) (bs : bytes) : SM () :=
  let path := input_path root digest in
  there ← is_file path;
  if there : bool then mret ()
  else
    ok ← write_file path bs;
    _ ← sm_check ok (missing path "input" "cannot write the stored input"
                       "point the store at a writable directory");
    protect path.

Definition read_input (root digest : string) : SM bytes :=
  let path := input_path root digest in
  o ← read_stored path;
  sm_sum (opt_err o (mismatch path "input" ("stored input " +:+ quoted digest +:+ " is missing")
                       "recompile the workflow to restore the inputs")).

Fixpoint write_inputs (root : string) (inputs : list FrozenInput) : SM () :=
  match inputs with
  | [] => mret ()
  | i :: inputs => _ ← write_input root (fi_digest i) (fi_bytes i); write_inputs root inputs
  end.

Section Store.
Context `{Sha256, ValueText, SerdeJson ExecutionPlan}.

Definition persist (root : string) (plan : ExecutionPlan) (inputs : list FrozenInput) : SM string :=
  _ ← write_inputs root inputs;
  hash ← sm_sum (spec_plan_hash plan);
  _ ← sm_check (str_eqb (ep_plan_hash plan) hash)
        (mismatch "plan" "plan_hash" "plan carries a hash that does not match its bytes"
           "recompile the workflow to produce the plan");
  stored ← sm_sum (match to_vec plan with
                   | Ok bs => inr bs
                   | _ => inl (missing "plan" "plan" "cannot encode the stored plan"
                                 "recompile the workflow to produce the plan")
                   end);
  let path := plan_path root hash in
  ok ← write_file path stored;
  _ ← sm_check ok (missing path "plan" "cannot write the stored plan"
                     "point the store at a writable directory");
  _ ← protect path;
  mret hash.

Definition read_plan (root hash : string) : SM ExecutionPlan :=
  let path := plan_path root hash in
  o ← read_stored path;
  bs ← sm_sum (opt_err o (mismatch path "plan" ("no stored plan for hash " +:+ quoted hash)
                            "recompile the workflow to produce the plan"));
  plan ← sm_sum (opt_err (from_slice bs)
    (mismatch path "plan" "stored plan bytes are not a valid plan"
       "recompile the workflow to produce the plan"));
  recomputed ← sm_sum (lift_err
    (λ _, mismatch path "plan" "stored plan bytes cannot be hashed"
            "recompile the workflow to produce the plan") (spec_plan_hash plan));
  _ ← sm_check (negb (negb (str_eqb recomputed hash) || negb (str_eqb (ep_plan_hash plan) hash)))
        (mismatch path "plan_hash" "stored plan hash does not match the stored bytes"
           "recompile the workflow; never edit stored plans");
  mret (set_plan_hash hash plan).

(** ** The plan command ([plan_inner]) *)

Definition WORKSPACE_REPOSITORY_ID : string := "workspace:current".

Definition host_grant (c : CheckedDefinition) : HostGrant :=
  mk_grant (cd_sandbox_profile c) (cd_sandbox_backend c) 16000 68719476736 4096 86400 1099511627776
    [WORKSPACE_REPOSITORY_ID] [].

Definition frozen_inputs (i : ResolvedInputs) : list FrozenInput :=
  rs_task i :: rs_references i ++ rs_test_bundle i.

(** From the plan on: a plan whose file is there is read back, any other is stored. *)
Definition store_plan (root : string) (plan : ExecutionPlan) (i : ResolvedInputs) : SM string :=
  there ← is_file (plan_path root (ep_plan_hash plan));
  if there : bool then (p ← read_plan root (ep_plan_hash plan); mret (ep_plan_hash p))
  else persist root plan (frozen_inputs i).

(** After the definition is loaded and the workspace, its role and its agents are
    selected: [env] and [candidates] are what the configuration gives. *)
Definition plan_inner (fs : PlanFiles) (git : string → list string → string + (bool * bytes))
    (loaded : LoadedDefinition) (env : LiveSelectionEnv) (candidates : list string)
    (root : string) : SM (ExecutionPlan * string) :=
  let file := ld_file_label loaded in
  let dir := default "." (path_parent file) in
  selections ← sm_sum (resolve_live_selections file env);
  repository ← sm_sum (resolve_workspace_repository git candidates file WORKSPACE_REPOSITORY_ID
                         (le_workspace_name env));
  let resolution := mk_resolution file file (path_join dir "checks") TEST_SANDBOX_IMAGE
                      (ld_module_digests loaded) repository selections in
  inputs ← sm_sum (resolve_workflow_files fs resolution (ld_checked loaded));
  plan ← sm_sum (compile_plan (ld_checked loaded) inputs (host_grant (ld_checked loaded)) file);
  _ ← sm_map_err (λ _, missing file "store" "cannot open the workflow plan store"
                         "make the jackin data directory writable") (open_store root);
  hash ← store_plan root plan inputs;
  mret (plan, hash).
End Store.

(** ** Recording a test ([host_daemon.rs]) *)

(** [Path::ends_with] *)
Definition path_ends_with (p suffix : string) : bool :=
  bool_decide (components suffix `suffix_of` components p).

Section Binding.
Context `{Sha256, ValueText, SerdeJson ExecutionPlan}.
(** [fs::read] of a script on the host. *)
Context (fs_script : string → string + bytes).

Definition verify_test_binding (v : VerificationPolicy) (program script digest : string)
    (timeout : Z) (root : string) (s : PlanStore) : WorkflowError + () :=
  arg ← opt_err (match vp_check_argv v with
                 | [a0; a1; a2] =>
                     if str_eqb a0 program && str_eqb a2 "/work/repo"
                     then strip_prefix CHECKS_PREFIX a1 else None
                 | _ => None
                 end)
    (invalid "check argv does not match the supported frozen shape [program, /jackin/checks/<manifest path>, /work/repo]: {argv:?}");
  _ ← check (negb (str_eqb arg "" || existsb (λ c, negb (is_normal c)) (components arg)
                   || negb (path_ends_with script arg)))
        (invalid "supplied check script path `{check_script}` does not match frozen bundle path `{}`");
  file ← opt_err (find (λ f, str_eqb (logical_path f) arg) (vp_test_bundle_files v))
    (invalid "frozen check script `{logical_path}` is not a member of the selected test bundle");
  frozen ← lift_err (λ _, invalid "cannot read frozen check script `{logical_path}`: {error}")
             (read_input root (bf_digest file) s).1;
  supplied ← lift_err (λ _, invalid "cannot read supplied check script `{check_script}`: {error}")
               (fs_script script);
  _ ← check (bool_decide (supplied = frozen))
        (invalid "supplied check script bytes do not match frozen bundle entry `{logical_path}`");
  _ ← check (str_eqb (vp_check_image_digest v) TEST_SANDBOX_IMAGE)
        (invalid "check image `{}` does not match the supported sandbox image `{}`");
  _ ← check (str_eqb (vp_test_bundle_digest v) digest)
        (invalid "check bundle digest does not match the frozen plan bundle");
  check (vp_timeout_seconds v =? timeout)
    (invalid "check timeout {timeout_secs}s does not match the frozen plan timeout {}s").

Definition check_test_binding (s : PlanStore) (root id program script digest : string) (timeout : Z)
    : M WorkflowError (list TestBundleFile) :=
  summary ← summary_of id;
  let failed := λ _ : SpecError,
    invalid "cannot verify the test binding for run `{run_id}`: {error}" in
  let '(opened, s) := open_store root s in
  _ ← from_sum (lift_err failed opened);
  plan ← from_sum (lift_err failed (read_plan root (rs_plan_hash summary) s).1);
  _ ← from_sum (verify_test_binding (ep_verification plan) program script digest timeout root s);
  mret (vp_test_bundle_files (ep_verification plan)).

(** The [WorkflowRecordTest] request.  [script_now]: what [record_test] reads of the
    script. *)
Definition handle_record_test (s : PlanStore) (root : string) (env : Env)
    (script_now : string + bytes)
    (run_test : TestPolicy → PreparedTestWorker → list TestBundleFile →
                WorkflowError + TestExecution)
    (id : string) (expected : Z) (program script digest : string) (repo : option string)
    (scratch : string) (timeout : Z) : M WorkflowError (RunSummary * RecordedTest) :=
  files ← check_test_binding s root id program script digest timeout;
  record_test env script_now run_test id expected
    (mk_test_params program script digest files repo scratch timeout).
End Binding.
