(* ===== verification/SpecProofs.v ===== *)
(** * Checked definitions

    What [validate_definition] accepts, as a template that a JSON value covers, and
    what a compiled plan is allowed to ask for. *)

From stdpp Require Import base list gmap strings pretty sorting.
From Stdlib Require Import ZArith Lia Bool Strings.Byte.
From S2P Require Import Prelude OrderedMap Clipboard WorkflowVerify WorkflowStore WorkflowService Paths WorkflowSpec.

#[local] Open Scope Z_scope.

(** ** The template of a definition *)

Definition agent_value (runtime selection vendor : string) : Json.t :=
  Json.Object [("runtime", Json.String runtime); ("selection", Json.String selection);
               ("vendorSubagents", Json.String vendor)].

Definition definition_value (c : CheckedDefinition) : Json.t :=
  let r := cd_resources c in
  Json.Object
    [("schemaVersion", number_value SCHEMA_VERSION);
     ("template", Json.String TEMPLATE_REPAIR_V1);
     ("workspace", Json.String "current");
     ("repository", Json.Object [("source", Json.String "workspace")]);
     ("task", Json.String (cd_task c));
     ("references", strings_value (cd_references c));
     ("implementer", agent_value (cd_implementer_runtime c) (cd_implementer_selection c)
                       (cd_implementer_vendor_subagents c));
     ("reviewer", agent_value (cd_reviewer_runtime c) (cd_reviewer_selection c)
                    (cd_reviewer_vendor_subagents c));
     ("checks", Json.Object
        [("bundle", Json.String (cd_checks_bundle c)); ("argv", strings_value (cd_checks_argv c));
         ("timeoutSeconds", number_value (cd_checks_timeout c))]);
     ("sandbox", Json.Object
        [("backend", Json.String (cd_sandbox_backend c));
         ("profile", Json.String (cd_sandbox_profile c));
         ("cpuMillicores", number_value (rl_cpu_millicores r));
         ("memoryBytes", number_value (rl_memory_bytes r));
         ("maxPids", number_value (rl_max_pids r));
         ("maxRunSeconds", number_value (rl_max_run_seconds r));
         ("diskMonitorBytes", number_value (rl_disk_monitor_bytes r));
         ("requireHardDiskLimit", Json.Bool (cd_require_hard_disk_limit c))]);
     ("backup", Json.Object
        [("mode", Json.String (cd_backup_mode c)); ("remote", option_value (cd_backup_remote c))]);
     ("maxRepairTurns", number_value (cd_max_repair_turns c))].

(** [v] has every field of [w], with the same values. *)
Fixpoint covers (v w : Json.t) : Prop :=
  match w with
  | Json.Object m =>
      (fix go m := match m with
                   | [] => True
                   | (k, w) :: m => (∃ v', value_get v k = Some v' ∧ covers v' w) ∧ go m
                   end) m
  | _ => v = w
  end.

Definition only_known (v : Json.t) : Prop :=
  ∃ m, v = Json.Object m ∧ Forall (λ e, e.1 ∈ KNOWN_TOP_LEVEL) m.

Definition limits_ok (r : ResourceLimits) : Prop :=
  1 ≤ rl_cpu_millicores r ≤ MAX_CPU_MILLICORES
  ∧ MIN_MEMORY_BYTES ≤ rl_memory_bytes r ≤ MAX_MEMORY_BYTES
  ∧ 1 ≤ rl_max_pids r ≤ MAX_PIDS
  ∧ 1 ≤ rl_max_run_seconds r ≤ MAX_RUN_SECONDS
  ∧ 1 ≤ rl_disk_monitor_bytes r ≤ MAX_DISK_MONITOR_BYTES.

Definition agent_ok (runtime selection vendor want : string) : Prop :=
  runtime = want ∧ selection = "workspace-default" ∧ vendor ∈ ["within_worker"; "forbid"].

Record checked_ok (c : CheckedDefinition) : Prop := {
  ok_task : cd_task c ≠ "";
  ok_implementer : agent_ok (cd_implementer_runtime c) (cd_implementer_selection c)
                     (cd_implementer_vendor_subagents c) "claude";
  ok_reviewer : agent_ok (cd_reviewer_runtime c) (cd_reviewer_selection c)
                  (cd_reviewer_vendor_subagents c) "codex";
  ok_bundle : cd_checks_bundle c ≠ "";
  ok_argv : cd_checks_argv c ≠ [];
  ok_timeout : 1 ≤ cd_checks_timeout c ≤ MAX_CHECK_TIMEOUT_SECONDS;
  ok_backend : cd_sandbox_backend c = "docker";
  ok_limits : limits_ok (cd_resources c);
  ok_mode : cd_backup_mode c ∈ ["off"; "best_effort"; "required"];
  ok_turns : 0 ≤ cd_max_repair_turns c ≤ MAX_REPAIR_TURNS;
}.

(** ** Reading one field *)

Section Fields.
Context {B : Type} (v : Json.t) (file parent key field : string).

Lemma get_bind (f : Json.t → SpecError + B) b :
  (w ← get v file parent key; f w) = inr b ↔ ∃ w, value_get v key = Some w ∧ f w = inr b.
Proof. unfold get. destruct (value_get v key); cbn; naive_solver. Qed.

Lemma string_bind (f : string → SpecError + B) b :
  (s ← as_string v file field; f s) = inr b ↔ ∃ s, v = Json.String s ∧ f s = inr b.
Proof. destruct v; cbn; naive_solver. Qed.

Lemma bool_bind (f : bool → SpecError + B) b :
  (s ← as_bool v file field; f s) = inr b ↔ ∃ s, v = Json.Bool s ∧ f s = inr b.
Proof. destruct v; cbn; naive_solver. Qed.

Lemma u64_bind (f : Z → SpecError + B) b :
  (n ← as_u64 v file field; f n) = inr b ↔ ∃ n, v = number_value n ∧ 0 ≤ n ∧ f n = inr b.
Proof.
  unfold as_u64, number_value. destruct v as [| |[n|]| | |]; try (cbn; naive_solver).
  destruct (Z.leb_spec 0 n); cbn; split; naive_solver lia.
Qed.

Lemma ranged_bind min max action (f : Z → SpecError + B) b :
  0 ≤ min →
  (n ← ranged_u64 v file field min max action; f n) = inr b
  ↔ ∃ n, v = number_value n ∧ min ≤ n ≤ max ∧ f n = inr b.
Proof.
  intros Hm. unfold ranged_u64, as_u64, number_value.
  destruct v as [| |[n|]| | |]; try (cbn; naive_solver).
  destruct (Z.leb_spec 0 n); [|cbn; split; naive_solver lia]. cbn.
  destruct (Z.ltb_spec n min), (Z.ltb_spec max n); cbn; split; naive_solver lia.
Qed.

Lemma strings_bind (f : list string → SpecError + B) b :
  (l ← as_string_list v file field; f l) = inr b ↔ ∃ l, v = strings_value l ∧ f l = inr b.
Proof.
  assert (Hl : ∀ items l, collect_results (λ i, as_string i file field) items = inr l
                          ↔ items = Json.String <$> l).
  { induction items as [|i items IH]; intros l.
    { cbn. split; [by intros [= <-]|]. by destruct l. }
    cbn [collect_results]. rewrite sum_bind_inr. split.
    - intros (s & Hs & H). apply sum_bind_inr in H as (ss & Hss & [= <-]).
      destruct i; try discriminate Hs. cbn in Hs. simplify_eq. cbn. f_equal. by apply IH.
    - destruct l as [|s l]; [done|]. cbn. intros [= -> H]. exists s. split; [done|].
      apply IH in H. by rewrite H. }
  unfold as_string_list, strings_value. destruct v as [| | | |items|]; try (cbn; naive_solver).
  cbn. rewrite sum_bind_inr. split.
  - intros (l & H & Hf). apply Hl in H as ->. eauto.
  - intros (l & [= ->] & Hf). exists l. split; [by apply Hl|done].
Qed.

Lemma check_bind c (e : SpecError) (f : () → SpecError + B) b :
  (u ← check c e; f u) = inr b ↔ c = true ∧ f () = inr b.
Proof. destruct c; cbn; naive_solver. Qed.
End Fields.

(** [H : c = inr b] for a chain of field reads: the facts of each. *)
Ltac fields_in H :=
  repeat first
    [ apply get_bind in H; destruct H as (? & ? & H)
    | apply string_bind in H; destruct H as (? & -> & H)
    | apply bool_bind in H; destruct H as (? & -> & H)
    | apply u64_bind in H; destruct H as (? & -> & ? & H)
    | apply ranged_bind in H; [|lia]; destruct H as (? & -> & ? & H)
    | apply strings_bind in H; destruct H as (? & -> & H)
    | apply check_bind in H; destruct H as (? & H) ].

Lemma str_eqb_spec a b : str_eqb a b = true ↔ a = b.
Proof. unfold str_eqb. by rewrite bool_decide_eq_true. Qed.
Lemma str_in_spec a l : str_in a l = true ↔ a ∈ l.
Proof. unfold str_in. by rewrite bool_decide_eq_true. Qed.
Lemma str_neqb_spec a b : negb (str_eqb a b) = true ↔ a ≠ b.
Proof. rewrite negb_true_iff. unfold str_eqb. by rewrite bool_decide_eq_false. Qed.

(** The tests of a chain, as propositions. *)
Ltac tests :=
  repeat match goal with
  | E : str_eqb _ _ = true |- _ => apply str_eqb_spec in E; subst
  | E : (_ =? _) = true |- _ => apply Z.eqb_eq in E; subst
  | E : negb (str_eqb _ _) = true |- _ => apply str_neqb_spec in E
  | E : str_in _ _ = true |- _ => apply str_in_spec in E
  | E : negb (bool_decide _) = true |- _ => apply negb_true_iff, bool_decide_eq_false in E
  end.
Ltac prove_test :=
  first [ apply str_eqb_spec | apply Z.eqb_eq | apply str_neqb_spec | apply str_in_spec
        | apply negb_true_iff, bool_decide_eq_false ]; eassumption || reflexivity.
(** The converse of [fields_in]: a goal [c = inr b] from the facts in the context. *)
Ltac fields_out :=
  repeat first
    [ apply get_bind; eexists; split; [eassumption|]
    | apply string_bind; eexists; split; [reflexivity|]
    | apply bool_bind; eexists; split; [reflexivity|]
    | apply u64_bind; eexists; split; [reflexivity|split; [unfold SCHEMA_VERSION; lia|]]
    | apply ranged_bind; [lia|]; eexists; split; [reflexivity|split; [lia|]]
    | apply strings_bind; eexists; split; [reflexivity|]
    | apply check_bind; split; [prove_test|] ].
Ltac ret_in H := cbv [mret sum_ret] in H; simplify_eq.
(** Takes a coverage apart. *)
Ltac uncover :=
  cbn [covers] in *;
  repeat match goal with
  | H : _ ∧ _ |- _ => destruct H
  | H : ∃ _, _ |- _ => destruct H
  | H : True |- _ => clear H
  | H : covers ?v (number_value ?n) |- _ => change (v = number_value n) in H
  | H : covers ?v (strings_value ?l) |- _ => change (v = strings_value l) in H
  end; subst.

Ltac cover :=
  cbn [covers];
  repeat match goal with
  | |- _ ∧ _ => split
  | |- True => exact I
  | |- ∃ v, value_get _ _ = Some v ∧ _ => eexists; split; [eassumption|]
  end; try reflexivity; try eassumption; try lia.

Lemma validate_head_spec json file task refs :
  validate_head json file = inr (task, refs)
  ↔ covers json (Json.Object
      [("schemaVersion", number_value SCHEMA_VERSION); ("template", Json.String TEMPLATE_REPAIR_V1);
       ("workspace", Json.String "current");
       ("repository", Json.Object [("source", Json.String "workspace")]);
       ("task", Json.String task); ("references", strings_value refs)])
    ∧ task ≠ "".
Proof.
  unfold validate_head. split; intros H.
  - fields_in H. tests. injection H as -> ->. cover.
  - uncover. fields_out. done.
Qed.

Lemma agent_runtime_spec agent file field want runtime :
  agent_runtime agent file field want = inr runtime
  ↔ value_get agent "runtime" = Some (Json.String runtime) ∧ runtime = want.
Proof.
  unfold agent_runtime. split; intros H.
  - fields_in H. tests. injection H as ->. done.
  - destruct H as [H ->]. fields_out. done.
Qed.

Lemma agent_selection_spec agent file field selection :
  agent_selection_name agent file field = inr selection
  ↔ value_get agent "selection" = Some (Json.String selection) ∧ selection = "workspace-default".
Proof.
  unfold agent_selection_name. split; intros H.
  - fields_in H. tests. injection H as <-. done.
  - destruct H as [H ->]. fields_out. done.
Qed.

Lemma agent_vendor_spec agent file field mode :
  agent_vendor_mode agent file field = inr mode
  ↔ value_get agent "vendorSubagents" = Some (Json.String mode)
    ∧ mode ∈ ["within_worker"; "forbid"].
Proof.
  unfold agent_vendor_mode. split; intros H.
  - fields_in H. tests. injection H as <-. done.
  - destruct H as [H Hm]. fields_out. done.
Qed.

Lemma validate_agents_spec json file ir isel iv rr rsel rv :
  validate_agents json file = inr (mk_agent_parts ir isel iv rr rsel rv)
  ↔ covers json (Json.Object [("implementer", agent_value ir isel iv);
                              ("reviewer", agent_value rr rsel rv)])
    ∧ agent_ok ir isel iv "claude" ∧ agent_ok rr rsel rv "codex".
Proof.
  unfold validate_agents, agent_ok, agent_value. split; intros H.
  - fields_in H. invert_inr.
    repeat match goal with
    | E : agent_runtime _ _ _ _ = inr _ |- _ => apply agent_runtime_spec in E as [? ->]
    | E : agent_selection_name _ _ _ = inr _ |- _ => apply agent_selection_spec in E as [? ->]
    | E : agent_vendor_mode _ _ _ = inr _ |- _ => apply agent_vendor_spec in E as [? ?]
    end. ret_in H. cover.
  - uncover. fields_out.
    repeat (apply sum_bind_inr; eexists; split;
            [first [apply agent_runtime_spec|apply agent_selection_spec|apply agent_vendor_spec];
             split; [eassumption|done]|]). done.
Qed.

Lemma validate_checks_spec json file bundle argv timeout :
  validate_checks json file = inr (bundle, argv, timeout)
  ↔ covers json (Json.Object [("checks", Json.Object
      [("bundle", Json.String bundle); ("argv", strings_value argv);
       ("timeoutSeconds", number_value timeout)])])
    ∧ bundle ≠ "" ∧ argv ≠ [] ∧ 1 ≤ timeout ≤ MAX_CHECK_TIMEOUT_SECONDS.
Proof.
  unfold validate_checks. split; intros H.
  - fields_in H. tests. ret_in H. cover.
  - uncover. fields_out. done.
Qed.

Lemma mod_small_u32 n : 0 ≤ n ≤ 4096 → n mod 4294967296 = n.
Proof. intros. apply Z.mod_small. lia. Qed.

Lemma validate_sandbox_spec json file backend profile r hard :
  validate_sandbox json file = inr (mk_sandbox_parts backend profile r hard)
  ↔ covers json (Json.Object [("sandbox", Json.Object
      [("backend", Json.String backend); ("profile", Json.String profile);
       ("cpuMillicores", number_value (rl_cpu_millicores r));
       ("memoryBytes", number_value (rl_memory_bytes r));
       ("maxPids", number_value (rl_max_pids r));
       ("maxRunSeconds", number_value (rl_max_run_seconds r));
       ("diskMonitorBytes", number_value (rl_disk_monitor_bytes r));
       ("requireHardDiskLimit", Json.Bool hard)])])
    ∧ backend = "docker" ∧ limits_ok r.
Proof.
  unfold validate_sandbox, limits_ok, MIN_MEMORY_BYTES, MAX_PIDS. split; intros H.
  - fields_in H. tests. rewrite mod_small_u32 in H by lia. ret_in H. cbn [rl_cpu_millicores
      rl_memory_bytes rl_max_pids rl_max_run_seconds rl_disk_monitor_bytes]. cover.
  - uncover. fields_out. rewrite mod_small_u32 by lia. by destruct r.
Qed.

Lemma validate_backup_spec json file mode remote :
  validate_backup json file = inr (mode, remote)
  ↔ covers json (Json.Object [("backup", Json.Object
      [("mode", Json.String mode); ("remote", option_value remote)])])
    ∧ mode ∈ ["off"; "best_effort"; "required"].
Proof.
  unfold validate_backup. split; intros H.
  - fields_in H. tests. apply sum_bind_inr in H as (o & Ho & H). ret_in H.
    match type of Ho with match ?v with _ => _ end = _ => destruct v end; simplify_eq; cover.
  - uncover. fields_out. apply sum_bind_inr. exists remote. split; [|done].
    destruct remote; cbn in *; by subst.
Qed.

Lemma reject_extra_fields_spec json file :
  reject_extra_fields json file = inr () ↔ only_known json.
Proof.
  unfold reject_extra_fields, only_known. destruct json as [| | | | |m]; try (cbn; naive_solver).
  cbn [as_object mbind sum_mbind]. transitivity (Forall (λ e, e.1 ∈ KNOWN_TOP_LEVEL) m).
  2:{ naive_solver. }
  induction m as [|[k v] m IH]; [done|]. rewrite Forall_cons, <- str_in_spec.
  cbn [fst]. destruct (str_in k KNOWN_TOP_LEVEL); [rewrite IH|]; naive_solver.
Qed.

(** ** Definitions are accepted exactly when they fill the template *)

Lemma covers_app json m m' :
  covers json (Json.Object (m ++ m'))
  ↔ covers json (Json.Object m) ∧ covers json (Json.Object m').
Proof.
  induction m as [|[k w] m IH]; [cbn; naive_solver|].
  cbn [app]. cbn [covers] in *. rewrite IH. naive_solver.
Qed.

(** The parts of the template, one for each group of fields. *)
Lemma definition_parts c :
  ∃ h a k s b t, definition_value c = Json.Object (h ++ a ++ k ++ s ++ b ++ t)
    ∧ (∀ json file, validate_head json file = inr (cd_task c, cd_references c)
         ↔ covers json (Json.Object h) ∧ cd_task c ≠ "")
    ∧ (∀ json file, validate_agents json file
           = inr (mk_agent_parts (cd_implementer_runtime c) (cd_implementer_selection c)
                    (cd_implementer_vendor_subagents c) (cd_reviewer_runtime c)
                    (cd_reviewer_selection c) (cd_reviewer_vendor_subagents c))
         ↔ covers json (Json.Object a)
           ∧ agent_ok (cd_implementer_runtime c) (cd_implementer_selection c)
               (cd_implementer_vendor_subagents c) "claude"
           ∧ agent_ok (cd_reviewer_runtime c) (cd_reviewer_selection c)
               (cd_reviewer_vendor_subagents c) "codex")
    ∧ (∀ json file, validate_checks json file
           = inr (cd_checks_bundle c, cd_checks_argv c, cd_checks_timeout c)
         ↔ covers json (Json.Object k) ∧ cd_checks_bundle c ≠ "" ∧ cd_checks_argv c ≠ []
           ∧ 1 ≤ cd_checks_timeout c ≤ MAX_CHECK_TIMEOUT_SECONDS)
    ∧ (∀ json file, validate_sandbox json file
           = inr (mk_sandbox_parts (cd_sandbox_backend c) (cd_sandbox_profile c) (cd_resources c)
                    (cd_require_hard_disk_limit c))
         ↔ covers json (Json.Object s) ∧ cd_sandbox_backend c = "docker" ∧ limits_ok (cd_resources c))
    ∧ (∀ json file, validate_backup json file = inr (cd_backup_mode c, cd_backup_remote c)
         ↔ covers json (Json.Object b) ∧ cd_backup_mode c ∈ ["off"; "best_effort"; "required"])
    ∧ t = [("maxRepairTurns", number_value (cd_max_repair_turns c))].
Proof.
  do 6 eexists. split; [|split_and!; intros;
    [ apply validate_head_spec | apply validate_agents_spec | apply validate_checks_spec
    | apply validate_sandbox_spec | apply validate_backup_spec | reflexivity ]].
  reflexivity.
Qed.

Lemma validate_inr json file c :
  validate_definition json file = inr c
  ↔ only_known json ∧ covers json (definition_value c) ∧ checked_ok c.
Proof.
  destruct (definition_parts c) as (h & a & k & s & b & t & -> & Hh & Ha & Hk & Hs & Hb & ->).
  rewrite !covers_app. unfold validate_definition. split.
  - intros H. apply sum_bind_inr in H as ([] & Ho & H). apply reject_extra_fields_spec in Ho.
    apply sum_bind_inr in H as ([] & E1 & H). apply sum_bind_inr in H as ([] & E2 & H).
    apply sum_bind_inr in H as ([[] ] & E3 & H). apply sum_bind_inr in H as ([] & E4 & H).
    apply sum_bind_inr in H as ([] & E5 & H). fields_in H. unfold MAX_REPAIR_TURNS in *.
    rewrite mod_small_u32 in H by lia. ret_in H. cbn in E1, E2, E3, E4, E5.
    apply Hh in E1 as []. apply Ha in E2 as (? & ? & ?). apply Hk in E3 as (? & ? & ? & ?).
    apply Hs in E4 as (? & ? & ?). apply Hb in E5 as [].
    split; [done|]. split; [|by constructor]. split_and!; try done. cover.
  - intros (Ho & (C1 & C2 & C3 & C4 & C5 & C6) & []).
    rewrite (proj2 (reject_extra_fields_spec json file) Ho), (proj2 (Hh json file)),
      (proj2 (Ha json file)), (proj2 (Hk json file)), (proj2 (Hs json file)),
      (proj2 (Hb json file)) by done.
    cbn [mbind sum_mbind]. uncover. unfold MAX_REPAIR_TURNS in *. fields_out.
    rewrite mod_small_u32 by lia. by destruct c.
Qed.

(** Every refusal names the file and blames the definition. *)
Definition refuses_as_bad {A} (file : string) (r : SpecError + A) : Prop :=
  ∀ e, r = inl e → ∃ field message action, e = bad file field message action.

Create HintDb spec_bad.
Lemma bad_inr {A} file (a : A) : refuses_as_bad file (inr a).
Proof. by intros e. Qed.
Lemma bad_mret {A} file (a : A) : refuses_as_bad file (mret a).
Proof. by intros e. Qed.
Lemma bad_inl {A} file field message action :
  refuses_as_bad (A := A) file (inl (bad file field message action)).
Proof. intros e [= <-]. eauto. Qed.
Lemma bad_bind {A B} file (r : SpecError + A) (f : A → SpecError + B) :
  refuses_as_bad file r → (∀ a, refuses_as_bad file (f a)) → refuses_as_bad file (r ≫= f).
Proof. intros Hr Hf e. destruct r as [e'|a]; cbn; [intros [= <-]; by apply Hr|apply Hf]. Qed.
Lemma bad_check file c field message action :
  refuses_as_bad file (check c (bad file field message action)).
Proof. intros e. destruct c; cbn; [done|intros [= <-]; eauto]. Qed.
Lemma bad_get v file parent key : refuses_as_bad file (get v file parent key).
Proof. intros e. unfold get. destruct (value_get v key); cbn; [done|intros [= <-]; eauto]. Qed.
Lemma bad_string v file field : refuses_as_bad file (as_string v file field).
Proof. intros e. destruct v; cbn; intros [= <-]; unfold shape; eauto. Qed.
Lemma bad_bool v file field : refuses_as_bad file (as_bool v file field).
Proof. intros e. destruct v; cbn; intros [= <-]; unfold shape; eauto. Qed.
Lemma bad_u64 v file field : refuses_as_bad file (as_u64 v file field).
Proof.
  intros e. destruct v as [| |[n|]| | |]; cbn; try destruct (0 <=? n); intros [= <-]; unfold shape;
    eauto.
Qed.
#[local] Hint Resolve bad_inr bad_mret bad_inl bad_bind bad_check bad_get bad_string bad_bool
  bad_u64 : spec_bad.

Lemma bad_ranged v file field min max action :
  refuses_as_bad file (ranged_u64 v file field min max action).
Proof. unfold ranged_u64. auto with spec_bad. Qed.
Lemma bad_strings v file field : refuses_as_bad file (as_string_list v file field).
Proof.
  unfold as_string_list. apply bad_bind.
  - destruct v; unfold shape; auto with spec_bad.
  - intros items. induction items; cbn; auto with spec_bad.
Qed.
#[local] Hint Resolve bad_ranged bad_strings : spec_bad.

(** Walks a chain of field reads. *)
Ltac all_bad := repeat first [solve [auto with spec_bad] | apply bad_bind; [|intros ?] | split_match].

Lemma validate_inl json file : refuses_as_bad file (validate_definition json file).
Proof.
  assert (reject : refuses_as_bad file (reject_extra_fields json file)).
  { unfold reject_extra_fields. apply bad_bind.
    { destruct json; unfold as_object, shape; auto with spec_bad. }
    intros m. induction m as [|[k v] m IH]; [auto with spec_bad|]. destruct (str_in _ _); auto with spec_bad. }
  assert (head : refuses_as_bad file (validate_head json file)) by (unfold validate_head; all_bad).
  assert (agents : refuses_as_bad file (validate_agents json file))
    by (unfold validate_agents, agent_runtime, agent_selection_name, agent_vendor_mode; all_bad).
  assert (checks : refuses_as_bad file (validate_checks json file)) by (unfold validate_checks; all_bad).
  assert (sandbox : refuses_as_bad file (validate_sandbox json file)) by (unfold validate_sandbox; all_bad).
  assert (backup : refuses_as_bad file (validate_backup json file)) by (unfold validate_backup; all_bad).
  unfold validate_definition. all_bad.
Qed.

Lemma definition_value_covers c : only_known (definition_value c) ∧ covers (definition_value c) (definition_value c).
Proof.
  split.
  - eexists. split; [reflexivity|]. repeat (apply Forall_cons; split; [by apply str_in_spec|]). done.
  - destruct (cd_backup_remote c) eqn:E; cbn; rewrite E; cbn;
      repeat match goal with
      | |- _ ∧ _ => split
      | |- ∃ _, _ = Some _ ∧ _ => eexists; split; [reflexivity|]
      end; done.
Qed.

(** C11: [validate_definition] accepts a JSON value as a definition [c] exactly when its
    top-level fields are known, it has every field of the template with the values of
    [c], and these respect the limits of the release; a refusal is always an
    [InvalidDefinition] of this file; and the template of every admissible [c] is
    itself accepted as [c]. *)
Theorem validate_definition_spec json file :
  (∀ c, validate_definition json file = inr c
        ↔ only_known json ∧ covers json (definition_value c) ∧ checked_ok c)
  ∧ (∀ e, validate_definition json file = inl e →
          ∃ field message action, e = bad file field message action)
  ∧ (∀ c, checked_ok c → validate_definition (definition_value c) file = inr c).
Proof.
  split; [intros c; apply validate_inr|]. split; [apply validate_inl|].
  intros c Hc. destruct (definition_value_covers c). by apply validate_inr.
Qed.
