(* ===== verification/PlanHash.v ===== *)
(** * A plan hash stands for its plan

    Two plans with one hash agree in everything but the hash field, unless SHA-256
    collides: the canonical value of a plan keeps all of its fields. *)

From stdpp Require Import base list gmap strings pretty sorting.
From Stdlib Require Import ZArith Lia Bool Strings.Byte.
From S2P Require Import Prelude OrderedMap Clipboard WorkflowVerify WorkflowStore WorkflowService Paths WorkflowSpec.

#[local] Open Scope Z_scope.

(** ** Induction on values *)

Section JsonInd.
Context (P : Json.t → Prop).
Hypothesis null : P Json.Null.
Hypothesis boolean : ∀ b, P (Json.Bool b).
Hypothesis number : ∀ n, P (Json.Number n).
Hypothesis text : ∀ s, P (Json.String s).
Hypothesis array : ∀ l, Forall P l → P (Json.Array l).
Hypothesis object : ∀ m, Forall (λ e, P e.2) m → P (Json.Object m).

Fixpoint json_ind (v : Json.t) : P v :=
  match v with
  | Json.Null => null
  | Json.Bool b => boolean b
  | Json.Number n => number n
  | Json.String s => text s
  | Json.Array l => array l ((fix go l : Forall P l :=
      match l with
      | [] => Forall_nil_2 P
      | v :: l => Forall_cons_2 P v l (json_ind v) (go l)
      end) l)
  | Json.Object m => object m ((fix go m : Forall (λ e, P e.2) m :=
      match m with
      | [] => Forall_nil_2 _
      | (k, v) as e :: m => Forall_cons_2 (λ e, P e.2) e m (json_ind v) (go m)
      end) m)
  end.
End JsonInd.

(** ** Sorting keys *)

Lemma sort_object m :
  sort_json_keys (Json.Object m)
  = Json.Object (merge_sort key_le (prod_map id sort_json_keys <$> m)).
Proof. cbn [sort_json_keys]. do 2 f_equal. by induction m as [|[k v] m ->]. Qed.

Lemma sort_array l : sort_json_keys (Json.Array l) = Json.Array (sort_json_keys <$> l).
Proof. done. Qed.

Lemma floatless_array l : floatless (Json.Array l) ↔ Forall floatless l.
Proof.
  cbn [floatless]. induction l as [|v l IH]; [by rewrite Forall_nil|].
  rewrite Forall_cons, <- IH. done.
Qed.
Lemma floatless_object m : floatless (Json.Object m) ↔ Forall (λ e, floatless e.2) m.
Proof.
  cbn [floatless]. induction m as [|[k v] m IH]; [by rewrite Forall_nil|].
  rewrite Forall_cons, <- IH. done.
Qed.

Lemma floatless_sort v : floatless v → floatless (sort_json_keys v).
Proof.
  induction v as [| | | |l IH|m IH] using json_ind; try done.
  - rewrite sort_array, !floatless_array, Forall_fmap. intros H.
    eapply Forall_impl; [apply Forall_and; split; [exact IH|exact H]|]. naive_solver.
  - rewrite sort_object, !floatless_object, merge_sort_Permutation, Forall_fmap. intros H.
    eapply Forall_impl; [apply Forall_and; split; [exact IH|exact H]|]. intros [k v]. naive_solver.
Qed.

(** Lists of entries with the same distinct keys in the same order. *)
Lemma perm_keys_eq {A} (l l' : list (string * A)) :
  l ≡ₚ l' → l.*1 = l'.*1 → NoDup l.*1 → l = l'.
Proof.
  intros Hp Hk Hn. apply list_eq_same_length with (length l); [|done|].
  { by rewrite Hp. }
  intros i [k v] [k' v'] _ Hi Hi'.
  assert (k = k') as <-.
  { apply (f_equal (.!! i)) in Hk. rewrite !list_lookup_fmap, Hi, Hi' in Hk. by simplify_eq. }
  f_equal. assert ((k, v') ∈ l) as Hin by (rewrite Hp; by eapply list_elem_of_lookup_2).
  apply list_elem_of_lookup in Hin as [j Hj].
  assert (i = j) as <-.
  { eapply NoDup_lookup; [exact Hn|..]; rewrite list_lookup_fmap; [by rewrite Hi|by rewrite Hj]. }
  congruence.
Qed.

Lemma sort_object_inj m m' :
  m.*1 = m'.*1 → NoDup m.*1 → sort_json_keys (Json.Object m) = sort_json_keys (Json.Object m') →
  Forall2 (λ e e', sort_json_keys e.2 = sort_json_keys e'.2) m m'.
Proof.
  intros Hk Hn. rewrite !sort_object. intros [= E].
  assert (Hp : prod_map id sort_json_keys <$> m ≡ₚ prod_map id sort_json_keys <$> m').
  { rewrite <- (merge_sort_Permutation key_le (_ <$> m)), E. apply merge_sort_Permutation. }
  assert (Hf : ∀ l : list (string * Json.t), (prod_map id sort_json_keys <$> l).*1 = l.*1).
  { intros l. rewrite <- list_fmap_compose. by apply list_fmap_ext. }
  apply perm_keys_eq in Hp; [|by rewrite !Hf|by rewrite Hf].
  clear -Hp Hk. revert m' Hk Hp. induction m as [|[k v] m IH]; intros [|[k' v'] m'] Hk Hp; try done.
  cbn in *. simplify_eq. constructor; [done|by apply IH].
Qed.

(** ** The values of records keep their fields *)

(** [H]: two objects with the same keys agree after sorting; the equations of their
    fields. *)
Ltac open_object H :=
  apply sort_object_inj in H; [|reflexivity|apply (bool_decide_unpack _); vm_compute; exact I];
  repeat match type of H with
  | Forall2 _ (_ :: _) _ => apply Forall2_cons in H; let E := fresh "E" in destruct H as [E H]; cbn [snd] in E
  end; clear H.

Lemma number_value_inj a b : sort_json_keys (number_value a) = sort_json_keys (number_value b) → a = b.
Proof. by intros [= ->]. Qed.
Lemma string_value_inj a b : sort_json_keys (Json.String a) = sort_json_keys (Json.String b) → a = b.
Proof. by intros [= ->]. Qed.
Lemma option_value_inj a b : sort_json_keys (option_value a) = sort_json_keys (option_value b) → a = b.
Proof. by destruct a, b; intros [=]; subst. Qed.

Lemma array_value_inj {A} (f : A → Json.t) l l' :
  (∀ a b, sort_json_keys (f a) = sort_json_keys (f b) → a = b) →
  sort_json_keys (Json.Array (f <$> l)) = sort_json_keys (Json.Array (f <$> l')) → l = l'.
Proof.
  intros Hf. rewrite !sort_array, <- !list_fmap_compose. intros [= E].
  revert l' E. induction l as [|a l IH]; intros [|b l'] E; try done.
  injection E as Ea El. f_equal; [by apply Hf|by apply IH].
Qed.
Lemma strings_value_inj a b : sort_json_keys (strings_value a) = sort_json_keys (strings_value b) → a = b.
Proof. apply array_value_inj, string_value_inj. Qed.

Create HintDb plan_value.
#[local] Hint Resolve number_value_inj string_value_inj option_value_inj strings_value_inj : plan_value.
(** An equation between records, field by field. *)
Ltac record_inj :=
  intros H; open_object H; f_equal; eauto with plan_value.

Lemma selection_value_inj a b :
  sort_json_keys (selection_value a) = sort_json_keys (selection_value b) → a = b.
Proof. destruct a, b. record_inj. Qed.
Lemma input_file_value_inj a b :
  sort_json_keys (input_file_value a) = sort_json_keys (input_file_value b) → a = b.
Proof. destruct a, b. record_inj. Qed.
Lemma repository_value_inj a b :
  sort_json_keys (repository_value a) = sort_json_keys (repository_value b) → a = b.
Proof. destruct a, b. record_inj. Qed.
Lemma limits_value_inj a b :
  sort_json_keys (limits_value a) = sort_json_keys (limits_value b) → a = b.
Proof. destruct a, b. record_inj. Qed.
Lemma bundle_file_value_inj a b :
  sort_json_keys (bundle_file_value a) = sort_json_keys (bundle_file_value b) → a = b.
Proof. destruct a, b. record_inj. Qed.
Lemma backup_value_inj a b :
  sort_json_keys (backup_value a) = sort_json_keys (backup_value b) → a = b.
Proof. destruct a, b. record_inj. Qed.
Lemma node_value_inj a b :
  sort_json_keys (node_value a) = sort_json_keys (node_value b) → a = b.
Proof. destruct a, b. record_inj. Qed.
Lemma facts_value_inj a b :
  sort_json_keys (facts_value a) = sort_json_keys (facts_value b) → a = b.
Proof. destruct a, b. record_inj. Qed.
Lemma verification_value_inj a b :
  sort_json_keys (verification_value a) = sort_json_keys (verification_value b) → a = b.
Proof.
  destruct a, b. intros H. open_object H.
  f_equal; eauto using array_value_inj, bundle_file_value_inj with plan_value.
Qed.

Lemma digests_value_inj a b :
  sort_json_keys (digests_value a) = sort_json_keys (digests_value b) → a = b.
Proof.
  unfold digests_value. rewrite !sort_object, <- !list_fmap_compose. intros [= E].
  assert (Hp : prod_map id Json.String <$> map_to_list a ≡ₚ prod_map id Json.String <$> map_to_list b).
  { rewrite <- (btree_iter_perm a), <- (btree_iter_perm b).
    assert (Hx : ∀ l : list (string * string),
      prod_map id sort_json_keys ∘ prod_map id Json.String <$> l = prod_map id Json.String <$> l).
    { intros l. apply list_fmap_ext. by intros i []. }
    rewrite !Hx in E.
    rewrite <- (merge_sort_Permutation key_le (_ <$> btree_iter a)), E.
    apply merge_sort_Permutation. }
  assert (Hinj : Inj (=) (=) (prod_map (@id string) Json.String)).
  { intros [] [] [=]. by subst. }
  apply map_eq. intros k. apply option_eq. intros d. rewrite <- !elem_of_map_to_list.
  rewrite <- (list_elem_of_fmap_inj (prod_map id Json.String) (map_to_list a)),
    <- (list_elem_of_fmap_inj (prod_map id Json.String) (map_to_list b)). by rewrite Hp.
Qed.

Lemma plan_value_inj p q :
  canonical_plan_value p = canonical_plan_value q → set_plan_hash "" p = set_plan_hash "" q.
Proof.
  unfold canonical_plan_value. destruct p, q.
  change (remove_key "plan_hash" ?l) with (take 14 l).
  cbv [plan_value take WorkflowSpec.ep_schema_version WorkflowSpec.ep_template WorkflowSpec.ep_nodes
       WorkflowSpec.ep_implementer WorkflowSpec.ep_reviewer WorkflowSpec.ep_task
       WorkflowSpec.ep_references WorkflowSpec.ep_repository WorkflowSpec.ep_resources
       WorkflowSpec.ep_verification WorkflowSpec.ep_backup WorkflowSpec.ep_max_repair_turns
       WorkflowSpec.ep_input_digests WorkflowSpec.ep_capability_facts].
  intros H. open_object H.
  apply number_value_inj in E, E10. apply string_value_inj in E0.
  apply (array_value_inj node_value _ _ node_value_inj) in E1. apply selection_value_inj in E2, E3.
  apply input_file_value_inj in E4.
  apply (array_value_inj input_file_value _ _ input_file_value_inj) in E5.
  apply repository_value_inj in E6. apply limits_value_inj in E7. apply verification_value_inj in E8.
  apply backup_value_inj in E9. apply digests_value_inj in E11. apply facts_value_inj in E12.
  by subst.
Qed.

(** ** No floats in a plan *)

Lemma floatless_strings l : floatless (strings_value l).
Proof. apply floatless_array, Forall_fmap, Forall_forall. done. Qed.
Lemma floatless_list {A} (f : A → Json.t) l : (∀ a, floatless (f a)) → floatless (Json.Array (f <$> l)).
Proof. intros Hf. apply floatless_array, Forall_fmap, Forall_forall. intros a _. apply Hf. Qed.
Lemma floatless_digests m : floatless (digests_value m).
Proof. apply floatless_object, Forall_fmap, Forall_forall. done. Qed.
Lemma floatless_option o : floatless (option_value o).
Proof. by destruct o. Qed.

Ltac floatless_fields :=
  apply floatless_object;
  repeat (apply Forall_cons; split;
          [cbn [snd]; first [exact I | apply floatless_strings | apply floatless_digests
                            | apply floatless_option | idtac]|]); try apply Forall_nil_2.

Lemma floatless_selection s : floatless (selection_value s).
Proof. unfold selection_value. floatless_fields. Qed.
Lemma floatless_input f : floatless (input_file_value f).
Proof. unfold input_file_value. floatless_fields. Qed.
Lemma floatless_verification v : floatless (verification_value v).
Proof. unfold verification_value. floatless_fields. apply floatless_list. by intros []. Qed.

Lemma floatless_plan p : floatless (canonical_plan_value p).
Proof.
  unfold canonical_plan_value. apply floatless_sort.
  change (remove_key "plan_hash" ?l) with (take 14 l). cbn [take plan_value]. floatless_fields.
  - apply floatless_list. by intros [].
  - apply floatless_selection.
  - apply floatless_selection.
  - apply floatless_input.
  - apply floatless_list, floatless_input.
  - by destruct (ep_repository p).
  - by destruct (ep_resources p).
  - apply floatless_verification.
  - unfold backup_value. floatless_fields.
  - unfold facts_value. floatless_fields.
Qed.

(** ** The hash *)

Lemma of_bytes_inj a b : of_bytes a = of_bytes b → a = b.
Proof.
  intros E%(f_equal as_bytes). unfold as_bytes, of_bytes in E.
  by rewrite !String.list_byte_of_string_of_list_byte in E.
Qed.

Lemma hex_digit_Z n : 0 ≤ n < 16 → Z_of_byte (hex_digit n) = if n <? 10 then 48 + n else 87 + n.
Proof.
  intros Hn. unfold hex_digit. rewrite Z_of_byte_of_Z. destruct (Z.ltb_spec n 10);
    apply Z.mod_small; lia.
Qed.
Lemma hex_digit_inj a b : 0 ≤ a < 16 → 0 ≤ b < 16 → hex_digit a = hex_digit b → a = b.
Proof.
  intros Ha Hb E%(f_equal Z_of_byte). rewrite !hex_digit_Z in E by done.
  destruct (Z.ltb_spec a 10), (Z.ltb_spec b 10); lia.
Qed.

Lemma hex_encode_inj a b : hex_encode a = hex_encode b → a = b.
Proof.
  unfold hex_encode. intros E%of_bytes_inj. revert b E.
  induction a as [|x a IH]; intros [|y b] E; try discriminate E; [done|].
  cbn in E. injection E as E1 E2 E. f_equal; [|by apply IH].
  assert (Hr : ∀ c, 0 ≤ Z_of_byte c < 256)
    by (intros c; rewrite <- (byte_of_Z_of_byte c), Z_of_byte_of_Z; by apply Z.mod_pos_bound).
  pose proof (Hr x). pose proof (Hr y).
  pose proof (Z.mod_pos_bound (Z_of_byte x) 16). pose proof (Z.mod_pos_bound (Z_of_byte y) 16).
  assert (0 ≤ Z_of_byte x / 16 < 16) by (split; [apply Z.div_pos|apply Z.div_lt_upper_bound]; lia).
  assert (0 ≤ Z_of_byte y / 16 < 16) by (split; [apply Z.div_pos|apply Z.div_lt_upper_bound]; lia).
  apply hex_digit_inj in E1, E2; try lia.
  rewrite <- (byte_of_Z_of_byte x), <- (byte_of_Z_of_byte y). f_equal.
  rewrite (Z.div_mod (Z_of_byte x) 16), (Z.div_mod (Z_of_byte y) 16) by done. congruence.
Qed.

Section Hash.
Context `{Sha256, !Sha256Law, ValueText, !ValueTextLaws}.

(** These two texts are different and have one digest. *)
Definition clash (x y : bytes) : Prop := x ≠ y ∧ sha256 x = sha256 y.
(** These two plans have different canonical texts, which have one digest. *)
Definition plans_clash (p q : ExecutionPlan) : Prop :=
  ∃ x y, value_to_vec (canonical_plan_value p) = inr x ∧ value_to_vec (canonical_plan_value q) = inr y
         ∧ clash (PLAN_HASH_PREFIX ++ x) (PLAN_HASH_PREFIX ++ y).

Lemma sha256_hex_inj x y : sha256_hex x = sha256_hex y → x = y ∨ clash x y.
Proof. intros E%hex_encode_inj. destruct (decide (x = y)); [by left|by right]. Qed.

Lemma spec_plan_hash_eq p :
  ∃ bs, value_to_vec (canonical_plan_value p) = inr bs
        ∧ spec_plan_hash p = inr (sha256_hex (PLAN_HASH_PREFIX ++ bs)).
Proof.
  destruct (value_to_vec_total (canonical_plan_value p)) as [bs E]. exists bs. split; [done|].
  unfold spec_plan_hash, canonical_plan_bytes. rewrite E. cbn [lift_err mbind sum_mbind].
  pose proof (finalize_chunks [PLAN_HASH_PREFIX; bs]) as F. cbn [foldl concat] in F.
  rewrite app_nil_r in F. by rewrite F.
Qed.

Lemma spec_plan_hash_inj p q h :
  spec_plan_hash p = inr h → spec_plan_hash q = inr h →
  set_plan_hash "" p = set_plan_hash "" q ∨ plans_clash p q.
Proof.
  destruct (spec_plan_hash_eq p) as (x & Hx & ->), (spec_plan_hash_eq q) as (y & Hy & ->).
  intros Ep Eq. apply (inj inr) in Ep, Eq. rewrite <- Ep in Eq.
  symmetry in Eq. apply sha256_hex_inj in Eq as [E|E]; [left|right; by exists x, y].
  apply (app_inv_head PLAN_HASH_PREFIX) in E. subst y. apply plan_value_inj.
  eauto using value_to_vec_inj, floatless_plan.
Qed.

(** The hash ignores the hash field. *)
Lemma spec_plan_hash_set h p : spec_plan_hash (set_plan_hash h p) = spec_plan_hash p.
Proof. by destruct p. Qed.
End Hash.
