(* ===== verification/PlanProofs.v ===== *)
(** * Compiled plans

    The inputs a plan freezes, what it is allowed to ask for, and that its hash
    stands for its contents. *)

From stdpp Require Import base list gmap strings pretty sorting.
From Stdlib Require Import ZArith Lia Bool Strings.Byte.
From S2P Require Import Prelude OrderedMap Clipboard WorkflowVerify WorkflowStore WorkflowService Paths WorkflowSpec SpecProofs PlanHash.

#[local] Open Scope Z_scope.

(** ** Digest tables *)

Section Table.
Context {A : Type} (key digest : A → string).
(** Entries of one key agree. *)
Definition consistent (l : list A) : Prop :=
  ∀ a b, a ∈ l → b ∈ l → key a = key b → digest a = digest b.

Lemma table_lookup l (m : gmap string string) k d :
  consistent l →
  foldl (λ m a, <[key a := digest a]> m) m l !! k = Some d
  ↔ (∃ a, a ∈ l ∧ key a = k ∧ digest a = d) ∨ ((∀ a, a ∈ l → key a ≠ k) ∧ m !! k = Some d).
Proof.
  revert m. induction l as [|a l IH]; intros m Hc; cbn [foldl].
  { set_solver. }
  rewrite IH by (intros b c Hb Hd; apply Hc; set_solver).
  destruct (decide (key a = k)) as [<-|Hk].
  - rewrite lookup_insert_eq. split.
    + intros [(b & Hb & E & <-)|(Hb & [= <-])]; left; [exists b|exists a]; set_solver.
    + intros [(b & Hb & E & <-)|[Hb _]]; [|exfalso; apply (Hb a); set_solver].
      destruct (decide (key a ∈ key <$> l)) as [Hin|Hn].
      * apply list_elem_of_fmap in Hin as (c & Ec & Hin). left. exists c.
        split; [done|]. split; [done|]. apply Hc; [set_solver|done|congruence].
      * right. split; [intros c Hin Ec; apply Hn, list_elem_of_fmap; eauto|]. f_equal.
        apply Hc; [set_solver|done|congruence].
  - rewrite lookup_insert_ne by done. split.
    + intros [(b & ? & ? & ?)|(Hb & E)]; [left; exists b|right]; set_solver.
    + intros [(b & Hb & E & <-)|(Hb & E)]; [|right; set_solver].
      left. exists b. set_solver.
Qed.
End Table.

(** ** Frozen inputs *)

Section Frozen.
Context `{Sha256} (fs : PlanFiles).

Definition frozen_from (dir : string) (f : FrozenInput) : Prop :=
  fs_read fs (path_join dir (fi_logical_path f)) = Some (fi_bytes f)
  ∧ fi_digest f = sha256_hex (fi_bytes f).

Lemma freeze_file_spec dir file logical f :
  freeze_file fs dir file logical = inr f → frozen_from dir f ∧ fi_logical_path f = logical.
Proof.
  unfold freeze_file, frozen_from. intros Hf. apply sum_bind_inr in Hf as (bs & Hb & [= <-]).
  destruct (fs_read fs _) eqn:E; [|discriminate Hb]. cbn in Hb. simplify_eq. done.
Qed.

(** An absolute path is read as it is, whatever the directory. *)
Lemma freeze_absolute dir dir' file logical :
  has_root logical = true → freeze_file fs dir file logical = freeze_file fs dir' file logical.
Proof. intros E. unfold freeze_file, path_join. by rewrite E. Qed.

Lemma collect_results_spec {E A B} (f : A → E + B) l bs :
  collect_results f l = inr bs ↔ Forall2 (λ a b, f a = inr b) l bs.
Proof.
  revert bs. induction l as [|a l IH]; intros bs; cbn.
  - split; [intros [= <-]; constructor|by intros ->%Forall2_nil_inv_l].
  - rewrite sum_bind_inr. split.
    + intros (b & Hb & H'). apply sum_bind_inr in H' as (bs' & Hbs & [= <-]).
      constructor; [done|by apply IH].
    + intros (b & bs' & Hb & Hbs & ->)%Forall2_cons_inv_l. exists b. split; [done|].
      apply IH in Hbs. by rewrite Hbs.
Qed.

Definition total_bytes (l : list FrozenInput) : Z := blen (concat (fi_bytes <$> l)).

Lemma freeze_bundle_spec dir file names size acc files :
  freeze_bundle fs dir file names size acc = inr files →
  ∃ new, files = acc ++ new ∧ fi_logical_path <$> new = names ∧ Forall (frozen_from dir) new
         ∧ (size ≤ MAX_BUNDLE_BYTES → size + total_bytes new ≤ MAX_BUNDLE_BYTES).
Proof.
  revert size acc. induction names as [|name names IH]; intros size acc Hf; cbn in Hf.
  { simplify_eq. exists []. rewrite app_nil_r. split_and!; [done..|apply Forall_nil; done|unfold total_bytes, blen; cbn; lia]. }
  apply sum_bind_inr in Hf as (bs & Hb & Hf). destruct (fs_read fs _) eqn:E; [|discriminate Hb].
  cbn in Hb. simplify_eq. apply check_bind in Hf as [Hs Hf].
  apply negb_true_iff, Z.ltb_ge in Hs. apply IH in Hf as (new & -> & <- & Hn & Ht).
  exists (mk_frozen name bs (sha256_hex bs) :: new). rewrite <- app_assoc.
  split_and!; [done..|by constructor|]. intros _. apply Ht in Hs.
  unfold total_bytes, blen in *. cbn [fmap list_fmap concat fi_bytes]. rewrite length_app. lia.
Qed.

(** What a successful resolution froze. *)
Record resolved_ok (r : FileResolution) (c : CheckedDefinition) (i : ResolvedInputs) : Prop := {
  res_task : frozen_from (default "." (path_parent (fr_workflow_file r))) (rs_task i)
             ∧ fi_logical_path (rs_task i) = cd_task c;
  res_references : Forall (frozen_from (default "." (path_parent (fr_workflow_file r))))
                     (rs_references i)
                   ∧ fi_logical_path <$> rs_references i = cd_references c;
  res_bundle : ∃ entries, fs_read_dir fs (fr_check_bundle_dir r) = Some entries
                 ∧ fi_logical_path <$> rs_test_bundle i = bundle_names entries
                 ∧ Forall (frozen_from (fr_check_bundle_dir r)) (rs_test_bundle i);
  res_size : total_bytes (rs_test_bundle i) ≤ MAX_BUNDLE_BYTES;
  res_nonempty : rs_test_bundle i ≠ [];
  res_manifest : rs_test_bundle_digest i
    = bundle_manifest_digest ((λ f, (fi_logical_path f, fi_digest f)) <$> rs_test_bundle i);
  res_given : rs_test_bundle_name i = cd_checks_bundle c
    ∧ rs_check_image_digest i = fr_check_image_digest r ∧ rs_repository i = fr_repository r
    ∧ rs_module_digests i = fr_module_digests r ∧ rs_selections i = fr_selections r;
}.

Lemma resolve_workflow_files_spec r c i :
  resolve_workflow_files fs r c = inr i → resolved_ok r c i.
Proof.
  unfold resolve_workflow_files. intros Hr.
  apply sum_bind_inr in Hr as (task & Ht & Hr). apply freeze_file_spec in Ht.
  apply sum_bind_inr in Hr as (refs & Hrefs & Hr). apply collect_results_spec in Hrefs.
  apply sum_bind_inr in Hr as (entries & He & Hr).
  destruct (fs_read_dir fs _) eqn:E; [|discriminate He]. cbn in He. simplify_eq.
  apply sum_bind_inr in Hr as (files & Hf & Hr).
  apply freeze_bundle_spec in Hf as (new & -> & Hn & Hall & Hsize).
  apply check_bind in Hr as [Hne Hr]. ret_in Hr. cbn [app] in *. constructor; cbn; try done.
  - clear -Hrefs. induction Hrefs as [|n f ns fs' Hf _ [IH1 IH2]]; [by repeat constructor|].
    apply freeze_file_spec in Hf as [? <-]. cbn. split; [by constructor|by rewrite IH2].
  - eauto.
  - apply Hsize. unfold MAX_BUNDLE_BYTES. lia.
  - by intros ->.
Qed.

Lemma frozen_consistent dir pre l :
  Forall (frozen_from dir) l → consistent (λ f, pre +:+ fi_logical_path f) fi_digest l.
Proof.
  intros Hl a b Ha Hb E. apply (inj (String.append pre)) in E.
  rewrite Forall_forall in Hl. destruct (Hl a Ha) as [Ra ->], (Hl b Hb) as [Rb ->]. congruence.
Qed.

(** The entries of [input_digests]. *)
Inductive digest_of (i : ResolvedInputs) : string → string → Prop :=
| digest_task : digest_of i ("task/" +:+ fi_logical_path (rs_task i)) (fi_digest (rs_task i))
| digest_reference f : f ∈ rs_references i →
    digest_of i ("references/" +:+ fi_logical_path f) (fi_digest f)
| digest_checks : digest_of i ("checks/" +:+ rs_test_bundle_name i) (rs_test_bundle_digest i)
| digest_manifest : digest_of i "repository/manifest" (ri_manifest_digest (rs_repository i))
| digest_module name d : rs_module_digests i !! name = Some d → digest_of i ("pkl/" +:+ name) d.

Lemma plan_input_digests_spec i k d :
  consistent (λ f, "references/" +:+ fi_logical_path f) fi_digest (rs_references i) →
  plan_input_digests i !! k = Some d ↔ digest_of i k d.
Proof.
  intros Hc. unfold plan_input_digests.
  pose proof (table_lookup (λ a : string * string, "pkl/" +:+ a.1) snd) as Tm.
  pose proof (table_lookup (λ f, "references/" +:+ fi_logical_path f) fi_digest) as Tr.
  cbv beta in Tm, Tr.
  unfold insert_module. rewrite Tm. 2:{
    intros [n1 d1] [n2 d2] H1 H2 E. apply (inj (String.append "pkl/")) in E. cbn in E. subst.
    apply elem_of_btree_iter in H1, H2. cbn. congruence. }
  split.
  - intros [([n d'] & Hin & <- & <-)|[Hn Hk]].
    { apply elem_of_btree_iter in Hin. by constructor. }
    apply lookup_insert_Some in Hk as [[<- <-]|[N1 Hk]]; [constructor|].
    apply lookup_insert_Some in Hk as [[<- <-]|[N2 Hk]]; [constructor|].
    unfold insert_reference in Hk. apply Tr in Hk; [|done].
    destruct Hk as [(f & Hf & <- & <-)|[_ Hk]]; [by constructor|].
    apply lookup_insert_Some in Hk as [[<- <-]|[_ Hk]]; [constructor|].
    by rewrite lookup_empty in Hk.
  - intros Hd. unfold insert_reference.
    assert (Hpkl : ∀ key, (∀ n, key ≠ "pkl/" +:+ n) → ∀ a : string * string,
              a ∈ btree_iter (rs_module_digests i) → "pkl/" +:+ a.1 ≠ key) by naive_solver.
    destruct Hd as [|f Hf| | |n d Hn].
    + right. split; [apply Hpkl; done|]. rewrite !lookup_insert_ne by done. apply Tr; [done|].
      right. split; [done|]. apply lookup_insert_eq.
    + right. split; [apply Hpkl; done|]. rewrite !lookup_insert_ne by done. apply Tr; [done|].
      left. eauto.
    + right. split; [apply Hpkl; done|]. rewrite lookup_insert_ne by done. apply lookup_insert_eq.
    + right. split; [apply Hpkl; done|]. apply lookup_insert_eq.
    + left. exists (n, d). by rewrite elem_of_btree_iter.
Qed.
End Frozen.

(** ** What a plan may ask for *)

Definition within_grant (r : ResourceLimits) (g : HostGrant) : Prop :=
  rl_cpu_millicores r ≤ hg_max_cpu_millicores g ∧ rl_memory_bytes r ≤ hg_max_memory_bytes g
  ∧ rl_max_pids r ≤ hg_max_pids g ∧ rl_max_run_seconds r ≤ hg_max_run_seconds g
  ∧ rl_disk_monitor_bytes r ≤ hg_max_disk_monitor_bytes g.

(** Backups are off, or go to a remote of the grant. *)
Definition backup_allowed (mode : string) (remote : option string) (g : HostGrant) : Prop :=
  match remote with
  | None => mode = "off"
  | Some remote => mode ≠ "off" ∧ remote ∈ hg_authorized_remote_ids g
  end.

Record authorized (c : CheckedDefinition) (i : ResolvedInputs) (g : HostGrant) : Prop := {
  au_implementer : as_runtime (sel_implementer (rs_selections i)) = cd_implementer_runtime c;
  au_reviewer : as_runtime (sel_reviewer (rs_selections i)) = cd_reviewer_runtime c;
  au_delegation : cd_implementer_vendor_subagents c ≠ "forbid"
                  ∧ cd_reviewer_vendor_subagents c ≠ "forbid";
  au_disk : cd_require_hard_disk_limit c = false;
  au_grant : within_grant (cd_resources c) g;
  au_repository : ri_repository_id (rs_repository i) ∈ hg_authorized_repository_ids g;
  au_backup : backup_allowed (cd_backup_mode c) (cd_backup_remote c) g;
}.

Lemma check_grant_maxima_spec c g file u :
  check_grant_maxima c g file = inr u ↔ within_grant (cd_resources c) g.
Proof.
  unfold check_grant_maxima, within_grant, grant_table. destruct u. cbn [find].
  repeat match goal with
  | |- context [?a <? ?b] => destruct (Z.ltb_spec a b); [split; [done|lia]|]
  end. split; [lia|done].
Qed.

Lemma backup_policy_spec c g file b :
  backup_policy c g file = inr b
  ↔ backup_allowed (cd_backup_mode c) (cd_backup_remote c) g
    ∧ b = mk_backup (cd_backup_mode c) (cd_backup_remote c) None None.
Proof.
  unfold backup_policy, backup_allowed.
  destruct (str_eqb (cd_backup_mode c) "off") eqn:E, (cd_backup_remote c) as [remote|];
    unfold str_eqb in E; rewrite ?bool_decide_eq_true, ?bool_decide_eq_false in E.
  - naive_solver.
  - rewrite E. naive_solver.
  - destruct (str_in remote _) eqn:Er.
    + apply str_in_spec in Er. naive_solver.
    + split; [done|]. intros ((_ & Hr%str_in_spec) & _). congruence.
  - naive_solver.
Qed.

(** The nodes of a plan: one to prepare, then the stages of each round. *)
Lemma elem_of_repair_nodes n turns :
  n ∈ repair_nodes turns
  ↔ n = mk_node "prepare@r0" "prepare" 0
    ∨ ∃ round stage, (round ≤ Z.to_nat turns)%nat
        ∧ stage ∈ ["implement"; "capture"; "test"; "review"; "decide"] ∧ n = stage_node round stage.
Proof.
  unfold repair_nodes. rewrite elem_of_cons, (list_elem_of_In (concat _)), in_concat.
  setoid_rewrite <- list_elem_of_In.
  apply or_iff_compat_l. split.
  - intros (ns & Hns & Hn). apply list_elem_of_fmap in Hns as (round & -> & Hr).
    apply list_elem_of_fmap in Hn as (stage & -> & Hs). apply elem_of_seq in Hr.
    exists round, stage. split; [lia|]. done.
  - intros (round & stage & Hr & Hs & ->). eexists. split; [|by apply list_elem_of_fmap_2].
    apply list_elem_of_fmap. exists round. split; [done|]. apply elem_of_seq. lia.
Qed.

Lemma repair_nodes_nodup turns : 0 ≤ turns ≤ 2 → NoDup (pn_id <$> repair_nodes turns).
Proof.
  intros Ht. assert (turns = 0 ∨ turns = 1 ∨ turns = 2) as [->|[->| ->]] by lia;
    apply (bool_decide_unpack _); vm_compute; exact I.
Qed.

Section Compile.
Context `{Sha256, !Sha256Law, ValueText, !ValueTextLaws}.

Definition unhashed (c : CheckedDefinition) (i : ResolvedInputs) (g : HostGrant) : ExecutionPlan :=
  plan_of c i g (mk_backup (cd_backup_mode c) (cd_backup_remote c) None None).

Lemma compile_plan_inr c i g file plan :
  compile_plan c i g file = inr plan
  ↔ authorized c i g
    ∧ ∃ h, spec_plan_hash (unhashed c i g) = inr h ∧ plan = set_plan_hash h (unhashed c i g).
Proof.
  unfold compile_plan, finalize_plan, refuse_forbid. split.
  - intros Hp. fields_in Hp.
    apply sum_bind_inr in Hp as ([] & Hm & Hp). apply check_grant_maxima_spec in Hm.
    fields_in Hp. apply sum_bind_inr in Hp as (b & Hb & Hp).
    apply backup_policy_spec in Hb as [Hb ->].
    apply sum_bind_inr in Hp as (h & Hh & Hp). ret_in Hp. tests.
    split; [|by exists h]. constructor; try done. by apply negb_true_iff.
  - intros ([] & h & Hh & ->). destruct au_delegation0.
    fields_out. apply check_bind. split; [by rewrite au_disk0|].
    apply sum_bind_inr. exists (). split; [by apply check_grant_maxima_spec|]. fields_out.
    apply sum_bind_inr. eexists. split; [by apply backup_policy_spec|].
    apply sum_bind_inr. eexists. split; [exact Hh|done].
Qed.

Lemma compiled_hash c i g file plan :
  compile_plan c i g file = inr plan → spec_plan_hash plan = inr (ep_plan_hash plan).
Proof. intros (_ & h & Hh & ->)%compile_plan_inr. by rewrite spec_plan_hash_set. Qed.

(** C9: for a checked definition with resolved inputs, a plan is compiled exactly when
    its agents, limits, repository and backup remote are authorized; the plan stays
    within the grant and the absolute limits, runs claude against codex, has one node
    per stage and round under distinct names, and records the digest of every input
    and of nothing else. *)
Theorem compile_plan_authorized fs r json file c i g :
  validate_definition json file = inr c → resolve_workflow_files fs r c = inr i →
  ((∃ plan, compile_plan c i g file = inr plan) ↔ authorized c i g)
  ∧ ∀ plan, compile_plan c i g file = inr plan →
      limits_ok (ep_resources plan) ∧ within_grant (ep_resources plan) g
      ∧ ri_repository_id (ep_repository plan) ∈ hg_authorized_repository_ids g
      ∧ backup_allowed (bp_mode (ep_backup plan)) (bp_remote_id (ep_backup plan)) g
      ∧ as_runtime (ep_implementer plan) = "claude" ∧ as_runtime (ep_reviewer plan) = "codex"
      ∧ NoDup (pn_id <$> ep_nodes plan)
      ∧ (∀ n, n ∈ ep_nodes plan ↔
           n = mk_node "prepare@r0" "prepare" 0
           ∨ ∃ round stage, (round ≤ Z.to_nat (ep_max_repair_turns plan))%nat
               ∧ stage ∈ ["implement"; "capture"; "test"; "review"; "decide"]
               ∧ n = stage_node round stage)
      ∧ (∀ k d, ep_input_digests plan !! k = Some d ↔ digest_of i k d)
      ∧ spec_plan_hash plan = inr (ep_plan_hash plan).
Proof.
  intros (_ & _ & Hc)%validate_inr Hi%resolve_workflow_files_spec. split.
  - split; [intros [plan (Ha & _)%compile_plan_inr]; done|]. intros Ha.
    destruct (spec_plan_hash_eq (unhashed c i g)) as (bs & _ & Hh).
    eexists. apply compile_plan_inr. split; [done|]. eauto.
  - intros plan Hp. pose proof (compiled_hash _ _ _ _ _ Hp) as Hh.
    apply compile_plan_inr in Hp as (Ha & h & _ & ->).
    destruct Hc as [_ [Er1 _] [Er2 _] _ _ _ _ Hl _ Ht], Ha as [Ha1 Ha2 _ _ Hg Hr Hb].
    split_and!; try done.
    + change (as_runtime (sel_implementer (rs_selections i)) = "claude"). congruence.
    + change (as_runtime (sel_reviewer (rs_selections i)) = "codex"). congruence.
    + by apply (repair_nodes_nodup (cd_max_repair_turns c)).
    + intros n. apply (elem_of_repair_nodes n (cd_max_repair_turns c)).
    + intros k d. eapply plan_input_digests_spec, frozen_consistent, (res_references _ _ _ _ Hi).
Qed.
End Compile.
