(* ===== verification/PlanStoreProofs.v ===== *)
(** * The plan store

    A stored plan is read back or refused, stored inputs keep their digests while no
    write is torn, and the script of a recorded test is the one that was frozen. *)

From stdpp Require Import base list gmap strings pretty sorting.
From Stdlib Require Import ZArith Lia Bool Strings.Byte.
From S2P Require Import Prelude OrderedMap AttachCodec Clipboard WorkflowVerify WorkflowStore WorkflowService Paths WorkflowSpec WorkflowPlan SpecProofs PlanHash PlanProofs.

#[local] Open Scope Z_scope.

(** ** Paths of the store *)

Lemma append_nonempty (a : string) c b : a +:+ String c b ≠ "".
Proof. by destruct a. Qed.
Lemma ends_with_slash_app a c b : ends_with_slash (a +:+ String c b) = ends_with_slash (String c b).
Proof.
  induction a as [|x a IH]; [done|].
  change (String x a +:+ String c b) with (String x (a +:+ String c b)).
  destruct (a +:+ String c b) eqn:E; [by apply append_nonempty in E|]. exact IH.
Qed.

(** The directory of a store, with the separator that follows its root. *)
Definition store_dir (root name : string) : string :=
  (if str_eqb root "" || ends_with_slash root then root else root +:+ "/") +:+ name.

Lemma join_in_dir root c dir name :
  has_root (String c dir) = false → ends_with_slash (String c dir) = false → has_root name = false →
  path_join (path_join root (String c dir)) name = store_dir root (String c dir) +:+ "/" +:+ name.
Proof.
  intros Hr He Hn. unfold path_join. rewrite Hr, Hn.
  assert (E : push_text root (String c dir) = store_dir root (String c dir)).
  { unfold push_text, store_dir. destruct (_ || _); [done|]. by rewrite str_app_assoc. }
  rewrite E. unfold push_text, store_dir at 1 2.
  rewrite ends_with_slash_app, He, orb_false_r.
  destruct (str_eqb _ "") eqn:Z; [|done]. apply str_eqb_spec in Z. by apply append_nonempty in Z.
Qed.

Lemma hex_rootless bs s : has_root s = false → has_root (hex_encode bs +:+ s) = false.
Proof.
  intros Hs. destruct bs as [|b bs]; [done|].
  apply not_true_is_false. intros Hr. apply starts_with_iff in Hr as [r E].
  apply (f_equal as_bytes) in E. rewrite !as_bytes_app in E. unfold hex_encode in E.
  unfold as_bytes, of_bytes in E. rewrite String.list_byte_of_string_of_list_byte in E.
  cbn in E. injection E as E _. apply (f_equal Z_of_byte) in E.
  assert (Hb : 0 ≤ Z_of_byte b < 256)
    by (rewrite <- (byte_of_Z_of_byte b), Z_of_byte_of_Z; by apply Z.mod_pos_bound).
  rewrite hex_digit_Z in E by (split; [apply Z.div_pos|apply Z.div_lt_upper_bound]; lia).
  change (Z_of_byte "/"%byte) with 47 in E. pose proof (Z.div_pos (Z_of_byte b) 16).
  destruct (Z.ltb_spec (Z_of_byte b / 16) 10); lia.
Qed.

Section Paths.
Context `{Sha256} (root : string).

Lemma input_path_eq x :
  input_path root (sha256_hex x) = store_dir root "inputs" +:+ "/" +:+ sha256_hex x.
Proof.
  apply join_in_dir; [done..|]. rewrite <- (str_app_nil (sha256_hex x)).
  by apply hex_rootless.
Qed.
Lemma plan_path_eq x :
  plan_path root (sha256_hex x) = store_dir root "plans" +:+ "/" +:+ sha256_hex x +:+ ".plan.json".
Proof. apply join_in_dir; [done..|]. by apply hex_rootless. Qed.

Lemma input_path_inj x y :
  input_path root (sha256_hex x) = input_path root (sha256_hex y) → sha256_hex x = sha256_hex y.
Proof. rewrite !input_path_eq. intros E. by apply (inj _), (inj (String.append "/")) in E. Qed.
Lemma plan_path_not_input x y : plan_path root (sha256_hex x) ≠ input_path root (sha256_hex y).
Proof.
  rewrite plan_path_eq, input_path_eq. unfold store_dir. rewrite !str_app_assoc.
  intros E. by apply (inj _) in E.
Qed.
End Paths.

(** ** The monad of the store *)

Lemma sm_bind_inr {A B} (m : SM A) (f : A → SM B) s b s' :
  (m ≫= f) s = (inr b, s') ↔ ∃ a s1, m s = (inr a, s1) ∧ f a s1 = (inr b, s').
Proof. unfold mbind, sm_bind. destruct (m s) as [[e|a] s1]; naive_solver. Qed.

Lemma sm_sum_inr {A} (r : SpecError + A) s a s' :
  sm_sum r s = (inr a, s') ↔ r = inr a ∧ s' = s.
Proof. unfold sm_sum. naive_solver. Qed.

Lemma sm_check_inr c e s u s' : sm_check c e s = (inr u, s') ↔ c = true ∧ s' = s.
Proof. unfold sm_check, sm_fail, mret, sm_ret. destruct c, u; naive_solver. Qed.

Lemma opt_err_inr {E A} (o : option A) (e : E) a : opt_err o e = inr a ↔ o = Some a.
Proof. destruct o; cbn; naive_solver. Qed.
Lemma lift_err_inr {E F A} (f : E → F) (r : E + A) a : lift_err f r = inr a ↔ r = inr a.
Proof. destruct r; cbn; naive_solver. Qed.

(** The steps of a run that succeeded. *)
Ltac sm_in H :=
  repeat first
    [ apply sm_bind_inr in H; let a := fresh "a" in let s := fresh "s" in let E := fresh "E" in
      destruct H as (a & s & E & H)
    | match goal with
      | E : sm_sum _ _ = (inr _, _) |- _ => apply sm_sum_inr in E; destruct E as [E ->]
      | E : sm_check _ _ _ = (inr _, _) |- _ => apply sm_check_inr in E; destruct E as [E ->]
      | E : opt_err _ _ = inr _ |- _ => apply opt_err_inr in E
      | E : lift_err _ _ = inr _ |- _ => apply lift_err_inr in E
      | E : read_stored _ _ = (inr _, _) |- _ => injection E as <- <-
      | E : is_file _ _ = (inr _, _) |- _ => injection E as <- <-
      end ].

Section Reading.
Context `{Sha256, ValueText, SerdeJson ExecutionPlan}.

Lemma set_own_hash p : set_plan_hash (ep_plan_hash p) p = p.
Proof. by destruct p. Qed.

Lemma read_plan_inr root h s q s' :
  read_plan root h s = (inr q, s')
  ↔ s' = s ∧ spec_plan_hash q = inr h ∧ ep_plan_hash q = h
    ∧ ∃ f, ps_files s !! plan_path root h = Some f ∧ from_slice (sf_bytes f) = Some q.
Proof.
  unfold read_plan. split.
  - intros R. sm_in R. apply negb_true_iff, orb_false_iff in E3 as [E3 E4].
    apply negb_false_iff, str_eqb_spec in E3 as ->, E4.
    rewrite <- E4, set_own_hash in R. injection R as <- <-. rewrite E4 in *.
    apply fmap_Some in E0 as (f & Hf & ->). eauto 10.
  - intros (-> & Hh & Hq & f & Hf & Hs). unfold mbind, sm_bind, read_stored, sm_sum.
    rewrite Hf. cbn [fmap option_fmap option_map opt_err]. rewrite Hs. cbn [opt_err].
    rewrite Hh. cbn [lift_err]. rewrite Hq, !(proj2 (str_eqb_spec h h)) by done. cbn.
    unfold mret, sm_ret. by rewrite <- Hq at 1; rewrite set_own_hash.
Qed.
End Reading.

(** ** Writing *)

Definition bytes_at (s : PlanStore) (path : string) : option bytes := sf_bytes <$> ps_files s !! path.
(** No write to come is torn. *)
Definition quiet (s : PlanStore) : Prop := Forall (λ a, ∀ n, a ≠ Torn n) (ps_answers s).
(** [s'] has the bytes of [s] at every path but [path]. *)
Definition same_but (path : string) (s s' : PlanStore) : Prop :=
  ∀ q, q ≠ path → bytes_at s' q = bytes_at s q.

Lemma next_answer_spec s :
  ∃ a s', next_answer s = (inr a, s') ∧ ps_files s' = ps_files s
          ∧ (quiet s → quiet s' ∧ ∀ n, a ≠ Torn n).
Proof.
  unfold next_answer, quiet. destruct (ps_answers s) as [|a l] eqn:E.
  - exists Done, s. rewrite E. naive_solver.
  - exists a, (mk_plan_store (ps_files s) l). split_and!; [done..|]. by intros [? ?]%Forall_cons.
Qed.

Lemma write_file_spec path bs s :
  ∃ b s', write_file path bs s = (inr b, s') ∧ same_but path s s' ∧ (quiet s → quiet s')
          ∧ (b = true → bytes_at s' path = Some bs)
          ∧ (b = false → quiet s → bytes_at s' path = bytes_at s path).
Proof.
  unfold write_file. destruct (next_answer_spec s) as (a & s1 & En & Hf & Hq).
  assert (Hs : same_but path s s1 ∧ bytes_at s1 path = bytes_at s path)
    by (unfold same_but, bytes_at; rewrite Hf; done).
  destruct Hs as [Hs Hp]. unfold mbind, sm_bind, writable. cbv beta iota. rewrite En.
  assert (Hput : ∀ c r, same_but path s (mk_plan_store (<[path := mk_stored c r]> (ps_files s1)) (ps_answers s1))
                        ∧ bytes_at (mk_plan_store (<[path := mk_stored c r]> (ps_files s1)) (ps_answers s1)) path
                          = Some c).
  { intros c r. unfold same_but, bytes_at. cbn. rewrite Hf, lookup_insert_eq. split; [|done].
    intros q Hne. by rewrite lookup_insert_ne. }
  destruct (match ps_files s !! path with Some f => negb (sf_read_only f) | None => true end), a
    as [| |n]; do 2 eexists; (split; [reflexivity|]); try (split_and!; naive_solver).
Qed.

Lemma protect_spec path s :
  ∃ s', protect path s = (inr (), s') ∧ (∀ q, bytes_at s' q = bytes_at s q) ∧ (quiet s → quiet s').
Proof.
  unfold protect. destruct (next_answer_spec s) as (a & s1 & En & Hf & Hq).
  unfold mbind, sm_bind. rewrite En.
  assert (Hs : ∀ q, bytes_at s1 q = bytes_at s q) by (intros q; unfold bytes_at; by rewrite Hf).
  destruct a; [|exists s1; naive_solver..]. eexists. split; [reflexivity|].
  destruct (ps_files s1 !! path) as [f|] eqn:E; [|naive_solver]. split; [|naive_solver].
  intros q. rewrite <- Hs. unfold bytes_at. cbn. destruct (decide (q = path)) as [->|Hne].
  - by rewrite lookup_insert_eq, E.
  - by rewrite lookup_insert_ne.
Qed.

Lemma write_input_spec root digest bs s :
  let path := input_path root digest in
  ∃ r s', write_input root digest bs s = (r, s') ∧ same_but path s s' ∧ (quiet s → quiet s')
    ∧ (is_Some (bytes_at s path) → s' = s ∧ r = inr ())
    ∧ (r = inr () → bytes_at s path = None → bytes_at s' path = Some bs)
    ∧ (r ≠ inr () → quiet s → bytes_at s' path = bytes_at s path).
Proof.
  intros path. unfold write_input. fold path. unfold mbind at 1, sm_bind at 1, is_file.
  destruct (bool_decide (is_Some (ps_files s !! path))) eqn:D.
  - apply bool_decide_eq_true in D. exists (inr ()), s. unfold same_but. split_and!; try naive_solver.
    unfold bytes_at. intros _ Hn%fmap_None. rewrite Hn in D. by destruct D.
  - apply bool_decide_eq_false in D.
    assert (bytes_at s path = None) as Hn.
    { unfold bytes_at. apply fmap_None, eq_None_not_Some, D. }
    destruct (write_file_spec path bs s) as (b & s1 & Ew & Hsame & Hq & Ht & Hf).
    unfold mbind, sm_bind. rewrite Ew. destruct b; cbn [sm_check].
    + unfold mret, sm_ret. destruct (protect_spec path s1) as (s2 & Ep & Hb & Hq2). rewrite Ep.
      exists (inr ()), s2. split; [done|]. rewrite Hn. unfold same_but in *.
      split_and!; [|by auto|by intros [? ?]| |done].
      * intros q Hne. rewrite Hb. by apply Hsame.
      * intros _ _. rewrite Hb. by apply Ht.
    + unfold sm_fail. eexists _, s1. split; [reflexivity|]. rewrite Hn in *.
      split_and!; [done..|by intros [? ?]|done|]. intros _. by apply Hf.
Qed.

(** ** Stored inputs have the digests they are stored under *)

Section Inputs.
Context `{Sha256} (root : string).

Definition coherent (s : PlanStore) : Prop :=
  ∀ x bs, bytes_at s (input_path root (sha256_hex x)) = Some bs → sha256_hex bs = sha256_hex x.
Definition sealed (f : FrozenInput) : Prop := fi_digest f = sha256_hex (fi_bytes f).
Definition has_input (s : PlanStore) (digest : string) : Prop :=
  is_Some (bytes_at s (input_path root digest)).

(** Nothing is lost or changed between [s] and [s'], and only inputs are added. *)
Record extends (s s' : PlanStore) : Prop := {
  ext_kept : ∀ q, is_Some (bytes_at s q) → bytes_at s' q = bytes_at s q;
  ext_plans : ∀ x, bytes_at s' (plan_path root (sha256_hex x)) = bytes_at s (plan_path root (sha256_hex x));
  ext_coherent : coherent s → coherent s';
  ext_quiet : quiet s → quiet s';
}.

Lemma extends_refl s : extends s s.
Proof. by constructor. Qed.
Lemma extends_trans s1 s2 s3 : extends s1 s2 → extends s2 s3 → extends s1 s3.
Proof.
  intros [K1 P1 C1 Q1] [K2 P2 C2 Q2]. constructor; [|congruence|auto..].
  intros q Hq. rewrite K2; [by apply K1|]. by rewrite K1.
Qed.
Lemma has_input_mono s s' d : extends s s' → has_input s d → has_input s' d.
Proof. intros E Hd. unfold has_input in *. by rewrite (ext_kept _ _ E). Qed.

Lemma write_input_extends f s r s' :
  sealed f → quiet s → write_input root (fi_digest f) (fi_bytes f) s = (r, s') →
  extends s s' ∧ (r = inr () → has_input s' (fi_digest f)).
Proof.
  unfold sealed, has_input. intros Hf Hq Hw.
  destruct (write_input_spec root (fi_digest f) (fi_bytes f) s)
    as (r0 & s0 & Ew & Hsame & Hquiet & Hold & Hnew & Hfail).
  rewrite Ew in Hw. injection Hw as -> ->. set (path := input_path root (fi_digest f)) in *.
  destruct (bytes_at s path) as [old|] eqn:B.
  { destruct Hold as [-> _]; [done|]. split; [apply extends_refl|]. intros _. by rewrite B. }
  assert (Hpath : bytes_at s' path = Some (fi_bytes f) ∨ bytes_at s' path = None).
  { destruct r as [e|[]]; [right; by apply Hfail|left; by apply Hnew]. }
  split.
  - constructor; [|intros x; apply Hsame; unfold path; rewrite Hf; apply plan_path_not_input
                   | |done].
    + intros q Hs. apply Hsame. intros ->. rewrite B in Hs. by destruct Hs.
    + intros Hc x bs Hx. destruct (decide (input_path root (sha256_hex x) = path)) as [E|E].
      * rewrite E in Hx. destruct Hpath as [Hp|Hp]; [|congruence].
        unfold path in E. rewrite Hf in E. apply input_path_inj in E as ->. congruence.
      * apply Hc. by rewrite <- (Hsame _ E).
  - intros ->. by rewrite Hnew.
Qed.

Lemma write_inputs_extends inputs s r s' :
  Forall sealed inputs → quiet s → write_inputs root inputs s = (r, s') →
  extends s s' ∧ (r = inr () → Forall (λ f, has_input s' (fi_digest f)) inputs).
Proof.
  intros Hs. revert s. induction Hs as [|f inputs Hf Hs IH]; intros s Hq Hw; cbn in Hw.
  { injection Hw as <- <-. split; [apply extends_refl|by intros _; constructor]. }
  unfold mbind, sm_bind in Hw.
  destruct (write_input root (fi_digest f) (fi_bytes f) s) as [r1 s1] eqn:E1.
  apply write_input_extends in E1 as [X1 R1]; [|done..].
  destruct r1 as [e|[]]; [injection Hw as <- <-; by split|].
  apply IH in Hw as [X2 R2]; [|by apply (ext_quiet _ _ X1)]. split; [by eapply extends_trans|].
  intros ->. constructor; [|by apply R2]. eapply has_input_mono; [done|]. by apply R1.
Qed.
End Inputs.

(** ** Stored plans are complete *)

Section Plans.
Context `{Sha256, !Sha256Law, ValueText, !ValueTextLaws, SerdeJson ExecutionPlan, !SerdeJsonLaw ExecutionPlan}.
Context (root : string).

(** The digests of the inputs a plan names. *)
Definition plan_inputs (p : ExecutionPlan) : list string :=
  if_content_digest (ep_task p) :: (if_content_digest <$> ep_references p)
  ++ (bf_digest <$> vp_test_bundle_files (ep_verification p)).

(** Every plan that can be read has its inputs, with the bytes of their digests. *)
Definition complete (s : PlanStore) : Prop :=
  ∀ h q s', read_plan root h s = (inr q, s') →
    ∀ d, d ∈ plan_inputs q → ∃ bs, bytes_at s (input_path root d) = Some bs ∧ sha256_hex bs = d.
Definition store_ok (s : PlanStore) : Prop := coherent root s ∧ complete s.

Lemma read_plan_bytes h s q s' :
  read_plan root h s = (inr q, s')
  ↔ s' = s ∧ spec_plan_hash q = inr h ∧ ep_plan_hash q = h
    ∧ ∃ bs, bytes_at s (plan_path root h) = Some bs ∧ from_slice bs = Some q.
Proof.
  rewrite read_plan_inr. unfold bytes_at. do 3 (apply and_iff_compat_l). split.
  - intros (f & -> & Hf). eauto.
  - intros (bs & (f & -> & ->)%fmap_Some & Hf). eauto.
Qed.

Lemma plan_hash_hex q h : spec_plan_hash q = inr h → ∃ x, h = sha256_hex x.
Proof. destruct (spec_plan_hash_eq q) as (bs & _ & ->). intros [= <-]. eauto. Qed.

Lemma store_ok_extends s s' : store_ok s → extends root s s' → store_ok s'.
Proof.
  intros [Hc Hp] E. split; [by apply (ext_coherent _ _ _ E)|].
  intros h q s2 Hr d Hd. apply read_plan_bytes in Hr as (-> & Hh & Hq & bs & Hb & Hf).
  destruct (plan_hash_hex _ _ Hh) as [x ->]. rewrite (ext_plans _ _ _ E) in Hb.
  destruct (Hp (sha256_hex x) q s) with d as (c & Hc' & Hd'); [|done|].
  { apply read_plan_bytes. eauto 10. }
  exists c. split; [|done]. rewrite (ext_kept _ _ _ E); [done|]. by rewrite Hc'.
Qed.

(** A plan added to a store that has its inputs. *)
Lemma store_ok_add s s' plan bs :
  let path := plan_path root (ep_plan_hash plan) in
  store_ok s → spec_plan_hash plan = inr (ep_plan_hash plan) → to_vec plan = Ok bs →
  same_but path s s' → bytes_at s' path = Some bs →
  Forall (λ d, ∃ x, d = sha256_hex x ∧ has_input root s d) (plan_inputs plan) →
  store_ok s'.
Proof.
  intros path [Hc Hp] Hh Hv Hs Hb Hi. destruct (plan_hash_hex _ _ Hh) as [y Hy].
  assert (Hin : ∀ x, bytes_at s' (input_path root (sha256_hex x)) = bytes_at s (input_path root (sha256_hex x))).
  { intros x. apply Hs. unfold path. rewrite Hy. intros E. symmetry in E.
    by apply plan_path_not_input in E. }
  split; [intros x c; rewrite Hin; apply Hc|].
  intros h q s2 Hr d Hd. apply read_plan_bytes in Hr as (-> & Hhq & Hq & c & Hc' & Hf).
  destruct (decide (plan_path root h = path)) as [E|E].
  - rewrite E, Hb in Hc'. injection Hc' as <-. apply from_slice_to_vec in Hv.
    rewrite Hv in Hf. injection Hf as <-. rewrite Forall_forall in Hi.
    destruct (Hi d Hd) as (x & -> & [z Hz]). exists z. rewrite Hin. split; [done|]. by apply Hc.
  - rewrite Hs in Hc' by done. destruct (Hp h q s) with d as (z & Hz & Hzd); [|done|].
    { apply read_plan_bytes. eauto 10. }
    exists z. split; [|done]. rewrite <- Hzd, Hin, Hzd. done.
Qed.

Definition keeps (s s' : PlanStore) : Prop := ∀ q, is_Some (bytes_at s q) → bytes_at s' q = bytes_at s q.

Lemma persist_spec plan inputs s r s' :
  Forall sealed inputs → plan_inputs plan = fi_digest <$> inputs →
  spec_plan_hash plan = inr (ep_plan_hash plan) → quiet s → store_ok s →
  bytes_at s (plan_path root (ep_plan_hash plan)) = None →
  persist root plan inputs s = (r, s') →
  store_ok s' ∧ keeps s s'
  ∧ ∀ h, r = inr h → h = ep_plan_hash plan ∧ read_plan root h s' = (inr plan, s').
Proof.
  intros Hseal Hdig Hh Hq Hok Hnone Hp. unfold persist, mbind, sm_bind in Hp.
  destruct (write_inputs root inputs s) as [r1 s1] eqn:E1.
  apply write_inputs_extends in E1 as [X R1]; [|done..].
  pose proof (store_ok_extends _ _ Hok X) as Hok1. pose proof (ext_quiet _ _ _ X Hq) as Hq1.
  assert (Hfail : ∀ e, (inl e, s1) = (r, s') → store_ok s' ∧ keeps s s'
            ∧ ∀ h, r = inr h → h = ep_plan_hash plan ∧ read_plan root h s' = (inr plan, s')).
  { intros e [= <- <-]. split_and!; [done|exact (ext_kept _ _ _ X)|done]. }
  destruct r1 as [e|[]]; [by eapply Hfail|]. unfold sm_sum in Hp. rewrite Hh in Hp.
  rewrite (proj2 (str_eqb_spec _ _)) in Hp by done. cbn [sm_check] in Hp. unfold mret, sm_ret in Hp.
  destruct (to_vec plan) as [bs| |] eqn:V; [|by eapply Hfail..].
  destruct (plan_hash_hex _ _ Hh) as [y Hy]. set (path := plan_path root (ep_plan_hash plan)) in *.
  assert (Hnone1 : bytes_at s1 path = None) by (unfold path in *; rewrite Hy, (ext_plans _ _ _ X), <- Hy; done).
  assert (Hkeep : ∀ s2, same_but path s1 s2 → keeps s s2).
  { intros s2 Hs q Hsome. rewrite Hs; [by apply (ext_kept _ _ _ X)|].
    intros ->. rewrite Hnone in Hsome. by destruct Hsome. }
  destruct (write_file_spec path bs s1) as (b & s2 & Ew & Hsame & Hq2 & Ht & Hf).
  rewrite Ew in Hp. destruct b; cbn [sm_check] in Hp; unfold mret, sm_ret, sm_fail in Hp.
  - destruct (protect_spec path s2) as (s3 & Epr & Hb3 & _). rewrite Epr in Hp.
    injection Hp as <- <-.
    assert (Hs3 : same_but path s1 s3) by (intros q Hne; rewrite Hb3; by apply Hsame).
    assert (Hat : bytes_at s3 path = Some bs) by (rewrite Hb3; by apply Ht).
    split_and!; [|by apply Hkeep|].
    + eapply store_ok_add; [exact Hok1|done..|]. rewrite Hdig. apply Forall_fmap, Forall_forall.
      intros f Hin. exists (fi_bytes f). rewrite Forall_forall in Hseal.
      split; [by apply Hseal|]. specialize (R1 eq_refl). rewrite Forall_forall in R1. by apply R1.
    + intros h [= <-]. split; [done|]. apply read_plan_bytes. split_and!; [done..|].
      exists bs. split; [done|]. by apply from_slice_to_vec.
  - injection Hp as <- <-. split_and!; [|by apply Hkeep|done].
    assert (Hall : ∀ q, bytes_at s2 q = bytes_at s1 q).
    { intros q. destruct (decide (q = path)) as [->|Hne]; [by apply Hf|by apply Hsame]. }
    eapply store_ok_extends; [exact Hok1|]. constructor; [auto|auto| |auto].
    intros Hc x c. rewrite Hall. apply Hc.
Qed.

Lemma same_plan p q h :
  spec_plan_hash p = inr h → spec_plan_hash q = inr h → ep_plan_hash p = ep_plan_hash q →
  p = q ∨ plans_clash p q.
Proof.
  intros Hp Hq E. destruct (spec_plan_hash_inj _ _ _ Hp Hq) as [Eq|Hc]; [left|by right].
  rewrite <- (set_own_hash p), <- (set_own_hash q), E.
  by apply (f_equal (set_plan_hash (ep_plan_hash q))) in Eq.
Qed.

Lemma read_plan_state h s : (read_plan root h s).2 = s.
Proof.
  unfold read_plan, mbind, sm_bind, read_stored, sm_sum. cbv beta iota.
  destruct (opt_err _ _); [done|]. destruct (opt_err _ _); [done|]. destruct (lift_err _ _); [done|].
  by destruct (negb _).
Qed.

(** The plan is stored under its hash, or the one stored there clashes with it. *)
Definition stored_or_clash (plan : ExecutionPlan) (h : string) (s : PlanStore) : Prop :=
  read_plan root h s = (inr plan, s) ∨ ∃ q, read_plan root h s = (inr q, s) ∧ plans_clash plan q.

Lemma store_plan_spec plan i s r s' :
  Forall sealed (frozen_inputs i) → plan_inputs plan = fi_digest <$> frozen_inputs i →
  spec_plan_hash plan = inr (ep_plan_hash plan) → quiet s → store_ok s →
  store_plan root plan i s = (r, s') →
  store_ok s' ∧ keeps s s'
  ∧ ∀ h, r = inr h → h = ep_plan_hash plan ∧ stored_or_clash plan h s'.
Proof.
  intros Hseal Hdig Hh Hq Hok Hst. unfold store_plan, mbind, sm_bind, is_file in Hst.
  cbv beta iota in Hst. destruct (bool_decide _) eqn:B.
  - pose proof (read_plan_state (ep_plan_hash plan) s) as Hs.
    destruct (read_plan root (ep_plan_hash plan) s) as [[e|q] s1] eqn:R; cbn in Hs; subst s1;
      injection Hst as <- <-; (split_and!; [done|by intros ?|]); [done|]. intros h [= <-].
    pose proof R as (_ & Hhq & Hq' & _)%read_plan_bytes. rewrite Hq'. split; [done|].
    destruct (same_plan plan q (ep_plan_hash plan)) as [->|Hc]; [done..|by left|right; by exists q].
  - apply persist_spec in Hst as (? & ? & Hr); [|done..|].
    + split_and!; [done..|]. intros h Hh'. destruct (Hr h Hh'). split; [done|by left].
    + unfold bytes_at. apply fmap_None, eq_None_not_Some. by apply bool_decide_eq_false in B.
Qed.

(** ** Planning *)

Lemma planned_inputs fs res c i g file plan :
  resolve_workflow_files fs res c = inr i → compile_plan c i g file = inr plan →
  Forall sealed (frozen_inputs i) ∧ plan_inputs plan = fi_digest <$> frozen_inputs i.
Proof.
  intros Hi%resolve_workflow_files_spec (_ & h & _ & ->)%compile_plan_inr. split.
  - unfold frozen_inputs. destruct Hi as [[[_ Ht] _] [Hr _] (en & _ & _ & Hb) _ _ _ _].
    assert (Hall : ∀ dir l, Forall (frozen_from fs dir) l → Forall sealed l)
      by (intros dir l Hl; eapply Forall_impl; [exact Hl|]; by intros f [_ ?]).
    constructor; [done|]. apply Forall_app. eauto.
  - unfold frozen_inputs, plan_inputs. cbn. rewrite fmap_app, <- !list_fmap_compose. done.
Qed.

Lemma open_store_extends s : extends root s (open_store root s).2.
Proof.
  assert (Hstep : ∀ s, extends root s (create_dir root s).2).
  { clear s. intros s. destruct (next_answer_spec s) as (a & s1 & En & Hf & Hq).
    unfold create_dir, mbind, sm_bind. rewrite En.
    assert (Hb : ∀ q, bytes_at s1 q = bytes_at s q) by (intros q; unfold bytes_at; by rewrite Hf).
    replace (_.2) with s1 by (by destruct a).
    constructor; [auto|auto| |naive_solver]. intros Hc x c. rewrite Hb. apply Hc. }
  unfold open_store, mbind, sm_bind. pose proof (Hstep s) as H'. destruct (create_dir root s) as [[e|[]] s1]; [done|].
  eapply extends_trans; [exact H'|]. apply Hstep.
Qed.

Lemma plan_inner_spec fs git loaded env candidates s r s' :
  quiet s → store_ok s → plan_inner fs git loaded env candidates root s = (r, s') →
  store_ok s' ∧ keeps s s'
  ∧ ∀ plan h, r = inr (plan, h) →
      h = ep_plan_hash plan ∧ stored_or_clash plan h s'.
Proof.
  intros Hq Hok Hp. unfold plan_inner, mbind, sm_bind, sm_sum in Hp.
  assert (Hfail : ∀ e, (inl e, s) = (r, s') → store_ok s' ∧ keeps s s'
     ∧ ∀ plan h, r = inr (plan, h) →
      h = ep_plan_hash plan ∧ stored_or_clash plan h s').
  { intros e [= <- <-]. split_and!; [done|by intros ?|done]. }
  destruct (resolve_live_selections _ _) as [e|sel]; [by eapply Hfail|].
  destruct (resolve_workspace_repository _ _ _ _ _) as [e|repo]; [by eapply Hfail|].
  destruct (resolve_workflow_files _ _ _) as [e|i] eqn:Ri; [by eapply Hfail|].
  destruct (compile_plan _ _ _ _) as [e|plan] eqn:Rp; [by eapply Hfail|].
  destruct (planned_inputs _ _ _ _ _ _ _ Ri Rp) as [Hseal Hdig].
  pose proof (compiled_hash _ _ _ _ _ Rp) as Hh. unfold sm_map_err in Hp.
  pose proof (open_store_extends s) as X. destruct (open_store root s) as [ro s1]. cbn [snd] in X.
  pose proof (store_ok_extends _ _ Hok X) as Hok1. pose proof (ext_quiet _ _ _ X Hq) as Hq1.
  destruct ro as [e|[]]; cbn [lift_err] in Hp.
  { injection Hp as <- <-. split_and!; [done|exact (ext_kept _ _ _ X)|done]. }
  destruct (store_plan root plan i s1) as [r2 s2] eqn:Es.
  apply store_plan_spec in Es as (Hok2 & Hk2 & Hr2); [|done..].
  assert (Hk : keeps s s2).
  { intros q Hsome. rewrite Hk2; [by apply (ext_kept _ _ _ X)|]. by rewrite (ext_kept _ _ _ X). }
  destruct r2 as [e|h2]; injection Hp as <- <-; (split_and!; [done..|]); [done|].
  intros plan' h [= <- <-]. by apply Hr2.
Qed.
End Plans.
