(* ===== verification/PlanBinding.v ===== *)
(** * From planning to the recorded test

    The theorems on the plan store, and the end-to-end one: the script of a recorded
    test is the file that was frozen when the workflow was planned. *)

From stdpp Require Import base list gmap strings pretty sorting.
From Stdlib Require Import ZArith Lia Bool Strings.Byte.
From S2P Require Import Prelude OrderedMap AttachCodec Clipboard WorkflowVerify WorkflowStore WorkflowService Paths WorkflowSpec WorkflowPlan SpecProofs PlanHash PlanProofs PlanStoreProofs.

#[local] Open Scope Z_scope.

Section Binding.
Context `{Sha256, !Sha256Law, ValueText, !ValueTextLaws, SerdeJson ExecutionPlan, !SerdeJsonLaw ExecutionPlan}.
Context (root : string).

(** C10: whatever the files of the store hold, reading the plan of a hash gives the
    plan that was hashed, an error, or a plan whose canonical text differs from that of
    the plan that was hashed and has the same SHA-256 digest; it changes nothing. *)
Theorem read_plan_authentic plan h s q s' :
  spec_plan_hash plan = inr h → read_plan root h s = (inr q, s') →
  s' = s ∧ (q = set_plan_hash h plan ∨ plans_clash q plan).
Proof.
  intros Hh (-> & Hq & Hhq & _)%read_plan_bytes. split; [done|].
  destruct (same_plan q (set_plan_hash h plan) h) as [->|Hc];
    [done|by rewrite spec_plan_hash_set|done|by left|right].
  by destruct plan.
Qed.

(** ** Stores that planning leaves behind *)

(** Runs of the plan command, one after the other, each meeting refusals but no torn
    write. *)
Inductive planned : PlanStore → Prop :=
| planned_empty answers : planned (mk_plan_store ∅ answers)
| planned_run fs git loaded env candidates answers s r s' :
    planned s → quiet (mk_plan_store (ps_files s) answers) →
    plan_inner fs git loaded env candidates root (mk_plan_store (ps_files s) answers) = (r, s') →
    planned s'.

Lemma store_ok_bytes s s' :
  (∀ q, bytes_at s' q = bytes_at s q) → store_ok root s → store_ok root s'.
Proof.
  intros E [Hc Hp]. split; [intros x bs; rewrite E; apply Hc|].
  intros h q s2 Hr d Hd. setoid_rewrite E. apply (Hp h q s); [|done].
  apply read_plan_bytes in Hr as (_ & ? & ? & bs & Hb & ?). rewrite E in Hb.
  apply read_plan_bytes. eauto 10.
Qed.

Lemma planned_ok s answers : planned s → store_ok root (mk_plan_store (ps_files s) answers).
Proof.
  intros Hs. revert answers. induction Hs as [a|fs git l e c a s r s' Hs IH Hq Hr]; intros answers.
  - split.
    + intros x bs Hb. unfold bytes_at in Hb. cbn in Hb. by rewrite lookup_empty in Hb.
    + intros h q s' (_ & _ & _ & bs & Hb & _)%read_plan_bytes.
      unfold bytes_at in Hb. cbn in Hb. by rewrite lookup_empty in Hb.
  - apply plan_inner_spec in Hr as (Hok & _); [|done|apply IH].
    eapply store_ok_bytes; [|exact Hok]. by intros q.
Qed.

(** C8: as long as no write is cut short (the operating system may refuse any of them),
    after any sequence of runs of the plan command every plan that can be read has all
    its inputs, under digests that are those of their bytes; a run never changes a
    file that was there; and a run that reports a plan leaves it stored under its
    hash, unless another plan with a different canonical text and the same SHA-256
    digest is stored there. *)
Theorem planned_store_complete fs git loaded env candidates answers s r s' :
  planned s → quiet (mk_plan_store (ps_files s) answers) →
  plan_inner fs git loaded env candidates root (mk_plan_store (ps_files s) answers) = (r, s') →
  (∀ h q s2, read_plan root h s' = (inr q, s2) →
     ∀ d, d ∈ plan_inputs q → ∃ bs, read_input root d s' = (inr bs, s') ∧ sha256_hex bs = d)
  ∧ (∀ path bs, bytes_at s path = Some bs → bytes_at s' path = Some bs)
  ∧ (∀ plan h, r = inr (plan, h) → stored_or_clash root plan h s').
Proof.
  intros Hs Hq Hr. pose proof (planned_ok s answers Hs) as Hok.
  destruct (plan_inner_spec root _ _ _ _ _ _ _ _ Hq Hok Hr) as ([_ Hc] & Hk & Hp).
  split_and!.
  - intros h q s2 Hread d Hd. destruct (Hc h q s2 Hread d Hd) as (bs & Hb & Hbs). exists bs.
    split; [|done]. unfold read_input, mbind, sm_bind, read_stored, sm_sum.
    change (sf_bytes <$> ps_files s' !! input_path root d) with (bytes_at s' (input_path root d)).
    by rewrite Hb.
  - intros path bs Hb. specialize (Hk path). change (bytes_at (mk_plan_store _ _) path) with (bytes_at s path) in Hk.
    rewrite Hk by eauto. done.
  - intros plan h E. by apply Hp in E as [_ ?].
Qed.

(** ** The frozen script *)

Lemma m_bind_inr {A B} (m : M WorkflowError A) (f : A → M WorkflowError B) w b w' :
  (m ≫= f) w = (inr b, w') → ∃ a w1, m w = (inr a, w1) ∧ f a w1 = (inr b, w').
Proof. unfold mbind, M_bind. destruct (m w) as [[e|a] w1]; [done|]. eauto. Qed.

Lemma store_plan_hash plan i s h s' :
  store_plan root plan i s = (inr h, s') → h = ep_plan_hash plan.
Proof.
  unfold store_plan. intros E. apply sm_bind_inr in E as (there & s1 & Ei & E).
  injection Ei as <- <-. destruct (bool_decide _).
  - apply sm_bind_inr in E as (q & s2 & Eq & [= <- <-]).
    by apply read_plan_bytes in Eq as (_ & _ & ? & _).
  - unfold persist in E. apply sm_bind_inr in E as ([] & s1 & _ & E). sm_in E.
    apply str_eqb_spec in E1. injection E as <- <-. done.
Qed.

(** The inputs and the plan behind a successful run. *)
Lemma plan_inner_inr fs git loaded env candidates s plan h s' :
  plan_inner fs git loaded env candidates root s = (inr (plan, h), s') →
  ∃ res i, fr_check_bundle_dir res = path_join (default "." (path_parent (ld_file_label loaded))) "checks"
    ∧ resolve_workflow_files fs res (ld_checked loaded) = inr i
    ∧ compile_plan (ld_checked loaded) i (host_grant (ld_checked loaded)) (ld_file_label loaded) = inr plan
    ∧ h = ep_plan_hash plan.
Proof.
  unfold plan_inner. intros E. sm_in E. injection E as <- <- <-.
  do 2 eexists. split_and!; [|eassumption..|by eapply store_plan_hash]. done.
Qed.

(** What an accepted binding says of the policy and the store. *)
Lemma verify_binding_inr fs_script v program script digest timeout s :
  verify_test_binding fs_script v program script digest timeout root s = inr () →
  ∃ name f bs, vp_check_argv v = [program; CHECKS_PREFIX +:+ name; "/work/repo"]
    ∧ path_ends_with script name = true ∧ f ∈ vp_test_bundle_files v ∧ logical_path f = name
    ∧ bytes_at s (input_path root (bf_digest f)) = Some bs ∧ fs_script script = inr bs
    ∧ vp_check_image_digest v = TEST_SANDBOX_IMAGE ∧ vp_test_bundle_digest v = digest
    ∧ vp_timeout_seconds v = timeout.
Proof.
  unfold verify_test_binding. intros E.
  apply sum_bind_inr in E as (name & Hargv%opt_err_inr & E).
  apply sum_bind_inr in E as ([] & Hpath%check_inr & E).
  apply sum_bind_inr in E as (f & Hfind%opt_err_inr & E).
  apply sum_bind_inr in E as (frozen & Hfrozen%lift_err_inr & E).
  apply sum_bind_inr in E as (supplied & Hsupplied%lift_err_inr & E).
  apply sum_bind_inr in E as ([] & Hsame%check_inr%bool_decide_eq_true & E). subst supplied.
  apply sum_bind_inr in E as ([] & Himage%check_inr%str_eqb_spec & E).
  apply sum_bind_inr in E as ([] & Hdigest%check_inr%str_eqb_spec & Ht%check_inr%Z.eqb_eq).
  destruct (vp_check_argv v) as [|a0 [|a1 [|a2 [|]]]]; try done.
  destruct (str_eqb a0 program && str_eqb a2 "/work/repo") eqn:Ea; [|done].
  apply andb_true_iff in Ea as [->%str_eqb_spec ->%str_eqb_spec].
  apply strip_prefix_Some in Hargv as ->.
  apply negb_true_iff, orb_false_iff in Hpath as [_ Hends%negb_false_iff].
  apply find_some in Hfind as [Hin%list_elem_of_In Hname%str_eqb_spec].
  exists name, f, frozen. split_and!; try done.
  unfold read_input, mbind, sm_bind, read_stored, sm_sum in Hfrozen. cbn [fst] in Hfrozen.
  by apply opt_err_inr in Hfrozen.
Qed.

Lemma open_store_bytes s r s' q : open_store root s = (r, s') → bytes_at s' q = bytes_at s q.
Proof.
  assert (Hstep : ∀ s, bytes_at (create_dir root s).2 q = bytes_at s q).
  { clear. intros s. destruct (next_answer_spec s) as (a & s1 & En & Hf & _).
    unfold create_dir, mbind, sm_bind, bytes_at. rewrite En. by destruct a; cbn; rewrite <- Hf. }
  unfold open_store, mbind, sm_bind. intros E. pose proof (Hstep s) as H1'.
  destruct (create_dir root s) as [[e|[]] s1]; [by injection E as <- <-|].
  pose proof (Hstep s1) as H2'. rewrite E in H2'. cbn in *. congruence.
Qed.

(** The verification policy of a compiled plan: the command of the definition and
    files that lay in the bundle directory. *)
Lemma planned_bundle fs res c i g file plan :
  resolve_workflow_files fs res c = inr i → compile_plan c i g file = inr plan →
  vp_check_argv (ep_verification plan) = cd_checks_argv c
  ∧ vp_timeout_seconds (ep_verification plan) = cd_checks_timeout c
  ∧ (∀ f, f ∈ vp_test_bundle_files (ep_verification plan) →
       ∃ bs, fs_read fs (path_join (fr_check_bundle_dir res) (logical_path f)) = Some bs
             ∧ bf_digest f = sha256_hex bs)
  ∧ vp_test_bundle_digest (ep_verification plan)
    = bundle_manifest_digest ((λ f, (logical_path f, bf_digest f))
                                <$> vp_test_bundle_files (ep_verification plan)).
Proof.
  intros Hi%resolve_workflow_files_spec (_ & hh & _ & ->)%compile_plan_inr.
  destruct Hi as [_ _ (en & _ & _ & Hall) _ _ Hman _]. cbn. split_and!; [done..| |].
  - intros f (fi & -> & Hfi)%list_elem_of_fmap. rewrite Forall_forall in Hall.
    destruct (Hall fi Hfi) as [Hread Hfd]. eauto.
  - rewrite Hman, <- list_fmap_compose. done.
Qed.

Lemma refuse_passes c (e : WorkflowError) w u w' : refuse c e w = (inr u, w') → c = false ∧ w' = w.
Proof. destruct c; [done|]. by intros [= <- <-]. Qed.

(** The script that [record_test] runs belongs to the bundle it was given. *)
Lemma record_test_script env script_now run_test id expected p w x w' :
  record_test env script_now run_test id expected p w = (inr x, w') →
  ∃ bs f, script_now = inr bs ∧ f ∈ bundle_files p ∧ bf_digest f = sha256_hex bs.
Proof.
  unfold record_test. intros E. do 10 apply m_bind_inr in E as (? & ? & _ & E).
  apply m_bind_inr in E as (bs & w1 & Hs & E). apply m_bind_inr in E as (u & w2 & Hin & _).
  apply refuse_passes in Hin as [Hin%negb_false_iff _].
  apply existsb_exists in Hin as (f & Hf%list_elem_of_In & Hd%str_eqb_spec).
  injection Hs as Hs _. destruct script_now as [e|bs']; [done|]. injection Hs as ->. eauto.
Qed.


(** ** A torn write is not repaired *)

Lemma write_file_done path bs s :
  ps_answers s = [] → bytes_at s path = None →
  write_file path bs s = (inr true, mk_plan_store (<[path := mk_stored bs false]> (ps_files s)) []).
Proof.
  intros Ha Hn%fmap_None. unfold write_file, mbind, sm_bind, writable, next_answer.
  cbv beta iota. by rewrite Hn, Ha; cbn; rewrite Ha.
Qed.

Lemma protect_done path s :
  ps_answers s = [] → ∃ s', protect path s = (inr (), s') ∧ ps_answers s' = [].
Proof.
  intros Ha. unfold protect, mbind, sm_bind, next_answer. rewrite Ha. unfold make_read_only.
  destruct (ps_files s !! path); eexists; split; done.
Qed.

Lemma write_inputs_done inputs s :
  ps_answers s = [] → ∃ s', write_inputs root inputs s = (inr (), s') ∧ ps_answers s' = [].
Proof.
  revert s. induction inputs as [|f inputs IH]; intros s Ha; cbn; [by eexists|].
  assert (Hw : ∃ s1, write_input root (fi_digest f) (fi_bytes f) s = (inr (), s1) ∧ ps_answers s1 = []).
  { unfold write_input, mbind, sm_bind, is_file. cbv beta iota. destruct (bool_decide _) eqn:B; [by exists s|].
    rewrite write_file_done; [|done|].
    - cbn [sm_check]. unfold mret, sm_ret. by apply protect_done.
    - apply bool_decide_eq_false in B. by apply fmap_None, eq_None_not_Some. }
  destruct Hw as (s1 & Hw & Ha1). unfold mbind, sm_bind. rewrite Hw. by apply IH.
Qed.

(** A retry without faults stores the plan and keeps what is there. *)
Lemma store_plan_retry plan i s bs :
  Forall sealed (frozen_inputs i) → spec_plan_hash plan = inr (ep_plan_hash plan) →
  to_vec plan = Ok bs → ps_answers s = [] →
  bytes_at s (plan_path root (ep_plan_hash plan)) = None →
  ∃ s', store_plan root plan i s = (inr (ep_plan_hash plan), s')
        ∧ read_plan root (ep_plan_hash plan) s' = (inr plan, s') ∧ keeps s s'.
Proof.
  intros Hseal Hh Hv Ha Hn. destruct (plan_hash_hex _ _ Hh) as [y Hy].
  destruct (write_inputs_done (frozen_inputs i) s Ha) as (s1 & Hw & Ha1).
  destruct (write_inputs_extends root _ _ _ _ Hseal ltac:(unfold quiet; by rewrite Ha) Hw) as [X _].
  assert (Hn1 : bytes_at s1 (plan_path root (ep_plan_hash plan)) = None)
    by (rewrite Hy, (ext_plans _ _ _ X), <- Hy; done).
  unfold store_plan, mbind, sm_bind, is_file. cbv beta iota.
  rewrite bool_decide_eq_false_2 by (apply fmap_None in Hn; rewrite Hn; by intros []).
  unfold persist, mbind, sm_bind, sm_sum. rewrite Hw, Hh, (proj2 (str_eqb_spec _ _)), Hv by done.
  cbn [sm_check]. unfold mret, sm_ret. rewrite (write_file_done _ _ _ Ha1 Hn1). cbn [sm_check].
  unfold mret, sm_ret.
  set (s2 := mk_plan_store _ _). destruct (protect_spec (plan_path root (ep_plan_hash plan)) s2)
    as (s3 & Hp & Hb & _). rewrite Hp. exists s3. split; [done|].
  assert (Hat : bytes_at s3 (plan_path root (ep_plan_hash plan)) = Some bs)
    by (rewrite Hb; unfold s2, bytes_at; cbn; by rewrite lookup_insert_eq).
  split.
  - apply read_plan_bytes. split_and!; [done..|]. exists bs. split; [done|]. by apply from_slice_to_vec.
  - intros q Hq. rewrite Hb. unfold s2, bytes_at. cbn. rewrite lookup_insert_ne.
    + by apply (ext_kept _ _ _ X).
    + intros <-. rewrite Hn in Hq. by destruct Hq.
Qed.

(** Planning again leaves the store alone. *)
Lemma store_plan_again plan i s :
  read_plan root (ep_plan_hash plan) s = (inr plan, s) →
  store_plan root plan i s = (inr (ep_plan_hash plan), s).
Proof.
  intros Hr. pose proof Hr as (_ & _ & _ & bs & Hb & _)%read_plan_bytes.
  unfold store_plan, mbind, sm_bind, is_file. cbv beta iota.
  rewrite bool_decide_eq_true_2; [by rewrite Hr|]. apply fmap_Some in Hb as (f & -> & _). eauto.
Qed.

Lemma store_plan_torn plan i n :
  store_plan root plan i (mk_plan_store ∅ [Torn n])
  = (inl (missing (input_path root (fi_digest (rs_task i))) "input" "cannot write the stored input"
            "point the store at a writable directory"),
     mk_plan_store {[input_path root (fi_digest (rs_task i))
                       := mk_stored (take n (fi_bytes (rs_task i))) false]} []).
Proof.
  unfold store_plan, mbind, sm_bind, is_file. cbv beta iota. cbn [ps_files].
  rewrite lookup_empty, bool_decide_eq_false_2 by (by intros []).
  unfold persist, mbind, sm_bind, frozen_inputs. cbn [write_inputs].
  unfold write_input, mbind, sm_bind, is_file. cbv beta iota. cbn [ps_files].
  rewrite lookup_empty, bool_decide_eq_false_2 by (by intros []).
  unfold write_file, mbind, sm_bind, writable, next_answer. cbn. by rewrite lookup_empty.
Qed.

(** an input whose write is cut short is kept.  The run that met it fails, the next
    one succeeds and reports the plan, and from then on the truncated bytes are read
    under the digest of the whole input: no later run of the plan command changes
    them. *)
Theorem torn_input_kept fs res c i g file plan bs n :
  resolve_workflow_files fs res c = inr i → compile_plan c i g file = inr plan →
  to_vec plan = Ok bs →
  ∃ e s1 s2, store_plan root plan i (mk_plan_store ∅ [Torn n]) = (inl e, s1)
    ∧ store_plan root plan i s1 = (inr (ep_plan_hash plan), s2)
    ∧ read_plan root (ep_plan_hash plan) s2 = (inr plan, s2)
    ∧ read_input root (if_content_digest (ep_task plan)) s2 = (inr (take n (fi_bytes (rs_task i))), s2)
    ∧ store_plan root plan i s2 = (inr (ep_plan_hash plan), s2).
Proof.
  intros Hi Hp Hv. destruct (planned_inputs _ _ _ _ _ _ _ Hi Hp) as [Hseal _].
  pose proof (compiled_hash _ _ _ _ _ Hp) as Hh. destruct (plan_hash_hex _ _ Hh) as [y Hy].
  do 2 eexists. rewrite store_plan_torn.
  set (s1 := mk_plan_store _ _). set (path := input_path root (fi_digest (rs_task i))) in *.
  assert (Hn : bytes_at s1 (plan_path root (ep_plan_hash plan)) = None).
  { unfold s1, bytes_at. cbn. rewrite lookup_singleton_ne; [done|]. unfold path. rewrite Hy.
    assert (Ht : fi_digest (rs_task i) = sha256_hex (fi_bytes (rs_task i)))
      by (by apply Forall_inv in Hseal). rewrite Ht.
    intros E. symmetry in E. by apply plan_path_not_input in E. }
  destruct (store_plan_retry plan i s1 bs) as (s2 & Hs & Hr & Hk); [done..|].
  exists s2. split_and!; [reflexivity|done|done| |by apply store_plan_again].
  assert (Hb : bytes_at s2 path = Some (take n (fi_bytes (rs_task i)))).
  { rewrite Hk; unfold s1, bytes_at; cbn; rewrite lookup_singleton_eq; [done|by eexists]. }
  apply compile_plan_inr in Hp as (_ & hh & _ & ->). cbn [if_content_digest].
  unfold read_input, mbind, sm_bind, read_stored, sm_sum. cbv beta iota.
  change (sf_bytes <$> ps_files s2 !! _) with (bytes_at s2 path). by rewrite Hb.
Qed.
End Binding.
