(* ===== verification/PlanDemo.v ===== *)
(** * A workflow planned and tested, executed

    A prefix code for JSON values that satisfies [ValueTextLaws], a fragment of
    [serde_json] for one plan, and the theorems on plans at a concrete workflow. *)

From stdpp Require Import base list gmap strings pretty sorting.
From Stdlib Require Import ZArith Lia Bool Strings.Byte.
From S2P Require Import Prelude OrderedMap AttachCodec Clipboard WorkflowVerify WorkflowStore WorkflowService WorkflowDemo Paths WorkflowSpec WorkflowPlan SpecProofs PlanHash PlanProofs PlanStoreProofs PlanBinding.
Import SampleHash.

#[local] Open Scope Z_scope.

(** ** A code for values *)

Module ValueCode.
Fixpoint code_pos (p : positive) : bytes :=
  match p with xH => [x00] | xO p => x01 :: code_pos p | xI p => x02 :: code_pos p end.
Definition code_Z (z : Z) : bytes :=
  match z with Z0 => [x00] | Zpos p => x01 :: code_pos p | Zneg p => x02 :: code_pos p end.
Fixpoint code_bytes (bs : bytes) : bytes :=
  match bs with [] => [x00] | b :: bs => x01 :: b :: code_bytes bs end.
Definition code_string (s : string) : bytes := code_bytes (as_bytes s).

Fixpoint code (v : Json.t) : bytes :=
  match v with
  | Json.Null => [x00]
  | Json.Bool b => [x01; if b then x01 else x00]
  | Json.Number (Json.Int n) => x02 :: code_Z n
  | Json.Number (Json.Float _) => [x03]
  | Json.String s => x04 :: code_string s
  | Json.Array l =>
      x05 :: (fix go l := match l with [] => [x00] | v :: l => x01 :: code v ++ go l end) l
  | Json.Object m =>
      x06 :: (fix go m := match m with
                          | [] => [x00]
                          | (k, v) :: m => x01 :: code_string k ++ code v ++ go m
                          end) m
  end.

Lemma code_pos_inj p q r r' : code_pos p ++ r = code_pos q ++ r' → p = q ∧ r = r'.
Proof.
  revert q. induction p as [p IH|p IH|]; intros [q|q|] E; try discriminate E; cbn in E;
    injection E as E; try (apply IH in E as [-> ->]); auto.
Qed.
Lemma code_Z_inj a b r r' : code_Z a ++ r = code_Z b ++ r' → a = b ∧ r = r'.
Proof.
  destruct a, b; intros E; try discriminate E; cbn in E; injection E as E;
    try (apply code_pos_inj in E as [-> ->]); auto.
Qed.
Lemma code_bytes_inj a b r r' : code_bytes a ++ r = code_bytes b ++ r' → a = b ∧ r = r'.
Proof.
  revert b. induction a as [|x a IH]; intros [|y b] E; try discriminate E; cbn in E.
  - by injection E as ->.
  - injection E as -> E. by apply IH in E as [-> ->].
Qed.
Lemma code_string_inj a b r r' : code_string a ++ r = code_string b ++ r' → a = b ∧ r = r'.
Proof.
  intros [E ->]%code_bytes_inj. split; [|done].
  by rewrite <- (of_as_bytes a), E, of_as_bytes.
Qed.

Lemma code_inj v w r r' :
  floatless v → floatless w → code v ++ r = code w ++ r' → v = w ∧ r = r'.
Proof.
  revert w r r'. induction v as [|b|n|s|l IH|m IH] using json_ind; intros w r r' Hv Hw E.
  - destruct w as [| |[]| | |]; try discriminate E. cbn in E. by injection E as ->.
  - destruct w as [|b'|[]| | |]; try discriminate E. cbn in E. injection E as E1 E2.
    destruct b, b'; try discriminate E1; by subst.
  - destruct n as [n|], w as [| |[n'|]| | |]; try discriminate E; [|done]. cbn in E.
    injection E as E. by apply code_Z_inj in E as [-> ->].
  - destruct w as [| |[]|s'| |]; try discriminate E. cbn in E. injection E as E.
    by apply code_string_inj in E as [-> ->].
  - destruct w as [| |[]| |l'|]; try discriminate E. cbn in E. injection E as E.
    apply floatless_array in Hv, Hw.
    enough (l = l' ∧ r = r') as [-> ->] by done. revert l' Hw E.
    induction IH as [|v l Hv1 _ IHl]; intros [|w l'] Hw E; try discriminate E.
    + by injection E as ->.
    + cbn in E. injection E as E. rewrite <- !app_assoc in E.
      apply Forall_cons in Hv as [? Hv], Hw as [? Hw].
      apply Hv1 in E as [-> E]; [|done..]. by apply (IHl Hv) in E as [-> ->].
  - destruct w as [| |[]| | |m']; try discriminate E. cbn in E. injection E as E.
    apply floatless_object in Hv, Hw.
    enough (m = m' ∧ r = r') as [-> ->] by done. revert m' Hw E.
    induction IH as [|[k v] m Hv1 _ IHm]; intros [|[k' w] m'] Hw E; try discriminate E.
    + by injection E as ->.
    + cbn in E. injection E as E. rewrite <- !app_assoc in E.
      apply Forall_cons in Hv as [? Hv], Hw as [? Hw].
      cbn [snd] in *. apply code_string_inj in E as [-> E]. apply Hv1 in E as [-> E]; [|done..].
      by apply (IHm Hv) in E as [-> ->].
Qed.

#[export] Instance code_text : ValueText := { value_to_vec v := inr (code v) }.
#[export] Instance code_laws : ValueTextLaws.
Proof.
  split; [by eexists|]. intros v w bs Hv Hw [= <-] [= E].
  destruct (code_inj v w [] []) as [-> _]; [done..| |done]. by rewrite !app_nil_r.
Qed.
End ValueCode.
Import ValueCode.

(** ** A workflow *)

Definition wf_limits : ResourceLimits := mk_limits 2000 536870912 256 3600 1073741824.
Definition wf_checked : CheckedDefinition :=
  mk_checked "task.md" ["notes.md"] "claude" "workspace-default" "within_worker"
    "codex" "workspace-default" "within_worker" "unit"
    ["python3"; "/jackin/checks/check.py"; "/work/repo"] 60 "docker" "default" wf_limits false
    "off" None 1.
Definition wf_json : Json.t := definition_value wf_checked.
Definition wf_script : bytes := as_bytes "assert True".
Definition wf_read (path : string) : option bytes :=
  if str_eqb path "/wf/task.md" then Some (as_bytes "fix the bug")
  else if str_eqb path "/wf/notes.md" then Some (as_bytes "notes")
  else if str_eqb path "/wf/checks/check.py" then Some wf_script
  else None.
Definition wf_files : PlanFiles :=
  mk_plan_files wf_read
    (λ dir, if str_eqb dir "/wf/checks" then Some [("check.py", true); ("sub", false)] else None).
Definition wf_git (dir : string) (args : list string) : string + (bool * bytes) :=
  inr (true, as_bytes "c0ffee").
Definition wf_agent (runtime : string) : LiveAgentFacts :=
  mk_live_facts runtime runtime "main" "profile" (Some "default") None "sha256:b" "sha256:i".
Definition wf_env : LiveSelectionEnv :=
  mk_live_env "work" "role" "rev" (wf_agent "claude") (wf_agent "codex").
Definition wf_loaded : LoadedDefinition := mk_loaded wf_checked "/wf/repair.pkl" "current" ∅.

Definition from_inr {E A} (d : A) (r : E + A) : A := match r with inr a => a | inl _ => d end.
Definition no_selection : AgentSelection := mk_selection "" "" "" "" "" "" "" None "" "".
Definition no_input : FrozenInput := mk_frozen "" [] "".
Definition no_repository : RepositoryInput := mk_repository "" "" "".
Definition no_inputs : ResolvedInputs :=
  mk_resolved no_input [] "" [] "" "" no_repository ∅ (mk_selections no_selection no_selection).
Definition no_plan : ExecutionPlan :=
  plan_of wf_checked no_inputs (host_grant wf_checked) (mk_backup "off" None None None).

Definition wf_resolution : FileResolution :=
  mk_resolution "/wf/repair.pkl" "/wf/repair.pkl" "/wf/checks" TEST_SANDBOX_IMAGE ∅
    (from_inr no_repository
       (resolve_workspace_repository wf_git ["/repo"] "/wf/repair.pkl" WORKSPACE_REPOSITORY_ID "work"))
    (from_inr (mk_selections no_selection no_selection)
       (resolve_live_selections "/wf/repair.pkl" wf_env)).
Definition wf_inputs : ResolvedInputs :=
  Eval vm_compute in from_inr no_inputs (resolve_workflow_files wf_files wf_resolution wf_checked).
Definition wf_plan : ExecutionPlan :=
  Eval vm_compute in
    from_inr no_plan (compile_plan wf_checked wf_inputs (host_grant wf_checked) "/wf/repair.pkl").

(** The JSON text of that plan only. *)
Module PlanFragment.
#[export] Instance selection_eq_dec : EqDecision AgentSelection.
Proof. solve_decision. Defined.
#[export] Instance input_file_eq_dec : EqDecision InputFile.
Proof. solve_decision. Defined.
#[export] Instance repository_eq_dec : EqDecision RepositoryInput.
Proof. solve_decision. Defined.
#[export] Instance limits_eq_dec : EqDecision ResourceLimits.
Proof. solve_decision. Defined.
#[export] Instance bundle_file_eq_dec : EqDecision TestBundleFile.
Proof. solve_decision. Defined.
#[export] Instance verification_eq_dec : EqDecision VerificationPolicy.
Proof. solve_decision. Defined.
#[export] Instance backup_eq_dec : EqDecision BackupPolicy.
Proof. solve_decision. Defined.
#[export] Instance node_eq_dec : EqDecision PlanNode.
Proof. solve_decision. Defined.
#[export] Instance facts_eq_dec : EqDecision CapabilityFacts.
Proof. solve_decision. Defined.
#[export] Instance plan_eq_dec : EqDecision ExecutionPlan.
Proof. solve_decision. Defined.

#[export] Instance plan_json : SerdeJson ExecutionPlan := {
  to_vec p := if bool_decide (p = wf_plan) then Ok (as_bytes "plan") else bail "not in the fragment";
  from_slice bs := if bool_decide (bs = as_bytes "plan") then Some wf_plan else None;
}.
#[export] Instance plan_json_law : SerdeJsonLaw ExecutionPlan.
Proof. intros p bs. cbn. destruct (bool_decide_reflect (p = wf_plan)); [|done]. intros [= <-]. by subst p. Qed.
End PlanFragment.
Import PlanFragment.

Definition wf_store : PlanStore :=
  (plan_inner wf_files wf_git wf_loaded wf_env ["/repo"] "/data" (mk_plan_store ∅ [])).2.

(** ** The theorems at this workflow *)

Lemma wf_checked_ok : checked_ok wf_checked.
Proof.
  constructor; cbn; unfold agent_ok, limits_ok; cbn;
    repeat match goal with |- _ ∧ _ => split end; try done; try lia; apply str_in_spec; reflexivity.
Qed.

Lemma compile_plan_authorized_witness :
  as_runtime (ep_implementer wf_plan) = "claude" ∧ NoDup (pn_id <$> ep_nodes wf_plan)
  ∧ digest_of wf_inputs "task/task.md" (sha256_hex (as_bytes "fix the bug")).
Proof.
  destruct (compile_plan_authorized wf_files wf_resolution wf_json "/wf/repair.pkl" wf_checked
              wf_inputs (host_grant wf_checked)) as [_ Hp].
  - vm_compute. reflexivity.
  - vm_compute. reflexivity.
  - destruct (Hp wf_plan) as (_ & _ & _ & _ & Hi & _ & Hn & _ & Hd & _);
      [vm_compute; reflexivity|].
    split; [exact Hi|]. split; [exact Hn|]. apply Hd. vm_compute. reflexivity.
Defined.

Lemma no_self_clash p : ¬ plans_clash p p.
Proof. intros (x & y & Hx & Hy & [Hne _]). rewrite Hx in Hy. by injection Hy as <-. Qed.

Lemma read_plan_authentic_witness : wf_plan = set_plan_hash (ep_plan_hash wf_plan) wf_plan.
Proof.
  destruct (read_plan_authentic "/data" wf_plan (ep_plan_hash wf_plan) wf_store wf_plan wf_store)
    as [_ [H|H]]; [vm_compute; reflexivity..|exact H|].
  destruct (no_self_clash _ H).
Defined.

(** A first run is refused its first write, a second one succeeds. *)
Lemma planned_store_complete_witness :
  ∃ bs, read_input "/data" (sha256_hex (as_bytes "notes")) wf_store = (inr bs, wf_store)
        ∧ sha256_hex bs = sha256_hex (as_bytes "notes").
Proof.
  destruct (planned_store_complete "/data" wf_files wf_git wf_loaded wf_env ["/repo"] []
              (plan_inner wf_files wf_git wf_loaded wf_env ["/repo"] "/data"
                 (mk_plan_store ∅ [Done; Done; Refused])).2
              (inr (wf_plan, ep_plan_hash wf_plan)) wf_store) as [Hc _].
  - eapply planned_run; [apply (planned_empty _ [])| |apply surjective_pairing].
    repeat constructor; discriminate.
  - apply Forall_nil. exact I.
  - vm_compute. reflexivity.
  - apply (Hc (ep_plan_hash wf_plan) wf_plan wf_store); [vm_compute; reflexivity|].
    apply str_in_spec. vm_compute. reflexivity.
Defined.

Lemma torn_input_kept_witness :
  ∃ s, read_plan "/data" (ep_plan_hash wf_plan) s = (inr wf_plan, s)
       ∧ read_input "/data" (sha256_hex (as_bytes "fix the bug")) s = (inr (as_bytes "fix"), s).
Proof.
  destruct (torn_input_kept "/data" wf_files wf_resolution wf_checked wf_inputs
              (host_grant wf_checked) "/wf/repair.pkl" wf_plan (as_bytes "plan") 3)
    as (e & s1 & s2 & _ & _ & Hr & Hi & _).
  - vm_compute. reflexivity.
  - vm_compute. reflexivity.
  - vm_compute. reflexivity.
  - exists s2. split; [exact Hr|exact Hi].
Defined.

(** The run of that plan, and the test the daemon is asked to record. *)
Definition wf_host (path : string) : string + bytes :=
  if str_eqb path "/wf/checks/check.py" then inr wf_script else inl "not found".
Definition wf_requests : list Request :=
  [RStart "u1" (ep_plan_hash wf_plan) 1 "key";
   RAdvance demo_env "run-u1" 0 "worker" "turn_started" None;
   RAdvance demo_env "run-u1" 1 "worker" "turn_ended" None;
   RCandidate "run-u1" "cand1" 2;
   RCheckpoint demo_env "run-u1" (mk_checkpoint "cand1" "c1" "" "manifest" "/src" "none" None) 3;
   RAdvance demo_env "run-u1" 3 "host" "test_started" None].
Definition wf_runs : RunStore := exec_all wf_requests (fresh_store empty_db 1).
Definition wf_recorded : (WorkflowError + (RunSummary * RecordedTest)) * RunStore :=
  handle_record_test wf_host wf_store "/data" demo_env (inr wf_script) (λ _ _ _, inr demo_execution)
    "run-u1" 4 "python3" "/wf/checks/check.py" (vp_test_bundle_digest (ep_verification wf_plan))
    None "/scratch" 60 wf_runs.
Definition no_summary : RunSummary := mk_summary "" "" "" "" 0 None 0 0 0 None 0.

(** No file of the workflow clashes with the script. *)
Lemma wf_no_clash path bs : wf_read path = Some bs → ¬ clash bs wf_script.
Proof.
  unfold wf_read, clash. destruct (str_eqb path "/wf/task.md"); [intros [= <-] [_ E]; by vm_compute in E|].
  destruct (str_eqb path "/wf/notes.md"); [intros [= <-] [_ E]; by vm_compute in E|].
  destruct (str_eqb path "/wf/checks/check.py"); [by intros [= <-] [? _]|done].
Qed.

