(* ===== verification/FileExport.v ===== *)
(** * Files exported to the host

    The capsule sends a file in frames ([daemon/file_export.rs]); the host attach
    client writes it to the operator's download directory
    ([jackin-runtime-host-attach/src/host_attach.rs]): a temporary file takes the
    chunks and is renamed when its size and digest are right.

    The host disk maps paths to files (inodes), so that an open file outlives its
    name; a symbolic link is one more name of the file it leads to, and a link that leads
    nowhere is a name whose inode has no contents.  Every call to the operating system
    may fail, a write after some of its bytes, and the question whether a path
    exists, which the code cannot tell from a no.  Only the client changes the disk. *)

From stdpp Require Import base list gmap strings pretty.
From Stdlib Require Import ZArith Lia Bool Strings.Byte.
From S2P Require Import Prelude OrderedMap AttachTypes AttachCodec Clipboard WorkflowVerify Paths.

#[local] Open Scope Z_scope.

(** ** Names *)

(** [char::is_control] and the separators, on the UTF-8 bytes: a control character
    has one byte, or two of which the first is 0xC2. *)
Definition unsafe_byte (b : byte) : bool :=
  let c := Z_of_byte b in
  (c <? 32) || (c =? 127) || (c =? 47) || (c =? 92) || (c =? 58).
Definition unsafe_pair (b c : byte) : bool := byte_is 194 b && between 128 159 (Z_of_byte c).
Definition underscore : byte := byte_of_Z 95.

Fixpoint replace_unsafe (bs : bytes) : bytes :=
  match bs with
  | [] => []
  | b :: r =>
      if unsafe_byte b then underscore :: replace_unsafe r
      else match r with
           | c :: r' => if unsafe_pair b c then underscore :: replace_unsafe r'
                        else b :: replace_unsafe r
           | [] => [b]
           end
  end.

(** [trim_matches(['.', ' ', '\t'])] *)
Definition trim_char (b : byte) : bool := byte_is 46 b || byte_is 32 b || byte_is 9 b.
Fixpoint drop_trim_chars (bs : bytes) : bytes :=
  match bs with
  | b :: r => if trim_char b then drop_trim_chars r else bs
  | [] => []
  end.
Definition trim_matches (bs : bytes) : bytes := rev (drop_trim_chars (rev (drop_trim_chars bs))).

Definition sanitize_export_path_component (name fallback : string) : string :=
  let sanitized := replace_unsafe (as_bytes name) in
  let trimmed := trim (of_bytes (trim_matches sanitized)) in
  if str_eqb trimmed "" then fallback else take_chars 255 trimmed.
Definition sanitize_export_file_name (name : string) : string :=
  sanitize_export_path_component name "jackin-export.bin".

(** [Path::file_stem] and [Path::with_extension]; the latter replaces all that follows the
    stem, separators and dots at the end of the path included. *)
Definition file_stem (p : string) : option string :=
  name ← file_name p;
  match split_once "." (str_rev name) with
  | Some (_, "") | None => Some name
  | Some (_, stem) => Some (str_rev stem)
  end.
Fixpoint strip_tail (fuel : nat) (p : string) : string :=
  match fuel with
  | O => p
  | S fuel =>
      match strip_suffix "/" p, strip_suffix "/." p with
      | Some q, _ | None, Some q => strip_tail fuel q
      | None, None => p
      end
  end.
Definition with_extension (p ext : string) : string :=
  match file_name p, file_stem p with
  | Some name, Some stem =>
      match strip_suffix name (strip_tail (String.length p) p) with
      | Some dir => dir +:+ stem +:+ "." +:+ ext
      | None => p
      end
  | _, _ => p
  end.

Definition host_file_export_root (download_dir home : option string) (export_subdir : string)
    : res string :=
  let sub := sanitize_export_path_component export_subdir "instance" in
  match download_dir, home with
  | Some downloads, _ => Ok (path_join (path_join downloads "jackin") sub)
  | None, Some home => Ok (path_join (path_join (path_join home "Downloads") "jackin") sub)
  | None, None => bail "HOME is not set and Downloads directory is unavailable"
  end.

(** ** The host disk *)

Inductive IoAnswer := IoOk | IoFail (written : nat).
Record Disk := mk_disk {
  entries : gmap string Z;
  contents : gmap Z bytes;
  next_ino : Z;
  io_answers : list IoAnswer;
  stat_answers : list bool;
}.

(** Five minutes, in nanoseconds. *)
Definition HOST_FILE_EXPORT_IDLE_TIMEOUT : Z := 5 * 60 * 1000000000.

Section Exports.
Context `{Sha256}.

Record ActiveHostFileExport := mk_host_export {
  ax_source_path : string;
  ax_source_basename : string;
  ax_final_path : string;
  ax_temp_path : string;
  ax_file : Z;
  ax_expected_size : Z;
  ax_written : Z;
  ax_hasher : hasher;
  ax_reveal_after_export : bool;
  ax_open_after_export : bool;
  ax_last_activity : Z;
}.
Record CompletedHostFileExport := mk_completed {
  cx_final_path : string;
  cx_bytes : Z;
  cx_reveal_after_export : bool;
  cx_open_after_export : bool;
}.

Record Exports := mk_exports { active : gmap Z ActiveHostFileExport; disk : Disk }.

Definition X (A : Type) : Type := Exports → res A * Exports.
#[global] Instance x_ret : MRet X := λ A a s, (Ok a, s).
#[global] Instance x_bind : MBind X := λ A B f m s,
  match m s with
  | (Ok a, s) => f a s
  | (Err e, s) => (Err e, s)
  | (Panic, s) => (Panic, s)
  end.
Definition x_res {A} (r : res A) : X A := λ s, (r, s).
Definition on_disk {A} (f : Disk → A * Disk) : X A := λ s,
  let '(a, d) := f (disk s) in (Ok a, mk_exports (active s) d).
Definition set_active (f : gmap Z ActiveHostFileExport → gmap Z ActiveHostFileExport) : X () := λ s,
  (Ok (), mk_exports (f (active s)) (disk s)).
Definition get_active (id : Z) : X (option ActiveHostFileExport) := λ s, (Ok (active s !! id), s).
Definition get_disk : X Disk := λ s, (Ok (disk s), s).

(** The answer to the next call; once the script is used up calls succeed. *)
Definition next_io (d : Disk) : IoAnswer * Disk :=
  match io_answers d with
  | [] => (IoOk, d)
  | a :: l => (a, mk_disk (entries d) (contents d) (next_ino d) l (stat_answers d))
  end.
Definition next_stat (d : Disk) : bool * Disk :=
  match stat_answers d with
  | [] => (true, d)
  | a :: l => (a, mk_disk (entries d) (contents d) (next_ino d) (io_answers d) l)
  end.
Definition call (what : string) : X () :=
  a ← on_disk next_io;
  x_res (match a with IoOk => Ok () | IoFail _ => bail what end).

(** The names of a directory itself: [.] and [..]. *)
Definition names_directory (p : string) : bool :=
  match last (split_on is_slash p) with
  | Some name => str_in name [""; "."; ".."]
  | None => true
  end.
(** The path leads to a file or a directory. *)
Definition file_at (d : Disk) (p : string) : option bytes :=
  ino ← entries d !! p; contents d !! ino.
Definition resolves (d : Disk) (p : string) : bool :=
  bool_decide (is_Some (file_at d p)) || names_directory p.
(** The path is a name already, if only of a link that leads nowhere. *)
Definition taken (d : Disk) (p : string) : bool :=
  bool_decide (is_Some (entries d !! p)) || names_directory p.

(** [Path::exists] follows links and is [false] when the system refuses to tell. *)
Definition path_exists (d : Disk) (p : string) : bool * Disk :=
  let '(answered, d) := next_stat d in (answered && resolves d p, d).

(** [OpenOptions::create_new]: an empty file of a new inode. *)
Definition create_new (p : string) : X Z :=
  _ ← call "creating temporary host export file";
  d ← get_disk;
  if taken d p then x_res (bail "creating temporary host export file")
  else on_disk (λ d, (next_ino d, mk_disk (<[p := next_ino d]> (entries d))
                        (<[next_ino d := []]> (contents d)) (next_ino d + 1) (io_answers d)
                        (stat_answers d))).

(** [seek] and [write_all]: the bytes replace what the file has from [offset] on. *)
Definition overwrite (offset : nat) (new old : bytes) : bytes :=
  take offset old ++ new ++ drop (offset + length new) old.
Definition write_at (ino offset : Z) (bs : bytes) : X () :=
  a ← on_disk next_io;
  let written := match a with IoOk => bs | IoFail n => take n bs end in
  _ ← on_disk (λ d, ((), mk_disk (entries d)
                           (alter (overwrite (Z.to_nat offset) written) ino (contents d))
                           (next_ino d) (io_answers d) (stat_answers d)));
  x_res (match a with IoOk => Ok () | IoFail _ => bail "writing host export chunk" end).

(** [fs::rename] replaces what has the new name, except a directory. *)
Definition rename (from to : string) : X () :=
  _ ← call "moving temporary host export into final destination";
  d ← get_disk;
  match entries d !! from, names_directory to with
  | Some ino, false =>
      on_disk (λ d, ((), mk_disk (<[to := ino]> (delete from (entries d))) (contents d)
                           (next_ino d) (io_answers d) (stat_answers d)))
  | _, _ => x_res (bail "moving temporary host export into final destination")
  end.

(** [fs::remove_file]; a failure is only recorded. *)
Definition remove_export_file (p : string) : X () :=
  a ← on_disk next_io;
  match a with
  | IoOk => on_disk (λ d, ((), mk_disk (delete p (entries d)) (contents d) (next_ino d) (io_answers d)
                                 (stat_answers d)))
  | IoFail _ => mret ()
  end.

(** ** A free path *)

Definition numbered_name (file_name : string) (idx : nat) : string :=
  let stem := match file_stem file_name with
              | Some stem => if str_eqb stem "" then "jackin-export" else stem
              | None => "jackin-export"
              end in
  match extension file_name with
  | Some ext => if str_eqb ext "" then stem +:+ "-" +:+ pretty idx
                else stem +:+ "-" +:+ pretty idx +:+ "." +:+ ext
  | None => stem +:+ "-" +:+ pretty idx
  end.

(** [for idx in 1..]: one candidate more than there are files is enough. *)
Fixpoint numbered_path (fuel idx : nat) (root file_name : string) (d : Disk) : option string * Disk :=
  match fuel with
  | O => (None, d)
  | S fuel =>
      let candidate := path_join root (numbered_name file_name idx) in
      let '(exists_, d) := path_exists d candidate in
      if exists_ then numbered_path fuel (S idx) root file_name d else (Some candidate, d)
  end.

Definition unique_export_path (root file_name : string) (d : Disk) : option string * Disk :=
  let candidate := path_join root file_name in
  let '(exists_, d) := path_exists d candidate in
  if exists_ then numbered_path (S (size (entries d))) 1 root file_name d else (Some candidate, d).

(** ** Receiving a file *)

Definition start_in_root (now : Z) (root : string) (start : FileExportStart) : X () :=
  o ← get_active (es_transfer_id start);
  match o with
  | Some _ => x_res (bail "file export transfer {} already active")
  | None =>
      _ ← call "creating host export directory";
      let name := sanitize_export_file_name (es_file_name start) in
      found ← on_disk (unique_export_path root name);
      final ← x_res (match found with Some p => Ok p | None => Panic end);
      let temp := with_extension final
                    (match extension final with Some ext => ext +:+ "." | None => "" end +:+ "part") in
      file ← create_new temp;
      set_active <[es_transfer_id start :=
        mk_host_export (es_source_path start) name final temp file (es_size start) 0 hasher_new
          (es_reveal_after_export start) (es_open_after_export start) now]>
  end.

Definition export_start (download_dir home : option string) (subdir : string) (now : Z)
    (start : FileExportStart) : X () :=
  root ← x_res (host_file_export_root download_dir home subdir);
  start_in_root now root start.

Definition with_written (n : Z) (h : hasher) (now : Z) (a : ActiveHostFileExport)
    : ActiveHostFileExport :=
  mk_host_export (ax_source_path a) (ax_source_basename a) (ax_final_path a) (ax_temp_path a) (ax_file a)
    (ax_expected_size a) n h (ax_reveal_after_export a) (ax_open_after_export a) now.

Definition export_chunk (now : Z) (c : FileExportChunk) : X () :=
  o ← get_active (ec_transfer_id c);
  match o with
  | None => x_res (bail "file export transfer {} has no active start")
  | Some a =>
      _ ← x_res (ensure (ec_offset c =? ax_written a)
                   "file export transfer {} offset {} did not match expected {}");
      let new_written := ax_written a + blen (ec_bytes c) in
      _ ← x_res (ensure (new_written <=? U64_MAX) "file export written byte count overflow");
      _ ← x_res (ensure (new_written <=? ax_expected_size a)
                   "file export transfer {} wrote {new_written} bytes, expected {}");
      _ ← call "seeking host export temp file";
      _ ← write_at (ax_file a) (ax_written a) (ec_bytes c);
      set_active <[ec_transfer_id c :=
        with_written new_written (hasher_update (ax_hasher a) (ec_bytes c)) now a]>
  end.

Definition export_end (e : FileExportEnd) : X CompletedHostFileExport :=
  o ← get_active (ee_transfer_id e);
  match o with
  | None => x_res (bail "file export transfer {} has no active start")
  | Some a =>
      _ ← set_active (delete (ee_transfer_id e));
      if negb (ax_written a =? ax_expected_size a) then
        _ ← remove_export_file (ax_temp_path a);
        x_res (bail "file export transfer {} ended after {} bytes, expected {}")
      else
        _ ← call "flushing host export temp file";
        _ ← call "syncing host export temp file";
        if negb (bool_decide (hasher_finalize (ax_hasher a) = ee_sha256 e)) then
          _ ← remove_export_file (ax_temp_path a);
          x_res (bail "file export transfer {} SHA-256 mismatch")
        else
          _ ← rename (ax_temp_path a) (ax_final_path a);
          mret (mk_completed (ax_final_path a) (ax_written a) (ax_reveal_after_export a)
                  (ax_open_after_export a))
  end.

Definition export_abort (id : Z) : X () :=
  o ← get_active id;
  match o with
  | None => mret ()
  | Some a => _ ← set_active (delete id); remove_export_file (ax_temp_path a)
  end.

Fixpoint abort_all (ids : list Z) : X () :=
  match ids with
  | [] => mret ()
  | id :: ids => _ ← export_abort id; abort_all ids
  end.

Definition stale_ids (cutoff : Z) (m : gmap Z ActiveHostFileExport) : list Z :=
  (filter (λ e, ax_last_activity e.2 ≤ cutoff) (map_to_list m)).*1.
Definition export_abort_idle_before (cutoff : Z) : X nat := λ s,
  let ids := stale_ids cutoff (active s) in
  (_ ← abort_all ids; mret (length ids)) s.

(** The clock counts from the earliest instant: before it there is none. *)
Definition export_abort_idle_older_than (now max_idle : Z) : X nat :=
  export_abort_idle_before (if max_idle <=? now then now - max_idle else now).

(** [Drop for HostFileExports] *)
Definition drop_exports : X () := λ s, abort_all (map_to_list (active s)).*1 s.

(** ** The frames of an attach session *)

Inductive ExportEvent :=
| EvStart (s : FileExportStart)
| EvChunk (c : FileExportChunk)
| EvEnd (e : FileExportEnd)
| EvCleanup.

(** What the client tells the capsule: nothing, a rejection, or the exported file. *)
Inductive ExportNotice := Quiet | Rejected (e : error) | Exported (c : CompletedHostFileExport)
| Interrupted (cleaned : nat).

(** Turns a failure into a notice. *)
Definition or_reject {A} (m : X A) (ok : A → ExportNotice) (cleanup : X ()) : X ExportNotice := λ s,
  match m s with
  | (Ok a, s) => (Ok (ok a), s)
  | (Err e, s) => (_ ← cleanup; mret (Rejected e)) s
  | (Panic, s) => (Panic, s)
  end.

Definition export_cleanup_tick (now : Z) : X ExportNotice :=
  n ← export_abort_idle_older_than now HOST_FILE_EXPORT_IDLE_TIMEOUT;
  mret (if (0 <? n)%nat then Interrupted n else Quiet).

Definition handle_export (download_dir home : option string) (subdir : string) (now : Z)
    (ev : ExportEvent) : X ExportNotice :=
  match ev with
  | EvStart s => or_reject (export_start download_dir home subdir now s) (λ _, Quiet) (mret ())
  | EvChunk c => or_reject (export_chunk now c) (λ _, Quiet) (export_abort (ec_transfer_id c))
  | EvEnd e => or_reject (export_end e) Exported (mret ())
  | EvCleanup => export_cleanup_tick now
  end.

(** A session: the events at their times. *)
Fixpoint run_exports (download_dir home : option string) (subdir : string)
    (evs : list (Z * ExportEvent)) : X (list ExportNotice) :=
  match evs with
  | [] => mret []
  | (now, ev) :: evs =>
      n ← handle_export download_dir home subdir now ev;
      ns ← run_exports download_dir home subdir evs;
      mret (n :: ns)
  end.

(** The client's whole use of an export directory, from [HostFileExports::new] to its drop. *)
Definition export_session (download_dir home : option string) (subdir : string)
    (evs : list (Z * ExportEvent)) (d : Disk) : res (list ExportNotice) * Exports :=
  (ns ← run_exports download_dir home subdir evs; _ ← drop_exports; mret ns) (mk_exports ∅ d).
End Exports.

(** ** Sending a file ([emit_prepared_export]) *)

Record PreparedExport := mk_prepared {
  pe_source : string;
  pe_file_name : string;
  pe_bytes : bytes;
  pe_sha256 : bytes;
}.

Fixpoint chunk_frames (transfer_id offset : Z) (cs : list bytes) : list ServerFrame.t :=
  match cs with
  | [] => []
  | bs :: cs => ServerFrame.FileExportChunk (mk_exp_chunk transfer_id offset bs)
                :: chunk_frames transfer_id (offset + blen bs) cs
  end.

Definition emit_prepared_export (transfer_id : Z) (p : PreparedExport) (reveal open : bool)
    : list ServerFrame.t :=
  ServerFrame.FileExportStart
    (mk_exp_start transfer_id (pe_source p) (pe_file_name p) (blen (pe_bytes p)) reveal open)
  :: chunk_frames transfer_id 0 (chunks (Z.to_nat MAX_FILE_EXPORT_CHUNK_BYTES) (pe_bytes p))
  ++ [ServerFrame.FileExportEnd (mk_exp_end transfer_id (pe_sha256 p))].

(** ** The socket *)

(** [send_protocol_frame] for each frame in turn. *)
Fixpoint send_frames (fs : list ServerFrame.t) : res bytes :=
  match fs with
  | [] => Ok []
  | f :: fs => b ← encode_server f; bs ← send_frames fs; Ok (b ++ bs)
  end.

(** The frames the client reads, and how its loop ends. *)
Fixpoint receive_frames (fuel : nat) (s : stream) : list ServerFrame.t * res () :=
  match fuel with
  | O => ([], Panic)
  | S fuel =>
      match data s with
      | [] => ([], bail "attach socket closed unexpectedly: {e}")
      | tag :: rest =>
          match read_server_frame tag (mk_stream rest (ending s)) with
          | Ok (Some (f, s)) =>
              match f with
              | ServerFrame.Shutdown _ => ([f], Ok ())
              | _ => let '(fs, r) := receive_frames fuel s in (f :: fs, r)
              end
          | Ok None => ([], bail "attach socket EOF mid-frame (tag={tag:#04x})")
          | Err _ => ([], bail "decoding server frame (tag={tag:#04x}): {e}")
          | Panic => ([], Panic)
          end
      end
  end.

Definition export_event (f : ServerFrame.t) : option ExportEvent :=
  match f with
  | ServerFrame.FileExportStart s => Some (EvStart s)
  | ServerFrame.FileExportChunk c => Some (EvChunk c)
  | ServerFrame.FileExportEnd e => Some (EvEnd e)
  | _ => None
  end.
