(* ===== verification/ExportPaths.v ===== *)
(** * The paths of an export

    The sanitised name has no separator, the search for a free path ends, and the
    path it finds names an entry of the export directory; the temporary file is the
    one beside it that ends in [.part]. *)

From stdpp Require Import base list gmap strings pretty fin_maps.
From Stdlib Require Import ZArith Lia Bool Strings.Byte Strings.Ascii.
From S2P Require Import Prelude OrderedMap Digits AttachTypes AttachCodec Clipboard WorkflowVerify Paths FileExport.

#[local] Open Scope Z_scope.

(** ** Names without separators *)

Definition no_slash (s : string) : Prop := Forall (λ b, Z_of_byte b ≠ 47) (as_bytes s).
(** A name that stands for an entry of a directory. *)
Definition plain (n : string) : Prop := no_slash n ∧ n ∉ [""; "."; ".."].

Lemma no_slash_app a b : no_slash (a +:+ b) ↔ no_slash a ∧ no_slash b.
Proof. unfold no_slash. by rewrite as_bytes_app, Forall_app. Qed.

Lemma no_slash_forallb n :
  no_slash n → forallb (λ c, negb (is_slash c)) (String.list_ascii_of_string n) = true.
Proof.
  unfold no_slash. induction n as [|c n IH]; [done|].
  rewrite as_bytes_String. intros [Hc Hn]%Forall_cons. cbn. rewrite IH by done.
  unfold is_slash. destruct (Ascii.eqb_spec c "/"%char) as [->|]; [by exfalso; apply Hc|done].
Qed.

Lemma strip_while_suffix p1 p2 p3 bs : strip_while p1 p2 p3 bs `suffix_of` bs.
Proof.
  remember (length bs) as n eqn:Hn. revert bs Hn.
  induction (lt_wf n) as [n _ IH]. intros bs ->. destruct bs as [|b0 r0]; [done|]. cbn.
  destruct (p1 b0).
  { apply suffix_cons_r. eapply IH; [|done]. cbn. lia. }
  destruct r0 as [|b1 r1]; [done|]. destruct (p2 b0 b1).
  { do 2 apply suffix_cons_r. eapply IH; [|done]. cbn. lia. }
  destruct r1 as [|b2 r2]; [done|]. destruct (p3 b0 b1 b2); [|done].
  do 3 apply suffix_cons_r. eapply IH; [|done]. cbn. lia.
Qed.
Lemma drop_trim_suffix bs : drop_trim_chars bs `suffix_of` bs.
Proof.
  induction bs as [|b r IH]; [done|]. cbn. destruct (trim_char b); [|done]. by apply suffix_cons_r.
Qed.

Lemma Forall_suffix {A} (P : A → Prop) l k : l `suffix_of` k → Forall P k → Forall P l.
Proof. intros [k' ->]. rewrite Forall_app. by intros [_ ?]. Qed.
Lemma Forall_rev' {A} (P : A → Prop) l : Forall P (rev l) ↔ Forall P l.
Proof. rewrite rev_alt. apply Forall_reverse. Qed.

Lemma trim_matches_Forall (P : byte → Prop) bs : Forall P bs → Forall P (trim_matches bs).
Proof.
  intros Hb. apply Forall_rev'. eapply Forall_suffix; [apply drop_trim_suffix|].
  apply Forall_rev'. by eapply Forall_suffix; [apply drop_trim_suffix|].
Qed.
Lemma trim_Forall (P : byte → Prop) s : Forall P (as_bytes s) → Forall P (as_bytes (trim s)).
Proof.
  intros Hs. unfold trim. rewrite as_of_bytes. apply Forall_rev'.
  eapply Forall_suffix; [apply strip_while_suffix|]. apply Forall_rev'.
  by eapply Forall_suffix; [apply strip_while_suffix|].
Qed.
Lemma take_chars_Forall (P : byte → Prop) n s : Forall P (as_bytes s) → Forall P (as_bytes (take_chars n s)).
Proof.
  unfold take_chars. rewrite as_of_bytes. generalize (Z.to_nat n). clear n.
  intros n Hs. revert n. induction Hs as [|b r Hb Hr IH]; intros n; [done|]. cbn.
  destruct (is_cont b); [by constructor|]. destruct n; [done|by constructor].
Qed.

Lemma replace_unsafe_no_slash bs : Forall (λ b, Z_of_byte b ≠ 47) (replace_unsafe bs).
Proof.
  remember (length bs) as n eqn:Hn. revert bs Hn.
  induction (lt_wf n) as [n _ IH]. intros bs ->. destruct bs as [|b r]; [done|].
  assert (Hr : ∀ r', (length r' < length (b :: r))%nat → Forall (λ b, Z_of_byte b ≠ 47) (replace_unsafe r'))
    by (intros r' Hl; by eapply IH).
  cbn. destruct (unsafe_byte b) eqn:U; [constructor; [done|apply Hr; cbn; lia]|].
  assert (Z_of_byte b ≠ 47) by (intros E; unfold unsafe_byte in U; rewrite E in U; discriminate U).
  destruct r as [|c r']; [by constructor|]. destruct (unsafe_pair b c).
  - constructor; [done|]. apply Hr. cbn. lia.
  - constructor; [done|]. apply Hr. cbn. lia.
Qed.

Lemma sanitize_no_slash name fallback :
  no_slash fallback → no_slash (sanitize_export_path_component name fallback).
Proof.
  intros Hf. unfold sanitize_export_path_component. destruct (str_eqb _ ""); [done|].
  apply take_chars_Forall, trim_Forall. rewrite as_of_bytes.
  apply trim_matches_Forall, replace_unsafe_no_slash.
Qed.

Lemma sanitize_file_no_slash name : no_slash (sanitize_export_file_name name).
Proof. unfold sanitize_export_file_name. apply sanitize_no_slash. unfold no_slash. apply (bool_decide_unpack _). vm_compute. exact I. Qed.

(** ** Paths of the export directory *)

(** The text before the name in [root.join(name)]. *)
Definition dir_prefix (root : string) : string :=
  if str_eqb root "" || ends_with_slash root then root else root +:+ "/".

Lemma slashless_rootless n : no_slash n → has_root n = false.
Proof.
  intros Hn. apply not_true_is_false. intros [r ->]%starts_with_iff.
  apply no_slash_app in Hn as [Hn _]. by apply Forall_cons in Hn as [Hn _].
Qed.

Lemma path_join_prefix root n : no_slash n → path_join root n = dir_prefix root +:+ n.
Proof.
  intros Hn. unfold path_join, push_text, dir_prefix. rewrite slashless_rootless by done.
  destruct (_ || _); [done|]. by rewrite str_app_assoc.
Qed.

Definition slash_ended (s : string) : Prop := s = "" ∨ ends_with_slash s = true.
Lemma dir_prefix_ended root : slash_ended (dir_prefix root).
Proof.
  unfold dir_prefix, slash_ended. destruct (str_eqb root "") eqn:E; cbn [orb].
  { left. unfold str_eqb in E. by apply bool_decide_eq_true in E. }
  right. destruct (ends_with_slash root) eqn:S; [done|]. clear.
  induction root as [|c r IH]; [done|].
  change (String c r +:+ "/") with (String c (r +:+ "/")). destruct (r +:+ "/") eqn:D; [by destruct r|].
  exact IH.
Qed.

Lemma split_last s n :
  slash_ended s → no_slash n →
  ∃ l, split_on is_slash (s +:+ n) = l ++ [n] ∧ (s ≠ "" → l ≠ []).
Proof.
  intros Hs Hn. pose proof (split_on_none is_slash n (no_slash_forallb n Hn)) as Hone.
  induction s as [|c s IH].
  { exists []. split; [|done]. exact Hone. }
  change (String c s +:+ n) with (String c (s +:+ n)). cbn [split_on].
  destruct (decide (s = "")) as [->|Hne].
  { destruct Hs as [|Hs]; [done|]. cbn in Hs. rewrite Hs. exists [""].
    change ("" +:+ n) with n. by rewrite Hone. }
  destruct IH as (l & -> & Hl); [by right; destruct Hs as [|Hs]; [done|]; destruct s|].
  destruct (is_slash c).
  - exists ("" :: l). done.
  - destruct l as [|w l]; [by destruct Hl|]. by exists (String c w :: l).
Qed.

(** A lone [.] apart, the components come from the parts. *)
Lemma components_parts p :
  ∃ k, components p = k ++ omap component_of (split_on is_slash p) ∨
       ∃ parts, split_on is_slash p = "." :: parts ∧ components p = k ++ omap component_of parts.
Proof.
  unfold components. destruct (has_root p); [by exists [Component.RootDir]; left|].
  destruct (split_on is_slash p) as [|w parts] eqn:E; [by exists []; left|].
  destruct (decide (w = ".")) as [->|Hw]; [by exists [Component.CurDir]; right; exists parts|].
  exists []. left. destruct w as [|[[] [] [] [] [] [] [] []] []]; done.
Qed.

Lemma file_name_last p l n :
  split_on is_slash p = l ++ [n] → n ∉ [""; "."; ".."] → file_name p = Some n.
Proof.
  intros Hp Hn. unfold file_name.
  assert (Hc : ∀ k l, last (k ++ omap component_of (l ++ [n])) = Some (Component.Normal n)).
  { intros k l'. rewrite omap_app. cbn [omap list_omap]. unfold component_of at 2.
    unfold str_in, str_eqb. rewrite !bool_decide_eq_false_2 by set_solver.
    by rewrite app_assoc, last_snoc. }
  destruct (components_parts p) as (k & [->|(parts & Hd & ->)]); rewrite ?Hp; [by rewrite Hc|].
  rewrite Hp in Hd. destruct l as [|w l]; [cbn in Hd; set_solver|]. cbn in Hd. injection Hd as -> <-.
  by rewrite Hc.
Qed.

Lemma joined_parts root n :
  no_slash n → ∃ l, split_on is_slash (dir_prefix root +:+ n) = l ++ [n].
Proof.
  intros Hn. destruct (split_last (dir_prefix root) n (dir_prefix_ended root) Hn) as (l & ? & _).
  by exists l.
Qed.

Lemma names_directory_join root n :
  no_slash n → names_directory (dir_prefix root +:+ n) = str_in n [""; "."; ".."].
Proof.
  intros Hn. destruct (joined_parts root n Hn) as [l Hl]. unfold names_directory.
  by rewrite Hl, last_snoc.
Qed.
Lemma file_name_join root n : plain n → file_name (dir_prefix root +:+ n) = Some n.
Proof.
  intros [Hn Hd]. destruct (joined_parts root n Hn) as [l Hl]. by eapply file_name_last.
Qed.

(** ** Stem and extension *)

(** The name is its stem, a dot and its extension; without an extension it is the stem. *)
Lemma stem_extension p n :
  file_name p = Some n →
  (∃ stem ext, file_stem p = Some stem ∧ extension p = Some ext ∧ n = stem +:+ "." +:+ ext) ∨
  (file_stem p = Some n ∧ extension p = None).
Proof.
  intros Hn. unfold file_stem, extension. rewrite Hn. cbn.
  destruct (split_once "." (str_rev n)) as [[ext stem]|] eqn:E; [|by right].
  destruct (decide (stem = "")) as [->|Hs]; [by right|]. left.
  exists (str_rev stem), (str_rev ext).
  assert (Hm : ∀ {A} (a : A) b, match stem with "" => a | String _ _ => b end = b) by (by destruct stem).
  rewrite !Hm. split; [done|]. split; [done|].
  apply split_once_Some in E. rewrite <-(str_rev_involutive n), E, !str_rev_app.
  by rewrite str_app_assoc.
Qed.

(** A path that ends in a plain name has no tail to drop. *)
Lemma strip_tail_plain fuel s n : plain n → strip_tail fuel (s +:+ n) = s +:+ n.
Proof.
  intros [Hn Hd]. destruct fuel as [|fuel]; [done|]. cbn [strip_tail]. unfold no_slash in Hn.
  destruct (as_bytes n) as [|b l _] eqn:En using rev_ind.
  { apply (f_equal of_bytes) in En. rewrite of_as_bytes in En. subst n. set_solver. }
  apply Forall_app in Hn as [Hl [Hb _]%Forall_cons].
  destruct (strip_suffix "/" (s +:+ n)) as [q|] eqn:E1.
  { apply strip_suffix_Some, (f_equal as_bytes) in E1. rewrite !as_bytes_app, En, app_assoc in E1.
    apply app_inj_tail in E1 as [_ ->]. by destruct Hb. }
  destruct (strip_suffix "/." (s +:+ n)) as [q|] eqn:E2; [|done].
  apply strip_suffix_Some, (f_equal as_bytes) in E2. rewrite !as_bytes_app, En, app_assoc in E2.
  change (as_bytes "/.") with ([byte_of_Z 47] ++ [byte_of_Z 46]) in E2. rewrite app_assoc in E2.
  apply app_inj_tail in E2 as [E2 ->]. destruct l as [|c l _] using rev_ind.
  - apply (f_equal of_bytes) in En. rewrite of_as_bytes in En. subst n. destruct Hd. vm_compute. set_solver.
  - apply Forall_app in Hl as [_ [Hc _]%Forall_cons]. rewrite app_assoc in E2.
    apply app_inj_tail in E2 as [_ ->]. by destruct Hc.
Qed.

(** [with_extension(format!("{ext.}part"))] adds [.part]. *)
Definition part_extension (p : string) : string :=
  match extension p with Some ext => ext +:+ "." | None => "" end +:+ "part".
Lemma temp_path_part root n :
  plain n →
  with_extension (dir_prefix root +:+ n) (part_extension (dir_prefix root +:+ n))
  = dir_prefix root +:+ (n +:+ ".part").
Proof.
  intros Hn. pose proof (file_name_join root n Hn) as Hf. unfold with_extension, part_extension.
  assert (Hs : strip_suffix n (dir_prefix root +:+ n) = Some (dir_prefix root)) by by apply strip_suffix_Some.
  rewrite Hf, strip_tail_plain by done. destruct (stem_extension _ _ Hf) as [(stem & ext & -> & -> & E)|[-> ->]]; rewrite Hs.
  - rewrite E. by rewrite !str_app_assoc.
  - done.
Qed.

(** A name with a character that is no dot is neither empty nor [.] or [..]. *)
Lemma plain_intro n b : no_slash n → b ∈ as_bytes n → Z_of_byte b ≠ 46 → plain n.
Proof.
  intros Hn Hb Hd. split; [done|]. rewrite !elem_of_cons, elem_of_nil.
  intros [->|[->|[->|[]]]]; vm_compute in Hb; set_solver.
Qed.
Lemma plain_part n : plain n → plain (n +:+ ".part").
Proof.
  intros [Hn _]. apply (plain_intro _ (byte_of_Z 112)); [|rewrite as_bytes_app, elem_of_app; right; vm_compute; set_solver|done].
  apply no_slash_app. split; [done|]. by repeat constructor.
Qed.

(** ** Numbered names *)

Lemma no_slash_pretty (k : nat) : no_slash (pretty k).
Proof.
  change (pretty k) with (pretty (N.of_nat k)).
  destruct (pretty_spell (N.of_nat k)) as (ds & E & [Hd _] & _).
  unfold no_slash. rewrite E. apply Forall_map, Forall_reverse. eapply Forall_impl; [exact Hd|].
  intros d Hd'. cbn. rewrite digit_byte_Z by done. unfold is_digit in Hd'. lia.
Qed.

Lemma file_name_own n : no_slash n → file_name n = if str_in n [""; "."; ".."] then None else Some n.
Proof.
  intros Hn. destruct (str_in n [""; "."; ".."]) eqn:E; unfold str_in in E.
  - apply bool_decide_eq_true in E. rewrite !elem_of_cons, elem_of_nil in E.
    by destruct E as [->|[->|[->|[]]]].
  - apply bool_decide_eq_false in E. apply (file_name_last _ []); [|done].
    apply split_on_none, no_slash_forallb, Hn.
Qed.

Lemma numbered_shape n :
  no_slash n → ∃ stem tail, no_slash stem ∧ no_slash tail ∧
    ∀ idx, numbered_name n idx = stem +:+ "-" +:+ pretty idx +:+ tail.
Proof.
  intros Hn. unfold numbered_name.
  set (or_default stem := if str_eqb stem "" then "jackin-export" else stem).
  assert (Hs : ∀ stem, no_slash stem → no_slash (or_default stem))
    by (intros stem ?; unfold or_default; destruct (str_eqb stem ""); [by repeat constructor|done]).
  pose proof (file_name_own n Hn) as Hf. destruct (str_in n _).
  { unfold file_stem, extension. rewrite Hf. cbn.
    exists "jackin-export", "". split_and!; [by repeat constructor..|]. intros idx. by rewrite str_app_nil. }
  destruct (stem_extension n n Hf) as [(stem & ext & -> & -> & E)|[-> ->]].
  - rewrite E in Hn. apply no_slash_app in Hn as [Hst [Hdot Hext]%no_slash_app].
    exists (or_default stem). destruct (str_eqb ext "").
    + exists "". split_and!; [by apply Hs|by constructor|]. intros idx. by rewrite str_app_nil.
    + exists ("." +:+ ext). split_and!; [by apply Hs|by apply no_slash_app|done].
  - exists (or_default n), "". split_and!; [by apply Hs|by constructor|].
    intros idx. by rewrite str_app_nil.
Qed.

Lemma numbered_plain n idx : no_slash n → plain (numbered_name n idx).
Proof.
  intros Hn. destruct (numbered_shape n Hn) as (stem & tail & Hs & Ht & ->).
  apply (plain_intro _ (byte_of_Z 45)); [|rewrite as_bytes_app, elem_of_app; right; by left|done].
  rewrite !no_slash_app. pose proof (no_slash_pretty idx). split_and!; try done. by repeat constructor.
Qed.

Lemma str_app_inv_l (a b c : string) : a +:+ b = a +:+ c → b = c.
Proof. induction a as [|x a IH]; [done|]. intros [= H]. by apply IH. Qed.
Lemma str_app_inv_r (a b c : string) : a +:+ c = b +:+ c → a = b.
Proof.
  intros H. apply (f_equal str_rev) in H. rewrite !str_rev_app in H. apply str_app_inv_l in H.
  by rewrite <-(str_rev_involutive a), H, str_rev_involutive.
Qed.

Lemma numbered_inj root n i j :
  no_slash n → path_join root (numbered_name n i) = path_join root (numbered_name n j) → i = j.
Proof.
  intros Hn. rewrite !path_join_prefix by by apply numbered_plain.
  intros H%str_app_inv_l. destruct (numbered_shape n Hn) as (stem & tail & _ & _ & E).
  rewrite !E in H. do 2 apply str_app_inv_l in H. apply str_app_inv_r in H.
  by apply (inj pretty) in H.
Qed.

(** ** Asking whether a path exists *)

(** Every such question is answered. *)
Definition steady (d : Disk) : Prop := Forall (eq true) (stat_answers d).
Record same_files (d d' : Disk) : Prop := {
  same_entries : entries d' = entries d;
  same_contents : contents d' = contents d;
  same_next : next_ino d' = next_ino d;
  same_io : io_answers d' = io_answers d;
  same_steady : steady d → steady d';
}.
#[global] Instance same_files_refl : Reflexive same_files.
Proof. intros d. by split. Qed.
#[global] Instance same_files_trans : Transitive same_files.
Proof. intros d1 d2 d3 [] []. split; [congruence..|naive_solver]. Qed.

Lemma same_resolves d d' p : same_files d d' → resolves d' p = resolves d p.
Proof. intros [He Hc _ _ _]. unfold resolves, file_at. by rewrite He, Hc. Qed.

Lemma path_exists_spec d p :
  same_files d (path_exists d p).2 ∧
  ((path_exists d p).1 = true → resolves d p = true) ∧
  (steady d → (path_exists d p).1 = resolves d p).
Proof.
  unfold path_exists, next_stat, steady. destruct d as [e c n io [|a st]]; cbn; [done|].
  split_and!; [split; cbn; try done; unfold steady; cbn; by intros [_ ?]%Forall_cons| |].
  - by intros [_ ?]%andb_prop.
  - by intros [<- _]%Forall_cons.
Qed.

(** With no failures scripted the disk does not change at all. *)
Lemma path_exists_quiet e c n io p :
  path_exists (mk_disk e c n io []) p = (resolves (mk_disk e c n io []) p, mk_disk e c n io []).
Proof. done. Qed.

(** ** A free path is found *)

Lemma numbered_exists d root n idx :
  no_slash n → resolves d (path_join root (numbered_name n idx)) = true →
  path_join root (numbered_name n idx) ∈ dom (entries d).
Proof.
  intros Hn. pose proof (numbered_plain n idx Hn) as [Hs Hp]. unfold resolves, file_at.
  rewrite path_join_prefix by done. rewrite names_directory_join by done.
  rewrite orb_true_iff. intros [He%bool_decide_eq_true|He%bool_decide_eq_true]; [|done].
  destruct (entries d !! _) as [ino|] eqn:E; [by eapply elem_of_dom_2|]. by destruct He.
Qed.

(** The candidates the search has passed are files of the disk. *)
Lemma numbered_path_none fuel idx root n d d' :
  no_slash n → numbered_path fuel idx root n d = (None, d') →
  Forall (λ k, path_join root (numbered_name n k) ∈ dom (entries d)) (seq idx fuel).
Proof.
  intros Hn. revert idx d. induction fuel as [|fuel IH]; intros idx d; [by constructor|]. cbn.
  destruct (path_exists_spec d (path_join root (numbered_name n idx))) as (Hsame & Ht & _).
  destruct (path_exists d _) as [[] d1]; [|done]. cbn in *. intros Hf.
  constructor; [by apply numbered_exists, Ht|]. rewrite <-(same_entries _ _ Hsame). by apply IH.
Qed.
Lemma numbered_path_found idx root n d :
  no_slash n → ∃ p d', numbered_path (S (size (entries d))) idx root n d = (Some p, d').
Proof.
  intros Hn. destruct (numbered_path _ _ _ _ _) as [[p|] d'] eqn:E; [by exists p, d'|].
  pose proof (numbered_path_none _ _ _ _ _ _ Hn E) as Hall. exfalso.
  set (ps := (λ k, path_join root (numbered_name n k)) <$> seq idx (S (size (entries d)))).
  assert (Hnd : NoDup ps).
  { apply NoDup_fmap_2; [|apply NoDup_ListNoDup, seq_NoDup]. intros i j. by apply numbered_inj. }
  assert (Hle : (size (list_to_set (C := gset string) ps) ≤ size (dom (entries d)))%nat).
  { apply subseteq_size. intros p. rewrite elem_of_list_to_set. unfold ps. rewrite list_elem_of_fmap.
    intros (k & -> & Hk). rewrite Forall_forall in Hall. by apply Hall. }
  rewrite size_list_to_set, size_dom in Hle by done. unfold ps in Hle.
  rewrite length_fmap, length_seq in Hle. lia.
Qed.

(** The path is free if the questions were answered, and names an entry of the directory. *)
Lemma numbered_path_some fuel idx root n d p d' :
  no_slash n → numbered_path fuel idx root n d = (Some p, d') →
  same_files d d' ∧ (steady d → resolves d p = false) ∧ ∃ m, p = dir_prefix root +:+ m ∧ plain m.
Proof.
  intros Hn. revert idx d. induction fuel as [|fuel IH]; intros idx d; [done|]. cbn.
  destruct (path_exists_spec d (path_join root (numbered_name n idx))) as (Hsame & _ & Hf).
  destruct (path_exists d _) as [[] d1]; cbn in *.
  - intros (Hs & Hfree & Hm)%IH. split_and!; [by etrans| |done].
    intros Hd. rewrite <-(same_resolves _ _ _ Hsame). by apply Hfree, (same_steady _ _ Hsame).
  - intros [= <- <-]. split_and!; [done|intros Hd; by rewrite <-Hf|].
    exists (numbered_name n idx). pose proof (numbered_plain n idx Hn) as Hp.
    split; [|done]. apply path_join_prefix, Hp.
Qed.

Lemma unique_path_found root n d :
  no_slash n → ∃ m d', unique_export_path root n d = (Some (dir_prefix root +:+ m), d') ∧
    same_files d d' ∧ (steady d → plain m ∧ resolves d (dir_prefix root +:+ m) = false).
Proof.
  intros Hn. unfold unique_export_path.
  destruct (path_exists_spec d (path_join root n)) as (Hsame & _ & Hf).
  destruct (path_exists d _) as [[] d1]; cbn in *.
  - destruct (numbered_path_found 1 root n d1 Hn) as (p & d' & Hp).
    destruct (numbered_path_some _ _ _ _ _ _ _ Hn Hp) as (Hs & Hfree & m & -> & Hm).
    exists m, d'. split_and!; [done|by etrans|]. intros Hd. split; [done|].
    rewrite <-(same_resolves _ _ _ Hsame). by apply Hfree, (same_steady _ _ Hsame).
  - rewrite path_join_prefix in * by done. exists n, d1. split_and!; [done..|].
    intros Hd. specialize (Hf Hd). split; [|done]. split; [done|].
    symmetry in Hf. apply orb_false_iff in Hf as [_ Hf]. rewrite names_directory_join in Hf by done.
    by apply bool_decide_eq_false in Hf.
Qed.
