(* ===== verification/ExportProofs.v ===== *)
(** * Exports stay in their directory

    Whatever a container sends, the files of the host are untouched and new ones lie
    in the export directory; an export that is sent whole arrives whole. *)

From stdpp Require Import base list gmap strings fin_maps.
From Stdlib Require Import ZArith Lia Bool.
From S2P Require Import Prelude OrderedMap AttachTypes AttachCodec Clipboard WorkflowVerify Paths FileExport ExportPaths.

#[local] Open Scope Z_scope.

Section ExportProofs.
Context `{Sha256}.

(** ** Runs that keep an invariant *)

(** The run neither panics nor leaves the invariant; a [calm] run does not fail either. *)
Definition safe {A} (I : Exports → Prop) (m : X A) (s : Exports) : Prop :=
  ∃ r s', m s = (r, s') ∧ r ≠ Panic ∧ I s'.
Definition calm {A} (I : Exports → Prop) (m : X A) (s : Exports) : Prop :=
  ∃ a s', m s = (Ok a, s') ∧ I s'.

Lemma calm_safe {A} I (m : X A) s : calm I m s → safe I m s.
Proof. intros (a & s' & E & Hs). by exists (Ok a), s'. Qed.
Lemma calm_ret {A} (I : Exports → Prop) (a : A) s : I s → calm I (mret a) s.
Proof. by exists a, s. Qed.
Lemma safe_res {A} (I : Exports → Prop) (r : res A) s : r ≠ Panic → I s → safe I (x_res r) s.
Proof. by exists r, s. Qed.

Lemma safe_bind {A B} I (m : X A) (f : A → X B) s :
  safe I m s → (∀ a s', m s = (Ok a, s') → I s' → safe I (f a) s') → safe I (m ≫= f) s.
Proof.
  intros (r & s' & E & Hr & Hs) Hf. unfold safe, mbind, x_bind. rewrite E. destruct r as [a|e|]; [by apply Hf| |done].
  by exists (Err e), s'.
Qed.
Lemma calm_bind {A B} I (m : X A) (f : A → X B) s :
  calm I m s → (∀ a s', m s = (Ok a, s') → I s' → calm I (f a) s') → calm I (m ≫= f) s.
Proof. intros (a & s' & E & Hs) Hf. unfold calm, mbind, x_bind. rewrite E. by apply Hf. Qed.

(** ** The host's files are kept *)

Context (download_dir home : option string) (subdir : string) (d0 : Disk).
Context (Hinos : ∀ p ino, entries d0 !! p = Some ino → ino < next_ino d0).

Definition export_name (p : string) : Prop :=
  ∃ root m, host_file_export_root download_dir home subdir = Ok root ∧
            p = dir_prefix root +:+ m ∧ plain m.

(** A path of the export directory that was free when the session began, and one that
    led to no file. *)
Definition fresh_name (p : string) : Prop := export_name p ∧ p ∉ dom (entries d0).
Definition open_name (p : string) : Prop := export_name p ∧ file_at d0 p = None.

Record names_kept (d : Disk) : Prop := {
  kept_steady : steady d;
  kept_dom : dom (entries d0) ⊆ dom (entries d);
  kept_file p ino : entries d0 !! p = Some ino → is_Some (contents d0 !! ino) → entries d !! p = Some ino;
  kept_changed p : entries d !! p ≠ entries d0 !! p → export_name p;
}.
Record kept (d : Disk) : Prop := {
  kept_contents ino : ino < next_ino d0 → contents d !! ino = contents d0 !! ino;
  kept_next : next_ino d0 ≤ next_ino d;
  kept_names : steady d0 → names_kept d;
}.
Definition fresh_export (a : ActiveHostFileExport) : Prop :=
  next_ino d0 ≤ ax_file a ∧ (steady d0 → open_name (ax_final_path a) ∧ fresh_name (ax_temp_path a)).
Definition confined (s : Exports) : Prop :=
  kept (disk s) ∧ ∀ id a, active s !! id = Some a → fresh_export a.

Lemma kept_ext d d' :
  entries d' = entries d → contents d' = contents d → next_ino d' = next_ino d →
  (steady d → steady d') → kept d → kept d'.
Proof.
  intros He Hc Hn Hst [Hk1 Hk2 Hk3]. split; rewrite ?Hc, ?Hn; [done..|].
  intros [? ? ? ?]%Hk3. by split; rewrite ?He; [apply Hst|..].
Qed.

Lemma next_io_fields d :
  entries (next_io d).2 = entries d ∧ contents (next_io d).2 = contents d ∧
  next_ino (next_io d).2 = next_ino d ∧ (steady d → steady (next_io d).2).
Proof. unfold next_io. by destruct (io_answers d). Qed.

Lemma confined_io s d' :
  entries d' = entries (disk s) → contents d' = contents (disk s) → next_ino d' = next_ino (disk s) →
  (steady (disk s) → steady d') → confined s → confined (mk_exports (active s) d').
Proof. intros ???? [Hk Ha]. split; [by eapply kept_ext|done]. Qed.

Lemma calm_on_disk {A} (f : Disk → A * Disk) s :
  confined (mk_exports (active s) (f (disk s)).2) → calm confined (on_disk f) s.
Proof. intros Hs. unfold calm, on_disk. destruct (f (disk s)) as [a d]. by exists a, (mk_exports (active s) d). Qed.
Lemma calm_next_io s : confined s → calm confined (on_disk next_io) s.
Proof.
  intros Hs. apply calm_on_disk. destruct (next_io_fields (disk s)) as (? & ? & ? & ?). by apply confined_io.
Qed.
Lemma safe_call what s : confined s → safe confined (call what) s.
Proof.
  intros Hs. apply safe_bind; [by apply calm_safe, calm_next_io|]. intros [|n] s' _ Hs'; by apply safe_res.
Qed.
Lemma safe_get_active id s : confined s → calm confined (get_active id) s.
Proof. by exists (active s !! id), s. Qed.
Lemma calm_set_active f s :
  confined (mk_exports (f (active s)) (disk s)) → calm confined (set_active f) s.
Proof. by exists (), (mk_exports (f (active s)) (disk s)). Qed.

Lemma confined_insert id a s :
  confined s → fresh_export a → confined (mk_exports (<[id := a]> (active s)) (disk s)).
Proof.
  intros [Hk Ha] Hn. split; [done|]. intros j b. cbn. rewrite lookup_insert_Some. naive_solver.
Qed.
Lemma confined_delete id s : confined s → confined (mk_exports (delete id (active s)) (disk s)).
Proof. intros [Hk Ha]. split; [done|]. intros j b. cbn. rewrite lookup_delete_Some. naive_solver. Qed.

(** Removing or adding a name, and changing new files. *)
Lemma kept_delete p e c n io st :
  kept (mk_disk e c n io st) → (steady d0 → fresh_name p) → kept (mk_disk (delete p e) c n io st).
Proof.
  intros [Hc Hn Hw] Hp. cbn in *. split; cbn; [done..|]. intros Hst.
  destruct (Hw Hst) as [Hs Hd Hf Hx], (Hp Hst) as [Hpe Hpd]. cbn in *. split; cbn; [done|set_solver| |].
  - intros q ino Hq Hi. rewrite lookup_delete_ne; [by apply Hf|]. intros ->. apply Hpd. by eapply elem_of_dom_2.
  - intros q. destruct (decide (p = q)) as [<-|]; [done|]. rewrite lookup_delete_ne by done. apply Hx.
Qed.
Lemma kept_insert p ino e c n io st :
  kept (mk_disk e c n io st) → (steady d0 → open_name p) → kept (mk_disk (<[p := ino]> e) c n io st).
Proof.
  intros [Hc Hn Hw] Hp. cbn in *. split; cbn; [done..|]. intros Hst.
  destruct (Hw Hst) as [Hs Hd Hf Hx], (Hp Hst) as [Hpe Hpd]. cbn in *. split; cbn; [done|set_solver| |].
  - intros q i Hq Hi. rewrite lookup_insert_ne; [by apply Hf|]. intros ->. unfold file_at in Hpd.
    rewrite Hq in Hpd. cbn in Hpd. rewrite Hpd in Hi. by destruct Hi.
  - intros q. destruct (decide (p = q)) as [<-|]; [done|]. rewrite lookup_insert_ne by done. apply Hx.
Qed.
Lemma kept_change c' n' e c n io st :
  kept (mk_disk e c n io st) → (∀ ino, ino < next_ino d0 → c' !! ino = c !! ino) → n ≤ n' →
  kept (mk_disk e c' n' io st).
Proof.
  intros [Hc Hn Hw] Hsame Hle. cbn in *. split; cbn; [|lia|].
  - intros ino Hi. rewrite Hsame by done. by apply Hc.
  - by intros [? ? ? ?]%Hw.
Qed.
Lemma fresh_open p : fresh_name p → open_name p.
Proof. intros [He Hd]. split; [done|]. unfold file_at. by rewrite (not_elem_of_dom_1 _ _ Hd). Qed.

Lemma untaken_fresh d p : kept d → taken d p = false → steady d0 → p ∉ dom (entries d0).
Proof.
  intros Hk E Hst Hd. apply orb_false_iff in E as [E _]. apply bool_decide_eq_false in E.
  apply E, elem_of_dom, (kept_dom _ (kept_names _ Hk Hst)), Hd.
Qed.
Lemma unresolved_open d p : kept d → resolves d p = false → steady d0 → file_at d0 p = None.
Proof.
  intros Hk E Hst. apply orb_false_iff in E as [E _]. apply bool_decide_eq_false in E.
  unfold file_at in *. destruct (entries d0 !! p) as [ino|] eqn:Hp; [|done]. cbn.
  destruct (contents d0 !! ino) as [bs|] eqn:Hb; [|done]. exfalso. apply E.
  rewrite (kept_file _ (kept_names _ Hk Hst) p ino Hp) by done. cbn.
  rewrite (kept_contents _ Hk) by by eapply Hinos. by rewrite Hb.
Qed.

(** ** The operations *)

Lemma safe_create_new p s :
  confined s → (steady d0 → export_name p) → safe confined (create_new p) s.
Proof.
  intros Hs Hp. apply safe_bind; [by apply safe_call|]. intros _ s1 _ H1.
  apply safe_bind; [by exists (Ok (disk s1)), s1|]. intros d s2 [= <- <-] _.
  destruct (taken (disk s1) p) eqn:E; [by apply safe_res|].
  apply calm_safe, calm_on_disk. destruct H1 as [Hk Ha]. split; [|exact Ha]. cbn.
  pose proof (untaken_fresh _ _ Hk E). pose proof (kept_next _ Hk). destruct (disk s1) as [e c n io st]. cbn in *.
  eapply kept_change; [apply kept_insert; [done|]| |lia].
  - intros Hst. by apply fresh_open; split; auto.
  - intros ino Hi. apply lookup_insert_ne. lia.
Qed.

(** The file that [create_new] made is new, and so is its name. *)
Lemma create_new_fresh p s ino s' :
  confined s → create_new p s = (Ok ino, s') →
  next_ino d0 ≤ ino ∧ (steady d0 → p ∉ dom (entries d0)).
Proof.
  intros Hs. destruct (safe_call "creating temporary host export file" s Hs) as (r & s1 & E & _ & [Hk _]).
  unfold create_new. unfold mbind at 1, x_bind at 1. rewrite E. destruct r; [|done..].
  unfold mbind, x_bind, get_disk. destruct (taken (disk s1) p) eqn:Ep; [done|]. intros [= <- <-].
  split; [apply (kept_next _ Hk)|by eapply untaken_fresh].
Qed.

Lemma safe_write_at ino offset bs s :
  confined s → next_ino d0 ≤ ino → safe confined (write_at ino offset bs) s.
Proof.
  intros Hs Hi. apply safe_bind; [by apply calm_safe, calm_next_io|]. intros a s1 _ [Hk Ha].
  apply safe_bind.
  - apply calm_safe, calm_on_disk. split; [|exact Ha]. cbn. destruct (disk s1).
    eapply kept_change; [done| |cbn; lia]. intros j Hj. apply lookup_alter_ne. lia.
  - intros _ s2 _ H2. apply safe_res; [by destruct a|done].
Qed.

Lemma safe_rename from to s :
  confined s → (steady d0 → open_name to ∧ fresh_name from) → safe confined (rename from to) s.
Proof.
  intros Hs Hn. apply safe_bind; [by apply safe_call|]. intros _ s1 _ H1.
  apply safe_bind; [by exists (Ok (disk s1)), s1|]. intros d s2 [= <- <-] _.
  destruct (entries (disk s1) !! from) as [ino|]; [|by apply safe_res].
  destruct (names_directory to); [by apply safe_res|].
  apply calm_safe, calm_on_disk. destruct H1 as [Hk Ha]. split; [|exact Ha]. cbn.
  destruct (disk s1). apply kept_insert; [apply kept_delete; [done|]|]; intros Hst; by destruct (Hn Hst).
Qed.

Lemma calm_remove p s :
  confined s → (steady d0 → fresh_name p) → calm confined (remove_export_file p) s.
Proof.
  intros Hs Hp. apply calm_bind; [by apply calm_next_io|]. intros [|n] s1 _ H1; [|by apply calm_ret].
  apply calm_on_disk. destruct H1 as [Hk Ha]. split; [|exact Ha]. destruct (disk s1). by apply kept_delete.
Qed.

Lemma calm_abort id s : confined s → calm confined (export_abort id) s.
Proof.
  intros Hs. apply calm_bind; [by apply safe_get_active|]. intros o s1 [= <- <-] _.
  destruct (active s !! id) as [a|] eqn:Ea; [|by apply calm_ret].
  destruct (proj2 Hs _ _ Ea) as [_ Ht].
  apply calm_bind; [by apply calm_set_active, confined_delete|]. intros _ s2 _ H2.
  apply calm_remove; [done|]. intros Hst. by apply Ht.
Qed.
Lemma calm_abort_all ids s : confined s → calm confined (abort_all ids) s.
Proof.
  revert s. induction ids as [|id ids IH]; intros s Hs; [by apply calm_ret|].
  apply calm_bind; [by apply calm_abort|]. intros _ s1 _ H1. by apply IH.
Qed.

Lemma export_root_total : host_file_export_root download_dir home subdir ≠ Panic.
Proof. unfold host_file_export_root. by repeat case_match. Qed.

Lemma safe_start now st s :
  confined s → safe confined (export_start download_dir home subdir now st) s.
Proof.
  intros Hs. unfold export_start. apply safe_bind; [apply safe_res; [apply export_root_total|done]|].
  intros root s' [= Hroot <-] _.
  apply safe_bind; [by apply calm_safe, safe_get_active|]. intros o s1 [= <- <-] _.
  destruct (active s !! es_transfer_id st); [by apply safe_res|].
  apply safe_bind; [by apply safe_call|]. intros _ s1 _ H1.
  destruct (unique_path_found root (sanitize_export_file_name (es_file_name st)) (disk s1))
    as (m & d' & Hu & Hsame & Hm); [apply sanitize_file_no_slash|].
  apply safe_bind.
  { apply calm_safe, calm_on_disk. rewrite Hu. by destruct Hsame; apply confined_io. }
  intros found s2 E2 H2. unfold on_disk in E2. rewrite Hu in E2. injection E2 as <- <-.
  apply safe_bind; [by apply safe_res|]. intros final s3 [= <- <-] _.
  assert (Hst : steady d0 → plain m ∧ resolves (disk s1) (dir_prefix root +:+ m) = false).
  { intros Hst. apply Hm, (kept_steady _ (kept_names _ (proj1 H1) Hst)). }
  apply safe_bind.
  { apply safe_create_new; [done|]. intros [Hp _]%Hst.
    pose proof (temp_path_part root m Hp) as Ht. unfold part_extension in Ht. rewrite Ht.
    exists root, (m +:+ ".part"). split_and!; [done..|by apply plain_part]. }
  intros ino s3 E H3. apply create_new_fresh in E as [Hino Hfree']; [|done].
  apply calm_safe, calm_set_active, confined_insert; [done|]. split; [done|]. cbn. intros Hs0.
  destruct (Hst Hs0) as [Hp Hfree]. specialize (Hfree' Hs0).
  pose proof (temp_path_part root m Hp) as Ht. unfold part_extension in Ht. rewrite Ht in *.
  split; split; [by exists root, m|by eapply unresolved_open; [apply H1|..]| |done].
  exists root, (m +:+ ".part"). split_and!; [done..|by apply plain_part].
Qed.

Lemma ensure_total c fmt : ensure c fmt ≠ Panic.
Proof. by destruct c. Qed.

Lemma safe_chunk now c s : confined s → safe confined (export_chunk now c) s.
Proof.
  intros Hs. apply safe_bind; [by apply calm_safe, safe_get_active|]. intros o s1 [= <- <-] _.
  destruct (active s !! ec_transfer_id c) as [a|] eqn:Ea; [|by apply safe_res].
  pose proof (proj2 Hs _ _ Ea) as Ha.
  do 3 (apply safe_bind; [by apply safe_res; [apply ensure_total|]|]; intros _ ? [= _ <-] _).
  apply safe_bind; [by apply safe_call|]. intros _ s2 _ H2.
  apply safe_bind; [by apply safe_write_at; [|apply Ha]|]. intros _ s3 _ H3.
  by apply calm_safe, calm_set_active, confined_insert.
Qed.

Lemma safe_end e s : confined s → safe confined (export_end e) s.
Proof.
  intros Hs. apply safe_bind; [by apply calm_safe, safe_get_active|]. intros o s1 [= <- <-] _.
  destruct (active s !! ee_transfer_id e) as [a|] eqn:Ea; [|by apply safe_res].
  destruct (proj2 Hs _ _ Ea) as [_ Hn].
  assert (Ht : steady d0 → fresh_name (ax_temp_path a)) by (intros Hst; by apply Hn).
  apply safe_bind; [by apply calm_safe, calm_set_active, confined_delete|]. intros _ s1 _ H1.
  destruct (negb (ax_written a =? ax_expected_size a)).
  { apply safe_bind; [by apply calm_safe, calm_remove|]. intros _ s2 _ H2. by apply safe_res. }
  apply safe_bind; [by apply safe_call|]. intros _ s2 _ H2.
  apply safe_bind; [by apply safe_call|]. intros _ s3 _ H3.
  destruct (negb _).
  { apply safe_bind; [by apply calm_safe, calm_remove|]. intros _ s4 _ H4. by apply safe_res. }
  apply safe_bind; [by apply safe_rename|]. intros _ s4 _ H4. by apply calm_safe, calm_ret.
Qed.

Lemma calm_or_reject {A} (m : X A) ok cleanup s :
  safe confined m s → (∀ s, confined s → calm confined cleanup s) →
  calm confined (or_reject m ok cleanup) s.
Proof.
  intros (r & s' & E & Hr & Hs) Hc. unfold calm, or_reject. rewrite E. destruct r as [a|e|]; [|  |done].
  - by exists (ok a), s'.
  - apply calm_bind; [by apply Hc|]. intros _ s1 _ H1. by apply calm_ret.
Qed.

Lemma calm_handle now ev s :
  confined s → calm confined (handle_export download_dir home subdir now ev) s.
Proof.
  intros Hs. destruct ev as [st|c|e|]; cbn.
  - apply calm_or_reject; [by apply safe_start|]. intros. by apply calm_ret.
  - apply calm_or_reject; [by apply safe_chunk|]. intros. by apply calm_abort.
  - apply calm_or_reject; [by apply safe_end|]. intros. by apply calm_ret.
  - apply calm_bind; [|intros; by apply calm_ret].
    apply (calm_bind _ (abort_all _)); [by apply calm_abort_all|]. intros. by apply calm_ret.
Qed.
Lemma calm_run evs s : confined s → calm confined (run_exports download_dir home subdir evs) s.
Proof.
  revert s. induction evs as [|[now ev] evs IH]; intros s Hs; [by apply calm_ret|].
  apply calm_bind; [by apply calm_handle|]. intros n s1 _ H1.
  apply calm_bind; [by apply IH|]. intros. by apply calm_ret.
Qed.

Lemma calm_session evs s :
  confined s →
  calm confined (ns ← run_exports download_dir home subdir evs; _ ← drop_exports; mret ns) s.
Proof.
  intros Hs. apply calm_bind; [by apply calm_run|]. intros ns s1 _ H1.
  apply calm_bind; [by apply (calm_abort_all _ s1)|]. intros. by apply calm_ret.
Qed.

Lemma confined_init : confined (mk_exports ∅ d0).
Proof.
  split; [split; cbn; [done|lia|by split]|]. intros id a. cbn. by rewrite lookup_empty.
Qed.
End ExportProofs.

(** C15: Exports are confined to their directory.  Whatever frames a container sends,
    in any order and with any names, and whatever calls of the operating system fail,
    the client reports without panicking and the contents of every file the host
    had stay as they were.  As long as the system answers whether a path exists (a
    refusal counts as no), whatever other calls fail: every name that led to a
    file still leads to it, and every name that changed, a new one or a link that led
    nowhere, is an entry of the export directory itself.  The host has no other process
    that changes the directory meanwhile. *)
Theorem exports_confined `{Sha256} download_dir home subdir evs (d : Disk) :
  (∀ p ino, entries d !! p = Some ino → ino < next_ino d) →
  ∃ notices s,
    export_session download_dir home subdir evs d = (Ok notices, s) ∧
    (∀ ino, ino < next_ino d → contents (disk s) !! ino = contents d !! ino) ∧
    (Forall (eq true) (stat_answers d) →
     (∀ p ino, entries d !! p = Some ino → is_Some (contents d !! ino) →
        entries (disk s) !! p = Some ino) ∧
     (∀ p, entries (disk s) !! p ≠ entries d !! p →
        ∃ root name, host_file_export_root download_dir home subdir = Ok root ∧
          p = path_join root name ∧ no_slash name ∧ name ∉ [""; "."; ".."])).
Proof.
  intros Hd. destruct (calm_session download_dir home subdir d Hd evs _ (confined_init _ _ _ d))
    as (ns & s & E & [[Hc _ Hw] _]). exists ns, s. split_and!; [exact E|exact Hc|].
  intros Hst. destruct (Hw Hst) as [_ _ Hf Hx]. split; [exact Hf|].
  intros p (root & m & Hr & -> & Hm & Hdot)%Hx. exists root, m. by rewrite path_join_prefix.
Qed.
