(* ===== verification/ExportDelivery.v ===== *)
(** * What an export session leaves on the host

    While the operating system does what it is asked: a file sent whole arrives whole
    under a free name, and no temporary file outlives the session.  Two transfers
    whose names overlap can still replace each other's file, and a failed flush
    leaves a temporary file behind. *)

From stdpp Require Import base list gmap strings fin_maps.
From Stdlib Require Import ZArith Lia Bool.
From S2P Require Import Prelude OrderedMap AttachTypes AttachCodec AttachProofs Clipboard WorkflowVerify Paths FileExport ExportPaths ExportProofs.

#[local] Open Scope Z_scope.

Section Quiet.
Context `{Sha256}.

(** A state in which every call succeeds. *)
Definition quiet (act : gmap Z ActiveHostFileExport) (e : gmap string Z) (c : gmap Z bytes) (n : Z)
    : Exports := mk_exports act (mk_disk e c n [] []).

(** ** The operations when no call fails *)

Lemma numbered_path_quiet fuel root m e c n : ∀ idx,
  (numbered_path fuel idx root m (mk_disk e c n [] [])).2 = mk_disk e c n [] [].
Proof.
  induction fuel as [|fuel IH]; intros idx; [done|]. cbn [numbered_path]. rewrite path_exists_quiet.
  by destruct (resolves _ _).
Qed.
Lemma unique_path_quiet root m e c n :
  ∃ o, unique_export_path root m (mk_disk e c n [] []) = (o, mk_disk e c n [] []).
Proof.
  unfold unique_export_path. rewrite path_exists_quiet. destruct (resolves _ _); [|by eexists].
  pose proof (numbered_path_quiet (S (size e)) root m e c n 1) as Hq. cbn [entries].
  destruct (numbered_path _ _ _ _ _) as [o d]. cbn in Hq. subst d. by exists o.
Qed.
(** What is chosen is free, and not a name of a directory. *)
Lemma unique_path_free root m d final :
  no_slash m → stat_answers d = [] → (unique_export_path root m d).1 = Some final →
  file_at d final = None ∧ names_directory final = false ∧ ∃ k, final = dir_prefix root +:+ k ∧ plain k.
Proof.
  intros Hm Hst Hu. destruct (unique_path_found root m d Hm) as (k & d' & Hu' & _ & Hk).
  rewrite Hu' in Hu. injection Hu as <-. destruct Hk as [Hk Hr]; [unfold steady; by rewrite Hst|].
  apply orb_false_iff in Hr as [Hr Hd]. apply bool_decide_eq_false in Hr.
  split_and!; [by apply eq_None_not_Some|done|by exists k].
Qed.

Lemma start_quiet now root st final act e c n :
  act !! es_transfer_id st = None →
  (unique_export_path root (sanitize_export_file_name (es_file_name st)) (mk_disk e c n [] [])).1 = Some final →
  start_in_root now root st (quiet act e c n) =
  if taken (mk_disk e c n [] []) (final +:+ ".part")
  then (bail "creating temporary host export file", quiet act e c n)
  else (Ok (), quiet (<[es_transfer_id st :=
    mk_host_export (es_source_path st) (sanitize_export_file_name (es_file_name st)) final
      (final +:+ ".part") n (es_size st) 0 hasher_new (es_reveal_after_export st)
      (es_open_after_export st) now]> act) (<[final +:+ ".part" := n]> e) (<[n := []]> c) (n + 1)).
Proof.
  intros Ha Hu.
  destruct (unique_path_free root _ (mk_disk _ _ _ [] []) _ (sanitize_file_no_slash _) eq_refl Hu) as (_ & _ & m & -> & Hm).
  destruct (unique_path_quiet root (sanitize_export_file_name (es_file_name st)) e c n) as [o Ho].
  rewrite Ho in Hu. cbn in Hu. subst o.
  pose proof (temp_path_part root m Hm) as Ht. unfold part_extension in Ht.
  rewrite <-str_app_assoc in Ht.
  unfold start_in_root, mbind, x_bind, get_active, x_res. cbn [quiet active disk]. rewrite Ha.
  unfold call, mbind, x_bind, x_res, on_disk, get_disk. cbn [next_io io_answers disk active quiet].
  rewrite Ho, Ht. unfold create_new, call, mbind, x_bind, x_res, on_disk, get_disk.
  cbn [next_io io_answers disk active quiet]. by destruct (taken _ _).
Qed.

#[local] Ltac run_quiet :=
  unfold create_new, write_at, rename, remove_export_file, call, mbind, x_bind, mret, x_ret, x_res,
    on_disk, get_disk, get_active, set_active;
  cbn [next_io io_answers stat_answers disk active quiet entries contents next_ino].

Lemma chunk_quiet now ch a act e c n :
  act !! ec_transfer_id ch = Some a → ec_offset ch = ax_written a →
  ax_written a + blen (ec_bytes ch) ≤ ax_expected_size a ≤ U64_MAX →
  export_chunk now ch (quiet act e c n) =
  (Ok (), quiet (<[ec_transfer_id ch := with_written (ax_written a + blen (ec_bytes ch))
                     (hasher_update (ax_hasher a) (ec_bytes ch)) now a]> act)
            e (alter (overwrite (Z.to_nat (ax_written a)) (ec_bytes ch)) (ax_file a) c) n).
Proof.
  intros Ha Ho [Hb Hu]. unfold export_chunk. run_quiet. rewrite Ha, Ho, Z.eqb_refl.
  rewrite !(proj2 (Z.leb_le _ _)) by lia. done.
Qed.

(** The three outcomes of the end of a transfer. *)
Lemma end_quiet en a act e c n :
  act !! ee_transfer_id en = Some a →
  export_end en (quiet act e c n) =
  let act := delete (ee_transfer_id en) act in
  if negb (ax_written a =? ax_expected_size a) then
    (bail "file export transfer {} ended after {} bytes, expected {}",
     quiet act (delete (ax_temp_path a) e) c n)
  else if negb (bool_decide (hasher_finalize (ax_hasher a) = ee_sha256 en)) then
    (bail "file export transfer {} SHA-256 mismatch", quiet act (delete (ax_temp_path a) e) c n)
  else match e !! ax_temp_path a, names_directory (ax_final_path a) with
       | Some ino, false => (Ok (mk_completed (ax_final_path a) (ax_written a) (ax_reveal_after_export a)
                            (ax_open_after_export a)),
                      quiet act (<[ax_final_path a := ino]> (delete (ax_temp_path a) e)) c n)
       | _, _ => (bail "moving temporary host export into final destination", quiet act e c n)
       end.
Proof.
  intros Ha. unfold export_end. run_quiet. rewrite Ha. destruct (negb _); [done|].
  destruct (negb _); [done|].
  run_quiet. by destruct (e !! ax_temp_path a), (names_directory (ax_final_path a)).
Qed.

Lemma abort_quiet id act e c n :
  export_abort id (quiet act e c n) =
  (Ok (), match act !! id with
          | Some a => quiet (delete id act) (delete (ax_temp_path a) e) c n
          | None => quiet act e c n
          end).
Proof. unfold export_abort. run_quiet. by destruct (act !! id). Qed.

(** ** A file that is sent whole *)

Context (download_dir home : option string) (subdir : string).

Lemma run_exports_app evs1 evs2 s :
  run_exports download_dir home subdir (evs1 ++ evs2) s =
  (n1 ← run_exports download_dir home subdir evs1;
   n2 ← run_exports download_dir home subdir evs2; mret (n1 ++ n2)) s.
Proof.
  revert s. induction evs1 as [|[now ev] evs1 IH]; intros s; cbn [run_exports app].
  - unfold mbind, x_bind, mret, x_ret. by destruct (run_exports _ _ _ evs2 s) as [[] ?].
  - unfold mbind, x_bind, mret, x_ret in *. destruct (handle_export _ _ _ now ev s) as [[] ?]; [|done..].
    rewrite IH. destruct (run_exports _ _ _ evs1 _) as [[] ?]; [|done..].
    by destruct (run_exports _ _ _ evs2 _) as [[] ?].
Qed.

(** The chunks extend the file and the hash. *)
Definition received (a : ActiveHostFileExport) (cs : list bytes) (now : Z) : ActiveHostFileExport :=
  with_written (ax_written a + blen (concat cs)) (foldl hasher_update (ax_hasher a) cs) now a.

Lemma overwrite_end bs new : overwrite (length bs) new bs = bs ++ new.
Proof.
  unfold overwrite. rewrite take_ge, drop_ge by lia. by rewrite app_nil_r.
Qed.

Lemma alter_insert_some {A} (f : A → A) (m : gmap Z A) i x :
  m !! i = Some x → alter f i m = <[i := f x]> m.
Proof.
  intros Hi. apply map_eq. intros j. destruct (decide (i = j)) as [<-|].
  - by rewrite lookup_alter_eq, lookup_insert_eq, Hi.
  - by rewrite lookup_alter_ne, lookup_insert_ne.
Qed.

Fixpoint chunk_events (transfer_id offset : Z) (cs : list bytes) : list ExportEvent :=
  match cs with
  | [] => []
  | bs :: cs => EvChunk (mk_exp_chunk transfer_id offset bs)
                :: chunk_events transfer_id (offset + blen bs) cs
  end.
Lemma chunk_frames_events id cs : ∀ o, omap export_event (chunk_frames id o cs) = chunk_events id o cs.
Proof. induction cs as [|b cs IH]; intros o; [done|]. cbn. by rewrite IH. Qed.

Lemma chunks_run id cs : ∀ evs a bs act e c n,
  evs.*2 = chunk_events id (ax_written a) cs →
  act !! id = Some a → c !! ax_file a = Some bs → blen bs = ax_written a →
  ax_written a + blen (concat cs) ≤ ax_expected_size a ≤ U64_MAX →
  ∃ now, run_exports download_dir home subdir evs (quiet act e c n) =
    (Ok (replicate (length cs) Quiet),
     quiet (<[id := received a cs now]> act) e (<[ax_file a := bs ++ concat cs]> c) n).
Proof.
  induction cs as [|b cs IH]; intros evs a bs act e c n Hev Ha Hc Hl Hb.
  { destruct evs; [|done]. exists (ax_last_activity a). cbn. unfold received, with_written. cbn.
    rewrite Z.add_0_r, app_nil_r. destruct a; cbn in *. by rewrite !insert_id. }
  destruct evs as [|[now ev] evs]; [done|]. cbn in Hev. injection Hev as -> Hev.
  cbn [concat] in *. rewrite blen_app in Hb. pose proof (blen_nonneg (concat cs)).
  pose proof (chunk_quiet now (mk_exp_chunk id (ax_written a) b) a act e c n Ha eq_refl) as Hq.
  cbn [ec_bytes ec_transfer_id] in Hq. specialize (Hq ltac:(lia)).
  destruct (IH evs (with_written (ax_written a + blen b) (hasher_update (ax_hasher a) b) now a) (bs ++ b)
    (<[id := with_written (ax_written a + blen b) (hasher_update (ax_hasher a) b) now a]> act) e
    (<[ax_file a := bs ++ b]> c) n) as [now' Hrun].
  { exact Hev. } { by rewrite lookup_insert_eq. } { by rewrite lookup_insert_eq. }
  { cbn. rewrite blen_app. lia. } { cbn. lia. }
  exists now'. cbn [run_exports handle_export]. unfold or_reject, mbind, x_bind. rewrite Hq.
  replace (Z.to_nat (ax_written a)) with (length bs) by (rewrite <-Hl; unfold blen; lia).
  rewrite (alter_insert_some _ _ _ _ Hc), overwrite_end, Hrun. unfold mret, x_ret. cbn [replicate length].
  rewrite !insert_insert_eq. unfold received, with_written. cbn. rewrite blen_app, Z.add_assoc.
  by rewrite <-app_assoc.
Qed.

(** A start, its chunks and an end that agrees with them. *)
Lemma transfer_run root now now' st en cs final evs act e c n :
  host_file_export_root download_dir home subdir = Ok root →
  act !! es_transfer_id st = None → ee_transfer_id en = es_transfer_id st →
  es_size st = blen (concat cs) → ee_sha256 en = hasher_finalize (foldl hasher_update hasher_new cs) →
  es_size st ≤ U64_MAX →
  (unique_export_path root (sanitize_export_file_name (es_file_name st)) (mk_disk e c n [] [])).1 = Some final →
  taken (mk_disk e c n [] []) (final +:+ ".part") = false →
  evs.*2 = chunk_events (es_transfer_id st) 0 cs →
  run_exports download_dir home subdir ((now, EvStart st) :: evs ++ [(now', EvEnd en)]) (quiet act e c n)
  = (Ok (Quiet :: replicate (length cs) Quiet ++
         [Exported (mk_completed final (es_size st) (es_reveal_after_export st) (es_open_after_export st))]),
     quiet act (<[final := n]> e) (<[n := concat cs]> c) (n + 1)).
Proof.
  intros Hroot Hid Hen Hsize Hsha Hlen Hu Hpart Hev.
  pose proof (start_quiet now root st final act e c n Hid Hu) as Hst. rewrite Hpart in Hst.
  set (a := mk_host_export _ _ _ _ _ _ _ _ _ _ _) in Hst.
  destruct (chunks_run (es_transfer_id st) cs evs a [] (<[es_transfer_id st := a]> act)
    (<[final +:+ ".part" := n]> e) (<[n := []]> c) (n + 1)) as [now'' Hrun];
    [exact Hev|by rewrite lookup_insert_eq|by rewrite lookup_insert_eq|done|cbn; lia|].
  cbn [run_exports]. unfold mbind at 1, x_bind at 1.
  unfold handle_export, or_reject, export_start, mbind at 1, x_bind at 1, x_res. rewrite Hroot, Hst.
  unfold mbind, x_bind. rewrite run_exports_app. unfold mbind, x_bind. rewrite Hrun. cbn [run_exports handle_export].
  unfold or_reject, mbind, x_bind.
  rewrite (end_quiet _ (received a cs now'')) by by rewrite Hen, lookup_insert_eq.
  assert (Hfresh : e !! (final +:+ ".part") = None).
  { apply orb_false_iff in Hpart as [Hp _]. apply bool_decide_eq_false in Hp. by apply eq_None_not_Some. }
  destruct (unique_path_free root _ (mk_disk _ _ _ [] []) _ (sanitize_file_no_slash _) eq_refl Hu) as (_ & Hnd & _).
  cbn [received with_written ax_written ax_expected_size ax_hasher ax_temp_path ax_final_path a
    ax_reveal_after_export ax_open_after_export ax_file].
  rewrite Hen, Hsha, <-Hsize, Z.add_0_l, Z.eqb_refl, bool_decide_eq_true_2, lookup_insert_eq, Hnd by done.
  cbn [negb]. rewrite !insert_insert_eq, !delete_insert_id by done. done.
Qed.

Lemma snoc_events (evs : list (Z * ExportEvent)) xs y :
  evs.*2 = xs ++ [y] → ∃ evs' now, evs = evs' ++ [(now, y)] ∧ evs'.*2 = xs.
Proof.
  intros Hev. destruct evs as [|[now ev] evs' _] using rev_ind; [by destruct xs|].
  rewrite fmap_app in Hev. cbn in Hev. apply app_inj_tail in Hev as [Hxs <-].
  by exists evs', now.
Qed.

(** ** Temporary files *)

Definition exported_paths (ns : list ExportNotice) : list string :=
  omap (λ n, match n with Exported c => Some (cx_final_path c) | _ => None end) ns.

Context (base : gset string).

(** Every file is the host's, an exported one or the temporary file of a transfer. *)
Definition accounted (done : list string) (s : Exports) : Prop :=
  (io_answers (disk s) = [] ∧ stat_answers (disk s) = [] ∧
   ∀ id a, active s !! id = Some a → names_directory (ax_final_path a) = false) ∧
  ∀ p, p ∈ dom (entries (disk s)) →
    p ∈ base ∨ p ∈ done ∨ ∃ id a, active s !! id = Some a ∧ ax_temp_path a = p.

Lemma quiet_eta done s : accounted done s →
  s = quiet (active s) (entries (disk s)) (contents (disk s)) (next_ino (disk s)).
Proof. intros [(Hio & Hst & _) _]. destruct s as [act [e c n io st]]. cbn in *. by subst. Qed.
Lemma accounted_final done s id a :
  accounted done s → active s !! id = Some a → names_directory (ax_final_path a) = false.
Proof. intros [(_ & _ & Hf) _]. apply Hf. Qed.

Lemma accounted_drop done id a act e c n :
  act !! id = Some a → accounted done (quiet act e c n) →
  accounted done (quiet (delete id act) (delete (ax_temp_path a) e) c n).
Proof.
  intros Ha [(_ & _ & Hf) Hp]. split.
  { split_and!; [done..|]. cbn in *. intros j b [_ Hj]%lookup_delete_Some. by apply (Hf j). }
  cbn in *. intros p. rewrite dom_delete_L, elem_of_difference, elem_of_singleton.
  intros [Hin Hne]. destruct (Hp p Hin) as [?|[?|(j & b & Hj & <-)]]; [by left|by right; left|].
  right; right. exists j, b. rewrite lookup_delete_ne; [done|]. intros ->. rewrite Ha in Hj. by simplify_eq.
Qed.

Lemma accounted_abort done id s :
  accounted done s → ∃ s', export_abort id s = (Ok (), s') ∧ accounted done s' ∧
    active s' = delete id (active s).
Proof.
  intros Hs. rewrite (quiet_eta done s Hs) in Hs |- *. cbn [active quiet disk entries contents next_ino] in *.
  rewrite abort_quiet. destruct (active s !! id) as [a|] eqn:Ea; eexists; split_and!; try done.
  - by apply accounted_drop.
  - cbn. by rewrite delete_id.
Qed.

Lemma accounted_abort_all done ids s :
  accounted done s → ∃ s', abort_all ids s = (Ok (), s') ∧ accounted done s' ∧
    ∀ id a, active s' !! id = Some a → active s !! id = Some a ∧ id ∉ ids.
Proof.
  revert s. induction ids as [|id ids IH]; intros s Hs; [exists s; by split_and!; [| |set_solver]|].
  cbn. unfold mbind, x_bind. destruct (accounted_abort done id s Hs) as (s1 & -> & H1 & E1).
  destruct (IH s1 H1) as (s' & -> & H' & Hact). exists s'. split_and!; [done..|].
  intros j a Hj. apply Hact in Hj as [Hj Hn]. rewrite E1, lookup_delete_Some in Hj. set_solver.
Qed.

Lemma chunk_outcome now ch act e c n :
  (∃ er, export_chunk now ch (quiet act e c n) = (Err er, quiet act e c n)) ∨
  ∃ a c', act !! ec_transfer_id ch = Some a ∧ ec_offset ch = ax_written a ∧
    export_chunk now ch (quiet act e c n) =
    (Ok (), quiet (<[ec_transfer_id ch := with_written (ax_written a + blen (ec_bytes ch))
                       (hasher_update (ax_hasher a) (ec_bytes ch)) now a]> act) e c' n).
Proof.
  unfold export_chunk. run_quiet. destruct (act !! ec_transfer_id ch) as [a|]; [|left; by eexists].
  destruct (ec_offset ch =? ax_written a) eqn:Eo; [|left; by eexists].
  destruct (_ <=? U64_MAX); [|left; by eexists]. destruct (_ <=? ax_expected_size a); [|left; by eexists].
  right. eexists a, _. split; [done|]. split; [by apply Z.eqb_eq|done].
Qed.

(** A transfer gains a temporary file, or changes without it. *)
Lemma accounted_insert done id a act e e' c c' n n' :
  accounted done (quiet act e c n) →
  (act !! id = None ∨ ∃ b, act !! id = Some b ∧ ax_temp_path b = ax_temp_path a) →
  names_directory (ax_final_path a) = false →
  (∀ p, p ∈ dom e' → p ∈ dom e ∨ p = ax_temp_path a) →
  accounted done (quiet (<[id := a]> act) e' c' n').
Proof.
  intros [(_ & _ & Hf) Hp] Hid Ha He. split.
  { split_and!; [done..|]. cbn in *. intros j b [[_ <-]|[_ Hj]]%lookup_insert_Some; [done|by apply (Hf j)]. }
  cbn in *. intros p [Hin | ->]%He.
  - destruct (Hp p Hin) as [?|[?|(j & b & Hj & <-)]]; [by left|by right; left|]. right; right.
    destruct (decide (j = id)) as [->|].
    + exists id, a. rewrite lookup_insert_eq. split; [done|]. destruct Hid as [Hid|(b' & Hb & <-)]; by simplify_eq.
    + exists j, b. by rewrite lookup_insert_ne.
  - right; right. exists id, a. by rewrite lookup_insert_eq.
Qed.
Lemma accounted_rename done id a ino act e c n :
  act !! id = Some a → accounted done (quiet act e c n) →
  accounted (done ++ [ax_final_path a])
    (quiet (delete id act) (<[ax_final_path a := ino]> (delete (ax_temp_path a) e)) c n).
Proof.
  intros Ha Hs. apply (accounted_drop done id a) in Hs as [Hq Hp]; [|done]. split; [exact Hq|]. cbn in *.
  intros p. rewrite dom_insert_L, elem_of_union, elem_of_singleton. setoid_rewrite elem_of_app.
  intros [->|Hin]; [right; left; right; by left|]. destruct (Hp p Hin) as [?|[?|?]]; [by left|by right; left; left|by right; right].
Qed.

Lemma accounted_start now st done s :
  accounted done s →
  ∃ r s', export_start download_dir home subdir now st s = (r, s') ∧ r ≠ Panic ∧ accounted done s'.
Proof.
  intros Hs. unfold export_start, mbind at 1, x_bind at 1, x_res.
  destruct (host_file_export_root _ _ _) as [root|e|] eqn:Hr; [|by eexists _, s|by apply export_root_total in Hr].
  rewrite (quiet_eta done s Hs) in Hs |- *. cbn [active quiet disk entries contents next_ino] in *.
  destruct (active s !! es_transfer_id st) as [a|] eqn:Ha.
  { unfold start_in_root. run_quiet. rewrite Ha. by eexists _, _. }
  destruct (unique_path_found root _ (mk_disk (entries (disk s)) (contents (disk s)) (next_ino (disk s)) [] [])
    (sanitize_file_no_slash (es_file_name st))) as (m & d' & Hu & _).
  apply (f_equal fst) in Hu. cbn [fst] in Hu.
  destruct (unique_path_free root _ (mk_disk _ _ _ [] []) _ (sanitize_file_no_slash _) eq_refl Hu) as (_ & Hnd & _).
  rewrite (start_quiet _ _ _ _ _ _ _ _ Ha Hu). destruct (taken _ _); eexists _, _; split_and!; try done.
  eapply accounted_insert; [exact Hs|by left|done|]. cbn. intros p. rewrite dom_insert_L. set_solver.
Qed.

Lemma accounted_end en done s :
  accounted done s →
  ∃ r s', export_end en s = (r, s') ∧ r ≠ Panic ∧
    accounted (done ++ match r with Ok c => [cx_final_path c] | _ => [] end) s'.
Proof.
  intros Hs. rewrite (quiet_eta done s Hs) in Hs |- *. cbn [active quiet disk entries contents next_ino] in *.
  destruct (active s !! ee_transfer_id en) as [a|] eqn:Ha.
  - rewrite (end_quiet en a) by done. cbn zeta.
    destruct (negb _); [eexists _, _; split_and!; [done..|]; rewrite app_nil_r; by apply accounted_drop|].
    destruct (negb _); [eexists _, _; split_and!; [done..|]; rewrite app_nil_r; by apply accounted_drop|].
    rewrite (accounted_final _ _ _ _ Hs Ha).
    destruct (entries (disk s) !! ax_temp_path a) eqn:Et; eexists _, _; split_and!; try done.
    + by apply accounted_rename.
    + rewrite app_nil_r. rewrite <-(delete_id (entries (disk s)) _ Et). by apply accounted_drop.
  - unfold export_end. run_quiet. rewrite Ha. eexists _, _. split_and!; [done..|]. by rewrite app_nil_r.
Qed.

Lemma accounted_handle now ev done s :
  accounted done s →
  ∃ n s', handle_export download_dir home subdir now ev s = (Ok n, s') ∧
    accounted (done ++ exported_paths [n]) s'.
Proof.
  intros Hs. destruct ev as [st|ch|en|]; cbn [handle_export]; unfold or_reject, mbind, x_bind.
  - destruct (accounted_start now st done s Hs) as (r & s' & -> & Hr & Hs'). destruct r; [| |done];
      eexists _, _; (split; [done|]); by rewrite app_nil_r.
  - rewrite (quiet_eta done s Hs) in Hs |- *. cbn [active quiet disk entries contents next_ino] in *.
    destruct (chunk_outcome now ch (active s) (entries (disk s)) (contents (disk s)) (next_ino (disk s)))
      as [[er ->]|(a & c' & Ha & _ & ->)].
    + destruct (accounted_abort done (ec_transfer_id ch) _ Hs) as (s1 & -> & H1 & _).
      eexists _, _. split; [done|]. by rewrite app_nil_r.
    + eexists _, _. split; [done|]. rewrite app_nil_r.
      eapply accounted_insert; [exact Hs|right; by exists a|exact (accounted_final _ _ _ _ Hs Ha)|by left].
  - destruct (accounted_end en done s Hs) as (r & s' & -> & Hr & Hs'). destruct r; [| |done];
      eexists _, _; (split; [done|]); done.
  - unfold export_cleanup_tick, export_abort_idle_older_than, export_abort_idle_before, mbind, x_bind.
    destruct (accounted_abort_all done (stale_ids (if HOST_FILE_EXPORT_IDLE_TIMEOUT <=? now
      then now - HOST_FILE_EXPORT_IDLE_TIMEOUT else now) (active s)) s Hs) as (s1 & -> & H1 & _).
    eexists _, _. split; [done|]. destruct (0 <? _)%nat; by rewrite app_nil_r.
Qed.

Lemma exported_paths_app ns ns' : exported_paths (ns ++ ns') = exported_paths ns ++ exported_paths ns'.
Proof. apply omap_app. Qed.

Lemma accounted_run evs : ∀ done s,
  accounted done s →
  ∃ ns s', run_exports download_dir home subdir evs s = (Ok ns, s') ∧
    accounted (done ++ exported_paths ns) s'.
Proof.
  induction evs as [|[now ev] evs IH]; intros done s Hs.
  { exists [], s. split; [done|]. by rewrite app_nil_r. }
  cbn. unfold mbind, x_bind. destruct (accounted_handle now ev done s Hs) as (n & s1 & -> & H1).
  destruct (IH _ _ H1) as (ns & s2 & -> & H2). exists (n :: ns), s2. split; [done|].
  by rewrite <-app_assoc, <-exported_paths_app in H2.
Qed.
End Quiet.

Lemma chunk_size_pos : (0 < Z.to_nat MAX_FILE_EXPORT_CHUNK_BYTES)%nat.
Proof. unfold MAX_FILE_EXPORT_CHUNK_BYTES. lia. Qed.
(** An export that is sent whole arrives whole.  When the capsule emits a prepared
    file, at whatever times its frames come and whatever other transfers are open, and
    no call of the operating system fails, every frame is accepted, and the host has one
    new file, under the free name that was chosen, with exactly the bytes of the source:
    the temporary file is gone, every other file and transfer is as before.  A link that
    led nowhere counts as free. *)
Theorem export_delivered `{Sha256Law} download_dir home subdir root act (d : Disk) id p reveal open
    final evs :
  host_file_export_root download_dir home subdir = Ok root →
  io_answers d = [] → stat_answers d = [] → act !! id = None →
  pe_sha256 p = sha256 (pe_bytes p) → blen (pe_bytes p) ≤ U64_MAX →
  (unique_export_path root (sanitize_export_file_name (pe_file_name p)) d).1 = Some final →
  taken d (final +:+ ".part") = false →
  evs.*2 = omap export_event (emit_prepared_export id p reveal open) →
  file_at d final = None ∧
  ∃ notices, run_exports download_dir home subdir evs (mk_exports act d)
    = (Ok (notices ++ [Exported (mk_completed final (blen (pe_bytes p)) reveal open)]),
       mk_exports act (mk_disk (<[final := next_ino d]> (entries d))
                         (<[next_ino d := pe_bytes p]> (contents d)) (next_ino d + 1) [] []))
    ∧ Forall (eq Quiet) notices.
Proof.
  intros Hroot Hio Hst Hid Hsha Hlen Hu Hpart Hev. destruct d as [e c n io st]. cbn in Hio, Hst. subst io st.
  split; [by eapply (unique_path_free root); [apply sanitize_file_no_slash|..]|].
  destruct evs as [|[now ev] evs]; [done|]. injection Hev as -> Hev.
  rewrite omap_app, chunk_frames_events in Hev. apply snoc_events in Hev as (evs' & now' & -> & Hev).
  pose proof (concat_chunks (Z.to_nat MAX_FILE_EXPORT_CHUNK_BYTES) (pe_bytes p) chunk_size_pos) as Hcs.
  remember (chunks _ (pe_bytes p)) as cs eqn:Ecs. clear Ecs.
  exists (Quiet :: replicate (length cs) Quiet). split; [|constructor; [done|by apply Forall_replicate]].
  rewrite <-Hcs, <-(finalize_chunks cs) in *.
  by apply (transfer_run _ _ _ root _ _ (mk_exp_start id (pe_source p) (pe_file_name p) _ reveal open)
    (mk_exp_end id (pe_sha256 p))).
Qed.

(** C19: No temporary file outlives a session.  While no call of the operating system
    fails, whatever frames came and however the session ended, once the client has
    dropped its exports every new file on the host is one it reported as exported. *)
Theorem session_leaves_exports `{Sha256} download_dir home subdir evs (d : Disk) :
  io_answers d = [] → stat_answers d = [] →
  ∃ notices s,
    export_session download_dir home subdir evs d = (Ok notices, s) ∧ active s = ∅ ∧
    ∀ p, p ∈ dom (entries (disk s)) → p ∉ dom (entries d) →
      ∃ c, Exported c ∈ notices ∧ cx_final_path c = p.
Proof.
  intros Hio Hst. unfold export_session, mbind, x_bind.
  destruct (accounted_run download_dir home subdir (dom (entries d)) evs [] (mk_exports ∅ d))
    as (ns & s1 & -> & H1); [by split; [split_and!; [..|intros id a; cbn; by rewrite lookup_empty]|left]|].
  destruct (accounted_abort_all (dom (entries d)) (exported_paths ns) (map_to_list (active s1)).*1 s1 H1)
    as (s2 & Hdrop & [_ H2] & Hact). unfold drop_exports. rewrite Hdrop. exists ns, s2.
  assert (active s2 = ∅) as He.
  { apply map_empty. intros id. apply eq_None_not_Some. intros [a Ha]. apply Hact in Ha as [Ha Hn].
    apply Hn, list_elem_of_fmap. exists (id, a). by rewrite elem_of_map_to_list. }
  split_and!; [done..|]. intros p Hp Hn. destruct (H2 p Hp) as [|[Hin|(id & a & Ha & _)]]; [done| |].
  - apply list_elem_of_omap in Hin as ([| |c|] & Hc & [=]). by exists c.
  - by rewrite He, lookup_empty in Ha.
Qed.

(** ** Overlapping names and failed calls *)

Section Cases.
Import SampleHash.

(** Two transfers, [x.part] and [x], in the order start, start, chunk, chunk, end, end. *)
Definition overlapping : list (Z * ExportEvent) :=
  (λ e, (0, e)) <$>
  [EvStart (mk_exp_start 1 "/w/x.part" "x.part" 1 false false);
   EvStart (mk_exp_start 2 "/w/x" "x" 1 false false);
   EvChunk (mk_exp_chunk 1 0 [byte_of_Z 65]);
   EvChunk (mk_exp_chunk 2 0 [byte_of_Z 66]);
   EvEnd (mk_exp_end 1 (sha256 [byte_of_Z 65]));
   EvEnd (mk_exp_end 2 (sha256 [byte_of_Z 66]))].

(** The client reports both files as exported, but [x.part] is gone and [x] has its bytes. *)
Lemma exports_swapped :
  let '(ns, s) := export_session (Some "/d") None "i" overlapping (mk_disk ∅ ∅ 0 [] []) in
  ns = Ok [Quiet; Quiet; Quiet; Quiet;
           Exported (mk_completed "/d/jackin/i/x.part" 1 false false);
           Exported (mk_completed "/d/jackin/i/x" 1 false false)] ∧
  map_to_list (entries (disk s)) = [("/d/jackin/i/x", 0)] ∧
  contents (disk s) !! 0 = Some [byte_of_Z 65].
Proof. vm_compute. done. Qed.

(** A file whose flush fails is rejected, and its temporary file stays. *)
Lemma failed_flush_leaves_part :
  let '(ns, s) := export_session (Some "/d") None "i"
    [(0, EvStart (mk_exp_start 1 "/w/x" "x" 0 false false)); (0, EvEnd (mk_exp_end 1 (sha256 [])))]
    (mk_disk ∅ ∅ 0 [IoOk; IoOk; IoFail 0] []) in
  ns = Ok [Quiet; Rejected (mk_error "flushing host export temp file" "")] ∧
  map_to_list (entries (disk s)) = [("/d/jackin/i/x.part", 0)].
Proof. vm_compute. done. Qed.

(** When the system does not say whether [x] exists, the export takes its name, and what
    the host had there can no longer be reached. *)
Lemma failed_stat_replaces_file :
  let '(ns, s) := export_session (Some "/d") None "i"
    [(0, EvStart (mk_exp_start 1 "/w/x" "x" 0 false false)); (0, EvEnd (mk_exp_end 1 (sha256 [])))]
    (mk_disk {["/d/jackin/i/x" := 0]} {[0 := [byte_of_Z 72]]} 1 [] [false]) in
  ns = Ok [Quiet; Exported (mk_completed "/d/jackin/i/x" 0 false false)] ∧
  file_at (disk s) "/d/jackin/i/x" = Some [].
Proof. vm_compute. done. Qed.

(** A link that leads nowhere does not count as existing either, and is replaced. *)
Lemma dangling_link_replaced :
  let '(ns, s) := export_session (Some "/d") None "i"
    [(0, EvStart (mk_exp_start 1 "/w/x" "x" 0 false false)); (0, EvEnd (mk_exp_end 1 (sha256 [])))]
    (mk_disk {["/d/jackin/i/x" := 0]} ∅ 1 [] []) in
  ns = Ok [Quiet; Exported (mk_completed "/d/jackin/i/x" 0 false false)] ∧
  entries (disk s) !! "/d/jackin/i/x" = Some 1.
Proof. vm_compute. done. Qed.

(** The dots that no-break spaces hide survive the sanitizer: the second trim removes
    the spaces and leaves them. *)
Lemma sanitize_keeps_dots :
  sanitize_export_file_name (of_bytes [byte_of_Z 194; byte_of_Z 160; byte_of_Z 46; byte_of_Z 46;
    byte_of_Z 194; byte_of_Z 160]) = "..".
Proof. vm_compute. done. Qed.

(** ** Concrete sessions *)

Definition sample_disk (io : list IoAnswer) : Disk :=
  mk_disk {["/d/jackin/i/x" := 0]} {[0 := [byte_of_Z 72]]} 1 io [].
Definition sample_prepared : PreparedExport :=
  mk_prepared "/w/x" "x" [byte_of_Z 65; byte_of_Z 66] (sha256 [byte_of_Z 65; byte_of_Z 66]).

Lemma exports_confined_witness :
  ∃ notices s,
    export_session (Some "/d") None "i" overlapping (sample_disk [IoOk; IoOk; IoOk; IoOk; IoOk; IoFail 1])
      = (Ok notices, s) ∧
    entries (disk s) !! "/d/jackin/i/x" = Some 0 ∧ contents (disk s) !! 0 = Some [byte_of_Z 72].
Proof.
  destruct (exports_confined (Some "/d") None "i" overlapping
    (sample_disk [IoOk; IoOk; IoOk; IoOk; IoOk; IoFail 1])) as (ns & s & Hs & Hc & Hk).
  - cbn. intros p ino [_ <-]%lookup_singleton_Some. lia.
  - exists ns, s. split; [exact Hs|]. split.
    + apply (proj1 (Hk (Forall_nil_2 _)) "/d/jackin/i/x" 0); [reflexivity|by eexists].
    + apply (Hc 0). cbn. lia.
Defined.

Lemma export_delivered_witness :
  ∃ notices s,
    run_exports (Some "/d") None "i"
      ((λ e, (7, e)) <$> omap export_event (emit_prepared_export 3 sample_prepared true false))
      (mk_exports ∅ (sample_disk [])) = (Ok notices, s) ∧
    entries (disk s) !! "/d/jackin/i/x-1" = Some 1 ∧
    contents (disk s) !! 1 = Some [byte_of_Z 65; byte_of_Z 66].
Proof.
  destruct (export_delivered (Some "/d") None "i" "/d/jackin/i" ∅ (sample_disk []) 3 sample_prepared true false
    "/d/jackin/i/x-1" ((λ e, (7, e)) <$> omap export_event (emit_prepared_export 3 sample_prepared true false)))
    as (_ & ns & Hrun & _).
  1-3: reflexivity. 1-2: reflexivity. 1: vm_compute; discriminate. 1-2: vm_compute; reflexivity.
  1: by rewrite <-list_fmap_compose, list_fmap_id.
  eexists _, _. split; [exact Hrun|]. split; [apply lookup_insert_eq|apply lookup_insert_eq].
Defined.

Lemma session_leaves_exports_witness :
  ∃ notices s,
    export_session (Some "/d") None "i" (take 5 overlapping) (sample_disk []) = (Ok notices, s) ∧
    active s = ∅.
Proof.
  destruct (session_leaves_exports (Some "/d") None "i" (take 5 overlapping) (sample_disk []) eq_refl eq_refl)
    as (ns & s & Hs & Ha & _).
  exists ns, s. exact (conj Hs Ha).
Defined.
End Cases.
