(* ===== verification/FileSource.v ===== *)
(** * Reading the source of an export

    [daemon/file_export/source.rs]: the capsule resolves the requested path, pins its
    directories one by one without following links, opens the file, reads it whole
    and checks that nothing it relied on has changed.

    Other processes of the container change the file system meanwhile: it is a
    history, [hist t] at the [t]-th call.  The code changes nothing itself.  Any call
    may be refused, a read may be short or interrupted, and the clock and the
    cancellation flag go on. *)

From stdpp Require Import base list gmap strings.
From Stdlib Require Import ZArith Lia Bool.
From S2P Require Import Prelude OrderedMap AttachTypes AttachCodec Clipboard WorkflowVerify Paths FileExport.

#[local] Open Scope Z_scope.

(** ** The file system *)

(** Device and number; an open file or directory keeps its number in use. *)
Definition Ino : Type := Z * Z.
Inductive Body := Dir (names : gmap string Ino) | Regular (bs : bytes) | Other.
Record Inode := mk_inode {
  i_mode : Z; i_uid : Z; i_gid : Z; i_len : Z; i_links : Z;
  i_modified : Z * Z; i_changed : Z * Z;
  i_body : Body;
}.
Definition Fs : Type := gmap Ino Inode.

Record FileStat := mk_stat { st_dev : Z; st_ino : Z; st_mode : Z; st_uid : Z; st_gid : Z }.
Definition stat_of (i : Ino) (n : Inode) : FileStat :=
  mk_stat i.1 i.2 (i_mode n) (i_uid n) (i_gid n).

Definition S_IFMT : Z := 61440.
Definition S_IFREG : Z := 32768.
Definition S_IFDIR : Z := 16384.
Definition S_IFLNK : Z := 40960.

Definition is_kind (mode expected : Z) : bool := Z.land mode S_IFMT =? expected.
Definition kind (stat : FileStat) (expected : Z) : bool := is_kind (st_mode stat) expected.
Definition same_object (a b : FileStat) : bool :=
  (st_dev a =? st_dev b) && (st_ino a =? st_ino b) && (st_mode a =? st_mode b)
  && (st_uid a =? st_uid b) && (st_gid a =? st_gid b).

Record Fingerprint := mk_fingerprint {
  fp_dev : Z; fp_ino : Z; fp_mode : Z; fp_uid : Z; fp_gid : Z; fp_len : Z; fp_links : Z;
  fp_modified : Z * Z; fp_changed : Z * Z;
}.
#[global] Instance fingerprint_eq_dec : EqDecision Fingerprint.
Proof. solve_decision. Defined.
Definition fingerprint_of (i : Ino) (n : Inode) : Fingerprint :=
  mk_fingerprint i.1 i.2 (i_mode n) (i_uid n) (i_gid n) (i_len n) (i_links n)
    (i_modified n) (i_changed n).

(** The entry of a directory, without following a link. *)
Definition entry (fs : Fs) (d : Ino) (name : string) : option Ino :=
  n ← fs !! d;
  match i_body n with Dir names => names !! name | _ => None end.
Definition fs_stat (fs : Fs) (i : Ino) : option FileStat := stat_of i <$> fs !! i.
Definition fs_fingerprint (fs : Fs) (i : Ino) : option Fingerprint := fingerprint_of i <$> fs !! i.

(** [openat] with [O_NOFOLLOW]; [O_DIRECTORY] asks for a directory. *)
Definition fs_open (directory : bool) (fs : Fs) (d : Ino) (name : string) : option Ino :=
  i ← entry fs d name;
  n ← fs !! i;
  if is_kind (i_mode n) S_IFLNK then None
  else match i_body n with
       | Dir _ => Some i
       | _ => if directory then None else Some i
       end.

(** What a read is given: at most [n + 1] bytes, an interruption or an error. *)
Inductive ReadAnswer := Gives (n : nat) | ReadInterrupted | ReadError.

(** ** A run *)

(** What happens around the run, by the number of the call. *)
Record Around := mk_around {
  hist : nat → Fs;
  clock : nat → Z;
  cancelled : nat → bool;
  refused : nat → bool;
  reads : nat → ReadAnswer;
  canonicalize : Fs → string → option string;
  root_ino : Ino;
  deadline : Z;
}.

(** The number of the next call and the position in the open file. *)
Record Point := mk_point { time : nat; cursor : nat }.

Section Source.
Context `{Sha256} (w : Around).

Definition R (A : Type) : Type := Point → res A * Point.
#[global] Instance r_ret : MRet R := λ A a p, (Ok a, p).
#[global] Instance r_bind : MBind R := λ A B f m p,
  match m p with
  | (Ok a, p) => f a p
  | (Err e, p) => (Err e, p)
  | (Panic, p) => (Panic, p)
  end.
Definition r_res {A} (r : res A) : R A := λ p, (r, p).
(** A call that asks the file system of its moment. *)
Definition sys {A} (what : string) (f : Fs → option A) : R A := λ p,
  (if refused w (time p) then bail what
   else match f (hist w (time p)) with Some a => Ok a | None => bail what end,
   mk_point (S (time p)) (cursor p)).

(** [Budget::check] *)
Definition budget_check : R () := λ p,
  (if cancelled w (time p) then bail "file export cancelled"
   else if clock w (time p) <? deadline w then Ok () else bail "file export deadline expired",
   mk_point (S (time p)) (cursor p)).

Definition fstat (i : Ino) : R FileStat := sys "fstat" (λ fs, fs_stat fs i).
Definition fstatat (d : Ino) (name : string) : R FileStat :=
  sys "fstatat" (λ fs, i ← entry fs d name; fs_stat fs i).
Definition openat (directory : bool) (d : Ino) (name : string) : R Ino :=
  sys "openat" (λ fs, fs_open directory fs d name).
Definition metadata (i : Ino) : R Fingerprint := sys "metadata" (λ fs, fs_fingerprint fs i).
Definition open_root : R Ino :=
  sys "open" (λ fs, n ← fs !! root_ino w; match i_body n with Dir _ => Some (root_ino w) | _ => None end).

(** ** Resolving the path *)

Definition MAX_EXPORT_FILE_BYTES : Z := 64 * 1024 * 1024.
Definition RUN_DIR : string := "/jackin/run".

Definition inside (source dir : string) : bool :=
  path_starts_with source dir && negb (path_eqb source dir).

Definition resolve (requested workdir : string) : R (string * string) :=
  _ ← budget_check;
  _ ← r_res (ensure (negb (str_eqb (trim requested) "")) "path is empty");
  let raw := trim requested in
  let candidate := if has_root raw then raw else path_join workdir raw in
  source ← sys "resolving export source" (λ fs, canonicalize w fs candidate);
  _ ← budget_check;
  workspace ← sys "resolving export workspace" (λ fs, canonicalize w fs workdir);
  _ ← budget_check;
  _ ← r_res (ensure (inside source workspace || inside source RUN_DIR)
               "path must be inside the workspace or {}");
  _ ← r_res (ensure (str_len source <=? MAX_FILE_EXPORT_PATH_BYTES)
               "resolved path exceeds export protocol cap");
  name ← r_res (match file_name source with
                | Some n => if str_eqb n "" then bail "file has no UTF-8 file name" else Ok n
                | None => bail "file has no UTF-8 file name"
                end);
  _ ← r_res (ensure (str_len name <=? MAX_FILE_EXPORT_NAME_BYTES)
               "file name exceeds export protocol cap");
  mret (source, name).

(** ** Pinning the directories *)

Record Directory := mk_directory { dir_fd : Ino; dir_name : option string }.

(** The components of [Path::parent]. *)
Definition parent_components (p : string) : option (list Component.t) :=
  match last (components p) with
  | Some Component.RootDir | None => None
  | Some _ => Some (removelast (components p))
  end.

(** One turn of the loop: a directory below the last one. *)
Definition pin_component (directories : list Directory) (c : Component.t) : R (list Directory) :=
  _ ← budget_check;
  match c with
  | Component.RootDir => mret directories
  | Component.Normal name =>
      match last directories with
      | None => r_res (bail "export ancestor missing")
      | Some parent =>
          before ← fstatat (dir_fd parent) name;
          _ ← r_res (ensure (kind before S_IFDIR) "export ancestor is not a directory");
          _ ← budget_check;
          fd ← openat true (dir_fd parent) name;
          _ ← budget_check;
          st ← fstat fd;
          _ ← r_res (ensure (same_object before st) "export ancestor changed while opening");
          mret (directories ++ [mk_directory fd (Some name)])
      end
  | _ => r_res (bail "export path has a non-normal component")
  end.

Fixpoint pin_components (directories : list Directory) (cs : list Component.t)
    : R (list Directory) :=
  match cs with
  | [] => mret directories
  | c :: cs => ds ← pin_component directories c; pin_components ds cs
  end.

Definition pin_directories (cs : list Component.t) : R (list Directory) :=
  _ ← budget_check;
  fd ← open_root;
  pin_components [mk_directory fd None] cs.

(** ** Admission *)

Record AdmittedSource := mk_admitted {
  ad_source : string;
  ad_file_name : string;
  ad_file : Ino;
  ad_fingerprint : Fingerprint;
  ad_directories : list Directory;
  ad_member : string;
}.

(** The neighbours of the list of directories ([windows(2)]). *)
Fixpoint validate_windows (ds : list Directory) : R () :=
  match ds with
  | d :: ((d' :: _) as rest) =>
      _ ← budget_check;
      name ← r_res (match dir_name d' with Some n => Ok n | None => bail "export ancestor name missing" end);
      e ← fstatat (dir_fd d) name;
      _ ← r_res (ensure (kind e S_IFDIR) "export ancestor binding changed");
      st ← fstat (dir_fd d');
      _ ← r_res (ensure (same_object e st) "export ancestor binding changed");
      validate_windows rest
  | _ => mret ()
  end.

Definition validate (a : AdmittedSource) : R () :=
  _ ← budget_check;
  _ ← validate_windows (ad_directories a);
  parent ← r_res (match last (ad_directories a) with
                  | Some d => Ok (dir_fd d) | None => bail "export parent missing" end);
  e ← fstatat parent (ad_member a);
  current ← fstat (ad_file a);
  _ ← r_res (ensure (kind e S_IFREG && same_object e current) "export member binding changed");
  f ← metadata (ad_file a);
  _ ← r_res (ensure (bool_decide (f = ad_fingerprint a)) "export source mutated after admission");
  budget_check.

Definition admit_source (requested workdir : string) : R AdmittedSource :=
  '(source, name) ← resolve requested workdir;
  parent ← r_res (match parent_components source with
                  | Some p => Ok p | None => bail "export source has no parent" end);
  directories ← pin_directories parent;
  directory ← r_res (match last directories with
                     | Some d => Ok (dir_fd d) | None => bail "export parent missing" end);
  member ← r_res (match file_name source with
                  | Some m => Ok m | None => bail "export source has no member" end);
  _ ← budget_check;
  before ← fstatat directory member;
  _ ← r_res (ensure (kind before S_IFREG) "only regular files can be exported");
  _ ← budget_check;
  fd ← openat false directory member;
  _ ← budget_check;
  opened ← fstat fd;
  _ ← r_res (ensure (kind opened S_IFREG && same_object before opened)
               "export source changed during admission");
  m ← metadata fd;
  _ ← r_res (ensure (fp_len m <=? MAX_EXPORT_FILE_BYTES)
               "file is {} bytes; current export cap is {MAX_EXPORT_FILE_BYTES} bytes");
  let admitted := mk_admitted source name fd m directories member in
  _ ← validate admitted;
  mret admitted.

(** ** Reading *)

(** [File::read]: the bytes from the cursor on, at most [limit] of them. *)
Definition read (i : Ino) (limit : nat) : R (option bytes) := λ p,
  let after := mk_point (S (time p)) (cursor p) in
  match reads w (time p) with
  | ReadInterrupted => (Ok None, after)
  | ReadError => (bail "reading admitted export source", after)
  | Gives n =>
      match i_body <$> hist w (time p) !! i with
      | Some (Regular bs) =>
          let got := take (Nat.min limit (S n)) (drop (cursor p) bs) in
          (Ok (Some got), mk_point (S (time p)) (cursor p + length got))
      | _ => (bail "reading admitted export source", after)
      end
  end.

(** Retries while it is interrupted; [Panic] stands for fuel that ran out. *)
Fixpoint read_once (fuel : nat) (i : Ino) (limit : nat) : R bytes :=
  match fuel with
  | O => r_res Panic
  | S fuel =>
      _ ← budget_check;
      o ← read i limit;
      match o with
      | None => read_once fuel i limit
      | Some bs => _ ← budget_check; mret bs
      end
  end.

(** The loop reads until it has [size] bytes; each turn adds one at least, so [turns]
    is the size at first. *)
Fixpoint read_loop (fuel turns : nat) (i : Ino) (size : nat) (bs : bytes) (h : hasher)
    : R (bytes * hasher) :=
  if (length bs <? size)%nat then
    match turns with
    | O => r_res Panic
    | S turns =>
        got ← read_once fuel i (Nat.min (size - length bs) 8192);
        _ ← r_res (ensure (negb (length got =? 0)%nat) "export source truncated while reading");
        _ ← r_res (ensure (length bs + length got <=? size)%nat "export size overflow");
        read_loop fuel turns i size (bs ++ got) (hasher_update h got)
    end
  else mret (bs, h).

Definition read_admitted (fuel : nat) (a : AdmittedSource) : R PreparedExport :=
  let size := Z.to_nat (fp_len (ad_fingerprint a)) in
  '(bs, h) ← read_loop fuel size (ad_file a) size [] hasher_new;
  got ← read_once fuel (ad_file a) 1;
  _ ← r_res (ensure (length got =? 0)%nat "export source grew while reading");
  _ ← validate a;
  mret (mk_prepared (ad_source a) (ad_file_name a) bs (hasher_finalize h)).

Inductive PrepareResult := Prepared (p : PreparedExport) | CandidateRejected (e : error) | ReadFailed (e : error).

(** A failure while time is left and nothing was cancelled is the candidate's. *)
Definition prepare (fuel : nat) (requested workdir : string) : R PrepareResult := λ p,
  match admit_source requested workdir p with
  | (Ok a, p) =>
      match read_admitted fuel a (mk_point (time p) 0) with
      | (Ok x, p) => (Ok (Prepared x), p)
      | (Err e, p) => (Ok (ReadFailed e), p)
      | (Panic, p) => (Panic, p)
      end
  | (Err e, p) =>
      match budget_check p with
      | (Ok _, p) => (Ok (CandidateRejected e), p)
      | (_, p) => (Ok (ReadFailed e), p)
      end
  | (Panic, p) => (Panic, p)
  end.
End Source.
