(* ===== verification/SourceProofs.v ===== *)
(** * The source of an export is read as it stood

    Whatever other processes of the container do meanwhile: the bytes that are sent are
    the whole contents of one regular file, reached from the root without a link, and
    the preparation ends. *)

From stdpp Require Import base list gmap strings.
From Stdlib Require Import ZArith Lia Bool.
From S2P Require Import Prelude OrderedMap Digits AttachTypes AttachCodec AttachProofs Clipboard WorkflowVerify Paths FileExport FileSource.

#[local] Open Scope Z_scope.

Create HintDb source_total.

Section SourceProofs.
Context `{Sha256} (w : Around).

(** ** Runs that succeed *)

Lemma run_bind_ok {A B} (m : R A) (f : A → R B) p b p' :
  (m ≫= f) p = (Ok b, p') → ∃ a p1, m p = (Ok a, p1) ∧ f a p1 = (Ok b, p').
Proof. unfold mbind, r_bind. destruct (m p) as [[a| |] p1]; [by exists a, p1|done..]. Qed.
Lemma run_res_ok {A} (r : res A) p a p' : r_res r p = (Ok a, p') → r = Ok a ∧ p' = p.
Proof. by intros [= -> ->]. Qed.
Lemma run_ensure_ok c fmt p a p' : r_res (ensure c fmt) p = (Ok a, p') → c = true ∧ p' = p.
Proof. destruct c; [|done]. by intros [= _ ->]. Qed.

(** The point after a call other than a read. *)
Definition next (p : Point) : Point := mk_point (S (time p)) (cursor p).
Lemma check_ok p a p' : budget_check w p = (Ok a, p') → p' = next p.
Proof. unfold budget_check. by intros [= _ <-]. Qed.
Lemma sys_ok {A} what (f : Fs → option A) p a p' :
  sys w what f p = (Ok a, p') → f (hist w (time p)) = Some a ∧ p' = next p.
Proof.
  unfold sys. destruct (refused w (time p)); [done|]. destruct (f _); [|done]. by intros [= -> <-].
Qed.

(** Takes a successful run apart, step by step. *)
#[local] Ltac step H :=
  let p := fresh "p" in let a := fresh "a" in let E := fresh "E" in
  apply run_bind_ok in H as (a & p & E & H).
#[local] Ltac checked H :=
  let E := fresh "E" in
  apply run_bind_ok in H as (? & ? & E & H); apply check_ok in E as ->.
#[local] Ltac ensured H C :=
  let E := fresh "E" in
  apply run_bind_ok in H as (? & ? & E & H); apply run_ensure_ok in E as [C ->].
#[local] Ltac asked H a C :=
  let E := fresh "E" in
  apply run_bind_ok in H as (a & ? & E & H); apply sys_ok in E as [C ->].
#[local] Ltac chosen H a C :=
  let E := fresh "E" in
  apply run_bind_ok in H as (a & ? & E & H); apply run_res_ok in E as [C ->].

(** ** Links *)

(** At time [t] the entry [name] of [d] was [i], and no link. *)
Definition bound (t : nat) (d : Ino) (name : string) (i : Ino) : Prop :=
  entry (hist w t) d name = Some i ∧
  ∃ n, hist w t !! i = Some n ∧ is_kind (i_mode n) S_IFLNK = false.

(** The inodes lead along the names, each step at a time of the interval. *)
Definition walk (lo hi : nat) (fds : list Ino) (names : list string) : Prop :=
  length fds = S (length names) ∧
  ∀ k d name i, fds !! k = Some d → names !! k = Some name → fds !! S k = Some i →
    ∃ t, (lo ≤ t < hi)%nat ∧ bound t d name i.

Lemma walk_one lo hi d : walk lo hi [d] [].
Proof. split; [done|]. intros k d' name i _ Hn. by rewrite lookup_nil in Hn. Qed.
Lemma walk_weaken lo hi lo' hi' fds names :
  walk lo hi fds names → (lo' ≤ lo)%nat → (hi ≤ hi')%nat → walk lo' hi' fds names.
Proof.
  intros [Hl Hw] ??. split; [done|]. intros k d name i Hd Hn Hi.
  destruct (Hw k d name i Hd Hn Hi) as (t & ? & ?). exists t. split; [lia|done].
Qed.
Lemma walk_snoc lo hi fds names d name i t :
  walk lo hi fds names → last fds = Some d → (lo ≤ t < hi)%nat → bound t d name i →
  walk lo hi (fds ++ [i]) (names ++ [name]).
Proof.
  intros [Hl Hw] Hd Ht Hb. split; [rewrite !length_app; cbn; lia|].
  intros k d' name' i' Hd' Hn' Hi'. destruct (decide (k < length names)%nat) as [Hk|Hk].
  - rewrite lookup_app_l in Hd' by lia. rewrite lookup_app_l in Hn' by lia.
    rewrite lookup_app_l in Hi' by lia. by apply (Hw k).
  - assert (k = length names) as ->.
    { apply lookup_lt_Some in Hn'. rewrite length_app in Hn'. cbn in Hn'. lia. }
    rewrite lookup_app_r, Nat.sub_diag in Hn' by lia. injection Hn' as <-.
    rewrite lookup_app_r, Hl, Nat.sub_diag in Hi' by lia. injection Hi' as <-.
    rewrite lookup_app_l in Hd' by lia. rewrite last_lookup, Hl in Hd. cbn in Hd. rewrite Hd in Hd'.
    injection Hd' as <-. by exists t.
Qed.

(** A stat of an entry that agrees with the stat of an open file. *)
Lemma same_object_ino i n j m : same_object (stat_of i n) (stat_of j m) = true → i = j.
Proof.
  unfold same_object. rewrite !andb_true_iff, !Z.eqb_eq. cbn. intros ((((? & ?) & _) & _) & _).
  destruct i, j. cbn in *. congruence.
Qed.
Lemma kind_no_link mode k : k ≠ S_IFLNK → is_kind mode k = true → is_kind mode S_IFLNK = false.
Proof. unfold is_kind. rewrite Z.eqb_eq, Z.eqb_neq. congruence. Qed.

Lemma entry_bound t t' d name st i st' k :
  k ≠ S_IFLNK → (j ← entry (hist w t) d name; fs_stat (hist w t) j) = Some st →
  fs_stat (hist w t') i = Some st' → kind st k = true → same_object st st' = true →
  bound t d name i.
Proof.
  intros Hk He Hi Hkind Hsame. apply bind_Some in He as (j & He & Hj).
  apply fmap_Some in Hj as (n & Hn & ->). apply fmap_Some in Hi as (m & Hm & ->).
  pose proof (same_object_ino _ _ _ _ Hsame) as ->. split; [done|]. exists n. split; [done|].
  by apply (kind_no_link _ k).
Qed.

Lemma walk_cons lo hi d name i fds names t :
  walk lo hi (i :: fds) names → (lo ≤ t < hi)%nat → bound t d name i →
  walk lo hi (d :: i :: fds) (name :: names).
Proof.
  intros [Hl Hw] Ht Hb. split; [cbn in *; lia|]. intros [|k] d' name' i' Hd Hn Hi; cbn in *.
  - simplify_eq. by exists t.
  - by apply (Hw k).
Qed.

(** ** The directories *)

(** The root, and one directory for each name. *)
Definition directories_of (o : option string) (root : Ino) (l : list (Ino * string)) : list Directory :=
  mk_directory root o :: ((λ x, mk_directory x.1 (Some x.2)) <$> l).
Definition normal_names (cs : list Component.t) : list string :=
  omap (λ c, match c with Component.Normal s => Some s | _ => None end) cs.

Lemma last_directory o root l :
  ∃ d, last (directories_of o root l) = Some d ∧ last (root :: l.*1) = Some (dir_fd d).
Proof.
  destruct l as [|x l _] using rev_ind; [by eexists|]. unfold directories_of.
  rewrite !fmap_app. cbn [fmap list_fmap].
  change (mk_directory root o :: ?a ++ ?b) with ((mk_directory root o :: a) ++ b).
  change (root :: ?a ++ ?b) with ((root :: a) ++ b). rewrite !last_snoc. by eexists.
Qed.

Lemma pin_component_ok l o root c p ds p' :
  pin_component w (directories_of o root l) c p = (Ok ds, p') →
  (time p ≤ time p')%nat ∧ cursor p' = cursor p ∧
  ∃ l', ds = directories_of o root (l ++ l') ∧ l'.*2 = normal_names [c] ∧
    ∀ lo hi, (lo ≤ time p)%nat → (time p' ≤ hi)%nat →
      walk lo hi (root :: l.*1) l.*2 → walk lo hi (root :: (l ++ l').*1) (l ++ l').*2.
Proof.
  unfold pin_component. intros Hr. checked Hr. destruct c as [| | |name]; try done.
  { injection Hr as <- <-. split; [cbn; lia|]. split; [done|]. exists []. by rewrite app_nil_r. }
  destruct (last_directory o root l) as (d & Hd & Hlast). rewrite Hd in Hr.
  asked Hr before Hb. ensured Hr Hk. checked Hr. asked Hr fd Ho. checked Hr. asked Hr st Hs. ensured Hr Hsame.
  injection Hr as <- <-. split; [cbn; lia|]. split; [done|]. exists [(fd, name)]. split; [|split; [done|]].
  { unfold directories_of. by rewrite fmap_app. }
  intros lo hi Hlo Hhi Hw. rewrite !fmap_app. cbn in Hhi.
  apply (walk_snoc _ _ (root :: l.*1) _ (dir_fd d) _ _ (S (time p))); [done..|lia|].
  eapply (entry_bound _ _ _ _ before _ st S_IFDIR); [done|exact Hb|exact Hs|done..].
Qed.

Lemma pin_components_ok o root cs : ∀ l p ds p',
  pin_components w (directories_of o root l) cs p = (Ok ds, p') →
  (time p ≤ time p')%nat ∧ cursor p' = cursor p ∧
  ∃ l', ds = directories_of o root (l ++ l') ∧ l'.*2 = normal_names cs ∧
    ∀ lo hi, (lo ≤ time p)%nat → (time p' ≤ hi)%nat →
      walk lo hi (root :: l.*1) l.*2 → walk lo hi (root :: (l ++ l').*1) (l ++ l').*2.
Proof.
  induction cs as [|c cs IH]; intros l p ds p' Hr; cbn in Hr.
  { injection Hr as <- <-. split; [lia|]. split; [done|]. exists []. by rewrite app_nil_r. }
  step Hr. apply pin_component_ok in E as (Ht & Hc & l1 & -> & Hn1 & Hw1).
  apply IH in Hr as (Ht' & Hc' & l2 & -> & Hn2 & Hw2).
  split; [lia|]. split; [congruence|]. exists (l1 ++ l2). rewrite (app_assoc l). split; [done|]. split.
  { rewrite fmap_app, Hn1, Hn2. by destruct c. }
  intros lo hi Hlo Hhi Hw. apply Hw2; [lia..|]. apply Hw1; [lia..|done].
Qed.

Lemma validate_windows_ok l : ∀ o i p u p',
  validate_windows w (directories_of o i l) p = (Ok u, p') →
  (time p ≤ time p')%nat ∧ cursor p' = cursor p ∧
  ∀ lo hi, (lo ≤ time p)%nat → (time p' ≤ hi)%nat → walk lo hi (i :: l.*1) l.*2.
Proof.
  induction l as [|[j name] l IH]; intros o i p u p' Hr.
  { injection Hr as _ <-. split; [lia|]. split; [done|]. intros. apply walk_one. }
  change (validate_windows w (directories_of o i ((j, name) :: l)))
    with (_ ← budget_check w;
          name ← r_res (Ok name);
          e ← fstatat w i name;
          _ ← r_res (ensure (kind e S_IFDIR) "export ancestor binding changed");
          st ← fstat w j;
          _ ← r_res (ensure (same_object e st) "export ancestor binding changed");
          validate_windows w (directories_of (Some name) j l)) in Hr.
  checked Hr. chosen Hr n Hn. injection Hn as <-. asked Hr e He. ensured Hr Hk. asked Hr st Hs. ensured Hr Hsame.
  apply IH in Hr as (Ht & Hc & Hw). cbn [next time cursor] in *.
  split; [lia|]. split; [done|]. intros lo hi Hlo Hhi.
  apply (walk_cons _ _ _ _ _ _ _ (S (time p))); [apply Hw; lia|lia|].
  eapply (entry_bound _ _ _ _ e _ st S_IFDIR); [done|exact He|exact Hs|done..].
Qed.

(** ** Validation *)

(** What a validation that succeeds has seen. *)
Lemma validate_ok src name file fp root l member p u p' :
  validate w (mk_admitted src name file fp (directories_of None root l) member) p = (Ok u, p') →
  cursor p' = cursor p ∧
  walk (time p) (time p') (root :: (l ++ [(file, member)]).*1) (l ++ [(file, member)]).*2 ∧
  ∃ t, (time p ≤ t < time p')%nat ∧ fs_fingerprint (hist w t) file = Some fp.
Proof.
  unfold validate. cbn [ad_directories ad_member ad_file ad_fingerprint]. intros Hr. checked Hr.
  step Hr. apply validate_windows_ok in E as (Ht & Hc & Hw).
  destruct (last_directory None root l) as (d & Hd & Hlast). rewrite Hd in Hr.
  chosen Hr parent Hp. injection Hp as <-. asked Hr e He. asked Hr st Hs. ensured Hr Hsame.
  apply andb_true_iff in Hsame as [Hk Hsame]. asked Hr f Hf. ensured Hr Hfp. apply bool_decide_eq_true in Hfp as ->.
  apply check_ok in Hr as ->. cbn [next time cursor] in *. split; [done|]. split.
  - rewrite !fmap_app. apply (walk_snoc _ _ (root :: l.*1) _ (dir_fd d) _ _ (time p0)); [apply Hw; lia|done|lia|].
    eapply (entry_bound _ _ _ _ e _ st S_IFREG); [done|exact He|exact Hs|done..].
  - exists (S (S (time p0))). split; [lia|exact Hf].
Qed.

(** ** Admission *)

Lemma components_of_file src n :
  file_name src = Some n →
  ∃ cs, parent_components src = Some cs ∧ normal_names (components src) = normal_names cs ++ [n].
Proof.
  unfold file_name, parent_components. destruct (last (components src)) as [[| | |m]|] eqn:E; try done.
  intros [= ->]. exists (removelast (components src)). split; [done|].
  apply last_Some in E as [cs ->]. rewrite removelast_last. unfold normal_names. by rewrite omap_app.
Qed.

(** A path and a name that the export frames can carry. *)
Definition sendable (src name : string) : Prop :=
  file_name src = Some name ∧ 0 < str_len src ≤ MAX_FILE_EXPORT_PATH_BYTES ∧
  0 < str_len name ≤ MAX_FILE_EXPORT_NAME_BYTES.

Lemma str_len_pos s : s ≠ "" → 0 < str_len s.
Proof. destruct s as [|c s]; [done|]. intros _. unfold str_len. rewrite as_bytes_String. cbn [length]. lia. Qed.

Lemma resolve_source_ok requested workdir p src name p' :
  resolve w requested workdir p = (Ok (src, name), p') →
  (time p ≤ time p')%nat ∧ cursor p' = cursor p ∧ sendable src name ∧
  ∃ t workspace, (time p ≤ t < time p')%nat ∧ canonicalize w (hist w t) workdir = Some workspace ∧
    inside src workspace || inside src RUN_DIR = true.
Proof.
  unfold resolve. intros Hr. checked Hr. ensured Hr He. asked Hr src' Hc. checked Hr. asked Hr ws Hws. checked Hr.
  ensured Hr Hin. ensured Hr Hlen. chosen Hr n Hn. ensured Hr Hlen'. injection Hr as <- <- <-.
  cbn [next time cursor] in *. split; [lia|]. split; [done|]. split.
  { destruct (file_name src') as [m|] eqn:Hm; [|done]. destruct (str_eqb m "") eqn:Em; [done|].
    injection Hn as ->. apply Z.leb_le in Hlen, Hlen'. apply bool_decide_eq_false in Em.
    pose proof (str_len_pos n Em). split; [done|]. split; [|lia]. split; [|lia].
    apply str_len_pos. by intros ->. }
  eexists _, ws. split; [|split; [exact Hws|done]]. cbn. lia.
Qed.

(** The path rules, at some time of the run. *)
Definition allowed (lo hi : nat) (workdir src : string) : Prop :=
  ∃ t workspace, (lo ≤ t < hi)%nat ∧ canonicalize w (hist w t) workdir = Some workspace ∧
    inside src workspace || inside src RUN_DIR = true.
Lemma allowed_weaken lo hi lo' hi' workdir src :
  allowed lo hi workdir src → (lo' ≤ lo)%nat → (hi ≤ hi')%nat → allowed lo' hi' workdir src.
Proof. intros (t & ws & ? & ? & ?) ??. exists t, ws. split; [lia|done]. Qed.

Lemma admit_ok requested workdir p a p' :
  admit_source w requested workdir p = (Ok a, p') →
  ∃ src name file fp l,
    a = mk_admitted src name file fp (directories_of None (root_ino w) l) name ∧
    (l ++ [(file, name)]).*2 = normal_names (components src) ∧ sendable src name ∧
    allowed (time p) (time p') workdir src ∧ fp_len fp ≤ MAX_EXPORT_FILE_BYTES ∧
    walk (time p) (time p') (root_ino w :: (l ++ [(file, name)]).*1) (l ++ [(file, name)]).*2 ∧
    ∃ t, (time p ≤ t < time p')%nat ∧ fs_fingerprint (hist w t) file = Some fp.
Proof.
  unfold admit_source. intros Hr. step Hr. destruct a0 as [src name].
  apply resolve_source_ok in E as (Ht0 & _ & Hsend & Hallow). pose proof (proj1 Hsend) as Hname.
  destruct (components_of_file src name Hname) as (cs & Hcs & Hnames). rewrite Hcs in Hr.
  chosen Hr parent Hp. injection Hp as <-. unfold pin_directories in Hr.
  step Hr. checked E. asked E rt Hroot. apply bind_Some in Hroot as (n & _ & Hroot).
  destruct (i_body n); try done. injection Hroot as <-.
  apply (pin_components_ok None (root_ino w) cs []) in E as (Ht1 & _ & l & -> & Hl & Hw). cbn [app] in *.
  destruct (last_directory None (root_ino w) l) as (d & Hd & Hlast). rewrite Hd in Hr.
  chosen Hr dfd Hdfd. injection Hdfd as <-. rewrite Hname in Hr. chosen Hr member Hm. injection Hm as <-.
  checked Hr. asked Hr before Hb. ensured Hr Hk. checked Hr. asked Hr fd Ho. checked Hr. asked Hr opened Hop.
  ensured Hr Hsame. apply andb_true_iff in Hsame as [_ Hsame]. asked Hr m Hmeta. ensured Hr Hlen.
  step Hr. injection Hr as <- <-. apply validate_ok in E as (_ & _ & tv & Htv & _). cbn [next time] in *.
  exists src, name, fd, m, l. split; [done|]. split; [by rewrite fmap_app, Hl, Hnames|]. split; [done|].
  split; [apply (allowed_weaken _ _ _ _ _ _ Hallow); lia|]. split; [by apply Z.leb_le|]. split.
  - rewrite !fmap_app. apply (walk_snoc _ _ (root_ino w :: l.*1) _ (dir_fd d) _ _ (S (time p1)));
      [apply Hw; [lia..|apply walk_one]|done|lia|].
    eapply (entry_bound _ _ _ _ before _ opened S_IFREG); [done|exact Hb|exact Hop|done..].
  - eexists. split; [|exact Hmeta]. cbn [next time]. lia.
Qed.

(** ** Reading *)

Lemma read_ok i limit p o p' :
  read w i limit p = (Ok o, p') →
  time p' = S (time p) ∧
  match o with
  | None => cursor p' = cursor p
  | Some got => cursor p' = (cursor p + length got)%nat ∧
      ∃ bs k, i_body <$> hist w (time p) !! i = Some (Regular bs) ∧
        got = take k (drop (cursor p) bs) ∧ (k ≤ limit)%nat ∧ ((0 < limit)%nat → (0 < k)%nat)
  end.
Proof.
  unfold read. destruct (reads w (time p)) as [n| |]; [|by intros [= <- <-]|done].
  destruct (i_body <$> _) as [[|bs|]|] eqn:E; try done. intros [= <- <-]. cbn. split; [done|]. split; [done|].
  exists bs, (Nat.min limit (S n)). split; [done|]. split; [done|]. split; lia.
Qed.

Lemma read_once_ok fuel i limit : ∀ p got p',
  read_once w fuel i limit p = (Ok got, p') →
  cursor p' = (cursor p + length got)%nat ∧
  ∃ t bs k, (time p ≤ t < time p')%nat ∧ i_body <$> hist w t !! i = Some (Regular bs) ∧
    got = take k (drop (cursor p) bs) ∧ (k ≤ limit)%nat ∧ ((0 < limit)%nat → (0 < k)%nat).
Proof.
  induction fuel as [|fuel IH]; intros p got p' Hr; cbn in Hr; [done|].
  checked Hr. step Hr. apply read_ok in E as [Ht Ho]. destruct a as [got'|].
  - checked Hr. injection Hr as <- <-. destruct Ho as (Hc & bs & k & Hb & Hg & Hk & Hk').
    cbn [next time cursor] in *. split; [done|]. exists (S (time p)), bs, k. split_and!; try done; lia.
  - apply IH in Hr as (Hc & t & bs & k & Hti & Hb & Hg & Hk). cbn [next time cursor] in *. rewrite Ho in *.
    split; [done|]. exists t, bs, k. split_and!; try done; try lia; apply Hk.
Qed.

(** Each piece was in the file, at its offset, when it was read, one after the other. *)
Fixpoint pieces_read (lo hi : nat) (i : Ino) (off : nat) (cs : list bytes) : Prop :=
  match cs with
  | [] => True
  | c :: cs => ∃ t body, (lo ≤ t < hi)%nat ∧ i_body <$> hist w t !! i = Some (Regular body) ∧
      c = take (length c) (drop off body) ∧ pieces_read (S t) hi i (off + length c) cs
  end.
Lemma pieces_weaken lo hi lo' hi' i cs : ∀ off,
  pieces_read lo hi i off cs → (lo' ≤ lo)%nat → (hi ≤ hi')%nat → pieces_read lo' hi' i off cs.
Proof.
  revert lo lo'. induction cs as [|c cs IH]; intros lo lo' off; [done|]. cbn.
  intros (t & body & Ht & Hb & Hc & Hp) ??. exists t, body. split_and!; [lia|lia|done..|].
  eapply IH; [exact Hp|lia..].
Qed.
Lemma take_own_length {A} k (l : list A) : take k l = take (length (take k l)) l.
Proof. rewrite length_take. destruct (Nat.min_spec k (length l)) as [[? ->]|[? ->]]; [done|]. by rewrite !take_ge. Qed.

(** The loop collects the pieces: a prefix of a file that does not change meanwhile. *)
Lemma read_loop_ok fuel i size turns : ∀ bs h p bs' h' p',
  read_loop w fuel turns i size bs h p = (Ok (bs', h'), p') →
  (length bs ≤ size)%nat → cursor p = length bs →
  (time p ≤ time p')%nat ∧ length bs' = size ∧ cursor p' = length bs' ∧
  (∃ cs, bs' = bs ++ concat cs ∧ h' = foldl hasher_update h cs ∧
     pieces_read (time p) (time p') i (length bs) cs) ∧
  ∀ body, (∀ t, (time p ≤ t < time p')%nat → i_body <$> hist w t !! i = Some (Regular body)) →
    bs `prefix_of` body → bs' `prefix_of` body.
Proof.
  induction turns as [|turns IH]; intros bs h p bs' h' p' Hr Hle Hcur; cbn [read_loop] in Hr;
    destruct (length bs <? size)%nat eqn:Hlt; [by apply run_res_ok in Hr as []| |  |].
  1, 3: apply Nat.ltb_ge in Hlt; injection Hr as <- <- <-; split_and!; try done; try lia;
    exists []; by rewrite app_nil_r.
  step Hr. apply read_once_ok in E as (Hc & t & B & k & Ht & HB & Hg & Hk & _).
  ensured Hr Hne. ensured Hr Hsz. apply Nat.leb_le in Hsz.
  apply IH in Hr as (Ht' & Hl & Hcur' & (cs & -> & -> & Hps) & Hpre); [|rewrite length_app; lia..].
  split; [lia|]. split; [done|]. split; [done|]. split.
  { exists (a :: cs). cbn. rewrite <-app_assoc. split_and!; [done..|].
    exists t, B. split_and!; [lia|lia|done|rewrite <-Hcur, Hg; apply take_own_length|].
    rewrite length_app in Hps. eapply pieces_weaken; [exact Hps|lia..]. }
  intros body Hbody Hbs. apply Hpre; [intros t' ?; apply Hbody; lia|].
  rewrite Hbody in HB by lia. injection HB as <-. rewrite Hg, Hcur. destruct Hbs as [rest ->].
  rewrite drop_app_length. apply prefix_app. apply prefix_take.
Qed.

(** Nothing changes the body of the file in the interval. *)
Definition undisturbed (i : Ino) (lo hi : nat) : Prop :=
  ∀ t, (lo ≤ t ≤ hi)%nat → i_body <$> hist w t !! i = i_body <$> hist w lo !! i.

Lemma read_admitted_ok fuel src name file fp l p x p' tf :
  read_admitted w fuel (mk_admitted src name file fp (directories_of None (root_ino w) l) name) p = (Ok x, p') →
  cursor p = 0%nat → (tf < time p)%nat → fs_fingerprint (hist w tf) file = Some fp →
  pe_source x = src ∧ pe_file_name x = name ∧ blen (pe_bytes x) = Z.max 0 (fp_len fp) ∧
  ∃ tv, (time p ≤ tv < time p')%nat ∧
    (∃ cs, pe_bytes x = concat cs ∧ pe_sha256 x = hasher_finalize (foldl hasher_update hasher_new cs) ∧
       pieces_read (S tf) tv file 0 cs) ∧
    walk (time p) (time p') (root_ino w :: (l ++ [(file, name)]).*1) (l ++ [(file, name)]).*2 ∧
    fs_fingerprint (hist w tv) file = Some fp ∧
    (undisturbed file tf tv →
     ∀ t, (tf ≤ t ≤ tv)%nat → i_body <$> hist w t !! file = Some (Regular (pe_bytes x))).
Proof.
  unfold read_admitted. cbn [ad_fingerprint ad_file ad_source ad_file_name].
  intros Hr Hcur Htf Hfp. step Hr. destruct a as [bs h].
  apply read_loop_ok in E as (Ht & Hl & Hcur' & (cs & Hcs & -> & Hps) & Hpre); [|cbn; lia|done].
  step Hr. apply read_once_ok in E as (_ & tr & B & k & Htr & HB & Hg & _ & Hk). ensured Hr Hempty.
  step Hr. apply validate_ok in E as (_ & Hw & tv & Htv & Hfv). injection Hr as <- <-.
  cbn [pe_source pe_file_name pe_bytes pe_sha256]. split_and!; [done|done|unfold blen; lia|].
  exists tv. split_and!; [lia|lia| |eapply walk_weaken; [exact Hw|lia..]|done|].
  { exists cs. split_and!; [done..|]. eapply pieces_weaken; [exact Hps|lia..]. }
  intros Hsame.
  assert (Hbody : ∀ t, (tf ≤ t ≤ tv)%nat → i_body <$> hist w t !! file = Some (Regular B)).
  { intros t Hti. rewrite Hsame, <-(Hsame tr) by lia. done. }
  assert (Hend : bs = B); [|by subst B].
  destruct (Hpre B) as [rest ->]; [intros t ?; apply Hbody; lia|apply prefix_nil|].
  apply Nat.eqb_eq in Hempty. rewrite Hg, Hcur', drop_app_length in Hempty.
  destruct rest; [by rewrite app_nil_r|]. specialize (Hk ltac:(lia)). destruct k; [lia|done].
Qed.

(** ** The prepared file *)

(** The prepared file was the regular file [f] at the names of its path: reached without
    links before and after it was read, with the same fingerprint; its bytes are the
    pieces read from [f] in between, and the whole contents if nothing changed those. *)
Record snapshot (lo hi : nat) (workdir : string) (x : PreparedExport) (tf tv : nat) : Prop := {
  snap_allowed : allowed lo hi workdir (pe_source x);
  snap_name : sendable (pe_source x) (pe_file_name x);
  snap_size : blen (pe_bytes x) ≤ MAX_EXPORT_FILE_BYTES;
  snap_times : (lo ≤ tf < tv)%nat ∧ (tv < hi)%nat;
  snap_file : ∃ fds f tr, (tf < tr ≤ tv)%nat ∧
    head fds = Some (root_ino w) ∧ last fds = Some f ∧
    walk lo tr fds (normal_names (components (pe_source x))) ∧
    walk tr hi fds (normal_names (components (pe_source x))) ∧
    (∃ fp, fs_fingerprint (hist w tf) f = Some fp ∧ fs_fingerprint (hist w tv) f = Some fp ∧
       blen (pe_bytes x) = Z.max 0 (fp_len fp)) ∧
    (∃ cs, pe_bytes x = concat cs ∧ pe_sha256 x = hasher_finalize (foldl hasher_update hasher_new cs) ∧
       pieces_read (S tf) tv f 0 cs) ∧
    (undisturbed f tf tv →
     ∀ t, (tf ≤ t ≤ tv)%nat → i_body <$> hist w t !! f = Some (Regular (pe_bytes x)));
}.

Lemma prepare_snapshot fuel requested workdir p x p' :
  prepare w fuel requested workdir p = (Ok (Prepared x), p') →
  ∃ tf tv, snapshot (time p) (time p') workdir x tf tv.
Proof.
  unfold prepare. destruct (admit_source w requested workdir p) as [[a|e|] p1] eqn:Ea; [| |done].
  2: by destruct (budget_check w p1) as [[] ?].
  apply admit_ok in Ea as (src & name & file & fp & l & -> & Hnames & Hname & Hallow & Hlen & Hw & tf & Htf & Hfp).
  destruct (read_admitted _ _ _ _) as [[y|e|] p2] eqn:Er; try done. intros [= -> <-].
  apply (read_admitted_ok _ _ _ _ _ _ _ _ _ tf) in Er
    as (<- & <- & Hblen & tv & Htv & Hcs & Hw' & Hfv & Hbody); [|done|cbn; lia|done].
  cbn [time] in *. exists tf, tv. split; try done.
  - eapply allowed_weaken; [exact Hallow|lia..].
  - unfold MAX_EXPORT_FILE_BYTES in *. lia.
  - lia.
  - exists (root_ino w :: (l ++ [(file, pe_file_name x)]).*1), file, (time p1). split; [lia|]. split; [done|].
    split. { rewrite fmap_app. change (root_ino w :: ?a ++ ?b) with ((root_ino w :: a) ++ b). apply last_snoc. }
    rewrite <-Hnames. split_and!; [exact Hw|exact Hw'|by exists fp|exact Hcs|exact Hbody].
Qed.

(** ** The preparation ends *)

(** No step panics but a read that runs out of fuel. *)
Definition total {A} (m : R A) : Prop := ∀ p, (m p).1 ≠ Panic.
Lemma safe_then {A B} (m : R A) (f : A → R B) p :
  (m p).1 ≠ Panic → (∀ a p', m p = (Ok a, p') → (f a p').1 ≠ Panic) → ((m ≫= f) p).1 ≠ Panic.
Proof. unfold mbind, r_bind. destruct (m p) as [[a|e|] p1]; [|done..]. intros _ Hf. by apply Hf. Qed.
Lemma total_bind {A B} (m : R A) (f : A → R B) : total m → (∀ a, total (f a)) → total (m ≫= f).
Proof. intros Hm Hf p. apply safe_then; [apply Hm|]. intros. apply Hf. Qed.
Lemma total_ret {A} (a : A) : total (mret a).
Proof. done. Qed.
Lemma total_res {A} (r : res A) : r ≠ Panic → total (r_res r).
Proof. by intros Hr p. Qed.
Lemma ensure_total' c fmt : total (r_res (ensure c fmt)).
Proof. by destruct c. Qed.
Lemma check_total : total (budget_check w).
Proof. intros p. unfold budget_check. by repeat case_match. Qed.
Lemma sys_total {A} what (f : Fs → option A) : total (sys w what f).
Proof. intros p. unfold sys. by repeat case_match. Qed.
Lemma read_total i limit : total (read w i limit).
Proof. intros p. unfold read. by repeat case_match. Qed.

#[local] Hint Resolve ensure_total' check_total sys_total read_total : source_total.
#[local] Ltac totality :=
  repeat first
    [ solve [auto with source_total nocore] | apply total_ret
    | apply total_bind; [|intros]
    | apply total_res; by repeat case_match
    | done
    | case_match ].

Lemma resolve_total requested workdir : total (resolve w requested workdir).
Proof. unfold resolve. totality. Qed.
Lemma pin_component_total ds c : total (pin_component w ds c).
Proof. unfold pin_component, fstatat, openat, fstat. totality. Qed.
Lemma pin_components_total cs : ∀ ds, total (pin_components w ds cs).
Proof.
  induction cs as [|c cs IH]; intros ds; [apply total_ret|].
  apply total_bind; [apply pin_component_total|done].
Qed.
Lemma validate_windows_total ds : total (validate_windows w ds).
Proof.
  induction ds as [|d ds IH]; [apply total_ret|]. destruct ds as [|d' ds]; [apply total_ret|].
  cbn [validate_windows]. unfold fstatat, fstat. totality.
Qed.
Lemma validate_total a : total (validate w a).
Proof.
  unfold validate, fstatat, fstat, metadata.
  apply total_bind; [apply check_total|intros _]. apply total_bind; [apply validate_windows_total|intros _].
  totality.
Qed.
#[local] Hint Resolve validate_total : source_total.
Lemma admit_total requested workdir : total (admit_source w requested workdir).
Proof.
  unfold admit_source, fstatat, fstat, metadata, openat, pin_directories, open_root.
  apply total_bind; [apply resolve_total|intros [src name]].
  apply total_bind; [by apply total_res; repeat case_match|intros cs].
  apply total_bind; [do 2 (apply total_bind; [totality|intros ?]); apply pin_components_total|intros ds].
  totality.
Qed.

Section Deadline.
Context (last_call : nat) (Hdeadline : ∀ t, (last_call ≤ t)%nat → deadline w ≤ clock w t).

(** Past the last call of the budget a check fails. *)
Lemma late_check p : (last_call ≤ time p)%nat → ∃ e, budget_check w p = (Err e, next p).
Proof.
  intros Hp. unfold budget_check. destruct (cancelled w (time p)); [by eexists|].
  rewrite (proj2 (Z.ltb_ge _ _) (Hdeadline _ Hp)). by eexists.
Qed.

Lemma read_once_ends i limit fuel : ∀ p,
  (last_call ≤ fuel + time p)%nat → (read_once w (S fuel) i limit p).1 ≠ Panic.
Proof.
  induction fuel as [|fuel IH]; intros p Hp.
  { destruct (late_check p) as [e E]; [done|]. cbn. unfold mbind, r_bind. by rewrite E. }
  destruct (decide (last_call ≤ time p)%nat) as [Hlate|].
  { destruct (late_check p Hlate) as [e E]. cbn. unfold mbind, r_bind. by rewrite E. }
  change (read_once w (S (S fuel)) i limit)
    with (_ ← budget_check w;
          o ← read w i limit;
          match o with
          | None => read_once w (S fuel) i limit
          | Some bs => _ ← budget_check w; mret bs
          end).
  apply safe_then; [apply check_total|]. intros u p1 ->%check_ok.
  apply safe_then; [apply read_total|]. intros [got|] p2 [Ht _]%read_ok.
  - apply safe_then; [apply check_total|]. done.
  - apply IH. rewrite Ht. cbn. lia.
Qed.

Lemma read_loop_ends fuel turns i size : ∀ bs h p,
  (last_call ≤ fuel)%nat → (size ≤ length bs + turns)%nat →
  (read_loop w (S fuel) turns i size bs h p).1 ≠ Panic.
Proof.
  induction turns as [|turns IH]; intros bs h p Hf Hs; cbn [read_loop];
    destruct (length bs <? size)%nat eqn:Hlt; try done.
  { apply Nat.ltb_lt in Hlt. lia. }
  apply safe_then; [apply read_once_ends; lia|]. intros got p1 _.
  apply safe_then; [apply ensure_total'|]. intros _ p2 [Hne ->]%run_ensure_ok.
  apply safe_then; [apply ensure_total'|]. intros _ p3 [_ ->]%run_ensure_ok.
  apply IH; [done|]. rewrite length_app. destruct got; [done|]. cbn. lia.
Qed.

Lemma prepare_ends fuel requested workdir p :
  (last_call ≤ fuel)%nat → (prepare w (S fuel) requested workdir p).1 ≠ Panic.
Proof.
  intros Hf. unfold prepare. destruct (admit_source w requested workdir p) as [[a|e|] p1] eqn:Ea.
  - assert ((read_admitted w (S fuel) a (mk_point (time p1) 0)).1 ≠ Panic) as Hr.
    { unfold read_admitted. apply safe_then; [apply read_loop_ends; cbn; lia|]. intros [bs h] p2 _.
      apply safe_then; [apply read_once_ends; lia|]. intros got p3 _.
      apply safe_then; [apply ensure_total'|]. intros _ p4 _.
      apply safe_then; [apply validate_total|]. done. }
    destruct (read_admitted w (S fuel) a (mk_point (time p1) 0)) as [[x|e|] p2]; done.
  - by destruct (budget_check w p1) as [[] ?].
  - pose proof (admit_total requested workdir p) as Ht. by rewrite Ea in Ht.
Qed.
End Deadline.
End SourceProofs.
