(* ===== verification/ExportEnd.v ===== *)
(** * From a file of the container to a file of the host

    The reading of the source, the frames on the socket and the host's transfers
    together: what the operator finds in the downloads is what was read from the file in the
    container. *)

From stdpp Require Import base list gmap strings fin_maps.
From Stdlib Require Import ZArith Lia Bool.
From S2P Require Import Prelude OrderedMap AttachTypes AttachCodec AttachProofs AttachWire Clipboard WorkflowVerify Paths FileExport ExportPaths ExportProofs ExportDelivery FileSource SourceProofs.

#[local] Open Scope Z_scope.

(** ** Frames on the socket *)

Lemma receive_sent e fs : ∀ wire fuel,
  send_frames fs = Ok wire → Forall wf_server fs →
  Forall (λ f, ∀ r, f ≠ ServerFrame.Shutdown r) fs → (length fs < fuel)%nat →
  receive_frames fuel (mk_stream wire e) = (fs, bail "attach socket closed unexpectedly: {e}").
Proof.
  induction fs as [|f fs IH]; intros wire fuel Hs Hwf Hsd Hf; destruct fuel as [|fuel]; cbn in Hf; try lia.
  { by injection Hs as <-. }
  cbn in Hs. destruct (encode_server f) as [b| |] eqn:Hb; [|done..]. cbn in Hs.
  destruct (send_frames fs) as [bs| |]; [|done..]. injection Hs as <-.
  apply Forall_cons in Hwf as [Hwf Hwfs]. apply Forall_cons in Hsd as [Hsd Hsds].
  destruct (server_decodes f b Hwf Hb) as (tag & p & -> & Hl & Hd).
  destruct (read_frame_encoded tag p bs e Hl) as (body & -> & Hr). cbn [receive_frames data ending app].
  unfold read_server_frame. rewrite Hr, res_bind_Ok, Hd. cbn.
  rewrite (IH bs fuel eq_refl Hwfs Hsds) by lia. by destruct f; try destruct (Hsd reason).
Qed.

Lemma sent_length fs : ∀ wire,
  send_frames fs = Ok wire → Forall wf_server fs → (length fs ≤ length wire)%nat.
Proof.
  induction fs as [|f fs IH]; intros wire Hs Hwf; [cbn; lia|].
  apply Forall_cons in Hwf as [Hwf Hwfs]. cbn in Hs.
  destruct (encode_server f) as [b| |] eqn:Hb; [|done..]. cbn in Hs.
  destruct (send_frames fs) as [bs| |]; [|done..]. injection Hs as <-.
  destruct (server_decodes f b Hwf Hb) as (tag & p & -> & _). specialize (IH bs eq_refl Hwfs).
  rewrite length_app. unfold encode. cbn [length]. lia.
Qed.

Lemma send_encodable fs : Forall server_encodable fs → ∃ wire, send_frames fs = Ok wire.
Proof.
  induction 1 as [|f fs Hf _ [wire IH]]; [by exists []|]. cbn.
  destruct (encode_server_outcome f) as [[_ [b ->]]|[Hn _]]; [|done]. cbn. rewrite IH. by eexists.
Qed.

Lemma chunk_frames_ok id cs : ∀ o,
  is_u64 id → 0 ≤ o → o + blen (concat cs) ≤ U64_MAX →
  Forall (λ c, 0 < length c ≤ Z.to_nat MAX_FILE_EXPORT_CHUNK_BYTES)%nat cs →
  Forall (λ f, wf_server f ∧ server_encodable f ∧ ∀ r, f ≠ ServerFrame.Shutdown r) (chunk_frames id o cs).
Proof.
  induction cs as [|b cs IH]; intros o Hid Ho Hmax Hcs; [constructor|].
  apply Forall_cons in Hcs as [Hb Hcs]. cbn [concat] in Hmax. rewrite blen_app in Hmax.
  pose proof (blen_nonneg b). pose proof (blen_nonneg (concat cs)).
  constructor; [|apply IH; [done|lia|lia|done]]. cbn. split_and!; try done.
  - unfold is_u64, U64_MAX in *. lia.
  - unfold blen. lia.
  - unfold blen. unfold MAX_FILE_EXPORT_CHUNK_BYTES in *. lia.
Qed.

Lemma emitted_ok id x reveal open :
  is_u64 id → sendable (pe_source x) (pe_file_name x) → wf_str (pe_source x) → wf_str (pe_file_name x) →
  blen (pe_bytes x) ≤ U64_MAX → length (pe_sha256 x) = FILE_EXPORT_DIGEST_BYTES →
  Forall (λ f, wf_server f ∧ server_encodable f ∧ ∀ r, f ≠ ServerFrame.Shutdown r)
    (emit_prepared_export id x reveal open).
Proof.
  intros Hid (_ & Hsrc & Hname) Hws Hwn Hmax Hsha. pose proof (blen_nonneg (pe_bytes x)).
  constructor; [|apply Forall_app; split].
  - cbn. split_and!; try done; try lia; unfold is_u64, U64_MAX in *; lia.
  - apply chunk_frames_ok; [done|lia| |apply chunks_bounds, chunk_size_pos].
    rewrite concat_chunks by apply chunk_size_pos. lia.
  - apply Forall_singleton. cbn. by split_and!.
Qed.

Lemma emitted_received id x reveal open e :
  Forall (λ f, wf_server f ∧ server_encodable f ∧ ∀ r, f ≠ ServerFrame.Shutdown r)
    (emit_prepared_export id x reveal open) →
  ∃ wire, send_frames (emit_prepared_export id x reveal open) = Ok wire ∧
    ∀ fuel, (length wire < fuel)%nat →
      (receive_frames fuel (mk_stream wire e)).1 = emit_prepared_export id x reveal open.
Proof.
  intros Hok. destruct (send_encodable (emit_prepared_export id x reveal open)) as [wire Hw].
  { eapply Forall_impl; [exact Hok|]. by intros f (_ & ? & _). }
  assert (Hwf : Forall wf_server (emit_prepared_export id x reveal open)).
  { eapply Forall_impl; [exact Hok|]. by intros f (? & _). }
  exists wire. split; [done|]. intros fuel Hf. pose proof (sent_length _ _ Hw Hwf).
  rewrite (receive_sent e _ wire fuel Hw Hwf); [done| |lia].
  eapply Forall_impl; [exact Hok|]. by intros f (_ & _ & ?).
Qed.


(** C18: Preparing an export ends.  Whatever the file system does and however often reads
    are interrupted, if every call from the [n]-th on finds the deadline passed, the
    preparation returns, with a file or an error, after at most [n + 1] tries of any
    one read. *)
Theorem preparation_ends `{Sha256} (w : Around) n fuel requested workdir p :
  (∀ t, (n ≤ t)%nat → deadline w ≤ clock w t) → (n < fuel)%nat →
  ∃ r p', prepare w fuel requested workdir p = (Ok r, p').
Proof.
  intros Hd Hn. destruct fuel as [|fuel]; [lia|].
  pose proof (prepare_ends w n Hd fuel requested workdir p ltac:(lia)) as Hp.
  destruct (prepare w (S fuel) requested workdir p) as [[r|e|] p'] eqn:E; [by exists r, p'| |done].
  exfalso. revert E. unfold prepare. by repeat case_match.
Qed.


(** ** A concrete export *)

Section Sample.
Import SampleHash.

Definition sample_dir (names : gmap string Ino) : Inode :=
  mk_inode (S_IFDIR + 493) 0 0 4096 2 (1, 0) (1, 0) (Dir names).
Definition sample_fs : Fs :=
  {[(1, 1) := sample_dir {["w" := (1, 2)]};
    (1, 2) := sample_dir {["x" := (1, 3)]};
    (1, 3) := mk_inode (S_IFREG + 420) 0 0 2 1 (1, 0) (1, 0) (Regular [byte_of_Z 65; byte_of_Z 66])]}.
(** Every third call is interrupted if it is a read. *)
Definition sample_around (limit : Z) : Around :=
  mk_around (λ _, sample_fs) (λ t, Z.of_nat t) (λ _, false) (λ _, false)
    (λ t, if (t mod 3 =? 0)%nat then ReadInterrupted else Gives 0)
    (λ _ path, Some path) (1, 1) limit.

Definition sample_export : PreparedExport :=
  mk_prepared "/w/x" "x" [byte_of_Z 65; byte_of_Z 66] (sha256 [byte_of_Z 65; byte_of_Z 66]).
Definition sample_end : Point :=
  (prepare (sample_around 1000) 10 " x " "/w" (mk_point 0 0)).2.
Lemma sample_prepares :
  prepare (sample_around 1000) 10 " x " "/w" (mk_point 0 0) = (Ok (Prepared sample_export), sample_end).
Proof. vm_compute. reflexivity. Qed.


Lemma preparation_ends_witness :
  ∃ r p', prepare (sample_around 5) 6 " x " "/w" (mk_point 0 0) = (Ok r, p').
Proof. apply (preparation_ends (sample_around 5) 5); [cbn; lia|lia]. Defined.

End Sample.
